(* ===== verification/_CoqProject ===== *)
-Q . S2P
Prelude.v
Host.v
LendingTypes.v
Pause.v
BorrowStorage.v
InterestRate.v
RiskMonitor.v
Borrow.v
Scenario.v
Interest.v
DebtAccounting.v
Vault.v
FlashLoan.v
Views.v
Specification.v
Commitments.v
Delegation.v
DataStore.v
Amm.v
Bridge.v
BridgeSafety.v
Upgrade.v
UpgradeSafety.v
Stablecoin.v
StablecoinSafety.v
Wallet.v
WalletSafety.v
HelloTypes.v
HelloParams.v
Governance.v
HelloCalls.v
ParamSafety.v
HelloConfig.v
GovernanceSafety.v
GovernanceLimits.v
PositionTypes.v
Oracle.v
Limits.v
Reserves.v
Positions.v
HelloFlash.v
PositionCalls.v
PositionSafety.v
Books.v
PositionOutcomes.v
PositionRefinement.v
PositionTheorems.v
PositionRuns.v
FlashTheorems.v
CrossAsset.v
CrossTheorems.v
DebtToken.v
DebtTokenSafety.v
LiquidationQueue.v
QueueSafety.v
Rebalancing.v
Monitor.v
MonitorSafety.v
OracleMath.v
Cache.v
MessageBus.v
ClientRetry.v
ClientMonitor.v
ClientHttp.v
Indexer.v
IndexerSafety.v
IndexerTheorems.v
IndexerParser.v
IndexerRuns.v
IndexerService.v
IndexerQueries.v
MigrationHub.v
Meta.v
Frames.v
Lending.v
Invariants.v
Liquidation.v
AccessControl.v
RuntimeChecks.v
Accounting.v
