(* ===== verification/Prelude.v ===== *)
(** * StellarLend: a verification development

    The program is a set of Soroban smart contracts (Rust), under
    [src/stellar-lend/contracts], with a client library and an indexer of
    events beside them.  This development models the contracts entry point by
    entry point - lending, the older and larger lending contract
    [hello-world], bridge, AMM, stablecoin, institutional wallet, delegation
    registry, data store, upgrade manager, migration hub - the shared message
    bus and cache, the loops of the client, and the indexer, whose parts run
    concurrently; it proves what their operations do and what holds in every
    state that invocations lead to.  File names below are relative to the
    folder of the contracts.

    ** The contracts and the files that model them

    The lending contract ([lending/src]): users post collateral, borrow at a
    variable or a smoothed stable rate, and are liquidated below a health
    factor; the admin sets limits, prices come from an oracle.
      - [LendingTypes]: the enums and stored records of all its modules.  Each
        [*DataKey] enum is one record of storage: a unit key is an [option]
        field, a keyed one a finite map; an absent entry is [None].
      - [Pause] (pause.rs), [RiskMonitor] (risk_monitor.rs), [InterestRate]
        (interest_rate.rs), [BorrowStorage] and [Borrow] (borrow.rs), [Vault]
        (deposit.rs, withdraw.rs), [FlashLoan] (flash_loan.rs), [Views]
        (views.rs, invariants.rs), [Commitments] (commitments.rs), [Meta]
        (meta.rs, token_receiver.rs): one definition per function, with the
        function's name.
      - [Lending] (lib.rs): the guards of the entry points, the type [Call] of
        state-changing invocations, [dispatch], and the reachable states.
      - [Specification] (the folder spec, rewards.rs): the contract's own
        reference functions, one Module each, and the rewards.
      - [RuntimeChecks]: the testing aids, which are the rest of invariants.rs
        (checks that compare a state with measurements made before) and the
        explorer of state_machine.rs.
    The delegation registry ([delegation-registry/src/lib.rs]): [Delegation].
    The data store ([lending/src/data_store.rs]): [DataStore].
    The AMM router ([amm/src]): [Amm].
    The cross-chain bridge ([bridge/src/bridge.rs]): [Bridge], [BridgeSafety].
    The upgrade manager ([common/src/upgrade.rs]), to which the upgrade entry
    points of the others forward: [Upgrade], [UpgradeSafety].
    The stablecoin ([stablecoin/src/lib.rs]): [Stablecoin], [StablecoinSafety].
    The institutional wallet ([institutional-wallet/src]): [Wallet],
    [WalletSafety].
    The migration hub ([migration-hub/src]): [MigrationHub].

    The hello-world contract ([hello-world/src]) is several systems in one.
    Its administration:
      - [HelloTypes] (the data), [HelloParams] (admin.rs, risk_params.rs,
        risk_management.rs, interest_rate.rs), [Governance] (governance.rs,
        multisig.rs), [HelloCalls] (timelock.rs, the entry points in
        lib.rs, and the states these reach), with the theorems in
        [ParamSafety], [GovernanceSafety], [GovernanceLimits]; and [HelloConfig]
        (config.rs, config_snapshot.rs, recovery.rs), which no entry point calls.
    Its positions, which read the administration:
      - [PositionTypes]: the data of the modules below, their error enums and
        the conversions of errors.rs.
      - [Oracle] (oracle.rs), [Limits] (rate_limiter.rs, circuit_breaker.rs,
        intents.rs, mev_protection.rs), [Reserves] (reserve.rs, treasury.rs,
        credit_score.rs, analytics.rs), [Positions] (deposit.rs, withdraw.rs,
        borrow.rs, repay.rs, liquidate.rs, multi_collateral.rs,
        reentrancy.rs), [HelloFlash] (flash_loan.rs), [PositionCalls] (the
        entry points of lib.rs and the reachable states of the contract).
      - [Books]: an abstract book of collateral, debts, totals and reserve,
        and the rules a step may follow.  [PositionOutcomes]: what the
        operations do to it.
      - [PositionSafety], [PositionRefinement], [PositionTheorems], [PositionRuns], [FlashTheorems], [OracleMath]: the
        theorems and the concrete runs.
    Modules of hello-world with a storage of their own, one file for each with
    its entry points, and one for its theorems:
      - [CrossAsset], [CrossTheorems] (cross_asset.rs);
        [Rebalancing] (rebalancing.rs), which reads the former; [DebtToken],
        [DebtTokenSafety] (debt_token.rs); [LiquidationQueue], [QueueSafety]
        (liquidation_queue.rs), which reads the positions; [Monitor],
        [MonitorSafety] (monitor.rs).
    The helpers of [common/src]: [MessageBus] (message_bus.rs), [Cache]
    (cache.rs).
    The client ([../client/src]): [ClientRetry] (config.rs, error.rs,
    retry.rs), [ClientMonitor] (monitor.rs, types.rs), [ClientHttp]
    (horizon.rs, soroban_rpc.rs, transaction.rs, lib.rs), which puts the
    requests of the two services into the loops of the others.

    The indexer ([../indexing_system/src]) copies the events of contracts from
    a chain into a database:
      - [Indexer] (parallel_indexer.rs, repository.rs, config.rs, models.rs):
        the data, the tables, the frontiers with their pending results, and the
        dispatcher, workers and commit loop as a step relation, one step per
        exchange over a channel or a lock, in any interleaving.
      - [IndexerParser] (parser.rs, and the fetching of a range in
        parallel_indexer.rs): from logs to events.
      - [IndexerService] (indexer.rs): the older, sequential indexer.
      - [IndexerQueries] (query.rs, cache.rs, models.rs): what readers are
        answered.
      - [IndexerSafety], [IndexerTheorems], [IndexerRuns]: the theorems on the
        parallel indexer and concrete runs.

    They meet in a few places.  The lending contract asks the registry before a
    delegated batch; [Meta] is verified against the interface class
    [Delegation.Registry], and the registry's storage is an instance of it.
    The lending modules share one storage record ([LState]): deposits read the
    debts of borrow.rs for their ratio check, liquidation reads the views,
    commitments and delegated batches call the borrow operations.  In
    hello-world, proposals and timelock operations call the setters of
    [HelloParams] over the record [HState], which the record [PState] of the
    positions contains: an administrative call is a step of the whole contract,
    and for the theorems about the administration alone a position call is one
    step, [HelloCalls.CallPositions], that may update the index and the totals.
    Tokens, and the contracts a wallet's batch or a flash loan calls, are a
    world of their own ([Host], calls of other contracts), given by arbitrary
    functions; what a theorem needs of a token is the class
    [Stablecoin.Tokens], or [PositionCalls.TokenLaws] for the positions: a transfer
    that succeeds moves exactly its amount.

    ** The execution model

    [Host] fixes it.  An operation takes the environment of the invocation
    (ledger time and sequence, who authorised it, the answers of the oracle
    and the registry) and the storage; it returns a value, an error or a trap,
    and the storage written so far.  [invoke] is the boundary: unless the
    operation returned [Ok] the storage is as before, which is what the host
    does with a failed invocation.  [require_auth] asks whether the address has
    authorised the invocation; asking again in the same invocation succeeds,
    which matters only for claims that a call succeeds.  The host
    forbids re-entrant calls, so calls to other contracts cannot change the
    caller's storage.  An [i128], [u64] or [u32] is an integer of [Z] whose
    operations check, saturate or trap at the width ([Prelude]); the release
    profile compiles with overflow checks, so a plain [+] traps.  [I256] is
    the host's 256-bit integer, whose operations trap outside its range.  The
    client's loops run over a world that the network and the clock change.

    ** What the theorems show

      - Whole contracts, by induction over sequences of invocations: the stored
        debt total is the sum of the debts ([Accounting]); settings, vault,
        flash-loan guard, commitments stay well formed ([Invariants]); only
        the admin changes protected settings, and which settings anybody can
        change ([AccessControl]); the key-value store refines a document with
        named copies ([DataStore]); the bridge's records are consistent, an
        execution needs a quorum and happens once ([BridgeSafety]); the AMM's
        callbacks are accepted once and its histories are bounded ([Amm]); the
        code hash the upgrade manager records - it replaces no code - changes by
        a quorum or a rollback, and open proposals can be executed
        ([UpgradeSafety]); collateral is covered by tokens
        ([StablecoinSafety]); a wallet's records are faithful and its batches run
        once, endorsed by admins who signed ([WalletSafety]).
      - hello-world: risk parameters stay in bounds and move slowly, rates
        follow the curve ([ParamSafety]); tallies are the sums of votes,
        proposals follow their life cycle and execute once, in their window
        ([GovernanceSafety]); every entry point takes a step of the abstract
        book or leaves it alone, loans are covered, seizures limited, a
        position's records agree ([PositionTheorems]); flash loans run in
        their order and the lender does not lose by them, if the callback does
        not take from it ([FlashTheorems]); cross-asset totals are the sums of the positions,
        and loans and withdrawals keep the required health ([CrossTheorems]);
        a debt token has one owner ([DebtTokenSafety]); queue entries follow
        their life cycle and the most urgent comes first ([QueueSafety]);
        rebalancings keep their cooldown ([Rebalancing]); the monitor is the
        board of its documentation ([MonitorSafety]).
      - Helpers and client: messages follow their life ([MessageBus]); the
        cache is bounded, reads back what was stored while fewer than 64 other
        keys are used, and drops what was used least recently ([Cache]); retrying and waiting end, with the result
        they should have ([ClientRetry], [ClientMonitor]), also with the
        requests and retries of the services inside; a transaction is submitted
        only after its simulation succeeded, when that is asked for
        ([ClientHttp]).
      - The indexer: results are committed in the order of the blocks, the
        dispatcher's ranges cover the backlog ([IndexerSafety]); whatever the
        interleaving, the events added to the tables are exactly those from the
        start up to the last indexed block ([IndexerTheorems]); failed insertions lose events,
        and a block that cannot be decoded stops its contract ([IndexerRuns]);
        the sequential indexer agrees with the parallel one when nothing fails, and otherwise passes over ranges
        ([IndexerService]); cached answers are current between an invalidation
        and the next ([IndexerQueries]).
      - Around the contracts: the hub's counters ([MigrationHub]), backups of
        the configuration are restored ([HelloConfig]), the explorer generates
        every sequence and stops in time ([RuntimeChecks]), the checks of the
        admin pass after every invocation ([RuntimeChecks]).
      - Outcomes of operations, on the branches that matter: borrow, repay and
        switch ([DebtAccounting]); deposit and withdraw ([Vault]); liquidation,
        bad debt and the global pause ([Liquidation]); flash loans
        ([FlashLoan]); commitments; delegated batches; swaps; slashing.
      - The contract's own specification ([Specification]): the numbered
        properties of its reference functions, for all inputs or with a
        counterexample; borrow, repay, deposit, withdraw, the collateral check,
        the health factor and the liquidation limit are what the references
        say, up to the overflow of the latter; rewards are those of their
        reference and stay within what is emitted.
      - Arithmetic against its mathematical meaning: accrued interest
        ([Interest]), the utilisation curve ([InterestRate]), the health factor
        and liquidation limits ([Views]); the oracle's median, against a
        reference sort, and its time-weighted average ([OracleMath]); repeated
        reads of a debt at one ledger time agree ([Interest]).
      - What the code does not guarantee, on concrete runs: a stable-rate first
        borrow that is counted twice, a withdrawal check that misses one rate
        bucket, unauthenticated hooks and settings, repeatable liquidation and
        slashing, an exchange that ignores signatures, collateral from nothing
        in the cross-asset lending, stored values that are lost at once; and in
        general: stablecoins cannot be redeemed, a wallet's settings cannot
        change, in hello-world no interest accrues, repayments count twice,
        positions and admin need no signature, a proposal passes without
        votes, flash loans cannot be repaid separately, retries do not limit
        the attempts of a message.

    [Frames] and [Scenario] serve the lending files: what the position operations
    leave alone, and a concrete market the examples run on.

    ** Bounds

    The loops of the contracts run over stored lists and are structural; no
    definition of theirs needs fuel.  The two loops of the client take fuel:
    retrying ends with any fuel above [max_retries] and waiting with the fuel
    [ClientMonitor.enough_polls], the polls that fit into the timeout and two
    more; with more fuel nothing changes.  [ClientHttp.retried] gives the retry
    loop the fuel it needs and so is total.  The indexer's loops over a backlog
    take fuel, and as much as the backlog has blocks is enough; the loop that
    drains pending results has their number as its fuel; the service's outer
    loop, which ends only on request or on an error, has any fuel.  Theorems on bridge states assume that
    fewer than [2^64 - 1] messages have been numbered, since the counter
    saturates there and would then reuse an identifier; its other counters
    saturate and the theorems say so.  Histories of the AMM hold at most 1000
    records and commitments at most [MAX_TRIGGERS] triggers, as in the code.

    ** Not modelled

    Time to live of storage entries and the transaction log (no effect on
    values); the modules of [lending/src] that no entry point reaches and that,
    but for one, lib.rs does not declare; in governance.rs the private functions
    that nothing calls; the wrappers amm.rs and bridge.rs of hello-world, which
    no entry point reaches; the explorer's confidence metrics, which are
    floating-point; in the client the transport and the JSON of its requests
    (interfaces); of the indexer the transport to Redis and SQL, the decoding of
    logs by a library (an interface), events by identifier, metrics, the
    start and stop of the process, and reorganisations as steps among the others,
    since nothing calls their handler; the services in other languages, benchmarks and tests.

    ** This file

    The generic layer: the checked, saturating and truncating integer
    operations of Rust at their widths, a record-update notation, sums over
    finite maps, and the hint databases the other files extend. *)

From Stdlib Require Export ZArith Lia Bool.
From stdpp Require Export base tactics option list gmap strings fin_maps.

#[global] Open Scope Z_scope.

(** Lemmas that rewrite or solve goals about machine integers. *)
Create Rewrite HintDb ints.
(** Invariant-preservation lemmas of the contracts' operations. *)
Create HintDb preserves.

(** ** Record update

    [r <| proj := v |>] is the record [r] whose field [proj] is [v].  A record
    type is made updatable by one [Updatable] instance giving its eta
    expansion; the update function of each field is derived from it. *)

Class Updatable (R : Type) : Type := eta_expand : R → R.

Class FieldUpdate {R T : Type} (proj : R → T) : Type :=
  update_field : (T → T) → R → R.

Ltac derive_update R proj :=
  let inst := constr:(_ : Updatable R) in
  let inst := eval red in inst in
  let f := fresh "f" in
  let r := fresh "r" in
  intros f r;
  let body := eval cbv beta in (inst r) in
  let pat := eval pattern (proj r) in body in
  match pat with
  | ?ctx _ =>
      let res := eval cbv beta in (ctx (f (proj r))) in
      exact res
  end.

#[export] Hint Extern 1 (@FieldUpdate ?R ?T ?proj) =>
  (unfold FieldUpdate; derive_update R proj) : typeclass_instances.

Declare Scope update_scope.
Delimit Scope update_scope with upd.

Notation "r <| proj := v |>" := (update_field (proj := proj) (λ _, v) r)
  (at level 1, left associativity, format "r  <| proj  :=  v |>") : update_scope.

#[global] Open Scope update_scope.

(** ** Machine integers

    A Rust integer is a [Z] together with the range of its type.  The
    contracts are built with [overflow-checks = true], so the plain operators
    trap where [checked_*] returns [None]; the saturating operations clamp to
    the range. *)

Definition I128_MIN : Z := - 2 ^ 127.
Definition I128_MAX : Z := 2 ^ 127 - 1.
Definition U32_MAX : Z := 2 ^ 32 - 1.
Definition U64_MAX : Z := 2 ^ 64 - 1.
Definition I256_MIN : Z := - 2 ^ 255.
Definition I256_MAX : Z := 2 ^ 255 - 1.

Definition in_range (lo hi z : Z) : bool := (lo <=? z) && (z <=? hi).
Definition in_i128 : Z → bool := in_range I128_MIN I128_MAX.
Definition in_i256 : Z → bool := in_range I256_MIN I256_MAX.
Definition in_u64 : Z → bool := in_range 0 U64_MAX.
Definition in_u32 : Z → bool := in_range 0 U32_MAX.

(** The value of an operation when it fits its type. *)
Definition fit (rng : Z → bool) (z : Z) : option Z := if rng z then Some z else None.
Definition clamp (lo hi z : Z) : Z := Z.max lo (Z.min hi z).

Definition checked_add (a b : Z) : option Z := fit in_i128 (a + b).
Definition checked_sub (a b : Z) : option Z := fit in_i128 (a - b).
Definition checked_mul (a b : Z) : option Z := fit in_i128 (a * b).
Definition checked_div (a b : Z) : option Z :=
  if b =? 0 then None else fit in_i128 (Z.quot a b).

Definition saturating_add (a b : Z) : Z := clamp I128_MIN I128_MAX (a + b).
Definition saturating_sub (a b : Z) : Z := clamp I128_MIN I128_MAX (a - b).
Definition saturating_mul (a b : Z) : Z := clamp I128_MIN I128_MAX (a * b).
(** [i128::saturating_div] panics on a zero divisor. *)
Definition saturating_div (a b : Z) : option Z :=
  if b =? 0 then None else Some (clamp I128_MIN I128_MAX (Z.quot a b)).

Definition u64_saturating_sub (a b : Z) : Z := Z.max 0 (a - b).
Definition u64_saturating_add (a b : Z) : Z := Z.min U64_MAX (a + b).
Definition u32_saturating_add (a b : Z) : Z := Z.min U32_MAX (a + b).
Definition u64_checked_add (a b : Z) : option Z := fit in_u64 (a + b).
Definition u64_checked_sub (a b : Z) : option Z := fit in_u64 (a - b).

(** [I256] arithmetic of the host: [mul], [add], [div] trap when the result
    does not fit; [to_i128] is partial. *)
Definition i256_add (a b : Z) : option Z := fit in_i256 (a + b).
Definition i256_mul (a b : Z) : option Z := fit in_i256 (a * b).
Definition i256_div (a b : Z) : option Z :=
  if b =? 0 then None else fit in_i256 (Z.quot a b).
Definition i256_to_i128 (a : Z) : option Z := fit in_i128 a.

Lemma in_range_spec lo hi z : in_range lo hi z = true ↔ lo ≤ z ≤ hi.
Proof. unfold in_range. rewrite andb_true_iff, !Z.leb_le. done. Qed.

Lemma in_i128_spec z : in_i128 z = true ↔ I128_MIN ≤ z ≤ I128_MAX.
Proof. apply in_range_spec. Qed.

Lemma fit_Some rng z v : fit rng z = Some v ↔ rng z = true ∧ v = z.
Proof. unfold fit. destruct (rng z); naive_solver. Qed.

Lemma fit_None rng z : fit rng z = None ↔ rng z = false.
Proof. unfold fit. destruct (rng z); naive_solver. Qed.

Lemma checked_add_Some a b v :
  checked_add a b = Some v → v = a + b ∧ in_i128 v = true.
Proof. unfold checked_add. rewrite fit_Some. naive_solver. Qed.

Lemma checked_sub_Some a b v :
  checked_sub a b = Some v → v = a - b ∧ in_i128 v = true.
Proof. unfold checked_sub. rewrite fit_Some. naive_solver. Qed.

Lemma checked_mul_Some a b v :
  checked_mul a b = Some v → v = a * b ∧ in_i128 v = true.
Proof. unfold checked_mul. rewrite fit_Some. naive_solver. Qed.

Lemma checked_div_Some a b v :
  checked_div a b = Some v → v = Z.quot a b ∧ b ≠ 0 ∧ in_i128 v = true.
Proof.
  unfold checked_div. destruct (b =? 0) eqn:E; [done|].
  rewrite fit_Some. apply Z.eqb_neq in E. naive_solver.
Qed.

Lemma fit_in rng z : rng z = true → fit rng z = Some z.
Proof. unfold fit. by intros ->. Qed.
Lemma fits_u64 z : 0 ≤ z ≤ U64_MAX → fit in_u64 z = Some z.
Proof. intros Hz. apply fit_in, in_range_spec, Hz. Qed.

(** The bounds as numerals, so that [lia] can use them. *)
Lemma I128_MAX_eq : I128_MAX = 170141183460469231731687303715884105727.
Proof. reflexivity. Qed.
Lemma I128_MIN_eq : I128_MIN = -170141183460469231731687303715884105728.
Proof. reflexivity. Qed.
Lemma U64_MAX_eq : U64_MAX = 18446744073709551615.
Proof. reflexivity. Qed.
Lemma U32_MAX_eq : U32_MAX = 4294967295.
Proof. reflexivity. Qed.
Lemma I256_MAX_eq : I256_MAX = 57896044618658097711785492504343953926634992332820282019728792003956564819967.
Proof. reflexivity. Qed.
Lemma I256_MIN_eq : I256_MIN = -57896044618658097711785492504343953926634992332820282019728792003956564819968.
Proof. reflexivity. Qed.

#[export] Hint Rewrite I128_MAX_eq I128_MIN_eq U64_MAX_eq U32_MAX_eq I256_MAX_eq I256_MIN_eq : ints.

(** [quot] of non-negative numbers is [div]. *)
Lemma quot_pos a b : 0 ≤ a → 0 < b → Z.quot a b = a / b.
Proof. intros. apply Z.quot_div_nonneg; lia. Qed.

Lemma quot_nonneg a b : 0 ≤ a → 0 < b → 0 ≤ Z.quot a b.
Proof. intros. rewrite quot_pos by lia. apply Z.div_pos; lia. Qed.

(** The checked operations when the result is in range. *)
Lemma checked_mul_fits a b : in_i128 (a * b) = true → checked_mul a b = Some (a * b).
Proof. apply fit_in. Qed.
Lemma checked_add_fits a b : in_i128 (a + b) = true → checked_add a b = Some (a + b).
Proof. apply fit_in. Qed.
Lemma checked_sub_fits a b : in_i128 (a - b) = true → checked_sub a b = Some (a - b).
Proof. apply fit_in. Qed.
Lemma checked_div_fits a b :
  0 ≤ a ≤ I128_MAX → 0 < b → checked_div a b = Some (a / b).
Proof.
  intros Ha Hb. unfold checked_div. rewrite (proj2 (Z.eqb_neq _ _)) by lia.
  rewrite quot_pos by lia. apply fit_in, in_i128_spec.
  assert (0 ≤ a / b) by (apply Z.div_pos; lia).
  assert (a / b ≤ a) by (apply Z.div_le_upper_bound; nia).
  rewrite I128_MIN_eq. lia.
Qed.

(** Turns boolean integer tests in the context into linear facts. *)
Ltac zbool :=
  repeat match goal with
  | H : (_ && _) = true |- _ => apply andb_true_iff in H as [? ?]
  | H : (_ && _) = false |- _ => apply andb_false_iff in H
  | H : (_ || _) = false |- _ => apply orb_false_iff in H as [? ?]
  | H : (_ || _) = true |- _ => apply orb_true_iff in H
  | H : negb _ = true |- _ => apply negb_true_iff in H
  | H : negb _ = false |- _ => apply negb_false_iff in H
  | H : (_ <=? _) = true |- _ => apply Z.leb_le in H
  | H : (_ <=? _) = false |- _ => apply Z.leb_gt in H
  | H : (_ <? _) = true |- _ => apply Z.ltb_lt in H
  | H : (_ <? _) = false |- _ => apply Z.ltb_ge in H
  | H : (_ =? _) = true |- _ => apply Z.eqb_eq in H
  | H : (_ =? _) = false |- _ => apply Z.eqb_neq in H
  | H : bool_decide _ = true |- _ => apply bool_decide_eq_true in H
  | H : bool_decide _ = false |- _ => apply bool_decide_eq_false in H
  | H : ¬ (_ ≠ _) |- _ => apply dec_stable in H
  end.

(** Facts about the checked operations that succeeded. *)
Ltac checked_facts :=
  repeat match goal with
  | H : checked_add _ _ = Some _ |- _ => apply checked_add_Some in H as [? ?]
  | H : checked_sub _ _ = Some _ |- _ => apply checked_sub_Some in H as [? ?]
  | H : checked_mul _ _ = Some _ |- _ => apply checked_mul_Some in H as [? ?]
  | H : checked_div _ _ = Some _ |- _ => apply checked_div_Some in H as (? & ? & ?)
  end.

(** ** Lengths *)

(** The [u32] length of a host vector. *)
Definition len {A} (l : list A) : Z := Z.of_nat (length l).

(** ** Sums over finite maps *)

Section key_sum.
Context {K V : Type} `{Countable K}.
Implicit Types (g : K → V → Z) (m : gmap K V).

(** The sum of what every entry contributes. *)
Definition key_sum (g : K → V → Z) (m : gmap K V) : Z :=
  map_fold (λ k v acc, g k v + acc) 0 m.

Lemma key_sum_empty g : key_sum g ∅ = 0.
Proof. apply map_fold_empty. Qed.
Lemma key_sum_insert_new g m k v :
  m !! k = None → key_sum g (<[k := v]> m) = g k v + key_sum g m.
Proof.
  intros Hk. unfold key_sum. rewrite map_fold_insert_L; [done| |done]. lia.
Qed.
Lemma key_sum_delete g m k : key_sum g (delete k m) = key_sum g m - from_option (g k) 0 (m !! k).
Proof.
  destruct (m !! k) as [v|] eqn:E; simpl.
  - rewrite <- (insert_delete_id m k v E) at 2.
    rewrite key_sum_insert_new by apply lookup_delete_eq. lia.
  - rewrite delete_id by done. lia.
Qed.
Lemma key_sum_insert g m k v :
  key_sum g (<[k := v]> m) = key_sum g m - from_option (g k) 0 (m !! k) + g k v.
Proof.
  rewrite <- insert_delete_eq, key_sum_insert_new by apply lookup_delete_eq.
  rewrite key_sum_delete. lia.
Qed.
Lemma key_sum_nonneg g m :
  (∀ k v, m !! k = Some v → 0 ≤ g k v) → 0 ≤ key_sum g m.
Proof.
  unfold key_sum. induction m as [|k v m Hk Hfold IH] using map_first_key_ind.
  all: intros Hpos.
  - rewrite map_fold_empty. lia.
  - fold (key_sum g (<[k := v]> m)). rewrite key_sum_insert_new by done.
    pose proof (Hpos k v (lookup_insert_eq m k v)).
    assert (0 ≤ key_sum g m); [|lia].
    apply IH. intros k' v' Hk'. apply (Hpos k').
    rewrite lookup_insert_ne; [done|]. intros ->. congruence.
Qed.
End key_sum.

Section map_sum.
Context {K V : Type} `{Countable K}.
Implicit Types (f : V → Z) (m : gmap K V).

(** The sum of a function of the values. *)
Definition map_sum (f : V → Z) (m : gmap K V) : Z := key_sum (λ _, f) m.

(** The contribution of one key. *)
Definition at_key (f : V → Z) (m : gmap K V) (k : K) : Z :=
  from_option f 0 (m !! k).

Lemma map_sum_empty f : map_sum f ∅ = 0.
Proof. apply key_sum_empty. Qed.
Lemma map_sum_insert_new f m k v :
  m !! k = None → map_sum f (<[k := v]> m) = f v + map_sum f m.
Proof. apply (key_sum_insert_new (λ _, f)). Qed.
Lemma map_sum_delete f m k : map_sum f (delete k m) = map_sum f m - at_key f m k.
Proof. apply (key_sum_delete (λ _, f)). Qed.
Lemma map_sum_insert f m k v :
  map_sum f (<[k := v]> m) = map_sum f m - at_key f m k + f v.
Proof. apply (key_sum_insert (λ _, f)). Qed.
Lemma map_sum_nonneg f m :
  (∀ k v, m !! k = Some v → 0 ≤ f v) → 0 ≤ map_sum f m.
Proof. apply (key_sum_nonneg (λ _, f)). Qed.
Lemma map_sum_at_key_le f m k :
  (∀ k v, m !! k = Some v → 0 ≤ f v) → at_key f m k ≤ map_sum f m.
Proof.
  intros Hpos. pose proof (map_sum_delete f m k).
  assert (0 ≤ map_sum f (delete k m)); [|lia].
  apply map_sum_nonneg. intros k' v' Hk'%lookup_delete_Some. naive_solver.
Qed.
End map_sum.

(** Linear arithmetic on the ranges of the integer types. *)
Ltac rlia :=
  unfold in_i128, in_i256, in_u64, in_u32, in_range in *; zbool;
  autorewrite with ints in *; lia.
