(* ===== verification/Host.v ===== *)
(** * Host: the Soroban execution environment

    A contract operation is a function of the invocation's environment and of
    the contract's storage.  It returns a value, returns an error of the
    operation's error type, or traps (a Rust panic or a host error); the
    storage it wrote so far is returned in every case, because an error value
    that a caller inside the contract handles does not undo the writes made
    before it.  [invoke] is the contract's boundary: the host keeps the writes
    of an invocation only when the entry point returned [Ok].  *)

From S2P Require Import Prelude.

(** ** Addresses, environment *)

(** Account and contract addresses are opaque identifiers. *)
Definition Address : Type := positive.
#[export] Instance Address_eq_dec : EqDecision Address := _ : EqDecision positive.
#[export] Instance Address_countable : Countable Address := _ : Countable positive.

(** What an invocation can observe of the ledger and of other contracts.
    [authorized a] says that [a] authorised this invocation, which is what
    [a.require_auth()] checks.  [oracle_price o a] is the result of calling
    [price(a)] on the contract [o], and [registry_validate r d e p] the result
    of calling [validate(d, e, p)] on [r]; [token_balance t a] is the result of
    calling [balance(a)] on the token [t]; [None] is a call that fails, which
    traps the caller.  The host refuses re-entrant calls, so such a call does
    not change the caller's own storage. *)
Record Env : Type := mkEnvironment {
  timestamp : Z;
  sequence : Z;
  authorized : Address → bool;
  oracle_price : Address → Address → option Z;
  registry_validate : Address → Address → Address → Z → option bool;
  token_balance : Address → Address → option Z;
}.

(** An environment in which nothing asks for balances. *)
Definition mkEnv now seq signed prices registry : Env :=
  mkEnvironment now seq signed prices registry (λ _ _, None).

(** ** The contract monad *)

Inductive res (E A : Type) : Type :=
  | Ok (a : A)
  | Err (e : E)
  | Trap.
Arguments Ok {E A} a.
Arguments Err {E A} e.
Arguments Trap {E A}.

Definition M (S E A : Type) : Type := Env → S → res E A * S.

#[export] Instance M_ret {S E} : MRet (M S E) := λ A a _ s, (Ok a, s).
#[export] Instance M_bind {S E} : MBind (M S E) := λ A B k m env s,
  match m env s with
  | (Ok a, s') => k a env s'
  | (Err e, s') => (Err e, s')
  | (Trap, s') => (Trap, s')
  end.

Section ops.
Context {S E : Type}.

(** Reading the environment and the storage; writing the storage. *)
Definition ask {A} (f : Env → A) : M S E A := λ env s, (Ok (f env), s).
Definition gets {A} (f : S → A) : M S E A := λ _ s, (Ok (f s), s).
Definition reads {A} (f : Env → S → A) : M S E A := λ env s, (Ok (f env s), s).
Definition modify (f : S → S) : M S E unit := λ _ s, (Ok tt, f s).

Definition fail {A} (e : E) : M S E A := λ _ s, (Err e, s).
Definition trap {A} : M S E A := λ _ s, (Trap, s).

(** [if c { return Err(e); }] *)
Definition reject_if (c : bool) (e : E) : M S E unit :=
  if c then fail e else mret tt.
(** [o.ok_or(e)?] *)
Definition ok_or {A} (o : option A) (e : E) : M S E A :=
  match o with Some a => mret a | None => fail e end.
(** A plain arithmetic operator, an index or a host call: traps on [None]. *)
Definition unwrap {A} (o : option A) : M S E A :=
  match o with Some a => mret a | None => trap end.
(** [a.require_auth()] *)
Definition require_auth (a : Address) : M S E unit := λ env s,
  if authorized env a then (Ok tt, s) else (Trap, s).

(** Runs [m] only when the condition holds. *)
Definition when (c : bool) (m : M S E unit) : M S E unit :=
  if c then m else mret tt.
End ops.

(** [r.map_err(f)] *)
Definition map_err {S E1 E2 A} (f : E1 → E2) (m : M S E1 A) : M S E2 A := λ env s,
  match m env s with
  | (Ok a, s') => (Ok a, s')
  | (Err e, s') => (Err (f e), s')
  | (Trap, s') => (Trap, s')
  end.

(** [match r { Ok(a) => .., Err(e) => .. }]: the caller handles the error. *)
Definition attempt {S E1 E2 A} (m : M S E1 A) : M S E2 (E1 + A) := λ env s,
  match m env s with
  | (Ok a, s') => (Ok (inr a), s')
  | (Err e, s') => (Ok (inl e), s')
  | (Trap, s') => (Trap, s')
  end.

(** [for x in xs { body }] *)
Fixpoint for_each {S E A} (xs : list A) (body : A → M S E unit) : M S E unit :=
  match xs with
  | [] => mret tt
  | x :: xs' => body x ;; for_each xs' body
  end.

(** The boundary of the contract: writes survive only a successful return. *)
Definition invoke {S E A} (m : M S E A) (env : Env) (s : S) : res E A * S :=
  match m env s with
  | (Ok a, s') => (Ok a, s')
  | (r, _) => (r, s)
  end.

(** ** Running an operation backwards *)

Section inversion.
Context {S E : Type}.
Implicit Types (env : Env) (s : S).

Lemma bind_eq {A B} (m : M S E A) (k : A → M S E B) env s :
  (m ≫= k) env s =
  match m env s with
  | (Ok a, s') => k a env s'
  | (Err e, s') => (Err e, s')
  | (Trap, s') => (Trap, s')
  end.
Proof. reflexivity. Qed.

Lemma bind_run {A B} (m : M S E A) (k : A → M S E B) env s a s' :
  m env s = (Ok a, s') → (m ≫= k) env s = k a env s'.
Proof. rewrite bind_eq. by intros ->. Qed.

Lemma bind_Ok {A B} (m : M S E A) (k : A → M S E B) env s b s'' :
  (m ≫= k) env s = (Ok b, s'') →
  ∃ a s', m env s = (Ok a, s') ∧ k a env s' = (Ok b, s'').
Proof. rewrite bind_eq. destruct (m env s) as [[]]; naive_solver. Qed.

Lemma ret_Ok {A} (a b : A) env s s' :
  (mret a : M S E A) env s = (Ok b, s') → b = a ∧ s' = s.
Proof. cbv. naive_solver. Qed.

Lemma ask_Ok {A} (f : Env → A) env s a s' :
  ask (E := E) f env s = (Ok a, s') → a = f env ∧ s' = s.
Proof. cbv. naive_solver. Qed.

Lemma gets_Ok {A} (f : S → A) env s a s' :
  gets (E := E) f env s = (Ok a, s') → a = f s ∧ s' = s.
Proof. cbv. naive_solver. Qed.

Lemma reads_Ok {A} (f : Env → S → A) env s a s' :
  reads (E := E) f env s = (Ok a, s') → a = f env s ∧ s' = s.
Proof. cbv. naive_solver. Qed.

Lemma modify_Ok (f : S → S) env s u s' :
  modify (E := E) f env s = (Ok u, s') → s' = f s.
Proof. cbv. naive_solver. Qed.

Lemma fail_Ok {A} (e : E) env s (a : A) s' : fail e env s = (Ok a, s') → False.
Proof. cbv. naive_solver. Qed.

Lemma trap_Ok {A} env s (a : A) s' : trap (E := E) env s = (Ok a, s') → False.
Proof. cbv. naive_solver. Qed.

Lemma reject_if_Ok c (e : E) env s u s' :
  reject_if c e env s = (Ok u, s') → c = false ∧ s' = s.
Proof. destruct c; cbv; naive_solver. Qed.

Lemma ok_or_Ok {A} (o : option A) (e : E) env s a s' :
  ok_or o e env s = (Ok a, s') → o = Some a ∧ s' = s.
Proof. destruct o; cbv; naive_solver. Qed.

Lemma unwrap_Ok {A} (o : option A) env s a s' :
  unwrap (E := E) o env s = (Ok a, s') → o = Some a ∧ s' = s.
Proof. destruct o; cbv; naive_solver. Qed.

Lemma require_auth_Ok a env s u s' :
  require_auth (E := E) a env s = (Ok u, s') → authorized env a = true ∧ s' = s.
Proof. unfold require_auth. destruct (authorized env a); naive_solver. Qed.

Lemma attempt_Ok {E1 A} (m : M S E1 A) env s r s' :
  attempt (E2 := E) m env s = (Ok r, s') →
  match r with
  | inr a => m env s = (Ok a, s')
  | inl e => m env s = (Err e, s')
  end.
Proof. unfold attempt. destruct (m env s) as [[]]; naive_solver. Qed.

Lemma map_err_Ok {E1 A} (f : E1 → E) (m : M S E1 A) env s a s' :
  map_err f m env s = (Ok a, s') → m env s = (Ok a, s').
Proof. unfold map_err. destruct (m env s) as [[]]; naive_solver. Qed.

Lemma invoke_Ok {A} (m : M S E A) env s a s' :
  invoke m env s = (Ok a, s') ↔ m env s = (Ok a, s').
Proof. unfold invoke. destruct (m env s) as [[]]; naive_solver. Qed.

(** An invocation that does not succeed leaves no trace in the storage. *)
Lemma invoke_rollback {A} (m : M S E A) env s r s' :
  invoke m env s = (r, s') → (∀ a, r ≠ Ok a) → s' = s.
Proof. unfold invoke. destruct (m env s) as [[]]; naive_solver. Qed.

Lemma invoked_or_kept {A} (m : M S E A) env s :
  (invoke m env s).2 = s ∨ ∃ a s', m env s = (Ok a, s') ∧ (invoke m env s).2 = s'.
Proof. unfold invoke. destruct (m env s) as [[a|e|] s']; [right; eauto|by left..]. Qed.
End inversion.

(** Decomposes a successful run into the runs of its parts; [run_prim] is the
    hook for the primitive operations a contract adds. *)
Ltac run_prim H := idtac.

Ltac run_step H :=
  lazymatch type of H with
  | (_ ≫= _) _ _ = (Ok _, _) =>
      let a := fresh "v" in let s := fresh "s" in
      let H1 := fresh "Hrun" in let H2 := fresh "Hrun" in
      apply bind_Ok in H as (a & s & H1 & H2); run_step H1; run_step H2
  | mret _ _ _ = (Ok _, _) => apply ret_Ok in H as [? ?]
  | ask _ _ _ = (Ok _, _) => apply ask_Ok in H as [? ?]
  | gets _ _ _ = (Ok _, _) => apply gets_Ok in H as [? ?]
  | reads _ _ _ = (Ok _, _) => apply reads_Ok in H as [? ?]
  | modify _ _ _ = (Ok _, _) => apply modify_Ok in H
  | fail _ _ _ = (Ok _, _) => exfalso; exact (fail_Ok _ _ _ _ _ H)
  | trap _ _ = (Ok _, _) => exfalso; exact (trap_Ok _ _ _ _ H)
  | reject_if _ _ _ _ = (Ok _, _) => apply reject_if_Ok in H as [? ?]
  | ok_or _ _ _ _ = (Ok _, _) => apply ok_or_Ok in H as [? ?]
  | unwrap _ _ _ = (Ok _, _) => apply unwrap_Ok in H as [? ?]
  | require_auth _ _ _ = (Ok _, _) => apply require_auth_Ok in H as [? ?]
  | map_err _ _ _ _ = (Ok _, _) => apply map_err_Ok in H; run_step H
  | when ?c _ _ _ = (Ok _, _) =>
      unfold when in H; destruct c eqn:?; run_step H
  | (if ?c then _ else _) _ _ = (Ok _, _) => destruct c eqn:?; run_step H
  | (match ?o with Some _ => _ | None => _ end) _ _ = (Ok _, _) =>
      destruct o eqn:?; run_step H
  | (match ?p with pair _ _ => _ end) _ _ = (Ok _, _) => destruct p; run_step H
  | (let _ := _ in _) _ _ = (Ok _, _) => progress cbv zeta in H; run_step H
  | _ => run_prim H
  end.

Ltac run_inv H := run_step H; subst.

(** Runs an operation forward through its reads and passed guards. *)
Ltac run_fwd :=
  repeat first
    [ rewrite bind_eq
    | progress cbn [gets ask reads ok_or unwrap reject_if modify when fail trap negb orb andb]
    | progress unfold mret, M_ret ].

(** ** Invariants of an operation *)

(** [m] keeps [I] whatever its outcome, so also for a caller that handles
    the error. *)
Definition preserves {S E A} (I : S → Prop) (m : M S E A) : Prop :=
  ∀ env s r s', I s → m env s = (r, s') → I s'.

(** [m] keeps [I] when it succeeds. *)
Definition ok_preserves {S E A} (I : S → Prop) (m : M S E A) : Prop :=
  ∀ env s a s', I s → m env s = (Ok a, s') → I s'.

(** Operations that never write. *)
Class Readonly {S E A} (m : M S E A) : Prop := readonly : ∀ env s, (m env s).2 = s.

Section readonly.
Context {S E : Type}.

#[global] Instance readonly_ret {A} (a : A) : Readonly (mret a : M S E A).
Proof. done. Qed.
#[global] Instance readonly_ask {A} (f : Env → A) : Readonly (ask f : M S E A).
Proof. done. Qed.
#[global] Instance readonly_gets {A} (f : S → A) : Readonly (gets f : M S E A).
Proof. done. Qed.
#[global] Instance readonly_reads {A} (f : Env → S → A) : Readonly (reads f : M S E A).
Proof. done. Qed.
#[global] Instance readonly_fail {A} e : Readonly (fail e : M S E A).
Proof. done. Qed.
#[global] Instance readonly_trap {A} : Readonly (trap : M S E A).
Proof. done. Qed.
#[global] Instance readonly_reject_if c e : Readonly (reject_if c e : M S E unit).
Proof. by destruct c. Qed.
#[global] Instance readonly_ok_or {A} (o : option A) e : Readonly (ok_or o e : M S E A).
Proof. by destruct o. Qed.
#[global] Instance readonly_unwrap {A} (o : option A) : Readonly (unwrap o : M S E A).
Proof. by destruct o. Qed.
#[global] Instance readonly_require_auth a : Readonly (require_auth a : M S E unit).
Proof. intros env s. unfold require_auth. by destruct (authorized env a). Qed.
#[global] Instance readonly_bind {A B} (m : M S E A) (k : A → M S E B) :
  Readonly m → (∀ a, Readonly (k a)) → Readonly (m ≫= k).
Proof.
  intros Hm Hk env s. specialize (Hm env s). rewrite bind_eq.
  destruct (m env s) as [[]]; simpl in *; subst; [apply Hk|done|done].
Qed.
#[global] Instance readonly_map_err {E1 A} (f : E1 → E) (m : M S E1 A) :
  Readonly m → Readonly (map_err f m).
Proof.
  intros Hm env s. specialize (Hm env s). unfold map_err.
  by destruct (m env s) as [[]].
Qed.
#[global] Instance readonly_attempt {E1 A} (m : M S E1 A) :
  Readonly m → Readonly (attempt (E2 := E) m).
Proof.
  intros Hm env s. specialize (Hm env s). unfold attempt.
  by destruct (m env s) as [[]].
Qed.

(** The storage after a read-only operation. *)
Lemma readonly_run {A} (m : M S E A) `{!Readonly m} env s r s' :
  m env s = (r, s') → s' = s.
Proof. intros H. pose proof (readonly env s) as H'. by rewrite H in H'. Qed.
End readonly.

(** Operations that return or trap, but have no error value. *)
Class Infallible {S E A} (m : M S E A) : Prop := infallible : ∀ env s e, (m env s).1 ≠ Err e.

Section infallible.
Context {S E : Type}.

#[global] Instance infallible_ret {A} (a : A) : Infallible (mret a : M S E A).
Proof. done. Qed.
#[global] Instance infallible_ask {A} (f : Env → A) : Infallible (ask f : M S E A).
Proof. done. Qed.
#[global] Instance infallible_gets {A} (f : S → A) : Infallible (gets f : M S E A).
Proof. done. Qed.
#[global] Instance infallible_reads {A} (f : Env → S → A) : Infallible (reads f : M S E A).
Proof. done. Qed.
#[global] Instance infallible_unwrap {A} (o : option A) : Infallible (unwrap o : M S E A).
Proof. by destruct o. Qed.
#[global] Instance infallible_bind {A B} (m : M S E A) (k : A → M S E B) :
  Infallible m → (∀ a, Infallible (k a)) → Infallible (m ≫= k).
Proof.
  intros Hm Hk env s e. specialize (Hm env s e). rewrite bind_eq.
  destruct (m env s) as [[]]; simpl in *; [apply Hk|congruence|done].
Qed.
#[global] Instance infallible_attempt {E1 A} (m : M S E1 A) : Infallible (attempt (E2 := E) m).
Proof. intros env s e. unfold attempt. by destruct (m env s) as [[]]. Qed.
End infallible.

#[export] Hint Extern 2 (Infallible (if ?c then _ else _)) => destruct c : typeclass_instances.
#[export] Hint Extern 2 (Infallible (match ?o with _ => _ end)) => destruct o : typeclass_instances.

(** Case analysis on a condition inside a read-only operation. *)
#[export] Hint Extern 2 (Readonly (if ?c then _ else _)) => destruct c : typeclass_instances.
#[export] Hint Extern 2 (Readonly (match ?o with _ => _ end)) => destruct o : typeclass_instances.

(** Operations that see nothing of the environment but the time. *)
Class TimeOnly {S E A} (m : M S E A) : Prop :=
  time_only : ∀ env env' s, timestamp env = timestamp env' → m env s = m env' s.

Section time_only.
Context {S E : Type}.

#[global] Instance time_only_ret {A} (a : A) : TimeOnly (mret a : M S E A).
Proof. done. Qed.
#[global] Instance time_only_gets {A} (f : S → A) : TimeOnly (gets f : M S E A).
Proof. done. Qed.
#[global] Instance time_only_modify f : TimeOnly (modify f : M S E unit).
Proof. done. Qed.
#[global] Instance time_only_now : TimeOnly (ask timestamp : M S E Z).
Proof. intros env env' s H. unfold ask. by rewrite H. Qed.
#[global] Instance time_only_reject_if c (e : E) : TimeOnly (reject_if c e : M S E unit).
Proof. by destruct c. Qed.
#[global] Instance time_only_ok_or {A} (o : option A) (e : E) : TimeOnly (ok_or o e : M S E A).
Proof. by destruct o. Qed.
#[global] Instance time_only_unwrap {A} (o : option A) : TimeOnly (unwrap o : M S E A).
Proof. by destruct o. Qed.
#[global] Instance time_only_bind {A B} (m : M S E A) (k : A → M S E B) :
  TimeOnly m → (∀ a, TimeOnly (k a)) → TimeOnly (m ≫= k).
Proof.
  intros Hm Hk env env' s H. rewrite !bind_eq, (Hm env env' s H).
  destruct (m env' s) as [[]]; [by apply Hk|done|done].
Qed.
#[global] Instance time_only_map_err {E1 A} (f : E1 → E) (m : M S E1 A) : TimeOnly m → TimeOnly (map_err f m).
Proof. intros Hm env env' s H. unfold map_err. by rewrite (Hm env env' s H). Qed.
End time_only.

#[export] Hint Extern 2 (TimeOnly (if ?c then _ else _)) => destruct c : typeclass_instances.
#[export] Hint Extern 2 (TimeOnly (match ?o with _ => _ end)) => destruct o : typeclass_instances.

Lemma time_only_invoke {S E A} (m : M S E A) `{!TimeOnly m} env env' s :
  timestamp env = timestamp env' → invoke m env s = invoke m env' s.
Proof. intros H. unfold invoke. by rewrite (time_only env env' s H). Qed.

(** ** Errors with a default

    [m.unwrap_or(d)]: the caller goes on with [d]; what [m] wrote stays. *)
Definition recover {S E1 E2 A} (d : A) (m : M S E1 A) : M S E2 A := λ env s,
  match m env s with
  | (Ok a, s') => (Ok a, s')
  | (Err _, s') => (Ok d, s')
  | (Trap, s') => (Trap, s')
  end.

Section recover.
Context {S E1 E2 A : Type} (d : A) (m : M S E1 A).

Lemma recover_Ok env s a s' :
  recover (E2 := E2) d m env s = (Ok a, s') →
  m env s = (Ok a, s') ∨ (∃ e, m env s = (Err e, s')) ∧ a = d.
Proof. unfold recover. destruct (m env s) as [[]]; naive_solver. Qed.

#[global] Instance readonly_recover : Readonly m → Readonly (recover (E2 := E2) d m).
Proof.
  intros Hm env s. specialize (Hm env s). unfold recover. by destruct (m env s) as [[]].
Qed.
#[global] Instance infallible_recover : Infallible (recover (E2 := E2) d m).
Proof. intros env s e. unfold recover. by destruct (m env s) as [[]]. Qed.
#[global] Instance time_only_recover : TimeOnly m → TimeOnly (recover (E2 := E2) d m).
Proof. intros Hm env env' s H. unfold recover. by rewrite (Hm env env' s H). Qed.

Lemma preserves_recover (I : S → Prop) : preserves I m → preserves I (recover (E2 := E2) d m).
Proof.
  intros Hm env s r s' Hs. unfold recover.
  destruct (m env s) as [[]] eqn:Hr; intros [= <- <-]; by eapply Hm.
Qed.
End recover.

#[export] Hint Resolve preserves_recover : preserves.

Section preserves.
Context {S E : Type} (I : S → Prop).

Lemma preserves_ok {A} (m : M S E A) : preserves I m → ok_preserves I m.
Proof. intros H env s a s'. apply H. Qed.

Lemma preserves_bind {A B} (m : M S E A) (k : A → M S E B) :
  preserves I m → (∀ a, preserves I (k a)) → preserves I (m ≫= k).
Proof.
  intros Hm Hk env s r s' Hs. rewrite bind_eq.
  destruct (m env s) as [[a|e|] s1] eqn:Hr; intros Hr2; simplify_eq.
  - eapply Hk; [|done]. by eapply Hm.
  - by eapply Hm.
  - by eapply Hm.
Qed.

Lemma preserves_readonly {A} (m : M S E A) : Readonly m → preserves I m.
Proof. intros Hp env s r s' Hs Hr. specialize (Hp env s). rewrite Hr in Hp. by subst. Qed.

Lemma preserves_modify f : (∀ s, I s → I (f s)) → preserves I (modify f : M S E unit).
Proof. intros Hf env s r s' Hs [= <- <-]. by apply Hf. Qed.
Lemma preserves_if {A} (c : bool) (m1 m2 : M S E A) :
  preserves I m1 → preserves I m2 → preserves I (if c then m1 else m2).
Proof. by destruct c. Qed.
Lemma preserves_when c (m : M S E unit) : preserves I m → preserves I (when c m).
Proof. by destruct c; [|intros; apply preserves_readonly, _]. Qed.
Lemma preserves_option {A B} (o : option A) (f : A → M S E B) (m : M S E B) :
  (∀ a, preserves I (f a)) → preserves I m →
  preserves I (match o with Some a => f a | None => m end).
Proof. by destruct o. Qed.
Lemma preserves_map_err {E1 A} (f : E1 → E) (m : M S E1 A) :
  preserves I m → preserves I (map_err f m).
Proof.
  intros Hm env s r s' Hs. unfold map_err.
  destruct (m env s) as [[]] eqn:Hr; intros [= <- <-]; by eapply Hm.
Qed.
Lemma preserves_attempt {E1 A} (m : M S E1 A) :
  preserves I m → preserves I (attempt (E2 := E) m).
Proof.
  intros Hm env s r s' Hs. unfold attempt.
  destruct (m env s) as [[]] eqn:Hr; intros [= <- <-]; by eapply Hm.
Qed.
Lemma preserves_for_each {A} (xs : list A) (body : A → M S E unit) :
  (∀ x, preserves I (body x)) → preserves I (for_each xs body).
Proof.
  intros Hb. induction xs as [|x xs IH]; simpl; [apply preserves_readonly, _|].
  by apply preserves_bind.
Qed.

(** What [m] returns may be known to satisfy [P]. *)
Lemma preserves_bind_post {A B} (P : A → Prop) (m : M S E A) (k : A → M S E B) :
  preserves I m → (∀ env s a s', I s → m env s = (Ok a, s') → P a) → (∀ a, P a → preserves I (k a)) →
  preserves I (m ≫= k).
Proof.
  intros Hm HP Hk env s r s' Hs. rewrite bind_eq.
  destruct (m env s) as [[a|e|] s1] eqn:Hr; intros Hr2; simplify_eq.
  - eapply (Hk a); [by eapply HP|by eapply Hm|done].
  - by eapply Hm.
  - by eapply Hm.
Qed.
Lemma preserves_when_true c (m : M S E unit) : (c = true → preserves I m) → preserves I (when c m).
Proof. destruct c; [auto|intros; apply preserves_readonly, _]. Qed.

Lemma preserves_reject {A} c (e : E) (m : M S E A) :
  (c = false → preserves I m) → preserves I (reject_if c e ;; m).
Proof.
  intros Hm. apply (preserves_bind_post (λ _, c = false)).
  - apply preserves_readonly, _.
  - intros env s u s' _ Hr. by apply reject_if_Ok in Hr as [? _].
  - done.
Qed.

(** The boundary keeps what successful runs keep. *)
Lemma invoke_preserves {A} (m : M S E A) env s r s' :
  ok_preserves I m → I s → invoke m env s = (r, s') → I s'.
Proof.
  intros Hm Hs. unfold invoke.
  destruct (m env s) as [[]] eqn:Hr; intros [= <- <-]; [by eapply Hm|done|done].
Qed.
End preserves.

#[export] Hint Resolve preserves_bind preserves_if preserves_when
  preserves_option preserves_map_err preserves_attempt preserves_for_each
  preserves_ok : preserves.

(** Proves [preserves I m] by following the structure of [m]; what is left are
    the writes. *)
Ltac preserve_step :=
  lazymatch goal with
  | |- forall _, _ => intro
  | |- preserves _ _ => first
      [ solve [apply preserves_readonly, _]
      | solve [auto with preserves nocore]
      | apply preserves_bind
      | apply preserves_map_err | apply preserves_attempt | apply preserves_when | apply preserves_recover
      | lazymatch goal with
        | |- preserves _ (if ?c then _ else _) => destruct c
        | |- preserves _ (match ?o with _ => _ end) => destruct o
        | |- preserves _ (modify _) => apply preserves_modify; intros ? ?
        end ]
  end.
Ltac preserve := repeat preserve_step.

(** ** Parts of a storage

    A module that works on one part of a larger storage. *)

(** A part of [T], with the laws of reading and writing it. *)
Class Part (S T : Type) : Type := {
  part : T → S;
  put_part : S → T → T;
  part_put s t : part (put_part s t) = s;
  put_part_same t : put_part (part t) t = t;
  put_part_twice s s' t : put_part s (put_part s' t) = put_part s t;
}.

Section part.
Context {S T E : Type} `{!Part S T}.

Definition within {A} (m : M S E A) : M T E A := λ env t,
  let '(r, s') := m env (part t) in (r, put_part s' t).

Lemma within_Ok {A} (m : M S E A) env t a t' :
  within m env t = (Ok a, t') → ∃ s', m env (part t) = (Ok a, s') ∧ t' = put_part s' t.
Proof. unfold within. destruct (m env (part t)) as [r s']. naive_solver. Qed.

#[global] Instance readonly_within {A} (m : M S E A) : Readonly m → Readonly (within m).
Proof.
  intros Hm env t. specialize (Hm env (part t)). unfold within.
  destruct (m env (part t)) as [r s']. simpl in *. subst. apply put_part_same.
Qed.
#[global] Instance infallible_within {A} (m : M S E A) : Infallible m → Infallible (within m).
Proof.
  intros Hm env t e. specialize (Hm env (part t) e). unfold within.
  by destruct (m env (part t)) as [r s'].
Qed.
#[global] Instance time_only_within {A} (m : M S E A) : TimeOnly m → TimeOnly (within m).
Proof. intros Hm env env' t H. unfold within. by rewrite (Hm env env' (part t) H). Qed.

Lemma preserves_within {A} (I : T → Prop) (m : M S E A) :
  (∀ env t r s', I t → m env (part t) = (r, s') → I (put_part s' t)) → preserves I (within m).
Proof.
  intros Hm env t r t' Ht. unfold within. destruct (m env (part t)) as [r1 s'] eqn:Hr.
  intros [= <- <-]. by eapply Hm.
Qed.
End part.

(** ** Calls of other contracts

    The other contracts live in a world [W] of their own, which the operation
    threads through; the host rolls it back together with the storage. *)

Section world.
Context {S W E : Type}.

(** Operations on the contract's storage, and calls of other contracts. *)
Definition local {A} (m : M S E A) : M (S * W) E A := λ env '(s, w),
  let '(r, s') := m env s in (r, (s', w)).
Definition observe_world {A} (f : W → A) : M (S * W) E A := λ _ '(s, w), (Ok (f w), (s, w)).
Definition call {A} (f : W → option (A * W)) : M (S * W) E A := λ _ '(s, w),
  match f w with
  | Some (a, w') => (Ok a, (s, w'))
  | None => (Trap, (s, w))
  end.

Lemma local_Ok {A} (m : M S E A) env s w a s' w' :
  local m env (s, w) = (Ok a, (s', w')) → m env s = (Ok a, s') ∧ w' = w.
Proof. unfold local. destruct (m env s) as [r s1]. naive_solver. Qed.

Lemma observe_world_Ok {A} (f : W → A) env s w a s' w' :
  observe_world f env (s, w) = (Ok a, (s', w')) → a = f w ∧ s' = s ∧ w' = w.
Proof. cbn. naive_solver. Qed.

Lemma call_Ok {A} (f : W → option (A * W)) env s w a s' w' :
  call f env (s, w) = (Ok a, (s', w')) → f w = Some (a, w') ∧ s' = s.
Proof. cbn. destruct (f w) as [[]|]; naive_solver. Qed.
End world.

Section world_classes.
Context {S W E : Type}.

#[global] Instance time_only_local {A} (m : M S E A) : TimeOnly m → TimeOnly (local (W := W) m).
Proof. intros Hm env env' [s w] H. unfold local. by rewrite (Hm env env' s H). Qed.
#[global] Instance time_only_call {A} (f : W → option (A * W)) : TimeOnly (call (S := S) (E := E) f).
Proof. intros env env' [s w] _. reflexivity. Qed.

Lemma preserves_local {A} (I : S → Prop) (m : M S E A) :
  preserves I m → preserves (λ sw, I sw.1) (local (W := W) m).
Proof.
  intros Hm env [s w] r [s' w'] Hs. unfold local. destruct (m env s) as [r1 s1] eqn:Hr.
  intros [= <- <- <-]. by eapply Hm.
Qed.
Lemma preserves_call {A} (I : S → Prop) (f : W → option (A * W)) :
  preserves (λ sw, I sw.1) (call (S := S) (E := E) f).
Proof. intros env [s w] r [s' w'] Hs. cbn. destruct (f w) as [[]|]; intros [= <- <- <-]; done. Qed.
End world_classes.

(** Decomposes a successful run over the storage and the world. *)
Ltac world_inv H :=
  run_step H;
  repeat match goal with
  | x : (_ * _)%type |- _ => destruct x
  | H : local _ _ _ = (Ok _, _) |- _ => apply local_Ok in H as [H ->]; run_step H
  | H : observe_world _ _ _ = (Ok _, _) |- _ => apply observe_world_Ok in H as (-> & -> & ->)
  | H : call _ _ _ = (Ok _, _) |- _ => apply call_Ok in H as [H ->]
  | H : (_, _) = (_, _) |- _ => apply pair_equal_spec in H as [? ?]; subst
  end;
  subst.
