(* ===== verification/LendingTypes.v ===== *)
(** * LendingTypes: data, storage and events of the lending contract

    The types of [contracts/lending/src]: error enums, stored records, the
    persistent and instance storage keyed by the [*DataKey] enums (one record
    per enum, an absent entry being [None] or a missing map key), and the
    events the contract publishes. *)

From S2P Require Import Prelude Host.

(** ** Enums and records *)

Inductive RateType : Type := VariableRate | StableRate.
#[export] Instance RateType_eq_dec : EqDecision RateType.
Proof. solve_decision. Defined.

Inductive BorrowError : Type :=
  | BE_InsufficientCollateral | BE_DebtCeilingReached | BE_ProtocolPaused
  | BE_InvalidAmount | BE_Overflow | BE_Unauthorized | BE_AssetNotSupported
  | BE_BelowMinimumBorrow | BE_RepayAmountTooHigh | BE_PositionHealthy
  | BE_InsufficientReserves.

Inductive InterestRateError : Type :=
  | IE_Unauthorized | IE_InvalidParameter | IE_Overflow | IE_DivisionByZero.

Inductive DepositError : Type :=
  | DE_InvalidAmount | DE_DepositPaused | DE_Overflow | DE_AssetNotSupported
  | DE_ExceedsDepositCap | DE_Unauthorized.

Inductive WithdrawError : Type :=
  | WE_InvalidAmount | WE_WithdrawPaused | WE_Overflow | WE_InsufficientCollateral
  | WE_InsufficientCollateralRatio | WE_Unauthorized.

Inductive FlashLoanError : Type :=
  | FE_InvalidAmount | FE_InsufficientRepayment | FE_Unauthorized | FE_InvalidFee
  | FE_CallbackFailed | FE_Reentrancy | FE_FlashLoanPaused.

Inductive CommitmentError : Type :=
  | CE_NotFound | CE_Unauthorized | CE_BadConfig | CE_Expired | CE_NotExecutable
  | CE_OracleNotConfigured | CE_TriggerNotMet | CE_BelowMinPartialFill
  | CE_BorrowFailed | CE_TooManyTriggers.

Inductive MetaTxError : Type :=
  | ME_Unauthorized | ME_Expired | ME_InvalidNonce | ME_DelegationMissing
  | ME_DelegationExpired | ME_PermissionDenied.

Inductive RiskMonitorError : Type := RE_Unauthorized | RE_InvalidThresholds.

(** [impl From<InterestRateError> for BorrowError] *)
Definition borrow_error_of (e : InterestRateError) : BorrowError :=
  match e with
  | IE_Unauthorized => BE_Unauthorized
  | IE_InvalidParameter => BE_InvalidAmount
  | IE_Overflow => BE_Overflow
  | IE_DivisionByZero => BE_Overflow
  end.

Record StablecoinConfig : Type := mkStablecoinConfig {
  sc_target_price : Z;
  sc_peg_threshold_bps : Z;
  sc_stability_fee_bps : Z;
  sc_emergency_threshold_bps : Z;
}.

Record DebtPosition : Type := mkDebtPosition {
  dp_borrowed_amount : Z;
  dp_interest_accrued : Z;
  dp_last_update : Z;
  dp_asset : Address;
  dp_rate_type : RateType;
  dp_stable_rate_bps : Z;
}.
#[export] Instance DebtPosition_upd : Updatable DebtPosition := λ p,
  mkDebtPosition (dp_borrowed_amount p) (dp_interest_accrued p) (dp_last_update p)
    (dp_asset p) (dp_rate_type p) (dp_stable_rate_bps p).

Record StableRateState : Type := mkStableRateState {
  srs_avg_rate_bps : Z;
  srs_last_update : Z;
}.
#[export] Instance StableRateState_upd : Updatable StableRateState := λ p,
  mkStableRateState (srs_avg_rate_bps p) (srs_last_update p).

Record BorrowCollateral : Type := mkBorrowCollateral {
  bc_amount : Z;
  bc_asset : Address;
}.
#[export] Instance BorrowCollateral_upd : Updatable BorrowCollateral := λ p,
  mkBorrowCollateral (bc_amount p) (bc_asset p).

Record InterestRateConfig : Type := mkInterestRateConfig {
  irc_base_rate_bps : Z;
  irc_kink_utilization_bps : Z;
  irc_slope_bps : Z;
  irc_jump_slope_bps : Z;
  irc_rate_floor_bps : Z;
  irc_rate_ceiling_bps : Z;
  irc_spread_bps : Z;
  irc_last_update : Z;
}.
#[export] Instance InterestRateConfig_upd : Updatable InterestRateConfig := λ c,
  mkInterestRateConfig (irc_base_rate_bps c) (irc_kink_utilization_bps c)
    (irc_slope_bps c) (irc_jump_slope_bps c) (irc_rate_floor_bps c)
    (irc_rate_ceiling_bps c) (irc_spread_bps c) (irc_last_update c).

Record InterestRateConfigUpdate : Type := mkInterestRateConfigUpdate {
  up_base_rate_bps : option Z;
  up_kink_utilization_bps : option Z;
  up_slope_bps : option Z;
  up_jump_slope_bps : option Z;
  up_rate_floor_bps : option Z;
  up_rate_ceiling_bps : option Z;
  up_spread_bps : option Z;
}.

Record DepositCollateral : Type := mkDepositCollateral {
  dc_amount : Z;
  dc_asset : Address;
  dc_last_deposit_time : Z;
}.
#[export] Instance DepositCollateral_upd : Updatable DepositCollateral := λ p,
  mkDepositCollateral (dc_amount p) (dc_asset p) (dc_last_deposit_time p).

Inductive PauseType : Type :=
  | PauseAll | PauseDeposit | PauseBorrow | PauseRepay | PauseWithdraw
  | PauseLiquidation | PauseFlashLoan | PauseBridgeAcceptance.
#[export] Instance PauseType_eq_dec : EqDecision PauseType.
Proof. solve_decision. Defined.

(** The [repr(u32)] discriminant. *)
Definition pause_code (p : PauseType) : nat :=
  match p with
  | PauseAll => 0 | PauseDeposit => 1 | PauseBorrow => 2 | PauseRepay => 3
  | PauseWithdraw => 4 | PauseLiquidation => 5 | PauseFlashLoan => 6
  | PauseBridgeAcceptance => 7
  end%nat.
Definition pause_of_code (n : nat) : PauseType :=
  match n with
  | 0 => PauseAll | 1 => PauseDeposit | 2 => PauseBorrow | 3 => PauseRepay
  | 4 => PauseWithdraw | 5 => PauseLiquidation | 6 => PauseFlashLoan
  | _ => PauseBridgeAcceptance
  end%nat.
#[export] Program Instance PauseType_countable : Countable PauseType :=
  inj_countable' pause_code pause_of_code _.
Next Obligation. by intros []. Qed.

Inductive EmergencyState : Type := Normal | Shutdown | Recovery.
#[export] Instance EmergencyState_eq_dec : EqDecision EmergencyState.
Proof. solve_decision. Defined.

Record RiskAlertThresholds : Type := mkRiskAlertThresholds {
  rt_warning_utilization_bps : Z;
  rt_critical_utilization_bps : Z;
  rt_emergency_utilization_bps : Z;
}.

Inductive RiskAlertSeverity : Type := Warning | Critical | Emergency.

Inductive TriggerCombiner : Type := AnyTrigger | AllTriggers.

Record PriceTrigger : Type := mkPriceTrigger {
  pt_asset : Address;
  pt_trigger_price : Z;
  pt_fire_when_at_or_above : bool;
}.

Inductive CommitmentStatus : Type := Pending | Executed | Cancelled | Expired.
#[export] Instance CommitmentStatus_eq_dec : EqDecision CommitmentStatus.
Proof. solve_decision. Defined.

Record BorrowCommitment : Type := mkBorrowCommitment {
  cm_owner : Address;
  cm_triggers : list PriceTrigger;
  cm_combiner : TriggerCombiner;
  cm_borrow_asset : Address;
  cm_collateral_asset : Address;
  cm_borrow_amount : Z;
  cm_collateral_amount : Z;
  cm_min_fill_bps : Z;
  cm_expiry_timestamp : Z;
  cm_status : CommitmentStatus;
}.
#[export] Instance BorrowCommitment_upd : Updatable BorrowCommitment := λ c,
  mkBorrowCommitment (cm_owner c) (cm_triggers c) (cm_combiner c)
    (cm_borrow_asset c) (cm_collateral_asset c) (cm_borrow_amount c)
    (cm_collateral_amount c) (cm_min_fill_bps c) (cm_expiry_timestamp c) (cm_status c).

(** ** Events *)

Inductive Event : Type :=
  | BorrowEvent (user asset : Address) (amount collateral timestamp : Z)
  | BorrowCollateralDepositEvent (user asset : Address) (amount timestamp : Z)
  | RepayEvent (user asset : Address) (amount timestamp : Z)
  | VaultDepositEvent (user asset : Address) (amount new_balance timestamp : Z)
  | WithdrawEvent (user asset : Address) (amount remaining_balance timestamp : Z)
  | FlashLoanEvent (receiver asset : Address) (amount fee timestamp : Z)
  | PegDeviationEvent (asset : Address) (price target_price deviation_bps timestamp : Z)
  | StabilityFeeAppliedEvent (asset : Address) (fee_bps timestamp : Z)
  | InterestRateModelUpdatedEvent (caller : Address)
      (previous updated : InterestRateConfig) (timestamp : Z)
  | RiskUtilizationAlertEvent (severity utilization_bps total_debt debt_ceiling timestamp : Z)
  | BorrowCommitmentCreatedEvent (commitment_id : Z) (owner borrow_asset : Address)
      (borrow_amount expiry : Z)
  | BorrowCommitmentCancelledEvent (commitment_id : Z) (owner : Address)
  | BorrowCommitmentExecutedEvent (commitment_id : Z) (owner : Address)
      (borrowed_amount collateral_amount : Z)
  | PauseEvent (pause_type : PauseType) (paused : bool) (admin : Address)
  | GuardianSetEvent (guardian admin : Address)
  | EmergencyStateEvent (from to : EmergencyState) (caller : Address)
  | BadDebtEvent (user : Address) (amount : Z)
  | BadDebtRecoveredEvent (amount : Z).

(** ** Storage *)

(** [BorrowDataKey] *)
Record BorrowStore : Type := mkBorrowStore {
  kProtocolAdmin : option Address;
  kBorrowUserDebt : gmap Address DebtPosition;
  kBorrowUserVariableDebt : gmap Address DebtPosition;
  kBorrowUserStableDebt : gmap Address DebtPosition;
  kBorrowUserCollateral : gmap Address BorrowCollateral;
  kBorrowTotalDebt : option Z;
  kBorrowDebtCeiling : option Z;
  kBorrowInterestRate : option InterestRateConfig;
  kBorrowMinAmount : option Z;
  kOracleAddress : option Address;
  kLiquidationThresholdBps : option Z;
  kCloseFactorBps : option Z;
  kLiquidationIncentiveBps : option Z;
  kInterestIndex : option Z;
  kAssetStablecoinConfig : gmap Address StablecoinConfig;
  kStableRateState : option StableRateState;
  kStableRatePremiumBps : option Z;
  kStableRateRecalcIntervalSecs : option Z;
  kRateSwitchFeeBps : option Z;
}.
#[export] Instance BorrowStore_upd : Updatable BorrowStore := λ b,
  mkBorrowStore (kProtocolAdmin b) (kBorrowUserDebt b) (kBorrowUserVariableDebt b)
    (kBorrowUserStableDebt b) (kBorrowUserCollateral b) (kBorrowTotalDebt b)
    (kBorrowDebtCeiling b) (kBorrowInterestRate b) (kBorrowMinAmount b)
    (kOracleAddress b) (kLiquidationThresholdBps b) (kCloseFactorBps b)
    (kLiquidationIncentiveBps b) (kInterestIndex b) (kAssetStablecoinConfig b)
    (kStableRateState b) (kStableRatePremiumBps b) (kStableRateRecalcIntervalSecs b)
    (kRateSwitchFeeBps b).

(** [DepositDataKey] and [WithdrawDataKey] *)
Record VaultStore : Type := mkVaultStore {
  kUserCollateral : gmap Address DepositCollateral;
  kTotalAmount : option Z;
  kCapAmount : option Z;
  kMinAmount : option Z;
  kPaused : option bool;
  kMinWithdrawAmount : option Z;
}.
#[export] Instance VaultStore_upd : Updatable VaultStore := λ v,
  mkVaultStore (kUserCollateral v) (kTotalAmount v) (kCapAmount v) (kMinAmount v)
    (kPaused v) (kMinWithdrawAmount v).

(** [PauseDataKey] *)
Record PauseStore : Type := mkPauseStore {
  kState : gmap PauseType bool;
  kGuardian : option Address;
  kEmergencyState : option EmergencyState;
}.
#[export] Instance PauseStore_upd : Updatable PauseStore := λ p,
  mkPauseStore (kState p) (kGuardian p) (kEmergencyState p).

(** [FlashLoanDataKey], [RiskMonitorKey], [CommitmentStorageKey], [MetaDataKey],
    [BadDebtKey] and [ReserveKey] *)
Record AuxStore : Type := mkAuxStore {
  kFlashLoanFeeBps : option Z;
  kReentrancyGuard : option bool;
  kThresholds : option RiskAlertThresholds;
  kLastEmittedTier : option Z;
  kNextId : option Z;
  kCommitment : gmap Z BorrowCommitment;
  kDelegationRegistry : option Address;
  kNonce : gmap Address Z;
  kBadDebtTotal : option Z;
  kBadDebtUser : gmap Address Z;
  kProtocolReserves : option Z;
}.
#[export] Instance AuxStore_upd : Updatable AuxStore := λ a,
  mkAuxStore (kFlashLoanFeeBps a) (kReentrancyGuard a) (kThresholds a)
    (kLastEmittedTier a) (kNextId a) (kCommitment a) (kDelegationRegistry a)
    (kNonce a) (kBadDebtTotal a) (kBadDebtUser a) (kProtocolReserves a).

(** The whole storage of the contract, and the events published so far. *)
Record LState : Type := mkLState {
  st_borrow : BorrowStore;
  st_vault : VaultStore;
  st_pause : PauseStore;
  st_aux : AuxStore;
  st_events : list Event;
}.
#[export] Instance LState_upd : Updatable LState := λ s,
  mkLState (st_borrow s) (st_vault s) (st_pause s) (st_aux s) (st_events s).

(** The storage of a freshly deployed contract. *)
Definition empty_borrow : BorrowStore :=
  mkBorrowStore None ∅ ∅ ∅ ∅ None None None None None None None None None ∅ None None None None.
Definition empty_vault : VaultStore := mkVaultStore ∅ None None None None None.
Definition empty_pause : PauseStore := mkPauseStore ∅ None None.
Definition empty_aux : AuxStore :=
  mkAuxStore None None None None None ∅ None ∅ None ∅ None.
Definition empty_state : LState := mkLState empty_borrow empty_vault empty_pause empty_aux [].

(** ** Storage writes *)

Abbreviation LM := (M LState) (only parsing).

Section writes.
Context {E : Type}.

Definition on_borrow (f : BorrowStore → BorrowStore) : M LState E unit :=
  modify (λ s, s <| st_borrow := f (st_borrow s) |>).
Definition on_vault (f : VaultStore → VaultStore) : M LState E unit :=
  modify (λ s, s <| st_vault := f (st_vault s) |>).
Definition on_pause (f : PauseStore → PauseStore) : M LState E unit :=
  modify (λ s, s <| st_pause := f (st_pause s) |>).
Definition on_aux (f : AuxStore → AuxStore) : M LState E unit :=
  modify (λ s, s <| st_aux := f (st_aux s) |>).
(** [ev.publish(env)] *)
Definition publish (ev : Event) : M LState E unit :=
  modify (λ s, s <| st_events := st_events s ++ [ev] |>).
End writes.

Section writes_Ok.
Context {E : Type}.
Implicit Types (env : Env) (s : LState).

Lemma on_borrow_Ok f env s u s' :
  on_borrow (E := E) f env s = (Ok u, s') → s' = s <| st_borrow := f (st_borrow s) |>.
Proof. exact (modify_Ok _ _ _ _ _). Qed.
Lemma on_vault_Ok f env s u s' :
  on_vault (E := E) f env s = (Ok u, s') → s' = s <| st_vault := f (st_vault s) |>.
Proof. exact (modify_Ok _ _ _ _ _). Qed.
Lemma on_pause_Ok f env s u s' :
  on_pause (E := E) f env s = (Ok u, s') → s' = s <| st_pause := f (st_pause s) |>.
Proof. exact (modify_Ok _ _ _ _ _). Qed.
Lemma on_aux_Ok f env s u s' :
  on_aux (E := E) f env s = (Ok u, s') → s' = s <| st_aux := f (st_aux s) |>.
Proof. exact (modify_Ok _ _ _ _ _). Qed.
Lemma publish_Ok ev env s u s' :
  publish (E := E) ev env s = (Ok u, s') → s' = s <| st_events := st_events s ++ [ev] |>.
Proof. exact (modify_Ok _ _ _ _ _). Qed.

(** Invariants are kept by writes to the parts they do not mention. *)
Lemma preserves_on_borrow (I : LState → Prop) f :
  (∀ s, I s → I (s <| st_borrow := f (st_borrow s) |>)) →
  preserves I (on_borrow f : M LState E unit).
Proof. exact (preserves_modify I _). Qed.
Lemma preserves_on_vault (I : LState → Prop) f :
  (∀ s, I s → I (s <| st_vault := f (st_vault s) |>)) →
  preserves I (on_vault f : M LState E unit).
Proof. exact (preserves_modify I _). Qed.
Lemma preserves_on_pause (I : LState → Prop) f :
  (∀ s, I s → I (s <| st_pause := f (st_pause s) |>)) →
  preserves I (on_pause f : M LState E unit).
Proof. exact (preserves_modify I _). Qed.
Lemma preserves_on_aux (I : LState → Prop) f :
  (∀ s, I s → I (s <| st_aux := f (st_aux s) |>)) →
  preserves I (on_aux f : M LState E unit).
Proof. exact (preserves_modify I _). Qed.
Lemma preserves_publish (I : LState → Prop) ev :
  (∀ s, I s → I (s <| st_events := st_events s ++ [ev] |>)) →
  preserves I (publish ev : M LState E unit).
Proof. exact (preserves_modify I _). Qed.
End writes_Ok.

#[export] Hint Resolve preserves_on_borrow preserves_on_vault preserves_on_pause
  preserves_on_aux preserves_publish : preserves.

Ltac run_prim H ::=
  lazymatch type of H with
  | on_borrow _ _ _ = (Ok _, _) => apply on_borrow_Ok in H
  | on_vault _ _ _ = (Ok _, _) => apply on_vault_Ok in H
  | on_pause _ _ _ = (Ok _, _) => apply on_pause_Ok in H
  | on_aux _ _ _ = (Ok _, _) => apply on_aux_Ok in H
  | publish _ _ _ = (Ok _, _) => apply publish_Ok in H
  | _ => idtac
  end.
