(* ===== verification/Pause.v ===== *)
(** * Pause: pause flags and the emergency lifecycle ([lending/src/pause.rs]) *)

From S2P Require Import Prelude Host LendingTypes.

Section operations.
Context {E : Type}.

Definition set_pause (admin : Address) (pause_type : PauseType) (paused : bool) : LM E unit :=
  on_pause (λ p, p <| kState := <[pause_type := paused]> (kState p) |>) ;;
  publish (PauseEvent pause_type paused admin).

Definition get_emergency_state (s : LState) : EmergencyState :=
  default Normal (kEmergencyState (st_pause s)).

Definition set_guardian (admin guardian : Address) : LM E unit :=
  on_pause (λ p, p <| kGuardian := Some guardian |>) ;;
  publish (GuardianSetEvent guardian admin).

Definition set_emergency_state (caller : Address) (to : EmergencyState) : LM E unit :=
  from ← gets get_emergency_state;
  on_pause (λ p, p <| kEmergencyState := Some to |>) ;;
  publish (EmergencyStateEvent from to caller).

Definition trigger_shutdown (caller : Address) : LM E unit :=
  set_emergency_state caller Shutdown.
Definition start_recovery (caller : Address) : LM E unit :=
  set_emergency_state caller Recovery.
Definition complete_recovery (caller : Address) : LM E unit :=
  set_emergency_state caller Normal.
End operations.

(** The stored flag of one operation type. *)
Definition pause_flag (s : LState) (pause_type : PauseType) : bool :=
  default false (kState (st_pause s) !! pause_type).

Definition is_paused (s : LState) (pause_type : PauseType) : bool :=
  if pause_flag s PauseAll then true
  else if bool_decide (pause_type ≠ PauseAll) then pause_flag s pause_type
  else false.

Definition get_guardian (s : LState) : option Address := kGuardian (st_pause s).

Definition is_recovery (s : LState) : bool :=
  bool_decide (get_emergency_state s = Recovery).

Definition blocks_high_risk_ops (s : LState) : bool :=
  match get_emergency_state s with
  | Shutdown | Recovery => true
  | Normal => false
  end.

(** An operation is paused exactly when its flag or the global flag is set. *)
Lemma is_paused_flags s t : is_paused s t = pause_flag s PauseAll || pause_flag s t.
Proof.
  unfold is_paused. destruct (pause_flag s PauseAll) eqn:Hall; [done|].
  case_bool_decide as Ht; [done|].
  subst t. by rewrite Hall.
Qed.

Lemma pause_flag_set {E} s admin t b env u s' q :
  set_pause (E := E) admin t b env s = (Ok u, s') →
  pause_flag s' q = if decide (t = q) then b else pause_flag s q.
Proof.
  unfold set_pause. intros H. run_inv H. unfold pause_flag. cbn.
  rewrite lookup_insert. by case_decide.
Qed.
