(* ===== verification/BorrowStorage.v ===== *)
(** * BorrowStorage: stored positions, totals and settings of the borrow module

    The getters and setters of [lending/src/borrow.rs]: the three debt maps
    and how a position is read and written through them, collateral
    positions, the protocol totals and limits, and the admin-only settings.
    [debt_entry_sum] is the specification-level total the stored debt total
    is compared with. *)

From S2P Require Import Prelude Host LendingTypes.

Definition COLLATERAL_RATIO_MIN : Z := 15000.
Definition SECONDS_PER_YEAR : Z := 31536000.
Definition DEFAULT_STABLE_PREMIUM_BPS : Z := 100.
Definition DEFAULT_STABLE_RECALC_INTERVAL_SECS : Z := 6 * 3600.
Definition DEFAULT_SWITCH_FEE_BPS : Z := 10.

(** ** Totals and settings *)

Definition get_admin (s : LState) : option Address := kProtocolAdmin (st_borrow s).
Definition get_total_debt (s : LState) : Z := default 0 (kBorrowTotalDebt (st_borrow s)).
Definition get_debt_ceiling (s : LState) : Z :=
  default I128_MAX (kBorrowDebtCeiling (st_borrow s)).
Definition get_min_borrow_amount (s : LState) : Z :=
  default 1000 (kBorrowMinAmount (st_borrow s)).
Definition get_oracle (s : LState) : option Address := kOracleAddress (st_borrow s).
Definition get_liquidation_threshold_bps (s : LState) : Z :=
  default 8000 (kLiquidationThresholdBps (st_borrow s)).
Definition get_close_factor_bps (s : LState) : Z :=
  default 5000 (kCloseFactorBps (st_borrow s)).
Definition get_liquidation_incentive_bps (s : LState) : Z :=
  default 1000 (kLiquidationIncentiveBps (st_borrow s)).
Definition get_interest_index (s : LState) : Z :=
  default 1000000000 (kInterestIndex (st_borrow s)).
Definition get_stablecoin_config (s : LState) (asset : Address) : option StablecoinConfig :=
  kAssetStablecoinConfig (st_borrow s) !! asset.
Definition get_stable_rate_premium_bps (s : LState) : Z :=
  default DEFAULT_STABLE_PREMIUM_BPS (kStableRatePremiumBps (st_borrow s)).
Definition get_stable_rate_recalc_interval_secs (s : LState) : Z :=
  default DEFAULT_STABLE_RECALC_INTERVAL_SECS (kStableRateRecalcIntervalSecs (st_borrow s)).
Definition get_rate_switch_fee_bps (s : LState) : Z :=
  default DEFAULT_SWITCH_FEE_BPS (kRateSwitchFeeBps (st_borrow s)).

Section setters.
Context {E : Type}.

Definition set_admin (admin : Address) : LM E unit :=
  on_borrow (λ b, b <| kProtocolAdmin := Some admin |>).
Definition set_total_debt (amount : Z) : LM E unit :=
  on_borrow (λ b, b <| kBorrowTotalDebt := Some amount |>).
Definition set_interest_index (index : Z) : LM E unit :=
  on_borrow (λ b, b <| kInterestIndex := Some index |>).
End setters.

(** The guard at the head of every admin-only operation. *)
Definition require_current_admin (admin : Address) : LM BorrowError unit :=
  stored ← gets get_admin;
  current ← ok_or stored BE_Unauthorized;
  reject_if (bool_decide (admin ≠ current)) BE_Unauthorized ;;
  require_auth admin.

Definition set_oracle (admin oracle : Address) : LM BorrowError unit :=
  require_current_admin admin ;;
  on_borrow (λ b, b <| kOracleAddress := Some oracle |>).

Definition set_liquidation_threshold_bps (admin : Address) (bps : Z) : LM BorrowError unit :=
  require_current_admin admin ;;
  reject_if ((bps <=? 0) || (10000 <? bps)) BE_InvalidAmount ;;
  on_borrow (λ b, b <| kLiquidationThresholdBps := Some bps |>).

Definition set_close_factor_bps (admin : Address) (bps : Z) : LM BorrowError unit :=
  require_current_admin admin ;;
  reject_if ((bps <=? 0) || (10000 <? bps)) BE_InvalidAmount ;;
  on_borrow (λ b, b <| kCloseFactorBps := Some bps |>).

Definition set_liquidation_incentive_bps (admin : Address) (bps : Z) : LM BorrowError unit :=
  require_current_admin admin ;;
  reject_if (negb (in_range 0 10000 bps)) BE_InvalidAmount ;;
  on_borrow (λ b, b <| kLiquidationIncentiveBps := Some bps |>).

Definition set_stablecoin_config (admin asset : Address) (config : StablecoinConfig) :
    LM BorrowError unit :=
  require_current_admin admin ;;
  on_borrow (λ b, b <| kAssetStablecoinConfig := <[asset := config]> (kAssetStablecoinConfig b) |>).

(** ** Positions *)

Definition get_collateral_position (s : LState) (user : Address) : BorrowCollateral :=
  default (mkBorrowCollateral 0 user) (kBorrowUserCollateral (st_borrow s) !! user).

Definition save_collateral_position {E} (user : Address) (position : BorrowCollateral) :
    LM E unit :=
  on_borrow (λ b, b <| kBorrowUserCollateral := <[user := position]> (kBorrowUserCollateral b) |>).

(** The storage map that a rate type's positions live in. *)
Definition debt_map (rate_type : RateType) (b : BorrowStore) : gmap Address DebtPosition :=
  match rate_type with
  | VariableRate => kBorrowUserVariableDebt b
  | StableRate => kBorrowUserStableDebt b
  end.

Definition empty_position (now : Z) (asset : Address) (rate_type : RateType) : DebtPosition :=
  mkDebtPosition 0 0 now asset rate_type 0.

(** A missing variable-rate entry falls back to the legacy entry. *)
Definition get_debt_position (user : Address) (default_asset : option Address)
    (rate_type : RateType) (env : Env) (s : LState) : DebtPosition :=
  let fresh := empty_position (timestamp env) (default user default_asset) rate_type in
  match debt_map rate_type (st_borrow s) !! user, rate_type with
  | Some position, _ => position
  | None, VariableRate =>
      match kBorrowUserDebt (st_borrow s) !! user with
      | Some legacy =>
          mkDebtPosition (dp_borrowed_amount legacy) (dp_interest_accrued legacy)
            (dp_last_update legacy) (dp_asset legacy) VariableRate 0
      | None => fresh
      end
  | None, StableRate => fresh
  end.

(** A position that still owes something. *)
Definition is_open (p : DebtPosition) : bool :=
  (0 <? dp_borrowed_amount p) || (0 <? dp_interest_accrued p).

(** The value [update_compat_user_debt] writes under the legacy key. *)
Definition compat_position (now : Z) (user : Address) (b : BorrowStore) : DebtPosition :=
  let v := kBorrowUserVariableDebt b !! user in
  let s := kBorrowUserStableDebt b !! user in
  let chosen :=
    match v with
    | Some pos => if is_open pos then Some pos else s
    | None => s
    end in
  default (empty_position now user VariableRate) chosen.

Definition update_compat_user_debt {E} (user : Address) : LM E unit :=
  now ← ask timestamp;
  on_borrow (λ b, b <| kBorrowUserDebt := <[user := compat_position now user b]> (kBorrowUserDebt b) |>).

Definition store_debt (user : Address) (position : DebtPosition) (b : BorrowStore) : BorrowStore :=
  match dp_rate_type position with
  | VariableRate =>
      b <| kBorrowUserVariableDebt := <[user := position]> (kBorrowUserVariableDebt b) |>
  | StableRate =>
      b <| kBorrowUserStableDebt := <[user := position]> (kBorrowUserStableDebt b) |>
  end.

Definition save_debt_position {E} (user : Address) (position : DebtPosition) : LM E unit :=
  on_borrow (store_debt user position) ;;
  update_compat_user_debt user.

(** ** Lemmas *)

Lemma require_current_admin_Ok admin env s u s' :
  require_current_admin admin env s = (Ok u, s') →
  get_admin s = Some admin ∧ authorized env admin = true ∧ s' = s.
Proof.
  unfold require_current_admin. intros H. run_inv H. zbool. naive_solver.
Qed.

Lemma preserves_require_current_admin I admin : preserves I (require_current_admin admin).
Proof. unfold require_current_admin. preserve. Qed.

(** Who is refused: without the admin's identity, nothing happens. *)
Lemma require_current_admin_denied admin env s :
  get_admin s ≠ Some admin →
  require_current_admin admin env s = (Err BE_Unauthorized, s).
Proof.
  intros Hne. unfold require_current_admin. rewrite bind_eq. simpl.
  destruct (get_admin s) as [a|]; [|done].
  rewrite bind_eq. simpl. rewrite bool_decide_eq_true_2 by congruence. done.
Qed.

(** What [save_debt_position] leaves in the store. *)
Definition saved_debt (now : Z) (user : Address) (p : DebtPosition) (b : BorrowStore) : BorrowStore :=
  let b' := store_debt user p b in
  b' <| kBorrowUserDebt := <[user := compat_position now user b']> (kBorrowUserDebt b') |>.

Lemma save_debt_position_run {E} user p env s :
  save_debt_position (E := E) user p env s =
  (Ok tt, s <| st_borrow := saved_debt (timestamp env) user p (st_borrow s) |>).
Proof. reflexivity. Qed.

Lemma save_debt_position_Ok {E} user p env s u s' :
  save_debt_position (E := E) user p env s = (Ok u, s') →
  s' = s <| st_borrow := saved_debt (timestamp env) user p (st_borrow s) |>.
Proof. rewrite save_debt_position_run. congruence. Qed.

Lemma saved_debt_map now user p b rt :
  debt_map rt (saved_debt now user p b) =
  if decide (rt = dp_rate_type p) then <[user := p]> (debt_map rt b) else debt_map rt b.
Proof.
  unfold saved_debt, store_debt, debt_map.
  destruct rt, (dp_rate_type p); case_decide; done.
Qed.

(** ** The sum of the stored principals *)

(** Principal of all users in one bucket. *)
Definition bucket_sum (rt : RateType) (b : BorrowStore) : Z :=
  map_sum dp_borrowed_amount (debt_map rt b).
Definition debt_entry_sum (s : LState) : Z :=
  bucket_sum VariableRate (st_borrow s) + bucket_sum StableRate (st_borrow s).

(** Principal of one user in one bucket. *)
Definition bucket_principal (rt : RateType) (b : BorrowStore) (user : Address) : Z :=
  at_key dp_borrowed_amount (debt_map rt b) user.

Lemma bucket_sum_saved now user p b rt :
  bucket_sum rt (saved_debt now user p b) =
  if decide (rt = dp_rate_type p)
  then bucket_sum rt b - bucket_principal rt b user + dp_borrowed_amount p
  else bucket_sum rt b.
Proof.
  unfold bucket_sum, bucket_principal. rewrite saved_debt_map.
  case_decide; [|done]. by rewrite map_sum_insert.
Qed.

#[export] Hint Resolve preserves_require_current_admin : preserves.
