(* ===== verification/InterestRate.v ===== *)
(** * InterestRate: the kinked utilisation model ([lending/src/interest_rate.rs])

    [utilization_bps], [borrow_rate_bps] and [supply_rate_bps] are the code's
    functions with their checked arithmetic; [utilization_spec] and
    [rate_curve] are the mathematical functions they compute.  [config_wf] is
    the invariant of the stored configuration. *)

From S2P Require Import Prelude Host LendingTypes BorrowStorage.

Definition BPS_SCALE : Z := 10000.

(** ** Operations *)

Definition default_config (env : Env) : InterestRateConfig :=
  mkInterestRateConfig 100 8000 2000 10000 0 10000 200 (timestamp env).

Definition get_config (env : Env) (s : LState) : InterestRateConfig :=
  default (default_config env) (kBorrowInterestRate (st_borrow s)).

Definition set_default_if_missing {E} : LM E unit :=
  stored ← gets (λ s, kBorrowInterestRate (st_borrow s));
  match stored with
  | Some _ => mret tt
  | None =>
      cfg ← ask default_config;
      on_borrow (λ b, b <| kBorrowInterestRate := Some cfg |>)
  end.

Definition utilization_bps : LM InterestRateError Z :=
  ceiling ← gets get_debt_ceiling;
  if ceiling <=? 0 then mret 0 else
  debt ← gets get_total_debt;
  if debt <=? 0 then mret 0 else
  scaled ← ok_or (checked_mul debt BPS_SCALE) IE_Overflow;
  util ← ok_or (checked_div scaled ceiling) IE_DivisionByZero;
  mret (Z.max (Z.min util BPS_SCALE) 0).

Definition borrow_rate_bps : LM InterestRateError Z :=
  cfg ← reads get_config;
  util ← utilization_bps;
  rate ←
    (if util <=? irc_kink_utilization_bps cfg then
       if 0 <? irc_kink_utilization_bps cfg then
         prod ← ok_or (checked_mul util (irc_slope_bps cfg)) IE_Overflow;
         inc ← ok_or (checked_div prod (irc_kink_utilization_bps cfg)) IE_DivisionByZero;
         ok_or (checked_add (irc_base_rate_bps cfg) inc) IE_Overflow
       else mret (irc_base_rate_bps cfg)
     else
       rate_at_kink ← ok_or (checked_add (irc_base_rate_bps cfg) (irc_slope_bps cfg)) IE_Overflow;
       util_above ← ok_or (checked_sub util (irc_kink_utilization_bps cfg)) IE_Overflow;
       max_above ← ok_or (checked_sub BPS_SCALE (irc_kink_utilization_bps cfg)) IE_Overflow;
       if 0 <? max_above then
         prod ← ok_or (checked_mul util_above (irc_jump_slope_bps cfg)) IE_Overflow;
         addl ← ok_or (checked_div prod max_above) IE_DivisionByZero;
         ok_or (checked_add rate_at_kink addl) IE_Overflow
       else mret rate_at_kink);
  mret (Z.min (Z.max rate (irc_rate_floor_bps cfg)) (irc_rate_ceiling_bps cfg)).

Definition supply_rate_bps : LM InterestRateError Z :=
  cfg ← reads get_config;
  borrow ← borrow_rate_bps;
  supply ← ok_or (checked_sub borrow (irc_spread_bps cfg)) IE_Overflow;
  mret (Z.max supply (irc_rate_floor_bps cfg)).

(** [if let Some(v) = update.f { if bad(v) { return Err } next.f = v }] *)
Definition apply_update (o : option Z) (bad : Z → bool)
    (setf : Z → InterestRateConfig → InterestRateConfig) (next : InterestRateConfig) :
    LM InterestRateError InterestRateConfig :=
  match o with
  | Some v => reject_if (bad v) IE_InvalidParameter ;; mret (setf v next)
  | None => mret next
  end.

Definition out_of_bps (v : Z) : bool := (v <? 0) || (BPS_SCALE <? v).

Definition update_config (caller : Address) (update : InterestRateConfigUpdate) :
    LM InterestRateError (InterestRateConfig * InterestRateConfig) :=
  require_auth caller ;;
  stored ← gets get_admin;
  admin ← ok_or stored IE_Unauthorized;
  reject_if (bool_decide (caller ≠ admin)) IE_Unauthorized ;;
  prev ← reads get_config;
  next ← apply_update (up_base_rate_bps update) out_of_bps
           (λ v c, c <| irc_base_rate_bps := v |>) prev;
  next ← apply_update (up_kink_utilization_bps update) (λ v, (v <=? 0) || (BPS_SCALE <=? v))
           (λ v c, c <| irc_kink_utilization_bps := v |>) next;
  next ← apply_update (up_slope_bps update) (λ v, v <? 0)
           (λ v c, c <| irc_slope_bps := v |>) next;
  next ← apply_update (up_jump_slope_bps update) (λ v, v <? 0)
           (λ v c, c <| irc_jump_slope_bps := v |>) next;
  next ← apply_update (up_rate_floor_bps update) out_of_bps
           (λ v c, c <| irc_rate_floor_bps := v |>) next;
  next ← apply_update (up_rate_ceiling_bps update) out_of_bps
           (λ v c, c <| irc_rate_ceiling_bps := v |>) next;
  reject_if (irc_rate_ceiling_bps next <? irc_rate_floor_bps next) IE_InvalidParameter ;;
  next ← apply_update (up_spread_bps update) out_of_bps
           (λ v c, c <| irc_spread_bps := v |>) next;
  now ← ask timestamp;
  let next := next <| irc_last_update := now |> in
  on_borrow (λ b, b <| kBorrowInterestRate := Some next |>) ;;
  mret (prev, next).

(** ** Specification *)

Record config_wf (c : InterestRateConfig) : Prop := {
  wf_base : 0 ≤ irc_base_rate_bps c ≤ BPS_SCALE;
  wf_kink : 0 < irc_kink_utilization_bps c < BPS_SCALE;
  wf_slope : 0 ≤ irc_slope_bps c;
  wf_jump : 0 ≤ irc_jump_slope_bps c;
  wf_floor : 0 ≤ irc_rate_floor_bps c ≤ BPS_SCALE;
  wf_ceiling : 0 ≤ irc_rate_ceiling_bps c ≤ BPS_SCALE;
  wf_floor_ceiling : irc_rate_floor_bps c ≤ irc_rate_ceiling_bps c;
  wf_spread : 0 ≤ irc_spread_bps c ≤ BPS_SCALE;
}.

(** The stored configuration, when there is one, is well formed. *)
Definition rate_inv (s : LState) : Prop :=
  ∀ c, kBorrowInterestRate (st_borrow s) = Some c → config_wf c.

Definition utilization_spec (debt ceiling : Z) : Z :=
  if (ceiling <=? 0) || (debt <=? 0) then 0 else Z.min (debt * BPS_SCALE / ceiling) BPS_SCALE.

(** The piecewise-linear rate before clamping, rounded down. *)
Definition raw_curve (c : InterestRateConfig) (util : Z) : Z :=
  if util <=? irc_kink_utilization_bps c then
    irc_base_rate_bps c + util * irc_slope_bps c / irc_kink_utilization_bps c
  else
    irc_base_rate_bps c + irc_slope_bps c +
    (util - irc_kink_utilization_bps c) * irc_jump_slope_bps c
      / (BPS_SCALE - irc_kink_utilization_bps c).

Definition rate_curve (c : InterestRateConfig) (util : Z) : Z :=
  Z.min (Z.max (raw_curve c util) (irc_rate_floor_bps c)) (irc_rate_ceiling_bps c).

(** ** Lemmas *)

Lemma default_config_wf env : config_wf (default_config env).
Proof. split; cbn; unfold BPS_SCALE; lia. Qed.

Lemma get_config_wf env s : rate_inv s → config_wf (get_config env s).
Proof.
  unfold rate_inv, get_config. intros H.
  destruct (kBorrowInterestRate (st_borrow s)); [by apply H|apply default_config_wf].
Qed.

#[export] Instance readonly_utilization : Readonly utilization_bps.
Proof. unfold utilization_bps. apply _. Qed.
#[export] Instance readonly_borrow_rate : Readonly borrow_rate_bps.
Proof. unfold borrow_rate_bps. apply _. Qed.
#[export] Instance readonly_supply_rate : Readonly supply_rate_bps.
Proof. unfold supply_rate_bps. apply _. Qed.

Lemma utilization_spec_bounds debt ceiling :
  0 ≤ utilization_spec debt ceiling ≤ BPS_SCALE.
Proof.
  unfold utilization_spec, BPS_SCALE. destruct (_ || _) eqn:C; zbool; [lia|].
  assert (0 ≤ debt * 10000 / ceiling) by (apply Z.div_pos; lia). lia.
Qed.

Lemma utilization_bps_Ok env s u s' :
  utilization_bps env s = (Ok u, s') →
  u = utilization_spec (get_total_debt s) (get_debt_ceiling s) ∧ s' = s.
Proof.
  intros H. split; [|by apply (readonly_run _ _ _ _ _ H)].
  unfold utilization_bps in H. unfold utilization_spec.
  run_inv H; zbool; checked_facts; subst.
  - by rewrite (proj2 (Z.leb_le _ _)).
  - rewrite (proj2 (Z.leb_le (get_total_debt s) _)), orb_true_r by done. done.
  - rewrite !(proj2 (Z.leb_gt _ _)) by lia. simpl.
    rewrite quot_pos by (unfold BPS_SCALE; lia).
    assert (0 ≤ get_total_debt s * BPS_SCALE / get_debt_ceiling s)
      by (apply Z.div_pos; unfold BPS_SCALE; lia).
    unfold BPS_SCALE in *. lia.
Qed.

Lemma div_mul_bound a b k : 0 ≤ a ≤ k → 0 < k → 0 ≤ b → 0 ≤ a * b / k ≤ b.
Proof. intros. split; [apply Z.div_pos; nia|]. apply Z.div_le_upper_bound; nia. Qed.

Lemma borrow_rate_bps_Ok env s r s' :
  config_wf (get_config env s) →
  borrow_rate_bps env s = (Ok r, s') →
  r = rate_curve (get_config env s)
        (utilization_spec (get_total_debt s) (get_debt_ceiling s)) ∧ s' = s.
Proof.
  intros [] H. split; [|by apply (readonly_run _ _ _ _ _ H)].
  pose proof (utilization_spec_bounds (get_total_debt s) (get_debt_ceiling s)) as Hu.
  unfold borrow_rate_bps in H. unfold rate_curve, raw_curve.
  run_inv H; match goal with H : utilization_bps _ _ = _ |- _ =>
    apply utilization_bps_Ok in H as [-> ->] end; zbool; checked_facts; subst.
  - rewrite (proj2 (Z.leb_le _ _)), quot_pos by nia. lia.
  - lia.
  - rewrite (proj2 (Z.leb_gt _ _)), quot_pos by nia. lia.
  - lia.
Qed.

Lemma rate_curve_bounds c u :
  irc_rate_floor_bps c ≤ irc_rate_ceiling_bps c →
  irc_rate_floor_bps c ≤ rate_curve c u ≤ irc_rate_ceiling_bps c.
Proof. unfold rate_curve. lia. Qed.

Lemma raw_curve_mono c u1 u2 :
  config_wf c → 0 ≤ u1 → u1 ≤ u2 → raw_curve c u1 ≤ raw_curve c u2.
Proof.
  intros [] ??. unfold raw_curve.
  destruct (u1 <=? _) eqn:C1, (u2 <=? _) eqn:C2; zbool; [| |lia|].
  - apply Z.add_le_mono_l, Z.div_le_mono; nia.
  - pose proof (div_mul_bound u1 (irc_slope_bps c) (irc_kink_utilization_bps c)).
    assert (0 ≤ (u2 - irc_kink_utilization_bps c) * irc_jump_slope_bps c
                / (BPS_SCALE - irc_kink_utilization_bps c)) by (apply Z.div_pos; nia).
    lia.
  - apply Z.add_le_mono_l, Z.div_le_mono; nia.
Qed.

(** *** Totality *)

(** Configurations and debts far from the 128-bit limit. *)
Definition slopes_small (c : InterestRateConfig) : Prop :=
  irc_slope_bps c ≤ 10 ^ 30 ∧ irc_jump_slope_bps c ≤ 10 ^ 30.

Lemma utilization_bps_total env s :
  get_total_debt s * BPS_SCALE ≤ I128_MAX →
  utilization_bps env s =
    (Ok (utilization_spec (get_total_debt s) (get_debt_ceiling s)), s).
Proof.
  intros Hd. unfold utilization_bps, utilization_spec.
  rewrite bind_eq. cbn [gets]. destruct (get_debt_ceiling s <=? 0) eqn:C; [done|].
  rewrite bind_eq. cbn [gets orb]. destruct (get_total_debt s <=? 0) eqn:D; [done|].
  zbool. rewrite checked_mul_fits by (apply in_i128_spec; rewrite I128_MIN_eq; unfold BPS_SCALE in *; lia).
  rewrite bind_eq. simpl. unfold BPS_SCALE in *.
  rewrite checked_div_fits by lia. rewrite bind_eq. simpl. unfold mret, M_ret.
  assert (0 ≤ get_total_debt s * 10000 / get_debt_ceiling s) by (apply Z.div_pos; lia).
  repeat f_equal. lia.
Qed.

Lemma rate_total_below_kink c u :
  config_wf c → slopes_small c → 0 ≤ u ≤ irc_kink_utilization_bps c →
  0 ≤ u * irc_slope_bps c ≤ I128_MAX ∧
  in_i128 (irc_base_rate_bps c + u * irc_slope_bps c / irc_kink_utilization_bps c) = true.
Proof.
  intros [] [] Hu. unfold BPS_SCALE in *.
  pose proof (div_mul_bound u (irc_slope_bps c) (irc_kink_utilization_bps c)).
  split; [rewrite I128_MAX_eq; nia|]. apply in_i128_spec. rewrite I128_MAX_eq, I128_MIN_eq. lia.
Qed.

Lemma rate_total_above_kink c u :
  config_wf c → slopes_small c → irc_kink_utilization_bps c < u ≤ BPS_SCALE →
  let above := u - irc_kink_utilization_bps c in
  let span := BPS_SCALE - irc_kink_utilization_bps c in
  0 ≤ above * irc_jump_slope_bps c ≤ I128_MAX ∧
  in_i128 (irc_base_rate_bps c + irc_slope_bps c
           + above * irc_jump_slope_bps c / span) = true.
Proof.
  intros [] [] Hu above span.
  pose proof (div_mul_bound above (irc_jump_slope_bps c) span).
  unfold above, span, BPS_SCALE in *.
  split; [rewrite I128_MAX_eq; nia|]. apply in_i128_spec. rewrite I128_MAX_eq, I128_MIN_eq. lia.
Qed.

Lemma borrow_rate_bps_total env s :
  config_wf (get_config env s) → slopes_small (get_config env s) →
  get_total_debt s * BPS_SCALE ≤ I128_MAX →
  borrow_rate_bps env s =
    (Ok (rate_curve (get_config env s)
           (utilization_spec (get_total_debt s) (get_debt_ceiling s))), s).
Proof.
  intros Hwf Hsm Hd. unfold borrow_rate_bps, rate_curve, raw_curve.
  rewrite bind_eq. cbn [reads].
  rewrite (bind_run _ _ _ _ _ _ (utilization_bps_total env s Hd)).
  pose proof (utilization_spec_bounds (get_total_debt s) (get_debt_ceiling s)) as Hu.
  set (c := get_config env s) in *. set (u := utilization_spec _ _) in *.
  pose proof (wf_kink c Hwf) as Hk. pose proof (wf_base c Hwf). pose proof (wf_slope c Hwf).
  destruct (u <=? irc_kink_utilization_bps c) eqn:C; zbool.
  - destruct (rate_total_below_kink c u) as [? ?]; [done..|lia|].
    rewrite (proj2 (Z.ltb_lt _ _)) by lia.
    rewrite checked_mul_fits by (apply in_i128_spec; rewrite I128_MIN_eq; lia).
    run_fwd. rewrite checked_div_fits by lia. run_fwd.
    rewrite checked_add_fits by done. run_fwd. done.
  - destruct (rate_total_above_kink c u) as [? ?]; [done..|lia|].
    assert (in_i128 (irc_base_rate_bps c + irc_slope_bps c) = true) as Hk1.
    { destruct Hsm. apply in_i128_spec. rewrite I128_MAX_eq, I128_MIN_eq. unfold BPS_SCALE in *. lia. }
    rewrite (checked_add_fits _ _ Hk1). run_fwd.
    rewrite !checked_sub_fits by (apply in_i128_spec; rewrite I128_MAX_eq, I128_MIN_eq; unfold BPS_SCALE in *; lia).
    run_fwd. rewrite (proj2 (Z.ltb_lt _ _)) by lia.
    rewrite checked_mul_fits by (apply in_i128_spec; rewrite I128_MIN_eq; lia).
    run_fwd. rewrite checked_div_fits by lia. run_fwd.
    rewrite checked_add_fits by done. run_fwd. done.
Qed.

(** *** Configuration updates *)

Lemma apply_update_Ok o bad setf next env s c s' :
  apply_update o bad setf next env s = (Ok c, s') →
  s' = s ∧ c = match o with Some v => setf v next | None => next end ∧
  (∀ v, o = Some v → bad v = false).
Proof.
  unfold apply_update. intros H. destruct o; run_inv H; naive_solver.
Qed.

#[export] Instance readonly_apply_update o bad setf next :
  Readonly (apply_update o bad setf next).
Proof. unfold apply_update. apply _. Qed.

(** The configuration an accepted update produces. *)
Definition updated_config (update : InterestRateConfigUpdate) (now : Z) (c : InterestRateConfig) :
    InterestRateConfig :=
  mkInterestRateConfig
    (default (irc_base_rate_bps c) (up_base_rate_bps update))
    (default (irc_kink_utilization_bps c) (up_kink_utilization_bps update))
    (default (irc_slope_bps c) (up_slope_bps update))
    (default (irc_jump_slope_bps c) (up_jump_slope_bps update))
    (default (irc_rate_floor_bps c) (up_rate_floor_bps update))
    (default (irc_rate_ceiling_bps c) (up_rate_ceiling_bps update))
    (default (irc_spread_bps c) (up_spread_bps update))
    now.

Lemma update_config_Ok caller update env s prev next s' :
  update_config caller update env s = (Ok (prev, next), s') →
  authorized env caller = true ∧ get_admin s = Some caller ∧
  prev = get_config env s ∧ next = updated_config update (timestamp env) prev ∧
  (config_wf prev → config_wf next) ∧
  s' = s <| st_borrow := (st_borrow s) <| kBorrowInterestRate := Some next |> |>.
Proof.
  unfold update_config. intros H. run_inv H.
  repeat match goal with
  | H : apply_update _ _ _ _ _ _ = _ |- _ => apply apply_update_Ok in H as (-> & -> & ?)
  end.
  simplify_eq. zbool.
  split_and!; [done|naive_solver|done| |intros []|done].
  - destruct update as [[] [] [] [] [] [] []]; reflexivity.
  - destruct update as [[] [] [] [] [] [] []]; cbn in *; unfold out_of_bps in *;
      repeat match goal with H : ∀ v, Some ?x = Some v → _ |- _ => specialize (H _ eq_refl) end;
      zbool; split; cbn; lia.
Qed.

(** ** Properties *)

(** C34: the borrow rate the contract charges is the documented kinked curve of
    the utilisation, and it lies between the configured floor and ceiling;
    computing it changes nothing. *)
Theorem borrow_rate_is_curve env s r s' :
  rate_inv s →
  borrow_rate_bps env s = (Ok r, s') →
  let c := get_config env s in
  let u := utilization_spec (get_total_debt s) (get_debt_ceiling s) in
  0 ≤ u ≤ BPS_SCALE ∧ r = rate_curve c u ∧
  irc_rate_floor_bps c ≤ r ≤ irc_rate_ceiling_bps c ∧ s' = s.
Proof.
  intros Hinv H c u. pose proof (get_config_wf env s Hinv) as Hwf.
  apply borrow_rate_bps_Ok in H as [-> ->]; [|done].
  split; [apply utilization_spec_bounds|]. split; [done|].
  split; [|done]. apply rate_curve_bounds, wf_floor_ceiling, Hwf.
Qed.
