(* ===== verification/RiskMonitor.v ===== *)
(** * RiskMonitor: utilisation alerts ([lending/src/risk_monitor.rs])

    The alert latch is a small state machine: [kLastEmittedTier] is the
    highest severity already announced in the current excursion above the
    warning level. *)

From S2P Require Import Prelude Host LendingTypes BorrowStorage.

(** ** Operations *)

Definition severity_discriminant (s : RiskAlertSeverity) : Z :=
  match s with Warning => 1 | Critical => 2 | Emergency => 3 end.

Definition severity_for_util (util_bps : Z) (th : RiskAlertThresholds) : RiskAlertSeverity :=
  if (0 <? rt_emergency_utilization_bps th) && (rt_emergency_utilization_bps th <=? util_bps)
  then Emergency
  else if (0 <? rt_critical_utilization_bps th) && (rt_critical_utilization_bps th <=? util_bps)
  then Critical
  else Warning.

Definition on_utilization_changed {E} (total_debt debt_ceiling : Z) : LM E unit :=
  if debt_ceiling <=? 0 then mret tt else
  thresholds ← gets (λ s, kThresholds (st_aux s));
  match thresholds with
  | None => mret tt
  | Some th =>
      if rt_warning_utilization_bps th =? 0 then mret tt else
      ratio ← unwrap (saturating_div (saturating_mul total_debt 10000) debt_ceiling);
      let util_bps := Z.min (Z.max ratio 0) U32_MAX in
      if util_bps <? rt_warning_utilization_bps th then
        on_aux (λ a, a <| kLastEmittedTier := Some 0 |>)
      else
        prev ← gets (λ s, default 0 (kLastEmittedTier (st_aux s)));
        let tier := severity_discriminant (severity_for_util util_bps th) in
        if prev <? tier then
          now ← ask timestamp;
          publish (RiskUtilizationAlertEvent tier util_bps total_debt debt_ceiling now) ;;
          on_aux (λ a, a <| kLastEmittedTier := Some tier |>)
        else mret tt
  end.

Definition set_risk_alert_thresholds (admin : Address) (thresholds : RiskAlertThresholds) :
    LM RiskMonitorError unit :=
  require_auth admin ;;
  stored ← gets get_admin;
  current ← ok_or stored RE_Unauthorized;
  reject_if (bool_decide (admin ≠ current)) RE_Unauthorized ;;
  reject_if (rt_warning_utilization_bps thresholds =? 0) RE_InvalidThresholds ;;
  reject_if ((0 <? rt_critical_utilization_bps thresholds) &&
             (rt_critical_utilization_bps thresholds <? rt_warning_utilization_bps thresholds))
    RE_InvalidThresholds ;;
  (if 0 <? rt_emergency_utilization_bps thresholds then
     reject_if (rt_critical_utilization_bps thresholds =? 0) RE_InvalidThresholds ;;
     reject_if (rt_emergency_utilization_bps thresholds <? rt_critical_utilization_bps thresholds)
       RE_InvalidThresholds
   else mret tt) ;;
  on_aux (λ a, a <| kThresholds := Some thresholds |>) ;;
  on_aux (λ a, a <| kLastEmittedTier := Some 0 |>).

Definition get_risk_alert_thresholds (s : LState) : option RiskAlertThresholds :=
  kThresholds (st_aux s).

(** ** Specification *)

(** Thresholds the admin operation accepts: ordered, warning always on. *)
Definition thresholds_wf (th : RiskAlertThresholds) : Prop :=
  rt_warning_utilization_bps th ≠ 0 ∧
  (0 < rt_critical_utilization_bps th →
   rt_warning_utilization_bps th ≤ rt_critical_utilization_bps th) ∧
  (0 < rt_emergency_utilization_bps th →
   0 ≠ rt_critical_utilization_bps th ∧
   rt_critical_utilization_bps th ≤ rt_emergency_utilization_bps th).

Definition risk_inv (s : LState) : Prop :=
  (∀ th, kThresholds (st_aux s) = Some th → thresholds_wf th) ∧
  0 ≤ default 0 (kLastEmittedTier (st_aux s)) ≤ 3.

(** The tier recorded by the latch, and the utilisation it is compared at. *)
Definition latch (s : LState) : Z := default 0 (kLastEmittedTier (st_aux s)).

Definition utilization_of (total_debt debt_ceiling : Z) : Z :=
  Z.min (Z.max (clamp I128_MIN I128_MAX
    (Z.quot (saturating_mul total_debt 10000) debt_ceiling)) 0) U32_MAX.

(** ** Lemmas *)

Lemma severity_range sv : 1 ≤ severity_discriminant sv ≤ 3.
Proof. destruct sv; cbn; lia. Qed.

Lemma severity_mono u1 u2 th :
  thresholds_wf th → u1 ≤ u2 →
  severity_discriminant (severity_for_util u1 th) ≤ severity_discriminant (severity_for_util u2 th).
Proof.
  intros _ Hu. unfold severity_for_util.
  repeat match goal with |- context [if ?c then _ else _] => destruct c eqn:? end;
    cbn; zbool; try lia;
    repeat match goal with H : _ ∨ _ |- _ => destruct H end; zbool; lia.
Qed.

(** The monitor touches the latch and the event log only. *)
Lemma on_utilization_changed_frame {E} total ceiling env s r s' :
  on_utilization_changed (E := E) total ceiling env s = (r, s') →
  st_borrow s' = st_borrow s ∧ st_vault s' = st_vault s ∧ st_pause s' = st_pause s.
Proof.
  assert (preserves (λ s', st_borrow s' = st_borrow s ∧ st_vault s' = st_vault s ∧
    st_pause s' = st_pause s) (on_utilization_changed (E := E) total ceiling)) as Hp.
  { unfold on_utilization_changed. preserve; auto. }
  intros H. by eapply Hp.
Qed.

(** One notification: below the warning level the latch is reset and nothing
    is announced; above it an alert is announced exactly when the severity
    exceeds the latch, which becomes the maximum of the two. *)
Lemma on_utilization_changed_spec {E} total ceiling th env s :
  0 < ceiling → kThresholds (st_aux s) = Some th → rt_warning_utilization_bps th ≠ 0 →
  let util := utilization_of total ceiling in
  let sev := severity_discriminant (severity_for_util util th) in
  on_utilization_changed (E := E) total ceiling env s =
  (Ok tt,
   if util <? rt_warning_utilization_bps th
   then s <| st_aux := (st_aux s) <| kLastEmittedTier := Some 0 |> |>
   else if latch s <? sev
   then s <| st_events := st_events s ++
              [RiskUtilizationAlertEvent sev util total ceiling (timestamp env)] |>
          <| st_aux := (st_aux s) <| kLastEmittedTier := Some sev |> |>
   else s).
Proof.
  intros Hc Hth Hw util sev. unfold on_utilization_changed.
  rewrite (proj2 (Z.leb_gt _ _)) by lia. run_fwd. rewrite Hth.
  rewrite (proj2 (Z.eqb_neq _ _)) by done.
  unfold saturating_div. rewrite (proj2 (Z.eqb_neq _ _)) by lia. run_fwd.
  fold (utilization_of total ceiling). fold util. fold sev.
  destruct (util <? _); [done|]. run_fwd. fold (latch s).
  destruct (latch s <? sev); [|done]. reflexivity.
Qed.

Lemma set_risk_alert_thresholds_Ok admin th env s u s' :
  set_risk_alert_thresholds admin th env s = (Ok u, s') →
  authorized env admin = true ∧ get_admin s = Some admin ∧ thresholds_wf th ∧
  s' = s <| st_aux := (st_aux s) <| kThresholds := Some th |> <| kLastEmittedTier := Some 0 |> |>.
Proof.
  unfold set_risk_alert_thresholds. intros H. run_inv H; zbool;
    (split_and!; [done|congruence| |done]); unfold thresholds_wf;
    repeat match goal with H : _ ∨ _ |- _ => destruct H end; zbool; lia.
Qed.

(** ** Properties *)

(** An alert is announced exactly when the severity rises above what was
    announced since the utilisation was last below the warning level; the latch
    remembers the maximum; the same utilisation is not announced again. *)
Theorem alerts_escalate_once total ceiling th env env' s u s' :
  0 < ceiling → kThresholds (st_aux s) = Some th → rt_warning_utilization_bps th ≠ 0 →
  0 ≤ latch s →
  on_utilization_changed (E := BorrowError) total ceiling env s = (Ok u, s') →
  let util := utilization_of total ceiling in
  let sev := severity_discriminant (severity_for_util util th) in
  let quiet := util <? rt_warning_utilization_bps th in
  latch s' = (if quiet then 0 else Z.max (latch s) sev) ∧
  st_events s' = st_events s ++
    (if negb quiet && (latch s <? sev)
     then [RiskUtilizationAlertEvent sev util total ceiling (timestamp env)] else []) ∧
  st_borrow s' = st_borrow s ∧
  st_events (on_utilization_changed (E := BorrowError) total ceiling env' s').2 = st_events s'.
Proof.
  intros Hc Hth Hw Hl H util sev quiet.
  rewrite (on_utilization_changed_spec total ceiling th env s Hc Hth Hw) in H.
  injection H as _ <-. fold util. fold sev. fold quiet.
  assert (kThresholds (st_aux s) = Some th →
    ∀ s2, kThresholds (st_aux s2) = Some th → (quiet = false → sev ≤ latch s2) →
    st_events (on_utilization_changed (E := BorrowError) total ceiling env' s2).2 = st_events s2) as Hagain.
  { intros _ s2 H2 Hq. rewrite (on_utilization_changed_spec total ceiling th env' s2 Hc H2 Hw).
    fold util. fold sev. fold quiet. destruct quiet; [done|].
    rewrite (proj2 (Z.ltb_ge _ _)) by auto. done. }
  destruct quiet eqn:Eq; cbn [negb andb].
  - rewrite app_nil_r. split_and!; [done..|]. by apply Hagain.
  - destruct (latch s <? sev) eqn:El; zbool.
    + split_and!; [|done|done|].
      * unfold latch at 1. cbn. lia.
      * apply Hagain; [done|done|]. intros _. unfold latch. cbn. lia.
    + rewrite app_nil_r. split_and!; [lia|done|done|]. apply Hagain; [done..|]. intros _. lia.
Qed.
