(* ===== verification/Borrow.v ===== *)
(** * Borrow: borrowing, collateral, repayment and rate switching
    ([lending/src/borrow.rs])

    The operations follow the code statement by statement.  The lemmas give,
    for each operation, the storage it produces when it succeeds; the
    accounting of the debt total is in [DebtAccounting]. *)

From S2P Require Import Prelude Host LendingTypes Pause BorrowStorage InterestRate RiskMonitor.

(** ** Rates *)

Definition get_current_variable_rate_bps : LM BorrowError Z :=
  map_err borrow_error_of borrow_rate_bps.

Definition set_variable_borrow_rate_bps (admin : Address) (rate_bps : Z) : LM BorrowError unit :=
  require_current_admin admin ;;
  reject_if (negb (in_range 0 10000 rate_bps)) BE_InvalidAmount ;;
  let update := mkInterestRateConfigUpdate (Some rate_bps) None None None None None None in
  _ ← map_err borrow_error_of (update_config admin update);
  mret tt.

Definition get_stable_rate_state {E} : LM E StableRateState :=
  stored ← gets (λ s, kStableRateState (st_borrow s));
  match stored with
  | Some st => mret st
  | None =>
      rate ← attempt get_current_variable_rate_bps;
      now ← ask timestamp;
      mret (mkStableRateState (match rate with inr r => r | inl _ => 0 end) now)
  end.

(** [(old * 9 + current) / 10], or [current] when that overflows. *)
Definition smoothed_rate (avg current : Z) : Z :=
  default current
    (checked_mul avg 9 ≫= λ v, checked_add v current ≫= λ v, checked_div v 10).

Definition update_stable_rate_state_if_needed {E} : LM E StableRateState :=
  state ← get_stable_rate_state;
  now ← ask timestamp;
  interval ← gets get_stable_rate_recalc_interval_secs;
  if now <=? srs_last_update state then mret state else
  if (interval =? 0) || (now - srs_last_update state <? interval) then mret state else
  current ← attempt get_current_variable_rate_bps;
  let current := match current with inr v => v | inl _ => srs_avg_rate_bps state end in
  let state := mkStableRateState (smoothed_rate (srs_avg_rate_bps state) current) now in
  on_borrow (λ b, b <| kStableRateState := Some state |>) ;;
  mret state.

Definition get_current_stable_rate_bps : LM BorrowError Z :=
  state ← update_stable_rate_state_if_needed;
  premium ← gets get_stable_rate_premium_bps;
  ok_or (checked_add (srs_avg_rate_bps state) premium) BE_Overflow.

(** ** Collateral ratio and interest *)

Definition validate_collateral_ratio (collateral borrow : Z) : LM BorrowError unit :=
  scaled ← ok_or (checked_mul borrow COLLATERAL_RATIO_MIN) BE_Overflow;
  min_collateral ← ok_or (checked_div scaled 10000) BE_InvalidAmount;
  reject_if (collateral <? min_collateral) BE_InsufficientCollateral.

Definition get_asset_price {E} (oracle asset : Address) : LM E Z :=
  price ← ask (λ env, oracle_price env oracle asset);
  unwrap price.

(** [principal * bps * secs / 10000 / SECONDS_PER_YEAR] in 256-bit arithmetic. *)
Definition prorate (principal bps secs : Z) : option Z :=
  p ← i256_mul principal bps;
  p ← i256_mul p secs;
  p ← i256_div p 10000;
  i256_div p SECONDS_PER_YEAR.

(** How far, in basis points, the price is below its target. *)
Definition deviation_bps (target_price price : Z) : option Z :=
  if 0 <? target_price
  then saturating_div (saturating_mul (saturating_sub target_price price) 10000) target_price
  else Some 0.

Definition calculate_interest (position : DebtPosition) : LM BorrowError Z :=
  if dp_borrowed_amount position =? 0 then mret 0 else
  current_time ← ask timestamp;
  let time_elapsed := u64_saturating_sub current_time (dp_last_update position) in
  rate_bps ←
    match dp_rate_type position with
    | VariableRate => get_current_variable_rate_bps
    | StableRate =>
        if 0 <? dp_stable_rate_bps position then mret (dp_stable_rate_bps position)
        else get_current_stable_rate_bps
    end;
  interest ← unwrap (prorate (dp_borrowed_amount position) rate_bps time_elapsed);
  config ← gets (λ s, get_stablecoin_config s (dp_asset position));
  oracle ← gets get_oracle;
  interest ←
    match config with
    | Some config =>
        match oracle with
        | Some oracle =>
            price ← get_asset_price oracle (dp_asset position);
            deviation ← unwrap (deviation_bps (sc_target_price config) price);
            if sc_peg_threshold_bps config <? deviation then
              fee ← unwrap (prorate (dp_borrowed_amount position)
                              (sc_stability_fee_bps config) time_elapsed);
              total ← unwrap (i256_add interest fee);
              publish (PegDeviationEvent (dp_asset position) price (sc_target_price config)
                         deviation current_time) ;;
              publish (StabilityFeeAppliedEvent (dp_asset position)
                         (sc_stability_fee_bps config) current_time) ;;
              mret total
            else mret interest
        | None => mret interest
        end
    | None => mret interest
    end;
  ok_or (i256_to_i128 interest) BE_Overflow.

(** ** Borrow *)

Inductive BorrowAuth : Type := RequireUserSignature | TrustedCommitment.
#[export] Instance BorrowAuth_eq_dec : EqDecision BorrowAuth.
Proof. solve_decision. Defined.

Definition emit_borrow_event {E} (user asset : Address) (amount collateral : Z) : LM E unit :=
  now ← ask timestamp;
  publish (BorrowEvent user asset amount collateral now).

(** [if auth == BorrowAuth::RequireUserSignature { user.require_auth(); }] *)
Definition authorize_borrow {E} (auth : BorrowAuth) (user : Address) : LM E unit :=
  when (bool_decide (auth = RequireUserSignature)) (require_auth user).

(** [if rate_type == Stable { position.stable_rate_bps = current_stable_rate()?; }] *)
Definition lock_stable_rate (rate_type : RateType) (position : DebtPosition) :
    LM BorrowError DebtPosition :=
  if bool_decide (rate_type = StableRate) then
    rate ← get_current_stable_rate_bps;
    mret (position <| dp_stable_rate_bps := rate |>)
  else mret position.

Definition borrow_inner (user asset : Address) (amount : Z) (collateral_asset : Address)
    (collateral_amount : Z) (rate_type : RateType) (auth : BorrowAuth) : LM BorrowError unit :=
  authorize_borrow auth user ;;
  paused ← gets (λ s, is_paused s PauseBorrow);
  reject_if paused BE_ProtocolPaused ;;
  reject_if ((amount <=? 0) || (collateral_amount <=? 0)) BE_InvalidAmount ;;
  min_borrow ← gets get_min_borrow_amount;
  reject_if (amount <? min_borrow) BE_BelowMinimumBorrow ;;
  validate_collateral_ratio collateral_amount amount ;;
  total_debt ← gets get_total_debt;
  debt_ceiling ← gets get_debt_ceiling;
  new_total ← ok_or (checked_add total_debt amount) BE_Overflow;
  reject_if (debt_ceiling <? new_total) BE_DebtCeilingReached ;;
  position ← reads (get_debt_position user (Some asset) rate_type);
  let position := position <| dp_rate_type := rate_type |> in
  accrued ← calculate_interest position;
  borrowed ← ok_or (checked_add (dp_borrowed_amount position) amount) BE_Overflow;
  interest ← ok_or (checked_add (dp_interest_accrued position) accrued) BE_Overflow;
  now ← ask timestamp;
  let position := position <| dp_borrowed_amount := borrowed |>
                           <| dp_interest_accrued := interest |>
                           <| dp_last_update := now |>
                           <| dp_asset := asset |> in
  position ← lock_stable_rate rate_type position;
  collateral ← gets (λ s, get_collateral_position s user);
  collateral_total ← ok_or (checked_add (bc_amount collateral) collateral_amount) BE_Overflow;
  save_debt_position user position ;;
  save_collateral_position user (mkBorrowCollateral collateral_total collateral_asset) ;;
  set_total_debt new_total ;;
  on_utilization_changed new_total debt_ceiling ;;
  emit_borrow_event user asset amount collateral_amount.

Definition borrow_with_rate (user asset : Address) (amount : Z) (collateral_asset : Address)
    (collateral_amount : Z) (rate_type : RateType) : LM BorrowError unit :=
  borrow_inner user asset amount collateral_asset collateral_amount rate_type
    RequireUserSignature.

Definition borrow (user asset : Address) (amount : Z) (collateral_asset : Address)
    (collateral_amount : Z) : LM BorrowError unit :=
  borrow_with_rate user asset amount collateral_asset collateral_amount VariableRate.

Definition borrow_trusted (user asset : Address) (amount : Z) (collateral_asset : Address)
    (collateral_amount : Z) : LM BorrowError unit :=
  borrow_inner user asset amount collateral_asset collateral_amount VariableRate
    TrustedCommitment.

Definition borrow_from_commitment (user asset : Address) (amount : Z)
    (collateral_asset : Address) (collateral_amount : Z) : LM BorrowError unit :=
  borrow_inner user asset amount collateral_asset collateral_amount VariableRate
    TrustedCommitment.

(** ** Collateral deposit *)

Definition deposit (user asset : Address) (amount : Z) : LM BorrowError unit :=
  reject_if (amount <=? 0) BE_InvalidAmount ;;
  position ← gets (λ s, get_collateral_position s user);
  position ←
    (if bc_amount position =? 0 then mret (position <| bc_asset := asset |>)
     else
       reject_if (bool_decide (bc_asset position ≠ asset)) BE_AssetNotSupported ;;
       mret position);
  total ← ok_or (checked_add (bc_amount position) amount) BE_Overflow;
  save_collateral_position user (position <| bc_amount := total |>) ;;
  now ← ask timestamp;
  publish (BorrowCollateralDepositEvent user asset amount now).

(** ** Repay *)

Definition repay_with_rate (user asset : Address) (amount : Z) (rate_type : RateType) :
    LM BorrowError unit :=
  reject_if (amount <=? 0) BE_InvalidAmount ;;
  position ← reads (get_debt_position user (Some asset) rate_type);
  let position := position <| dp_rate_type := rate_type |> in
  reject_if ((dp_borrowed_amount position =? 0) && (dp_interest_accrued position =? 0))
    BE_InvalidAmount ;;
  reject_if (bool_decide (dp_asset position ≠ asset)) BE_AssetNotSupported ;;
  accrued ← calculate_interest position;
  interest ← ok_or (checked_add (dp_interest_accrued position) accrued) BE_Overflow;
  now ← ask timestamp;
  (* interest first, then principal *)
  '(remaining, interest_left) ←
    (if interest <=? amount then
       remaining ← unwrap (checked_sub amount interest);
       mret (remaining, 0)
     else
       left ← unwrap (checked_sub interest amount);
       mret (0, left));
  principal_left ←
    (if 0 <? remaining then
       reject_if (dp_borrowed_amount position <? remaining) BE_RepayAmountTooHigh ;;
       principal ← unwrap (checked_sub (dp_borrowed_amount position) remaining);
       total_debt ← gets get_total_debt;
       new_total ← ok_or (checked_sub total_debt remaining) BE_Overflow;
       set_total_debt new_total ;;
       mret principal
     else mret (dp_borrowed_amount position));
  save_debt_position user
    (position <| dp_borrowed_amount := principal_left |>
              <| dp_interest_accrued := interest_left |>
              <| dp_last_update := now |>) ;;
  publish (RepayEvent user asset amount now).

Definition repay (user asset : Address) (amount : Z) : LM BorrowError unit :=
  variable ← reads (get_debt_position user (Some asset) VariableRate);
  if is_open variable
  then repay_with_rate user asset amount VariableRate
  else repay_with_rate user asset amount StableRate.

(** ** Switching the rate type *)

Definition other_rate (r : RateType) : RateType :=
  if bool_decide (r = VariableRate) then StableRate else VariableRate.

Definition switch_rate_type (user asset : Address) (to_rate_type : RateType) :
    LM BorrowError unit :=
  require_auth user ;;
  let from_rate_type := other_rate to_rate_type in
  from ← reads (get_debt_position user (Some asset) from_rate_type);
  let from := from <| dp_rate_type := from_rate_type |> in
  reject_if ((dp_borrowed_amount from =? 0) && (dp_interest_accrued from =? 0))
    BE_InvalidAmount ;;
  to ← reads (get_debt_position user (Some asset) to_rate_type);
  let to := to <| dp_rate_type := to_rate_type |> in
  reject_if (negb (dp_borrowed_amount to =? 0) || negb (dp_interest_accrued to =? 0))
    BE_AssetNotSupported ;;
  accrued ← calculate_interest from;
  interest ← ok_or (checked_add (dp_interest_accrued from) accrued) BE_Overflow;
  now ← ask timestamp;
  fee_bps ← gets get_rate_switch_fee_bps;
  scaled ← ok_or (checked_mul (dp_borrowed_amount from) fee_bps) BE_Overflow;
  fee ← ok_or (checked_div scaled 10000) BE_Overflow;
  interest ← ok_or (checked_add interest fee) BE_Overflow;
  let to := to <| dp_borrowed_amount := dp_borrowed_amount from |>
               <| dp_interest_accrued := interest |>
               <| dp_last_update := now |>
               <| dp_asset := asset |> in
  to ← lock_stable_rate to_rate_type to;
  let from := from <| dp_borrowed_amount := 0 |>
                   <| dp_interest_accrued := 0 |>
                   <| dp_last_update := now |>
                   <| dp_stable_rate_bps := 0 |> in
  save_debt_position user from ;;
  save_debt_position user to.

(** ** Settings and views *)

Definition initialize_borrow_settings (debt_ceiling min_borrow_amount : Z) : LM BorrowError unit :=
  on_borrow (λ b, b <| kBorrowDebtCeiling := Some debt_ceiling |>) ;;
  on_borrow (λ b, b <| kBorrowMinAmount := Some min_borrow_amount |>) ;;
  set_default_if_missing ;;
  on_borrow (λ b, if kStableRatePremiumBps b is Some _ then b
                  else b <| kStableRatePremiumBps := Some DEFAULT_STABLE_PREMIUM_BPS |>) ;;
  on_borrow (λ b, if kStableRateRecalcIntervalSecs b is Some _ then b
                  else b <| kStableRateRecalcIntervalSecs :=
                              Some DEFAULT_STABLE_RECALC_INTERVAL_SECS |>) ;;
  on_borrow (λ b, if kRateSwitchFeeBps b is Some _ then b
                  else b <| kRateSwitchFeeBps := Some DEFAULT_SWITCH_FEE_BPS |>).

(** Adds the interest due to a position that is only being read. *)
Definition with_accrued {E} (position : DebtPosition) : LM E DebtPosition :=
  r ← attempt (calculate_interest position);
  mret (match r with
        | inr accrued =>
            position <| dp_interest_accrued :=
                          saturating_add (dp_interest_accrued position) accrued |>
        | inl BE_Overflow => position <| dp_interest_accrued := I128_MAX |>
        | inl _ => position
        end).

Definition get_user_debt {E} (user : Address) : LM E DebtPosition :=
  variable ← reads (get_debt_position user None VariableRate);
  stable ← reads (get_debt_position user None StableRate);
  with_accrued (if is_open variable then variable else stable).

Definition get_user_debt_with_rate {E} (user : Address) (rate_type : RateType) : LM E DebtPosition :=
  position ← reads (get_debt_position user None rate_type);
  with_accrued position.

Definition get_user_collateral (s : LState) (user : Address) : BorrowCollateral :=
  get_collateral_position s user.

(** ** Observational equality

    Accruing interest may recompute the stable-rate average and publish
    events.  States that differ in nothing else are equivalent. *)

Definition observe (s : LState) : BorrowStore * VaultStore * PauseStore * AuxStore :=
  ((st_borrow s) <| kStableRateState := None |>, st_vault s, st_pause s, st_aux s).

#[export] Instance LState_equiv : Equiv LState := λ s s', observe s = observe s'.
#[export] Instance LState_equivalence : Equivalence (≡@{LState}).
Proof. split; unfold equiv, LState_equiv; congruence. Qed.

(** Every function of what [observe] keeps is a morphism. *)
Lemma observe_factor {T} (f : LState → T)
    (g : BorrowStore * VaultStore * PauseStore * AuxStore → T) :
  (∀ s, f s = g (observe s)) → Proper ((≡) ==> (=)) f.
Proof. intros Hf s s' Hs. rewrite !Hf. by f_equal. Qed.

#[export] Instance get_admin_proper : Proper ((≡) ==> (=)) get_admin.
Proof. exact (observe_factor _ (λ x, kProtocolAdmin x.1.1.1) (λ _, eq_refl)). Qed.
#[export] Instance get_total_debt_proper : Proper ((≡) ==> (=)) get_total_debt.
Proof. exact (observe_factor _ (λ x, default 0 (kBorrowTotalDebt x.1.1.1)) (λ _, eq_refl)). Qed.
#[export] Instance get_debt_ceiling_proper : Proper ((≡) ==> (=)) get_debt_ceiling.
Proof. exact (observe_factor _ (λ x, default I128_MAX (kBorrowDebtCeiling x.1.1.1)) (λ _, eq_refl)). Qed.
#[export] Instance get_oracle_proper : Proper ((≡) ==> (=)) get_oracle.
Proof. exact (observe_factor _ (λ x, kOracleAddress x.1.1.1) (λ _, eq_refl)). Qed.
#[export] Instance get_config_proper : Proper ((=) ==> (≡) ==> (=)) get_config.
Proof.
  intros env ? <-.
  exact (observe_factor _ (λ x, default (default_config env) (kBorrowInterestRate x.1.1.1)) (λ _, eq_refl)).
Qed.
#[export] Instance st_vault_proper : Proper ((≡) ==> (=)) st_vault.
Proof. exact (observe_factor _ (λ x, x.1.1.2) (λ _, eq_refl)). Qed.
#[export] Instance st_pause_proper : Proper ((≡) ==> (=)) st_pause.
Proof. exact (observe_factor _ (λ x, x.1.2) (λ _, eq_refl)). Qed.
#[export] Instance st_aux_proper : Proper ((≡) ==> (=)) st_aux.
Proof. exact (observe_factor _ (λ x, x.2) (λ _, eq_refl)). Qed.

Lemma equiv_fields s s' : s ≡ s' →
  (∀ rt, debt_map rt (st_borrow s') = debt_map rt (st_borrow s)) ∧
  kBorrowUserDebt (st_borrow s') = kBorrowUserDebt (st_borrow s) ∧
  kBorrowUserCollateral (st_borrow s') = kBorrowUserCollateral (st_borrow s) ∧
  kBorrowTotalDebt (st_borrow s') = kBorrowTotalDebt (st_borrow s) ∧
  kBorrowInterestRate (st_borrow s') = kBorrowInterestRate (st_borrow s).
Proof.
  intros Hs. split_and!.
  - intros rt. exact (eq_sym (f_equal (λ x, debt_map rt x.1.1.1) Hs)).
  - exact (eq_sym (f_equal (λ x, kBorrowUserDebt x.1.1.1) Hs)).
  - exact (eq_sym (f_equal (λ x, kBorrowUserCollateral x.1.1.1) Hs)).
  - exact (eq_sym (f_equal (λ x, kBorrowTotalDebt x.1.1.1) Hs)).
  - exact (eq_sym (f_equal (λ x, kBorrowInterestRate x.1.1.1) Hs)).
Qed.

#[export] Instance get_debt_position_proper user a rt env :
  Proper ((≡) ==> (=)) (get_debt_position user a rt env).
Proof.
  intros s s' Hs. apply equiv_fields in Hs as (Hm & Hl & _).
  unfold get_debt_position. by rewrite Hm, Hl.
Qed.

#[export] Instance get_collateral_position_proper :
  Proper ((≡) ==> (=) ==> (=)) get_collateral_position.
Proof.
  intros s s' Hs user ? <-. apply equiv_fields in Hs as (_ & _ & Hc & _).
  unfold get_collateral_position. by rewrite Hc.
Qed.

#[export] Instance is_paused_proper : Proper ((≡) ==> (=) ==> (=)) is_paused.
Proof. intros s s' Hs t ? <-. rewrite !is_paused_flags. unfold pause_flag. by rewrite Hs. Qed.

(** ** Reading interest leaves the state equivalent *)

#[export] Instance readonly_variable_rate : Readonly get_current_variable_rate_bps.
Proof. unfold get_current_variable_rate_bps. apply _. Qed.
#[export] Instance readonly_stable_rate_state {E} : Readonly (get_stable_rate_state (E := E)).
Proof. unfold get_stable_rate_state. apply _. Qed.
#[export] Instance readonly_validate_ratio c b : Readonly (validate_collateral_ratio c b).
Proof. unfold validate_collateral_ratio. apply _. Qed.
#[export] Instance readonly_asset_price {E} o a : Readonly (get_asset_price (E := E) o a).
Proof. unfold get_asset_price. apply _. Qed.

Lemma preserves_update_stable {E} s0 :
  preserves (λ s, s0 ≡ s) (update_stable_rate_state_if_needed (E := E)).
Proof. unfold update_stable_rate_state_if_needed. preserve. Qed.
#[export] Hint Resolve preserves_update_stable : preserves.

Lemma preserves_current_stable_rate s0 : preserves (λ s, s0 ≡ s) get_current_stable_rate_bps.
Proof. unfold get_current_stable_rate_bps. preserve. Qed.
#[export] Hint Resolve preserves_current_stable_rate : preserves.

Lemma preserves_calculate_interest s0 p : preserves (λ s, s0 ≡ s) (calculate_interest p).
Proof. unfold calculate_interest. preserve; done. Qed.
#[export] Hint Resolve preserves_calculate_interest : preserves.

Lemma calculate_interest_equiv p env s r s' :
  calculate_interest p env s = (r, s') → s ≡ s'.
Proof. intros H. eapply (preserves_calculate_interest s); [|done]. reflexivity. Qed.

Lemma current_stable_rate_equiv env s r s' :
  get_current_stable_rate_bps env s = (r, s') → s ≡ s'.
Proof. intros H. eapply (preserves_current_stable_rate s); [|done]. reflexivity. Qed.

(** ** What a successful operation did *)

Lemma validate_collateral_ratio_Ok collateral amount env s u s' :
  validate_collateral_ratio collateral amount env s = (Ok u, s') →
  s' = s ∧ Z.quot (amount * COLLATERAL_RATIO_MIN) 10000 ≤ collateral.
Proof.
  unfold validate_collateral_ratio. intros H. run_inv H. checked_facts. subst. zbool. auto.
Qed.

Lemma accrual_run p env s r s' :
  calculate_interest p env s = (Ok r, s') → s ≡ s' ∧ in_i128 r = true.
Proof.
  intros H. split; [by eapply calculate_interest_equiv|].
  unfold calculate_interest in H. destruct (_ =? 0).
  - run_inv H. reflexivity.
  - repeat (apply bind_Ok in H as (? & ? & ? & H)).
    apply ok_or_Ok in H as [H _]. unfold i256_to_i128 in H. apply fit_Some in H. naive_solver.
Qed.

Lemma authorize_borrow_Ok {E} auth user env s u s' :
  authorize_borrow (E := E) auth user env s = (Ok u, s') →
  s' = s ∧ (auth = RequireUserSignature → authorized env user = true).
Proof. unfold authorize_borrow. intros H. run_inv H; zbool; naive_solver. Qed.

Lemma lock_stable_rate_Ok rt p env s p' s' :
  lock_stable_rate rt p env s = (Ok p', s') →
  s ≡ s' ∧ p' = p <| dp_stable_rate_bps := dp_stable_rate_bps p' |>.
Proof.
  unfold lock_stable_rate. intros H. run_inv H; zbool; subst.
  - split; [by eapply current_stable_rate_equiv|done].
  - split; [done|by destruct p].
Qed.

Lemma save_collateral_position_Ok {E} user c env s u s' :
  save_collateral_position (E := E) user c env s = (Ok u, s') →
  s' = s <| st_borrow := (st_borrow s) <| kBorrowUserCollateral :=
              <[user := c]> (kBorrowUserCollateral (st_borrow s)) |> |>.
Proof. exact (on_borrow_Ok _ _ _ _ _). Qed.

Lemma set_total_debt_Ok {E} d env s u s' :
  set_total_debt (E := E) d env s = (Ok u, s') →
  s' = s <| st_borrow := (st_borrow s) <| kBorrowTotalDebt := Some d |> |>.
Proof. exact (on_borrow_Ok _ _ _ _ _). Qed.

(** The debt position a successful borrow stores. *)
Definition borrowed_position (p : DebtPosition) (asset : Address) (rt : RateType)
    (amount accrued rate now : Z) : DebtPosition :=
  mkDebtPosition (dp_borrowed_amount p + amount) (dp_interest_accrued p + accrued)
    now asset rt rate.

Definition with_collateral (user : Address) (c : BorrowCollateral) (b : BorrowStore) : BorrowStore :=
  b <| kBorrowUserCollateral := <[user := c]> (kBorrowUserCollateral b) |>.

Record borrow_effect (user asset : Address) (amount : Z) (collateral_asset : Address)
    (collateral_amount : Z) (rt : RateType) (env : Env) (s s' : LState) : Prop := {
  be_not_paused : is_paused s PauseBorrow = false;
  be_amounts : 0 < amount ∧ 0 < collateral_amount;
  be_minimum : get_min_borrow_amount s ≤ amount;
  be_ratio : Z.quot (amount * COLLATERAL_RATIO_MIN) 10000 ≤ collateral_amount;
  be_ceiling : get_total_debt s + amount ≤ get_debt_ceiling s;
  be_range : in_i128 (get_total_debt s + amount) = true;
  be_store : ∃ accrued rate s1 s2,
    let p := (get_debt_position user (Some asset) rt env s) <| dp_rate_type := rt |> in
    let p' := borrowed_position p asset rt amount accrued rate (timestamp env) in
    let c := get_collateral_position s user in
    calculate_interest p env s = (Ok accrued, s1) ∧ s ≡ s2 ∧
    in_i128 (dp_borrowed_amount p') = true ∧ in_i128 (dp_interest_accrued p') = true ∧
    in_i128 (bc_amount c + collateral_amount) = true ∧
    st_borrow s' =
      (with_collateral user (mkBorrowCollateral (bc_amount c + collateral_amount) collateral_asset)
        (saved_debt (timestamp env) user p' (st_borrow s2)))
      <| kBorrowTotalDebt := Some (get_total_debt s + amount) |>;
  be_frame : st_vault s' = st_vault s ∧ st_pause s' = st_pause s;
}.

Lemma borrow_inner_Ok user asset amount ca camt rt auth env s u s' :
  borrow_inner user asset amount ca camt rt auth env s = (Ok u, s') →
  borrow_effect user asset amount ca camt rt env s s' ∧
  (auth = RequireUserSignature → authorized env user = true).
Proof.
  unfold borrow_inner, emit_borrow_event. intros H. run_step H. subst.
  repeat match goal with
  | H : authorize_borrow _ _ _ _ = _ |- _ => apply authorize_borrow_Ok in H as [-> ?]
  | H : validate_collateral_ratio _ _ _ _ = _ |- _ =>
      apply validate_collateral_ratio_Ok in H as [-> ?]
  | H : save_debt_position _ _ _ _ = _ |- _ => apply save_debt_position_Ok in H
  | H : save_collateral_position _ _ _ _ = _ |- _ => apply save_collateral_position_Ok in H
  | H : set_total_debt _ _ _ = _ |- _ => apply set_total_debt_Ok in H
  | H : lock_stable_rate _ _ _ _ = _ |- _ => apply lock_stable_rate_Ok in H as [? ?]
  | H : on_utilization_changed _ _ _ _ = _ |- _ =>
      apply on_utilization_changed_frame in H as (? & ? & ?)
  end.
  zbool; checked_facts; subst. cbn in *.
  match goal with
  | Hi : calculate_interest _ _ _ = (Ok ?acc, ?s1), He : ?s1 ≡ ?s2, Hp : ?p = _ <| dp_stable_rate_bps := _ |> |- _ =>
      pose proof (calculate_interest_equiv _ _ _ _ _ Hi) as Heq;
      assert (s ≡ s2) as Heq2 by (by etrans);
      assert (p = borrowed_position
                    (get_debt_position user (Some asset) rt env s) <| dp_rate_type := rt |>
                    asset rt amount acc (dp_stable_rate_bps p) (timestamp env)) as Hp'
        by (rewrite Hp at 1; reflexivity);
      assert (get_collateral_position s2 user = get_collateral_position s user) as Hc
        by (by rewrite Heq2);
      split; [|done]; split; try done; [exists acc, (dp_stable_rate_bps p), s1, s2|]
  end.
  - rewrite Hc in *. cbv zeta. rewrite <- Hp'. split_and!; try done.
    + by rewrite Hp'.
    + by rewrite Hp'.
  - cbn. rewrite Heq2. split; etrans; [eassumption| |eassumption|]; done.
Qed.

(** The debt position a repayment or a switch stores. *)
Definition settled_position (p : DebtPosition) (principal interest now : Z) : DebtPosition :=
  p <| dp_borrowed_amount := principal |> <| dp_interest_accrued := interest |>
    <| dp_last_update := now |>.

Definition with_total (total : option Z) (b : BorrowStore) : BorrowStore :=
  b <| kBorrowTotalDebt := total |>.

Lemma with_total_id b : with_total (kBorrowTotalDebt b) b = b.
Proof. by destruct b. Qed.

Record repay_effect (user asset : Address) (amount : Z) (rt : RateType)
    (env : Env) (s s' : LState) : Prop := {
  re_amount : 0 < amount;
  re_asset : dp_asset (get_debt_position user (Some asset) rt env s) = asset;
  re_store : ∃ accrued s1 principal interest total,
    let p := (get_debt_position user (Some asset) rt env s) <| dp_rate_type := rt |> in
    calculate_interest p env s = (Ok accrued, s1) ∧ s ≡ s1 ∧
    (* the debt shrinks by exactly the amount paid, interest first *)
    principal + interest = dp_borrowed_amount p + dp_interest_accrued p + accrued - amount ∧
    0 ≤ interest ∧ principal ≤ dp_borrowed_amount p ∧
    (principal < dp_borrowed_amount p → interest = 0 ∧ 0 ≤ principal) ∧
    default 0 total = get_total_debt s - (dp_borrowed_amount p - principal) ∧
    st_borrow s' = saved_debt (timestamp env) user
      (settled_position p principal interest (timestamp env))
      (with_total total (st_borrow s1));
  re_frame : st_vault s' = st_vault s ∧ st_pause s' = st_pause s ∧ st_aux s' = st_aux s;
}.

Lemma repay_with_rate_Ok user asset amount rt env s u s' :
  repay_with_rate user asset amount rt env s = (Ok u, s') →
  repay_effect user asset amount rt env s s'.
Proof.
  unfold repay_with_rate. intros H. run_step H; subst.
  all: repeat match goal with
  | H : save_debt_position _ _ _ _ = _ |- _ => apply save_debt_position_Ok in H
  | H : set_total_debt _ _ _ = _ |- _ => apply set_total_debt_Ok in H
  end.
  all: zbool; checked_facts; simplify_eq; cbn in *; try lia.
  all: match goal with Hi : calculate_interest _ _ ?s = (Ok ?acc, ?s1) |- _ =>
    pose proof (calculate_interest_equiv _ _ _ _ _ Hi) as Heq;
    assert (get_total_debt s1 = get_total_debt s) as Ht by (by rewrite Heq);
    rewrite ?Ht in *;
    split; [done|done| |by rewrite Heq];
    set (p := get_debt_position user (Some _) rt env s) in *;
    set (due := dp_interest_accrued p + acc) in *;
    exists acc, s1 end.
  - exists (dp_borrowed_amount p - (amount - due)), 0, (Some (get_total_debt s - (amount - due))).
    split_and!; try done; cbn; lia.
  - exists (dp_borrowed_amount p), 0, (kBorrowTotalDebt (st_borrow s4)). rewrite with_total_id.
    assert (amount = due) by lia.
    split_and!; try done; cbn; fold (get_total_debt s4); lia.
  - exists (dp_borrowed_amount p), (due - amount), (kBorrowTotalDebt (st_borrow s4)).
    rewrite with_total_id.
    split_and!; try done; cbn; fold (get_total_debt s4); lia.
Qed.

(** The emptied source bucket of a switch. *)
Definition cleared_position (p : DebtPosition) (now : Z) : DebtPosition :=
  mkDebtPosition 0 0 now (dp_asset p) (dp_rate_type p) 0.

Definition switch_fee (s : LState) (principal : Z) : Z :=
  Z.quot (principal * get_rate_switch_fee_bps s) 10000.

Record switch_effect (user asset : Address) (to_rate : RateType)
    (env : Env) (s s' : LState) : Prop := {
  se_auth : authorized env user = true;
  se_target_empty :
    let q := get_debt_position user (Some asset) to_rate env s in
    dp_borrowed_amount q = 0 ∧ dp_interest_accrued q = 0;
  se_store : ∃ accrued s1 s2 rate,
    let p := (get_debt_position user (Some asset) (other_rate to_rate) env s)
               <| dp_rate_type := other_rate to_rate |> in
    let now := timestamp env in
    calculate_interest p env s = (Ok accrued, s1) ∧ s ≡ s2 ∧
    (dp_borrowed_amount p ≠ 0 ∨ dp_interest_accrued p ≠ 0) ∧
    st_borrow s' =
      saved_debt now user
        (mkDebtPosition (dp_borrowed_amount p)
           (dp_interest_accrued p + accrued + switch_fee s (dp_borrowed_amount p))
           now asset to_rate rate)
        (saved_debt now user (cleared_position p now) (st_borrow s2));
  se_frame : st_vault s' = st_vault s ∧ st_pause s' = st_pause s ∧ st_aux s' = st_aux s;
}.

#[export] Instance get_rate_switch_fee_bps_proper : Proper ((≡) ==> (=)) get_rate_switch_fee_bps.
Proof.
  exact (observe_factor _ (λ x, default DEFAULT_SWITCH_FEE_BPS (kRateSwitchFeeBps x.1.1.1))
           (λ _, eq_refl)).
Qed.

Lemma switch_rate_type_Ok user asset to env s u s' :
  switch_rate_type user asset to env s = (Ok u, s') →
  switch_effect user asset to env s s'.
Proof.
  unfold switch_rate_type. intros H. run_step H; subst.
  repeat match goal with
  | H : save_debt_position _ _ _ _ = _ |- _ => apply save_debt_position_Ok in H
  | H : lock_stable_rate _ _ _ _ = _ |- _ => apply lock_stable_rate_Ok in H as [? ?]
  end.
  zbool; checked_facts; simplify_eq; cbn in *.
  match goal with
  | Hi : calculate_interest _ _ ?s = (Ok ?acc, ?s1), He : ?s1 ≡ ?s2,
    Hp : ?q = _ <| dp_stable_rate_bps := _ |> |- _ =>
      pose proof (calculate_interest_equiv _ _ _ _ _ Hi) as Heq;
      assert (s ≡ s2) as Heq2 by (by etrans);
      assert (get_rate_switch_fee_bps s1 = get_rate_switch_fee_bps s) as Hfee by (by rewrite Heq);
      split; [done|done| |by rewrite Heq2];
      exists acc, s1, s2, (dp_stable_rate_bps q)
  end.
  cbv zeta. rewrite Hfee in *. split_and!; [done|done| |].
  - match goal with H : _ ∨ _ |- _ => destruct H; zbool; auto end.
  - cbn. f_equal. etrans; [eassumption|]. reflexivity.
Qed.

Lemma collateral_deposit_Ok user asset amount env s u s' :
  deposit user asset amount env s = (Ok u, s') →
  let c := get_collateral_position s user in
  0 < amount ∧ (bc_amount c ≠ 0 → bc_asset c = asset) ∧
  in_i128 (bc_amount c + amount) = true ∧
  st_borrow s' = with_collateral user (mkBorrowCollateral (bc_amount c + amount) asset) (st_borrow s) ∧
  st_vault s' = st_vault s ∧ st_pause s' = st_pause s ∧ st_aux s' = st_aux s.
Proof.
  intros H c. unfold deposit in H. run_step H; subst.
  all: repeat match goal with
  | H : save_collateral_position _ _ _ _ = _ |- _ => apply save_collateral_position_Ok in H
  end; zbool; checked_facts; simplify_eq; cbn in *.
  - split_and!; try done. 
  - split_and!; try done. 
Qed.
