(* ===== verification/Scenario.v ===== *)
(** * Scenario: a concrete environment and contract state

    Four accounts, a ledger time and a contract set up by its admin; the
    examples of the other files run on them. *)

From S2P Require Import Prelude Host LendingTypes BorrowStorage InterestRate RiskMonitor Borrow.

Definition admin : Address := 1%positive.
Definition alice : Address := 2%positive.
Definition bob : Address := 3%positive.
Definition usd : Address := 10%positive.
Definition gold : Address := 11%positive.
Definition feed : Address := 20%positive.

(** Everybody signs; the price feed quotes gold at 2 and dollars at 1, scaled
    by 10^8; every delegation is valid. *)
Definition demo_prices (o a : Address) : option Z :=
  if bool_decide (o = feed) then
    if bool_decide (a = usd) then Some 100000000
    else if bool_decide (a = gold) then Some 200000000 else None
  else None.

Definition demo_env (now : Z) : Env :=
  mkEnv now 7 (λ _, true) demo_prices (λ _ _ _ _, Some true).

(** The state [m] leads to, and its outcome. *)
Definition final {S E A} (m : M S E A) (env : Env) (s : S) : S := (invoke m env s).2.
Definition outcome {S E A} (m : M S E A) (env : Env) (s : S) : res E A := (invoke m env s).1.

(** A market with a debt ceiling of 10^9 and a minimum borrow of 1000. *)
Definition market : LState :=
  final (initialize_borrow_settings 1000000000 1000) (demo_env 100)
    (final (set_admin (E := BorrowError) admin) (demo_env 100) empty_state).

(** *** The alert latch *)

Definition alerting : LState :=
  final (set_risk_alert_thresholds admin (mkRiskAlertThresholds 5000 8000 9000)) (demo_env 100) market.

Lemma alerts_escalate_once_witness :
  let s' := (on_utilization_changed (E := BorrowError) 850 1000 (demo_env 100) alerting).2 in
  let th := mkRiskAlertThresholds 5000 8000 9000 in
  let util := utilization_of 850 1000 in
  let sev := severity_discriminant (severity_for_util util th) in
  let quiet := util <? rt_warning_utilization_bps th in
  latch s' = (if quiet then 0 else Z.max (latch alerting) sev) ∧
  st_events s' = st_events alerting ++
    (if negb quiet && (latch alerting <? sev)
     then [RiskUtilizationAlertEvent sev util 850 1000 100] else []) ∧
  st_borrow s' = st_borrow alerting ∧
  st_events (on_utilization_changed (E := BorrowError) 850 1000 (demo_env 200) s').2 = st_events s'.
Proof.
  intros s' th. apply (alerts_escalate_once 850 1000 th (demo_env 100) (demo_env 200) alerting tt s').
  - lia.
  - vm_compute. reflexivity.
  - vm_compute. discriminate.
  - vm_compute. discriminate.
  - vm_compute. reflexivity.
Defined.

(** *** The rate curve *)

Lemma borrow_rate_is_curve_witness :
  let c := get_config (demo_env 100) market in
  let u := utilization_spec (get_total_debt market) (get_debt_ceiling market) in
  0 ≤ u ≤ BPS_SCALE ∧ 100 = rate_curve c u ∧
  irc_rate_floor_bps c ≤ 100 ≤ irc_rate_ceiling_bps c ∧ market = market.
Proof.
  apply (borrow_rate_is_curve (demo_env 100) market 100 market).
  - intros c Hc. assert (c = default_config (demo_env 100)) as -> by (by vm_compute in Hc; simplify_eq).
    apply default_config_wf.
  - vm_compute. reflexivity.
Defined.
