(* ===== verification/Interest.v ===== *)
(** * Interest: repeated reads of a debt, and what [calculate_interest] computes

    Reading a debt may store a new stable-rate average.  Reading it again at
    the same ledger time then finds the average already up to date, so every
    reader gives the same answer however often and in whichever order the
    readers run.  [same_reading env] relates the states that such reads move
    between; [read_mod same_reading m] says that [m] cannot tell related
    states apart and stays within its class.

    The mathematical accrual function, its monotonicity, the value
    [calculate_interest] returns for each rate type and peg situation, and the
    invariant under which accrued interest is never negative. *)

From S2P Require Import Prelude.
From S2P Require Import Host.
From S2P Require Import LendingTypes.
From S2P Require Import Pause.
From S2P Require Import BorrowStorage.
From S2P Require Import InterestRate.
From S2P Require Import RiskMonitor.
From S2P Require Import Borrow.
From S2P Require Import Scenario.

(** ** Readers modulo an equivalence *)

Definition read_mod (R : Env → LState → LState → Prop) {E A} (m : LM E A) : Prop := ∀ env s s',
  R env s s' → (m env s).1 = (m env s').1 ∧ R env s (m env s).2.

Section rules.
Context (R : Env → LState → LState → Prop) `{!∀ env, Equivalence (R env)} {E : Type}.

Lemma read_pure {A} (m : M LState E A) :
  Readonly m → (∀ env s s', R env s s' → (m env s).1 = (m env s').1) → read_mod R m.
Proof.
  intros Hr Hm env s s' He. rewrite (Hr env s). split; [by apply Hm|reflexivity].
Qed.

Lemma read_ret {A} (a : A) : read_mod R (mret a : M LState E A).
Proof. by apply read_pure. Qed.
Lemma read_ask {A} (f : Env → A) : read_mod R (ask f : M LState E A).
Proof. by apply read_pure. Qed.
Lemma read_gets {A} (f : LState → A) :
  (∀ env s s', R env s s' → f s = f s') → read_mod R (gets f : M LState E A).
Proof. intros Hf. apply read_pure; [done|]. intros env s s' He. cbn. by rewrite (Hf env _ _ He). Qed.
Lemma read_reads {A} (f : Env → LState → A) :
  (∀ env s s', R env s s' → f env s = f env s') → read_mod R (reads f : M LState E A).
Proof. intros Hf. apply read_pure; [done|]. intros env s s' He. cbn. by rewrite (Hf env _ _ He). Qed.
Lemma read_fail {A} e : read_mod R (fail e : M LState E A).
Proof. by apply read_pure. Qed.
Lemma read_reject c e : read_mod R (reject_if c e : M LState E unit).
Proof. destruct c; [apply read_fail|apply read_ret]. Qed.
Lemma read_ok_or {A} (o : option A) e : read_mod R (ok_or o e : M LState E A).
Proof. destruct o; [apply read_ret|apply read_fail]. Qed.
Lemma read_unwrap {A} (o : option A) : read_mod R (unwrap o : M LState E A).
Proof. destruct o; [apply read_ret|by apply read_pure]. Qed.

Lemma read_bind {A B} (m : M LState E A) (k : A → M LState E B) :
  read_mod R m → (∀ a, read_mod R (k a)) → read_mod R (m ≫= k).
Proof.
  intros Hm Hk env s s' Hs. rewrite !bind_eq.
  destruct (Hm env s s' Hs) as [H1 H2]. destruct (Hm env s' s) as [_ H2']; [by symmetry|].
  destruct (m env s) as [r s1], (m env s') as [r' s1']. simpl in *. subst r'.
  destruct r as [a|e|]; [|done|done].
  assert (R env s1 s1') as H1s by (rewrite <- H2, <- H2'; done).
  destruct (Hk a env s1 s1' H1s) as [? ?]. split; [done|by etrans].
Qed.

Lemma read_map_err {E1 A} (f : E1 → E) (m : M LState E1 A) :
  read_mod R m → read_mod R (map_err f m).
Proof.
  intros Hm env s s' Hs. destruct (Hm env s s' Hs) as [H1 H2]. unfold map_err.
  destruct (m env s) as [r s1], (m env s') as [r' s1']. simpl in *. subst. by destruct r'.
Qed.
Lemma read_attempt {E1 A} (m : M LState E1 A) :
  read_mod R m → read_mod R (attempt (E2 := E) m).
Proof.
  intros Hm env s s' Hs. destruct (Hm env s s' Hs) as [H1 H2]. unfold attempt.
  destruct (m env s) as [r s1], (m env s') as [r' s1']. simpl in *. subst. by destruct r'.
Qed.
End rules.

Create HintDb reading.

(** Proves [read_mod R m] by following the structure of [m]. *)
Ltac reading_step :=
  lazymatch goal with
  | |- forall _, _ => intro
  | |- read_mod _ _ => first
      [ solve [auto with reading nocore]
      | apply read_ret; exact _ | apply read_ask; exact _ | apply read_fail; exact _
      | apply read_reject; exact _ | apply read_ok_or; exact _ | apply read_unwrap; exact _
      | apply read_bind | apply read_map_err | apply read_attempt
      | apply read_gets; [exact _|auto with reading nocore]
      | apply read_reads; [exact _|auto with reading nocore]
      | lazymatch goal with
        | |- read_mod _ (if ?c then _ else _) => destruct c
        | |- read_mod _ (match ?o with _ => _ end) => destruct o
        end ]
  | |- Equivalence _ => exact _
  end.
Ltac reading := cbv zeta; repeat reading_step.

(** ** Reading the rates *)

Definition obs (env : Env) (s s' : LState) : Prop := s ≡ s'.
#[export] Instance obs_equivalence env : Equivalence (obs env).
Proof. unfold obs. apply _. Qed.

(** Reads of what [observe] keeps agree on equivalent states. *)
Ltac obs_eq :=
  intros; match goal with H : obs _ ?s ?s' |- _ => change (s ≡ s') in H; by rewrite H end.

Lemma read_utilization : read_mod obs utilization_bps.
Proof. unfold utilization_bps. reading; obs_eq. Qed.
#[export] Hint Resolve read_utilization : reading.

Lemma read_variable_rate : read_mod obs get_current_variable_rate_bps.
Proof.
  unfold get_current_variable_rate_bps, borrow_rate_bps.
  reading; obs_eq.
Qed.

(** The outcome of computing the variable rate. *)
Definition variable_rate (env : Env) (s : LState) : res BorrowError Z :=
  (get_current_variable_rate_bps env s).1.

Lemma variable_rate_run env s : get_current_variable_rate_bps env s = (variable_rate env s, s).
Proof.
  unfold variable_rate. pose proof (readonly (m := get_current_variable_rate_bps) env s) as H.
  by destruct (get_current_variable_rate_bps env s); simpl in *; subst.
Qed.

#[export] Instance variable_rate_proper : Proper ((=) ==> (≡) ==> (=)) variable_rate.
Proof. intros env ? <- s s' Hs. by apply read_variable_rate. Qed.

(** ** The average at one ledger time *)

(** The stored average, or the one a first read starts from. *)
Definition stored_average (env : Env) (s : LState) : res BorrowError StableRateState :=
  match kStableRateState (st_borrow s) with
  | Some st => Ok st
  | None =>
      match variable_rate env s with
      | Ok r => Ok (mkStableRateState r (timestamp env))
      | Err _ => Ok (mkStableRateState 0 (timestamp env))
      | Trap => Trap
      end
  end.

(** Whether an average is recent enough to be used as it is. *)
Definition is_settled (env : Env) (s : LState) (st : StableRateState) : bool :=
  (timestamp env <=? srs_last_update st) ||
  ((get_stable_rate_recalc_interval_secs s =? 0) ||
   (timestamp env - srs_last_update st <? get_stable_rate_recalc_interval_secs s)).

(** The average that an update at this time ends up with. *)
Definition settled_average (env : Env) (s : LState) : res BorrowError StableRateState :=
  match stored_average env s with
  | Ok st =>
      if is_settled env s st then Ok st else
      match variable_rate env s with
      | Ok v => Ok (mkStableRateState (smoothed_rate (srs_avg_rate_bps st) v) (timestamp env))
      | Err _ => Ok (mkStableRateState (smoothed_rate (srs_avg_rate_bps st) (srs_avg_rate_bps st))
                       (timestamp env))
      | Trap => Trap
      end
  | r => r
  end.

Lemma stored_average_run env s :
  get_stable_rate_state env s = (stored_average env s, s).
Proof.
  unfold get_stable_rate_state, stored_average. run_fwd.
  destruct (kStableRateState (st_borrow s)); [done|]. run_fwd.
  unfold attempt. rewrite variable_rate_run. by destruct (variable_rate env s).
Qed.

Lemma update_stable_run env s :
  ∃ s', update_stable_rate_state_if_needed env s = (settled_average env s, s') ∧ s ≡ s' ∧
    (s' = s ∨ ∃ st, settled_average env s = Ok st ∧
       kStableRateState (st_borrow s') = Some st ∧ srs_last_update st = timestamp env).
Proof.
  unfold update_stable_rate_state_if_needed, settled_average. rewrite bind_eq, stored_average_run.
  destruct (stored_average env s) as [st|e|]; [|by exists s; auto..]. run_fwd.
  unfold is_settled. destruct (_ <=? _); [by exists s; auto|]. run_fwd.
  destruct (_ || _); [by exists s; auto|]. run_fwd. unfold attempt. rewrite variable_rate_run.
  destruct (variable_rate env s) as [v|e|]; run_fwd.
  - eexists. split; [reflexivity|]. split; [reflexivity|]. right. by eexists.
  - eexists. split; [reflexivity|]. split; [reflexivity|]. right. by eexists.
  - by exists s; auto.
Qed.

(** Related states are observationally equal and settle at the same average. *)
Definition same_reading (env : Env) (s s' : LState) : Prop :=
  s ≡ s' ∧ settled_average env s = settled_average env s'.

#[export] Instance same_reading_equivalence env : Equivalence (same_reading env).
Proof.
  split.
  - by intros s.
  - intros s s' [? ?]. by split.
  - intros s1 s2 s3 [? ?] [? ?]. split; by etrans.
Qed.

(** Only the stored average matters beyond what is observable. *)
Lemma settled_average_ext env s s' :
  s ≡ s' → kStableRateState (st_borrow s) = kStableRateState (st_borrow s') →
  settled_average env s = settled_average env s'.
Proof.
  intros Hs Hk. unfold settled_average, stored_average, is_settled.
  pose proof (observe_factor get_stable_rate_recalc_interval_secs
    (λ x, default DEFAULT_STABLE_RECALC_INTERVAL_SECS (kStableRateRecalcIntervalSecs x.1.1.1))
    (λ _, eq_refl) s s' Hs) as Hi.
  by rewrite Hk, Hi, (variable_rate_proper env env eq_refl s s' Hs).
Qed.

(** An average stored at this very time is settled. *)
Lemma settled_average_stored env s st :
  kStableRateState (st_borrow s) = Some st → srs_last_update st = timestamp env →
  settled_average env s = Ok st.
Proof.
  intros Hk Ht. unfold settled_average, stored_average, is_settled.
  rewrite Hk, Ht, Z.leb_refl. done.
Qed.

Lemma read_update_stable : read_mod same_reading (update_stable_rate_state_if_needed (E := BorrowError)).
Proof.
  intros env s s' [Hs Hv].
  destruct (update_stable_run env s) as (s1 & -> & He & Hcase).
  destruct (update_stable_run env s') as (s2 & -> & _).
  cbn [fst snd]. split; [done|]. split; [done|].
  destruct Hcase as [->|(st & Hst & Hk & Ht)]; [done|].
  by rewrite Hst, (settled_average_stored env s1 st).
Qed.

Lemma read_obs {E A} (m : M LState E A) :
  Readonly m → read_mod obs m → read_mod same_reading m.
Proof. intros Hr Hm. apply (read_pure _); [done|]. intros env s s' [Hs _]. by apply Hm. Qed.

Lemma read_publish {E} ev : read_mod same_reading (publish ev : M LState E unit).
Proof. intros env s s' _. split; [done|]. split; [done|]. by apply settled_average_ext. Qed.

#[export] Hint Resolve read_update_stable read_publish : reading.

(** ** The readers of the borrow module *)

#[export] Instance get_stablecoin_config_proper : Proper ((≡) ==> (=) ==> (=)) get_stablecoin_config.
Proof.
  intros s s' Hs a ? <-.
  exact (f_equal (λ x, kAssetStablecoinConfig x.1.1.1 !! a) Hs).
Qed.
#[export] Instance get_premium_proper : Proper ((≡) ==> (=)) get_stable_rate_premium_bps.
Proof.
  exact (observe_factor _ (λ x, default DEFAULT_STABLE_PREMIUM_BPS
           (kStableRatePremiumBps x.1.1.1)) (λ _, eq_refl)).
Qed.
#[export] Instance get_threshold_proper : Proper ((≡) ==> (=)) get_liquidation_threshold_bps.
Proof.
  exact (observe_factor _ (λ x, default 8000 (kLiquidationThresholdBps x.1.1.1)) (λ _, eq_refl)).
Qed.
#[export] Instance get_close_factor_proper : Proper ((≡) ==> (=)) get_close_factor_bps.
Proof.
  exact (observe_factor _ (λ x, default 5000 (kCloseFactorBps x.1.1.1)) (λ _, eq_refl)).
Qed.

(** Reads of what [observe] keeps agree on related states. *)
Ltac same_eq :=
  intros; match goal with H : same_reading _ ?s ?s' |- _ =>
    destruct H as [H _]; unfold get_user_collateral; by rewrite H end.

Lemma read_get_variable : read_mod same_reading get_current_variable_rate_bps.
Proof. apply read_obs; [apply _|apply read_variable_rate]. Qed.
#[export] Hint Resolve read_get_variable : reading.

Lemma read_calculate_interest p : read_mod same_reading (calculate_interest p).
Proof.
  unfold calculate_interest, get_current_stable_rate_bps, get_asset_price. reading; same_eq.
Qed.
#[export] Hint Resolve read_calculate_interest : reading.

Lemma read_user_debt {E} user : read_mod same_reading (get_user_debt (E := E) user).
Proof. unfold get_user_debt, with_accrued. reading; same_eq. Qed.
#[export] Hint Resolve read_user_debt : reading.

(** ** Properties *)

(** Reading debts is repeatable: at one ledger time, whatever debts were
    read before, every user is shown the same debt, and reading changes nothing
    but the stored average and the event log. *)
Theorem debt_views_are_repeatable user user' env s r s1 :
  get_user_debt (E := BorrowError) user env s = (r, s1) →
  (get_user_debt (E := BorrowError) user' env s1).1 = (get_user_debt (E := BorrowError) user' env s).1 ∧
  s ≡ s1.
Proof.
  intros H. destruct (read_user_debt (E := BorrowError) user env s s) as [_ Hs]; [reflexivity|].
  rewrite H in Hs. split; [|by apply Hs].
  symmetry. by apply read_user_debt.
Qed.

Lemma debt_views_are_repeatable_witness :
  let s1 := (get_user_debt (E := BorrowError) alice (demo_env 90000) market).2 in
  (get_user_debt (E := BorrowError) bob (demo_env 90000) s1).1 =
  (get_user_debt (E := BorrowError) bob (demo_env 90000) market).1 ∧ market ≡ s1.
Proof.
  intros s1. apply (debt_views_are_repeatable alice bob (demo_env 90000) market
    (get_user_debt (E := BorrowError) alice (demo_env 90000) market).1 s1).
  vm_compute. reflexivity.
Defined.

(** ** Specification *)

(** Simple interest for [secs] seconds at [bps] basis points per year. *)
Definition accrue (principal bps secs : Z) : Z :=
  Z.quot (Z.quot (principal * bps * secs) 10000) SECONDS_PER_YEAR.

Definition elapsed (env : Env) (p : DebtPosition) : Z :=
  u64_saturating_sub (timestamp env) (dp_last_update p).

(** The stability fee due for a position: non-zero only when a configured
    stablecoin trades further below its target than the threshold. *)
Definition depegged (cfg : StablecoinConfig) (price : Z) : bool :=
  match deviation_bps (sc_target_price cfg) price with
  | Some d => sc_peg_threshold_bps cfg <? d
  | None => false
  end.

Definition stability_fee (env : Env) (s : LState) (p : DebtPosition) : Z :=
  match get_stablecoin_config s (dp_asset p), get_oracle s with
  | Some cfg, Some oracle =>
      match oracle_price env oracle (dp_asset p) with
      | Some price =>
          if depegged cfg price
          then accrue (dp_borrowed_amount p) (sc_stability_fee_bps cfg) (elapsed env p)
          else 0
      | None => 0
      end
  | _, _ => 0
  end.

(** No rate, premium or fee of the protocol is negative. *)
Record rates_nonneg (s : LState) : Prop := {
  rn_config : rate_inv s;
  rn_average : ∀ st, kStableRateState (st_borrow s) = Some st → 0 ≤ srs_avg_rate_bps st;
  rn_premium : 0 ≤ get_stable_rate_premium_bps s;
  rn_switch_fee : 0 ≤ get_rate_switch_fee_bps s;
  rn_stability : ∀ a cfg, get_stablecoin_config s a = Some cfg → 0 ≤ sc_stability_fee_bps cfg;
}.

(** ** Arithmetic *)

Lemma prorate_Some principal bps secs v :
  prorate principal bps secs = Some v → v = accrue principal bps secs.
Proof.
  unfold prorate, i256_mul, i256_div, accrue. intros H.
  repeat (apply bind_Some in H as (? & [_ ->]%fit_Some & H)).
  by apply fit_Some in H as [_ ->].
Qed.

Lemma accrue_nonneg p b t : 0 ≤ p → 0 ≤ b → 0 ≤ t → 0 ≤ accrue p b t.
Proof. intros. unfold accrue, SECONDS_PER_YEAR. apply quot_nonneg; [apply quot_nonneg|]; nia. Qed.

Lemma accrue_mono p1 p2 b1 b2 t1 t2 :
  0 ≤ p1 ≤ p2 → 0 ≤ b1 ≤ b2 → 0 ≤ t1 ≤ t2 → accrue p1 b1 t1 ≤ accrue p2 b2 t2.
Proof.
  intros. unfold accrue, SECONDS_PER_YEAR.
  assert (0 ≤ p1 * b1 ≤ p2 * b2) by nia.
  apply Z.quot_le_mono; [lia|]. apply Z.quot_le_mono; [lia|]. nia.
Qed.

(** Splitting a period never charges more than accruing it at once. *)
Lemma accrue_split p b t1 t2 :
  0 ≤ p → 0 ≤ b → 0 ≤ t1 → 0 ≤ t2 →
  accrue p b t1 + accrue p b t2 ≤ accrue p b (t1 + t2) ≤ accrue p b t1 + accrue p b t2 + 1.
Proof.
  intros. unfold accrue. rewrite !Z.quot_quot by (unfold SECONDS_PER_YEAR; lia).
  assert (0 < 10000 * SECONDS_PER_YEAR) by (unfold SECONDS_PER_YEAR; lia).
  generalize dependent (10000 * SECONDS_PER_YEAR). intros d Hd.
  assert (0 ≤ p * b * t1 ∧ 0 ≤ p * b * t2) as [] by nia.
  rewrite !quot_pos by nia. rewrite Z.mul_add_distr_l.
  set (x := p * b * t1) in *. set (y := p * b * t2) in *.
  pose proof (Z.div_mod x d). pose proof (Z.div_mod y d). pose proof (Z.div_mod (x + y) d).
  pose proof (Z.mod_pos_bound x d). pose proof (Z.mod_pos_bound y d).
  pose proof (Z.mod_pos_bound (x + y) d). nia.
Qed.

Lemma smoothed_rate_nonneg avg current :
  0 ≤ avg → 0 ≤ current → 0 ≤ smoothed_rate avg current.
Proof.
  intros. unfold smoothed_rate.
  destruct (checked_mul avg 9 ≫= _) as [v|] eqn:E; simpl; [|done].
  apply bind_Some in E as (x & Hx & E). apply bind_Some in E as (y & Hy & E).
  checked_facts. subst. apply quot_nonneg; lia.
Qed.

(** The smoothed average stays between the old average and the current rate. *)
Lemma smoothed_rate_between avg current :
  0 ≤ avg ≤ I128_MAX → 0 ≤ current →
  Z.min avg current ≤ smoothed_rate avg current ≤ Z.max avg current.
Proof.
  intros. unfold smoothed_rate.
  destruct (checked_mul avg 9 ≫= _) as [v|] eqn:E; simpl; [|lia].
  apply bind_Some in E as (x & Hx & E). apply bind_Some in E as (y & Hy & E).
  checked_facts. subst. rewrite quot_pos by lia.
  split; [apply Z.div_le_lower_bound|apply Z.div_le_upper_bound]; lia.
Qed.

(** ** The value of [calculate_interest] *)

(** The rate a position accrues at, and the state after looking it up. *)
Definition position_rate (p : DebtPosition) : LM BorrowError Z :=
  match dp_rate_type p with
  | VariableRate => get_current_variable_rate_bps
  | StableRate =>
      if 0 <? dp_stable_rate_bps p then mret (dp_stable_rate_bps p)
      else get_current_stable_rate_bps
  end.

#[export] Instance stability_fee_proper : Proper ((=) ==> (≡) ==> (=) ==> (=)) stability_fee.
Proof.
  intros env ? <- s s' Hs p ? <-. unfold stability_fee.
  by rewrite (get_oracle_proper _ _ Hs), (get_stablecoin_config_proper _ _ Hs _ _ eq_refl).
Qed.

Lemma position_rate_equiv p env s r s' : position_rate p env s = (r, s') → s ≡ s'.
Proof.
  unfold position_rate. intros H. destruct (dp_rate_type p).
  - by rewrite (readonly_run _ _ _ _ _ H).
  - destruct (0 <? _); [by rewrite (readonly_run _ _ _ _ _ H)|].
    by eapply current_stable_rate_equiv.
Qed.

Lemma calculate_interest_Ok p env s r s' :
  calculate_interest p env s = (Ok r, s') → dp_borrowed_amount p ≠ 0 →
  ∃ rate s1, position_rate p env s = (Ok rate, s1) ∧
    r = accrue (dp_borrowed_amount p) rate (elapsed env p) + stability_fee env s p.
Proof.
  unfold calculate_interest. intros H Hb. rewrite (proj2 (Z.eqb_neq _ _)) in H by done.
  apply bind_Ok in H as (now & s0 & Hnow & H). apply ask_Ok in Hnow as [-> ->].
  apply bind_Ok in H as (rate & s1 & Hrate & H). exists rate, s1. split; [done|].
  apply position_rate_equiv in Hrate as Heq. rewrite (stability_fee_proper _ _ eq_refl _ _ Heq _ _ eq_refl).
  clear Hrate. unfold stability_fee.
  run_step H; subst; cbn in *;
    repeat match goal with
    | H : prorate _ _ _ = Some _ |- _ => apply prorate_Some in H
    | H : i256_to_i128 _ = Some _ |- _ => apply fit_Some in H as [_ ->]
    | H : i256_add _ _ = Some _ |- _ => apply fit_Some in H as [_ ->]
    | H : get_asset_price _ _ _ _ = _ |- _ => unfold get_asset_price in H; run_step H; subst
    | H : ?x = Some _ |- context [?x] => rewrite H
    | H : Some _ = ?x |- context [?x] => rewrite <- H
    | H : None = ?x |- context [?x] => rewrite <- H
    | H : deviation_bps _ _ = _ |- context [depegged ?c ?p] =>
        unfold depegged; rewrite H
    | H : ?b = true |- context [if ?b then _ else _] => rewrite H
    | H : ?b = false |- context [if ?b then _ else _] => rewrite H
    end; subst; unfold elapsed; lia.
Qed.

(** ** Non-negativity *)

Lemma stability_fee_nonneg env s p :
  rates_nonneg s → 0 ≤ dp_borrowed_amount p → 0 ≤ stability_fee env s p.
Proof.
  intros Hr Hb. unfold stability_fee.
  destruct (get_stablecoin_config s (dp_asset p)) as [cfg|] eqn:Hc; [|done].
  destruct (get_oracle s); [|done]. destruct (oracle_price _ _ _); [|done].
  destruct (depegged _ _); [|done].
  apply accrue_nonneg; [done|by eapply rn_stability|unfold elapsed, u64_saturating_sub; lia].
Qed.

Lemma variable_rate_nonneg env s r s' :
  rate_inv s → get_current_variable_rate_bps env s = (Ok r, s') → 0 ≤ r.
Proof.
  intros Hinv H. unfold get_current_variable_rate_bps in H. run_inv H.
  pose proof (get_config_wf env s Hinv) as Hwf.
  apply borrow_rate_bps_Ok in H as [-> _]; [|done].
  pose proof (rate_curve_bounds (get_config env s)
    (utilization_spec (get_total_debt s) (get_debt_ceiling s)) (wf_floor_ceiling _ Hwf)).
  pose proof (wf_floor _ Hwf). lia.
Qed.

Lemma attempted_rate_nonneg {E} env s r s' d :
  rate_inv s → 0 ≤ d →
  attempt (E2 := E) get_current_variable_rate_bps env s = (Ok r, s') →
  0 ≤ match r with inr v => v | inl _ => d end.
Proof.
  intros Hinv Hd H. apply attempt_Ok in H. destruct r; [done|].
  by eapply variable_rate_nonneg.
Qed.

Lemma stable_rate_state_nonneg {E} env s st s' :
  rates_nonneg s → get_stable_rate_state (E := E) env s = (Ok st, s') →
  0 ≤ srs_avg_rate_bps st.
Proof.
  intros Hr H. unfold get_stable_rate_state in H.
  apply bind_Ok in H as (o & s1 & H1 & H2). apply gets_Ok in H1 as [-> ->].
  destruct (kStableRateState (st_borrow s)) as [st0|] eqn:Hst.
  - run_inv H2. by eapply rn_average.
  - apply bind_Ok in H2 as (r & s1 & H1 & H2).
    apply attempted_rate_nonneg with (d := 0) in H1; [|apply Hr|done]. by run_inv H2.
Qed.

Lemma rates_nonneg_store st s :
  rates_nonneg s → 0 ≤ srs_avg_rate_bps st →
  rates_nonneg (s <| st_borrow := (st_borrow s) <| kStableRateState := Some st |> |>).
Proof. intros [] Hst. split; try done. intros st' [= <-]. done. Qed.

Lemma update_stable_nonneg {E} env s st s' :
  rates_nonneg s → update_stable_rate_state_if_needed (E := E) env s = (Ok st, s') →
  rates_nonneg s' ∧ 0 ≤ srs_avg_rate_bps st.
Proof.
  intros Hr H. unfold update_stable_rate_state_if_needed in H.
  apply bind_Ok in H as (st0 & s1 & H1 & H).
  pose proof (stable_rate_state_nonneg _ _ _ _ Hr H1) as H0.
  apply (readonly_run _) in H1 as ->.
  run_step H; subst; try done.
  match goal with H : attempt _ _ _ = (Ok _, _) |- _ =>
    pose proof (attempted_rate_nonneg _ _ _ _ _ (rn_config _ Hr) H0 H) as Hc;
    apply (readonly_run _) in H as -> end.
  pose proof (smoothed_rate_nonneg _ _ H0 Hc) as Hs.
  split; [by apply rates_nonneg_store|exact Hs].
Qed.

Lemma position_rate_nonneg p env s r s' :
  rates_nonneg s → position_rate p env s = (Ok r, s') → 0 ≤ r ∧ rates_nonneg s'.
Proof.
  intros Hr H. unfold position_rate in H. destruct (dp_rate_type p).
  - split; [by eapply variable_rate_nonneg; [apply Hr|]|].
    by apply (readonly_run _) in H as ->.
  - destruct (0 <? dp_stable_rate_bps p) eqn:Hp; zbool.
    + run_inv H. split; [lia|done].
    + unfold get_current_stable_rate_bps in H.
      apply bind_Ok in H as (st & s1 & H1 & H).
      apply update_stable_nonneg in H1 as [Hr1 Hst]; [|done].
      run_inv H. checked_facts. pose proof (rn_premium _ Hr1). split; [lia|done].
Qed.

Lemma calculate_interest_nonneg p env s r s' :
  rates_nonneg s → 0 ≤ dp_borrowed_amount p →
  calculate_interest p env s = (Ok r, s') → 0 ≤ r.
Proof.
  intros Hr Hp H. destruct (decide (dp_borrowed_amount p = 0)) as [E|E].
  - unfold calculate_interest in H. rewrite E in H. cbn in H. run_inv H. done.
  - apply calculate_interest_Ok in H as (rate & s1 & Hrate & ->); [|done].
    apply position_rate_nonneg in Hrate as [Hrate _]; [|done].
    pose proof (stability_fee_nonneg env s p Hr Hp).
    assert (0 ≤ accrue (dp_borrowed_amount p) rate (elapsed env p)); [|lia].
    apply accrue_nonneg; [done..|unfold elapsed, u64_saturating_sub; lia].
Qed.

(** ** Properties *)

(** With the same prices the stability fee is not smaller later. *)
Lemma stability_fee_mono env env' s p :
  rates_nonneg s → 0 ≤ dp_borrowed_amount p → oracle_price env' = oracle_price env → timestamp env' ≤ timestamp env →
  stability_fee env' s p ≤ stability_fee env s p.
Proof.
  intros Hr Hb Hprice Ht. unfold stability_fee. rewrite Hprice.
  destruct (get_stablecoin_config s (dp_asset p)) as [cfg|] eqn:Hc; [|done].
  destruct (get_oracle s); [|done]. destruct (oracle_price _ _ _); [|done]. destruct (depegged _ _); [|done].
  pose proof (rn_stability _ Hr _ _ Hc). apply accrue_mono; [lia|lia|]. unfold elapsed, u64_saturating_sub. lia.
Qed.

(** C33: when no rate, premium or fee is negative, the interest due on a
    variable-rate position is its principal times the rate of the utilisation
    curve times the time since the last update, plus the stability fee of a
    depegged stablecoin; it is not negative, and at an earlier time, with the
    same prices and debts, it is not larger. *)
Theorem interest_due p env s r s' :
  rates_nonneg s → 0 < dp_borrowed_amount p → dp_rate_type p = VariableRate →
  calculate_interest p env s = (Ok r, s') →
  let rate := rate_curve (get_config env s)
                (utilization_spec (get_total_debt s) (get_debt_ceiling s)) in
  r = accrue (dp_borrowed_amount p) rate (elapsed env p) + stability_fee env s p ∧
  0 ≤ stability_fee env s p ∧ s ≡ s' ∧
  ∀ env' r' s1, oracle_price env' = oracle_price env → timestamp env' ≤ timestamp env →
    calculate_interest p env' s = (Ok r', s1) → 0 ≤ r' ≤ r.
Proof.
  intros Hr Hp Hv H rate. pose proof (calculate_interest_equiv _ _ _ _ _ H) as Hs.
  assert (Hvalue : ∀ env' r' s1, calculate_interest p env' s = (Ok r', s1) →
    0 ≤ rate ∧ r' = accrue (dp_borrowed_amount p) rate (elapsed env' p) + stability_fee env' s p).
  { intros env' r' s1 H'. apply calculate_interest_Ok in H' as (q & s2 & Hq & ->); [|lia].
    pose proof (position_rate_nonneg _ _ _ _ _ Hr Hq) as [Hq0 _].
    unfold position_rate in Hq. rewrite Hv in Hq. unfold get_current_variable_rate_bps in Hq.
    apply map_err_Ok, borrow_rate_bps_Ok in Hq as [-> _]; [|apply get_config_wf, Hr].
    assert (rate = rate_curve (get_config env' s) (utilization_spec (get_total_debt s) (get_debt_ceiling s))) as ->
      by (unfold rate, get_config; by destruct (kBorrowInterestRate (st_borrow s))).
    done. }
  destruct (Hvalue _ _ _ H) as [Hrate Hval]. split_and!; [done|apply stability_fee_nonneg; [done|lia]|done|].
  intros env' r' s1 Hprice Ht H'. split; [by eapply calculate_interest_nonneg; [| |exact H']; [|lia]|].
  destruct (Hvalue _ _ _ H') as [_ ->]. rewrite Hval.
  pose proof (stability_fee_mono env env' s p Hr ltac:(lia) Hprice Ht).
  enough (accrue (dp_borrowed_amount p) rate (elapsed env' p) ≤ accrue (dp_borrowed_amount p) rate (elapsed env p)) by lia.
  apply accrue_mono; [lia|lia|]. unfold elapsed, u64_saturating_sub. lia.
Qed.
