(* ===== verification/DebtAccounting.v ===== *)
(** * DebtAccounting: the stored debt total and the sum of the positions

    [debt_ok] says that the stored total is the sum of the principals of all
    users in both rate buckets, that no position is negative, and that the
    legacy entry a missing variable-rate entry falls back to is never a second
    copy of a debt.  Every borrow-side operation keeps it, provided a stable
    borrow is made by a user who already has a variable-rate entry; without
    that proviso it fails, which is shown on a concrete run. *)

From S2P Require Import Prelude Host LendingTypes Pause BorrowStorage InterestRate RiskMonitor.
From S2P Require Import Borrow Scenario Interest.

(** ** Invariant *)

Definition stored_total (b : BorrowStore) : Z := default 0 (kBorrowTotalDebt b).

(** A user without a variable-rate entry has no other entry either. *)
Definition compat_ok (b : BorrowStore) : Prop :=
  ∀ u, kBorrowUserVariableDebt b !! u = None →
    kBorrowUserDebt b !! u = None ∧ kBorrowUserStableDebt b !! u = None.

Definition position_nonneg (p : DebtPosition) : Prop :=
  0 ≤ dp_borrowed_amount p ∧ 0 ≤ dp_interest_accrued p.

Definition entries_nonneg (b : BorrowStore) : Prop :=
  ∀ rt u p, debt_map rt b !! u = Some p → position_nonneg p.

Record debt_ok (b : BorrowStore) : Prop := {
  do_total : stored_total b = bucket_sum VariableRate b + bucket_sum StableRate b;
  do_compat : compat_ok b;
  do_nonneg : entries_nonneg b;
}.

(** The proviso under which a write keeps [compat_ok]. *)
Definition bucket_ready (user : Address) (rt : RateType) (b : BorrowStore) : Prop :=
  rt = StableRate → is_Some (kBorrowUserVariableDebt b !! user).

(** ** Lemmas *)

(** [debt_ok] reads the debt maps, the legacy map and the total only. *)
Lemma debt_ok_ext b b' :
  (∀ rt, debt_map rt b' = debt_map rt b) → kBorrowUserDebt b' = kBorrowUserDebt b →
  kBorrowTotalDebt b' = kBorrowTotalDebt b → debt_ok b → debt_ok b'.
Proof.
  intros Hm Hl Ht [Htot Hc Hn]. split.
  - unfold stored_total, bucket_sum. by rewrite Ht, !Hm.
  - intros u. pose proof (Hm VariableRate) as HV. pose proof (Hm StableRate) as HS.
    simpl in *. rewrite HV, HS, Hl. apply Hc.
  - intros rt u p. rewrite Hm. apply Hn.
Qed.

Lemma debt_ok_equiv s s' : s ≡ s' → debt_ok (st_borrow s) → debt_ok (st_borrow s').
Proof. intros (Hm & Hl & _ & Ht & _)%equiv_fields. by apply debt_ok_ext. Qed.

Lemma compat_saved now user p b :
  compat_ok b → bucket_ready user (dp_rate_type p) b → compat_ok (saved_debt now user p b).
Proof.
  intros Hc Hr u. unfold saved_debt, store_debt.
  destruct (dp_rate_type p) eqn:Hrt; cbn; intros Hu.
  - apply lookup_insert_None in Hu as [Hu Hne]. rewrite lookup_insert_ne by done. by apply Hc.
  - assert (user ≠ u) as Hne.
    { intros ->. destruct Hr as [? ?]; [done|congruence]. }
    rewrite !lookup_insert_ne by done. by apply Hc.
Qed.

Lemma nonneg_saved now user p b :
  entries_nonneg b → position_nonneg p → entries_nonneg (saved_debt now user p b).
Proof.
  intros Hn Hp rt u q. rewrite saved_debt_map. case_decide; [|apply Hn].
  intros [[_ <-]|[_ ?]]%lookup_insert_Some; [done|by eapply Hn].
Qed.

Lemma bucket_principal_nonneg rt b u : entries_nonneg b → 0 ≤ bucket_principal rt b u.
Proof.
  intros Hn. unfold bucket_principal, at_key.
  destruct (debt_map rt b !! u) as [p|] eqn:E; simpl; [|done]. by apply (Hn rt u p).
Qed.

(** Under [compat_ok] a read position is the stored one, or empty. *)
Lemma read_position user a rt env s :
  compat_ok (st_borrow s) →
  get_debt_position user a rt env s =
  default (empty_position (timestamp env) (default user a) rt) (debt_map rt (st_borrow s) !! user).
Proof.
  intros Hc. unfold get_debt_position.
  destruct (debt_map rt (st_borrow s) !! user) eqn:E; [done|].
  destruct rt; [|done]. by destruct (Hc user E) as [-> _].
Qed.

Lemma read_principal user a rt env s :
  compat_ok (st_borrow s) →
  dp_borrowed_amount (get_debt_position user a rt env s) = bucket_principal rt (st_borrow s) user.
Proof.
  intros Hc. rewrite read_position by done. unfold bucket_principal, at_key.
  by destruct (debt_map rt (st_borrow s) !! user).
Qed.

Lemma read_nonneg user a rt env s :
  compat_ok (st_borrow s) → entries_nonneg (st_borrow s) →
  position_nonneg (get_debt_position user a rt env s).
Proof.
  intros Hc Hn. rewrite read_position by done.
  destruct (debt_map rt (st_borrow s) !! user) as [p|] eqn:E; simpl; [by apply (Hn rt user p)|done].
Qed.

(** Storing a position whose principal changed by [d], with the total moved by
    [d] as well, keeps the accounting. *)
Lemma debt_ok_save now user p b total :
  debt_ok b → bucket_ready user (dp_rate_type p) b → position_nonneg p →
  default 0 total = stored_total b
                    + (dp_borrowed_amount p - bucket_principal (dp_rate_type p) b user) →
  debt_ok (with_total total (saved_debt now user p b)).
Proof.
  intros [Ht Hc Hn] Hr Hp Htot. split.
  - change (default 0 total =
      bucket_sum VariableRate (saved_debt now user p b) + bucket_sum StableRate (saved_debt now user p b)).
    rewrite Htot, Ht, !bucket_sum_saved.
    destruct (dp_rate_type p); simpl; lia.
  - exact (compat_saved now user p b Hc Hr).
  - exact (nonneg_saved now user p b Hn Hp).
Qed.

(** Writing the total and saving a position commute. *)
Lemma saved_with_total now user p b total :
  saved_debt now user p (with_total total b) = with_total total (saved_debt now user p b).
Proof. unfold saved_debt, store_debt. by destruct (dp_rate_type p). Qed.

(** ** Preservation *)

Lemma bucket_principal_equiv s s' rt u :
  s ≡ s' → bucket_principal rt (st_borrow s') u = bucket_principal rt (st_borrow s) u.
Proof. intros (Hm & _)%equiv_fields. unfold bucket_principal. by rewrite Hm. Qed.

Lemma stored_total_equiv s s' : s ≡ s' → stored_total (st_borrow s') = stored_total (st_borrow s).
Proof. intros (_ & _ & _ & Ht & _)%equiv_fields. unfold stored_total. by rewrite Ht. Qed.

Lemma bucket_ready_equiv s s' u rt :
  s ≡ s' → bucket_ready u rt (st_borrow s) → bucket_ready u rt (st_borrow s').
Proof.
  intros (Hm & _)%equiv_fields Hr Hrt. specialize (Hm VariableRate). simpl in Hm.
  rewrite Hm. by apply Hr.
Qed.

Lemma borrow_keeps_debt_ok user asset amount ca camt rt env s s' :
  rates_nonneg s → debt_ok (st_borrow s) → bucket_ready user rt (st_borrow s) →
  borrow_effect user asset amount ca camt rt env s s' → debt_ok (st_borrow s').
Proof.
  intros Hrates Hok Hready He.
  destruct (be_store _ _ _ _ _ _ _ _ _ He) as (accrued & rate & s1 & s2 & Hacc & Heq & _ & _ & _ & ->).
  pose proof (do_compat _ Hok) as Hc. pose proof (do_nonneg _ Hok) as Hn.
  destruct (read_nonneg user (Some asset) rt env s Hc Hn) as [Hp1 Hp2].
  apply calculate_interest_nonneg in Hacc; [|done|done].
  set (p' := borrowed_position _ _ _ _ _ _ _).
  apply (debt_ok_ext (with_total (Some (get_total_debt s + amount))
           (saved_debt (timestamp env) user p' (st_borrow s2)))); [by intros []|done|done|].
  apply debt_ok_save; [by apply (debt_ok_equiv s)|by apply (bucket_ready_equiv s)| |].
  - destruct (be_amounts _ _ _ _ _ _ _ _ _ He). split; cbn in *; lia.
  - rewrite (bucket_principal_equiv s s2), (stored_total_equiv s s2) by done. cbn.
    rewrite (read_principal user (Some asset) rt env s Hc).
    change (get_total_debt s) with (stored_total (st_borrow s)). lia.
Qed.

(** A position that owes something is stored in its bucket, so writing that
    bucket back keeps [compat_ok]. *)
Lemma open_bucket_ready user a rt env s :
  compat_ok (st_borrow s) →
  (let p := get_debt_position user a rt env s in
   dp_borrowed_amount p ≠ 0 ∨ dp_interest_accrued p ≠ 0) →
  is_Some (debt_map rt (st_borrow s) !! user) ∧ bucket_ready user rt (st_borrow s).
Proof.
  intros Hc. cbv zeta. rewrite read_position by done.
  destruct (debt_map rt (st_borrow s) !! user) eqn:E; cbn; [|naive_solver].
  intros _. split; [done|]. intros ->. simpl in E.
  destruct (kBorrowUserVariableDebt (st_borrow s) !! user) eqn:EV; [done|].
  destruct (Hc user EV) as [_ ?]. congruence.
Qed.

Lemma repay_keeps_debt_ok user asset amount rt env s s' :
  rates_nonneg s → debt_ok (st_borrow s) →
  (let p := get_debt_position user (Some asset) rt env s in
   dp_borrowed_amount p ≠ 0 ∨ dp_interest_accrued p ≠ 0) →
  repay_effect user asset amount rt env s s' → debt_ok (st_borrow s').
Proof.
  intros Hrates Hok Hopen He.
  destruct (re_store _ _ _ _ _ _ _ He) as (accrued & s1 & principal & interest & total & Hacc & Heq & _ & Hi & _ & Hle & Htot & ->).
  pose proof (do_compat _ Hok) as Hc. pose proof (do_nonneg _ Hok) as Hn.
  destruct (read_nonneg user (Some asset) rt env s Hc Hn) as [Hp1 Hp2].
  rewrite saved_with_total.
  apply debt_ok_save; [by apply (debt_ok_equiv s)| | |].
  - apply (bucket_ready_equiv s); [done|]. by apply (open_bucket_ready user (Some asset) rt env s).
  - split; cbn; [|done]. cbn in Hle.
    destruct (decide (principal < dp_borrowed_amount (get_debt_position user (Some asset) rt env s)));
      [naive_solver lia|lia].
  - rewrite (bucket_principal_equiv s s1), (stored_total_equiv s s1) by done.
    rewrite Htot. cbn. rewrite (read_principal user (Some asset) rt env s Hc).
    change (get_total_debt s) with (stored_total (st_borrow s)). lia.
Qed.

Lemma stored_total_saved now user p b : stored_total (saved_debt now user p b) = stored_total b.
Proof. unfold stored_total, saved_debt, store_debt. by destruct (dp_rate_type p). Qed.

(** Moving a principal to the other, empty bucket keeps the sum. *)
Lemma move_keeps_sum now user from to b :
  dp_rate_type from ≠ dp_rate_type to →
  dp_borrowed_amount from = 0 → bucket_principal (dp_rate_type to) b user = 0 →
  dp_borrowed_amount to = bucket_principal (dp_rate_type from) b user →
  let b' := saved_debt now user to (saved_debt now user from b) in
  bucket_sum VariableRate b' + bucket_sum StableRate b' =
  bucket_sum VariableRate b + bucket_sum StableRate b.
Proof.
  intros Hne H0 Hto Hfrom b'. unfold b'. rewrite !bucket_sum_saved.
  unfold bucket_principal in *. rewrite !saved_debt_map.
  destruct (dp_rate_type from), (dp_rate_type to); try done; repeat case_decide; try done;
    cbn in *; lia.
Qed.

Lemma switch_keeps_debt_ok user asset to env s s' :
  rates_nonneg s → debt_ok (st_borrow s) →
  switch_effect user asset to env s s' → debt_ok (st_borrow s').
Proof.
  intros Hrates Hok He.
  destruct (se_store _ _ _ _ _ _ He) as (accrued & s1 & s2 & rate & Hacc & Heq & Hopen & ->).
  pose proof (debt_ok_equiv _ _ Heq Hok) as [Ht2 Hc2 Hn2].
  pose proof (do_compat _ Hok) as Hc. pose proof (do_nonneg _ Hok) as Hn.
  set (p := get_debt_position user (Some asset) (other_rate to) env s) in *.
  destruct (read_nonneg user (Some asset) (other_rate to) env s Hc Hn) as [Hp1 Hp2].
  apply calculate_interest_nonneg in Hacc; [|done|done].
  assert (0 ≤ switch_fee s (dp_borrowed_amount p)) as Hfee.
  { apply quot_nonneg; [|lia]. pose proof (rn_switch_fee _ Hrates). fold p in Hp1. nia. }
  destruct (open_bucket_ready user (Some asset) (other_rate to) env s Hc Hopen) as [Hin Hready].
  apply (bucket_ready_equiv s s2) in Hready; [|done].
  pose proof (se_target_empty _ _ _ _ _ _ He) as [Hq _].
  rewrite (read_principal user (Some asset) to env s Hc) in Hq.
  pose proof (read_principal user (Some asset) (other_rate to) env s Hc) as Hp. fold p in Hp, Hp1, Hp2.
  rewrite <- (bucket_principal_equiv s s2) in Hq, Hp by done.
  set (from := cleared_position _ _).
  assert (dp_rate_type from = other_rate to) as Hfrom by done.
  assert (compat_ok (saved_debt (timestamp env) user from (st_borrow s2))) as Hcf
    by (apply compat_saved; done).
  split.
  - rewrite !stored_total_saved, Ht2. symmetry. apply move_keeps_sum; [by destruct to|done|done|].
    by rewrite Hfrom, <- Hp.
  - apply compat_saved; [done|]. intros Hto. cbn in Hto. subst to. simpl.
    change (is_Some (debt_map VariableRate (saved_debt (timestamp env) user from (st_borrow s2)) !! user)).
    rewrite saved_debt_map, decide_True, lookup_insert_eq by done. eauto.
  - apply nonneg_saved; [|split; cbn; lia]. apply nonneg_saved; [done|]. by split.
Qed.

(** The collateral map plays no part in the accounting. *)
Lemma collateral_keeps_debt_ok user c b : debt_ok b → debt_ok (with_collateral user c b).
Proof. apply debt_ok_ext; [by intros []|done|done]. Qed.

(** What the accounting gives: no debt is negative, and no user owes more
    principal than the protocol's total. *)
Lemma debt_ok_bounds b u rt : debt_ok b →
  0 ≤ bucket_principal rt b u ≤ stored_total b.
Proof.
  intros [Ht _ Hn].
  assert (∀ r k p, debt_map r b !! k = Some p → 0 ≤ dp_borrowed_amount p) as Hpos
    by (intros r k p Hp; apply (Hn r k p Hp)).
  assert (∀ r, 0 ≤ bucket_sum r b) as Hs
    by (intros r; apply map_sum_nonneg, Hpos).
  split; [by apply bucket_principal_nonneg|].
  pose proof (map_sum_at_key_le dp_borrowed_amount (debt_map rt b) u (Hpos rt)) as Hu.
  change (bucket_principal rt b u ≤ bucket_sum rt b) in Hu.
  pose proof (Hs VariableRate). pose proof (Hs StableRate). destruct rt; lia.
Qed.

#[export] Hint Resolve borrow_keeps_debt_ok repay_keeps_debt_ok switch_keeps_debt_ok
  collateral_keeps_debt_ok : preserves.

(** One principal after a save. *)
Lemma bucket_principal_saved now u p b rt v :
  bucket_principal rt (saved_debt now u p b) v =
  if decide (rt = dp_rate_type p ∧ u = v) then dp_borrowed_amount p else bucket_principal rt b v.
Proof.
  unfold bucket_principal, at_key. rewrite saved_debt_map.
  destruct (decide (rt = dp_rate_type p)), (decide (u = v)) as [<-|];
    rewrite ?decide_True, ?decide_False, ?lookup_insert_eq, ?lookup_insert_ne by naive_solver; done.
Qed.

(** ** What the operations do to the debts *)

(** C29: a borrow that succeeds was signed, borrowing was not paused, the amount
    meets the minimum and the total afterwards the ceiling, and the collateral
    is at least 150% of the amount, rounded down; it stores one principal: the
    one the contract reads for the user at that rate - a variable-rate debt
    without a record of its own is read from the legacy record - plus exactly
    the amount, which is the stored one plus the amount when both records agree;
    no other principal changes, the total grows by the amount, and the user's
    collateral by the collateral. *)
Theorem borrow_outcome user asset amount ca camt rt env s u s' :
  borrow_with_rate user asset amount ca camt rt env s = (Ok u, s') →
  let read := dp_borrowed_amount (get_debt_position user (Some asset) rt env s) in
  authorized env user = true ∧ is_paused s PauseBorrow = false ∧
  0 < amount ∧ get_min_borrow_amount s ≤ amount ∧
  amount * COLLATERAL_RATIO_MIN / 10000 ≤ camt ∧
  get_total_debt s' = get_total_debt s + amount ∧ get_total_debt s' ≤ get_debt_ceiling s ∧
  (∀ rt' v, bucket_principal rt' (st_borrow s') v =
     if decide (rt' = rt ∧ user = v) then read + amount else bucket_principal rt' (st_borrow s) v) ∧
  (compat_ok (st_borrow s) → read = bucket_principal rt (st_borrow s) user) ∧
  (∀ v, bc_amount (get_collateral_position s' v) =
     bc_amount (get_collateral_position s v) + (if decide (user = v) then camt else 0)).
Proof.
  intros H read. apply borrow_inner_Ok in H as [He Hauth].
  destruct (be_store _ _ _ _ _ _ _ _ _ He) as (acc & rate & s1 & s2 & _ & Hs & _ & _ & _ & Hst).
  destruct He as [Hp [Ha Hca] Hm Hr Hceil _ _ _].
  unfold COLLATERAL_RATIO_MIN in *. rewrite quot_pos in Hr by lia.
  assert (get_total_debt s' = get_total_debt s + amount) as Ht
    by (unfold get_total_debt at 1; by rewrite Hst).
  split_and!; try done; [by apply Hauth|lia| | |].
  - intros rt' v.
    assert (bucket_principal rt' (st_borrow s') v =
      bucket_principal rt' (saved_debt (timestamp env) user
        (borrowed_position (get_debt_position user (Some asset) rt env s)
           <| dp_rate_type := rt |> asset rt amount acc rate (timestamp env)) (st_borrow s2)) v) as ->
      by (rewrite Hst; by destruct rt').
    rewrite bucket_principal_saved, (bucket_principal_equiv s s2) by done. cbn.
    fold read. by case_decide.
  - intros Hc. apply (read_principal user (Some asset) rt env s Hc).
  - intros v. unfold get_collateral_position at 1. rewrite Hst. cbn -[saved_debt].
    assert (∀ w p b, kBorrowUserCollateral (saved_debt (timestamp env) w p b) = kBorrowUserCollateral b)
      as Hsc by (intros w p b; unfold saved_debt, store_debt; by destruct (dp_rate_type p)).
    rewrite Hsc, lookup_insert. pose proof (equiv_fields _ _ Hs) as (_ & _ & Hcol & _).
    rewrite Hcol. case_decide as Hd; [by subst|]. rewrite Z.add_0_r. done.
Qed.

(** C30: when both records of a loan agree and no principal or interest is
    negative, a repayment reduces what the user owes at that rate - principal,
    recorded interest and the interest due now - by exactly the amount paid;
    principal is touched only when all interest is covered, and the total falls
    by the principal repaid. *)
Theorem repay_reduces_debt user asset amount rt env s u s' :
  compat_ok (st_borrow s) → entries_nonneg (st_borrow s) →
  repay_with_rate user asset amount rt env s = (Ok u, s') →
  ∃ due s1,
    let before := get_debt_position user (Some asset) rt env s in
    let after := get_debt_position user (Some asset) rt env s' in
    calculate_interest (before <| dp_rate_type := rt |>) env s = (Ok due, s1) ∧
    0 < amount ∧ dp_asset before = asset ∧
    dp_borrowed_amount after + dp_interest_accrued after =
      dp_borrowed_amount before + dp_interest_accrued before + due - amount ∧
    (dp_borrowed_amount after < dp_borrowed_amount before → dp_interest_accrued after = 0) ∧
    0 ≤ dp_borrowed_amount after ≤ dp_borrowed_amount before ∧ 0 ≤ dp_interest_accrued after ∧
    get_total_debt s' = get_total_debt s - (dp_borrowed_amount before - dp_borrowed_amount after) ∧
    (∀ rt' v, v ≠ user ∨ rt' ≠ rt →
       bucket_principal rt' (st_borrow s') v = bucket_principal rt' (st_borrow s) v).
Proof.
  intros Hc Hn H. apply repay_with_rate_Ok in H.
  destruct (re_store _ _ _ _ _ _ _ H) as
    (due & s1 & principal & interest & total & Hdue & Hs & Hsum & Hi & Hle & Hlt & Htot & Hst).
  destruct (read_nonneg user (Some asset) rt env s Hc Hn) as [Hb0 _].
  destruct H as [Ha Hasset _ _]. exists due, s1. intros before after.
  fold before in Hdue, Hsum, Hle, Hlt, Htot, Hst, Hasset, Hb0. cbn in Hsum, Hle, Hlt, Htot.
  assert (debt_map rt (st_borrow s') !! user =
    Some (settled_position before <| dp_rate_type := rt |> principal interest (timestamp env))) as Hread.
  { rewrite Hst, saved_debt_map, decide_True by done. apply lookup_insert_eq. }
  assert (after = settled_position before <| dp_rate_type := rt |> principal interest (timestamp env))
    as Hafter by (unfold after, get_debt_position; by rewrite Hread).
  rewrite Hafter. cbn. split_and!; [done|done|done|lia|intros Hp; by apply Hlt| |lia|lia| |].
  - destruct (decide (principal < dp_borrowed_amount before)); [by apply Hlt|lia].
  - rewrite <- Htot. unfold get_total_debt at 1. rewrite Hst. unfold saved_debt, store_debt. cbn.
    by destruct rt.
  - intros rt' v Hv. rewrite Hst, bucket_principal_saved, decide_False by naive_solver.
    destruct rt'; [exact (bucket_principal_equiv s s1 VariableRate v Hs)|
      exact (bucket_principal_equiv s s1 StableRate v Hs)].
Qed.

(** Switching the rate type moves the whole debt - principal, recorded
    interest and the interest due - into the other, empty bucket, plus the
    switching fee as interest, and leaves the total as it is. *)
Theorem switch_moves_debt user asset to env s u s' :
  compat_ok (st_borrow s) →
  switch_rate_type user asset to env s = (Ok u, s') →
  ∃ due s1,
    let from := get_debt_position user (Some asset) (other_rate to) env s in
    let after := get_debt_position user (Some asset) to env s' in
    calculate_interest (from <| dp_rate_type := other_rate to |>) env s = (Ok due, s1) ∧
    authorized env user = true ∧
    bucket_principal to (st_borrow s) user = 0 ∧
    dp_borrowed_amount after = dp_borrowed_amount from ∧
    dp_interest_accrued after =
      dp_interest_accrued from + due + switch_fee s (dp_borrowed_amount from) ∧
    bucket_principal (other_rate to) (st_borrow s') user = 0 ∧
    get_total_debt s' = get_total_debt s.
Proof.
  intros Hc H. apply switch_rate_type_Ok in H.
  destruct (se_store _ _ _ _ _ _ H) as (due & s1 & s2 & rate & Hdue & Hs & _ & Hst).
  pose proof (se_target_empty _ _ _ _ _ _ H) as [Hq _].
  rewrite (read_principal user (Some asset) to env s Hc) in Hq.
  exists due, s1. intros from after. fold from in Hdue, Hst.
  set (q := mkDebtPosition _ _ _ _ to rate) in Hst.
  assert (debt_map to (st_borrow s') !! user = Some q) as Hread.
  { rewrite Hst, saved_debt_map, decide_True by done. apply lookup_insert_eq. }
  assert (after = q) as -> by (unfold after, get_debt_position; by rewrite Hread).
  split_and!; try done; [by apply H|..].
  - rewrite Hst, bucket_principal_saved, decide_False by (destruct to; naive_solver).
    rewrite bucket_principal_saved, decide_True by done. done.
  - change (stored_total (st_borrow s') = stored_total (st_borrow s)).
    rewrite Hst, !stored_total_saved. by apply stored_total_equiv.
Qed.

(** ** The proviso is needed *)

Lemma market_debt_ok : debt_ok (st_borrow market).
Proof.
  split; [reflexivity| |].
  - by intros u _.
  - by intros [] u p.
Qed.

(** The default rates are non-negative. *)
Lemma fresh_rates s :
  kBorrowInterestRate (st_borrow s) = Some (default_config (demo_env 100)) →
  kStableRateState (st_borrow s) = None → get_stable_rate_premium_bps s = 100 →
  get_rate_switch_fee_bps s = 10 → kAssetStablecoinConfig (st_borrow s) = ∅ → rates_nonneg s.
Proof.
  intros H1 H2 H3 H4 H5. split.
  - intros c Hc. rewrite H1 in Hc. simplify_eq. apply default_config_wf.
  - intros st. by rewrite H2.
  - by rewrite H3.
  - by rewrite H4.
  - intros a cfg. unfold get_stablecoin_config. by rewrite H5.
Qed.

Lemma market_rates : rates_nonneg market.
Proof. apply fresh_rates; vm_compute; reflexivity. Qed.

(** Borrowing 1000 at the stable rate, with no variable-rate entry on record,
    then repaying 1000 twice. *)
Definition stable_first_run : LState :=
  final (repay alice usd 1000) (demo_env 100)
    (final (repay alice usd 1000) (demo_env 100)
      (final (borrow_with_rate alice usd 1000 gold 1500 StableRate) (demo_env 100) market)).

(** A user whose first borrow is at the stable rate can repay it twice,
    once through the legacy entry that the variable bucket falls back to: from a
    consistent market the stored debt total becomes negative. *)
Theorem stable_first_borrow_is_counted_twice :
  debt_ok (st_borrow market) ∧ rates_nonneg market ∧
  outcome (borrow_with_rate alice usd 1000 gold 1500 StableRate) (demo_env 100) market = Ok tt ∧
  get_total_debt stable_first_run = -1000 ∧ ¬ debt_ok (st_borrow stable_first_run).
Proof.
  split_and!; [apply market_debt_ok|apply market_rates|vm_compute; reflexivity|vm_compute; reflexivity|].
  intros Hok. destruct (debt_ok_bounds _ alice VariableRate Hok) as [H0 Ht].
  assert (stored_total (st_borrow stable_first_run) = -1000) as Hneg by (vm_compute; reflexivity).
  lia.
Qed.

(** ** Examples *)

(** Alice owes 5000 at the variable rate. *)
Definition variable_market : LState :=
  final (borrow_with_rate alice usd 5000 gold 7500 VariableRate) (demo_env 100) market.

Lemma variable_market_ok : debt_ok (st_borrow variable_market).
Proof.
  apply (borrow_keeps_debt_ok alice usd 5000 gold 7500 VariableRate (demo_env 100) market);
    [apply market_rates|apply market_debt_ok|done|].
  apply (borrow_inner_Ok alice usd 5000 gold 7500 VariableRate RequireUserSignature _ _ tt).
  vm_compute. reflexivity.
Qed.

Lemma borrow_outcome_witness :
  let s' := variable_market in
  get_total_debt s' = get_total_debt market + 5000 ∧
  bucket_principal VariableRate (st_borrow s') alice = 5000 ∧
  bc_amount (get_collateral_position s' alice) = bc_amount (get_collateral_position market alice) + 7500.
Proof.
  intros s'. destruct (borrow_outcome alice usd 5000 gold 7500 VariableRate (demo_env 100) market tt s')
    as (_ & _ & _ & _ & _ & Ht & _ & Hb & _ & Hc); [vm_compute; reflexivity|].
  split; [exact Ht|]. split; [exact (Hb VariableRate alice)|exact (Hc alice)].
Defined.

Lemma repay_reduces_debt_witness :
  let s' := final (repay_with_rate alice usd 800 VariableRate) (demo_env 31536100) variable_market in
  ∃ due s1,
    let before := get_debt_position alice (Some usd) VariableRate (demo_env 31536100) variable_market in
    let after := get_debt_position alice (Some usd) VariableRate (demo_env 31536100) s' in
    calculate_interest (before <| dp_rate_type := VariableRate |>) (demo_env 31536100) variable_market
      = (Ok due, s1) ∧
    0 < 800 ∧ dp_asset before = usd ∧
    dp_borrowed_amount after + dp_interest_accrued after =
      dp_borrowed_amount before + dp_interest_accrued before + due - 800 ∧
    (dp_borrowed_amount after < dp_borrowed_amount before → dp_interest_accrued after = 0) ∧
    0 ≤ dp_borrowed_amount after ≤ dp_borrowed_amount before ∧ 0 ≤ dp_interest_accrued after ∧
    get_total_debt s' =
      get_total_debt variable_market - (dp_borrowed_amount before - dp_borrowed_amount after) ∧
    (∀ rt' v, v ≠ alice ∨ rt' ≠ VariableRate →
       bucket_principal rt' (st_borrow s') v = bucket_principal rt' (st_borrow variable_market) v).
Proof.
  intros s'. apply (repay_reduces_debt alice usd 800 VariableRate (demo_env 31536100) variable_market tt s').
  - apply variable_market_ok.
  - apply variable_market_ok.
  - vm_compute. reflexivity.
Defined.

Lemma switch_moves_debt_witness :
  let s' := final (switch_rate_type alice usd StableRate) (demo_env 31536100) variable_market in
  ∃ due s1,
    let from := get_debt_position alice (Some usd) (other_rate StableRate) (demo_env 31536100)
                  variable_market in
    let after := get_debt_position alice (Some usd) StableRate (demo_env 31536100) s' in
    calculate_interest (from <| dp_rate_type := other_rate StableRate |>) (demo_env 31536100)
      variable_market = (Ok due, s1) ∧
    authorized (demo_env 31536100) alice = true ∧
    bucket_principal StableRate (st_borrow variable_market) alice = 0 ∧
    dp_borrowed_amount after = dp_borrowed_amount from ∧
    dp_interest_accrued after =
      dp_interest_accrued from + due + switch_fee variable_market (dp_borrowed_amount from) ∧
    bucket_principal (other_rate StableRate) (st_borrow s') alice = 0 ∧
    get_total_debt s' = get_total_debt variable_market.
Proof.
  intros s'. apply (switch_moves_debt alice usd StableRate (demo_env 31536100) variable_market tt s').
  - apply variable_market_ok.
  - vm_compute. reflexivity.
Defined.

(** Ten years of interest on a debt of 5000. *)
Lemma interest_due_witness :
  let p := get_debt_position alice (Some usd) VariableRate (demo_env 315360100) variable_market in
  let due env := match (calculate_interest p env variable_market).1 with Ok r => r | _ => -1 end in
  due (demo_env 315360100) = 500 ∧ 0 ≤ due (demo_env 31536100) ≤ due (demo_env 315360100).
Proof.
  intros p due. split; [vm_compute; reflexivity|].
  apply (interest_due p (demo_env 315360100) variable_market (due (demo_env 315360100))
           (calculate_interest p (demo_env 315360100) variable_market).2) with (env' := demo_env 31536100)
           (s1 := (calculate_interest p (demo_env 31536100) variable_market).2).
  - apply fresh_rates; vm_compute; reflexivity.
  - vm_compute. reflexivity.
  - vm_compute. reflexivity.
  - vm_compute. reflexivity.
  - reflexivity.
  - vm_compute. discriminate.
  - vm_compute. reflexivity.
Defined.
