(* ===== verification/Vault.v ===== *)
(** * Vault: deposits and withdrawals
    ([lending/src/deposit.rs], [lending/src/withdraw.rs])

    The vault keeps one position per user and a running total.  [vault_ok]
    says that the total is the sum of the positions and that none is
    negative; both operations keep it.  A withdrawal is checked against the
    debt recorded under the legacy key only, and what that check does and does
    not guarantee is stated below. *)

From S2P Require Import Prelude Host LendingTypes Pause BorrowStorage Borrow Scenario.

Definition MIN_COLLATERAL_RATIO_BPS : Z := 15000.

(** ** Storage access *)

Definition get_deposit_position (user asset : Address) (env : Env) (s : LState) :
    DepositCollateral :=
  default (mkDepositCollateral 0 asset (timestamp env)) (kUserCollateral (st_vault s) !! user).

Definition save_deposit_position {E} (user : Address) (position : DepositCollateral) : LM E unit :=
  on_vault (λ v, v <| kUserCollateral := <[user := position]> (kUserCollateral v) |>).

Definition get_total_deposits (s : LState) : Z := default 0 (kTotalAmount (st_vault s)).
Definition set_total_deposits {E} (amount : Z) : LM E unit :=
  on_vault (λ v, v <| kTotalAmount := Some amount |>).
Definition get_deposit_cap (s : LState) : Z := default I128_MAX (kCapAmount (st_vault s)).
Definition get_min_deposit_amount (s : LState) : Z := default 0 (kMinAmount (st_vault s)).
Definition get_min_withdraw_amount (s : LState) : Z := default 0 (kMinWithdrawAmount (st_vault s)).
Definition withdraw_is_paused (s : LState) : bool := default false (kPaused (st_vault s)).

(** ** Deposit *)

Definition deposit_with_auth (user asset : Address) (amount : Z) (auth : bool) :
    LM DepositError Z :=
  when auth (require_auth user) ;;
  paused ← gets (λ s, is_paused s PauseDeposit);
  reject_if paused DE_DepositPaused ;;
  reject_if (amount <=? 0) DE_InvalidAmount ;;
  min_deposit ← gets get_min_deposit_amount;
  reject_if (amount <? min_deposit) DE_InvalidAmount ;;
  total_deposits ← gets get_total_deposits;
  deposit_cap ← gets get_deposit_cap;
  new_total ← ok_or (checked_add total_deposits amount) DE_Overflow;
  reject_if (deposit_cap <? new_total) DE_ExceedsDepositCap ;;
  position ← reads (get_deposit_position user asset);
  new_amount ← ok_or (checked_add (dc_amount position) amount) DE_Overflow;
  now ← ask timestamp;
  let position := position <| dc_amount := new_amount |>
                           <| dc_last_deposit_time := now |>
                           <| dc_asset := asset |> in
  save_deposit_position user position ;;
  set_total_deposits new_total ;;
  publish (VaultDepositEvent user asset amount (dc_amount position) now) ;;
  mret (dc_amount position).

Definition deposit (user asset : Address) (amount : Z) : LM DepositError Z :=
  deposit_with_auth user asset amount true.

Definition initialize_deposit_settings (deposit_cap min_deposit_amount : Z) : LM DepositError unit :=
  on_vault (λ v, v <| kCapAmount := Some deposit_cap |>) ;;
  on_vault (λ v, v <| kMinAmount := Some min_deposit_amount |>).

(** ** Withdraw *)

Definition validate_collateral_ratio_after_withdraw (user : Address) (remaining_collateral : Z) :
    LM WithdrawError unit :=
  debt_position ← gets (λ s, kBorrowUserDebt (st_borrow s) !! user);
  match debt_position with
  | Some debt =>
      total_debt ← ok_or (checked_add (dp_borrowed_amount debt) (dp_interest_accrued debt)) WE_Overflow;
      if 0 <? total_debt then
        scaled ← ok_or (checked_mul total_debt MIN_COLLATERAL_RATIO_BPS) WE_Overflow;
        min_collateral ← ok_or (checked_div scaled 10000) WE_Overflow;
        reject_if (remaining_collateral <? min_collateral) WE_InsufficientCollateralRatio
      else mret tt
  | None => mret tt
  end.

Definition withdraw_with_auth (user asset : Address) (amount : Z) (auth : bool) :
    LM WithdrawError Z :=
  when auth (require_auth user) ;;
  paused ← gets (λ s, withdraw_is_paused s || is_paused s PauseWithdraw);
  reject_if paused WE_WithdrawPaused ;;
  reject_if (amount <=? 0) WE_InvalidAmount ;;
  min_withdraw ← gets get_min_withdraw_amount;
  reject_if (amount <? min_withdraw) WE_InvalidAmount ;;
  position ← reads (get_deposit_position user asset);
  reject_if (dc_amount position <? amount) WE_InsufficientCollateral ;;
  new_amount ← ok_or (checked_sub (dc_amount position) amount) WE_Overflow;
  validate_collateral_ratio_after_withdraw user new_amount ;;
  save_deposit_position user
    (mkDepositCollateral new_amount asset (dc_last_deposit_time position)) ;;
  total_deposits ← gets get_total_deposits;
  set_total_deposits (default 0 (checked_sub total_deposits amount)) ;;
  now ← ask timestamp;
  publish (WithdrawEvent user asset amount new_amount now) ;;
  mret new_amount.

Definition withdraw (user asset : Address) (amount : Z) : LM WithdrawError Z :=
  withdraw_with_auth user asset amount true.

Definition initialize_withdraw_settings (min_withdraw_amount : Z) : LM WithdrawError unit :=
  on_vault (λ v, v <| kMinWithdrawAmount := Some min_withdraw_amount |>) ;;
  on_vault (λ v, v <| kPaused := Some false |>).

Definition set_withdraw_paused (paused : bool) : LM WithdrawError unit :=
  on_vault (λ v, v <| kPaused := Some paused |>).

(** ** Invariant *)

Record vault_ok (v : VaultStore) : Prop := {
  vo_total : default 0 (kTotalAmount v) = map_sum dc_amount (kUserCollateral v);
  vo_nonneg : ∀ u p, kUserCollateral v !! u = Some p → 0 ≤ dc_amount p;
  vo_range : default 0 (kTotalAmount v) ≤ I128_MAX;
}.

(** The deposited balance of a user. *)
Definition balance (s : LState) (user : Address) : Z :=
  at_key dc_amount (kUserCollateral (st_vault s)) user.

Lemma read_balance user asset env s :
  dc_amount (get_deposit_position user asset env s) = balance s user.
Proof.
  unfold get_deposit_position, balance, at_key.
  by destruct (kUserCollateral (st_vault s) !! user).
Qed.

Lemma balance_bounds s user : vault_ok (st_vault s) → 0 ≤ balance s user ≤ get_total_deposits s.
Proof.
  intros [Ht Hn _]. unfold balance, get_total_deposits. rewrite Ht. split.
  - unfold at_key. destruct (_ !! user) as [p|] eqn:E; simpl; [by apply (Hn user)|done].
  - apply map_sum_at_key_le. intros k v. apply Hn.
Qed.

(** Replacing a user's position and the total. *)
Definition vault_write (user : Address) (p : DepositCollateral) (total : Z) (v : VaultStore) :
    VaultStore :=
  v <| kUserCollateral := <[user := p]> (kUserCollateral v) |> <| kTotalAmount := Some total |>.

Lemma vault_write_ok user p total s :
  vault_ok (st_vault s) → 0 ≤ dc_amount p →
  total = get_total_deposits s - balance s user + dc_amount p → total ≤ I128_MAX →
  vault_ok (vault_write user p total (st_vault s)).
Proof.
  intros [Ht Hn _] Hp -> Hmax. split; [|clear Hmax|done].
  - cbn. rewrite map_sum_insert, <- Ht. reflexivity.
  - cbn. intros u q [[_ <-]|[_ ?]]%lookup_insert_Some; [done|by apply (Hn u)].
Qed.

Lemma balance_write user p total s s' u :
  st_vault s' = vault_write user p total (st_vault s) →
  balance s' u = if decide (user = u) then dc_amount p else balance s u.
Proof. unfold balance, at_key. intros ->. cbn. rewrite lookup_insert. by case_decide. Qed.

(** ** What a successful operation did *)

Record deposit_effect (user asset : Address) (amount : Z) (auth : bool) (env : Env)
    (s s' : LState) : Prop := {
  df_auth : auth = true → authorized env user = true;
  df_open : is_paused s PauseDeposit = false;
  df_amount : 0 < amount ∧ get_min_deposit_amount s ≤ amount;
  df_cap : get_total_deposits s + amount ≤ get_deposit_cap s;
  df_range : in_i128 (get_total_deposits s + amount) = true ∧
             in_i128 (balance s user + amount) = true;
  df_state : s' =
    s <| st_vault := vault_write user
           (mkDepositCollateral (balance s user + amount) asset (timestamp env))
           (get_total_deposits s + amount) (st_vault s) |>
      <| st_events := st_events s ++
           [VaultDepositEvent user asset amount (balance s user + amount) (timestamp env)] |>;
}.

Lemma save_deposit_position_Ok {E} user p env s u s' :
  save_deposit_position (E := E) user p env s = (Ok u, s') →
  s' = s <| st_vault := (st_vault s) <| kUserCollateral :=
              <[user := p]> (kUserCollateral (st_vault s)) |> |>.
Proof. exact (on_vault_Ok _ _ _ _ _). Qed.
Lemma set_total_deposits_Ok {E} d env s u s' :
  set_total_deposits (E := E) d env s = (Ok u, s') →
  s' = s <| st_vault := (st_vault s) <| kTotalAmount := Some d |> |>.
Proof. exact (on_vault_Ok _ _ _ _ _). Qed.

Ltac vault_prim :=
  repeat match goal with
  | H : save_deposit_position _ _ _ _ = _ |- _ => apply save_deposit_position_Ok in H
  | H : set_total_deposits _ _ _ = _ |- _ => apply set_total_deposits_Ok in H
  end.

Lemma vault_deposit_Ok user asset amount auth env s r s' :
  deposit_with_auth user asset amount auth env s = (Ok r, s') →
  deposit_effect user asset amount auth env s s' ∧ r = balance s user + amount.
Proof.
  unfold deposit_with_auth. intros H. run_step H; subst; vault_prim; zbool; checked_facts; subst.
  all: rewrite ?read_balance in *; cbn in *; rewrite ?read_balance in *.
  all: split; [|done]; split; try done.
  all: rewrite ?read_balance; done.
Qed.

(** The debt the withdrawal check looks at. *)
Definition recorded_debt (s : LState) (user : Address) : Z :=
  match kBorrowUserDebt (st_borrow s) !! user with
  | Some p => dp_borrowed_amount p + dp_interest_accrued p
  | None => 0
  end.

(** 150% of a debt, rounded towards zero. *)
Definition required_collateral (debt : Z) : Z := Z.quot (debt * MIN_COLLATERAL_RATIO_BPS) 10000.

Record withdraw_effect (user asset : Address) (amount : Z) (auth : bool) (env : Env)
    (s s' : LState) : Prop := {
  wf_auth : auth = true → authorized env user = true;
  wf_open : withdraw_is_paused s = false ∧ is_paused s PauseWithdraw = false;
  wf_amount : 0 < amount ∧ get_min_withdraw_amount s ≤ amount;
  wf_enough : amount ≤ balance s user;
  wf_ratio : 0 < recorded_debt s user →
             required_collateral (recorded_debt s user) ≤ balance s user - amount;
  wf_state : ∃ t,
    s' =
    s <| st_vault := vault_write user (mkDepositCollateral (balance s user - amount) asset t)
           (default 0 (checked_sub (get_total_deposits s) amount)) (st_vault s) |>
      <| st_events := st_events s ++
           [WithdrawEvent user asset amount (balance s user - amount) (timestamp env)] |>;
}.

Lemma ratio_after_withdraw_Ok user rem env s u s' :
  validate_collateral_ratio_after_withdraw user rem env s = (Ok u, s') →
  s' = s ∧ (0 < recorded_debt s user → required_collateral (recorded_debt s user) ≤ rem).
Proof.
  unfold validate_collateral_ratio_after_withdraw, recorded_debt, required_collateral.
  intros H. apply bind_Ok in H as (o & s1 & [-> ->]%gets_Ok & H).
  destruct (kBorrowUserDebt (st_borrow s) !! user) as [p|]; run_inv H; zbool; checked_facts;
    subst; (split; [done|]); lia.
Qed.

Lemma withdraw_Ok user asset amount auth env s r s' :
  withdraw_with_auth user asset amount auth env s = (Ok r, s') →
  withdraw_effect user asset amount auth env s s' ∧ r = balance s user - amount.
Proof.
  unfold withdraw_with_auth. intros H. run_step H; subst; vault_prim; zbool.
  all: repeat match goal with
  | H : validate_collateral_ratio_after_withdraw _ _ _ _ = _ |- _ =>
      apply ratio_after_withdraw_Ok in H as [-> ?] end.
  all: checked_facts; subst; rewrite ?read_balance in *; cbn in *.
  all: split; [|by rewrite ?read_balance].
  all: split; try done; rewrite ?read_balance in *; try done.
  all: eexists; rewrite ?read_balance; reflexivity.
Qed.

Lemma deposit_keeps_vault user asset amount auth env s s' :
  vault_ok (st_vault s) → deposit_effect user asset amount auth env s s' → vault_ok (st_vault s').
Proof.
  intros Hv [_ _ [Hp _] _ [Hr _] ->]. cbn. apply in_i128_spec in Hr.
  pose proof (balance_bounds s user Hv). apply vault_write_ok; cbn; [done|lia|lia|lia].
Qed.

(** The [unwrap_or(0)] of the code is never taken on a consistent vault. *)
Lemma withdraw_total_exact user amount s :
  vault_ok (st_vault s) → 0 < amount ≤ balance s user →
  default 0 (checked_sub (get_total_deposits s) amount) = get_total_deposits s - amount.
Proof.
  intros Hv Ha. pose proof (balance_bounds s user Hv).
  pose proof (vo_range _ Hv). fold (get_total_deposits s) in *.
  rewrite checked_sub_fits; [done|]. rlia.
Qed.

Lemma withdraw_keeps_vault user asset amount auth env s s' :
  vault_ok (st_vault s) →
  withdraw_effect user asset amount auth env s s' → vault_ok (st_vault s').
Proof.
  intros Hv [_ _ [Hp _] He _ [t ->]]. cbn.
  pose proof (balance_bounds s user Hv). pose proof (vo_range _ Hv).
  fold (get_total_deposits s) in *.
  rewrite (withdraw_total_exact user) by (try done; lia).
  apply vault_write_ok; cbn; [done|lia|lia|lia].
Qed.

#[export] Hint Resolve deposit_keeps_vault withdraw_keeps_vault : preserves.

(** Every outcome of a deposit, in the order of the guards. *)
Definition deposit_verdict (user : Address) (amount : Z) (env : Env) (s : LState) :
    res DepositError Z :=
  if negb (authorized env user) then Trap
  else if is_paused s PauseDeposit then Err DE_DepositPaused
  else if (amount <=? 0) || (amount <? get_min_deposit_amount s) then Err DE_InvalidAmount
  else if negb (in_i128 (get_total_deposits s + amount)) then Err DE_Overflow
  else if get_deposit_cap s <? get_total_deposits s + amount then Err DE_ExceedsDepositCap
  else if negb (in_i128 (balance s user + amount)) then Err DE_Overflow
  else Ok (balance s user + amount).

Lemma deposit_verdict_spec user asset amount env s :
  (deposit user asset amount env s).1 = deposit_verdict user amount env s.
Proof.
  unfold deposit, deposit_with_auth, deposit_verdict, checked_add, fit, require_auth. run_fwd.
  destruct (authorized env user); [|done]. run_fwd.
  destruct (is_paused s PauseDeposit); [done|]. run_fwd.
  destruct (amount <=? 0); [done|]. run_fwd.
  destruct (amount <? _); [done|]. run_fwd.
  destruct (in_i128 (get_total_deposits s + amount)); [|done]. run_fwd.
  destruct (get_deposit_cap s <? _); [done|]. run_fwd. rewrite read_balance.
  destruct (in_i128 (balance s user + amount)); [|done]. run_fwd. done.
Qed.

(** A withdrawal that respects the limits succeeds. *)
Lemma withdraw_succeeds user asset amount env s :
  authorized env user = true →
  withdraw_is_paused s = false → is_paused s PauseWithdraw = false →
  0 < amount → get_min_withdraw_amount s ≤ amount ≤ balance s user →
  balance s user ≤ I128_MAX → recorded_debt s user = 0 →
  ∃ s', withdraw user asset amount env s = (Ok (balance s user - amount), s').
Proof.
  intros Hauth Hp1 Hp2 Ha [Hm Hb] Hmax Hd.
  unfold withdraw, withdraw_with_auth, require_auth. run_fwd. rewrite Hauth. run_fwd.
  rewrite Hp1, Hp2. run_fwd. rewrite (proj2 (Z.leb_gt _ _)) by lia. run_fwd.
  rewrite (proj2 (Z.ltb_ge _ _)) by lia. run_fwd. rewrite read_balance.
  rewrite (proj2 (Z.ltb_ge _ _)) by lia. run_fwd.
  rewrite checked_sub_fits by (rlia). run_fwd.
  unfold validate_collateral_ratio_after_withdraw. run_fwd.
  unfold recorded_debt in Hd.
  destruct (kBorrowUserDebt (st_borrow s) !! user) as [p|]; run_fwd; [|by eexists].
  unfold checked_add. rewrite Hd. run_fwd. by eexists.
Qed.

(** ** Properties *)

(** The outcome of every deposit, on every branch: the verdict of the
    guards in their order, and on success exactly one position, the total and
    one event change. *)
Theorem deposit_outcome user asset amount env s :
  invoke (deposit user asset amount) env s =
  (deposit_verdict user amount env s,
   match deposit_verdict user amount env s with
   | Ok new_balance =>
       s <| st_vault := vault_write user
              (mkDepositCollateral new_balance asset (timestamp env))
              (get_total_deposits s + amount) (st_vault s) |>
         <| st_events := st_events s ++
              [VaultDepositEvent user asset amount new_balance (timestamp env)] |>
   | _ => s
   end).
Proof.
  pose proof (deposit_verdict_spec user asset amount env s) as Hv.
  unfold invoke. destruct (deposit user asset amount env s) as [[r|e|] s'] eqn:E; simpl in Hv;
    rewrite <- Hv; [|done|done].
  apply vault_deposit_Ok in E as [[] ->]. by subst.
Qed.

(** A deposit by a user without recorded debt can be withdrawn in full
    right away, which gives back every balance and the total of before the
    deposit. *)
Theorem deposits_are_redeemable user asset asset' amount env env' s r s1 :
  vault_ok (st_vault s) → deposit user asset amount env s = (Ok r, s1) →
  authorized env' user = true → withdraw_is_paused s = false → is_paused s PauseWithdraw = false →
  get_min_withdraw_amount s ≤ amount → recorded_debt s user = 0 →
  ∃ s2, withdraw user asset' amount env' s1 = (Ok (balance s user), s2) ∧
    (∀ u, balance s2 u = balance s u) ∧ get_total_deposits s2 = get_total_deposits s ∧
    vault_ok (st_vault s2).
Proof.
  intros Hv Hdep Hauth Hp1 Hp2 Hmin Hd.
  apply vault_deposit_Ok in Hdep as [Hf ->]. pose proof (deposit_keeps_vault _ _ _ _ _ _ _ Hv Hf) as Hv1.
  destruct Hf as [_ _ [Hpos _] _ [_ Hr] ->].
  set (s1 := update_field _ _) in *.
  assert (∀ u, balance s1 u = if decide (user = u) then balance s user + amount else balance s u)
    as Hb by (intros u; erewrite (balance_write user _ _ s s1 u) by reflexivity; reflexivity).
  assert (balance s1 user = balance s user + amount) as Hbu by (by rewrite Hb, decide_True).
  pose proof (balance_bounds s user Hv). apply in_i128_spec in Hr.
  destruct (withdraw_succeeds user asset' amount env' s1) as [s2 H2]; try done; [|lia|].
  { change (get_min_withdraw_amount s1) with (get_min_withdraw_amount s). lia. }
  replace (balance s1 user - amount) with (balance s user) in H2 by lia.
  exists s2. split; [done|]. apply withdraw_Ok in H2 as [Hw _].
  pose proof (withdraw_keeps_vault _ _ _ _ _ _ _ Hv1 Hw) as Hv2.
  destruct Hw as [_ _ _ _ _ [t ->]].
  split_and!; [| |done].
  - intros u. erewrite (balance_write user _ _ s1) by reflexivity. rewrite Hbu, Hb.
    destruct (decide (user = u)) as [<-|]; [|done].
    change (balance s user + amount - amount = balance s user). lia.
  - change (default 0 (checked_sub (get_total_deposits s1) amount) = get_total_deposits s).
    rewrite (withdraw_total_exact user) by (try done; lia).
    change (get_total_deposits s1) with (get_total_deposits s + amount). lia.
Qed.

Lemma empty_vault_ok : vault_ok empty_vault.
Proof. by split. Qed.

Lemma deposits_are_redeemable_witness :
  ∃ s2, withdraw alice gold 500 (demo_env 300) (final (deposit alice gold 500) (demo_env 200) market)
        = (Ok (balance market alice), s2) ∧
    (∀ u, balance s2 u = balance market u) ∧ get_total_deposits s2 = get_total_deposits market ∧
    vault_ok (st_vault s2).
Proof.
  apply (deposits_are_redeemable alice gold gold 500 (demo_env 200) (demo_env 300) market 500
           (final (deposit alice gold 500) (demo_env 200) market));
    [apply empty_vault_ok|vm_compute; reflexivity|reflexivity|vm_compute; reflexivity|
     vm_compute; reflexivity|vm_compute; discriminate|vm_compute; reflexivity].
Defined.

(** A withdrawal that succeeds takes exactly its amount from the user's
    balance and the total, never leaves the balance negative, and leaves a
    balance that meets the 150% ratio (up to rounding) to the user's recorded
    debt. *)
Theorem withdraw_keeps_recorded_ratio user asset amount env s r s' :
  vault_ok (st_vault s) → withdraw user asset amount env s = (Ok r, s') →
  r = balance s' user ∧ 0 ≤ r ∧ balance s' user = balance s user - amount ∧
  (∀ u, u ≠ user → balance s' u = balance s u) ∧
  get_total_deposits s' = get_total_deposits s - amount ∧
  (0 < recorded_debt s' user →
   recorded_debt s' user * MIN_COLLATERAL_RATIO_BPS < (balance s' user + 1) * 10000).
Proof.
  intros Hv H. apply withdraw_Ok in H as [Hw ->].
  destruct Hw as [_ _ [Hp _] He Hr [t ->]].
  set (s1 := update_field _ _).
  assert (∀ u, balance s1 u = if decide (user = u) then balance s user - amount else balance s u)
    as Hb by (intros u; erewrite (balance_write user _ _ s s1 u) by reflexivity; reflexivity).
  assert (balance s1 user = balance s user - amount) as Hbu by (by rewrite Hb, decide_True).
  split_and!; [done|lia|done| | |].
  - intros u Hu. by rewrite Hb, decide_False.
  - change (default 0 (checked_sub (get_total_deposits s) amount) = get_total_deposits s - amount).
    apply (withdraw_total_exact user); [done|lia].
  - change (recorded_debt _ user) with (recorded_debt s user). intros Hd.
    specialize (Hr Hd). rewrite Hbu. unfold required_collateral, MIN_COLLATERAL_RATIO_BPS in *.
    rewrite quot_pos in Hr by lia.
    pose proof (Z.mul_succ_div_gt (recorded_debt s user * 15000) 10000). lia.
Qed.

Lemma withdraw_keeps_recorded_ratio_witness :
  let s := final (deposit alice gold 500) (demo_env 200) market in
  let s' := final (withdraw alice gold 200) (demo_env 300) s in
  300 = balance s' alice ∧ 0 ≤ 300 ∧ balance s' alice = balance s alice - 200 ∧
  (∀ u, u ≠ alice → balance s' u = balance s u) ∧
  get_total_deposits s' = get_total_deposits s - 200 ∧
  (0 < recorded_debt s' alice →
   recorded_debt s' alice * MIN_COLLATERAL_RATIO_BPS < (balance s' alice + 1) * 10000).
Proof.
  intros s s'. apply (withdraw_keeps_recorded_ratio alice gold 200 (demo_env 300));
    [|vm_compute; reflexivity].
  apply (deposit_keeps_vault alice gold 500 true (demo_env 200) market); [apply empty_vault_ok|].
  apply (vault_deposit_Ok alice gold 500 true (demo_env 200) market 500). vm_compute. reflexivity.
Defined.

(** A vault balance of 2000, a variable-rate debt of 1000 and a stable-rate
    debt of 100000. *)
Definition two_debts : LState :=
  final (borrow_with_rate alice usd 100000 gold 150000 StableRate) (demo_env 100)
    (final (borrow_with_rate alice usd 1000 gold 1500 VariableRate) (demo_env 100)
      (final (deposit alice gold 2000) (demo_env 100) market)).

(** The collateral check of a withdrawal sees one rate bucket only: with
    1000 of variable-rate and 100000 of stable-rate debt a user may withdraw
    down to the collateral for the 1000. *)
Theorem withdraw_check_misses_stable_debt :
  recorded_debt two_debts alice = 1000 ∧
  bucket_principal VariableRate (st_borrow two_debts) alice = 1000 ∧
  bucket_principal StableRate (st_borrow two_debts) alice = 100000 ∧
  outcome (withdraw alice gold 500) (demo_env 100) two_debts = Ok 1500 ∧
  1500 < required_collateral 101000.
Proof. split_and!; vm_compute; reflexivity. Qed.

(** The vault keeps one balance per user whatever the asset: what was
    deposited in one asset can be withdrawn in another. *)
Theorem vault_mixes_assets :
  outcome (deposit alice usd 500) (demo_env 100) market = Ok 500 ∧
  outcome (withdraw alice gold 500) (demo_env 100)
    (final (deposit alice usd 500) (demo_env 100) market) = Ok 0.
Proof. split; vm_compute; reflexivity. Qed.
