(* ===== verification/FlashLoan.v ===== *)
(** * FlashLoan: uncollateralised loans within one invocation
    ([lending/src/flash_loan.rs])

    The token contract and the borrower's callback are other contracts: they
    are parameters, acting on a world [W] of their own which the loan threads
    through and which the host rolls back together with the contract's
    storage.  No assumption is made about either of them. *)

From Stdlib Require Import Strings.Byte.
From S2P Require Import Prelude Host LendingTypes Pause BorrowStorage Scenario.

Definition MAX_FEE_BPS : Z := 1000.

(** ** Fee *)

Definition get_flash_loan_fee_bps (s : LState) : Z := default 9 (kFlashLoanFeeBps (st_aux s)).

Definition set_flash_loan_fee_bps (fee_bps : Z) : LM FlashLoanError unit :=
  reject_if (negb (in_range 0 MAX_FEE_BPS fee_bps)) FE_InvalidFee ;;
  on_aux (λ a, a <| kFlashLoanFeeBps := Some fee_bps |>).

Definition calculate_fee (amount : Z) : LM FlashLoanError Z :=
  fee_bps ← gets get_flash_loan_fee_bps;
  unwrap (saturating_div (saturating_mul amount fee_bps) 10000).

(** ** Guard *)

(** [FlashLoanGuard::new] *)
Definition guard_new : LM FlashLoanError unit :=
  held ← gets (λ s, default false (kReentrancyGuard (st_aux s)));
  reject_if held FE_Reentrancy ;;
  on_aux (λ a, a <| kReentrancyGuard := Some true |>).

(** [FlashLoanGuard::drop] *)
Definition guard_drop (s : LState) : LState :=
  s <| st_aux := (st_aux s) <| kReentrancyGuard := Some false |> |>.

Section loan.
Context {W : Type}.

(** The guard of a scope is dropped however the scope is left. *)
Definition guarded {E A} (m : M (LState * W) E A) : M (LState * W) E A := λ env x,
  let '(r, (s', w')) := m env x in (r, (guard_drop s', w')).

Lemma guarded_Ok {E A} (m : M (LState * W) E A) env x a x' :
  guarded m env x = (Ok a, x') →
  ∃ s1, m env x = (Ok a, (s1, x'.2)) ∧ x'.1 = guard_drop s1.
Proof. unfold guarded. destruct (m env x) as [r [s' w']]. naive_solver. Qed.

Context (this : Address)
        (token_balance : Address → Address → W → Z)
        (token_transfer : Address → Address → Address → Z → W → option (unit * W))
        (on_flash_loan : Address → Address → Address → Z → Z → list byte → W → option (bool * W)).

Definition flash_loan (receiver asset : Address) (amount : Z) (params : list byte) :
    M (LState * W) FlashLoanError unit :=
  paused ← local (gets (λ s, is_paused s PauseFlashLoan));
  reject_if paused FE_FlashLoanPaused ;;
  reject_if (amount <=? 0) FE_InvalidAmount ;;
  local guard_new ;;
  guarded (
    fee ← local (calculate_fee amount);
    initial_balance ← observe_world (token_balance asset this);
    call (token_transfer asset this receiver amount) ;;
    callback_result ← call (on_flash_loan receiver this asset amount fee params);
    reject_if (negb callback_result) FE_CallbackFailed ;;
    final_balance ← observe_world (token_balance asset this);
    due ← unwrap (checked_add initial_balance fee);
    reject_if (final_balance <? due) FE_InsufficientRepayment ;;
    now ← ask timestamp;
    local (publish (FlashLoanEvent receiver asset amount fee now))).
End loan.

(** Decomposes a successful run over the contract and the other contracts. *)
Ltac loan_inv H :=
  run_step H;
  repeat match goal with
  | x : (LState * _)%type |- _ => destruct x
  | H : local guard_new _ _ = (Ok _, _) |- _ =>
      apply local_Ok in H as [H ->]; unfold guard_new in H; run_step H
  | H : local _ _ _ = (Ok _, _) |- _ => apply local_Ok in H as [H ->]; run_step H
  | H : observe_world _ _ _ = (Ok _, _) |- _ => apply observe_world_Ok in H as (-> & -> & ->)
  | H : call _ _ _ = (Ok _, _) |- _ => apply call_Ok in H as [H ->]
  | H : guarded _ _ _ = (Ok _, _) |- _ =>
      apply guarded_Ok in H as (? & H & ?); cbn [fst snd] in *; run_step H
  | H : (_, _) = (_, _) |- _ => apply pair_equal_spec in H as [? ?]; subst
  end.

(** The fee charged on a loan. *)
Definition flash_fee (s : LState) (amount : Z) : Z :=
  clamp I128_MIN I128_MAX
    (Z.quot (saturating_mul amount (get_flash_loan_fee_bps s)) 10000).

Lemma calculate_fee_run amount env s :
  calculate_fee amount env s = (Ok (flash_fee s amount), s).
Proof. reflexivity. Qed.

(** The admin's setter keeps the fee rate between 0 and 10%. *)
Definition fee_ok (s : LState) : Prop := 0 ≤ get_flash_loan_fee_bps s ≤ MAX_FEE_BPS.

Lemma flash_fee_bounds s amount :
  fee_ok s → 0 ≤ amount ≤ I128_MAX → 0 ≤ flash_fee s amount ∧ flash_fee s amount * 10 ≤ amount.
Proof.
  unfold fee_ok, flash_fee, saturating_mul, clamp, MAX_FEE_BPS. intros Hf Ha.
  set (x := amount * get_flash_loan_fee_bps s). assert (0 ≤ x ≤ amount * 1000) by nia.
  rewrite quot_pos by (rewrite ?I128_MIN_eq, ?I128_MAX_eq in *; lia).
  pose proof (Z.mul_div_le (Z.max I128_MIN (Z.min I128_MAX x)) 10000).
  assert (0 ≤ Z.max I128_MIN (Z.min I128_MAX x) / 10000) by (apply Z.div_pos; rlia).
  rlia.
Qed.

(** ** Properties *)

Section theorems.
Context {W : Type} (this : Address)
        (token_balance : Address → Address → W → Z)
        (token_transfer : Address → Address → Address → Z → W → option (unit * W))
        (on_flash_loan : Address → Address → Address → Z → Z → list byte → W → option (bool * W)).

Local Abbreviation flash_loan :=
  (flash_loan this token_balance token_transfer on_flash_loan).

Lemma flash_loan_Ok receiver asset amount params env s w u s' w' :
  flash_loan receiver asset amount params env (s, w) = (Ok u, (s', w')) →
  0 < amount ∧ is_paused s PauseFlashLoan = false ∧
  default false (kReentrancyGuard (st_aux s)) = false ∧
  token_balance asset this w + flash_fee s amount ≤ token_balance asset this w' ∧
  s' = s <| st_aux := (st_aux s) <| kReentrancyGuard := Some false |> |>
         <| st_events := st_events s ++
              [FlashLoanEvent receiver asset amount (flash_fee s amount) (timestamp env)] |>.
Proof.
  intros H. unfold FlashLoan.flash_loan in H. loan_inv H.
  rewrite calculate_fee_run in *. simplify_eq. zbool. checked_facts.
  change (flash_fee (update_field _ _) amount) with (flash_fee s amount) in *.
  split_and!; try done; lia.
Qed.

(** A flash loan that succeeds leaves the contract with its balance of
    before the loan plus the fee, whatever the token and the receiver do,
    charges the configured fee, changes no position, and releases the guard. *)
Theorem flash_loan_is_repaid receiver asset amount params env s w u s' w' :
  fee_ok s → in_i128 amount = true →
  flash_loan receiver asset amount params env (s, w) = (Ok u, (s', w')) →
  let fee := flash_fee s amount in
  0 < amount ∧ 0 ≤ fee ∧ fee * 10 ≤ amount ∧
  token_balance asset this w + fee ≤ token_balance asset this w' ∧
  is_paused s PauseFlashLoan = false ∧ default false (kReentrancyGuard (st_aux s)) = false ∧
  s' = s <| st_aux := (st_aux s) <| kReentrancyGuard := Some false |> |>
         <| st_events := st_events s ++
              [FlashLoanEvent receiver asset amount fee (timestamp env)] |>.
Proof.
  intros Hfee Ha H fee. apply flash_loan_Ok in H as (Hp & ? & ? & ? & ->).
  apply in_i128_spec in Ha. pose proof (flash_fee_bounds s amount Hfee ltac:(lia)) as [? ?].
  done.
Qed.
End theorems.

(** A token world for the example: balances of one token; the borrower pays
    the loan and the fee back. *)
Definition ledger : Type := gmap Address Z.
Definition ledger_balance (_ who : Address) (w : ledger) : Z := default 0 (w !! who).
Definition ledger_move (_ from to : Address) (amount : Z) (w : ledger) : option (unit * ledger) :=
  if ledger_balance from from w <? amount then None else
  let w := <[from := default 0 (w !! from) - amount]> w in
  Some (tt, <[to := default 0 (w !! to) + amount]> w).
Definition honest_receiver (receiver this asset : Address) (amount fee : Z) (_ : list byte)
    (w : ledger) : option (bool * ledger) :=
  '(_, w) ← ledger_move asset receiver this (amount + fee) w;
  Some (true, w).
Definition pool : Address := 99%positive.
Definition demo_ledger : ledger := {[ pool := 1000000; bob := 5000 ]}.

Lemma flash_loan_is_repaid_witness :
  let run := flash_loan pool ledger_balance ledger_move honest_receiver bob usd 100000 []
               (demo_env 100) (market, demo_ledger) in
  let fee := flash_fee market 100000 in
  0 < 100000 ∧ 0 ≤ fee ∧ fee * 10 ≤ 100000 ∧
  ledger_balance usd pool demo_ledger + fee ≤ ledger_balance usd pool run.2.2 ∧
  is_paused market PauseFlashLoan = false ∧
  default false (kReentrancyGuard (st_aux market)) = false ∧
  run.2.1 = market <| st_aux := (st_aux market) <| kReentrancyGuard := Some false |> |>
           <| st_events := st_events market ++ [FlashLoanEvent bob usd 100000 fee 100] |>.
Proof.
  intros run. apply (flash_loan_is_repaid pool ledger_balance ledger_move honest_receiver
    bob usd 100000 [] (demo_env 100) market demo_ledger tt run.2.1 run.2.2).
  - vm_compute. by split.
  - vm_compute. reflexivity.
  - vm_compute. reflexivity.
Defined.
