(* ===== verification/Views.v ===== *)
(** * Views: position values, health factor and liquidation limits
    ([lending/src/views.rs]), and the runtime checks over them
    ([lending/src/invariants.rs])

    A value is [amount * price / PRICE_SCALE]; the health factor compares the
    collateral value, weighted by the liquidation threshold, with the debt
    value.  [healthy_spec] states that comparison without the scaling. *)

From S2P Require Import Prelude Host LendingTypes Pause BorrowStorage InterestRate RiskMonitor.
From S2P Require Import Borrow Scenario Interest DebtAccounting.

Local Open Scope string_scope.
Local Open Scope Z_scope.

Definition PRICE_SCALE : Z := 100000000.
Definition HEALTH_FACTOR_SCALE : Z := 10000.
Definition HEALTH_FACTOR_NO_DEBT : Z := 100000000.

Record UserPositionSummary : Type := mkUserPositionSummary {
  ps_collateral_balance : Z;
  ps_collateral_value : Z;
  ps_debt_balance : Z;
  ps_debt_value : Z;
  ps_health_factor : Z;
}.

Record ProtocolMetrics : Type := mkProtocolMetrics {
  pm_total_value_locked : Z;
  pm_total_deposits : Z;
  pm_total_borrows : Z;
  pm_utilization_rate : Z;
  pm_total_users : Z;
  pm_total_transactions : Z;
}.

Record StablecoinAssetStats : Type := mkStablecoinAssetStats {
  ss_asset : Address;
  ss_price : Z;
  ss_target_price : Z;
  ss_deviation_bps : Z;
  ss_stability_fee_bps : Z;
  ss_is_depegged : bool;
}.

Record ProtocolReport : Type := mkProtocolReport {
  pr_metrics : ProtocolMetrics;
  pr_stablecoin_stats : list StablecoinAssetStats;
  pr_timestamp : Z;
}.

(** ** Values *)

(** [amount * num / den] in 256-bit arithmetic, then narrowed. *)
Definition i256_mul_div (amount num den : Z) : option (option Z) :=
  p ← i256_mul amount num;
  q ← i256_div p den;
  Some (i256_to_i128 q).

Section views.
Context {E : Type}.

Definition collateral_value (collateral : BorrowCollateral) : LM E Z :=
  if bc_amount collateral <=? 0 then mret 0 else
  oracle ← gets get_oracle;
  match oracle with
  | None => mret 0
  | Some oracle =>
      price ← get_asset_price oracle (bc_asset collateral);
      if price <=? 0 then mret 0 else
      val ← unwrap (i256_mul_div (bc_amount collateral) price PRICE_SCALE);
      mret (default 0 val)
  end.

(** [borrowed.checked_add(interest).unwrap_or(0)] *)
Definition debt_sum (position : DebtPosition) : Z :=
  default 0 (checked_add (dp_borrowed_amount position) (dp_interest_accrued position)).

Definition debt_value (position : DebtPosition) : LM E Z :=
  let total_debt := debt_sum position in
  if total_debt <=? 0 then mret 0 else
  oracle ← gets get_oracle;
  match oracle with
  | None => mret 0
  | Some oracle =>
      price ← get_asset_price oracle (dp_asset position);
      if price <=? 0 then mret 0 else
      val ← unwrap (i256_mul_div total_debt price PRICE_SCALE);
      mret (default 0 val)
  end.

Definition compute_health_factor (collateral_value debt_value : Z) (has_debt : bool) : LM E Z :=
  if debt_value <=? 0 then
    (if has_debt then mret 0 else mret HEALTH_FACTOR_NO_DEBT)
  else
    oracle ← gets get_oracle;
    match oracle with
    | None => mret 0
    | Some _ =>
        bps ← gets get_liquidation_threshold_bps;
        weighted ← unwrap (i256_mul collateral_value bps ≫= λ p, i256_div p 10000);
        hf ← unwrap (i256_mul_div weighted HEALTH_FACTOR_SCALE debt_value);
        mret (default 0 hf)
    end.

(** ** View functions *)

Definition get_collateral_balance (user : Address) : LM E Z :=
  gets (λ s, bc_amount (get_user_collateral s user)).

Definition get_debt_balance (user : Address) : LM E Z :=
  position ← get_user_debt user;
  mret (debt_sum position).

Definition get_collateral_value (user : Address) : LM E Z :=
  collateral ← gets (λ s, get_user_collateral s user);
  collateral_value collateral.

Definition get_debt_value (user : Address) : LM E Z :=
  position ← get_user_debt user;
  debt_value position.

Definition get_health_factor (user : Address) : LM E Z :=
  collateral ← gets (λ s, get_user_collateral s user);
  position ← get_user_debt user;
  cv ← collateral_value collateral;
  dv ← debt_value position;
  compute_health_factor cv dv (0 <? debt_sum position).

Definition get_max_liquidatable_amount (user : Address) : LM E Z :=
  position ← get_user_debt user;
  let total_debt := debt_sum position in
  if total_debt <=? 0 then mret 0 else
  collateral ← gets (λ s, get_user_collateral s user);
  cv ← collateral_value collateral;
  dv ← debt_value position;
  hf ← compute_health_factor cv dv true;
  if (hf =? 0) || (HEALTH_FACTOR_SCALE <=? hf) then mret 0 else
  close_factor ← gets get_close_factor_bps;
  result ← unwrap (i256_mul_div total_debt close_factor 10000);
  mret (default 0 result).

Definition get_liquidation_incentive_amount (repay_amount : Z) : LM E Z :=
  if repay_amount <=? 0 then mret 0 else
  incentive_bps ← gets get_liquidation_incentive_bps;
  scale ← unwrap (checked_add 10000 incentive_bps);
  result ← unwrap (i256_mul_div repay_amount scale 10000);
  mret (default I128_MAX result).

Definition get_user_position (user : Address) : LM E UserPositionSummary :=
  collateral ← gets (λ s, get_user_collateral s user);
  position ← get_user_debt user;
  let debt_balance := debt_sum position in
  collateral_value_usd ← collateral_value collateral;
  debt_value_usd ← debt_value position;
  health_factor ← compute_health_factor collateral_value_usd debt_value_usd (0 <? debt_balance);
  mret (mkUserPositionSummary (bc_amount collateral) collateral_value_usd
          debt_balance debt_value_usd health_factor).

(** The statistics of one configured stablecoin. *)
Definition stablecoin_stats (oracle asset : Address) (config : StablecoinConfig) :
    LM E StablecoinAssetStats :=
  price ← get_asset_price oracle asset;
  deviation ← unwrap (deviation_bps (sc_target_price config) price);
  mret (mkStablecoinAssetStats asset price (sc_target_price config) deviation
          (sc_stability_fee_bps config) (sc_peg_threshold_bps config <? deviation)).

Fixpoint collect_stats (oracle : Address) (assets : list Address) :
    LM E (list StablecoinAssetStats) :=
  match assets with
  | [] => mret []
  | asset :: assets =>
      config ← gets (λ s, get_stablecoin_config s asset);
      match config with
      | Some config =>
          st ← stablecoin_stats oracle asset config;
          rest ← collect_stats oracle assets;
          mret (st :: rest)
      | None => collect_stats oracle assets
      end
  end.

Definition get_protocol_report (stablecoin_assets : list Address) : LM E ProtocolReport :=
  oracle ← gets get_oracle;
  stats ←
    match oracle with
    | Some oracle => collect_stats oracle stablecoin_assets
    | None => mret []
    end;
  now ← ask timestamp;
  mret (mkProtocolReport (mkProtocolMetrics 0 0 0 0 0 0) stats now).
End views.

(** ** Runtime checks ([invariants.rs]) *)

(** [detail] is the formatted string, as labelled numbers. *)
Record InvariantViolation : Type := mkInvariantViolation {
  iv_invariant_id : string;
  iv_message : string;
  iv_detail : list (string * Z);
}.

Definition check_inv_001_solvency (user : Address) : LM InvariantViolation unit :=
  health_bps ← get_health_factor user;
  reject_if (health_bps <? 10000)
    (mkInvariantViolation "INV-001"
       "Solvency: health_factor < 1.0 after action — undercollateralised"
       [("health_factor", health_bps)]).

Definition check_inv_002_collateral_non_negative (user : Address) : LM InvariantViolation unit :=
  balance ← get_collateral_balance user;
  reject_if (balance <? 0)
    (mkInvariantViolation "INV-002" "Collateral balance < 0 — impossible state"
       [("balance", balance)]).

Definition check_inv_003_debt_non_negative (user : Address) : LM InvariantViolation unit :=
  balance ← get_debt_balance user;
  reject_if (balance <? 0)
    (mkInvariantViolation "INV-003" "Debt balance < 0 — impossible state"
       [("balance", balance)]).

Definition check_inv_004_liquidation_eligible (user : Address) : LM InvariantViolation unit :=
  paused ← gets (λ s, is_paused s PauseLiquidation);
  if (paused : bool) then mret tt else
  health_bps ← get_health_factor user;
  if health_bps <? 10000 then
    debt ← get_debt_balance user;
    reject_if (debt <=? 0)
      (mkInvariantViolation "INV-004"
         "Liquidation: health_factor < 1.0 but debt == 0 — contradictory state"
         [("health_factor", health_bps); ("debt", debt)])
  else mret tt.

Definition check_inv_008_health_factor_consistency (user : Address) : LM InvariantViolation unit :=
  debt ← get_debt_balance user;
  health ← get_health_factor user;
  reject_if ((debt =? 0) && (health <? 10000))
    (mkInvariantViolation "INV-008"
       "Health factor: debt == 0 but health_factor < 1.0 — contradictory"
       [("debt", debt); ("health_factor", health)]) ;;
  reject_if ((0 <? debt) && (health =? 0))
    (mkInvariantViolation "INV-008"
       "Health factor: debt > 0 but health_factor == 0 — arithmetic error"
       [("debt", debt); ("health_factor", health)]).

Definition check_inv_009_collateral_covers_debt (user : Address) : LM InvariantViolation unit :=
  health ← get_health_factor user;
  if 10000 <=? health then
    col_val ← get_collateral_value user;
    debt_val ← get_debt_value user;
    reject_if ((0 <? debt_val) && (col_val <? debt_val))
      (mkInvariantViolation "INV-009"
         "Collateral coverage: collateral_value < debt_value on healthy position"
         [("collateral_value", col_val); ("debt_value", debt_val)])
  else mret tt.

(** [if let Err(v) = check { violations.push(v) }] for each check in turn. *)
Fixpoint run_checks {E} (checks : list (LM InvariantViolation unit)) :
    LM E (list InvariantViolation) :=
  match checks with
  | [] => mret []
  | check :: checks =>
      r ← attempt check;
      rest ← run_checks checks;
      mret (match r with inl v => v :: rest | inr _ => rest end)
  end.

Definition assert_all_for_user {E} (user : Address) : LM E (list InvariantViolation) :=
  run_checks
    [check_inv_001_solvency user; check_inv_002_collateral_non_negative user;
     check_inv_003_debt_non_negative user; check_inv_004_liquidation_eligible user;
     check_inv_008_health_factor_consistency user; check_inv_009_collateral_covers_debt user].

(** ** Lemmas *)

#[export] Instance readonly_collateral_value {E} c : Readonly (collateral_value (E := E) c).
Proof. unfold collateral_value, get_asset_price. apply _. Qed.
#[export] Instance readonly_debt_value {E} p : Readonly (debt_value (E := E) p).
Proof. unfold debt_value, get_asset_price. apply _. Qed.
#[export] Instance readonly_health {E} cv dv h : Readonly (compute_health_factor (E := E) cv dv h).
Proof. unfold compute_health_factor. apply _. Qed.

#[export] Instance infallible_user_debt {E} user : Infallible (get_user_debt (E := E) user).
Proof. unfold get_user_debt, with_accrued. apply _. Qed.
#[export] Instance infallible_collateral_value {E} c : Infallible (collateral_value (E := E) c).
Proof. unfold collateral_value, get_asset_price. apply _. Qed.
#[export] Instance infallible_debt_value {E} p : Infallible (debt_value (E := E) p).
Proof. unfold debt_value, get_asset_price. apply _. Qed.
#[export] Instance infallible_compute {E} cv dv h : Infallible (compute_health_factor (E := E) cv dv h).
Proof. unfold compute_health_factor. apply _. Qed.
#[export] Instance infallible_debt_balance {E} user : Infallible (get_debt_balance (E := E) user).
Proof. unfold get_debt_balance. apply _. Qed.
#[export] Instance infallible_health {E} user : Infallible (get_health_factor (E := E) user).
Proof. unfold get_health_factor. apply _. Qed.
#[export] Instance infallible_get_collateral_value {E} user : Infallible (get_collateral_value (E := E) user).
Proof. unfold get_collateral_value. apply _. Qed.
#[export] Instance infallible_get_debt_value {E} user : Infallible (get_debt_value (E := E) user).
Proof. unfold get_debt_value. apply _. Qed.

(** Every view is a stable read. *)
Lemma read_collateral_value {E} c : read_mod same_reading (collateral_value (E := E) c).
Proof. unfold collateral_value, get_asset_price. reading; same_eq. Qed.
Lemma read_debt_value {E} p : read_mod same_reading (debt_value (E := E) p).
Proof. unfold debt_value, get_asset_price. reading; same_eq. Qed.
Lemma read_health {E} cv dv h : read_mod same_reading (compute_health_factor (E := E) cv dv h).
Proof. unfold compute_health_factor. reading; same_eq. Qed.
#[export] Hint Resolve read_collateral_value read_debt_value read_health : reading.
Lemma read_debt_balance {E} user : read_mod same_reading (get_debt_balance (E := E) user).
Proof. unfold get_debt_balance. reading. Qed.
Lemma read_collateral_balance {E} user : read_mod same_reading (get_collateral_balance (E := E) user).
Proof. unfold get_collateral_balance. reading; same_eq. Qed.
Lemma read_get_collateral_value {E} user : read_mod same_reading (get_collateral_value (E := E) user).
Proof. unfold get_collateral_value. reading; same_eq. Qed.
Lemma read_get_debt_value {E} user : read_mod same_reading (get_debt_value (E := E) user).
Proof. unfold get_debt_value. reading. Qed.
Lemma read_health_factor {E} user : read_mod same_reading (get_health_factor (E := E) user).
Proof. unfold get_health_factor. reading; same_eq. Qed.
#[export] Hint Resolve read_debt_balance read_collateral_balance read_get_collateral_value
  read_get_debt_value read_health_factor : reading.

(** The value the oracle gives an amount. *)
Definition asset_value (env : Env) (s : LState) (amount : Z) (asset : Address) : Z :=
  if amount <=? 0 then 0 else
  match get_oracle s ≫= λ o, oracle_price env o asset with
  | Some price =>
      if price <=? 0 then 0 else default 0 (i256_to_i128 (amount * price / PRICE_SCALE))
  | None => 0
  end.

Lemma asset_value_range env s amount asset : 0 ≤ asset_value env s amount asset ≤ I128_MAX.
Proof.
  unfold asset_value. destruct (amount <=? 0) eqn:Ha; [rlia|].
  destruct (_ ≫= _) as [price|]; [|rlia]. destruct (price <=? 0) eqn:Hp; [rlia|]. zbool.
  unfold i256_to_i128. destruct (fit _ _) as [v|] eqn:E; simpl; [|rlia].
  apply fit_Some in E as [Hr ->]. apply in_i128_spec in Hr.
  split; [apply Z.div_pos; unfold PRICE_SCALE; nia|lia].
Qed.

Lemma i256_mul_div_Some amount num den v :
  0 ≤ amount → 0 ≤ num → 0 < den → i256_mul_div amount num den = Some v →
  v = i256_to_i128 (amount * num / den).
Proof.
  intros Ha Hn Hd H. unfold i256_mul_div, i256_mul, i256_div in H.
  apply bind_Some in H as (p & [_ ->]%fit_Some & H).
  rewrite (proj2 (Z.eqb_neq _ _)) in H by lia.
  apply bind_Some in H as (q & [_ ->]%fit_Some & H).
  rewrite quot_pos in H by nia. congruence.
Qed.

Lemma collateral_value_Ok {E} c env s v s' :
  collateral_value (E := E) c env s = (Ok v, s') →
  v = asset_value env s (bc_amount c) (bc_asset c) ∧ s' = s.
Proof.
  intros H. split; [|by apply (readonly_run _ _ _ _ _ H)].
  unfold collateral_value, get_asset_price in H. unfold asset_value.
  destruct (bc_amount c <=? 0) eqn:Ha; [by run_inv H|].
  apply bind_Ok in H as (o & s1 & [-> ->]%gets_Ok & H).
  destruct (get_oracle s) as [o|]; [|by run_inv H]. cbn. zbool.
  run_inv H; match goal with H : oracle_price _ _ _ = Some _ |- _ => rewrite H end; zbool.
  - by rewrite (proj2 (Z.leb_le _ _)).
  - rewrite (proj2 (Z.leb_gt _ _)) by lia. f_equal.
    eapply i256_mul_div_Some; [| | |eassumption]; unfold PRICE_SCALE; lia.
Qed.

Lemma debt_value_Ok {E} p env s v s' :
  debt_value (E := E) p env s = (Ok v, s') →
  v = asset_value env s (debt_sum p) (dp_asset p) ∧ s' = s.
Proof.
  intros H. split; [|by apply (readonly_run _ _ _ _ _ H)].
  unfold debt_value, get_asset_price in H. cbv zeta in H. unfold asset_value.
  destruct (debt_sum p <=? 0) eqn:Ha; [by run_inv H|].
  apply bind_Ok in H as (o & s1 & [-> ->]%gets_Ok & H).
  destruct (get_oracle s) as [o|]; [|by run_inv H]. cbn. zbool.
  run_inv H; match goal with H : oracle_price _ _ _ = Some _ |- _ => rewrite H end; zbool.
  - by rewrite (proj2 (Z.leb_le _ _)).
  - rewrite (proj2 (Z.leb_gt _ _)) by lia. f_equal.
    eapply i256_mul_div_Some; [| | |eassumption]; unfold PRICE_SCALE; lia.
Qed.

(** Settings as the admin's setters leave them. *)
Record settings_ok (s : LState) : Prop := {
  so_threshold : 0 < get_liquidation_threshold_bps s ≤ 10000;
  so_close : 0 < get_close_factor_bps s ≤ 10000;
  so_incentive : 0 ≤ get_liquidation_incentive_bps s ≤ 10000;
}.

(** Collateral value that counts towards covering the debt. *)
Definition weighted_value (s : LState) (cv : Z) : Z :=
  cv * get_liquidation_threshold_bps s / 10000.

(** The health factor of a position with values [cv] and [dv]. *)
Definition health_of (s : LState) (cv dv : Z) (has_debt : bool) : Z :=
  if dv <=? 0 then (if has_debt then 0 else HEALTH_FACTOR_NO_DEBT)
  else match get_oracle s with
       | None => 0
       | Some _ => default 0 (i256_to_i128 (weighted_value s cv * HEALTH_FACTOR_SCALE / dv))
       end.

Lemma compute_health_factor_Ok {E} cv dv h env s hf s' :
  settings_ok s → 0 ≤ cv →
  compute_health_factor (E := E) cv dv h env s = (Ok hf, s') → hf = health_of s cv dv h ∧ s' = s.
Proof.
  intros [Ht _ _] Hcv H. split; [|by apply (readonly_run _ _ _ _ _ H)].
  unfold compute_health_factor in H. unfold health_of.
  destruct (dv <=? 0) eqn:Hd; [by destruct h; run_inv H|].
  apply bind_Ok in H as (o & s1 & [-> ->]%gets_Ok & H).
  destruct (get_oracle s); [|by run_inv H]. run_inv H. zbool.
  match goal with H : (_ ≫= _) = Some _ |- _ => apply bind_Some in H as (p & [_ ->]%fit_Some & H) end.
  match goal with H : i256_div _ _ = Some _ |- _ => apply fit_Some in H as [_ ->] end.
  f_equal. fold (weighted_value s cv).
  match goal with H : i256_mul_div ?w _ _ = Some _ |- _ =>
    assert (w = weighted_value s cv) as Hw by (apply quot_pos; nia); rewrite Hw in H;
    assert (0 ≤ weighted_value s cv) by (apply Z.div_pos; nia);
    apply i256_mul_div_Some in H; unfold HEALTH_FACTOR_SCALE in *; lia || congruence end.
Qed.

(** A user's collateral and debt values. *)
Definition user_cv (env : Env) (s : LState) (user : Address) : Z :=
  let c := get_user_collateral s user in asset_value env s (bc_amount c) (bc_asset c).
Definition position_dv (env : Env) (s : LState) (p : DebtPosition) : Z :=
  asset_value env s (debt_sum p) (dp_asset p).

Lemma asset_value_equiv env s s' amount asset :
  s ≡ s' → asset_value env s' amount asset = asset_value env s amount asset.
Proof.
  intros Hs. unfold asset_value. assert (get_oracle s' = get_oracle s) as -> by (by rewrite Hs).
  done.
Qed.

Lemma settings_ok_equiv s s' : s ≡ s' → settings_ok s → settings_ok s'.
Proof.
  intros Hs [H1 H2 H3]. split; [by rewrite <- Hs..|].
  pose proof (observe_factor get_liquidation_incentive_bps
    (λ x, default 1000 (kLiquidationIncentiveBps x.1.1.1)) (λ _, eq_refl) s s' Hs) as <-. done.
Qed.

Lemma health_of_equiv s s' cv dv h : s ≡ s' → health_of s' cv dv h = health_of s cv dv h.
Proof.
  intros Hs. unfold health_of, weighted_value.
  assert (get_oracle s' = get_oracle s) as -> by (by rewrite Hs).
  by assert (get_liquidation_threshold_bps s' = get_liquidation_threshold_bps s) as -> by (by rewrite Hs).
Qed.

(** The state after reading a debt is equivalent. *)
Lemma user_debt_equiv {E} user env s r s' :
  get_user_debt (E := E) user env s = (r, s') → s ≡ s'.
Proof.
  intros H. destruct (read_user_debt (E := E) user env s s) as [_ [Hs _]]; [reflexivity|].
  by rewrite H in Hs.
Qed.

Lemma get_health_factor_Ok {E} user env s hf s' :
  settings_ok s → get_health_factor (E := E) user env s = (Ok hf, s') →
  ∃ p, get_user_debt (E := E) user env s = (Ok p, s') ∧
    hf = health_of s (user_cv env s user) (position_dv env s p) (0 <? debt_sum p).
Proof.
  intros Hset H. unfold get_health_factor in H.
  apply bind_Ok in H as (c & s0 & [-> ->]%gets_Ok & H).
  apply bind_Ok in H as (p & s1 & Hd & H). pose proof (user_debt_equiv _ _ _ _ _ Hd) as Hs.
  apply bind_Ok in H as (cv & s2 & [-> ->]%collateral_value_Ok & H).
  apply bind_Ok in H as (dv & s2 & [-> ->]%debt_value_Ok & H).
  apply compute_health_factor_Ok in H as [-> ->];
    [|by apply (settings_ok_equiv s)|apply asset_value_range].
  exists p. split; [done|]. by rewrite !(asset_value_equiv env s s1), (health_of_equiv s s1) by done.
Qed.

(** The health factor is at least one exactly when the weighted collateral
    covers the debt value, as long as the quotient is representable. *)
Lemma health_of_covers s cv dv h :
  settings_ok s → 0 ≤ cv → 0 < dv → is_Some (get_oracle s) →
  weighted_value s cv * HEALTH_FACTOR_SCALE ≤ I128_MAX →
  0 ≤ health_of s cv dv h ∧ (HEALTH_FACTOR_SCALE ≤ health_of s cv dv h ↔ dv ≤ weighted_value s cv).
Proof.
  intros [Ht _ _] Hcv Hdv [o Ho] Hr. unfold health_of. rewrite Ho, (proj2 (Z.leb_gt _ _)) by done.
  assert (0 ≤ weighted_value s cv) as Hw by (apply Z.div_pos; nia).
  set (w := weighted_value s cv) in *. unfold HEALTH_FACTOR_SCALE in *.
  assert (0 ≤ w * 10000 / dv) by (apply Z.div_pos; lia).
  assert (w * 10000 / dv ≤ w * 10000) by (apply Z.div_le_upper_bound; nia).
  unfold i256_to_i128. rewrite fit_in by rlia. simpl. split; [done|].
  split; intros Hle.
  - pose proof (Z.mul_div_le (w * 10000) dv). nia.
  - apply Z.div_le_lower_bound; nia.
Qed.

(** In any case a factor of at least one means the debt is covered. *)
Lemma health_of_safe s cv dv h :
  settings_ok s → 0 ≤ cv → 0 < dv → HEALTH_FACTOR_SCALE ≤ health_of s cv dv h →
  dv ≤ weighted_value s cv ∧ weighted_value s cv ≤ cv.
Proof.
  intros [Ht _ _] Hcv Hdv. unfold health_of. rewrite (proj2 (Z.leb_gt _ _)) by done.
  assert (0 ≤ weighted_value s cv) as Hw by (apply Z.div_pos; nia).
  assert (weighted_value s cv ≤ cv) by (apply Z.div_le_upper_bound; nia).
  set (w := weighted_value s cv) in *. unfold HEALTH_FACTOR_SCALE in *.
  destruct (get_oracle s); [|lia]. unfold i256_to_i128.
  destruct (fit _ _) as [v|] eqn:E; simpl; [|lia]. apply fit_Some in E as [_ ->].
  intros Hle. pose proof (Z.mul_div_le (w * 10000) dv). nia.
Qed.

Lemma health_of_nonneg s cv dv h : settings_ok s → 0 ≤ cv → 0 ≤ health_of s cv dv h.
Proof.
  intros [Ht _ _] Hcv. unfold health_of.
  destruct (dv <=? 0) eqn:Hd; [by destruct h|]. zbool.
  destruct (get_oracle s); [|done]. unfold i256_to_i128.
  destruct (fit _ _) as [v|] eqn:E; simpl; [|done]. apply fit_Some in E as [_ ->].
  apply Z.div_pos; [|done]. unfold weighted_value, HEALTH_FACTOR_SCALE.
  assert (0 ≤ cv * get_liquidation_threshold_bps s / 10000) by (apply Z.div_pos; nia). lia.
Qed.

(** A position with a positive value has an oracle. *)
Lemma positive_value_oracle env s amount asset :
  0 < asset_value env s amount asset → is_Some (get_oracle s) ∧ 0 < amount.
Proof.
  unfold asset_value. destruct (amount <=? 0) eqn:Ha; [done|]. zbool.
  destruct (get_oracle s); [by eauto|done].
Qed.

Lemma no_debt_no_value env s p : debt_sum p ≤ 0 → position_dv env s p = 0.
Proof. intros H. unfold position_dv, asset_value. by rewrite (proj2 (Z.leb_le _ _)). Qed.

Lemma debt_sum_max p : debt_sum p ≤ I128_MAX.
Proof.
  unfold debt_sum. destruct (checked_add _ _) as [v|] eqn:E; simpl; [|rlia].
  checked_facts. by apply in_i128_spec.
Qed.

Lemma saturating_add_nonneg a b : 0 ≤ a → 0 ≤ b → 0 ≤ saturating_add a b.
Proof. unfold saturating_add, clamp. rlia. Qed.

(** The debt shown to a user is never negative. *)
Lemma user_debt_nonneg {E} user env s p s' :
  rates_nonneg s → debt_ok (st_borrow s) →
  get_user_debt (E := E) user env s = (Ok p, s') → position_nonneg p ∧ 0 ≤ debt_sum p.
Proof.
  intros Hr Hok H.
  assert (position_nonneg p) as Hp.
  { unfold get_user_debt, with_accrued in H.
    apply bind_Ok in H as (v & s0 & [-> ->]%reads_Ok & H).
    apply bind_Ok in H as (st & s0 & [-> ->]%reads_Ok & H).
    pose proof (read_nonneg user None VariableRate env s (do_compat _ Hok) (do_nonneg _ Hok)) as Hv.
    pose proof (read_nonneg user None StableRate env s (do_compat _ Hok) (do_nonneg _ Hok)) as Hs.
    set (q := if is_open _ then _ else _) in H.
    assert (position_nonneg q) as [Hq1 Hq2] by (unfold q; by destruct (is_open _)). clearbody q.
    apply bind_Ok in H as (r & s0 & Hc%attempt_Ok & [-> _]%ret_Ok).
    destruct r as [e|accrued].
    - destruct e; (split; cbn; [done|]); rlia.
    - apply calculate_interest_nonneg in Hc; [|done|done].
      split; cbn; [done|by apply saturating_add_nonneg]. }
  split; [done|]. destruct Hp. unfold debt_sum. destruct (checked_add _ _) as [v|] eqn:E1; simpl; [|done].
  checked_facts. lia.
Qed.

Lemma get_debt_balance_Ok {E} user env s d s' :
  get_debt_balance (E := E) user env s = (Ok d, s') →
  ∃ p, get_user_debt (E := E) user env s = (Ok p, s') ∧ d = debt_sum p.
Proof. unfold get_debt_balance. intros H. run_inv H. eauto. Qed.

(** *** The runtime checks *)

(** The violation a check reports. *)
Definition violation_of {A} (r : res InvariantViolation A) : option InvariantViolation :=
  match r with Err v => Some v | _ => None end.

(** The checks are stable reads, so what they report together is what each
    reports on its own in the first state. *)
Lemma run_checks_list {E} (checks : list (LM InvariantViolation unit)) env s0 s vs s' :
  same_reading env s0 s → Forall (read_mod same_reading) checks →
  run_checks (E := E) checks env s = (Ok vs, s') →
  Forall (λ check, (check env s0).1 ≠ Trap) checks ∧
  vs = omap (λ check : LM InvariantViolation unit, violation_of (check env s0).1) checks.
Proof.
  intros Hs Hc. revert s vs s' Hs. induction Hc as [|check checks Hcheck _ IH]; intros s vs s' Hs H.
  { cbn in H. run_inv H. by split. }
  cbn [run_checks] in H. apply bind_Ok in H as (r & s1 & Hr%attempt_Ok & H).
  apply bind_Ok in H as (rest & s2 & Hrest & [-> ->]%ret_Ok).
  destruct (Hcheck env s s0) as [H1 H2]; [by symmetry|].
  assert (same_reading env s0 s1) as Hs1.
  { etrans; [exact Hs|]. destruct r; rewrite Hr in H2; done. }
  destruct (IH _ _ _ Hs1 Hrest) as [Htrap ->].
  destruct r as [v|[]]; rewrite Hr in H1; cbn in H1; (split; [by constructor; [rewrite <- H1|]|]);
    cbn [omap list_omap]; by rewrite <- H1.
Qed.

Lemma read_checks user : Forall (read_mod same_reading)
  [check_inv_001_solvency user; check_inv_002_collateral_non_negative user;
   check_inv_003_debt_non_negative user; check_inv_004_liquidation_eligible user;
   check_inv_008_health_factor_consistency user; check_inv_009_collateral_covers_debt user].
Proof.
  repeat apply Forall_cons_2; [..|apply Forall_nil_2]; unfold check_inv_001_solvency, check_inv_002_collateral_non_negative,
    check_inv_003_debt_non_negative, check_inv_004_liquidation_eligible,
    check_inv_008_health_factor_consistency, check_inv_009_collateral_covers_debt;
    reading; same_eq.
Qed.

(** A failing bind whose first part cannot fail failed in its second part. *)
Lemma infallible_Err {S E A B} (m : M S E A) (k : A → M S E B) `{!Infallible m} env s v :
  ((m ≫= k) env s).1 = Err v → ∃ a s', m env s = (Ok a, s') ∧ (k a env s').1 = Err v.
Proof.
  rewrite bind_eq. pose proof (infallible env s (m := m)) as Hi.
  destruct (m env s) as [[a|e|] s']; simpl in *; [eauto|naive_solver|done].
Qed.

Lemma reject_if_Err {S E} c (e : E) env (s : S) v :
  (reject_if c e env s).1 = Err v → c = true ∧ v = e.
Proof. destruct c; cbn; naive_solver. Qed.

(** The same debt is read again after another view. *)
Lemma user_debt_again {E} user env s s1 p p' s2 :
  same_reading env s s1 → get_user_debt (E := E) user env s = (Ok p, s1) →
  get_user_debt (E := E) user env s1 = (Ok p', s2) → p' = p.
Proof.
  intros Hs H1 H2. destruct (read_user_debt (E := E) user env s s1 Hs) as [H _].
  rewrite H1, H2 in H. simpl in H. congruence.
Qed.

Lemma user_debt_same {E} user env s r s1 :
  get_user_debt (E := E) user env s = (r, s1) → same_reading env s s1.
Proof.
  intros H. destruct (read_user_debt (E := E) user env s s) as [_ Hs]; [reflexivity|].
  by rewrite H in Hs.
Qed.

(** A factor below one is due to a debt. *)
Lemma low_health_has_debt env s p cv :
  health_of s cv (position_dv env s p) (0 <? debt_sum p) < 10000 → 0 < debt_sum p.
Proof.
  intros H. destruct (Z_lt_le_dec 0 (debt_sum p)) as [|Hle]; [done|].
  rewrite (no_debt_no_value env s p Hle), (proj2 (Z.ltb_ge _ _)) in H by done.
  unfold health_of, HEALTH_FACTOR_NO_DEBT in H. cbn in H. lia.
Qed.

Lemma checks_002 user env s v :
  0 ≤ bc_amount (get_user_collateral s user) →
  (check_inv_002_collateral_non_negative user env s).1 ≠ Err v.
Proof.
  intros Hc H. unfold check_inv_002_collateral_non_negative in H.
  apply infallible_Err in H as (b & s1 & Hg & [Hb _]%reject_if_Err);
    [|unfold get_collateral_balance; apply _].
  unfold get_collateral_balance in Hg. run_inv Hg. zbool. lia.
Qed.

Lemma checks_003 user env s v :
  rates_nonneg s → debt_ok (st_borrow s) → (check_inv_003_debt_non_negative user env s).1 ≠ Err v.
Proof.
  intros Hr Hok H. unfold check_inv_003_debt_non_negative in H.
  apply infallible_Err in H as (d & s1 & Hd & [Hb _]%reject_if_Err); [|apply _].
  apply get_debt_balance_Ok in Hd as (p & Hp & ->).
  apply user_debt_nonneg in Hp as [_ ?]; [|done..]. zbool. lia.
Qed.

Lemma checks_004 user env s v :
  settings_ok s → (check_inv_004_liquidation_eligible user env s).1 ≠ Err v.
Proof.
  intros Hset H. unfold check_inv_004_liquidation_eligible in H.
  apply infallible_Err in H as (b & s1 & [-> ->]%gets_Ok & H); [|apply _].
  destruct (is_paused s PauseLiquidation); [done|].
  apply infallible_Err in H as (hf & s1 & Hh & H); [|apply _].
  destruct (hf <? 10000) eqn:Hlow; [|done].
  apply infallible_Err in H as (d & s2 & Hd & [Hb _]%reject_if_Err); [|apply _].
  apply get_health_factor_Ok in Hh as (p & Hp & ->); [|done].
  apply get_debt_balance_Ok in Hd as (p' & Hp' & ->).
  pose proof (user_debt_same _ _ _ _ _ Hp) as Hs.
  rewrite (user_debt_again _ _ _ _ _ _ _ Hs Hp Hp') in Hb. zbool.
  apply low_health_has_debt in Hlow. lia.
Qed.

(** A check that starts with a read that cannot fail, and does not trap,
    continues in the state the read leaves. *)
Lemma untrapped {S E A B} (m : M S E A) (k : A → M S E B) `{!Infallible m} env s :
  ((m ≫= k) env s).1 ≠ Trap → ∃ a s', m env s = (Ok a, s') ∧ (m ≫= k) env s = k a env s'.
Proof.
  rewrite !bind_eq. pose proof (infallible env s (m := m)) as Hi.
  destruct (m env s) as [[a|e|] s']; simpl in *; [eauto|naive_solver|naive_solver].
Qed.

(** The health factor of a user whose debt is [p]. *)
Definition user_health (env : Env) (s : LState) (user : Address) (p : DebtPosition) : Z :=
  health_of s (user_cv env s user) (position_dv env s p) (0 <? debt_sum p).

(** What INV-001 and INV-008 report for a health factor and a debt. *)
Definition undercollateralised (hf : Z) : InvariantViolation :=
  mkInvariantViolation "INV-001" "Solvency: health_factor < 1.0 after action — undercollateralised"
    [("health_factor", hf)].
Definition zero_health (debt : Z) : InvariantViolation :=
  mkInvariantViolation "INV-008" "Health factor: debt > 0 but health_factor == 0 — arithmetic error"
    [("debt", debt); ("health_factor", 0)].

Lemma checks_001 user env s :
  settings_ok s → (check_inv_001_solvency user env s).1 ≠ Trap →
  ∃ p s1, get_user_debt (E := InvariantViolation) user env s = (Ok p, s1) ∧
    violation_of (check_inv_001_solvency user env s).1 =
      (if user_health env s user p <? 10000 then Some (undercollateralised (user_health env s user p)) else None).
Proof.
  intros Hset H. unfold check_inv_001_solvency in *. apply untrapped in H as (hf & s1 & Hh & ->); [|apply _].
  apply get_health_factor_Ok in Hh as (p & Hp & ->); [|done]. exists p, s1. split; [done|].
  fold (user_health env s user p). by destruct (_ <? _).
Qed.

Lemma checks_008 user env s :
  settings_ok s → (check_inv_008_health_factor_consistency user env s).1 ≠ Trap →
  ∃ p s1, get_user_debt (E := InvariantViolation) user env s = (Ok p, s1) ∧
    violation_of (check_inv_008_health_factor_consistency user env s).1 =
      (if (0 <? debt_sum p) && (user_health env s user p =? 0) then Some (zero_health (debt_sum p)) else None).
Proof.
  intros Hset H. unfold check_inv_008_health_factor_consistency in *.
  apply untrapped in H as Hd; [|apply _]. destruct Hd as (d & s1 & Hd & Heq). rewrite Heq in *. clear Heq.
  apply untrapped in H as Hh; [|apply _]. destruct Hh as (hf & s2 & Hh & ->). clear H.
  apply get_debt_balance_Ok in Hd as (p & Hp & ->).
  pose proof (user_debt_same _ _ _ _ _ Hp) as Hs. pose proof (proj1 Hs) as He.
  apply get_health_factor_Ok in Hh as (p' & Hp' & ->); [|by apply (settings_ok_equiv s)].
  rewrite (user_debt_again _ _ _ _ _ _ _ Hs Hp Hp'). clear p' Hp'. exists p, s1. split; [done|].
  unfold user_cv, position_dv. rewrite !(asset_value_equiv env s s1), (health_of_equiv s s1) by done.
  assert (get_user_collateral s1 user = get_user_collateral s user) as -> by (unfold get_user_collateral; by rewrite He).
  fold (user_cv env s user) (position_dv env s p) (user_health env s user p).
  rewrite bind_eq. destruct (_ && _) eqn:Hc1; cbn.
  - apply andb_true_iff in Hc1 as [Hz Hlow]. zbool. apply low_health_has_debt in Hlow. lia.
  - destruct (0 <? debt_sum p); [|done]. destruct (user_health env s user p =? 0) eqn:Hz; [|done]. cbn. zbool. by rewrite Hz.
Qed.

Lemma checks_009 user env s v :
  settings_ok s → (check_inv_009_collateral_covers_debt user env s).1 ≠ Err v.
Proof.
  intros Hset H. unfold check_inv_009_collateral_covers_debt in H.
  apply infallible_Err in H as (hf & s1 & Hh & H); [|apply _].
  destruct (10000 <=? hf) eqn:Hhigh; [|done].
  apply infallible_Err in H as (cv & s2 & Hcv & H); [|apply _].
  apply infallible_Err in H as (dv & s3 & Hdv & [[Hpos Hlt]%andb_true_iff _]%reject_if_Err); [|apply _].
  apply get_health_factor_Ok in Hh as (p & Hp & ->); [|done].
  pose proof (user_debt_same _ _ _ _ _ Hp) as Hs. pose proof (proj1 Hs) as He.
  unfold get_collateral_value in Hcv. apply bind_Ok in Hcv as (c & s0 & [-> ->]%gets_Ok & Hcv).
  apply collateral_value_Ok in Hcv as [-> ->].
  unfold get_debt_value in Hdv. apply bind_Ok in Hdv as (p' & s0 & Hp' & Hdv).
  pose proof (user_debt_again _ _ _ _ _ _ _ Hs Hp Hp') as ->.
  pose proof (user_debt_equiv _ _ _ _ _ Hp') as He'.
  apply debt_value_Ok in Hdv as [-> _].
  rewrite !(asset_value_equiv env s s1), (asset_value_equiv env s s0) in * by (done || by etrans).
  assert (get_user_collateral s1 user = get_user_collateral s user) as Hc
    by (unfold get_user_collateral; by rewrite He).
  rewrite Hc in *. fold (user_cv env s user) in *. fold (position_dv env s p) in *. zbool.
  apply health_of_safe in Hhigh as [? ?]; [lia|done|apply asset_value_range|done].
Qed.

(** What the view of the liquidatable amount returns for the debt [p]. *)
Definition max_liquidatable (env : Env) (s : LState) (user : Address) (p : DebtPosition) : Z :=
  let hf := health_of s (user_cv env s user) (position_dv env s p) true in
  if debt_sum p <=? 0 then 0
  else if (hf =? 0) || (HEALTH_FACTOR_SCALE <=? hf) then 0
  else default 0 (i256_to_i128 (debt_sum p * get_close_factor_bps s / 10000)).

Lemma liquidation_view_Ok {E} user env s r s' p s1 :
  settings_ok s → get_user_debt (E := E) user env s = (Ok p, s1) →
  get_max_liquidatable_amount (E := E) user env s = (Ok r, s') → r = max_liquidatable env s user p.
Proof.
  intros Hset Hp H. unfold get_max_liquidatable_amount in H.
  apply bind_Ok in H as (p' & s2 & Hp' & H). rewrite Hp in Hp'. injection Hp' as <- <-.
  pose proof (user_debt_equiv _ _ _ _ _ Hp) as Hs. unfold max_liquidatable.
  destruct (debt_sum p <=? 0) eqn:Hd; [by run_inv H|]. zbool.
  apply bind_Ok in H as (c & s0 & [-> ->]%gets_Ok & H).
  apply bind_Ok in H as (cv & s2 & [-> ->]%collateral_value_Ok & H).
  apply bind_Ok in H as (dv & s2 & [-> ->]%debt_value_Ok & H).
  apply bind_Ok in H as (hf & s2 & Hhf & H).
  apply compute_health_factor_Ok in Hhf as [-> ->];
    [|by apply (settings_ok_equiv s)|apply asset_value_range].
  rewrite !(asset_value_equiv env s s1), (health_of_equiv s s1) in H by done.
  assert (get_user_collateral s1 user = get_user_collateral s user) as Hc
    by (unfold get_user_collateral; by rewrite Hs).
  rewrite Hc in H. fold (user_cv env s user) (position_dv env s p) in H.
  destruct (_ || _) eqn:Hcond in H; rewrite Hcond; [by run_inv H|].
  apply bind_Ok in H as (cf & s2 & [-> ->]%gets_Ok & H). run_inv H.
  assert (get_close_factor_bps s1 = get_close_factor_bps s) as Hcf by (by rewrite Hs).
  rewrite Hcf in *. pose proof (so_close s Hset).
  match goal with H : i256_mul_div _ _ _ = Some _ |- _ => apply i256_mul_div_Some in H as ->; [done|lia..] end.
Qed.

(** ** Properties *)

(** The health factor is the no-debt constant without debt, zero for a debt
    without a price, and otherwise, at one or above it, the threshold-weighted
    collateral value covers the debt value; short of saturation it is at least
    one exactly when it does. *)
Theorem health_factor_meaning user env s hf s' p :
  settings_ok s →
  get_user_debt (E := BorrowError) user env s = (Ok p, s') →
  get_health_factor (E := BorrowError) user env s = (Ok hf, s') →
  let cv := user_cv env s user in
  let dv := position_dv env s p in
  (debt_sum p ≤ 0 → hf = HEALTH_FACTOR_NO_DEBT) ∧
  (0 < debt_sum p → dv = 0 → hf = 0) ∧
  (0 < dv → HEALTH_FACTOR_SCALE ≤ hf → dv ≤ weighted_value s cv) ∧
  (0 < dv → weighted_value s cv * HEALTH_FACTOR_SCALE ≤ I128_MAX →
     (HEALTH_FACTOR_SCALE ≤ hf ↔ dv ≤ weighted_value s cv)).
Proof.
  intros Hset Hp Hh cv dv.
  apply get_health_factor_Ok in Hh as (p' & Hp' & ->); [|done].
  rewrite Hp in Hp'. injection Hp' as ->. fold cv. fold dv.
  assert (0 ≤ cv) as Hcv by apply asset_value_range.
  split_and!.
  - intros Hle. unfold dv. rewrite (no_debt_no_value env s p' Hle), (proj2 (Z.ltb_ge _ _)) by done.
    done.
  - intros Hlt ->. by rewrite (proj2 (Z.ltb_lt _ _)).
  - intros Hdv Hhf. by apply health_of_safe in Hhf as [? _].
  - intros Hdv Hr. apply health_of_covers; try done.
    by eapply positive_value_oracle.
Qed.

(** The liquidatable amount is never negative and never more than the debt;
    it is positive only for a priced position whose health factor is positive
    and below one, and then it is the close factor's share of the debt. *)
Theorem liquidation_is_limited user env s r s' p s1 :
  settings_ok s → in_i128 r = true →
  get_user_debt (E := BorrowError) user env s = (Ok p, s1) →
  get_max_liquidatable_amount (E := BorrowError) user env s = (Ok r, s') →
  0 ≤ r ∧ r ≤ Z.max 0 (debt_sum p) ∧
  (0 < r → r = debt_sum p * get_close_factor_bps s / 10000 ∧
     0 < position_dv env s p ∧
     0 < health_of s (user_cv env s user) (position_dv env s p) true < HEALTH_FACTOR_SCALE).
Proof.
  intros Hset Hr Hp H. apply (liquidation_view_Ok _ _ _ _ _ _ _ Hset Hp) in H as ->. unfold max_liquidatable.
  destruct (Z.leb_spec (debt_sum p) 0) as [|Hd]; [lia|]. destruct (_ || _) eqn:Hcond; [lia|]. zbool.
  pose proof (so_close s Hset).
  set (q := debt_sum p * _ / 10000).
  assert (0 ≤ q) by (apply Z.div_pos; nia).
  assert (q ≤ debt_sum p) by (apply Z.div_le_upper_bound; nia).
  pose proof (debt_sum_max p) as Hmax.
  unfold i256_to_i128. rewrite fit_in by (apply in_i128_spec; rewrite I128_MIN_eq; lia). simpl.
  split_and!; [done|lia|]. intros _. split; [done|].
  assert (0 < position_dv env s p) as Hdv.
  { destruct (Z_lt_le_dec 0 (position_dv env s p)) as [|Hle]; [done|].
    unfold health_of in *. rewrite (proj2 (Z.leb_le _ _)) in * by done. lia. }
  split; [done|]. split; [|done].
  pose proof (health_of_nonneg s (user_cv env s user) (position_dv env s p) true Hset
    (proj1 (asset_value_range _ _ _ _))). lia.
Qed.

(** For a non-negative repayment the liquidation incentive view changes
    nothing, returns at least the repayment and, short of saturation, at most
    twice the repayment. *)
Theorem liquidation_bonus_bounds repay_amount env s r s' :
  settings_ok s → 0 ≤ repay_amount →
  get_liquidation_incentive_amount (E := BorrowError) repay_amount env s = (Ok r, s') →
  s' = s ∧ Z.min repay_amount I128_MAX ≤ r ∧ (r < I128_MAX → r ≤ 2 * repay_amount).
Proof.
  intros [_ _ Hi] Hr H. unfold get_liquidation_incentive_amount in H.
  destruct (repay_amount <=? 0) eqn:H0; [run_inv H; zbool; split_and!; [done|rlia..]|]. zbool.
  run_inv H. checked_facts. subst. split; [done|].
  match goal with H : i256_mul_div _ _ _ = Some _ |- _ => apply i256_mul_div_Some in H as ->; [|lia..] end.
  set (q := repay_amount * _ / 10000).
  assert (repay_amount ≤ q) by (apply Z.div_le_lower_bound; nia).
  assert (q ≤ 2 * repay_amount) by (apply Z.div_le_upper_bound; nia).
  unfold i256_to_i128. destruct (fit _ _) as [v|] eqn:E; simpl; [|lia].
  apply fit_Some in E as [_ ->]. lia.
Qed.

(** A health factor below one says that the collateral, weighted by the
    threshold, is worth less than the debt - or that there is no price for the
    debt, or no room for the quotient. *)
Lemma low_health_meaning env s user p :
  settings_ok s → user_health env s user p < 10000 →
  0 < debt_sum p ∧
  (position_dv env s p = 0 ∨ weighted_value s (user_cv env s user) < position_dv env s p ∨
   I128_MAX < weighted_value s (user_cv env s user) * HEALTH_FACTOR_SCALE / position_dv env s p).
Proof.
  intros Hset Hlow. split; [by apply low_health_has_debt in Hlow|].
  pose proof (asset_value_range env s (debt_sum p) (dp_asset p)) as Hdv. fold (position_dv env s p) in Hdv.
  destruct (Z.eq_dec (position_dv env s p) 0) as [|Hne]; [by left|right].
  destruct (positive_value_oracle env s (debt_sum p) (dp_asset p)) as [[o Ho] _]; [unfold position_dv in *; lia|].
  unfold user_health, health_of in Hlow. rewrite Ho, (proj2 (Z.leb_gt _ _)) in Hlow by lia.
  pose proof (asset_value_range env s (bc_amount (get_user_collateral s user)) (bc_asset (get_user_collateral s user))) as Hcv.
  fold (user_cv env s user) in Hcv. pose proof (so_threshold s Hset) as Ht.
  assert (0 ≤ weighted_value s (user_cv env s user)) as Hw by (apply Z.div_pos; nia).
  set (w := weighted_value s (user_cv env s user)) in *. set (dv := position_dv env s p) in *. unfold HEALTH_FACTOR_SCALE in *.
  assert (0 ≤ w * 10000 / dv) by (apply Z.div_pos; lia).
  destruct (Z_lt_le_dec I128_MAX (w * 10000 / dv)) as [|Hfit]; [by right|left].
  unfold i256_to_i128 in Hlow. rewrite fit_in in Hlow by (apply in_i128_spec; rewrite I128_MIN_eq; lia). simpl in Hlow.
  apply Z.lt_nge. intros Hge. assert (10000 ≤ w * 10000 / dv) by (apply Z.div_le_lower_bound; lia). lia.
Qed.


(** ** Examples *)

(** Alice owes 5000 dollars against 7500 of gold, quoted at 2, at the default
    80% threshold. *)
Definition priced : LState := final (set_oracle admin feed) (demo_env 100) variable_market.

Lemma priced_settings : settings_ok priced.
Proof. by split. Qed.

Definition alice_debt : DebtPosition := mkDebtPosition 5000 0 100 usd VariableRate 0.

Lemma health_factor_meaning_witness :
  let cv := user_cv (demo_env 100) priced alice in
  let dv := position_dv (demo_env 100) priced alice_debt in
  (debt_sum alice_debt ≤ 0 → 24000 = HEALTH_FACTOR_NO_DEBT) ∧
  (0 < debt_sum alice_debt → dv = 0 → 24000 = 0) ∧
  (0 < dv → HEALTH_FACTOR_SCALE ≤ 24000 → dv ≤ weighted_value priced cv) ∧
  (0 < dv → weighted_value priced cv * HEALTH_FACTOR_SCALE ≤ I128_MAX →
     (HEALTH_FACTOR_SCALE ≤ 24000 ↔ dv ≤ weighted_value priced cv)).
Proof.
  apply (health_factor_meaning alice (demo_env 100) priced 24000 priced alice_debt).
  - apply priced_settings.
  - vm_compute. reflexivity.
  - vm_compute. reflexivity.
Defined.

(** Gold has fallen to 0.8: the position can be liquidated up to one half. *)
Definition slump (o a : Address) : option Z :=
  if bool_decide (a = usd) then Some 100000000 else Some 80000000.
Definition slump_env : Env := mkEnv 100 7 (λ _, true) slump (λ _ _ _ _, None).

Lemma liquidation_is_limited_witness :
  0 ≤ 2500 ∧ 2500 ≤ Z.max 0 (debt_sum alice_debt) ∧
  (0 < 2500 → 2500 = debt_sum alice_debt * get_close_factor_bps priced / 10000 ∧
     0 < position_dv slump_env priced alice_debt ∧
     0 < health_of priced (user_cv slump_env priced alice) (position_dv slump_env priced alice_debt) true
       < HEALTH_FACTOR_SCALE).
Proof.
  apply (liquidation_is_limited alice slump_env priced 2500 priced alice_debt priced).
  - apply priced_settings.
  - vm_compute. reflexivity.
  - vm_compute. reflexivity.
  - vm_compute. reflexivity.
Defined.

Lemma liquidation_bonus_bounds_witness :
  priced = priced ∧ Z.min 2500 I128_MAX ≤ 2750 ∧ (2750 < I128_MAX → 2750 ≤ 2 * 2500).
Proof.
  apply (liquidation_bonus_bounds 2500 (demo_env 100) priced 2750 priced).
  - apply priced_settings.
  - lia.
  - vm_compute. reflexivity.
Defined.

Lemma priced_rates : rates_nonneg priced.
Proof. apply fresh_rates; vm_compute; reflexivity. Qed.

Lemma priced_debt : debt_ok (st_borrow priced).
Proof.
  apply (debt_ok_ext (st_borrow variable_market)); [..|apply variable_market_ok];
    try intros []; vm_compute; reflexivity.
Qed.

