(* ===== verification/Specification.v ===== *)
(** * Specification: the lending contract's own reference functions ([lending/src/spec])

    The folder [spec] of the contract holds small reference implementations with
    numbered properties, which its tests try on a few inputs.  Each is a Module
    here, with its properties for all inputs - or a counterexample - and the
    relation to the function of the contract it is a reference for.  The rewards
    of [lending/src/rewards.rs] are modelled beside their reference. *)

From S2P Require Import Prelude Host LendingTypes Pause BorrowStorage InterestRate RiskMonitor.
From S2P Require Import Borrow Scenario Interest DebtAccounting Vault FlashLoan Views.

(** ** [spec/interest.rs]

    Simple interest at five per cent, in 128 bits, as a reference for
    [calculate_interest], which uses 256 bits. *)
Module InterestSpec.

Definition INTEREST_RATE_PER_YEAR : Z := 500.
Definition BPS_DIVISOR : Z := 10000.
Definition MAX_SAFE_PRINCIPAL : Z := Z.quot I128_MAX INTEREST_RATE_PER_YEAR.

Definition reference_interest (principal elapsed_secs : Z) : option Z :=
  if (principal =? 0) || (elapsed_secs =? 0) then Some 0
  else
    pr ← checked_mul principal INTEREST_RATE_PER_YEAR;
    prt ← checked_mul pr elapsed_secs;
    divisor ← checked_mul BPS_DIVISOR SECONDS_PER_YEAR;
    Some (Z.quot prt divisor).

(** The two divisions of the contract and the one of the reference agree. *)
Lemma reference_interest_Some p t v :
  reference_interest p t = Some v →
  v = accrue p INTEREST_RATE_PER_YEAR t ∧
  (p = 0 ∨ t = 0 ∨ in_i128 (p * INTEREST_RATE_PER_YEAR) = true ∧ in_i128 (p * INTEREST_RATE_PER_YEAR * t) = true).
Proof.
  unfold reference_interest, accrue. destruct (_ || _) eqn:Hz; intros H.
  - injection H as <-. apply orb_true_iff in Hz as [->%Z.eqb_eq| ->%Z.eqb_eq]; [|rewrite Z.mul_0_r]; auto.
  - apply bind_Some in H as (pr & Hpr & H). apply bind_Some in H as (prt & Hprt & H).
    apply bind_Some in H as (d & Hd & H). checked_facts. subst. injection H as <-.
    rewrite Z.quot_quot by (unfold SECONDS_PER_YEAR; lia). auto.
Qed.

(** I-01 to I-05 and I-07: no interest without principal or time; never negative;
    more for more principal and more time; in a year at most five per cent, and
    less than the principal. *)
Theorem reference_interest_properties p p' t t' v v' :
  reference_interest p t = Some v → reference_interest p' t' = Some v' → 0 ≤ p ≤ p' → 0 ≤ t ≤ t' →
  (p = 0 ∨ t = 0 → v = 0) ∧ 0 ≤ v ≤ v' ∧ (0 < p → t ≤ SECONDS_PER_YEAR → 20 * v ≤ p ∧ v < p).
Proof.
  intros [-> _]%reference_interest_Some [-> _]%reference_interest_Some Hp Ht. unfold INTEREST_RATE_PER_YEAR.
  assert (0 ≤ accrue p 500 t) as Hnn by (apply accrue_nonneg; lia).
  split_and!; [|done|by apply accrue_mono; lia|].
  - unfold accrue. intros [-> | ->]; [done|]. by rewrite Z.mul_0_r.
  - intros Hpos Hy. assert (accrue p 500 t * 20 ≤ p); [|lia].
    unfold accrue, SECONDS_PER_YEAR in *. rewrite Z.quot_quot, quot_pos by lia.
    pose proof (Z.mul_div_le (p * 500 * t) (10000 * 31536000)). nia.
Qed.

(** Where the reference has a value, the contract's 256-bit computation at that
    rate has the same; and it has one wherever the reference overflows. *)
Theorem reference_interest_is_prorated p t :
  in_i128 p = true → in_u64 t = true →
  prorate p INTEREST_RATE_PER_YEAR t = Some (accrue p INTEREST_RATE_PER_YEAR t) ∧
  ∀ v, reference_interest p t = Some v → prorate p INTEREST_RATE_PER_YEAR t = Some v.
Proof.
  intros Hp Ht. assert (prorate p INTEREST_RATE_PER_YEAR t = Some (accrue p INTEREST_RATE_PER_YEAR t)) as H.
  { apply in_i128_spec in Hp. apply in_range_spec in Ht. rewrite I128_MIN_eq in Hp.
    unfold prorate, accrue, INTEREST_RATE_PER_YEAR, i256_mul, i256_div.
    assert (Hfit : ∀ z, - I256_MAX ≤ z ≤ I256_MAX → fit in_i256 z = Some z) by (intros z Hz; unfold I256_MAX in *; apply fit_in; rlia).
    unfold I128_MAX, U64_MAX in *. assert (I256_MAX = 2 ^ 255 - 1) as Hm by done.
    assert (- (2 ^ 137) ≤ p * 500 ≤ 2 ^ 137) by lia.
    assert (- (2 ^ 201) ≤ p * 500 * t ≤ 2 ^ 201) by (split; nia).
    rewrite Hfit by lia. cbn [mbind option_bind]. rewrite Hfit by lia. cbn [mbind option_bind].
    assert (Hq : ∀ a b, 0 < b → - (2 ^ 201) ≤ a ≤ 2 ^ 201 → - (2 ^ 201) ≤ Z.quot a b ≤ 2 ^ 201).
    { intros a b Hb Ha. pose proof (Z.quot_le_mono a (2 ^ 201) b Hb ltac:(lia)). pose proof (Z.quot_le_mono (- (2 ^ 201)) a b Hb ltac:(lia)).
      rewrite Z.quot_opp_l in * by lia. pose proof (Z.quot_le_upper_bound (2 ^ 201) b (2 ^ 201)). nia. }
    cbn [Z.eqb]. rewrite Hfit by (pose proof (Hq (p * 500 * t) 10000); lia). cbn [mbind option_bind].
    unfold SECONDS_PER_YEAR. cbn [Z.eqb]. rewrite Hfit; [done|].
    pose proof (Hq (p * 500 * t) 10000). pose proof (Hq (Z.quot (p * 500 * t) 10000) 31536000). lia. }
  split; [done|]. intros v [-> _]%reference_interest_Some. done.
Qed.

(** I-06: the principal that the reference calls the largest safe one overflows
    it after two seconds; it is the product with the time that has to fit. *)
Theorem max_safe_principal_overflows :
  reference_interest MAX_SAFE_PRINCIPAL 2 = None ∧ is_Some (prorate MAX_SAFE_PRINCIPAL INTEREST_RATE_PER_YEAR 2) ∧
  ∀ p t, 0 < p → 0 < t → (reference_interest p t = None ↔ I128_MAX < p * INTEREST_RATE_PER_YEAR * t).
Proof.
  split; [done|]. split; [by vm_compute; eexists|]. intros p t Hp Ht.
  unfold reference_interest. rewrite (proj2 (Z.eqb_neq p 0)), (proj2 (Z.eqb_neq t 0)) by lia. cbn [orb].
  unfold checked_mul, INTEREST_RATE_PER_YEAR. split.
  - destruct (fit in_i128 (p * 500)) as [x|] eqn:Hx; cbn [mbind option_bind].
    + apply fit_Some in Hx as [_ ->]. destruct (fit in_i128 (p * 500 * t)) eqn:Hy; [done|]. intros _.
      apply fit_None in Hy. rlia.
    + intros _. apply fit_None in Hx. rlia.
  - intros Hlt. destruct (fit in_i128 (p * 500)) as [x|] eqn:Hx; [|done]. apply fit_Some in Hx as [_ ->]. cbn [mbind option_bind].
    destruct (fit in_i128 (p * 500 * t)) as [y|] eqn:Hy; [|done]. apply fit_Some in Hy as [Hy _]. rlia.
Qed.

(** The rate of the contract is no constant: where nothing is borrowed it is one
    per cent. *)
Example rate_is_not_flat :
  let p := mkDebtPosition 1000000 0 0 usd VariableRate 0 in
  (calculate_interest p (demo_env SECONDS_PER_YEAR) market).1 = Ok 10000 ∧
  reference_interest 1000000 SECONDS_PER_YEAR = Some 50000.
Proof. vm_compute. done. Qed.

(** The contract charges what the reference says where its rate is five per cent
    and no stability fee is due. *)
Theorem contract_interest_matches_reference p env s r s' v :
  calculate_interest p env s = (Ok r, s') → dp_borrowed_amount p ≠ 0 →
  (position_rate p env s).1 = Ok INTEREST_RATE_PER_YEAR → stability_fee env s p = 0 →
  reference_interest (dp_borrowed_amount p) (elapsed env p) = Some v → r = v.
Proof.
  intros H Hp Hrate Hfee [-> _]%reference_interest_Some.
  apply calculate_interest_Ok in H as (rate & s1 & Hr & ->); [|done]. rewrite Hr in Hrate. cbn in Hrate. injection Hrate as ->. lia.
Qed.
End InterestSpec.

(** ** [spec/collateral.rs] *)
Module CollateralSpec.

Inductive CollateralError : Type := CS_InsufficientCollateral | CS_Overflow | CS_InvalidAmount.

Definition reference_validate_collateral_ratio (collateral borrow : Z) : CollateralError + unit :=
  if borrow =? 0 then inr tt
  else
    match checked_mul borrow COLLATERAL_RATIO_MIN with
    | None => inl CS_Overflow
    | Some scaled =>
        match checked_div scaled 10000 with
        | None => inl CS_InvalidAmount
        | Some min_collateral => if collateral <? min_collateral then inl CS_InsufficientCollateral else inr tt
        end
    end.

(** The contract's error for one of the reference *)
Definition as_borrow_error (r : CollateralError + unit) : res BorrowError unit :=
  match r with
  | inr _ => Ok tt
  | inl CS_InsufficientCollateral => Err BE_InsufficientCollateral
  | inl CS_Overflow => Err BE_Overflow
  | inl CS_InvalidAmount => Err BE_InvalidAmount
  end.

(** The reference mirrors the contract, on every branch - except that without a
    loan it accepts a negative collateral. *)
Theorem ratio_check_is_the_reference collateral borrow env s :
  (validate_collateral_ratio collateral borrow env s).1 =
  if (borrow =? 0) && (collateral <? 0) then Err BE_InsufficientCollateral
  else as_borrow_error (reference_validate_collateral_ratio collateral borrow).
Proof.
  unfold validate_collateral_ratio, reference_validate_collateral_ratio.
  destruct (Z.eqb_spec borrow 0) as [->|Hb]; cbn [andb].
  - rewrite bind_eq. change (checked_mul 0 _) with (Some 0). cbn [ok_or mret M_ret]. rewrite bind_eq.
    change (checked_div 0 10000) with (Some 0). cbn [ok_or mret M_ret]. unfold reject_if. by destruct (collateral <? 0).
  - destruct (checked_mul borrow _) as [scaled|]; [|done]. rewrite bind_eq. cbn [ok_or mret M_ret]. rewrite bind_eq.
    destruct (checked_div scaled 10000) as [m|]; [|done]. cbn [ok_or mret M_ret]. unfold reject_if. by destruct (collateral <? m).
Qed.

(** C-01, C-03, C-05, C-06: below the overflow, exactly what is short of the
    required collateral rounded down is rejected. *)
Theorem ratio_is_rounded_down collateral borrow :
  0 ≤ borrow → borrow * COLLATERAL_RATIO_MIN ≤ I128_MAX → 0 ≤ collateral →
  reference_validate_collateral_ratio collateral borrow =
    if collateral <? borrow * COLLATERAL_RATIO_MIN / 10000 then inl CS_InsufficientCollateral else inr tt.
Proof.
  intros Hb Hmax Hc. unfold reference_validate_collateral_ratio. destruct (Z.eqb_spec borrow 0) as [->|Hne].
  - rewrite (proj2 (Z.ltb_ge _ _)); [done|]. by cbn.
  - unfold COLLATERAL_RATIO_MIN in *. rewrite checked_mul_fits by rlia. rewrite checked_div_fits by lia. done.
Qed.

(** C-02 fails: one unit of collateral is enough for a loan of one, since the
    half unit is rounded away. *)
Example below_150_per_cent_is_accepted : reference_validate_collateral_ratio 1 1 = inr tt ∧ 1 * 10000 < 1 * COLLATERAL_RATIO_MIN.
Proof. by vm_compute. Qed.
End CollateralSpec.

(** ** [spec/accounting.rs]

    One user's debt and the total, with exclusive access: what is written before
    an error stays written. *)
Module AccountingSpec.

Inductive AccountingError : Type := SA_DebtCeilingReached | SA_Overflow | SA_RepayAmountTooHigh | SA_InvalidAmount.

Record AccountingState : Type := mkAccountingState {
  as_total_debt : Z;
  as_debt_ceiling : Z;
  as_user_principal : Z;
  as_user_interest : Z;
}.
#[export] Instance AccountingState_upd : Updatable AccountingState := λ s,
  mkAccountingState (as_total_debt s) (as_debt_ceiling s) (as_user_principal s) (as_user_interest s).

Definition new_accounting (ceiling : Z) : AccountingState := mkAccountingState 0 ceiling 0 0.

Abbreviation AM := (M AccountingState AccountingError) (only parsing).

Definition apply_borrow (amount : Z) : AM unit :=
  reject_if (amount <=? 0) SA_InvalidAmount ;;
  total_debt ← gets as_total_debt;
  new_total ← ok_or (checked_add total_debt amount) SA_Overflow;
  debt_ceiling ← gets as_debt_ceiling;
  reject_if (debt_ceiling <? new_total) SA_DebtCeilingReached ;;
  user_principal ← gets as_user_principal;
  new_user ← ok_or (checked_add user_principal amount) SA_Overflow;
  modify (λ s, s <| as_total_debt := new_total |> <| as_user_principal := new_user |>).

Definition pay_interest (amount : Z) : AM Z :=
  interest ← gets as_user_interest;
  if interest <=? amount then
    remaining ← unwrap (checked_sub amount interest);
    modify (λ s, s <| as_user_interest := 0 |>) ;;
    mret remaining
  else
    left ← unwrap (checked_sub interest amount);
    modify (λ s, s <| as_user_interest := left |>) ;;
    mret 0.

Definition apply_repay (amount : Z) : AM unit :=
  reject_if (amount <=? 0) SA_InvalidAmount ;;
  remaining ← pay_interest amount;
  if 0 <? remaining then
    user_principal ← gets as_user_principal;
    reject_if (user_principal <? remaining) SA_RepayAmountTooHigh ;;
    left ← unwrap (checked_sub user_principal remaining);
    modify (λ s, s <| as_user_principal := left |>) ;;
    total_debt ← gets as_total_debt;
    total ← ok_or (checked_sub total_debt remaining) SA_Overflow;
    modify (λ s, s <| as_total_debt := total |>)
  else mret tt.

(** *** What the operations do *)

(** INV-1, INV-2, INV-3 and INV-6; the state of one user. *)
Record sound (s : AccountingState) : Prop := {
  sn_total : as_total_debt s = as_user_principal s;
  sn_principal : 0 ≤ as_user_principal s;
  sn_interest : 0 ≤ as_user_interest s;
  sn_ceiling : as_total_debt s ≤ as_debt_ceiling s;
  sn_range : as_debt_ceiling s ≤ I128_MAX ∧ as_user_interest s ≤ I128_MAX;
}.

(** What a repayment leaves of interest and principal *)
Definition after_interest (amount interest : Z) : Z := if interest <=? amount then 0 else interest - amount.
Definition principal_part (amount interest : Z) : Z := Z.max 0 (amount - interest).

Lemma apply_repay_run amount env s :
  0 < amount ≤ I128_MAX → 0 ≤ as_user_interest s ≤ I128_MAX → 0 ≤ as_user_principal s ≤ I128_MAX →
  as_user_principal s ≤ as_total_debt s ≤ I128_MAX →
  apply_repay amount env s =
    let paid := s <| as_user_interest := after_interest amount (as_user_interest s) |> in
    let rest := principal_part amount (as_user_interest s) in
    if as_user_principal s <? rest then (Err SA_RepayAmountTooHigh, paid)
    else (Ok tt, paid <| as_user_principal := as_user_principal s - rest |> <| as_total_debt := as_total_debt s - rest |>).
Proof.
  intros Ha Hi Hp Ht. unfold apply_repay, pay_interest, after_interest, principal_part. cbv zeta.
  destruct s as [t c p i]. cbn in *. rewrite (proj2 (Z.leb_gt amount _)) by lia. run_fwd. cbn.
  destruct (Z.leb_spec i amount).
  - rewrite checked_sub_fits by rlia. run_fwd. cbn. destruct (Z.ltb_spec 0 (amount - i)).
    + rewrite Z.max_r by lia. run_fwd. cbn. destruct (Z.ltb_spec p (amount - i)); [done|]. run_fwd. cbn.
      rewrite checked_sub_fits by rlia. run_fwd. cbn. rewrite checked_sub_fits by rlia. done.
    + rewrite Z.max_l by lia. rewrite (proj2 (Z.ltb_ge _ _)), !Z.sub_0_r by lia. done.
  - rewrite checked_sub_fits by rlia. run_fwd. cbn. rewrite Z.max_l by lia. rewrite (proj2 (Z.ltb_ge p _)), !Z.sub_0_r by lia. done.
Qed.

Lemma apply_borrow_run amount env s :
  0 < amount → 0 ≤ as_user_principal s ≤ as_total_debt s → as_debt_ceiling s ≤ I128_MAX →
  as_total_debt s + amount ≤ as_debt_ceiling s →
  apply_borrow amount env s =
    (Ok tt, s <| as_total_debt := as_total_debt s + amount |> <| as_user_principal := as_user_principal s + amount |>).
Proof.
  intros Ha Hp Hc Ht. unfold apply_borrow. rewrite bind_eq, (proj2 (Z.leb_gt _ _)) by lia. cbn [reject_if mret M_ret].
  rewrite bind_eq. cbn [gets]. rewrite checked_add_fits by rlia. rewrite bind_eq. cbn [ok_or mret M_ret].
  rewrite bind_eq. cbn [gets]. rewrite bind_eq, (proj2 (Z.ltb_ge _ _)) by lia. cbn [reject_if mret M_ret].
  rewrite bind_eq. cbn [gets]. rewrite checked_add_fits by rlia. done.
Qed.

Inductive AccountingCall : Type := ABorrow (amount : Z) | ARepay (amount : Z).
Definition accounting_call (c : AccountingCall) : AM unit :=
  match c with ABorrow n => apply_borrow n | ARepay n => apply_repay n end.
Definition call_amount (c : AccountingCall) : Z := match c with ABorrow n | ARepay n => n end.

(** The calls one after the other, whether they fail or not *)
Definition run_calls (env : Env) (cs : list AccountingCall) (s : AccountingState) : AccountingState :=
  foldl (λ s c, (accounting_call c env s).2) s cs.

Lemma call_sound c env s : sound s → call_amount c ≤ I128_MAX → sound (accounting_call c env s).2.
Proof.
  intros Hs Ha. destruct Hs as [H1 H2 H3 H4 H5], c as [n|n]; cbn [accounting_call call_amount] in *.
  - destruct (Z.leb_spec n 0).
    { unfold apply_borrow. rewrite bind_eq, (proj2 (Z.leb_le _ _)) by done. by split. }
    destruct (Z.leb_spec (as_total_debt s + n) (as_debt_ceiling s)).
    { rewrite apply_borrow_run by lia. split; cbn; lia. }
    unfold apply_borrow. rewrite bind_eq, (proj2 (Z.leb_gt _ _)) by done. cbn [reject_if mret M_ret]. rewrite bind_eq. cbn [gets].
    rewrite bind_eq. destruct (checked_add _ _) as [t|] eqn:Ht; cbn [ok_or mret M_ret]; [|by split].
    apply checked_add_Some in Ht as [-> _]. rewrite bind_eq. cbn [gets]. rewrite bind_eq, (proj2 (Z.ltb_lt _ _)) by done. by split.
  - destruct (Z.leb_spec n 0).
    { unfold apply_repay. rewrite bind_eq, (proj2 (Z.leb_le _ _)) by done. by split. }
    rewrite apply_repay_run by lia. cbv zeta. unfold after_interest, principal_part.
    destruct (as_user_principal s <? _) eqn:Hlt; zbool; split; cbn; destruct (Z.leb_spec (as_user_interest s) n); lia.
Qed.

(** INV-1, INV-2, INV-3, INV-6 hold after any calls, also after failed ones. *)
Theorem accounting_invariants ceiling env cs :
  0 ≤ ceiling ≤ I128_MAX → Forall (λ c, call_amount c ≤ I128_MAX) cs → sound (run_calls env cs (new_accounting ceiling)).
Proof.
  intros Hc Hf. assert (Hn : sound (new_accounting ceiling)) by (split; cbn; (lia || (unfold I128_MAX in *; lia))).
  unfold run_calls. generalize dependent (new_accounting ceiling). induction Hf as [|c cs Hc' Hf IH]; intros s Hs; [done|].
  cbn. by apply IH, call_sound.
Qed.

(** A-05: borrowing and repaying it all changes nothing - if no interest is due. *)
Theorem borrow_then_repay_is_identity amount env s :
  sound s → 0 < amount → as_total_debt s + amount ≤ as_debt_ceiling s → as_user_interest s = 0 →
  run_calls env [ABorrow amount; ARepay amount] s = s.
Proof.
  intros [H1 H2 H3 H4 H5] Ha Hc Hi. unfold run_calls. cbn [foldl accounting_call]. rewrite apply_borrow_run by lia. cbn [snd].
  rewrite apply_repay_run by (cbn; lia). cbn. rewrite Hi. unfold principal_part, after_interest. rewrite Z.max_r, Z.sub_0_r by lia.
  rewrite (proj2 (Z.ltb_ge _ _)), (proj2 (Z.leb_le _ _)) by lia. destruct s; cbn in *. subst. rewrite !Z.add_simpl_r. reflexivity.
Qed.

(** A-07 says a repayment that is too high changes nothing; it wipes the interest
    off and then fails.  The host undoes that in the contract. *)
Example over_repayment_wipes_interest env :
  let s := mkAccountingState 50000 I128_MAX 50000 700 in
  apply_repay 60000 env s = (Err SA_RepayAmountTooHigh, s <| as_user_interest := 0 |>).
Proof. by vm_compute. Qed.

(** *** The contract refines the reference *)

(** What the reference keeps, in a state of the contract in which [due] is the
    interest since the position was last written *)
Definition account (user asset : Address) (rt : RateType) (env : Env) (due : Z) (s : LState) : AccountingState :=
  let p := get_debt_position user (Some asset) rt env s in
  mkAccountingState (get_total_debt s) (get_debt_ceiling s) (dp_borrowed_amount p) (dp_interest_accrued p + due).

Lemma stored_position user asset rt env s p :
  debt_map rt (st_borrow s) !! user = Some p → get_debt_position user (Some asset) rt env s = p.
Proof. intros H. unfold get_debt_position. by rewrite H. Qed.

Lemma saved_ceiling now user p b : kBorrowDebtCeiling (saved_debt now user p b) = kBorrowDebtCeiling b.
Proof. unfold saved_debt, store_debt. by destruct (dp_rate_type p). Qed.

Lemma borrow_refines user asset amount ca camt rt env s s' due s1 :
  debt_ok (st_borrow s) → get_debt_ceiling s ≤ I128_MAX →
  calculate_interest (get_debt_position user (Some asset) rt env s) <| dp_rate_type := rt |> env s = (Ok due, s1) →
  borrow_with_rate user asset amount ca camt rt env s = (Ok tt, s') →
  apply_borrow amount env (account user asset rt env due s) = (Ok tt, account user asset rt env 0 s').
Proof.
  intros Hok Hc Hdue H. apply borrow_inner_Ok in H as [He _].
  destruct (be_store _ _ _ _ _ _ _ _ _ He) as (acc & rate & s2 & s3 & Hacc & Hs & _ & _ & _ & Hst).
  rewrite Hdue in Hacc. injection Hacc as <- <-. destruct He as [_ [Ha _] _ _ Hceil _ _ _].
  pose proof (debt_ok_bounds _ user rt Hok) as Hb. rewrite <- (read_principal user (Some asset) rt env s) in Hb by apply Hok.
  fold (get_total_debt s) in Hb. change (stored_total (st_borrow s)) with (get_total_debt s) in Hb.
  rewrite apply_borrow_run by (unfold account; cbn; lia). unfold account. cbn.
  set (p := get_debt_position user (Some asset) rt env s) in *.
  rewrite (stored_position user asset rt env s' (borrowed_position p <| dp_rate_type := rt |> asset rt amount due rate (timestamp env))).
  - assert (get_total_debt s' = get_total_debt s + amount) as -> by (unfold get_total_debt at 1; by rewrite Hst).
    assert (get_debt_ceiling s' = get_debt_ceiling s) as ->.
    { unfold get_debt_ceiling. rewrite Hst. cbn -[saved_debt]. rewrite saved_ceiling.
      by rewrite <- (f_equal (λ x, kBorrowDebtCeiling x.1.1.1) Hs : kBorrowDebtCeiling (st_borrow s) = kBorrowDebtCeiling (st_borrow s3)). }
    cbn. by rewrite Z.add_0_r.
  - rewrite Hst. transitivity (debt_map rt (saved_debt (timestamp env) user
      (borrowed_position p <| dp_rate_type := rt |> asset rt amount due rate (timestamp env)) (st_borrow s3)) !! user); [by destruct rt|].
    rewrite saved_debt_map, decide_True by done. apply lookup_insert_eq.
Qed.

Lemma repay_refines user asset amount rt env s s' due s1 :
  debt_ok (st_borrow s) → amount ≤ I128_MAX → get_total_debt s ≤ I128_MAX →
  let p := get_debt_position user (Some asset) rt env s in
  calculate_interest p <| dp_rate_type := rt |> env s = (Ok due, s1) → 0 ≤ due → dp_interest_accrued p + due ≤ I128_MAX →
  repay_with_rate user asset amount rt env s = (Ok tt, s') →
  apply_repay amount env (account user asset rt env due s) = (Ok tt, account user asset rt env 0 s').
Proof.
  intros Hok Hamt Ht p Hdue Hd0 Hdmax H. apply repay_with_rate_Ok in H.
  destruct (re_store _ _ _ _ _ _ _ H) as (acc & s2 & principal & interest & total & Hacc & Hs & Hsum & Hi & Hle & Hlt & Htot & Hst).
  fold p in Hacc, Hsum, Hle, Hlt, Htot, Hst. rewrite Hdue in Hacc. injection Hacc as <- <-. destruct H as [Ha _ _ _].
  destruct (read_nonneg user (Some asset) rt env s (do_compat _ Hok) (do_nonneg _ Hok)) as [Hp0 Hi0]. fold p in Hp0, Hi0.
  pose proof (debt_ok_bounds _ user rt Hok) as Hb. rewrite <- (read_principal user (Some asset) rt env s) in Hb by apply Hok.
  change (stored_total (st_borrow s)) with (get_total_debt s) in Hb. fold p in Hb. cbn in Hsum, Hle, Hlt, Htot.
  rewrite apply_repay_run by (unfold account; fold p; cbn; lia). unfold account. fold p. cbn.
  rewrite (stored_position user asset rt env s' (settled_position p <| dp_rate_type := rt |> principal interest (timestamp env))).
  - assert (get_total_debt s' = default 0 total) as Ht'.
    { unfold get_total_debt at 1. rewrite Hst. unfold saved_debt, store_debt. by destruct rt. }
    assert (get_debt_ceiling s' = get_debt_ceiling s) as ->.
    { unfold get_debt_ceiling. rewrite Hst, saved_ceiling. cbn.
      by rewrite <- (f_equal (λ x, kBorrowDebtCeiling x.1.1.1) Hs : kBorrowDebtCeiling (st_borrow s) = kBorrowDebtCeiling (st_borrow s1)). }
    rewrite Ht', Htot. unfold after_interest, principal_part. cbn. rewrite Z.add_0_r.
    assert (Hcase : if dp_interest_accrued p + due <=? amount then interest = 0 else principal = dp_borrowed_amount p).
    { destruct (Z.leb_spec (dp_interest_accrued p + due) amount).
      - destruct (decide (principal < dp_borrowed_amount p)) as [Hpl|]; [by apply Hlt|lia].
      - destruct (decide (principal < dp_borrowed_amount p)) as [Hpl|]; [destruct (Hlt Hpl); lia|lia]. }
    destruct (Z.leb_spec (dp_interest_accrued p + due) amount).
    + rewrite Z.max_r by lia. rewrite (proj2 (Z.ltb_ge _ _)) by (destruct (decide (principal < dp_borrowed_amount p)) as [Hpl|]; [destruct (Hlt Hpl); lia|lia]).
      rewrite Hcase. do 2 f_equal. unfold update_field. cbn. f_equal; lia.
    + rewrite Z.max_l by lia. rewrite (proj2 (Z.ltb_ge _ _)) by lia. do 2 f_equal. unfold update_field. cbn. f_equal; lia.
  - rewrite Hst. rewrite saved_debt_map, decide_True by done. apply lookup_insert_eq.
Qed.

(** C31: when no stability fee is negative and the books are consistent, a
    borrow or a repayment of the contract that succeeds is one of the contract's
    own reference model of accounting, on the account of the user at that rate:
    the reference accepts it and ends with the account as the contract has left
    it, the interest due until now added on. *)
Theorem contract_refines_accounting user asset rt c env s s' due s1 :
  let p := get_debt_position user (Some asset) rt env s in
  debt_ok (st_borrow s) → rates_nonneg s → get_debt_ceiling s ≤ I128_MAX → get_total_debt s ≤ I128_MAX → call_amount c ≤ I128_MAX →
  calculate_interest p <| dp_rate_type := rt |> env s = (Ok due, s1) → dp_interest_accrued p + due ≤ I128_MAX →
  (match c with
   | ABorrow amount => ∃ ca camt, borrow_with_rate user asset amount ca camt rt env s = (Ok tt, s')
   | ARepay amount => repay_with_rate user asset amount rt env s = (Ok tt, s')
   end) →
  accounting_call c env (account user asset rt env due s) = (Ok tt, account user asset rt env 0 s').
Proof.
  intros p Hok Hr Hc Ht Ha Hdue Hmax H. destruct c as [n|n]; cbn [accounting_call call_amount] in *.
  - destruct H as (ca & camt & H). by eapply borrow_refines.
  - eapply repay_refines; try done. eapply calculate_interest_nonneg; [done| |exact Hdue].
    by apply (read_nonneg user (Some asset) rt env s (do_compat _ Hok) (do_nonneg _ Hok)).
Qed.

Lemma contract_refines_accounting_witness :
  let env := demo_env 31536100 in
  let s' := final (repay_with_rate alice usd 800 VariableRate) env variable_market in
  ∃ due, 0 < due ∧
    accounting_call (ARepay 800) env (account alice usd VariableRate env due variable_market) =
      (Ok tt, account alice usd VariableRate env 0 s').
Proof.
  intros env s'.
  destruct (calculate_interest (get_debt_position alice (Some usd) VariableRate env variable_market) <| dp_rate_type := VariableRate |>
              env variable_market) as [[due|e|] s1] eqn:Hdue; [|by vm_compute in Hdue..].
  exists due. assert (Hv : Ok due = (calculate_interest (get_debt_position alice (Some usd) VariableRate env variable_market)
    <| dp_rate_type := VariableRate |> env variable_market).1) by (by rewrite Hdue).
  vm_compute in Hv. injection Hv as Hv. split; [rewrite Hv; lia|].
  apply (contract_refines_accounting alice usd VariableRate (ARepay 800) env variable_market s' due s1).
  - apply variable_market_ok.
  - apply fresh_rates; vm_compute; reflexivity.
  - vm_compute. discriminate.
  - vm_compute. discriminate.
  - vm_compute. discriminate.
  - exact Hdue.
  - rewrite Hv. vm_compute. discriminate.
  - vm_compute. reflexivity.
Defined.
End AccountingSpec.

(** ** [spec/health_factor.rs] *)
Module HealthSpec.

(** The health of a position with a debt value, short of its guards *)
Definition scaled_health (collateral_value debt_value liq_threshold_bps : Z) : option Z :=
  w ← checked_mul collateral_value liq_threshold_bps;
  weighted ← checked_div w 10000;
  h ← checked_mul weighted HEALTH_FACTOR_SCALE;
  checked_div h debt_value.

Definition reference_health_factor (collateral_value debt_value : Z) (has_debt : bool) (liq_threshold_bps : Z)
    (oracle_present : bool) : option Z :=
  if debt_value <=? 0 then (if has_debt then None else Some HEALTH_FACTOR_NO_DEBT)
  else if negb oracle_present then None
  else scaled_health collateral_value debt_value liq_threshold_bps.

Lemma scaled_health_Some cv dv bps h :
  0 ≤ cv → 0 < dv → 0 ≤ bps → scaled_health cv dv bps = Some h →
  h = cv * bps / 10000 * HEALTH_FACTOR_SCALE / dv ∧ 0 ≤ cv * bps / 10000 ∧
  cv * bps ≤ I128_MAX ∧ cv * bps / 10000 * HEALTH_FACTOR_SCALE ≤ I128_MAX ∧ 0 ≤ h ≤ I128_MAX.
Proof.
  intros Hcv Hdv Hb H. unfold scaled_health in H.
  apply bind_Some in H as (w & Hw & H). apply bind_Some in H as (q & Hq & H). apply bind_Some in H as (x & Hx & H).
  checked_facts. subst. assert (0 ≤ cv * bps) by nia. rewrite !(quot_pos (cv * bps)) in * by lia.
  assert (0 ≤ cv * bps / 10000) by (apply Z.div_pos; lia).
  unfold HEALTH_FACTOR_SCALE in *. rewrite (quot_pos (_ * 10000)) in * by lia.
  assert (0 ≤ cv * bps / 10000 * 10000 / dv) by (apply Z.div_pos; lia).
  repeat match goal with H : in_i128 _ = true |- _ => apply in_i128_spec in H end.
  split_and!; (done || lia).
Qed.

(** H-03 to H-05 and H-07: the factor is at least one exactly when the weighted
    collateral covers the debt; it does not fall when the collateral rises or the
    debt falls; and it is one when the cover is exact. *)
Theorem reference_health_properties cv dv h cv' dv' h' bps :
  0 ≤ bps → 0 ≤ cv' ≤ cv → 0 < dv ≤ dv' →
  reference_health_factor cv dv true bps true = Some h → reference_health_factor cv' dv' true bps true = Some h' →
  (HEALTH_FACTOR_SCALE ≤ h ↔ dv ≤ cv * bps / 10000) ∧ 0 ≤ h' ≤ h ∧
  (cv * bps = dv * 10000 → h = HEALTH_FACTOR_SCALE).
Proof.
  intros Hb Hcv Hdv H H'. unfold reference_health_factor in H, H'. rewrite (proj2 (Z.leb_gt dv _)) in H by lia. rewrite (proj2 (Z.leb_gt dv' _)) in H' by lia. cbn [negb] in H, H'.
  apply scaled_health_Some in H as (-> & Hw & _ & _ & _), H' as (-> & Hw' & _ & _ & Hh'); try lia.
  unfold HEALTH_FACTOR_SCALE in *. split_and!.
  - split; intros Hle; [pose proof (Z.mul_div_le (cv * bps / 10000 * 10000) dv); nia|apply Z.div_le_lower_bound; nia].
  - lia.
  - transitivity (cv' * bps / 10000 * 10000 / dv); [apply Z.div_le_compat_l; lia|].
    apply Z.div_le_mono; [lia|]. apply Z.mul_le_mono_nonneg_r; [lia|]. apply Z.div_le_mono; nia.
  - intros ->. rewrite Z.div_mul by lia. rewrite Z.mul_comm. apply Z.div_mul. lia.
Qed.

(** H-04 does not survive the overflow: there the reference has no value, which
    its test reads as 0. *)
Example health_overflows : reference_health_factor (2 ^ 116) 1 true 8000 true = None ∧ is_Some (reference_health_factor (2 ^ 90) 1 true 8000 true).
Proof. vm_compute. by eauto. Qed.

(** H-01 and H-02, and the rest: where the reference has a value the contract
    computes it; where it has none because there is a debt and no price or no
    oracle, the contract returns 0. *)
Theorem contract_health_is_the_reference cv dv has_debt env s hf s' :
  settings_ok s → 0 ≤ cv →
  compute_health_factor (E := BorrowError) cv dv has_debt env s = (Ok hf, s') →
  let oracle_present := bool_decide (is_Some (get_oracle s)) in
  let reference := reference_health_factor cv dv has_debt (get_liquidation_threshold_bps s) oracle_present in
  (∀ h, reference = Some h → hf = h) ∧
  (reference = None → (dv ≤ 0 ∧ has_debt = true ∨ oracle_present = false) ∧ hf = 0 ∨
                      I128_MAX < cv * get_liquidation_threshold_bps s ∨
                      I128_MAX < weighted_value s cv * HEALTH_FACTOR_SCALE).
Proof.
  intros Hset Hcv H op reference. apply compute_health_factor_Ok in H as [-> ->]; [|done..].
  unfold reference, reference_health_factor, health_of, weighted_value.
  destruct (Z.leb_spec dv 0) as [Hdv|Hdv]; [destruct has_debt; split; naive_solver|].
  unfold op. destruct (get_oracle s) as [o|]; cbn; [|split; [done|]; intros _; left; auto].
  pose proof (so_threshold s Hset) as Ht. split.
  - intros h Hh. apply scaled_health_Some in Hh as (-> & Hw & _ & Hm & Hh); [|lia..].
    unfold i256_to_i128. rewrite fit_in by rlia. done.
  - intros Hn. right. unfold scaled_health in Hn. assert (0 ≤ cv * get_liquidation_threshold_bps s) by nia.
    destruct (Z_lt_le_dec I128_MAX (cv * get_liquidation_threshold_bps s)) as [|Hm]; [by left|right].
    rewrite checked_mul_fits in Hn by rlia. cbn [mbind option_bind] in Hn. rewrite checked_div_fits in Hn by lia. cbn [mbind option_bind] in Hn.
    apply Z.nle_gt. intros Hm'. assert (0 ≤ cv * get_liquidation_threshold_bps s / 10000) by (apply Z.div_pos; lia).
    unfold HEALTH_FACTOR_SCALE in *. rewrite checked_mul_fits in Hn by rlia. cbn [mbind option_bind] in Hn. by rewrite checked_div_fits in Hn by lia.
Qed.
End HealthSpec.

(** ** [spec/liquidation.rs] *)
Module LiquidationSpec.

Definition local_health_factor (collateral_value debt_value liq_threshold_bps : Z) (oracle_present : bool) : option Z :=
  if debt_value <=? 0 then Some I128_MAX
  else if negb oracle_present then None
  else HealthSpec.scaled_health collateral_value debt_value liq_threshold_bps.

Definition reference_max_liquidatable (total_debt collateral_value debt_value close_factor_bps liq_threshold_bps : Z)
    (oracle_present : bool) : Z :=
  if total_debt <=? 0 then 0
  else
    match local_health_factor collateral_value debt_value liq_threshold_bps oracle_present with
    | None => 0
    | Some h =>
        if (h =? 0) || (HEALTH_FACTOR_SCALE <=? h) then 0
        else match checked_mul total_debt close_factor_bps with Some v => Z.quot v 10000 | None => 0 end
    end.

(** L-01, L-02, L-04, L-05: what is liquidatable is nothing for a healthy position
    or one without debt, never more than the debt, and otherwise the close
    factor's share. *)
Theorem reference_liquidation_properties total cv dv close bps op :
  0 ≤ total ≤ I128_MAX → 0 ≤ close ≤ 10000 →
  let r := reference_max_liquidatable total cv dv close bps op in
  0 ≤ r ≤ total ∧ (total = 0 → r = 0) ∧ (op = false → r = 0) ∧
  (∀ h, local_health_factor cv dv bps op = Some h → HEALTH_FACTOR_SCALE ≤ h → r = 0) ∧
  (0 < r → r = total * close / 10000).
Proof.
  intros Ht Hc r. unfold r, reference_max_liquidatable. destruct (Z.leb_spec total 0) as [|Htot]; [split_and!; lia || done|].
  assert (Hop : op = false → (dv <=? 0) = true ∨ local_health_factor cv dv bps op = None)
    by (unfold local_health_factor; intros ->; destruct (dv <=? 0); auto).
  destruct (local_health_factor cv dv bps op) as [h|] eqn:Hh; [|split_and!; lia || done].
  assert (Hsafe : (h =? 0) || (HEALTH_FACTOR_SCALE <=? h) = true ∨ (op = true ∧ h < HEALTH_FACTOR_SCALE)).
  { destruct ((h =? 0) || (HEALTH_FACTOR_SCALE <=? h)) eqn:Hz; [by left|right]. zbool. split; [|lia]. destruct op; [done|].
    destruct (Hop eq_refl) as [Hd|]; [|done]. unfold local_health_factor in Hh. rewrite Hd in Hh. injection Hh as <-.
    unfold HEALTH_FACTOR_SCALE, I128_MAX in *. lia. }
  destruct ((h =? 0) || _) eqn:Hz; [split_and!; lia || done|]. destruct Hsafe as [|[-> Hlt]]; [done|].
  destruct (checked_mul total close) as [v|] eqn:Hv; [|split_and!; lia || done].
  apply checked_mul_Some in Hv as [-> _]. rewrite quot_pos by nia.
  assert (0 ≤ total * close / 10000) by (apply Z.div_pos; nia).
  assert (total * close / 10000 ≤ total) by (apply Z.div_le_upper_bound; nia).
  split_and!; [lia|lia|lia|done| |done]. intros h' [= <-] ?. lia.
Qed.

(** The contract's view is the reference, as long as the latter's 128-bit products
    do not overflow. *)
Theorem contract_liquidation_is_the_reference user env s r s' p s1 :
  settings_ok s →
  get_user_debt (E := BorrowError) user env s = (Ok p, s1) →
  get_max_liquidatable_amount (E := BorrowError) user env s = (Ok r, s') →
  let cv := user_cv env s user in
  cv * get_liquidation_threshold_bps s ≤ I128_MAX → weighted_value s cv * HEALTH_FACTOR_SCALE ≤ I128_MAX →
  debt_sum p * get_close_factor_bps s ≤ I128_MAX →
  r = reference_max_liquidatable (debt_sum p) cv (position_dv env s p) (get_close_factor_bps s)
        (get_liquidation_threshold_bps s) (bool_decide (is_Some (get_oracle s))).
Proof.
  intros Hset Hp H cv Hm1 Hm2 Hm3. apply (liquidation_view_Ok _ _ _ _ _ _ _ Hset Hp) in H as ->.
  unfold max_liquidatable, reference_max_liquidatable, local_health_factor, health_of. fold cv.
  destruct (Z.leb_spec (debt_sum p) 0); [done|]. pose proof (so_close s Hset). pose proof (so_threshold s Hset).
  assert (0 ≤ cv) as Hcv by apply asset_value_range.
  destruct (Z.leb_spec (position_dv env s p) 0); [done|].
  destruct (get_oracle s) as [o|]; cbn [bool_decide]; [|done]. cbn [negb].
  assert (0 ≤ weighted_value s cv) by (apply Z.div_pos; nia). rewrite bool_decide_true by eauto. cbn [negb].
  unfold HealthSpec.scaled_health. rewrite checked_mul_fits by rlia. cbn [mbind option_bind]. rewrite checked_div_fits by nia.
  cbn [mbind option_bind]. fold (weighted_value s cv). unfold HEALTH_FACTOR_SCALE in *. rewrite checked_mul_fits by rlia. cbn [mbind option_bind].
  rewrite checked_div_fits by lia.
  assert (0 ≤ weighted_value s cv * 10000 / position_dv env s p ≤ weighted_value s cv * 10000)
    by (split; [apply Z.div_pos; lia|apply Z.div_le_upper_bound; nia]).
  unfold i256_to_i128. rewrite fit_in by rlia. cbn [default]. destruct (_ || _); [done|].
  rewrite checked_mul_fits by rlia. rewrite quot_pos by nia.
  assert (0 ≤ debt_sum p * get_close_factor_bps s / 10000 ≤ debt_sum p * get_close_factor_bps s)
    by (split; [apply Z.div_pos; nia|apply Z.div_le_upper_bound; nia]).
  rewrite fit_in by rlia. done.
Qed.
End LiquidationSpec.

(** ** [spec/deposit_spec.rs] *)
Module DepositSpec.

Inductive DepositFailure : Type := DS_InvalidAmount | DS_ExceedsDepositCap | DS_Overflow.

Record DepositState : Type := mkDepositState {
  ds_user_balance : Z;
  ds_total_deposits : Z;
  ds_deposit_cap : Z;
  ds_min_deposit : Z;
}.
#[export] Instance DepositState_upd : Updatable DepositState := λ s,
  mkDepositState (ds_user_balance s) (ds_total_deposits s) (ds_deposit_cap s) (ds_min_deposit s).

Definition new_deposits (cap min : Z) : DepositState := mkDepositState 0 0 cap min.

Definition apply_deposit (amount : Z) : M DepositState DepositFailure unit :=
  s ← gets id;
  reject_if ((amount <=? 0) || (amount <? ds_min_deposit s)) DS_InvalidAmount ;;
  new_total ← ok_or (checked_add (ds_total_deposits s) amount) DS_Overflow;
  reject_if (ds_deposit_cap s <? new_total) DS_ExceedsDepositCap ;;
  new_user ← ok_or (checked_add (ds_user_balance s) amount) DS_Overflow;
  modify (λ s, s <| ds_total_deposits := new_total |> <| ds_user_balance := new_user |>).

(** The deposits of a user in the contract *)
Definition vault_account (user : Address) (s : LState) : DepositState :=
  mkDepositState (balance s user) (get_total_deposits s) (get_deposit_cap s) (get_min_deposit_amount s).

Definition as_deposit_error (e : DepositFailure) : DepositError :=
  match e with
  | DS_InvalidAmount => DE_InvalidAmount
  | DS_ExceedsDepositCap => DE_ExceedsDepositCap
  | DS_Overflow => DE_Overflow
  end.

(** The answer of the contract for one of the reference *)
Definition as_deposit_result (r : res DepositFailure unit * DepositState) : res DepositError Z :=
  match r with
  | (Ok _, v) => Ok (ds_user_balance v)
  | (Err e, _) => Err (as_deposit_error e)
  | (Trap, _) => Trap
  end.

(** D-01 to D-07: a signed deposit while deposits are open is the reference's,
    on every branch: it returns the same error or the new balance, and leaves the
    account as the reference does. *)
Theorem contract_deposit_is_the_reference user asset amount env s :
  authorized env user = true → is_paused s PauseDeposit = false →
  let r := apply_deposit amount env (vault_account user s) in
  let r' := invoke (deposit user asset amount) env s in
  r'.1 = as_deposit_result r ∧ vault_account user r'.2 = r.2.
Proof.
  intros Ha Hp r r'. unfold r', r. rewrite deposit_outcome. cbn [fst snd].
  unfold deposit_verdict, apply_deposit, vault_account. rewrite Ha, Hp. cbn [negb]. run_fwd. cbn.
  destruct (_ || _); [done|]. run_fwd. unfold checked_add, fit.
  destruct (in_i128 (get_total_deposits s + amount)); [|done]. run_fwd.
  destruct (_ <? _); [done|]. run_fwd. destruct (in_i128 (balance s user + amount)); [|done]. run_fwd. cbn.
  split; [done|]. rewrite (balance_write user _ _ s) by done. by rewrite decide_True by done.
Qed.
End DepositSpec.

(** ** [spec/withdraw_spec.rs] *)
Module WithdrawSpec.

Inductive WithdrawFailure : Type :=
  | WS_InvalidAmount | WS_InsufficientCollateral | WS_InsufficientCollateralRatio | WS_Overflow.

Record WithdrawState : Type := mkWithdrawState {
  ws_user_collateral : Z;
  ws_total_deposits : Z;
  ws_outstanding_debt : Z;
  ws_min_withdraw : Z;
}.
#[export] Instance WithdrawState_upd : Updatable WithdrawState := λ s,
  mkWithdrawState (ws_user_collateral s) (ws_total_deposits s) (ws_outstanding_debt s) (ws_min_withdraw s).

Definition new_withdrawals (collateral total debt min : Z) : WithdrawState := mkWithdrawState collateral total debt min.

Definition apply_withdraw (amount : Z) : M WithdrawState WithdrawFailure unit :=
  s ← gets id;
  reject_if ((amount <=? 0) || (amount <? ws_min_withdraw s)) WS_InvalidAmount ;;
  reject_if (ws_user_collateral s <? amount) WS_InsufficientCollateral ;;
  remaining ← ok_or (checked_sub (ws_user_collateral s) amount) WS_Overflow;
  (if 0 <? ws_outstanding_debt s then
     scaled ← ok_or (checked_mul (ws_outstanding_debt s) MIN_COLLATERAL_RATIO_BPS) WS_Overflow;
     min_collateral ← ok_or (checked_div scaled 10000) WS_Overflow;
     reject_if (remaining <? min_collateral) WS_InsufficientCollateralRatio
   else mret tt) ;;
  modify (λ s, s <| ws_user_collateral := remaining |>
                 <| ws_total_deposits := default 0 (checked_sub (ws_total_deposits s) amount) |>).

Definition vault_account (user : Address) (s : LState) : WithdrawState :=
  mkWithdrawState (balance s user) (get_total_deposits s) (recorded_debt s user) (get_min_withdraw_amount s).

Definition as_withdraw_error (e : WithdrawFailure) : WithdrawError :=
  match e with
  | WS_InvalidAmount => WE_InvalidAmount
  | WS_InsufficientCollateral => WE_InsufficientCollateral
  | WS_InsufficientCollateralRatio => WE_InsufficientCollateralRatio
  | WS_Overflow => WE_Overflow
  end.

Definition as_withdraw_result (r : res WithdrawFailure unit * WithdrawState) : res WithdrawError Z :=
  match r with
  | (Ok _, v) => Ok (ws_user_collateral v)
  | (Err e, _) => Err (as_withdraw_error e)
  | (Trap, _) => Trap
  end.

(** W-01 to W-07: so is a signed withdrawal while withdrawals are open; the
    outstanding debt of the reference is the one recorded in the legacy entry. *)
Theorem contract_withdrawal_is_the_reference user asset amount env s :
  authorized env user = true → withdraw_is_paused s = false → is_paused s PauseWithdraw = false →
  in_i128 (recorded_debt s user) = true →
  let r := apply_withdraw amount env (vault_account user s) in
  let r' := invoke (withdraw user asset amount) env s in
  r'.1 = as_withdraw_result r ∧ vault_account user r'.2 = r.2.
Proof.
  intros Ha Hp1 Hp2 Hd r r'. unfold r', r, invoke, withdraw, withdraw_with_auth, require_auth, apply_withdraw. run_fwd. rewrite Ha. run_fwd.
  rewrite Hp1, Hp2. run_fwd. cbn.
  destruct (amount <=? 0); [done|]. run_fwd. destruct (amount <? _); [done|]. run_fwd. rewrite read_balance.
  destruct (balance s user <? amount); [done|]. run_fwd. destruct (checked_sub (balance s user) amount) as [rest|]; [|done]. run_fwd.
  unfold validate_collateral_ratio_after_withdraw. run_fwd. unfold recorded_debt in *.
  assert (Hwrite : ∀ s1 t, st_vault s1 = vault_write user (mkDepositCollateral rest asset t)
      (default 0 (checked_sub (get_total_deposits s) amount)) (st_vault s) → st_borrow s1 = st_borrow s →
    vault_account user s1 = (vault_account user s) <| ws_user_collateral := rest |>
                              <| ws_total_deposits := default 0 (checked_sub (get_total_deposits s) amount) |>).
  { intros s1 t Hv Hb. unfold vault_account, recorded_debt. rewrite (balance_write user _ _ s s1 user Hv), decide_True, Hb by done.
    unfold get_total_deposits, get_min_withdraw_amount. by rewrite Hv. }
  destruct (kBorrowUserDebt (st_borrow s) !! user) as [p|] eqn:Hdebt; cbn; run_fwd.
  - rewrite checked_add_fits by done. run_fwd. destruct (0 <? _); run_fwd; [|by split; [|eapply Hwrite]].
    destruct (checked_mul _ _) as [x|]; [|done]. run_fwd. unfold checked_div. cbn. destruct (fit in_i128 _) as [m|]; [|done]. run_fwd.
    destruct (rest <? m); [done|]. run_fwd. by split; [|eapply Hwrite].
  - by split; [|eapply Hwrite].
Qed.
End WithdrawSpec.

(** ** [spec/rewards.rs] and rewards.rs *)
Module RewardsSpec.

Definition SCALAR : Z := 1000000000.

Record RewardsState : Type := mkRewardsState {
  rs_global_index : Z;
  rs_last_update : Z;
  rs_emission_rate : Z;
  rs_total_liquidity : Z;
  rs_user_index : Z;
  rs_user_accrued : Z;
}.
#[export] Instance RewardsState_upd : Updatable RewardsState := λ s,
  mkRewardsState (rs_global_index s) (rs_last_update s) (rs_emission_rate s) (rs_total_liquidity s) (rs_user_index s)
    (rs_user_accrued s).

Definition new_rewards (emission_rate total_liquidity : Z) : RewardsState := mkRewardsState 0 0 emission_rate total_liquidity 0 0.

(** [(emission * delta * SCALAR) / total] and [(balance * delta) / SCALAR] added on *)
Definition grown_index (index emission delta total : Z) : option Z :=
  x ← checked_mul emission delta;
  x ← checked_mul x SCALAR;
  x ← checked_div x total;
  checked_add index x.
Definition grown_rewards (accrued balance delta : Z) : option Z :=
  x ← checked_mul balance delta;
  x ← checked_div x SCALAR;
  checked_add accrued x.

Definition update_global (now : Z) : M RewardsState Empty_set unit :=
  s ← gets id;
  if now =? rs_last_update s then mret tt
  else if rs_total_liquidity s =? 0 then modify (λ s, s <| rs_last_update := now |>)
  else
    delta ← unwrap (checked_sub now (rs_last_update s));
    index ← unwrap (grown_index (rs_global_index s) (rs_emission_rate s) delta (rs_total_liquidity s));
    modify (λ s, s <| rs_global_index := index |> <| rs_last_update := now |>).

Definition update_user_reference (now balance : Z) : M RewardsState Empty_set unit :=
  update_global now ;;
  s ← gets id;
  delta ← unwrap (checked_sub (rs_global_index s) (rs_user_index s));
  accrued ← unwrap (grown_rewards (rs_user_accrued s) balance delta);
  modify (λ s, s <| rs_user_accrued := accrued |> <| rs_user_index := rs_global_index s |>).

Definition claim_reference : M RewardsState Empty_set Z :=
  rewards ← gets rs_user_accrued;
  modify (λ s, s <| rs_user_accrued := 0 |>) ;;
  mret rewards.

(** *** rewards.rs *)

(** [RewardKey] *)
Record RewardStore : Type := mkRewardStore {
  rkGlobalIndex : option Z;
  rkLastUpdate : option Z;
  rkEmissionRate : option Z;
  rkTotalLiquidity : option Z;
  rkUserIndex : gmap Address Z;
  rkUserAccrued : gmap Address Z;
}.
#[export] Instance RewardStore_upd : Updatable RewardStore := λ s,
  mkRewardStore (rkGlobalIndex s) (rkLastUpdate s) (rkEmissionRate s) (rkTotalLiquidity s) (rkUserIndex s) (rkUserAccrued s).

Abbreviation RwM := (M RewardStore Empty_set) (only parsing).

Definition reward_value {A} (f : RewardStore → option A) (d : A) : RwM A := gets (λ s, default d (f s)).

Definition update_global_index : RwM unit :=
  now ← ask timestamp;
  last ← reward_value rkLastUpdate 0;
  if now =? last then mret tt
  else
    emission ← reward_value rkEmissionRate 0;
    total_liquidity ← reward_value rkTotalLiquidity 0;
    if total_liquidity =? 0 then modify (λ s, s <| rkLastUpdate := Some now |>)
    else
      delta ← unwrap (checked_sub now last);
      index ← reward_value rkGlobalIndex 0;
      index ← unwrap (grown_index index emission delta total_liquidity);
      modify (λ s, s <| rkGlobalIndex := Some index |> <| rkLastUpdate := Some now |>).

Definition update_user (user : Address) (balance : Z) : RwM unit :=
  update_global_index ;;
  global_index ← reward_value rkGlobalIndex 0;
  user_index ← reward_value (λ s, rkUserIndex s !! user) 0;
  accrued ← reward_value (λ s, rkUserAccrued s !! user) 0;
  delta ← unwrap (checked_sub global_index user_index);
  accrued ← unwrap (grown_rewards accrued balance delta);
  modify (λ s, s <| rkUserIndex := <[user := global_index]> (rkUserIndex s) |>
                 <| rkUserAccrued := <[user := accrued]> (rkUserAccrued s) |>).

Definition claim (user : Address) : RwM Z :=
  rewards ← reward_value (λ s, rkUserAccrued s !! user) 0;
  modify (λ s, s <| rkUserAccrued := <[user := 0]> (rkUserAccrued s) |>) ;;
  mret rewards.

Definition add_liquidity (amount : Z) : RwM unit :=
  total ← reward_value rkTotalLiquidity 0;
  total ← unwrap (checked_add total amount);
  modify (λ s, s <| rkTotalLiquidity := Some total |>).
Definition remove_liquidity (amount : Z) : RwM unit :=
  total ← reward_value rkTotalLiquidity 0;
  total ← unwrap (checked_sub total amount);
  modify (λ s, s <| rkTotalLiquidity := Some total |>).
Definition set_emission_rate (rate : Z) : RwM unit := modify (λ s, s <| rkEmissionRate := Some rate |>).

(** *** The module is its reference *)

Definition index_of (s : RewardStore) : Z := default 0 (rkGlobalIndex s).
Definition user_index_of (s : RewardStore) (u : Address) : Z := default 0 (rkUserIndex s !! u).
Definition accrued_of (s : RewardStore) (u : Address) : Z := default 0 (rkUserAccrued s !! u).

Definition rewards_of (user : Address) (s : RewardStore) : RewardsState :=
  mkRewardsState (index_of s) (default 0 (rkLastUpdate s)) (default 0 (rkEmissionRate s)) (default 0 (rkTotalLiquidity s))
    (user_index_of s user) (accrued_of s user).

Lemma global_index_is_the_reference user env s :
  let r := update_global (timestamp env) env (rewards_of user s) in
  (update_global_index env s).1 = r.1 ∧ rewards_of user (update_global_index env s).2 = r.2.
Proof.
  intros r. unfold r, update_global_index, update_global, reward_value. run_fwd. cbn.
  destruct (_ =? _); [done|]. run_fwd. destruct (_ =? 0); [done|]. run_fwd.
  destruct (checked_sub _ _) as [delta|]; [|done]. run_fwd.
  fold (index_of s). by destruct (grown_index _ _ _ _).
Qed.

(** R-06 and the accrual: the storage of rewards.rs, seen by one user, moves as
    the reference does, whatever it holds for others. *)
Theorem rewards_are_the_reference user balance env s :
  (let r := update_user_reference (timestamp env) balance env (rewards_of user s) in
   (update_user user balance env s).1 = r.1 ∧ rewards_of user (update_user user balance env s).2 = r.2) ∧
  (let r := claim_reference env (rewards_of user s) in
   (claim user env s).1 = r.1 ∧ rewards_of user (claim user env s).2 = r.2 ∧ accrued_of (claim user env s).2 user = 0).
Proof.
  split; intros r; unfold r.
  - pose proof (global_index_is_the_reference user env s) as [H1 H2]. unfold update_user, update_user_reference.
    rewrite !bind_eq. destruct (update_global_index env s) as [a s1], (update_global _ _ _) as [b v1]. cbn [fst snd] in H1, H2. subst b v1.
    destruct a as [[]|e|]; [|by destruct e|done]. unfold reward_value. run_fwd. cbn.
    fold (index_of s1) (user_index_of s1 user) (accrued_of s1 user). destruct (checked_sub _ _) as [delta|]; [|done]. run_fwd.
    destruct (grown_rewards _ _ _) as [x|]; [|done]. cbn. unfold rewards_of, user_index_of, accrued_of. cbn. by rewrite !lookup_insert_eq.
  - unfold claim, claim_reference, reward_value. run_fwd. cbn. unfold rewards_of, accrued_of. cbn. by rewrite lookup_insert_eq.
Qed.

(** *** Rewards and emission *)

(** What the updates of some users pay them, together *)
Definition paid (s s' : RewardStore) (users : list (Address * Z)) : Z :=
  foldr (λ '(u, _) t, accrued_of s' u - accrued_of s u + t) 0 users.
Definition balances (users : list (Address * Z)) : Z := foldr (λ '(_, b) t, b + t) 0 users.

Definition update_users (users : list (Address * Z)) : RwM unit := for_each users (λ '(u, b), update_user u b).

Definition settled (env : Env) (s : RewardStore) : Prop := default 0 (rkLastUpdate s) = timestamp env.

Lemma update_global_settled env s : settled env s → update_global_index env s = (Ok tt, s).
Proof. intros H. unfold update_global_index, reward_value. run_fwd. unfold settled in H. by rewrite H, Z.eqb_refl. Qed.

(** R-01 to R-03 and R-05: what an update of the index adds, in whole units of the
    emission since the last one *)
Lemma update_global_Ok env s u s1 :
  update_global_index env s = (Ok u, s1) →
  0 ≤ default 0 (rkEmissionRate s) → 0 ≤ default 0 (rkTotalLiquidity s) → default 0 (rkLastUpdate s) ≤ timestamp env →
  settled env s1 ∧ rkUserIndex s1 = rkUserIndex s ∧ rkUserAccrued s1 = rkUserAccrued s ∧
  index_of s ≤ index_of s1 ∧
  default 0 (rkTotalLiquidity s) * (index_of s1 - index_of s) ≤
    default 0 (rkEmissionRate s) * (timestamp env - default 0 (rkLastUpdate s)) * SCALAR.
Proof.
  unfold update_global_index, reward_value. intros H He HL Ht. run_inv H; subst; zbool.
  - split; [done|]. split_and!; try done; try lia.
  - split; [done|]. split_and!; try done; unfold index_of; cbn; try lia. unfold SCALAR. nia.
  - match goal with H : checked_sub _ _ = Some _ |- _ => apply checked_sub_Some in H as [-> _] end.
    match goal with H : grown_index _ _ _ _ = Some _ |- _ => unfold grown_index in H;
      apply bind_Some in H as (x & Hx & H); apply bind_Some in H as (y & Hy & H); apply bind_Some in H as (z & Hz & H) end.
    checked_facts. subst. split; [done|]. unfold index_of. cbn.
    generalize dependent (default 0 (rkEmissionRate s)). intros e He Hx Hy.
    generalize dependent (default 0 (rkTotalLiquidity s)). intros L HL HL0 Hz.
    set (dt := timestamp env - default 0 (rkLastUpdate s)) in *. assert (0 ≤ dt) by (unfold dt; lia).
    intros _ _ He0. assert (0 ≤ e * dt * SCALAR) by (pose proof (Z.mul_nonneg_nonneg e dt); unfold SCALAR; lia).
    rewrite quot_pos by lia. set (q := e * dt * SCALAR / L). assert (0 ≤ q) by (apply Z.div_pos; lia).
    pose proof (Z.mul_div_le (e * dt * SCALAR) L ltac:(lia)) as Hq. fold q in Hq.
    split_and!; try done; nia.
Qed.

(** Once the index is up to date, each user gets a share of its growth since the
    user's last update. *)
Lemma update_user_settled env s u b r s' :
  settled env s → update_user u b env s = (Ok r, s') →
  settled env s' ∧ index_of s' = index_of s ∧
  (∀ v, v ≠ u → user_index_of s' v = user_index_of s v ∧ accrued_of s' v = accrued_of s v) ∧
  accrued_of s' u - accrued_of s u = Z.quot (b * (index_of s - user_index_of s u)) SCALAR.
Proof.
  intros Hs H. unfold update_user, reward_value in H. rewrite bind_eq, update_global_settled in H by done. run_inv H.
  match goal with H : checked_sub _ _ = Some _ |- _ => apply checked_sub_Some in H as [-> _] end.
  match goal with H : grown_rewards _ _ _ = Some _ |- _ => unfold grown_rewards in H;
    apply bind_Some in H as (x & Hx & H); apply bind_Some in H as (y & Hy & H) end.
  checked_facts. subst. split; [done|]. split; [done|]. unfold user_index_of, accrued_of, index_of. cbn. split.
  - intros v Hv. by rewrite !lookup_insert_ne by done.
  - rewrite lookup_insert_eq. cbn. lia.
Qed.

Lemma update_users_settled env i0 users : ∀ s r s',
  settled env s → NoDup users.*1 → Forall (λ '(u, b), 0 ≤ b ∧ user_index_of s u = i0) users → i0 ≤ index_of s →
  update_users users env s = (Ok r, s') →
  (∀ v, v ∉ users.*1 → accrued_of s' v = accrued_of s v) ∧
  SCALAR * paid s s' users ≤ balances users * (index_of s - i0).
Proof.
  induction users as [|[u b] users IH]; intros s r s' Hs Hnd Hf Hi H; [injection H as _ <-; split; [done|cbn; lia]|].
  unfold update_users in H. cbn [for_each] in H. apply bind_Ok in H as ([] & s1 & H1 & H).
  cbn in Hnd. apply NoDup_cons in Hnd as [Hu Hnd]. apply Forall_cons in Hf as [[Hb Hx] Hf].
  apply update_user_settled in H1 as (Hs1 & Hi1 & Hother & Hgain); [|done].
  apply IH in H as [Hkeep Hpaid]; [|done|done| |lia].
  - split.
    + intros v Hv. cbn in Hv. apply not_elem_of_cons in Hv as [Hne Hv]. rewrite Hkeep by done. by apply Hother.
    + cbn [paid balances foldr]. fold (paid s s' users) (balances users).
      assert (Hsame : paid s s' users = paid s1 s' users).
      { clear -Hother Hu Hnd. induction users as [|[v c] users IHu]; [done|]. cbn in *. apply not_elem_of_cons in Hu as [Hne Hu].
        apply NoDup_cons in Hnd as [_ Hnd]. unfold paid in *. cbn. rewrite IHu by done. destruct (Hother v); [done|]. lia. }
      rewrite Hsame. rewrite Hi1 in Hpaid. rewrite Hkeep by done.
      rewrite Hx in Hgain. unfold SCALAR in *. rewrite quot_pos in Hgain by nia.
      pose proof (Z.mul_div_le (b * (index_of s - i0)) 1000000000). nia.
  - apply Forall_forall. intros [v c] Hv. rewrite Forall_forall in Hf. destruct (Hf _ Hv) as [Hc Hvi]. split; [done|].
    destruct (Hother v) as [-> _]; [|done]. intros ->. apply Hu. apply list_elem_of_fmap. by exists (u, c).
Qed.

(** C32: users whose balances add up to at most the total liquidity, and who
    were all up to date, are together paid at most what was emitted in the
    meantime, whoever is updated and in whatever order. *)
Theorem rewards_stay_within_emission env users s r s' :
  let emission := default 0 (rkEmissionRate s) in
  let elapsed := timestamp env - default 0 (rkLastUpdate s) in
  NoDup users.*1 → Forall (λ '(u, b), 0 ≤ b ∧ user_index_of s u = index_of s) users →
  balances users ≤ default 0 (rkTotalLiquidity s) → 0 ≤ emission → 0 ≤ elapsed →
  update_users users env s = (Ok r, s') → paid s s' users ≤ emission * elapsed.
Proof.
  intros emission el Hnd Hf Hb He Hel H.
  assert (0 ≤ balances users) as Hb0.
  { clear -Hf. induction Hf as [|[u b] users [Hb _] _ IH]; cbn; [lia|]. fold (balances users). lia. }
  destruct users as [|[u b] users]; [cbn; unfold emission in *; nia|].
  assert (∃ s1, update_global_index env s = (Ok tt, s1) ∧ update_users ((u, b) :: users) env s1 = (Ok r, s')) as (s1 & Hg & H1).
  { unfold update_users in *. cbn [for_each] in *. rewrite bind_eq in H. unfold update_user in H at 1. rewrite bind_eq in H.
    destruct (update_global_index env s) as [[[]|[]|] s1] eqn:Hg; [|done]. exists s1. split; [done|].
    apply update_global_Ok in Hg as (Hs1 & _); [|lia..]. rewrite bind_eq. unfold update_user at 1. rewrite bind_eq, update_global_settled by done.
    exact H. }
  apply update_global_Ok in Hg as (Hs1 & Hui & Hua & Hle & Hgrow); [|lia..].
  apply (update_users_settled env (index_of s)) in H1 as [_ Hp]; [|done|done| |done].
  - assert (Hsame : ∀ l, paid s s' l = paid s1 s' l) by (induction l as [|[v c] l IH]; [done|]; unfold paid in *; cbn; rewrite IH; unfold accrued_of; by rewrite Hua).
    rewrite Hsame. unfold SCALAR in *. fold emission el in Hgrow. nia.
  - eapply Forall_impl; [exact Hf|]. intros [v c]. unfold user_index_of. by rewrite Hui.
Qed.

(** Two users of a pool of 1000, which emits 10 a second, after a minute *)
Definition pool_of_two : RewardStore :=
  mkRewardStore (Some 0) (Some 40) (Some 10) (Some 1000) ∅ ∅.

Lemma rewards_stay_within_emission_witness :
  let users := [(alice, 700); (bob, 300)] in
  let s' := (update_users users (demo_env 100) pool_of_two).2 in
  paid pool_of_two s' users ≤ 10 * 60 ∧ accrued_of s' alice = 420 ∧ accrued_of s' bob = 180.
Proof.
  intros users s'. split; [|by vm_compute].
  apply (rewards_stay_within_emission (demo_env 100) users pool_of_two tt s').
  - apply NoDup_cons. split; [|apply NoDup_singleton]. by intros ?%list_elem_of_singleton.
  - repeat constructor; done.
  - vm_compute. discriminate.
  - vm_compute. discriminate.
  - vm_compute. discriminate.
  - vm_compute. reflexivity.
Defined.
End RewardsSpec.
