(* ===== verification/Commitments.v ===== *)
(** * Commitments: borrows executed later by anybody
    ([lending/src/commitments.rs])

    A commitment is created by its owner and is then pending until it is
    executed, cancelled or found expired.  Its triggers are price conditions,
    combined by any or all. *)

From S2P Require Import Prelude Host LendingTypes Pause BorrowStorage InterestRate RiskMonitor.
From S2P Require Import Borrow Scenario.

Definition MAX_TRIGGERS : Z := 4.

(** ** Triggers *)

Definition read_price (asset : Address) : LM CommitmentError Z :=
  stored ← gets get_oracle;
  oracle ← ok_or stored CE_OracleNotConfigured;
  get_asset_price oracle asset.

Definition trigger_met (t : PriceTrigger) : LM CommitmentError bool :=
  price ← read_price (pt_asset t);
  mret (if pt_fire_when_at_or_above t then pt_trigger_price t <=? price
        else price <=? pt_trigger_price t).

Fixpoint any_met (triggers : list PriceTrigger) : LM CommitmentError bool :=
  match triggers with
  | [] => mret false
  | t :: triggers =>
      met ← trigger_met t;
      if (met : bool) then mret true else any_met triggers
  end.

Fixpoint all_met (triggers : list PriceTrigger) : LM CommitmentError bool :=
  match triggers with
  | [] => mret true
  | t :: triggers =>
      met ← trigger_met t;
      if negb met then mret false else all_met triggers
  end.

Definition triggers_satisfied (triggers : list PriceTrigger) (combiner : TriggerCombiner) :
    LM CommitmentError bool :=
  match triggers with
  | [] => fail CE_BadConfig
  | _ =>
      match combiner with
      | AnyTrigger => any_met triggers
      | AllTriggers => all_met triggers
      end
  end.

(** ** Operations *)

Definition set_commitment (id : Z) (c : BorrowCommitment) : LM CommitmentError unit :=
  on_aux (λ a, a <| kCommitment := <[id := c]> (kCommitment a) |>).

Definition create_borrow_commitment (owner : Address) (triggers : list PriceTrigger)
    (combiner : TriggerCombiner) (borrow_asset collateral_asset : Address)
    (borrow_amount collateral_amount min_fill_bps expiry_timestamp : Z) : LM CommitmentError Z :=
  require_auth owner ;;
  reject_if (bool_decide (triggers = [])) CE_BadConfig ;;
  reject_if (MAX_TRIGGERS <? Z.of_nat (length triggers)) CE_TooManyTriggers ;;
  reject_if ((borrow_amount <=? 0) || (collateral_amount <=? 0) ||
             (min_fill_bps =? 0) || (10000 <? min_fill_bps)) CE_BadConfig ;;
  map_err (λ _, CE_BadConfig) (validate_collateral_ratio collateral_amount borrow_amount) ;;
  now ← ask timestamp;
  reject_if (expiry_timestamp <=? now) CE_BadConfig ;;
  id ← gets (λ s, default 0 (kNextId (st_aux s)));
  let c := mkBorrowCommitment owner triggers combiner borrow_asset collateral_asset
             borrow_amount collateral_amount min_fill_bps expiry_timestamp Pending in
  set_commitment id c ;;
  next ← unwrap (u64_checked_add id 1);
  on_aux (λ a, a <| kNextId := Some next |>) ;;
  publish (BorrowCommitmentCreatedEvent id (cm_owner c) (cm_borrow_asset c)
             (cm_borrow_amount c) (cm_expiry_timestamp c)) ;;
  mret id.

Definition cancel_borrow_commitment (owner : Address) (commitment_id : Z) :
    LM CommitmentError unit :=
  require_auth owner ;;
  stored ← gets (λ s, kCommitment (st_aux s) !! commitment_id);
  c ← ok_or stored CE_NotFound;
  reject_if (bool_decide (cm_owner c ≠ owner)) CE_Unauthorized ;;
  reject_if (bool_decide (cm_status c ≠ Pending)) CE_NotExecutable ;;
  set_commitment commitment_id (c <| cm_status := Cancelled |>) ;;
  publish (BorrowCommitmentCancelledEvent commitment_id owner).

Definition execute_borrow_commitment (commitment_id : Z) : LM CommitmentError unit :=
  stored ← gets (λ s, kCommitment (st_aux s) !! commitment_id);
  c ← ok_or stored CE_NotFound;
  reject_if (bool_decide (cm_status c ≠ Pending)) CE_NotExecutable ;;
  now ← ask timestamp;
  (if cm_expiry_timestamp c <? now then
     set_commitment commitment_id (c <| cm_status := Expired |>) ;;
     fail CE_Expired
   else mret tt) ;;
  satisfied ← triggers_satisfied (cm_triggers c) (cm_combiner c);
  reject_if (negb satisfied) CE_TriggerNotMet ;;
  total_debt ← gets get_total_debt;
  debt_ceiling ← gets get_debt_ceiling;
  let room := saturating_sub debt_ceiling total_debt in
  let fill_amount := Z.min (cm_borrow_amount c) room in
  min_allowed ← unwrap (saturating_div (saturating_mul (cm_borrow_amount c) (cm_min_fill_bps c)) 10000);
  reject_if (fill_amount <? min_allowed) CE_BelowMinPartialFill ;;
  min_borrow ← gets get_min_borrow_amount;
  reject_if (fill_amount <? min_borrow) CE_BorrowFailed ;;
  collateral_fill ←
    unwrap (saturating_div (saturating_mul (cm_collateral_amount c) fill_amount) (cm_borrow_amount c));
  reject_if (collateral_fill <=? 0) CE_BadConfig ;;
  map_err (λ _, CE_BorrowFailed) (validate_collateral_ratio collateral_fill fill_amount) ;;
  map_err (λ _, CE_BorrowFailed)
    (borrow_from_commitment (cm_owner c) (cm_borrow_asset c) fill_amount
       (cm_collateral_asset c) collateral_fill) ;;
  set_commitment commitment_id (c <| cm_status := Executed |>) ;;
  publish (BorrowCommitmentExecutedEvent commitment_id (cm_owner c) fill_amount collateral_fill).

Definition get_borrow_commitment (s : LState) (commitment_id : Z) : option BorrowCommitment :=
  kCommitment (st_aux s) !! commitment_id.

(** ** Specification *)

(** The price the configured oracle reports. *)
Definition spot (env : Env) (s : LState) (asset : Address) : option Z :=
  get_oracle s ≫= λ o, oracle_price env o asset.

Definition fires (t : PriceTrigger) (price : Z) : bool :=
  if pt_fire_when_at_or_above t then pt_trigger_price t <=? price
  else price <=? pt_trigger_price t.

Definition fires_at (env : Env) (s : LState) (t : PriceTrigger) : bool :=
  match spot env s (pt_asset t) with
  | Some price => fires t price
  | None => false
  end.

Definition combine (combiner : TriggerCombiner) (f : PriceTrigger → bool)
    (triggers : list PriceTrigger) : bool :=
  match combiner with
  | AnyTrigger => existsb f triggers
  | AllTriggers => forallb f triggers
  end.

(** Commitments as [create_borrow_commitment] builds them. *)
Record commitment_wf (c : BorrowCommitment) : Prop := {
  cw_amount : 0 < cm_borrow_amount c ≤ I128_MAX;
  cw_collateral : 0 < cm_collateral_amount c ≤ I128_MAX;
  cw_fill : 0 < cm_min_fill_bps c ≤ 10000;
  cw_triggers : cm_triggers c ≠ [];
}.

(** ** Lemmas *)

#[export] Instance readonly_trigger_met t : Readonly (trigger_met t).
Proof. unfold trigger_met, read_price. apply _. Qed.

Lemma trigger_met_Ok t env s b s' :
  trigger_met t env s = (Ok b, s') → b = fires_at env s t ∧ s' = s.
Proof.
  unfold trigger_met, read_price, get_asset_price, fires_at, spot. intros H. run_inv H.
  repeat match goal with H : _ = Some _ |- _ => rewrite H; clear H end. cbn.
  match goal with H : oracle_price _ _ _ = Some _ |- _ => rewrite H | _ => idtac end. done.
Qed.

Lemma any_met_Ok triggers env s b s' :
  any_met triggers env s = (Ok b, s') → b = existsb (fires_at env s) triggers ∧ s' = s.
Proof.
  revert b. induction triggers as [|t triggers IH]; intros b H; cbn [any_met] in H; [by run_inv H|].
  apply bind_Ok in H as (met & s1 & [-> ->]%trigger_met_Ok & H). cbn.
  destruct (fires_at env s t); [by run_inv H|by apply IH].
Qed.

Lemma all_met_Ok triggers env s b s' :
  all_met triggers env s = (Ok b, s') → b = forallb (fires_at env s) triggers ∧ s' = s.
Proof.
  revert b. induction triggers as [|t triggers IH]; intros b H; cbn [all_met] in H; [by run_inv H|].
  apply bind_Ok in H as (met & s1 & [-> ->]%trigger_met_Ok & H). cbn.
  destruct (fires_at env s t); cbn in *; [by apply IH|by run_inv H].
Qed.

Lemma triggers_satisfied_Ok triggers combiner env s b s' :
  triggers_satisfied triggers combiner env s = (Ok b, s') →
  triggers ≠ [] ∧ b = combine combiner (fires_at env s) triggers ∧ s' = s.
Proof.
  unfold triggers_satisfied. destruct triggers as [|t triggers]; intros H; [by run_inv H|].
  split; [done|]. destruct combiner; [by apply any_met_Ok|by apply all_met_Ok].
Qed.

(** What a borrow changes outside the borrow store: the alert latch. *)
Definition aux_frame (a : AuxStore) : AuxStore := a <| kLastEmittedTier := None |>.

Lemma borrow_inner_aux user asset amount ca camt rt auth env s r s' :
  borrow_inner user asset amount ca camt rt auth env s = (r, s') →
  aux_frame (st_aux s') = aux_frame (st_aux s).
Proof.
  assert (preserves (λ s', aux_frame (st_aux s') = aux_frame (st_aux s))
    (borrow_inner user asset amount ca camt rt auth)) as Hp; [|intros H; by eapply Hp].
  assert (∀ p, preserves (λ s', aux_frame (st_aux s') = aux_frame (st_aux s)) (calculate_interest p)) as Hc.
  { intros p env0 s0 r0 s0' H0 Hr. pose proof (calculate_interest_equiv _ _ _ _ _ Hr) as He.
    by rewrite <- He. }
  assert (∀ rt p, preserves (λ s', aux_frame (st_aux s') = aux_frame (st_aux s)) (lock_stable_rate rt p)) as Hl.
  { intros rt0 p env0 s0 r0 s0' H0 Hr.
    assert (preserves (λ s, s0 ≡ s) (lock_stable_rate rt0 p)) as Hpr
      by (unfold lock_stable_rate; preserve).
    assert (s0 ≡ s0') as He by (eapply Hpr; [|done]; reflexivity). by rewrite <- He. }
  unfold borrow_inner, authorize_borrow, save_debt_position, update_compat_user_debt,
    save_collateral_position, set_total_debt, on_utilization_changed, emit_borrow_event.
  preserve; try done; by auto.
Qed.

Lemma saturating_div_pos a b : 0 ≤ a ≤ I128_MAX → 0 < b → saturating_div a b = Some (a / b).
Proof.
  intros Ha Hb. unfold saturating_div. rewrite (proj2 (Z.eqb_neq _ _)), quot_pos by lia.
  f_equal. unfold clamp. assert (0 ≤ a / b) by (apply Z.div_pos; lia).
  assert (a / b ≤ a) by (apply Z.div_le_upper_bound; nia). rewrite I128_MIN_eq. lia.
Qed.

Lemma saturating_mul_pos a b : 0 ≤ a → 0 ≤ b → saturating_mul a b = Z.min I128_MAX (a * b).
Proof. intros. unfold saturating_mul, clamp. rewrite I128_MIN_eq, I128_MAX_eq. nia. Qed.

(** The amount a pending commitment borrows now, and the collateral for it. *)
Definition fill_of (s : LState) (c : BorrowCommitment) : Z :=
  Z.min (cm_borrow_amount c) (saturating_sub (get_debt_ceiling s) (get_total_debt s)).
Definition collateral_fill_of (s : LState) (c : BorrowCommitment) : Z :=
  Z.min I128_MAX (cm_collateral_amount c * fill_of s c) / cm_borrow_amount c.

Record execute_effect (id : Z) (c : BorrowCommitment) (env : Env) (s s' : LState) : Prop := {
  ee_stored : get_borrow_commitment s id = Some c;
  ee_pending : cm_status c = Pending;
  ee_alive : timestamp env ≤ cm_expiry_timestamp c;
  ee_fired : combine (cm_combiner c) (fires_at env s) (cm_triggers c) = true;
  ee_fill : 0 < fill_of s c;
  ee_minimum : Z.min I128_MAX (cm_borrow_amount c * cm_min_fill_bps c) / 10000 ≤ fill_of s c;
  ee_collateral : 0 < collateral_fill_of s c;
  ee_borrow : ∃ s1,
    borrow_effect (cm_owner c) (cm_borrow_asset c) (fill_of s c) (cm_collateral_asset c)
      (collateral_fill_of s c) VariableRate env s s1 ∧
    aux_frame (st_aux s1) = aux_frame (st_aux s) ∧
    s' = s1 <| st_aux := (st_aux s1) <| kCommitment :=
                <[id := c <| cm_status := Executed |>]> (kCommitment (st_aux s1)) |> |>
            <| st_events := st_events s1 ++
                 [BorrowCommitmentExecutedEvent id (cm_owner c) (fill_of s c) (collateral_fill_of s c)] |>;
}.

Lemma execute_borrow_commitment_Ok id env s u s' :
  (∀ c, get_borrow_commitment s id = Some c → commitment_wf c) →
  execute_borrow_commitment id env s = (Ok u, s') →
  ∃ c, execute_effect id c env s s'.
Proof.
  intros Hwf H. unfold execute_borrow_commitment, borrow_from_commitment in H.
  apply bind_Ok in H as (o & s0 & [-> ->]%gets_Ok & H).
  apply bind_Ok in H as (c & s0 & [Hc ->]%ok_or_Ok & H).
  specialize (Hwf c Hc). destruct Hwf. exists c.
  unfold set_commitment in H. run_step H; subst. zbool.
  match goal with H : triggers_satisfied _ _ _ _ = _ |- _ =>
    apply triggers_satisfied_Ok in H as (? & -> & ->) end.
  match goal with H : validate_collateral_ratio _ _ _ _ = _ |- _ =>
    apply validate_collateral_ratio_Ok in H as [-> _] end.
  match goal with H : borrow_inner _ _ _ _ _ _ _ _ _ = _ |- _ =>
    pose proof (borrow_inner_aux _ _ _ _ _ _ _ _ _ _ _ H) as Haux;
    apply borrow_inner_Ok in H as [Hb _] end.
  pose proof (proj1 (be_amounts _ _ _ _ _ _ _ _ _ Hb)) as Hfill.
  fold (fill_of s c) in *.
  assert (0 ≤ cm_collateral_amount c * fill_of s c) as Hprod by nia.
  repeat match goal with H : saturating_div (saturating_mul _ _) _ = Some ?v |- _ =>
    rewrite saturating_mul_pos, saturating_div_pos in H by (rlia || nia);
    injection H as <- end.
  fold (collateral_fill_of s c) in *.
  split; try done. by exists s14.
Qed.

Lemma borrow_effect_total user asset amount ca camt rt env s s' :
  borrow_effect user asset amount ca camt rt env s s' →
  get_total_debt s' = get_total_debt s + amount.
Proof.
  intros Hb. destruct (be_store _ _ _ _ _ _ _ _ _ Hb) as (? & ? & ? & ? & _ & _ & _ & _ & _ & Hs).
  unfold get_total_debt at 1. by rewrite Hs.
Qed.

Lemma collateral_fill_le s c :
  commitment_wf c → 0 < fill_of s c → collateral_fill_of s c ≤ cm_collateral_amount c.
Proof.
  intros [] Hf. unfold collateral_fill_of. apply Z.div_le_upper_bound; [lia|].
  assert (fill_of s c ≤ cm_borrow_amount c) by (unfold fill_of; lia). nia.
Qed.

(** A commitment that is not pending cannot be executed. *)
Lemma execute_not_pending id c env s :
  get_borrow_commitment s id = Some c → cm_status c ≠ Pending →
  execute_borrow_commitment id env s = (Err CE_NotExecutable, s).
Proof.
  unfold get_borrow_commitment. intros Hc Hp. unfold execute_borrow_commitment. run_fwd.
  rewrite Hc. run_fwd. rewrite bool_decide_eq_true_2 by done. done.
Qed.

(** *** Well-formed commitment storage *)

(** Identifiers below the counter, no stored commitment marked expired. *)
Definition commitments_ok (s : LState) : Prop :=
  ∀ id c, get_borrow_commitment s id = Some c →
    commitment_wf c ∧ cm_status c ≠ Expired ∧ id < default 0 (kNextId (st_aux s)).

Lemma commitments_ok_frame s s' :
  aux_frame (st_aux s') = aux_frame (st_aux s) → commitments_ok s → commitments_ok s'.
Proof.
  intros H Hok id c. unfold get_borrow_commitment.
  pose proof (f_equal kCommitment H) as H1. pose proof (f_equal kNextId H) as H2.
  cbn in H1, H2. rewrite H1, H2. apply Hok.
Qed.

Lemma create_borrow_commitment_Ok owner triggers combiner ba ca bamt camt fill expiry env s id s' :
  in_i128 bamt = true → in_i128 camt = true → 0 ≤ fill →
  create_borrow_commitment owner triggers combiner ba ca bamt camt fill expiry env s = (Ok id, s') →
  let c := mkBorrowCommitment owner triggers combiner ba ca bamt camt fill expiry Pending in
  authorized env owner = true ∧ commitment_wf c ∧ timestamp env < expiry ∧
  id = default 0 (kNextId (st_aux s)) ∧
  st_aux s' = (st_aux s) <| kCommitment := <[id := c]> (kCommitment (st_aux s)) |>
                <| kNextId := Some (id + 1) |> ∧
  st_borrow s' = st_borrow s ∧ st_vault s' = st_vault s ∧ st_pause s' = st_pause s.
Proof.
  intros Hb Hc Hf H c. unfold create_borrow_commitment, set_commitment in H. cbv zeta in H.
  run_step H; subst.
  match goal with H : validate_collateral_ratio _ _ _ _ = _ |- _ =>
    apply validate_collateral_ratio_Ok in H as [-> _] end.
  match goal with H : u64_checked_add _ _ = Some _ |- _ => apply fit_Some in H as [_ ->] end.
  zbool. apply in_i128_spec in Hb, Hc. split_and!; try done.
  split; cbn; [lia|lia|lia|done].
Qed.

Lemma cancel_borrow_commitment_Ok owner id env s u s' :
  cancel_borrow_commitment owner id env s = (Ok u, s') →
  ∃ c, get_borrow_commitment s id = Some c ∧ authorized env owner = true ∧ cm_owner c = owner ∧
    cm_status c = Pending ∧
    s' = s <| st_aux := (st_aux s) <| kCommitment :=
                 <[id := c <| cm_status := Cancelled |>]> (kCommitment (st_aux s)) |> |>
           <| st_events := st_events s ++ [BorrowCommitmentCancelledEvent id owner] |>.
Proof.
  unfold cancel_borrow_commitment, set_commitment. intros H. run_inv H. zbool. eauto 10.
Qed.

(** Rewriting a stored commitment's status to one that is not [Expired]. *)
Lemma commitments_ok_status s s' id c st :
  commitments_ok s → get_borrow_commitment s id = Some c → st ≠ Expired →
  aux_frame (st_aux s') = aux_frame ((st_aux s) <| kCommitment :=
     <[id := c <| cm_status := st |>]> (kCommitment (st_aux s)) |>) →
  commitments_ok s'.
Proof.
  intros Hok Hc Hst H id' c'. unfold get_borrow_commitment.
  pose proof (f_equal kCommitment H) as H1. pose proof (f_equal kNextId H) as H2.
  cbn in H1, H2. rewrite H1, H2. destruct (Hok id c Hc) as ([] & _ & Hlt).
  intros [[-> <-]|[_ Hc']]%lookup_insert_Some; [by split; [split|]|by apply Hok].
Qed.

Lemma create_keeps_commitments_ok owner triggers combiner ba ca bamt camt fill expiry env s id s' :
  in_i128 bamt = true → in_i128 camt = true → 0 ≤ fill →
  commitments_ok s →
  create_borrow_commitment owner triggers combiner ba ca bamt camt fill expiry env s = (Ok id, s') →
  commitments_ok s'.
Proof.
  intros Hb Hc Hf Hok H. apply create_borrow_commitment_Ok in H as (_ & Hwf & _ & -> & Ha & _); [|done..].
  intros id' c'. unfold get_borrow_commitment. rewrite Ha. cbn.
  intros [[-> <-]|[_ Hc']]%lookup_insert_Some; [split_and!; [done|done|lia]|].
  destruct (Hok _ _ Hc') as (? & ? & ?). split_and!; [done|done|lia].
Qed.

Lemma cancel_keeps_commitments_ok owner id env s u s' :
  commitments_ok s → cancel_borrow_commitment owner id env s = (Ok u, s') → commitments_ok s'.
Proof.
  intros Hok H. apply cancel_borrow_commitment_Ok in H as (c & Hc & _ & _ & _ & ->).
  by apply (commitments_ok_status s _ id c Cancelled).
Qed.

Lemma execute_keeps_commitments_ok id env s u s' :
  commitments_ok s → execute_borrow_commitment id env s = (Ok u, s') → commitments_ok s'.
Proof.
  intros Hok H. apply execute_borrow_commitment_Ok in H as [c He]; [|intros c Hc; by apply (Hok id)].
  destruct (ee_borrow _ _ _ _ _ He) as (s1 & _ & Ha & ->).
  assert (commitments_ok s1) as Hok1 by (by apply (commitments_ok_frame s)).
  apply (commitments_ok_status s1 _ id c Executed); [done| |done|done].
  pose proof (f_equal kCommitment Ha) as H1. cbn in H1. unfold get_borrow_commitment. rewrite H1.
  apply (ee_stored _ _ _ _ _ He).
Qed.

#[export] Hint Resolve create_keeps_commitments_ok cancel_keeps_commitments_ok
  execute_keeps_commitments_ok : preserves.

(** ** Properties *)

(** A commitment is executed only while it is pending, before its expiry
    and when its triggers fire; it borrows between the minimal fill and the
    committed amount, within the ceiling, with a proportional collateral, and
    can be executed once only. *)
Theorem commitment_execution id env s u s' :
  commitments_ok s → execute_borrow_commitment id env s = (Ok u, s') →
  ∃ c fill collateral,
    get_borrow_commitment s id = Some c ∧ cm_status c = Pending ∧
    timestamp env ≤ cm_expiry_timestamp c ∧
    combine (cm_combiner c) (fires_at env s) (cm_triggers c) = true ∧
    0 < fill ≤ cm_borrow_amount c ∧
    Z.min I128_MAX (cm_borrow_amount c * cm_min_fill_bps c) / 10000 ≤ fill ∧
    Z.quot (fill * COLLATERAL_RATIO_MIN) 10000 ≤ collateral ≤ cm_collateral_amount c ∧
    get_total_debt s' = get_total_debt s + fill ∧ get_total_debt s' ≤ get_debt_ceiling s ∧
    get_borrow_commitment s' id = Some (c <| cm_status := Executed |>) ∧
    (∀ id', id' ≠ id → get_borrow_commitment s' id' = get_borrow_commitment s id') ∧
    (∀ env', execute_borrow_commitment id env' s' = (Err CE_NotExecutable, s')).
Proof.
  intros Hok H. apply execute_borrow_commitment_Ok in H as [c He]; [|intros c Hc; by apply (Hok id)].
  pose proof (proj1 (Hok _ _ (ee_stored _ _ _ _ _ He))) as Hwf.
  destruct (ee_borrow _ _ _ _ _ He) as (s1 & Hb & Ha & ->). destruct He.
  pose proof (f_equal kCommitment Ha) as Hm. cbn in Hm.
  exists c, (fill_of s c), (collateral_fill_of s c).
  pose proof (borrow_effect_total _ _ _ _ _ _ _ _ _ Hb) as Ht.
  pose proof (be_ceiling _ _ _ _ _ _ _ _ _ Hb). pose proof (be_ratio _ _ _ _ _ _ _ _ _ Hb).
  set (s2 := update_field _ _).
  assert (get_borrow_commitment s2 id = Some (c <| cm_status := Executed |>)) as Hs2
    by (apply lookup_insert_eq).
  split_and!; try done.
  - unfold fill_of. lia.
  - by apply collateral_fill_le.
  - change (get_total_debt s1 ≤ get_debt_ceiling s). lia.
  - intros id' Hne. unfold s2, get_borrow_commitment. cbn. rewrite lookup_insert_ne by done.
    by rewrite Hm.
  - intros env'. by apply (execute_not_pending id (c <| cm_status := Executed |>)).
Qed.

(** A commitment of alice that fires once gold is at or above 1.5. *)
Definition priced_market : LState := final (set_oracle admin feed) (demo_env 100) market.
Definition alice_commits : LM CommitmentError Z :=
  create_borrow_commitment alice [mkPriceTrigger gold 150000000 true] AnyTrigger usd gold
    5000 7500 5000 1000.
Definition committed : LState := final alice_commits (demo_env 100) priced_market.

Lemma committed_ok : commitments_ok committed.
Proof.
  apply (create_keeps_commitments_ok alice [mkPriceTrigger gold 150000000 true] AnyTrigger usd gold
    5000 7500 5000 1000 (demo_env 100) priced_market 0);
    [vm_compute; reflexivity|vm_compute; reflexivity|lia|by intros id c|vm_compute; reflexivity].
Qed.

Lemma commitment_execution_witness :
  let s' := final (execute_borrow_commitment 0) (demo_env 500) committed in
  ∃ c fill collateral,
    get_borrow_commitment committed 0 = Some c ∧ cm_status c = Pending ∧
    timestamp (demo_env 500) ≤ cm_expiry_timestamp c ∧
    combine (cm_combiner c) (fires_at (demo_env 500) committed) (cm_triggers c) = true ∧
    0 < fill ≤ cm_borrow_amount c ∧
    Z.min I128_MAX (cm_borrow_amount c * cm_min_fill_bps c) / 10000 ≤ fill ∧
    Z.quot (fill * COLLATERAL_RATIO_MIN) 10000 ≤ collateral ≤ cm_collateral_amount c ∧
    get_total_debt s' = get_total_debt committed + fill ∧
    get_total_debt s' ≤ get_debt_ceiling committed ∧
    get_borrow_commitment s' 0 = Some (c <| cm_status := Executed |>) ∧
    (∀ id', id' ≠ 0 → get_borrow_commitment s' id' = get_borrow_commitment committed id') ∧
    (∀ env', execute_borrow_commitment 0 env' s' = (Err CE_NotExecutable, s')).
Proof.
  intros s'. apply (commitment_execution 0 (demo_env 500) committed tt s'); [apply committed_ok|].
  vm_compute. reflexivity.
Defined.

(** The Expired status a late execution writes does not survive the error
    it returns, so the commitment stays pending. *)
Theorem expired_status_is_rolled_back id c env s :
  get_borrow_commitment s id = Some c → cm_status c = Pending → cm_expiry_timestamp c < timestamp env →
  (∃ s1, execute_borrow_commitment id env s = (Err CE_Expired, s1) ∧
     get_borrow_commitment s1 id = Some (c <| cm_status := Expired |>)) ∧
  invoke (execute_borrow_commitment id) env s = (Err CE_Expired, s).
Proof.
  unfold get_borrow_commitment. intros Hc Hp He.
  assert (execute_borrow_commitment id env s =
    (Err CE_Expired, s <| st_aux := (st_aux s) <| kCommitment :=
       <[id := c <| cm_status := Expired |>]> (kCommitment (st_aux s)) |> |>)) as Hrun.
  { unfold execute_borrow_commitment. run_fwd. rewrite Hc. run_fwd.
    rewrite bool_decide_eq_false_2 by naive_solver. run_fwd.
    rewrite (proj2 (Z.ltb_lt _ _)) by done. reflexivity. }
  split; [|unfold invoke; by rewrite Hrun].
  eexists. split; [exact Hrun|]. cbn. apply lookup_insert_eq.
Qed.

Lemma expired_status_is_rolled_back_witness :
  let c := default (mkBorrowCommitment alice [] AnyTrigger usd gold 0 0 0 0 Pending)
             (get_borrow_commitment committed 0) in
  (∃ s1, execute_borrow_commitment 0 (demo_env 2000) committed = (Err CE_Expired, s1) ∧
     get_borrow_commitment s1 0 = Some (c <| cm_status := Expired |>)) ∧
  invoke (execute_borrow_commitment 0) (demo_env 2000) committed = (Err CE_Expired, committed).
Proof.
  intros c. apply (expired_status_is_rolled_back 0 c (demo_env 2000) committed);
    vm_compute; reflexivity.
Defined.
