(* ===== verification/Delegation.v ===== *)
(** * Delegation: the delegation registry contract
    ([delegation-registry/src/lib.rs]) and the interface it offers

    [Registry] is what a client may rely on: an answer of [validate] is backed
    by a grant that is in force and covers the permission.  The registry's
    storage is an instance.  The lending contract's delegated execution is
    verified against the interface. *)

From S2P Require Import Prelude Host.

(** ** Data *)

Inductive DelegationError : Type := DRE_Unauthorized | DRE_InvalidExpiry.

Inductive Permission : Type :=
  | PermDeposit | PermWithdraw | PermBorrow | PermRepay | PermDepositCollateral.

(** The [repr(u32)] discriminant, one bit each. *)
Definition permission_bit (p : Permission) : Z :=
  match p with
  | PermDeposit => 1
  | PermWithdraw => 2
  | PermBorrow => 4
  | PermRepay => 8
  | PermDepositCollateral => 16
  end.

Record Delegation : Type := mkDelegation {
  de_permissions : Z;
  de_expiry : Z;
}.

(** Storage: [DataKey::Delegation(delegator, delegate)]. *)
Abbreviation RegistryStore := (gmap (Address * Address) Delegation) (only parsing).

(** ** Operations *)

Definition delegation_valid (now : Z) (d : Delegation) (required_permission : Z) : bool :=
  if negb (de_expiry d =? 0) && (de_expiry d <=? now) then false
  else negb (Z.land (de_permissions d) required_permission =? 0).

Definition grant (delegator delegate : Address) (permissions expiry : Z) :
    M RegistryStore DelegationError unit :=
  require_auth delegator ;;
  now ← ask timestamp;
  reject_if (negb (expiry =? 0) && (expiry <=? now)) DRE_InvalidExpiry ;;
  modify (λ s, <[(delegator, delegate) := mkDelegation permissions expiry]> s).

Definition revoke (delegator delegate : Address) : M RegistryStore DelegationError unit :=
  require_auth delegator ;;
  modify (λ s, delete (delegator, delegate) s).

Definition get (s : RegistryStore) (delegator delegate : Address) : option Delegation :=
  s !! (delegator, delegate).

Definition validate (now : Z) (s : RegistryStore) (delegator delegate : Address)
    (permission : Z) : bool :=
  match get s delegator delegate with
  | Some d => delegation_valid now d permission
  | None => false
  end.

(** ** Interface *)

(** A delegation in force at a time that covers a permission. *)
Definition in_force (now : Z) (permission : Z) (d : Delegation) : Prop :=
  (de_expiry d = 0 ∨ now < de_expiry d) ∧ Z.land (de_permissions d) permission ≠ 0.

Class Registry (T : Type) : Type := {
  permits : Z → T → Address → Address → Z → bool;
  granted : T → Address → Address → option Delegation;
  permits_in_force : ∀ now t delegator delegate p,
    permits now t delegator delegate p = true ↔
    ∃ d, granted t delegator delegate = Some d ∧ in_force now p d;
}.

Lemma delegation_valid_spec now d p : delegation_valid now d p = true ↔ in_force now p d.
Proof.
  unfold delegation_valid, in_force. destruct (_ && _) eqn:E; zbool.
  - split; [done|]. intros [[] _]; lia.
  - rewrite negb_true_iff, Z.eqb_neq. split; [|naive_solver]. intros Hp. split; [|done].
    destruct E; zbool; [by left|by right].
Qed.

#[export] Program Instance registry_store : Registry RegistryStore := {|
  permits := validate;
  granted := get;
|}.
Next Obligation.
  intros now t d e p. unfold validate. destruct (get t d e) as [dl|]; [|naive_solver].
  rewrite delegation_valid_spec. naive_solver.
Qed.

(** ** Lemmas *)

Lemma grant_Ok d e perms expiry env s u s' :
  grant d e perms expiry env s = (Ok u, s') →
  authorized env d = true ∧ (expiry = 0 ∨ timestamp env < expiry) ∧
  s' = <[(d, e) := mkDelegation perms expiry]> s.
Proof.
  unfold grant. intros H. run_inv H. zbool. split_and!; [done| |done].
  match goal with H : _ ∨ _ |- _ => destruct H; zbool; [by left|by right] end.
Qed.

Lemma revoke_Ok d e env s u s' :
  revoke d e env s = (Ok u, s') → authorized env d = true ∧ s' = delete (d, e) s.
Proof. unfold revoke. intros H. by run_inv H. Qed.

(** ** Properties *)

(** A grant signed by the delegator is valid for exactly the granted
    permissions until its expiry, concerns no other pair of accounts, and a
    revocation signed by the delegator ends it. *)
Theorem delegation_lifecycle d e perms expiry p env s u s1 :
  grant d e perms expiry env s = (Ok u, s1) →
  authorized env d = true ∧
  (∀ now, validate now s1 d e p = true ↔
     (expiry = 0 ∨ now < expiry) ∧ Z.land perms p ≠ 0) ∧
  (∀ now d' e', (d', e') ≠ (d, e) → validate now s1 d' e' p = validate now s d' e' p) ∧
  (∀ env' u' s2, revoke d e env' s1 = (Ok u', s2) →
     authorized env' d = true ∧ ∀ now, validate now s2 d e p = false).
Proof.
  intros H. apply grant_Ok in H as (Ha & _ & ->). split_and!; [done|..].
  - intros now. unfold validate, get. rewrite lookup_insert_eq.
    rewrite delegation_valid_spec. done.
  - intros now d' e' Hne. unfold validate, get. by rewrite lookup_insert_ne.
  - intros env' u' s2 [Ha' ->]%revoke_Ok. split; [done|]. intros now. unfold validate, get.
    by rewrite lookup_delete_eq.
Qed.

Lemma delegation_lifecycle_witness :
  let env := mkEnv 50 1 (λ a, bool_decide (a = 2%positive)) (λ _ _, None) (λ _ _ _ _, None) in
  let s1 : RegistryStore := {[ (2, 3)%positive := mkDelegation 12 100 ]} in
  authorized env 2%positive = true ∧
  (∀ now, validate now s1 2%positive 3%positive 8 = true ↔
     (100 = 0 ∨ now < 100) ∧ Z.land 12 8 ≠ 0) ∧
  (∀ now d' e', (d', e') ≠ (2, 3)%positive →
     validate now s1 d' e' 8 = validate now ∅ d' e' 8) ∧
  (∀ env' u' s2, revoke 2%positive 3%positive env' s1 = (Ok u', s2) →
     authorized env' 2%positive = true ∧ ∀ now, validate now s2 2%positive 3%positive 8 = false).
Proof.
  intros env s1. apply (delegation_lifecycle 2%positive 3%positive 12 100 8 env ∅ tt s1).
  vm_compute. reflexivity.
Defined.
