(* ===== verification/DataStore.v ===== *)
(** * DataStore: the key-value store contract ([lending/src/data_store.rs])

    The contract keeps entries under typed keys beside an index of the live
    keys and a counter, and named snapshots as two parallel lists.  [Document]
    is what it promises: a finite map with named copies, a set of writers and a
    version.  The operations refine the document's transitions, guards and
    errors included. *)

From S2P Require Import Prelude Host.

(** ** Data *)

Definition MAX_KEY_LEN : Z := 64.
Definition MAX_VALUE_LEN : Z := 4096.
Definition MAX_ENTRIES : Z := 1000.
Definition MAX_BACKUP_NAME : Z := 32.

Inductive DataStoreError : Type :=
  | DE_AlreadyInitialized | DE_NotAuthorized | DE_KeyTooLong | DE_ValueTooLarge
  | DE_KeyNotFound | DE_BackupNotFound | DE_StoreFull | DE_BackupNameTooLong
  | DE_NotInitialized | DE_InvalidVersion.

Abbreviation Bytes := (list Byte.byte) (only parsing).

(** [soroban_sdk::String::len] and [Bytes::len] *)
Definition str_len (k : string) : Z := Z.of_nat (String.length k).
Definition bytes_len (v : Bytes) : Z := Z.of_nat (length v).

Inductive DataStoreEvent : Type :=
  | DataStoreInitEvent (admin : Address)
  | DataStoreWriterChangeEvent (caller writer : Address)
  | DataStoreSaveEvent (caller : Address) (key : string) (value_len : Z)
  | DataStoreBackupEvent (caller : Address) (backup_name : string) (key_count : Z)
  | DataStoreRestoreEvent (caller : Address) (backup_name : string) (entry_count : Z)
  | DataStoreMigrateEvent (caller : Address) (new_version : Z) (memo : option string).

(** [StoreKey] *)
Record Store : Type := mkStore {
  kAdmin : option Address;
  kWriters : option (list Address);
  kSchemaVersion : option Z;
  kEntryCount : option Z;
  kEntry : gmap string Bytes;
  kBackup : gmap string (list string * list Bytes);
  kKeyIndex : option (list string);
  kTotalAssets : option Z;
  kReserves : option Z;
  ds_events : list DataStoreEvent;
}.
#[export] Instance Store_upd : Updatable Store := λ s,
  mkStore (kAdmin s) (kWriters s) (kSchemaVersion s) (kEntryCount s) (kEntry s) (kBackup s)
    (kKeyIndex s) (kTotalAssets s) (kReserves s) (ds_events s).

Definition empty_store : Store := mkStore None None None None ∅ ∅ None None None [].

(** An entry point aborts with a [DataStoreError] by [panic_with_error!]. *)
Abbreviation DM := (M Store DataStoreError) (only parsing).

Definition publish (ev : DataStoreEvent) : DM unit :=
  modify (λ s, s <| ds_events := ds_events s ++ [ev] |>).

(** ** Guards *)

Definition writers (s : Store) : list Address := default [] (kWriters s).
Definition key_index (s : Store) : list string := default [] (kKeyIndex s).

Definition assert_initialized : DM unit :=
  admin ← gets kAdmin;
  reject_if (bool_decide (admin = None)) DE_NotInitialized.

Definition assert_admin (caller : Address) : DM unit :=
  stored ← gets kAdmin;
  admin ← ok_or stored DE_NotInitialized;
  reject_if (bool_decide (caller ≠ admin)) DE_NotAuthorized.

Definition assert_can_write (caller : Address) : DM unit :=
  stored ← gets kAdmin;
  admin ← ok_or stored DE_NotInitialized;
  if bool_decide (caller = admin) then mret tt else
  ws ← gets writers;
  reject_if (negb (bool_decide (caller ∈ ws))) DE_NotAuthorized.

(** ** Entry points *)

Definition init (admin : Address) : DM unit :=
  require_auth admin ;;
  stored ← gets kAdmin;
  reject_if (bool_decide (stored ≠ None)) DE_AlreadyInitialized ;;
  modify (λ s, s <| kAdmin := Some admin |> <| kSchemaVersion := Some 0 |>
                 <| kEntryCount := Some 0 |> <| kWriters := Some [] |> <| kKeyIndex := Some [] |>) ;;
  publish (DataStoreInitEvent admin).

Definition grant_writer (caller writer : Address) : DM unit :=
  require_auth caller ;;
  assert_admin caller ;;
  ws ← gets writers;
  when (negb (bool_decide (writer ∈ ws)))
    (modify (λ s, s <| kWriters := Some (ws ++ [writer]) |>)) ;;
  publish (DataStoreWriterChangeEvent caller writer).

(** [for w in writers.iter() { if w != writer { new_writers.push_back(w); } }] *)
Definition without (writer : Address) (ws : list Address) : list Address :=
  foldl (λ acc w, if bool_decide (w ≠ writer) then acc ++ [w] else acc) [] ws.

Definition revoke_writer (caller writer : Address) : DM unit :=
  require_auth caller ;;
  assert_admin caller ;;
  ws ← gets writers;
  modify (λ s, s <| kWriters := Some (without writer ws) |>) ;;
  publish (DataStoreWriterChangeEvent caller writer).

Definition data_save (caller : Address) (key : string) (value : Bytes) : DM unit :=
  require_auth caller ;;
  assert_initialized ;;
  assert_can_write caller ;;
  reject_if (MAX_KEY_LEN <? str_len key) DE_KeyTooLong ;;
  reject_if (MAX_VALUE_LEN <? bytes_len value) DE_ValueTooLarge ;;
  present ← gets (λ s, kEntry s !! key);
  when (bool_decide (present = None))
    (count ← gets (λ s, default 0 (kEntryCount s));
     reject_if (MAX_ENTRIES <=? count) DE_StoreFull ;;
     modify (λ s, s <| kKeyIndex := Some (key_index s ++ [key]) |>) ;;
     next ← unwrap (fit in_u32 (count + 1));
     modify (λ s, s <| kEntryCount := Some next |>)) ;;
  modify (λ s, s <| kEntry := <[key := value]> (kEntry s) |>) ;;
  publish (DataStoreSaveEvent caller key (bytes_len value)).

Definition data_load (key : string) : DM Bytes :=
  assert_initialized ;;
  stored ← gets (λ s, kEntry s !! key);
  ok_or stored DE_KeyNotFound.

(** The loop of [data_backup], with its two accumulators. *)
Fixpoint snapshot (entries : gmap string Bytes) (keys : list string)
    (snap_keys : list string) (snap_vals : list Bytes) : list string * list Bytes :=
  match keys with
  | [] => (snap_keys, snap_vals)
  | k :: keys =>
      match entries !! k with
      | Some v => snapshot entries keys (snap_keys ++ [k]) (snap_vals ++ [v])
      | None => snapshot entries keys snap_keys snap_vals
      end
  end.

Definition data_backup (caller : Address) (backup_name : string) : DM unit :=
  require_auth caller ;;
  assert_initialized ;;
  assert_can_write caller ;;
  reject_if (MAX_BACKUP_NAME <? str_len backup_name) DE_BackupNameTooLong ;;
  keys ← gets key_index;
  snap ← gets (λ s, snapshot (kEntry s) keys [] []);
  modify (λ s, s <| kBackup := <[backup_name := snap]> (kBackup s) |>) ;;
  publish (DataStoreBackupEvent caller backup_name (Z.of_nat (length keys))).

(** The two loops of [data_restore]: the second traps when a value is missing. *)
Definition remove_entries (keys : list string) (entries : gmap string Bytes) :
    gmap string Bytes := foldl (λ m k, delete k m) entries keys.

Fixpoint write_entries (keys : list string) (vals : list Bytes) (entries : gmap string Bytes)
    (index : list string) : option (gmap string Bytes * list string) :=
  match keys, vals with
  | [], _ => Some (entries, index)
  | k :: keys, v :: vals => write_entries keys vals (<[k := v]> entries) (index ++ [k])
  | _ :: _, [] => None
  end.

Definition data_restore (caller : Address) (backup_name : string) : DM unit :=
  require_auth caller ;;
  assert_initialized ;;
  assert_admin caller ;;
  stored ← gets (λ s, kBackup s !! backup_name);
  snap ← ok_or stored DE_BackupNotFound;
  old_index ← gets key_index;
  entries ← gets (λ s, remove_entries old_index (kEntry s));
  written ← unwrap (write_entries snap.1 snap.2 entries []);
  let snap_len := Z.of_nat (length snap.1) in
  modify (λ s, s <| kEntry := written.1 |> <| kKeyIndex := Some written.2 |>
                 <| kEntryCount := Some snap_len |>) ;;
  publish (DataStoreRestoreEvent caller backup_name snap_len).

Definition schema_of (s : Store) : Z := default 0 (kSchemaVersion s).

Definition data_migrate_bump_version (caller : Address) (new_version : Z) (memo : option string) :
    DM unit :=
  require_auth caller ;;
  assert_initialized ;;
  assert_admin caller ;;
  current ← gets schema_of;
  reject_if (new_version <=? current) DE_InvalidVersion ;;
  reject_if (from_option (λ m, 128 <? str_len m) false memo) DE_ValueTooLarge ;;
  modify (λ s, s <| kSchemaVersion := Some new_version |>) ;;
  publish (DataStoreMigrateEvent caller new_version memo).

(** ** Queries *)

Definition schema_version : DM Z := assert_initialized ;; gets schema_of.
Definition entry_count : DM Z := assert_initialized ;; gets (λ s, default 0 (kEntryCount s)).
Definition key_exists (key : string) : DM bool :=
  assert_initialized ;; gets (λ s, bool_decide (is_Some (kEntry s !! key))).
Definition get_store_admin : DM Address :=
  assert_initialized ;; stored ← gets kAdmin; ok_or stored DE_NotInitialized.
Definition is_writer (s : Store) (address : Address) : bool :=
  match kAdmin s with
  | None => false
  | Some admin => bool_decide (admin = address) || bool_decide (address ∈ writers s)
  end.

Definition get_total_assets (s : Store) : Z := default 0 (kTotalAssets s).
Definition set_total_assets (assets : Z) : DM unit := modify (λ s, s <| kTotalAssets := Some assets |>).
Definition get_protocol_reserves (s : Store) : Z := default 0 (kReserves s).
Definition set_protocol_reserves (reserves : Z) : DM unit :=
  modify (λ s, s <| kReserves := Some reserves |>).

(** ** Specification: a document with named copies *)

Record Document : Type := mkDocument {
  doc_admin : Address;
  doc_writers : gset Address;
  doc_version : Z;
  doc_entries : gmap string Bytes;
  doc_copies : gmap string (gmap string Bytes);
}.
#[export] Instance Document_upd : Updatable Document := λ d,
  mkDocument (doc_admin d) (doc_writers d) (doc_version d) (doc_entries d) (doc_copies d).

Inductive StoreCall : Type :=
  | CallInit (admin : Address)
  | CallGrantWriter (caller writer : Address)
  | CallRevokeWriter (caller writer : Address)
  | CallSave (caller : Address) (key : string) (value : Bytes)
  | CallBackup (caller : Address) (backup_name : string)
  | CallRestore (caller : Address) (backup_name : string)
  | CallMigrate (caller : Address) (new_version : Z) (memo : option string)
  | CallSetTotalAssets (assets : Z)
  | CallSetReserves (reserves : Z).

Definition apply_call (c : StoreCall) : DM unit :=
  match c with
  | CallInit a => init a
  | CallGrantWriter c w => grant_writer c w
  | CallRevokeWriter c w => revoke_writer c w
  | CallSave c k v => data_save c k v
  | CallBackup c n => data_backup c n
  | CallRestore c n => data_restore c n
  | CallMigrate c v m => data_migrate_bump_version c v m
  | CallSetTotalAssets a => set_total_assets a
  | CallSetReserves r => set_protocol_reserves r
  end.

Definition owns (d : Document) (caller : Address) : bool := bool_decide (caller = doc_admin d).
Definition can_write (d : Document) (caller : Address) : bool :=
  owns d caller || bool_decide (caller ∈ doc_writers d).
Definition has_room (d : Document) (key : string) : bool :=
  bool_decide (is_Some (doc_entries d !! key)) || (Z.of_nat (size (doc_entries d)) <? MAX_ENTRIES).

(** The document after a call; [None] when the call is refused. *)
Definition doc_next (signed : Address → bool) (c : StoreCall) (d : option Document) :
    option (option Document) :=
  match c, d with
  | CallInit a, None => if signed a then Some (Some (mkDocument a ∅ 0 ∅ ∅)) else None
  | CallGrantWriter c w, Some d =>
      if signed c && owns d c
      then Some (Some (d <| doc_writers := {[w]} ∪ doc_writers d |>)) else None
  | CallRevokeWriter c w, Some d =>
      if signed c && owns d c
      then Some (Some (d <| doc_writers := doc_writers d ∖ {[w]} |>)) else None
  | CallSave c k v, Some d =>
      if signed c && can_write d c && (str_len k <=? MAX_KEY_LEN) &&
         (bytes_len v <=? MAX_VALUE_LEN) && has_room d k
      then Some (Some (d <| doc_entries := <[k := v]> (doc_entries d) |>)) else None
  | CallBackup c n, Some d =>
      if signed c && can_write d c && (str_len n <=? MAX_BACKUP_NAME)
      then Some (Some (d <| doc_copies := <[n := doc_entries d]> (doc_copies d) |>)) else None
  | CallRestore c n, Some d =>
      if signed c && owns d c then
        copy ← doc_copies d !! n;
        Some (Some (d <| doc_entries := copy |>))
      else None
  | CallMigrate c v memo, Some d =>
      if signed c && owns d c && (doc_version d <? v) && negb (from_option (λ m, 128 <? str_len m) false memo)
      then Some (Some (d <| doc_version := v |>)) else None
  | CallSetTotalAssets _, d | CallSetReserves _, d => Some d
  | _, _ => None
  end.

(** The document a state of the contract stands for. *)
Definition copy_of (snap : list string * list Bytes) : gmap string Bytes :=
  list_to_map (zip snap.1 snap.2).

Definition view (s : Store) : option Document :=
  (λ admin, mkDocument admin (list_to_set (writers s)) (schema_of s) (kEntry s)
              (copy_of <$> kBackup s)) <$> kAdmin s.

Definition entry_ok (k : string) (v : Bytes) : Prop :=
  str_len k ≤ MAX_KEY_LEN ∧ bytes_len v ≤ MAX_VALUE_LEN.

Record snap_ok (snap : list string * list Bytes) : Prop := {
  sn_keys : NoDup snap.1;
  sn_length : length snap.1 = length snap.2;
  sn_size : Z.of_nat (length snap.1) ≤ MAX_ENTRIES;
  sn_entries : Forall (λ e, entry_ok e.1 e.2) (zip snap.1 snap.2);
}.

Record store_ok (s : Store) : Prop := {
  so_fresh : kAdmin s = None → kEntry s = ∅ ∧ kBackup s = ∅;
  so_keys : NoDup (key_index s);
  so_index : ∀ k, k ∈ key_index s ↔ is_Some (kEntry s !! k);
  so_count : default 0 (kEntryCount s) = Z.of_nat (length (key_index s));
  so_size : Z.of_nat (length (key_index s)) ≤ MAX_ENTRIES;
  so_entries : map_Forall entry_ok (kEntry s);
  so_backups : map_Forall (λ _, snap_ok) (kBackup s);
  so_version : 0 ≤ schema_of s;
}.

(** ** Lemmas: the loops *)

Definition values (entries : gmap string Bytes) (keys : list string) : list Bytes :=
  (λ k, default [] (entries !! k)) <$> keys.

Lemma snapshot_run entries keys ks vs :
  (∀ k, k ∈ keys → is_Some (entries !! k)) →
  snapshot entries keys ks vs = (ks ++ keys, vs ++ values entries keys).
Proof.
  revert ks vs. induction keys as [|k keys IH]; intros ks vs Hk; cbn; [by rewrite !app_nil_r|].
  destruct (Hk k ltac:(set_solver)) as [v Hv]. rewrite Hv, IH by set_solver.
  by rewrite <- !app_assoc.
Qed.

Lemma zip_values entries keys : zip keys (values entries keys) = (λ k, (k, default [] (entries !! k))) <$> keys.
Proof. induction keys; cbn; [done|]. by f_equal. Qed.

Lemma copy_values entries keys :
  (∀ k, k ∈ keys ↔ is_Some (entries !! k)) → NoDup keys → copy_of (keys, values entries keys) = entries.
Proof.
  intros Hk Hnd. unfold copy_of. cbn [fst snd]. rewrite zip_values. apply map_eq. intros k.
  apply option_eq. intros v. rewrite <- elem_of_list_to_map.
  2: { rewrite <- list_fmap_compose. cbn. by rewrite list_fmap_id. }
  rewrite list_elem_of_fmap. split.
  - intros (k' & [= -> ->] & Hin). apply Hk in Hin as [v Hv]. by rewrite Hv.
  - intros Hv. exists k. split; [by rewrite Hv|]. apply Hk. by eexists.
Qed.

Lemma remove_entries_lookup keys entries k :
  remove_entries keys entries !! k = if bool_decide (k ∈ keys) then None else entries !! k.
Proof.
  unfold remove_entries. revert entries. induction keys as [|k' keys IH]; intros entries; cbn; [done|].
  rewrite IH, (bool_decide_ext _ _ (elem_of_cons keys k k')).
  destruct (decide (k = k')) as [->|Hne].
  - rewrite lookup_delete_eq. by repeat case_bool_decide; [|tauto..].
  - rewrite lookup_delete_ne by done. by repeat case_bool_decide; try tauto.
Qed.

Lemma remove_all keys entries :
  (∀ k, is_Some (entries !! k) → k ∈ keys) → remove_entries keys entries = ∅.
Proof.
  intros Hk. apply map_empty. intros k. rewrite remove_entries_lookup. case_bool_decide as Hn; [done|].
  apply eq_None_not_Some. intros ?. by apply Hn, Hk.
Qed.

Lemma write_entries_run keys vals entries index :
  length keys = length vals → NoDup keys →
  write_entries keys vals entries index = Some (copy_of (keys, vals) ∪ entries, index ++ keys).
Proof.
  revert vals entries index. induction keys as [|k keys IH]; intros [|v vals] entries index; try done; cbn.
  - intros _ _. unfold copy_of. cbn. by rewrite (left_id_L ∅ (∪)), app_nil_r.
  - intros [= Hl] [Hk Hnd]%NoDup_cons. rewrite IH by done. unfold copy_of. cbn.
    rewrite <- app_assoc. cbn. do 2 f_equal. rewrite <- insert_union_r, insert_union_l; [done|].
    apply not_elem_of_list_to_map_1. rewrite fst_zip by lia. done.
Qed.

Lemma size_index (entries : gmap string Bytes) keys :
  (∀ k, k ∈ keys ↔ is_Some (entries !! k)) → NoDup keys → size entries = length keys.
Proof.
  intros Hk Hnd. rewrite <- size_dom. rewrite <- (size_list_to_set (C := gset string) keys) by done.
  f_equal. apply set_eq. intros k. by rewrite elem_of_list_to_set, Hk, elem_of_dom.
Qed.

Lemma without_filter writer ws : without writer ws = filter (λ w, w ≠ writer) ws.
Proof.
  enough (∀ acc, foldl (λ acc w, if bool_decide (w ≠ writer) then acc ++ [w] else acc) acc ws =
                 acc ++ filter (λ w, w ≠ writer) ws) as H by apply H.
  induction ws as [|w ws IH]; intros acc; cbn [foldl]; [by rewrite app_nil_r|]. rewrite IH, filter_cons.
  case_bool_decide; destruct (decide _); try done. by rewrite <- app_assoc.
Qed.

Lemma copy_entry_ok snap : snap_ok snap → map_Forall entry_ok (copy_of snap).
Proof.
  intros [? ? ? Hf] k v Hv. apply elem_of_list_to_map_2 in Hv. rewrite Forall_forall in Hf. by apply (Hf (k, v)).
Qed.

Lemma copy_keys snap : snap_ok snap → ∀ k, k ∈ snap.1 ↔ is_Some (copy_of snap !! k).
Proof.
  intros [? Hl ? _] k. unfold copy_of.
  rewrite <- not_eq_None_Some, <- not_elem_of_list_to_map, fst_zip by lia. destruct (decide (k ∈ snap.1)); tauto.
Qed.

(** ** Lemmas: the guards *)

Section guards.
Context (env : Env) (s : Store) (admin : Address) (Hadmin : kAdmin s = Some admin).

Lemma initialized_run : assert_initialized env s = (Ok tt, s).
Proof. unfold assert_initialized. run_fwd. by rewrite Hadmin. Qed.

Lemma store_admin_run caller :
  assert_admin caller env s =
  (if bool_decide (caller = admin) then Ok tt else Err DE_NotAuthorized, s).
Proof.
  unfold assert_admin. run_fwd. rewrite Hadmin. run_fwd.
  by repeat case_bool_decide.
Qed.

Lemma can_write_run caller :
  assert_can_write caller env s =
  (if bool_decide (caller = admin) || bool_decide (caller ∈ writers s)
   then Ok tt else Err DE_NotAuthorized, s).
Proof.
  unfold assert_can_write. run_fwd. rewrite Hadmin. run_fwd.
  destruct (bool_decide (caller = admin)); [done|]. run_fwd. by destruct (bool_decide _).
Qed.

Lemma view_run : view s = Some (mkDocument admin (list_to_set (writers s)) (schema_of s) (kEntry s)
                                  (copy_of <$> kBackup s)).
Proof. unfold view. by rewrite Hadmin. Qed.
End guards.

Lemma no_admin_no_write caller env s r s' :
  kAdmin s = None → assert_can_write caller env s = (r, s') → r = Err DE_NotInitialized.
Proof. intros H. unfold assert_can_write. run_fwd. rewrite H. cbn. congruence. Qed.

(** What a call does, as the document sees it. *)
Definition refined (c : StoreCall) (env : Env) (s : Store) : Prop :=
  match doc_next (authorized env) c (view s) with
  | Some d => ∃ s', apply_call c env s = (Ok tt, s') ∧ store_ok s' ∧ view s' = d
  | None => ∀ s', apply_call c env s ≠ (Ok tt, s')
  end.

(** Guards that fail before anything is written. *)
Ltac refused := intros ?; run_fwd; congruence.


(** Starts the proof of a refinement: the caller's signature and role. *)
Ltac signed_by env caller :=
  rewrite bind_eq; unfold require_auth; destruct (authorized env caller); [|refused].

Ltac admin_only Ha env caller :=
  rewrite bind_eq; first [rewrite (initialized_run _ _ _ Ha), bind_eq|idtac];
  rewrite (store_admin_run _ _ _ Ha); cbn [andb]; unfold owns; cbn [doc_admin];
  destruct (bool_decide (caller = _)); [|refused].

Ltac writers_only Ha env caller :=
  rewrite bind_eq, (initialized_run _ _ _ Ha), bind_eq, (can_write_run _ _ _ Ha);
  cbn [andb]; unfold can_write, owns; cbn [doc_admin doc_writers];
  rewrite (bool_decide_ext _ _ (elem_of_list_to_set (C := gset Address) caller _));
  destruct (bool_decide (caller = _) || bool_decide (caller ∈ _)); [|refused].

Lemma view_intro s admin ws v entries copies :
  kAdmin s = Some admin → list_to_set (writers s) = ws → schema_of s = v → kEntry s = entries →
  copy_of <$> kBackup s = copies → view s = Some (mkDocument admin ws v entries copies).
Proof. unfold view. by intros -> <- <- <- <-. Qed.

Lemma grant_refined caller writer env s admin :
  kAdmin s = Some admin → store_ok s → refined (CallGrantWriter caller writer) env s.
Proof.
  intros Ha Hok. unfold refined, apply_call, grant_writer, doc_next. rewrite (view_run _ _ Ha).
  signed_by env caller. admin_only Ha env caller. run_fwd.
  case_bool_decide; run_fwd; (eexists; split; [reflexivity|split; [by destruct Hok|]]);
    apply view_intro; try done; unfold writers in *; cbn; set_solver.
Qed.

Lemma revoke_refined caller writer env s admin :
  kAdmin s = Some admin → store_ok s → refined (CallRevokeWriter caller writer) env s.
Proof.
  intros Ha Hok. unfold refined, apply_call, revoke_writer, doc_next. rewrite (view_run _ _ Ha).
  signed_by env caller. admin_only Ha env caller. run_fwd. eexists. split; [reflexivity|split].
  - by destruct Hok.
  - apply view_intro; try done. unfold writers at 1. cbn.
    rewrite without_filter. apply set_eq. intros w.
    rewrite elem_of_difference, !elem_of_list_to_set, list_elem_of_filter, elem_of_singleton. tauto.
Qed.

Lemma migrate_refined caller v memo env s admin :
  kAdmin s = Some admin → store_ok s → refined (CallMigrate caller v memo) env s.
Proof.
  intros Ha Hok. unfold refined, apply_call, data_migrate_bump_version, doc_next. rewrite (view_run _ _ Ha).
  signed_by env caller. admin_only Ha env caller. run_fwd. cbn [doc_version].
  rewrite Z.leb_antisym. destruct (Z.ltb_spec (schema_of s) v); [|refused]. run_fwd.
  destruct (from_option _ _ memo); [refused|]. run_fwd. eexists. split; [reflexivity|split].
  - destruct Hok. split; try done. unfold schema_of. cbn. lia.
  - unfold view. cbn. by rewrite Ha.
Qed.

Lemma init_refined a env s : store_ok s → refined (CallInit a) env s.
Proof.
  intros Hok. unfold refined, apply_call, init, doc_next, view. destruct (kAdmin s) as [admin|] eqn:Ha; cbn [fmap option_fmap option_map].
  - signed_by env a. intros s1. run_fwd. rewrite Ha. cbn. congruence.
  - destruct (so_fresh s Hok Ha) as [He Hb].
    signed_by env a. run_fwd. rewrite Ha, bool_decide_eq_false_2 by tauto. run_fwd.
    eexists. split; [reflexivity|split].
    + split; cbn; rewrite ?He, ?Hb; try done; try (intros; set_solver).
      * apply NoDup_nil_2.
      * intros k. rewrite lookup_empty. unfold is_Some. set_solver.
    + cbn. rewrite He, Hb. by rewrite fmap_empty.
Qed.

Lemma room_is_count s admin key :
  kAdmin s = Some admin → store_ok s → kEntry s !! key = None →
  has_room (mkDocument admin (list_to_set (writers s)) (schema_of s) (kEntry s) (copy_of <$> kBackup s)) key
  = negb (MAX_ENTRIES <=? default 0 (kEntryCount s)).
Proof.
  intros Ha Hok Hn. unfold has_room. cbn. rewrite Hn, bool_decide_eq_false_2 by (intros [? ?]; done). cbn.
  rewrite (size_index _ _ (so_index s Hok) (so_keys s Hok)), (so_count s Hok). lia.
Qed.

Lemma save_keeps s key value :
  store_ok s → entry_ok key value → is_Some (kEntry s !! key) →
  store_ok (s <| kEntry := <[key := value]> (kEntry s) |>).
Proof.
  intros [Hf Hn Hi Hc Hs He Hb Hv] Hkv Hin. split; try done.
  - intros H. destruct (Hf H) as [E _]. rewrite E in Hin. by destruct Hin.
  - cbn. intros k. change (k ∈ key_index s ↔ is_Some (<[key := value]> (kEntry s) !! k)). rewrite Hi.
    destruct (decide (k = key)) as [->|]; [by rewrite lookup_insert_eq|by rewrite lookup_insert_ne].
  - by apply map_Forall_insert_2.
Qed.

Lemma append_keeps s key value :
  store_ok s → entry_ok key value → kEntry s !! key = None → kAdmin s ≠ None →
  default 0 (kEntryCount s) < MAX_ENTRIES →
  store_ok (s <| kKeyIndex := Some (key_index s ++ [key]) |>
              <| kEntryCount := Some (default 0 (kEntryCount s) + 1) |>
              <| kEntry := <[key := value]> (kEntry s) |>).
Proof.
  intros [Hf Hn Hi Hc Hs He Hb Hv] Hkv Hin Ha Hroom. split; try done; cbn.
  - apply NoDup_app. split_and!; [done| |apply NoDup_singleton].
    intros k Hk%Hi ->%list_elem_of_singleton. rewrite Hin in Hk. by destruct Hk.
  - intros k. rewrite elem_of_app, list_elem_of_singleton, Hi.
    destruct (decide (k = key)) as [->|]; [rewrite lookup_insert_eq; naive_solver|].
    rewrite lookup_insert_ne by done. naive_solver.
  - rewrite length_app, Hc. cbn. lia.
  - rewrite length_app. cbn. lia.
  - by apply map_Forall_insert_2.
Qed.

Lemma save_refined caller key value env s admin :
  kAdmin s = Some admin → store_ok s → refined (CallSave caller key value) env s.
Proof.
  intros Ha Hok. unfold refined, apply_call, data_save, doc_next. rewrite (view_run _ _ Ha).
  signed_by env caller. writers_only Ha env caller. run_fwd.
  rewrite Z.leb_antisym. destruct (Z.ltb_spec MAX_KEY_LEN (str_len key)); [refused|]. run_fwd.
  rewrite Z.leb_antisym. destruct (Z.ltb_spec MAX_VALUE_LEN (bytes_len value)); [refused|]. run_fwd.
  assert (entry_ok key value) as Hkv by done.
  destruct (kEntry s !! key) as [old|] eqn:Hin.
  - rewrite bool_decide_eq_false_2 by done. run_fwd. unfold has_room at 1. cbn [doc_entries].
    rewrite Hin, bool_decide_eq_true_2 by done. run_fwd. eexists. split; [reflexivity|split].
    + pose proof (save_keeps s key value Hok Hkv ltac:(by rewrite Hin)) as []. by split.
    + by apply view_intro.
  - rewrite bool_decide_eq_true_2 by done. rewrite (room_is_count _ _ _ Ha Hok Hin). run_fwd.
    destruct (Z.leb_spec MAX_ENTRIES (default 0 (kEntryCount s))); [refused|]. run_fwd.
    assert (fit in_u32 (default 0 (kEntryCount s) + 1) = Some (default 0 (kEntryCount s) + 1)) as ->.
    { apply fit_in. rewrite (so_count s Hok) in *. unfold in_u32, in_range, MAX_ENTRIES in *.
      rewrite U32_MAX_eq. lia. }
    run_fwd. eexists. split; [reflexivity|split].
    + pose proof (append_keeps s key value Hok Hkv Hin ltac:(congruence) ltac:(done)) as []. by split.
    + by apply view_intro.
Qed.

Lemma backup_refined caller name env s admin :
  kAdmin s = Some admin → store_ok s → refined (CallBackup caller name) env s.
Proof.
  intros Ha Hok. unfold refined, apply_call, data_backup, doc_next. rewrite (view_run _ _ Ha).
  signed_by env caller. writers_only Ha env caller. run_fwd.
  rewrite Z.leb_antisym. destruct (Z.ltb_spec MAX_BACKUP_NAME (str_len name)); [refused|]. run_fwd.
  rewrite (snapshot_run _ _ _ _ (λ k, proj1 (so_index s Hok k))). cbn [app].
  eexists. split; [reflexivity|split].
  - destruct Hok as [Hf Hn Hi Hc Hs He Hb Hv]. split; try done.
    + intros Hno. cbn in Hno. congruence.
    + cbn. apply map_Forall_insert_2; [|done].
      split; cbn; [done| |done|]; [unfold values; by rewrite length_fmap|].
      rewrite zip_values. apply Forall_fmap, Forall_forall. intros k [v Hk]%Hi. cbn.
      rewrite Hk. by apply He.
  - apply view_intro; try done. cbn. rewrite fmap_insert. f_equal.
    by apply copy_values; [apply so_index|apply so_keys].
Qed.

Lemma restore_refined caller name env s admin :
  kAdmin s = Some admin → store_ok s → refined (CallRestore caller name) env s.
Proof.
  intros Ha Hok. unfold refined, apply_call, data_restore, doc_next. rewrite (view_run _ _ Ha).
  signed_by env caller. admin_only Ha env caller. run_fwd. cbn [doc_copies].
  rewrite lookup_fmap. destruct (kBackup s !! name) as [snap|] eqn:Hsnap; [|refused].
  pose proof (so_backups s Hok _ _ Hsnap) as Hs. cbn in Hs.
  run_fwd. rewrite write_entries_run by apply Hs.
  rewrite (remove_all (key_index s) (kEntry s)) by (intros k; apply (so_index s Hok)).
  run_fwd. cbn [app fst snd]. rewrite <- surjective_pairing, (right_id_L ∅ (∪)).
  eexists. split; [reflexivity|split].
  - pose proof (copy_keys snap Hs) as Hk. pose proof (copy_entry_ok snap Hs) as He.
    destruct Hok, Hs. split; try done; cbn; congruence.
  - by apply view_intro.
Qed.

Lemma settings_refined env s x :
  store_ok s → refined (CallSetTotalAssets x) env s ∧ refined (CallSetReserves x) env s.
Proof.
  intros Hok. split; unfold refined, apply_call, doc_next, view, set_total_assets, set_protocol_reserves;
    destruct (kAdmin s) as [a|] eqn:Ha; cbn; eexists;
    (split; [reflexivity|split; [by destruct Hok|by cbn; rewrite Ha]]).
Qed.

(** Before [init] every administrative call is refused. *)
Lemma fresh_refused c env s :
  kAdmin s = None → doc_next (authorized env) c None = None → ∀ s', apply_call c env s ≠ (Ok tt, s').
Proof.
  intros Ha Hd s' H.
  destruct c; cbn [apply_call] in H; cbn in Hd; try done;
    unfold init, grant_writer, revoke_writer, data_save, data_backup, data_restore,
      data_migrate_bump_version, assert_initialized, assert_admin in H;
    run_inv H; zbool; try congruence.
  by match goal with H : authorized _ _ = true |- _ => rewrite H in Hd end.
Qed.

Lemma call_refined c env s : store_ok s → refined c env s.
Proof.
  intros Hok. destruct (kAdmin s) as [admin|] eqn:Ha.
  - destruct c; [by apply init_refined|by eapply grant_refined|by eapply revoke_refined
      |by eapply save_refined|by eapply backup_refined|by eapply restore_refined
      |by eapply migrate_refined|by apply settings_refined|by apply settings_refined].
  - assert (view s = None) as Hv by (unfold view; by rewrite Ha).
    destruct c; try (by apply init_refined); try (by apply settings_refined);
      unfold refined; rewrite Hv; cbn [doc_next]; by apply fresh_refused.
Qed.

(** ** Sequences of invocations *)

Definition after (e : Env * StoreCall) (s : Store) : Store := (invoke (apply_call e.2) e.1 s).2.
Definition run_all (cs : list (Env * StoreCall)) (s : Store) : Store := foldl (λ s e, after e s) s cs.

Definition doc_after (e : Env * StoreCall) (d : option Document) : option Document :=
  default d (doc_next (authorized e.1) e.2 d).
Definition doc_run (cs : list (Env * StoreCall)) (d : option Document) : option Document :=
  foldl (λ d e, doc_after e d) d cs.

Lemma empty_store_ok : store_ok empty_store.
Proof.
  split; try done; cbn.
  - apply NoDup_nil_2.
  - intros k. rewrite lookup_empty. unfold is_Some. set_solver.
Qed.

Lemma after_simulates e s : store_ok s → store_ok (after e s) ∧ view (after e s) = doc_after e (view s).
Proof.
  intros Hok. pose proof (call_refined e.2 e.1 s Hok) as H. unfold refined, after, doc_after, invoke in *.
  destruct (doc_next _ _ _) as [d|].
  - destruct H as (s' & -> & Hs & Hv). done.
  - destruct (apply_call e.2 e.1 s) as [[[]| |] s']; [by destruct (H s')|done|done].
Qed.

Lemma run_simulates cs s : store_ok s → store_ok (run_all cs s) ∧ view (run_all cs s) = doc_run cs (view s).
Proof.
  revert s. induction cs as [|e cs IH]; intros s Hok; [done|]. cbn.
  destruct (after_simulates e s Hok) as [H1 H2]. rewrite <- H2. by apply IH.
Qed.

Lemma success_iff c env s : store_ok s →
  (∃ s', invoke (apply_call c) env s = (Ok tt, s')) ↔ is_Some (doc_next (authorized env) c (view s)).
Proof.
  intros Hok. pose proof (call_refined c env s Hok) as H. unfold refined in H.
  destruct (doc_next _ _ _) as [d|].
  - destruct H as (s' & Hr & _). split; [by eexists|]. intros _. exists s'. by apply invoke_Ok.
  - split; [intros [s' Hr]; by destruct (H s'), (proj1 (invoke_Ok _ _ _ _ _) Hr)|by intros []].
Qed.

(** A copy is kept by calls that do not write a copy of the same name. *)
Lemma doc_keeps_copy name cs d :
  Forall (λ e, ∀ caller, e.2 ≠ CallBackup caller name) cs →
  ∃ d', doc_run cs (Some d) = Some d' ∧ doc_admin d' = doc_admin d ∧
    doc_copies d' !! name = doc_copies d !! name.
Proof.
  intros Hcs. revert d. induction Hcs as [|[env c] cs Hc _ IH]; intros d; [by exists d|]. cbn.
  enough (∃ d1, doc_after (env, c) (Some d) = Some d1 ∧ doc_admin d1 = doc_admin d ∧
    doc_copies d1 !! name = doc_copies d !! name) as (d1 & -> & Ha & Hn).
  { destruct (IH d1) as (d' & ? & ? & ?). exists d'. split_and!; [done|congruence..]. }
  unfold doc_after. cbn. destruct c; cbn in *; try case_match; try by eexists.
  - eexists. split_and!; [done|done|]. cbn. apply lookup_insert_ne. intros ->. by apply (Hc caller).
  - destruct (doc_copies d !! backup_name); by eexists.
Qed.

Lemma data_load_spec k v env s :
  data_load k env s = (Ok v, s) ↔ ∃ d, view s = Some d ∧ doc_entries d !! k = Some v.
Proof.
  unfold view, data_load, assert_initialized. run_fwd.
  destruct (kAdmin s) as [a|]; cbn; [|naive_solver]. split.
  - intros H. eexists. split; [done|]. cbn. by apply ok_or_Ok in H as [-> _].
  - intros (d & [= <-] & Hk). cbn in Hk. run_fwd. by rewrite Hk.
Qed.

(** C39: after any sequence of invocations the key-value store stands for the
    document the specification computes - its index, counter, parallel snapshot
    lists and limits being consistent - an invocation succeeds exactly when the
    specification allows it, and loads return the document's entries. *)
Theorem store_refines_document cs :
  let s := run_all cs empty_store in
  store_ok s ∧ view s = doc_run cs None ∧
  (∀ env c, (∃ s', invoke (apply_call c) env s = (Ok tt, s')) ↔
            is_Some (doc_next (authorized env) c (doc_run cs None))) ∧
  (∀ env k v, data_load k env s = (Ok v, s) ↔
     ∃ d, doc_run cs None = Some d ∧ doc_entries d !! k = Some v).
Proof.
  intros s. destruct (run_simulates cs empty_store empty_store_ok) as [Hok Hv]. fold s in Hok, Hv.
  change (view empty_store) with (@None Document) in Hv. rewrite <- Hv. split_and!; [done|done| |].
  - intros env c. by apply success_iff.
  - intros env k v. apply data_load_spec.
Qed.

(** Whatever is saved, restored or migrated after a backup, as long as no
    backup of the same name is made, the admin can restore it, and gets back
    exactly the entries of the time of the backup. *)
Theorem backup_restores_entries caller admin name cs env env' s s1 :
  store_ok s → kAdmin s = Some admin → authorized env' admin = true →
  data_backup caller name env s = (Ok tt, s1) →
  Forall (λ e, ∀ c, e.2 ≠ CallBackup c name) cs →
  ∃ s2, data_restore admin name env' (run_all cs s1) = (Ok tt, s2) ∧
    kEntry s2 = kEntry s ∧ store_ok s2 ∧ default 0 (kEntryCount s2) = Z.of_nat (size (kEntry s)).
Proof.
  intros Hok Ha Hs Hb Hcs.
  pose proof (call_refined (CallBackup caller name) env s Hok) as H1. unfold refined in H1.
  rewrite (view_run _ _ Ha) in H1. cbn [doc_next apply_call] in H1.
  destruct (_ && _); [|by destruct (H1 s1)].
  destruct H1 as (s1' & H1 & Hok1 & Hv1). rewrite H1 in Hb. injection Hb as ->.
  destruct (run_simulates cs s1 Hok1) as [Hok2 Hv2]. rewrite Hv1 in Hv2.
  match type of Hv2 with _ = doc_run _ (Some ?d) =>
    destruct (doc_keeps_copy name cs d Hcs) as (d' & Hd & Had & Hcopy) end.
  rewrite Hd in Hv2. cbn in Had, Hcopy. rewrite lookup_insert_eq in Hcopy.
  pose proof (call_refined (CallRestore admin name) env' _ Hok2) as H3. unfold refined in H3.
  rewrite Hv2 in H3. cbn [doc_next apply_call] in H3. rewrite Hs in H3. unfold owns in H3.
  rewrite Had, bool_decide_eq_true_2, Hcopy in H3 by done. cbn in H3.
  destruct H3 as (s2 & H3 & Hok3 & Hv3). exists s2.
  assert (kEntry s2 = kEntry s) as He.
  { unfold view in Hv3. destruct (kAdmin s2); [|done]. cbn in Hv3. by injection Hv3. }
  split_and!; try done. rewrite (so_count _ Hok3), <- He. f_equal. symmetry.
  by apply size_index; [apply so_index|apply so_keys].
Qed.

Lemma is_writer_view s d a : view s = Some d → is_writer s a = can_write d a.
Proof.
  unfold view, is_writer, can_write, owns. destruct (kAdmin s) as [admin|]; [|done]. intros [= <-]. cbn.
  rewrite (bool_decide_ext _ _ (elem_of_list_to_set (C := gset Address) a _)). f_equal.
  by apply bool_decide_ext.
Qed.

(** Entries and backups change only in an invocation signed by the admin or
    a writer, writers and version only in one signed by the admin; the admin
    never changes and the version never falls. *)
Theorem store_access_control c env s d d' :
  store_ok s → view s = Some d → view (after (env, c) s) = Some d' →
  (doc_entries d' ≠ doc_entries d ∨ doc_copies d' ≠ doc_copies d →
   ∃ caller, authorized env caller = true ∧ is_writer s caller = true) ∧
  (authorized env (doc_admin d) = false →
   doc_writers d' = doc_writers d ∧ doc_version d' = doc_version d) ∧
  doc_admin d' = doc_admin d ∧ doc_version d ≤ doc_version d'.
Proof.
  intros Hok Hd Hd'. destruct (after_simulates (env, c) s Hok) as [_ Hv].
  rewrite Hd, Hd' in Hv. setoid_rewrite (is_writer_view s d); [|done]. clear Hok Hd Hd'.
  unfold doc_after in Hv. cbn [fst snd] in Hv.
  assert (d' = d ∨ ∃ caller, authorized env caller = true ∧ can_write d caller = true ∧
    (caller ≠ doc_admin d → doc_writers d' = doc_writers d ∧ doc_version d' = doc_version d) ∧
    doc_admin d' = doc_admin d ∧ doc_version d ≤ doc_version d') as [->|(caller & Hs & Hw & Hx & Ha & Hver)].
  { assert (∀ a, owns d a = true → a = doc_admin d ∧ can_write d a = true) as Ho.
    { intros a H. unfold can_write. rewrite H. by apply bool_decide_eq_true in H. }
    destruct c; cbn in Hv; try (left; by injection Hv);
      match type of Hv with _ = default _ (if ?b then _ else _) => destruct b eqn:Hc end;
      try (left; by injection Hv); try destruct (doc_copies d !! _); cbn in Hv;
      injection Hv as ->; first [by left|right]; repeat rewrite andb_true_iff in Hc;
      destruct_and? Hc; exists caller;
      repeat match goal with H : owns _ _ = true |- _ => apply Ho in H as [? ?] end;
      zbool; split_and!; cbn; try done; lia. }
  - split_and!; [by intros []|done..|lia].
  - split_and!; [by exists caller| |done|done]. intros Hn. apply Hx. congruence.
Qed.

(** ** Examples *)

Definition owner : Address := 1%positive.
Definition clerk : Address := 2%positive.
Definition signers_env : Env := mkEnv 0 0 (λ a, bool_decide (a = owner) || bool_decide (a = clerk))
  (λ _ _, None) (λ _ _ _ _, None).
Definition clerk_env : Env := mkEnv 0 0 (λ a, bool_decide (a = clerk)) (λ _ _, None) (λ _ _ _ _, None).

(** The owner appoints a clerk, who saves two entries. *)
Definition opened : list (Env * StoreCall) :=
  [(signers_env, CallInit owner); (signers_env, CallGrantWriter owner clerk);
   (clerk_env, CallSave clerk "rate" [Byte.x01]); (clerk_env, CallSave clerk "cap" [Byte.x02])].
Definition ledger_store : Store := run_all opened empty_store.

(** Then the rate is overwritten and a third entry is saved. *)
Definition edits : list (Env * StoreCall) :=
  [(clerk_env, CallSave clerk "rate" [Byte.x07]); (clerk_env, CallSave clerk "floor" [])].

Lemma ledger_store_ok : store_ok ledger_store.
Proof. apply (run_simulates opened empty_store empty_store_ok). Qed.

Lemma backup_restores_entries_witness :
  let s1 := (data_backup clerk "v1" clerk_env ledger_store).2 in
  kEntry (run_all edits s1) ≠ kEntry ledger_store ∧
  ∃ s2, data_restore owner "v1" signers_env (run_all edits s1) = (Ok tt, s2) ∧
    kEntry s2 = kEntry ledger_store ∧ store_ok s2 ∧
    default 0 (kEntryCount s2) = Z.of_nat (size (kEntry ledger_store)).
Proof.
  intros s1. split; [intros H; apply (f_equal (λ m, m !! "floor"%string)) in H; by vm_compute in H|].
  apply (backup_restores_entries clerk owner "v1" edits clerk_env signers_env ledger_store s1);
    [apply ledger_store_ok|vm_compute; reflexivity|vm_compute; reflexivity|vm_compute; reflexivity|].
  repeat constructor; discriminate.
Defined.

Lemma store_access_control_witness :
  let c := CallSave clerk "floor" [] in
  let d := default (mkDocument owner ∅ 0 ∅ ∅) (view ledger_store) in
  let d' := default (mkDocument owner ∅ 0 ∅ ∅) (view (after (clerk_env, c) ledger_store)) in
  (doc_entries d' ≠ doc_entries d ∨ doc_copies d' ≠ doc_copies d →
   ∃ caller, authorized clerk_env caller = true ∧ is_writer ledger_store caller = true) ∧
  (authorized clerk_env (doc_admin d) = false →
   doc_writers d' = doc_writers d ∧ doc_version d' = doc_version d) ∧
  doc_admin d' = doc_admin d ∧ doc_version d ≤ doc_version d'.
Proof.
  intros c d d'. apply (store_access_control c clerk_env ledger_store d d');
    [apply ledger_store_ok|vm_compute; reflexivity|vm_compute; reflexivity].
Defined.
