(* ===== verification/Amm.v ===== *)
(** * Amm: the AMM integration contract ([amm/src/amm.rs])

    A router in front of registered AMM protocols: swaps and liquidity
    operations with slippage limits and deadlines, callbacks with a per-user
    nonce, and histories that keep the last thousand records.  The exchange with
    the protocols is the simulation the source has in their place. *)

From stdpp Require Import sorting.
From S2P Require Import Prelude Host.

(** ** Data *)

Inductive AmmError : Type :=
  | AE_InvalidSwapParams | AE_InsufficientLiquidity | AE_SlippageExceeded | AE_InvalidAmmProtocol
  | AE_InvalidCallback | AE_SwapPaused | AE_LiquidityPaused | AE_Unauthorized | AE_Overflow
  | AE_UnsupportedProtocol | AE_InvalidTokenPair | AE_MinOutputNotMet | AE_MaxInputExceeded
  | AE_AlreadyInitialized.

(** [None] is the native asset. *)
Abbreviation Token := (option Address) (only parsing).

Record TokenPair : Type := mkTokenPair {
  tp_token_a : Token;
  tp_token_b : Token;
  tp_pool_address : Address;
}.

Record AmmProtocolConfig : Type := mkAmmProtocolConfig {
  ap_protocol_address : Address;
  ap_protocol_name : string;
  ap_enabled : bool;
  ap_fee_tier : Z;
  ap_min_swap_amount : Z;
  ap_max_swap_amount : Z;
  ap_supported_pairs : list TokenPair;
}.

Record AmmSettings : Type := mkAmmSettings {
  as_default_slippage : Z;
  as_max_slippage : Z;
  as_swap_enabled : bool;
  as_liquidity_enabled : bool;
  as_auto_swap_threshold : Z;
}.

Record SwapParams : Type := mkSwapParams {
  sp_protocol : Address;
  sp_token_in : Token;
  sp_token_out : Token;
  sp_amount_in : Z;
  sp_min_amount_out : Z;
  sp_slippage_tolerance : Z;
  sp_deadline : Z;
}.

Record SwapRecord : Type := mkSwapRecord {
  sr_user : Address;
  sr_protocol : Address;
  sr_token_in : Token;
  sr_token_out : Token;
  sr_amount_in : Z;
  sr_amount_out : Z;
  sr_effective_price : Z;
  sr_fees_paid : Z;
  sr_timestamp : Z;
  sr_tx_hash : string;
}.

Record LiquidityParams : Type := mkLiquidityParams {
  lp_protocol : Address;
  lp_token_a : Token;
  lp_token_b : Token;
  lp_amount_a : Z;
  lp_amount_b : Z;
  lp_min_amount_a : Z;
  lp_min_amount_b : Z;
  lp_deadline : Z;
  lp_tick_lower : option Z;
  lp_tick_upper : option Z;
  lp_fee_tier : option Z;
}.

Record LiquidityRecord : Type := mkLiquidityRecord {
  lr_user : Address;
  lr_operation_type : string;
  lr_protocol : Address;
  lr_token_a : Token;
  lr_token_b : Token;
  lr_amount_a : Z;
  lr_amount_b : Z;
  lr_lp_tokens : Z;
  lr_tick_lower : option Z;
  lr_tick_upper : option Z;
  lr_timestamp : Z;
}.

Record AmmCallbackData : Type := mkAmmCallbackData {
  cb_nonce : Z;
  cb_operation : string;
  cb_user : Address;
  cb_expected_amounts : list Z;
  cb_deadline : Z;
}.

Inductive AmmEvent : Type :=
  | SwapExecutedEvent (user protocol : Address) (amount_in amount_out effective_price : Z)
  | LiquidityAddedEvent (user protocol : Address) (amount_a amount_b lp_tokens : Z)
  | LiquidityRemovedEvent (user protocol : Address) (lp_tokens : Z)
  | AmmOperationEvent (user : Address) (operation : string) (amount_in amount_out timestamp : Z)
  | CallbackValidatedEvent (caller user : Address) (operation : string) (nonce : Z).

(** [AmmDataKey] *)
Record AmmState : Type := mkAmmState {
  kAmmProtocols : option (gmap Address AmmProtocolConfig);
  kAmmSettings : option AmmSettings;
  kSwapHistory : option (list SwapRecord);
  kLiquidityHistory : option (list LiquidityRecord);
  kCallbackNonces : gmap Address Z;
  kAmmAdmin : option Address;
  amm_events : list AmmEvent;
}.
#[export] Instance AmmState_upd : Updatable AmmState := λ s,
  mkAmmState (kAmmProtocols s) (kAmmSettings s) (kSwapHistory s) (kLiquidityHistory s)
    (kCallbackNonces s) (kAmmAdmin s) (amm_events s).

Definition empty_amm : AmmState := mkAmmState None None None None ∅ None [].

Abbreviation AM := (M AmmState AmmError) (only parsing).

Definition emit (ev : AmmEvent) : AM unit :=
  modify (λ s, s <| amm_events := amm_events s ++ [ev] |>).

(** ** Settings and registered protocols *)

Definition get_amm_settings : AM AmmSettings :=
  stored ← gets kAmmSettings; ok_or stored AE_InvalidSwapParams.

Definition get_amm_protocols : AM (gmap Address AmmProtocolConfig) :=
  stored ← gets kAmmProtocols; ok_or stored AE_UnsupportedProtocol.

Definition get_amm_protocol_config (protocol : Address) : AM AmmProtocolConfig :=
  protocols ← get_amm_protocols;
  ok_or (protocols !! protocol) AE_UnsupportedProtocol.

Definition require_admin (caller : Address) : AM unit :=
  stored ← gets kAmmAdmin;
  admin ← ok_or stored AE_Unauthorized;
  reject_if (bool_decide (admin ≠ caller)) AE_Unauthorized.

Definition initialize_amm_settings (admin : Address) (default_slippage max_slippage
    auto_swap_threshold : Z) : AM unit :=
  stored ← gets kAmmAdmin;
  reject_if (bool_decide (stored ≠ None)) AE_AlreadyInitialized ;;
  modify (λ s, s <| kAmmAdmin := Some admin |>
    <| kAmmSettings := Some (mkAmmSettings default_slippage max_slippage true true auto_swap_threshold) |>
    <| kAmmProtocols := Some ∅ |>).

Definition add_amm_protocol (admin : Address) (protocol_config : AmmProtocolConfig) : AM unit :=
  require_admin admin ;;
  modify (λ s, s <| kAmmProtocols :=
    Some (<[ap_protocol_address protocol_config := protocol_config]> (default ∅ (kAmmProtocols s))) |>).

Definition update_amm_settings (admin : Address) (settings : AmmSettings) : AM unit :=
  require_admin admin ;;
  modify (λ s, s <| kAmmSettings := Some settings |>).

(** ** Guards *)

Definition validate_swap_params (params : SwapParams) : AM unit :=
  reject_if (sp_amount_in params <=? 0) AE_InvalidSwapParams ;;
  reject_if (sp_min_amount_out params <=? 0) AE_InvalidSwapParams ;;
  reject_if (bool_decide (sp_token_in params = sp_token_out params)) AE_InvalidTokenPair ;;
  settings ← get_amm_settings;
  reject_if (as_max_slippage settings <? sp_slippage_tolerance params) AE_SlippageExceeded.

Definition validate_liquidity_params (params : LiquidityParams) : AM unit :=
  reject_if ((lp_amount_a params <=? 0) || (lp_amount_b params <=? 0)) AE_InvalidSwapParams ;;
  reject_if ((lp_min_amount_a params <? 0) || (lp_min_amount_b params <? 0)) AE_InvalidSwapParams ;;
  reject_if (bool_decide (lp_token_a params = lp_token_b params)) AE_InvalidTokenPair.

Definition check_swap_enabled : AM unit :=
  settings ← get_amm_settings;
  reject_if (negb (as_swap_enabled settings)) AE_SwapPaused.

Definition check_liquidity_enabled : AM unit :=
  settings ← get_amm_settings;
  reject_if (negb (as_liquidity_enabled settings)) AE_LiquidityPaused.

(** [if env.ledger().timestamp() > deadline { return Err(SlippageExceeded); }] *)
Definition check_deadline (deadline : Z) : AM unit :=
  now ← ask timestamp;
  reject_if (deadline <? now) AE_SlippageExceeded.

Definition pair_matches (token_a token_b : Token) (pair : TokenPair) : bool :=
  (bool_decide (tp_token_a pair = token_a) && bool_decide (tp_token_b pair = token_b)) ||
  (bool_decide (tp_token_a pair = token_b) && bool_decide (tp_token_b pair = token_a)).

Definition supports (config : AmmProtocolConfig) (token_a token_b : Token) : bool :=
  existsb (pair_matches token_a token_b) (ap_supported_pairs config).

Definition validate_token_pair (config : AmmProtocolConfig) (token_a token_b : Token) : AM unit :=
  reject_if (negb (supports config token_a token_b)) AE_InvalidTokenPair.

(** ** Arithmetic *)

Definition calculate_effective_price (amount_in amount_out : Z) : AM Z :=
  reject_if (amount_in =? 0) AE_InvalidSwapParams ;;
  ok_or (checked_mul amount_out 1000000000000000000 ≫= λ v, checked_div v amount_in) AE_Overflow.

Definition calculate_swap_fees (config : AmmProtocolConfig) (amount_in : Z) : AM Z :=
  ok_or (checked_mul amount_in (ap_fee_tier config) ≫= λ v, checked_div v 10000) AE_Overflow.

(** [amount * (10000 - slippage) / 10000] *)
Definition less_slippage (amount slippage_bps : Z) : AM Z :=
  slippage_factor ← ok_or (checked_sub 10000 slippage_bps) AE_Overflow;
  ok_or (checked_mul amount slippage_factor ≫= λ v, checked_div v 10000) AE_Overflow.

Definition calculate_min_output_with_slippage (amount slippage_bps : Z) : AM Z :=
  reject_if (10000 <? slippage_bps) AE_InvalidSwapParams ;;
  less_slippage amount slippage_bps.

(** ** Callbacks *)

Definition nonce_of (s : AmmState) (user : Address) : Z := default 0 (kCallbackNonces s !! user).

Definition generate_callback_nonce (user : Address) : AM Z :=
  current_nonce ← gets (λ s, nonce_of s user);
  new_nonce ← unwrap (u64_checked_add current_nonce 1);
  modify (λ s, s <| kCallbackNonces := <[user := new_nonce]> (kCallbackNonces s) |>) ;;
  mret new_nonce.

Definition validate_amm_callback (caller : Address) (callback_data : AmmCallbackData) : AM unit :=
  protocols ← get_amm_protocols;
  reject_if (bool_decide (protocols !! caller = None)) AE_InvalidCallback ;;
  now ← ask timestamp;
  reject_if (cb_deadline callback_data <? now) AE_InvalidCallback ;;
  expected_nonce ← gets (λ s, nonce_of s (cb_user callback_data));
  reject_if (negb (cb_nonce callback_data =? expected_nonce)) AE_InvalidCallback ;;
  next ← unwrap (u64_checked_add expected_nonce 1);
  modify (λ s, s <| kCallbackNonces := <[cb_user callback_data := next]> (kCallbackNonces s) |>) ;;
  emit (CallbackValidatedEvent caller (cb_user callback_data) (cb_operation callback_data)
          (cb_nonce callback_data)).

(** The simulated exchange with a protocol, which calls back. *)
Definition execute_amm_swap (params : SwapParams) (callback_data : AmmCallbackData) : AM Z :=
  amount_out ← less_slippage (sp_amount_in params) (sp_slippage_tolerance params);
  validate_amm_callback (sp_protocol params) callback_data ;;
  mret amount_out.

Definition execute_amm_add_liquidity (params : LiquidityParams) (callback_data : AmmCallbackData) :
    AM Z :=
  lp_tokens ← ok_or (checked_add (lp_amount_a params) (lp_amount_b params) ≫= λ v, checked_div v 2)
                AE_Overflow;
  validate_amm_callback (lp_protocol params) callback_data ;;
  mret lp_tokens.

Definition execute_amm_remove_liquidity (protocol : Address) (lp_tokens : Z)
    (callback_data : AmmCallbackData) : AM (Z * Z) :=
  validate_amm_callback protocol callback_data ;;
  mret (lp_tokens, lp_tokens).

(** ** Histories *)

Definition HISTORY_LIMIT : nat := 1000.

(** [history.push_back(r); if history.len() > 1000 { history.pop_front(); }] *)
Definition push_record {A} (history : list A) (record : A) : list A :=
  let history := history ++ [record] in
  if bool_decide (HISTORY_LIMIT < length history)%nat then drop 1 history else history.

Definition record_swap (user : Address) (params : SwapParams) (amount_out effective_price
    fees_paid : Z) : AM unit :=
  now ← ask timestamp;
  let record := mkSwapRecord user (sp_protocol params) (sp_token_in params) (sp_token_out params)
    (sp_amount_in params) amount_out effective_price fees_paid now "mock_tx_hash" in
  modify (λ s, s <| kSwapHistory := Some (push_record (default [] (kSwapHistory s)) record) |>).

Definition record_liquidity_operation (user : Address) (operation_type : string)
    (params : LiquidityParams) (lp_tokens : Z) : AM unit :=
  now ← ask timestamp;
  let record := mkLiquidityRecord user operation_type (lp_protocol params) (lp_token_a params)
    (lp_token_b params) (lp_amount_a params) (lp_amount_b params) lp_tokens (lp_tick_lower params)
    (lp_tick_upper params) now in
  modify (λ s, s <| kLiquidityHistory :=
    Some (push_record (default [] (kLiquidityHistory s)) record) |>).

(** The loop of the two history queries: newest first, up to the limit. *)
Fixpoint recent {A} (user_of : A → Address) (user : option Address) (limit : Z)
    (history : list A) (count : Z) (filtered : list A) : list A :=
  match history with
  | [] => filtered
  | r :: history =>
      if limit <=? count then filtered else
      if match user with Some u => bool_decide (user_of r = u) | None => true end
      then recent user_of user limit history (count + 1) (filtered ++ [r])
      else recent user_of user limit history count filtered
  end.

Definition get_swap_history (s : AmmState) (user : option Address) (limit : Z) : list SwapRecord :=
  recent sr_user user limit (rev (default [] (kSwapHistory s))) 0 [].

Definition get_liquidity_history (s : AmmState) (user : option Address) (limit : Z) :
    list LiquidityRecord :=
  recent lr_user user limit (rev (default [] (kLiquidityHistory s))) 0 [].

(** ** Operations *)

Definition execute_swap (user : Address) (params : SwapParams) : AM Z :=
  validate_swap_params params ;;
  check_swap_enabled ;;
  check_deadline (sp_deadline params) ;;
  config ← get_amm_protocol_config (sp_protocol params);
  reject_if (sp_amount_in params <? ap_min_swap_amount config) AE_InvalidSwapParams ;;
  reject_if (ap_max_swap_amount config <? sp_amount_in params) AE_MaxInputExceeded ;;
  validate_token_pair config (sp_token_in params) (sp_token_out params) ;;
  nonce ← generate_callback_nonce user;
  let callback_data := mkAmmCallbackData nonce "swap" user
    [sp_amount_in params; sp_min_amount_out params] (sp_deadline params) in
  amount_out ← execute_amm_swap params callback_data;
  reject_if (amount_out <? sp_min_amount_out params) AE_MinOutputNotMet ;;
  effective_price ← calculate_effective_price (sp_amount_in params) amount_out;
  fees_paid ← calculate_swap_fees config (sp_amount_in params);
  record_swap user params amount_out effective_price fees_paid ;;
  emit (SwapExecutedEvent user (sp_protocol params) (sp_amount_in params) amount_out effective_price) ;;
  now ← ask timestamp;
  emit (AmmOperationEvent user "swap" (sp_amount_in params) amount_out now) ;;
  mret amount_out.

Definition add_liquidity (user : Address) (params : LiquidityParams) : AM Z :=
  validate_liquidity_params params ;;
  check_liquidity_enabled ;;
  check_deadline (lp_deadline params) ;;
  config ← get_amm_protocol_config (lp_protocol params);
  validate_token_pair config (lp_token_a params) (lp_token_b params) ;;
  nonce ← generate_callback_nonce user;
  let callback_data := mkAmmCallbackData nonce "add_liquidity" user
    [lp_amount_a params; lp_amount_b params] (lp_deadline params) in
  lp_tokens ← execute_amm_add_liquidity params callback_data;
  record_liquidity_operation user "add" params lp_tokens ;;
  emit (LiquidityAddedEvent user (lp_protocol params) (lp_amount_a params) (lp_amount_b params) lp_tokens) ;;
  now ← ask timestamp;
  emit (AmmOperationEvent user "add_liquidity" (lp_amount_a params) lp_tokens now) ;;
  mret lp_tokens.

Definition remove_liquidity (user protocol : Address) (token_a token_b : Token)
    (lp_tokens min_amount_a min_amount_b deadline : Z) : AM (Z * Z) :=
  check_liquidity_enabled ;;
  check_deadline deadline ;;
  reject_if (lp_tokens <=? 0) AE_InvalidSwapParams ;;
  config ← get_amm_protocol_config protocol;
  validate_token_pair config token_a token_b ;;
  nonce ← generate_callback_nonce user;
  let callback_data := mkAmmCallbackData nonce "remove_liquidity" user
    [min_amount_a; min_amount_b] deadline in
  amounts ← execute_amm_remove_liquidity protocol lp_tokens callback_data;
  reject_if ((amounts.1 <? min_amount_a) || (amounts.2 <? min_amount_b)) AE_MinOutputNotMet ;;
  let params := mkLiquidityParams protocol token_a token_b amounts.1 amounts.2 min_amount_a
    min_amount_b deadline None None None in
  record_liquidity_operation user "remove" params lp_tokens ;;
  emit (LiquidityRemovedEvent user protocol lp_tokens) ;;
  now ← ask timestamp;
  emit (AmmOperationEvent user "remove_liquidity" lp_tokens
          (saturating_add amounts.1 amounts.2) now) ;;
  mret amounts.

(** Iteration over a host map, in the order of its keys. *)
Definition key_le (x y : Address * AmmProtocolConfig) : Prop := (x.1 ≤ y.1)%positive.
#[export] Instance key_le_dec : RelDecision key_le := λ x y, decide (x.1 ≤ y.1)%positive.
Definition entries (m : gmap Address AmmProtocolConfig) : list (Address * AmmProtocolConfig) :=
  merge_sort key_le (map_to_list m).

Fixpoint first_supporting (protocols : list (Address * AmmProtocolConfig)) (token_in token_out : Token)
    (best : option Address) : option Address :=
  match protocols with
  | [] => best
  | (addr, config) :: protocols =>
      let best :=
        if ap_enabled config && supports config token_in token_out && bool_decide (best = None)
        then Some addr else best in
      first_supporting protocols token_in token_out best
  end.

Definition find_best_amm_protocol (token_in token_out : Token) : AM Address :=
  protocols ← get_amm_protocols;
  ok_or (first_supporting (entries protocols) token_in token_out None) AE_UnsupportedProtocol.

Definition auto_swap_for_collateral (user : Address) (target_token : Token) (amount : Z) : AM Z :=
  settings ← get_amm_settings;
  reject_if (negb (as_swap_enabled settings)) AE_SwapPaused ;;
  reject_if (amount <? as_auto_swap_threshold settings) AE_InvalidSwapParams ;;
  best_protocol ← find_best_amm_protocol None target_token;
  min_amount_out ← calculate_min_output_with_slippage amount (as_default_slippage settings);
  now ← ask timestamp;
  deadline ← ok_or (u64_checked_add now 300) AE_SlippageExceeded;
  execute_swap user
    (mkSwapParams best_protocol None target_token amount min_amount_out
       (as_default_slippage settings) deadline).

(** ** Lemmas *)

#[export] Instance readonly_settings : Readonly get_amm_settings.
Proof. unfold get_amm_settings. apply _. Qed.
#[export] Instance readonly_protocols : Readonly get_amm_protocols.
Proof. unfold get_amm_protocols. apply _. Qed.

Lemma get_amm_settings_Ok env s x s' :
  get_amm_settings env s = (Ok x, s') → kAmmSettings s = Some x ∧ s' = s.
Proof. unfold get_amm_settings. intros H. run_inv H. done. Qed.

Lemma get_amm_protocols_Ok env s m s' :
  get_amm_protocols env s = (Ok m, s') → kAmmProtocols s = Some m ∧ s' = s.
Proof. unfold get_amm_protocols. intros H. run_inv H. done. Qed.

Definition registered (s : AmmState) (protocol : Address) : option AmmProtocolConfig :=
  m ← kAmmProtocols s; m !! protocol.

Lemma get_amm_protocol_config_Ok p env s c s' :
  get_amm_protocol_config p env s = (Ok c, s') → registered s p = Some c ∧ s' = s.
Proof.
  unfold get_amm_protocol_config, registered. intros H. apply bind_Ok in H as (m & s1 & Hm & H).
  apply get_amm_protocols_Ok in Hm as [Hm ->]. rewrite Hm. cbn. by apply ok_or_Ok in H as [? ->].
Qed.

Lemma validate_swap_params_Ok p env s u s' :
  validate_swap_params p env s = (Ok u, s') →
  0 < sp_amount_in p ∧ 0 < sp_min_amount_out p ∧ sp_token_in p ≠ sp_token_out p ∧
  (∃ st, kAmmSettings s = Some st ∧ sp_slippage_tolerance p ≤ as_max_slippage st) ∧ s' = s.
Proof.
  unfold validate_swap_params. intros H. run_step H; subst.
  match goal with H : get_amm_settings _ _ = _ |- _ => apply get_amm_settings_Ok in H as [? ->] end.
  zbool. split_and!; try done. eexists. split; [done|]. lia.
Qed.

Lemma check_swap_enabled_Ok env s u s' :
  check_swap_enabled env s = (Ok u, s') →
  (∃ st, kAmmSettings s = Some st ∧ as_swap_enabled st = true) ∧ s' = s.
Proof.
  unfold check_swap_enabled. intros H. run_step H; subst.
  match goal with H : get_amm_settings _ _ = _ |- _ => apply get_amm_settings_Ok in H as [? ->] end.
  zbool. naive_solver.
Qed.

Lemma check_liquidity_enabled_Ok env s u s' :
  check_liquidity_enabled env s = (Ok u, s') →
  (∃ st, kAmmSettings s = Some st ∧ as_liquidity_enabled st = true) ∧ s' = s.
Proof.
  unfold check_liquidity_enabled. intros H. run_step H; subst.
  match goal with H : get_amm_settings _ _ = _ |- _ => apply get_amm_settings_Ok in H as [? ->] end.
  zbool. naive_solver.
Qed.

Lemma check_deadline_Ok d env s u s' :
  check_deadline d env s = (Ok u, s') → timestamp env ≤ d ∧ s' = s.
Proof. unfold check_deadline. intros H. run_inv H. zbool. split; [lia|done]. Qed.

Lemma validate_token_pair_Ok c a b env s u s' :
  validate_token_pair c a b env s = (Ok u, s') → supports c a b = true ∧ s' = s.
Proof. unfold validate_token_pair. intros H. run_inv H. zbool. done. Qed.

Lemma less_slippage_Ok x slip env s r s' :
  less_slippage x slip env s = (Ok r, s') → r = Z.quot (x * (10000 - slip)) 10000 ∧ s' = s.
Proof.
  unfold less_slippage. intros H. run_inv H.
  match goal with H : _ ≫= _ = Some _ |- _ => apply bind_Some in H as (y & ? & ?) end.
  checked_facts. subst. done.
Qed.

Lemma generate_callback_nonce_Ok user env s n s' :
  generate_callback_nonce user env s = (Ok n, s') →
  n = nonce_of s user + 1 ∧ n ≤ U64_MAX ∧
  s' = s <| kCallbackNonces := <[user := n]> (kCallbackNonces s) |>.
Proof.
  unfold generate_callback_nonce. intros H. run_inv H.
  match goal with H : u64_checked_add _ _ = _ |- _ => apply fit_Some in H as [Hr ->] end.
  apply in_range_spec in Hr. split_and!; [done|lia|done].
Qed.

Lemma emit_Ok ev env s u s' :
  emit ev env s = (Ok u, s') → s' = s <| amm_events := amm_events s ++ [ev] |>.
Proof. exact (modify_Ok (λ s, s <| amm_events := amm_events s ++ [ev] |>) _ _ _ _). Qed.

Lemma validate_amm_callback_Ok caller cb env s u s' :
  validate_amm_callback caller cb env s = (Ok u, s') →
  is_Some (registered s caller) ∧ timestamp env ≤ cb_deadline cb ∧
  cb_nonce cb = nonce_of s (cb_user cb) ∧ cb_nonce cb < U64_MAX ∧
  s' = s <| kCallbackNonces := <[cb_user cb := cb_nonce cb + 1]> (kCallbackNonces s) |>
         <| amm_events := amm_events s ++
              [CallbackValidatedEvent caller (cb_user cb) (cb_operation cb) (cb_nonce cb)] |>.
Proof.
  unfold validate_amm_callback. intros H. apply bind_Ok in H as (m & s1 & Hm & H).
  apply get_amm_protocols_Ok in Hm as [Hm ->]. run_step H; subst.
  match goal with H : u64_checked_add _ _ = _ |- _ => apply fit_Some in H as [Hr ->] end.
  apply in_range_spec in Hr. match goal with H : emit _ _ _ = _ |- _ => apply emit_Ok in H as -> end.
  zbool. split_and!; [|lia|done|lia|].
  - unfold registered. rewrite Hm. by apply not_eq_None_Some.
  - by match goal with H : cb_nonce cb = _ |- _ => rewrite H end.
Qed.

Lemma nonce_insert s user n u :
  nonce_of (s <| kCallbackNonces := <[user := n]> (kCallbackNonces s) |>) u =
  if bool_decide (u = user) then n else nonce_of s u.
Proof.
  unfold nonce_of. cbn. case_bool_decide as E; [subst; by rewrite lookup_insert_eq|].
  by rewrite lookup_insert_ne.
Qed.

Ltac run_prim H ::=
  lazymatch type of H with
  | get_amm_settings _ _ = _ => apply get_amm_settings_Ok in H as [? ->]
  | get_amm_protocol_config _ _ _ = _ => apply get_amm_protocol_config_Ok in H as [? ->]
  | validate_swap_params _ _ _ = _ => apply validate_swap_params_Ok in H as (? & ? & ? & ? & ->)
  | check_swap_enabled _ _ = _ => apply check_swap_enabled_Ok in H as [? ->]
  | check_liquidity_enabled _ _ = _ => apply check_liquidity_enabled_Ok in H as [? ->]
  | check_deadline _ _ _ = _ => apply check_deadline_Ok in H as [? ->]
  | validate_token_pair _ _ _ _ _ = _ => apply validate_token_pair_Ok in H as [? ->]
  | less_slippage _ _ _ _ = _ => apply less_slippage_Ok in H as [-> ->]
  | emit _ _ _ = _ => apply emit_Ok in H as ->
  | _ => idtac
  end.

(** What a swap or a liquidity operation leaves alone, and the nonces it uses:
    one for the request and one for the callback. *)
Record operated (user : Address) (s s' : AmmState) : Prop := {
  od_protocols : kAmmProtocols s' = kAmmProtocols s;
  od_settings : kAmmSettings s' = kAmmSettings s;
  od_admin : kAmmAdmin s' = kAmmAdmin s;
  od_range : nonce_of s user + 2 ≤ U64_MAX;
  od_nonces : ∀ u, nonce_of s' u = if bool_decide (u = user) then nonce_of s user + 2 else nonce_of s u;
}.

(** A request with its callback. *)
Lemma callback_operated user p op amounts deadline env s n s1 u s2 :
  generate_callback_nonce user env s = (Ok n, s1) →
  validate_amm_callback p (mkAmmCallbackData n op user amounts deadline) env s1 = (Ok u, s2) →
  operated user s s2 ∧ kSwapHistory s2 = kSwapHistory s ∧ kLiquidityHistory s2 = kLiquidityHistory s.
Proof.
  intros (-> & _ & ->)%generate_callback_nonce_Ok (_ & _ & _ & Hn & ->)%validate_amm_callback_Ok.
  cbn in Hn. split; [split|done]; try done; [lia|].
  intros u'. unfold nonce_of at 1. cbn. case_bool_decide as E.
  - subst. rewrite lookup_insert_eq. cbn. lia.
  - by rewrite !lookup_insert_ne.
Qed.

Lemma operated_ext user s s1 s2 :
  operated user s s1 → kAmmProtocols s2 = kAmmProtocols s1 → kAmmSettings s2 = kAmmSettings s1 →
  kAmmAdmin s2 = kAmmAdmin s1 → kCallbackNonces s2 = kCallbackNonces s1 → operated user s s2.
Proof.
  intros [? ? ? ? Hs] ? ? ? Hn. split; try congruence; try done. intros u. rewrite <- Hs. unfold nonce_of. by rewrite Hn.
Qed.

Lemma execute_swap_Ok user p env s r s' :
  execute_swap user p env s = (Ok r, s') →
  0 < sp_amount_in p ∧ timestamp env ≤ sp_deadline p ∧ sp_token_in p ≠ sp_token_out p ∧
  (∃ st, kAmmSettings s = Some st ∧ as_swap_enabled st = true ∧
         sp_slippage_tolerance p ≤ as_max_slippage st) ∧
  (∃ c, registered s (sp_protocol p) = Some c ∧
     ap_min_swap_amount c ≤ sp_amount_in p ≤ ap_max_swap_amount c ∧
     supports c (sp_token_in p) (sp_token_out p) = true ∧
     kSwapHistory s' = Some (push_record (default [] (kSwapHistory s))
       (mkSwapRecord user (sp_protocol p) (sp_token_in p) (sp_token_out p) (sp_amount_in p) r
          (Z.quot (r * 1000000000000000000) (sp_amount_in p))
          (Z.quot (sp_amount_in p * ap_fee_tier c) 10000) (timestamp env) "mock_tx_hash"))) ∧
  r = Z.quot (sp_amount_in p * (10000 - sp_slippage_tolerance p)) 10000 ∧
  0 < sp_min_amount_out p ≤ r ∧ kLiquidityHistory s' = kLiquidityHistory s ∧ operated user s s'.
Proof.
  unfold execute_swap, execute_amm_swap, record_swap, calculate_effective_price, calculate_swap_fees.
  intros H. run_step H; subst. zbool.
  repeat match goal with H : _ ≫= _ = Some _ |- _ => apply bind_Some in H as (? & ? & ?) end.
  checked_facts. subst.
  match goal with Hg : generate_callback_nonce _ _ _ = _, Hv : validate_amm_callback _ _ _ _ = _ |- _ =>
    destruct (callback_operated _ _ _ _ _ _ _ _ _ _ _ Hg Hv) as (Hop & Hs & Hl) end.
  repeat match goal with H : ∃ st : AmmSettings, _ |- _ => destruct H as (? & ? & ?) end. simplify_eq.
  split_and!; try done; [by eexists| |by eapply operated_ext].
  eexists. split_and!; [done|done|done|done|]. cbn. by rewrite Hs.
Qed.

Lemma add_liquidity_Ok user p env s r s' :
  add_liquidity user p env s = (Ok r, s') →
  operated user s s' ∧ kSwapHistory s' = kSwapHistory s ∧
  (∃ x, kLiquidityHistory s' = Some (push_record (default [] (kLiquidityHistory s)) x)) ∧
  0 < lp_amount_a p ∧ 0 < lp_amount_b p ∧ r = (lp_amount_a p + lp_amount_b p) / 2.
Proof.
  unfold add_liquidity, execute_amm_add_liquidity, validate_liquidity_params, record_liquidity_operation.
  intros H. run_step H; subst. zbool.
  repeat match goal with H : _ ≫= _ = Some _ |- _ => apply bind_Some in H as (? & ? & ?) end.
  checked_facts. subst.
  match goal with Hg : generate_callback_nonce _ _ _ = _, Hv : validate_amm_callback _ _ _ _ = _ |- _ =>
    destruct (callback_operated _ _ _ _ _ _ _ _ _ _ _ Hg Hv) as (Hop & Hs & Hl) end.
  split_and!; try done; [by eapply operated_ext|eexists; cbn; by rewrite Hl|].
  rewrite Z.quot_div_nonneg by lia. done.
Qed.

Lemma remove_liquidity_Ok user p ta tb lp ma mb d env s r s' :
  remove_liquidity user p ta tb lp ma mb d env s = (Ok r, s') →
  operated user s s' ∧ kSwapHistory s' = kSwapHistory s ∧
  (∃ x, kLiquidityHistory s' = Some (push_record (default [] (kLiquidityHistory s)) x)) ∧
  0 < lp ∧ r = (lp, lp) ∧ ma ≤ lp ∧ mb ≤ lp.
Proof.
  unfold remove_liquidity, execute_amm_remove_liquidity, record_liquidity_operation.
  intros H. run_step H; subst. zbool.
  match goal with Hg : generate_callback_nonce _ _ _ = _, Hv : validate_amm_callback _ _ _ _ = _ |- _ =>
    destruct (callback_operated _ _ _ _ _ _ _ _ _ _ _ Hg Hv) as (Hop & Hs & Hl) end.
  cbn in *. split_and!; try done; [by eapply operated_ext|eexists; by rewrite Hl].
Qed.

(** ** The contract as a transition system *)

Inductive AmmCall : Type :=
  | CallInitializeAmm (admin : Address) (default_slippage max_slippage auto_swap_threshold : Z)
  | CallAddProtocol (admin : Address) (config : AmmProtocolConfig)
  | CallUpdateSettings (admin : Address) (settings : AmmSettings)
  | CallSwap (user : Address) (params : SwapParams)
  | CallAddLiquidity (user : Address) (params : LiquidityParams)
  | CallRemoveLiquidity (user protocol : Address) (token_a token_b : Token)
      (lp_tokens min_amount_a min_amount_b deadline : Z)
  | CallCallback (caller : Address) (data : AmmCallbackData)
  | CallAutoSwap (user : Address) (target_token : Token) (amount : Z).

Definition amm_dispatch (c : AmmCall) (env : Env) (s : AmmState) : AmmState :=
  match c with
  | CallInitializeAmm a d m t => (invoke (initialize_amm_settings a d m t) env s).2
  | CallAddProtocol a c => (invoke (add_amm_protocol a c) env s).2
  | CallUpdateSettings a st => (invoke (update_amm_settings a st) env s).2
  | CallSwap u p => (invoke (execute_swap u p) env s).2
  | CallAddLiquidity u p => (invoke (add_liquidity u p) env s).2
  | CallRemoveLiquidity u p a b l x y d => (invoke (remove_liquidity u p a b l x y d) env s).2
  | CallCallback c d => (invoke (validate_amm_callback c d) env s).2
  | CallAutoSwap u t x => (invoke (auto_swap_for_collateral u t x) env s).2
  end.

Definition amm_step (s s' : AmmState) : Prop := ∃ c env, s' = amm_dispatch c env s.

(** What a call does to nonces and histories. *)
Record progress (s s' : AmmState) : Prop := {
  pr_nonces : ∀ u, nonce_of s u ≤ nonce_of s' u;
  pr_swaps : kSwapHistory s' = kSwapHistory s ∨
    ∃ r, kSwapHistory s' = Some (push_record (default [] (kSwapHistory s)) r) ∧
      0 < sr_amount_in r ∧ 0 < sr_amount_out r;
  pr_liquidity : kLiquidityHistory s' = kLiquidityHistory s ∨
    ∃ r, kLiquidityHistory s' = Some (push_record (default [] (kLiquidityHistory s)) r);
  pr_admin : ∀ a, kAmmAdmin s = Some a → kAmmAdmin s' = Some a;
}.

Lemma progress_refl s : progress s s.
Proof. split; [done|by left|by left|done]. Qed.

Lemma progress_settings s s' :
  kCallbackNonces s' = kCallbackNonces s → kSwapHistory s' = kSwapHistory s →
  kLiquidityHistory s' = kLiquidityHistory s → (∀ a, kAmmAdmin s = Some a → kAmmAdmin s' = Some a) →
  progress s s'.
Proof. intros Hn Hs Hl Ha. split; [|by left|by left|done]. intros u. unfold nonce_of. by rewrite Hn. Qed.

Lemma operated_nonces user s s' : operated user s s' → ∀ u, nonce_of s u ≤ nonce_of s' u.
Proof. intros [_ _ _ _ Hn] u. rewrite Hn. case_bool_decide; subst; lia. Qed.

Lemma operated_admin user s s' a : operated user s s' → kAmmAdmin s = Some a → kAmmAdmin s' = Some a.
Proof. intros [_ _ -> _ _]. done. Qed.

Lemma swap_progress user p env s r s' : execute_swap user p env s = (Ok r, s') → progress s s'.
Proof.
  intros (Hx & _ & _ & _ & (c & _ & _ & _ & Hs) & _ & Hr & Hl & Hop)%execute_swap_Ok. split.
  - by eapply operated_nonces.
  - right. eexists. split; [exact Hs|]. cbn. lia.
  - by left.
  - intros a. by apply (operated_admin user).
Qed.

Lemma amm_admin_Ok a env s u s' :
  require_admin a env s = (Ok u, s') → kAmmAdmin s = Some a ∧ s' = s.
Proof. unfold require_admin. intros H. run_inv H. zbool. by subst. Qed.

Lemma callback_progress caller cb env s u s' :
  validate_amm_callback caller cb env s = (Ok u, s') → progress s s' ∧
  cb_nonce cb = nonce_of s (cb_user cb) ∧ nonce_of s' (cb_user cb) = cb_nonce cb + 1.
Proof.
  intros (_ & _ & Hn & _ & ->)%validate_amm_callback_Ok. split_and!; [|done|].
  - split; [|by left|by left|done]. intros v. unfold nonce_of at 2. cbn.
    destruct (decide (v = cb_user cb)) as [->|]; [rewrite lookup_insert_eq; cbn; lia|].
    by rewrite lookup_insert_ne.
  - unfold nonce_of. cbn. by rewrite lookup_insert_eq.
Qed.

Lemma auto_swap_Ok user target amount env s r s' :
  auto_swap_for_collateral user target amount env s = (Ok r, s') →
  ∃ st m p,
    kAmmSettings s = Some st ∧ kAmmProtocols s = Some m ∧ as_auto_swap_threshold st ≤ amount ∧
    first_supporting (entries m) None target None = Some p ∧
    execute_swap user (mkSwapParams p None target amount
      (Z.quot (amount * (10000 - as_default_slippage st)) 10000) (as_default_slippage st)
      (timestamp env + 300)) env s = (Ok r, s').
Proof.
  unfold auto_swap_for_collateral, find_best_amm_protocol, calculate_min_output_with_slippage.
  intros H. run_step H; subst.
  match goal with H : get_amm_protocols _ _ = _ |- _ => apply get_amm_protocols_Ok in H as [Hm ->] end.
  match goal with H : u64_checked_add _ _ = _ |- _ => apply fit_Some in H as [_ ->] end. zbool.
  do 3 eexists. split_and!; done.
Qed.

Lemma dispatch_progress c env s : progress s (amm_dispatch c env s).
Proof.
  destruct c; cbn; unfold invoke;
    lazymatch goal with |- context [match ?m env s with _ => _ end] => destruct (m env s) as [[v|e|] s'] eqn:Hm end;
    try apply progress_refl; cbn.
  - unfold initialize_amm_settings in Hm. run_inv Hm. zbool.
    apply progress_settings; try done. congruence.
  - unfold add_amm_protocol in Hm. apply bind_Ok in Hm as (? & ? & [? ->]%amm_admin_Ok & Hm). run_inv Hm.
    by apply progress_settings.
  - unfold update_amm_settings in Hm. apply bind_Ok in Hm as (? & ? & [? ->]%amm_admin_Ok & Hm). run_inv Hm.
    by apply progress_settings.
  - by eapply swap_progress.
  - apply add_liquidity_Ok in Hm as (Hop & Hs & [x Hl] & _).
    split; [by eapply operated_nonces|by left|right; by eexists|intros a; by apply (operated_admin user)].
  - apply remove_liquidity_Ok in Hm as (Hop & Hs & [x Hl] & _).
    split; [by eapply operated_nonces|by left|right; by eexists|intros a; by apply (operated_admin user)].
  - by apply callback_progress in Hm as [? _].
  - apply auto_swap_Ok in Hm as (? & ? & ? & _ & _ & _ & _ & Hm). by eapply swap_progress.
Qed.

Lemma push_record_length {A} (h : list A) r :
  (length h ≤ HISTORY_LIMIT)%nat → (length (push_record h r) ≤ HISTORY_LIMIT)%nat.
Proof.
  intros H. unfold push_record. case_bool_decide as E; [|lia].
  rewrite length_drop, length_app in *. cbn in *. lia.
Qed.

Lemma push_record_Forall {A} (P : A → Prop) (h : list A) r :
  Forall P h → P r → Forall P (push_record h r).
Proof.
  intros Hh Hr. unfold push_record.
  assert (Forall P (h ++ [r])) by (apply Forall_app; split; [done|by repeat constructor]).
  case_bool_decide; [by apply Forall_drop|done].
Qed.

Record amm_ok (s : AmmState) : Prop := {
  am_swaps : (length (default [] (kSwapHistory s)) ≤ HISTORY_LIMIT)%nat;
  am_liquidity : (length (default [] (kLiquidityHistory s)) ≤ HISTORY_LIMIT)%nat;
  am_records : Forall (λ r, 0 < sr_amount_in r ∧ 0 < sr_amount_out r) (default [] (kSwapHistory s));
}.

Lemma progress_keeps_ok s s' : progress s s' → amm_ok s → amm_ok s'.
Proof.
  intros [_ Hs Hl _] [H1 H2 H3]. split.
  - destruct Hs as [->|(r & -> & _)]; [done|by apply push_record_length].
  - destruct Hl as [->|(r & ->)]; [done|by apply push_record_length].
  - destruct Hs as [->|(r & -> & ?)]; [done|by apply push_record_Forall].
Qed.

Lemma steps_progress s s' : rtc amm_step s s' → (∀ u, nonce_of s u ≤ nonce_of s' u) ∧ (amm_ok s → amm_ok s').
Proof.
  induction 1 as [|s1 s2 s3 (c & env & ->) _ [IH1 IH2]]; [done|].
  pose proof (dispatch_progress c env s1) as Hp. split.
  - intros u. pose proof (pr_nonces _ _ Hp u). specialize (IH1 u). lia.
  - intros H. by apply IH2, (progress_keeps_ok s1).
Qed.

(** ** The choice of a protocol *)

#[export] Instance key_le_trans : Transitive key_le.
Proof. intros x y z. unfold key_le. lia. Qed.
#[export] Instance key_le_total : Total key_le.
Proof. intros x y. unfold key_le. lia. Qed.

Definition suitable (token_in token_out : Token) (e : Address * AmmProtocolConfig) : bool :=
  ap_enabled e.2 && supports e.2 token_in token_out.

Lemma first_supporting_found l a b p : first_supporting l a b (Some p) = Some p.
Proof.
  induction l as [|[q c] l IH]; [done|]. cbn [first_supporting]. by rewrite bool_decide_eq_false_2, andb_false_r by done.
Qed.

Lemma first_supporting_spec l a b p :
  first_supporting l a b None = Some p → StronglySorted key_le l →
  ∃ c, (p, c) ∈ l ∧ suitable a b (p, c) = true ∧
    ∀ q c', (q, c') ∈ l → suitable a b (q, c') = true → (p ≤ q)%positive.
Proof.
  induction l as [|[q c] l IH]; [done|]. cbn [first_supporting]. intros H Hs. apply StronglySorted_inv in Hs as [Hs Hle].
  rewrite bool_decide_eq_true_2, andb_true_r in H by done.
  destruct (ap_enabled c && supports c a b) eqn:E.
  - rewrite first_supporting_found in H. injection H as <-. exists c. split_and!; [set_solver|done|].
    intros q' c' [[= -> ->]|Hin]%elem_of_cons _; [lia|].
    rewrite Forall_forall in Hle. by apply (Hle (q', c')).
  - destruct (IH H Hs) as (c0 & Hin & Hsu & Hmin). exists c0. split_and!; [set_solver|done|].
    intros q' c' [[= -> ->]|Hin']%elem_of_cons Hq; [|by eapply Hmin].
    unfold suitable in Hq. cbn in Hq. congruence.
Qed.

Lemma chosen_protocol m a b p :
  first_supporting (entries m) a b None = Some p →
  ∃ c, m !! p = Some c ∧ suitable a b (p, c) = true ∧
    ∀ q c', m !! q = Some c' → suitable a b (q, c') = true → (p ≤ q)%positive.
Proof.
  intros H. apply first_supporting_spec in H as (c & Hin & Hs & Hmin); [|apply (StronglySorted_merge_sort key_le)].
  unfold entries in *. setoid_rewrite merge_sort_Permutation in Hmin. rewrite merge_sort_Permutation in Hin.
  exists c. split_and!; [by apply elem_of_map_to_list|done|]. intros q c' Hq. apply Hmin. by apply elem_of_map_to_list.
Qed.

(** ** The history queries *)

Definition by_user {A} (user_of : A → Address) (user : option Address) (r : A) : bool :=
  match user with Some u => bool_decide (user_of r = u) | None => true end.

Lemma recent_spec {A} (user_of : A → Address) user limit h count acc :
  recent user_of user limit h count acc =
  acc ++ take (Z.to_nat (limit - count)) (List.filter (by_user user_of user) h).
Proof.
  revert count acc. induction h as [|r h IH]; intros count acc; cbn; [by rewrite take_nil, app_nil_r|].
  destruct (Z.leb_spec limit count).
  - rewrite Z2Nat.nonpos by lia. by rewrite take_0, app_nil_r.
  - change (match user with Some u => bool_decide (user_of r = u) | None => true end) with (by_user user_of user r).
    destruct (by_user user_of user r); rewrite IH; [|done].
    replace (Z.to_nat (limit - count)) with (S (Z.to_nat (limit - (count + 1)))) by lia.
    cbn. by rewrite <- app_assoc.
Qed.

Lemma last_push_record {A} (h : list A) r : last (push_record h r) = Some r.
Proof.
  unfold push_record. case_bool_decide; [|by rewrite last_snoc].
  destruct h as [|x h]; [unfold HISTORY_LIMIT in *; cbn in *; lia|]. change (last (h ++ [r]) = Some r). apply last_snoc.
Qed.

(** ** Properties *)

(** A swap that succeeds went through a registered protocol that supports
    the pair, within its limits, the tolerance and the deadline; it pays at
    least the minimum and at most the input less the tolerated slippage,
    consumes two nonces of the user only, and appends one record of its price
    and fees. *)
Theorem swap_outcome user p env s r s' :
  execute_swap user p env s = (Ok r, s') →
  ∃ c st,
    registered s (sp_protocol p) = Some c ∧ kAmmSettings s = Some st ∧
    as_swap_enabled st = true ∧ sp_slippage_tolerance p ≤ as_max_slippage st ∧
    timestamp env ≤ sp_deadline p ∧ supports c (sp_token_in p) (sp_token_out p) = true ∧
    ap_min_swap_amount c ≤ sp_amount_in p ≤ ap_max_swap_amount c ∧
    0 < sp_min_amount_out p ≤ r ∧ r * 10000 ≤ sp_amount_in p * (10000 - sp_slippage_tolerance p) ∧
    (∀ u, nonce_of s' u = if bool_decide (u = user) then nonce_of s user + 2 else nonce_of s u) ∧
    kAmmProtocols s' = kAmmProtocols s ∧ kAmmSettings s' = kAmmSettings s ∧
    last (default [] (kSwapHistory s')) =
      Some (mkSwapRecord user (sp_protocol p) (sp_token_in p) (sp_token_out p) (sp_amount_in p) r
        (r * 1000000000000000000 / sp_amount_in p) (Z.quot (sp_amount_in p * ap_fee_tier c) 10000)
        (timestamp env) "mock_tx_hash").
Proof.
  intros (Hx & Hd & _ & (st & Hst & Hen & Hsl) & (c & Hc & Hlim & Hsup & Hh) & Hr & Hmin & _ & Hop)%execute_swap_Ok.
  exists c, st. destruct Hop as [Hp Hse _ _ Hn]. destruct Hlim, Hmin. split_and!; try done.
  - subst r. destruct (Z.le_gt_cases (10000 - sp_slippage_tolerance p) 0).
    + assert (Z.quot (sp_amount_in p * (10000 - sp_slippage_tolerance p)) 10000 ≤ 0); [|exfalso; lia].
      rewrite <- (Z.quot_0_l 10000) by lia. apply Z.quot_le_mono; nia.
    + rewrite Z.quot_div_nonneg by nia. pose proof (Z.mul_div_le (sp_amount_in p * (10000 - sp_slippage_tolerance p)) 10000). lia.
  - rewrite Hh. cbn. rewrite last_push_record. by rewrite (Z.quot_div_nonneg (r * _)) by lia.
Qed.

(** An automatic swap goes to the enabled protocol of the lowest address
    that supports the pair, at the default slippage, and pays the amount less
    that slippage. *)
Theorem auto_swap_outcome user target amount env s r s' :
  auto_swap_for_collateral user target amount env s = (Ok r, s') →
  ∃ st p c,
    kAmmSettings s = Some st ∧ as_auto_swap_threshold st ≤ amount ∧
    registered s p = Some c ∧ suitable None target (p, c) = true ∧
    (∀ q c', registered s q = Some c' → suitable None target (q, c') = true → (p ≤ q)%positive) ∧
    r = Z.quot (amount * (10000 - as_default_slippage st)) 10000 ∧ 0 < r ∧
    as_default_slippage st ≤ as_max_slippage st.
Proof.
  intros (st & m & p & Hst & Hm & Ht & Hp & Hs)%auto_swap_Ok.
  apply chosen_protocol in Hp as (c & Hc & Hsu & Hmin).
  apply execute_swap_Ok in Hs as (_ & _ & _ & (st' & Hst' & _ & Hsl) & _ & Hr & Hpos & _).
  cbn in Hsl, Hr, Hpos. assert (st' = st) as -> by congruence.
  exists st, p, c. unfold registered. rewrite Hm. cbn. split_and!; try done. lia.
Qed.

(** A callback that was accepted once is rejected, without any effect, in
    every later state. *)
Theorem callbacks_are_not_replayed caller cb env s u s1 s2 caller' env' r s3 :
  validate_amm_callback caller cb env s = (Ok u, s1) → rtc amm_step s1 s2 →
  invoke (validate_amm_callback caller' cb) env' s2 = (r, s3) → r ≠ Ok tt ∧ s3 = s2.
Proof.
  intros H1 Hs H2. apply callback_progress in H1 as (_ & _ & Hn).
  apply steps_progress in Hs as [Hmono _].
  assert (r ≠ Ok tt) as Hr.
  { intros ->. apply (proj1 (invoke_Ok _ _ _ _ _)), callback_progress in H2 as (_ & Hn2 & _). specialize (Hmono (cb_user cb)). lia. }
  split; [done|]. apply (invoke_rollback _ _ _ _ _ H2). by intros [].
Qed.

(** In every reachable state the history queries return the newest records
    of the user, newest first and at most as many as asked for and as kept
    (1000), and recorded swaps have positive amounts. *)
Theorem amm_histories s user limit :
  rtc amm_step empty_amm s →
  get_swap_history s user limit =
    take (Z.to_nat limit) (List.filter (by_user sr_user user) (rev (default [] (kSwapHistory s)))) ∧
  get_liquidity_history s user limit =
    take (Z.to_nat limit) (List.filter (by_user lr_user user) (rev (default [] (kLiquidityHistory s)))) ∧
  (length (get_swap_history s user limit) ≤ 1000)%nat ∧
  (length (get_liquidity_history s user limit) ≤ 1000)%nat ∧
  Forall (λ r, 0 < sr_amount_in r ∧ 0 < sr_amount_out r) (get_swap_history s user limit).
Proof.
  intros Hs. apply steps_progress in Hs as [_ Hok].
  destruct Hok as [H1 H2 H3]; [by split; [cbn; lia|cbn; lia|constructor]|].
  assert (∀ A (h : list A) f n, (length h ≤ HISTORY_LIMIT)%nat →
    (length (take n (List.filter f (rev h))) ≤ 1000)%nat) as Hlen.
  { intros A h f n Hh. rewrite length_take. pose proof (filter_length_le f (rev h)) as Hf.
    rewrite length_rev in Hf. unfold HISTORY_LIMIT in Hh. lia. }
  unfold get_swap_history, get_liquidity_history. rewrite !recent_spec, !Z.sub_0_r. cbn [app].
  split_and!; [done|done|by apply Hlen|by apply Hlen|].
  apply Forall_take. rewrite Forall_forall in *. intros x Hx. apply H3.
  apply list_elem_of_In, filter_In in Hx as [Hx _]. by apply list_elem_of_In, in_rev.
Qed.

(** *** Signatures *)

(** No entry point of the exchange contract depends on who signed the
    invocation: whatever succeeds with the admin's or the user's signature
    succeeds without it, with the same effect. *)
Theorem amm_ignores_signatures c now seq signed signed' prices registry balances s :
  amm_dispatch c (mkEnvironment now seq signed prices registry balances) s =
  amm_dispatch c (mkEnvironment now seq signed' prices registry balances) s.
Proof.
  assert (∀ user p, TimeOnly (execute_swap user p)) as Hswap.
  { intros. unfold execute_swap, execute_amm_swap, validate_amm_callback, validate_swap_params,
      check_swap_enabled, check_deadline, get_amm_protocol_config, get_amm_settings, get_amm_protocols,
      validate_token_pair, generate_callback_nonce, less_slippage, calculate_effective_price,
      calculate_swap_fees, record_swap, emit. apply _. }
  destruct c; cbn; f_equal; apply time_only_invoke; try done;
    unfold initialize_amm_settings, add_amm_protocol, update_amm_settings, require_admin, add_liquidity,
      remove_liquidity, execute_amm_add_liquidity, execute_amm_remove_liquidity, auto_swap_for_collateral,
      find_best_amm_protocol, calculate_min_output_with_slippage, validate_amm_callback,
      validate_liquidity_params, check_liquidity_enabled, check_deadline, get_amm_protocol_config,
      get_amm_settings, get_amm_protocols, validate_token_pair, generate_callback_nonce, less_slippage,
      record_liquidity_operation, emit; apply _.
Qed.

(** ** Examples *)

Definition amm_admin : Address := 1%positive.
Definition trader : Address := 2%positive.
Definition token : Address := 10%positive.
Definition dex (addr : Address) (enabled : bool) : AmmProtocolConfig :=
  mkAmmProtocolConfig addr "dex" enabled 30 1 1000000 [mkTokenPair None (Some token) 50%positive].
Definition amm_env (now : Z) : Env := mkEnv now 0 (λ _, false) (λ _ _, None) (λ _ _ _ _, None).

(** Two protocols, the first of them disabled. *)
Definition exchange : AmmState :=
  foldl (λ s c, amm_dispatch c (amm_env 10) s) empty_amm
    [CallInitializeAmm amm_admin 100 500 10; CallAddProtocol amm_admin (dex 30%positive false);
     CallAddProtocol amm_admin (dex 31%positive true)].

Definition order : SwapParams := mkSwapParams 30%positive None (Some token) 1000 900 100 50.

(** The protocol of the order is disabled, and nobody has signed. *)
Theorem disabled_protocol_still_swaps :
  (ap_enabled <$> registered exchange 30%positive) = Some false ∧
  (execute_swap trader order (amm_env 20) exchange).1 = Ok 990.
Proof. split; vm_compute; reflexivity. Qed.

Lemma swap_outcome_witness :
  let s' := (execute_swap trader order (amm_env 20) exchange).2 in
  ∃ c st,
    registered exchange (sp_protocol order) = Some c ∧ kAmmSettings exchange = Some st ∧
    as_swap_enabled st = true ∧ sp_slippage_tolerance order ≤ as_max_slippage st ∧
    timestamp (amm_env 20) ≤ sp_deadline order ∧
    supports c (sp_token_in order) (sp_token_out order) = true ∧
    ap_min_swap_amount c ≤ sp_amount_in order ≤ ap_max_swap_amount c ∧
    0 < sp_min_amount_out order ≤ 990 ∧
    990 * 10000 ≤ sp_amount_in order * (10000 - sp_slippage_tolerance order) ∧
    (∀ u, nonce_of s' u = if bool_decide (u = trader) then nonce_of exchange trader + 2
                          else nonce_of exchange u) ∧
    kAmmProtocols s' = kAmmProtocols exchange ∧ kAmmSettings s' = kAmmSettings exchange ∧
    last (default [] (kSwapHistory s')) =
      Some (mkSwapRecord trader (sp_protocol order) (sp_token_in order) (sp_token_out order)
        (sp_amount_in order) 990 (990 * 1000000000000000000 / sp_amount_in order)
        (Z.quot (sp_amount_in order * ap_fee_tier c) 10000) (timestamp (amm_env 20)) "mock_tx_hash").
Proof.
  intros s'. apply (swap_outcome trader order (amm_env 20) exchange 990 s'). vm_compute. reflexivity.
Defined.

Lemma auto_swap_outcome_witness :
  ∃ st p c,
    kAmmSettings exchange = Some st ∧ as_auto_swap_threshold st ≤ 1000 ∧
    registered exchange p = Some c ∧ suitable None (Some token) (p, c) = true ∧
    (∀ q c', registered exchange q = Some c' → suitable None (Some token) (q, c') = true → (p ≤ q)%positive) ∧
    990 = Z.quot (1000 * (10000 - as_default_slippage st)) 10000 ∧ 0 < 990 ∧
    as_default_slippage st ≤ as_max_slippage st.
Proof.
  apply (auto_swap_outcome trader (Some token) 1000 (amm_env 20) exchange 990
    (auto_swap_for_collateral trader (Some token) 1000 (amm_env 20) exchange).2).
  vm_compute. reflexivity.
Defined.

Lemma callbacks_are_not_replayed_witness :
  let cb := mkAmmCallbackData 0 "swap" trader [] 50 in
  let s1 := (validate_amm_callback 31%positive cb (amm_env 20) exchange).2 in
  let s2 := amm_dispatch (CallSwap trader order) (amm_env 20) s1 in
  let again := invoke (validate_amm_callback 31%positive cb) (amm_env 30) s2 in
  again.1 ≠ Ok tt ∧ again.2 = s2.
Proof.
  intros cb s1 s2 again.
  apply (callbacks_are_not_replayed 31%positive cb (amm_env 20) exchange tt s1 s2 31%positive (amm_env 30)
    again.1 again.2).
  - vm_compute. reflexivity.
  - apply rtc_once. by exists (CallSwap trader order), (amm_env 20).
  - apply surjective_pairing.
Defined.

Lemma amm_histories_witness :
  let s := amm_dispatch (CallSwap trader order) (amm_env 20) exchange in
  length (get_swap_history s (Some trader) 5) = 1%nat ∧
  get_swap_history s None 5 =
    take (Z.to_nat 5) (List.filter (by_user sr_user None) (rev (default [] (kSwapHistory s)))) ∧
  get_liquidity_history s None 5 =
    take (Z.to_nat 5) (List.filter (by_user lr_user None) (rev (default [] (kLiquidityHistory s)))) ∧
  (length (get_swap_history s None 5) ≤ 1000)%nat ∧
  (length (get_liquidity_history s None 5) ≤ 1000)%nat ∧
  Forall (λ r, 0 < sr_amount_in r ∧ 0 < sr_amount_out r) (get_swap_history s None 5).
Proof.
  intros s. split; [vm_compute; reflexivity|]. apply (amm_histories s None 5).
  unfold s, exchange. cbn [foldl].
  do 4 (eapply rtc_l; [eexists; eexists; reflexivity|]). apply rtc_refl.
Defined.
