(* ===== verification/Bridge.v ===== *)
(** * Bridge: the cross-chain bridge contract ([bridge/src/bridge.rs])

    Bridges with fees and totals, validators with stakes, and messages from
    other chains that validators attest and anybody may execute once a quorum
    and the finality delay are reached; channels that close after anomalies;
    slashing of validators that approve conflicting messages. *)

From S2P Require Import Prelude Host.

(** ** Data *)

Inductive ContractError : Type :=
  | AlreadyInitialised | NotInitialised | Unauthorised | BridgeAlreadyExists | BridgeNotFound
  | BridgeInactive | FeeTooHigh | InvalidBridgeIdLen | InvalidBridgeIdChar | NegativeMinAmount
  | AmountNotPositive | AmountBelowMinimum | Overflow | BridgeAcceptancePaused
  | ValidatorAlreadyExists | ValidatorNotFound | ValidatorInactive | InvalidValidatorStake
  | MessageAlreadyExists | MessageNotFound | DuplicateAttestation | QuorumNotReached
  | MessageNotFinal | MessageAlreadyExecuted | MessageInvalidated | ReplayDetected | ChannelClosed
  | InvalidMessageVersion | InvalidSecurityConfig | ConflictingMessages | NothingToSlash
  | MessageRejected | InvalidMessageOrdering.

Inductive BridgeEvent : Type :=
  | BridgeRegisteredEvent (bridge_id : string) (fee_bps min_amount : Z)
  | BridgeFeeUpdatedEvent (bridge_id : string) (fee_bps : Z)
  | BridgeActiveUpdatedEvent (bridge_id : string) (active : bool)
  | BridgeDepositEvent (bridge_id : string) (amount fee net : Z)
  | BridgeWithdrawalEvent (bridge_id : string) (amount : Z)
  | BridgeAcceptancePauseEvent (paused : bool) (admin : Address)
  | ValidatorUpdatedEvent (validator : Address) (stake : Z) (active : bool)
  | SecurityConfigUpdatedEvent (min_validator_signatures min_finality_ledgers
      optimistic_delay_ledgers slash_bps supported_message_version : Z)
  | ValidatorSlashedEvent (validator : Address) (amount remaining_stake : Z)
  | ChannelEmergencyCloseEvent (channel_id : string) (closed : bool) (reason : string)
  | BridgeAnomalyEvent (channel_id : string) (anomaly_count : Z) (reason : string).

Definition MAX_FEE_BPS : Z := 1000.
Definition MAX_ID_LEN : Z := 64.

Record BridgeConfig : Type := mkBridgeConfig {
  bg_bridge_id : string;
  bg_fee_bps : Z;
  bg_min_amount : Z;
  bg_active : bool;
  bg_total_deposited : Z;
  bg_total_withdrawn : Z;
}.
#[export] Instance BridgeConfig_upd : Updatable BridgeConfig := λ b,
  mkBridgeConfig (bg_bridge_id b) (bg_fee_bps b) (bg_min_amount b) (bg_active b)
    (bg_total_deposited b) (bg_total_withdrawn b).

Record SecurityConfig : Type := mkSecurityConfig {
  sec_min_validator_signatures : Z;
  sec_min_finality_ledgers : Z;
  sec_optimistic_delay_ledgers : Z;
  sec_slash_bps : Z;
  sec_supported_message_version : Z;
  sec_anomaly_close_threshold : Z;
}.

Record ValidatorRecord : Type := mkValidatorRecord {
  vr_stake : Z;
  vr_active : bool;
  vr_slashed_total : Z;
  vr_approvals : Z;
}.
#[export] Instance ValidatorRecord_upd : Updatable ValidatorRecord := λ v,
  mkValidatorRecord (vr_stake v) (vr_active v) (vr_slashed_total v) (vr_approvals v).

Record ChannelState : Type := mkChannelState {
  ch_emergency_closed : bool;
  ch_anomaly_count : Z;
  ch_last_observed_nonce : Z;
  ch_last_observed_height : Z;
  ch_reason : string;
}.
#[export] Instance ChannelState_upd : Updatable ChannelState := λ c,
  mkChannelState (ch_emergency_closed c) (ch_anomaly_count c) (ch_last_observed_nonce c)
    (ch_last_observed_height c) (ch_reason c).

Record BridgeSecurityStats : Type := mkBridgeSecurityStats {
  bs_total_messages : Z;
  bs_executed_messages : Z;
  bs_rejected_messages : Z;
  bs_replay_rejections : Z;
  bs_anomaly_events : Z;
  bs_slashes : Z;
  bs_emergency_closures : Z;
}.
#[export] Instance BridgeSecurityStats_upd : Updatable BridgeSecurityStats := λ t,
  mkBridgeSecurityStats (bs_total_messages t) (bs_executed_messages t) (bs_rejected_messages t)
    (bs_replay_rejections t) (bs_anomaly_events t) (bs_slashes t) (bs_emergency_closures t).

(** [SourceMessageKey]: channel, source chain, source transaction and nonce. *)
Abbreviation SourceMessageKey := (string * string * string * Z)%type (only parsing).

Record CrossChainMessage : Type := mkCrossChainMessage {
  ms_message_id : Z;
  ms_bridge_id : string;
  ms_channel_id : string;
  ms_source_chain : string;
  ms_source_tx_id : string;
  ms_source_height : Z;
  ms_nonce : Z;
  ms_recipient : Address;
  ms_amount : Z;
  ms_payload_version : Z;
  ms_submitted_at_ledger : Z;
  ms_finality_ledger : Z;
  ms_approvals : Z;
  ms_rejections : Z;
  ms_executed : bool;
  ms_invalidated : bool;
}.
#[export] Instance CrossChainMessage_upd : Updatable CrossChainMessage := λ m,
  mkCrossChainMessage (ms_message_id m) (ms_bridge_id m) (ms_channel_id m) (ms_source_chain m)
    (ms_source_tx_id m) (ms_source_height m) (ms_nonce m) (ms_recipient m) (ms_amount m)
    (ms_payload_version m) (ms_submitted_at_ledger m) (ms_finality_ledger m) (ms_approvals m)
    (ms_rejections m) (ms_executed m) (ms_invalidated m).

Record CrossChainMessageInput : Type := mkCrossChainMessageInput {
  mi_bridge_id : string;
  mi_channel_id : string;
  mi_source_chain : string;
  mi_source_tx_id : string;
  mi_source_height : Z;
  mi_nonce : Z;
  mi_recipient : Address;
  mi_amount : Z;
  mi_payload_version : Z;
}.

(** [DataKey] and [ADMIN_KEY] *)
Record BridgeState : Type := mkBridgeState {
  kAdminKey : option Address;
  kBridge : gmap string BridgeConfig;
  kBridgeList : option (list string);
  kAcceptancePaused : option bool;
  kSecurityConfig : option SecurityConfig;
  kValidator : gmap Address ValidatorRecord;
  kValidatorList : option (list Address);
  kChannel : gmap string ChannelState;
  kMessage : gmap Z CrossChainMessage;
  kMessageSource : gmap SourceMessageKey Z;
  kAttestation : gmap (Z * Address) bool;
  kNextMessageId : option Z;
  kStats : option BridgeSecurityStats;
  br_events : list BridgeEvent;
}.
#[export] Instance BridgeState_upd : Updatable BridgeState := λ s,
  mkBridgeState (kAdminKey s) (kBridge s) (kBridgeList s) (kAcceptancePaused s) (kSecurityConfig s)
    (kValidator s) (kValidatorList s) (kChannel s) (kMessage s) (kMessageSource s) (kAttestation s)
    (kNextMessageId s) (kStats s) (br_events s).

Definition empty_bridge : BridgeState :=
  mkBridgeState None ∅ None None None ∅ None ∅ ∅ ∅ ∅ None None [].

Abbreviation BM := (M BridgeState ContractError) (only parsing).

Definition publish (ev : BridgeEvent) : BM unit :=
  modify (λ s, s <| br_events := br_events s ++ [ev] |>).

(** ** Storage *)

Definition default_security_config : SecurityConfig := mkSecurityConfig 2 3 2 2500 1 3.
Definition default_stats : BridgeSecurityStats := mkBridgeSecurityStats 0 0 0 0 0 0 0.
Definition default_channel_state : ChannelState := mkChannelState false 0 0 0 "".

Definition load_security_config (s : BridgeState) : SecurityConfig :=
  default default_security_config (kSecurityConfig s).
Definition load_stats (s : BridgeState) : BridgeSecurityStats := default default_stats (kStats s).
Definition load_channel_state (s : BridgeState) (channel_id : string) : ChannelState :=
  default default_channel_state (kChannel s !! channel_id).
Definition bridge_list (s : BridgeState) : list string := default [] (kBridgeList s).
Definition validator_list (s : BridgeState) : list Address := default [] (kValidatorList s).

Definition with_stats (mutate : BridgeSecurityStats → BridgeSecurityStats) : BM unit :=
  modify (λ s, s <| kStats := Some (mutate (load_stats s)) |>).

Definition load_admin : BM Address := stored ← gets kAdminKey; ok_or stored NotInitialised.
Definition load_bridge (bridge_id : string) : BM BridgeConfig :=
  stored ← gets (λ s, kBridge s !! bridge_id); ok_or stored BridgeNotFound.
Definition save_bridge (bridge_id : string) (cfg : BridgeConfig) : BM unit :=
  modify (λ s, s <| kBridge := <[bridge_id := cfg]> (kBridge s) |>).
Definition load_validator (validator : Address) : BM ValidatorRecord :=
  stored ← gets (λ s, kValidator s !! validator); ok_or stored ValidatorNotFound.
Definition save_validator (validator : Address) (record : ValidatorRecord) : BM unit :=
  modify (λ s, s <| kValidator := <[validator := record]> (kValidator s) |>).
Definition save_channel_state (channel_id : string) (state : ChannelState) : BM unit :=
  modify (λ s, s <| kChannel := <[channel_id := state]> (kChannel s) |>).
Definition load_message (message_id : Z) : BM CrossChainMessage :=
  stored ← gets (λ s, kMessage s !! message_id); ok_or stored MessageNotFound.
Definition save_message (message : CrossChainMessage) : BM unit :=
  modify (λ s, s <| kMessage := <[ms_message_id message := message]> (kMessage s) |>).

Definition next_message_id : BM Z :=
  current ← gets (λ s, default 0 (kNextMessageId s));
  let next := u64_saturating_add current 1 in
  modify (λ s, s <| kNextMessageId := Some next |>) ;;
  mret next.

(** ** Guards and helpers *)

Definition require_admin (caller : Address) : BM unit :=
  require_auth caller ;;
  admin ← load_admin;
  reject_if (bool_decide (caller ≠ admin)) Unauthorised.

Definition validate_security_config (cfg : SecurityConfig) : BM unit :=
  reject_if
    ((sec_min_validator_signatures cfg =? 0) || (sec_min_finality_ledgers cfg =? 0) ||
     (sec_optimistic_delay_ledgers cfg =? 0) || (sec_slash_bps cfg =? 0) ||
     (10000 <? sec_slash_bps cfg) || (sec_supported_message_version cfg =? 0) ||
     (sec_anomaly_close_threshold cfg =? 0)) InvalidSecurityConfig.

Definition validate_id (id : string) : BM unit :=
  let len := Z.of_nat (String.length id) in
  reject_if ((len =? 0) || (MAX_ID_LEN <? len)) InvalidBridgeIdLen.

Definition record_channel_anomaly (channel_id reason : string) : BM unit :=
  channel ← gets (λ s, load_channel_state s channel_id);
  let channel := channel <| ch_anomaly_count := u32_saturating_add (ch_anomaly_count channel) 1 |>
                         <| ch_reason := reason |> in
  cfg ← gets load_security_config;
  channel ←
    (if sec_anomaly_close_threshold cfg <=? ch_anomaly_count channel then
       with_stats (λ t, t <| bs_emergency_closures := u64_saturating_add (bs_emergency_closures t) 1 |>) ;;
       publish (ChannelEmergencyCloseEvent channel_id true reason) ;;
       mret (channel <| ch_emergency_closed := true |>)
     else mret channel);
  save_channel_state channel_id channel ;;
  with_stats (λ t, t <| bs_anomaly_events := u64_saturating_add (bs_anomaly_events t) 1 |>) ;;
  publish (BridgeAnomalyEvent channel_id (ch_anomaly_count channel) reason).

Definition message_payload_matches (a b : CrossChainMessage) : bool :=
  bool_decide (ms_bridge_id a = ms_bridge_id b) && bool_decide (ms_channel_id a = ms_channel_id b) &&
  bool_decide (ms_source_chain a = ms_source_chain b) &&
  bool_decide (ms_source_tx_id a = ms_source_tx_id b) &&
  (ms_source_height a =? ms_source_height b) && (ms_nonce a =? ms_nonce b) &&
  bool_decide (ms_recipient a = ms_recipient b) && (ms_amount a =? ms_amount b) &&
  (ms_payload_version a =? ms_payload_version b).

Definition slash_amount (stake slash_bps : Z) : Z :=
  let slash := Z.quot (saturating_mul stake slash_bps) 10000 in
  if (slash =? 0) && (0 <? stake) then 1 else slash.

(** In 256-bit arithmetic; a result that does not fit counts as 0. *)
Definition compute_fee (amount fee_bps : Z) : option Z :=
  p ← i256_mul amount fee_bps;
  q ← i256_div p 10000;
  Some (default 0 (i256_to_i128 q)).

(** ** Administration *)

Definition init (admin : Address) : BM unit :=
  stored ← gets kAdminKey;
  reject_if (bool_decide (stored ≠ None)) AlreadyInitialised ;;
  modify (λ s, s <| kAdminKey := Some admin |>
                 <| kSecurityConfig := Some default_security_config |>
                 <| kStats := Some default_stats |>).

Definition register_bridge (caller : Address) (bridge_id : string) (fee_bps min_amount : Z) : BM unit :=
  require_admin caller ;;
  validate_id bridge_id ;;
  reject_if (MAX_FEE_BPS <? fee_bps) FeeTooHigh ;;
  reject_if (min_amount <? 0) NegativeMinAmount ;;
  present ← gets (λ s, kBridge s !! bridge_id);
  reject_if (bool_decide (present ≠ None)) BridgeAlreadyExists ;;
  save_bridge bridge_id (mkBridgeConfig bridge_id fee_bps min_amount true 0 0) ;;
  modify (λ s, s <| kBridgeList := Some (bridge_list s ++ [bridge_id]) |>) ;;
  publish (BridgeRegisteredEvent bridge_id fee_bps min_amount).

Definition set_bridge_fee (caller : Address) (bridge_id : string) (fee_bps : Z) : BM unit :=
  require_admin caller ;;
  reject_if (MAX_FEE_BPS <? fee_bps) FeeTooHigh ;;
  cfg ← load_bridge bridge_id;
  save_bridge bridge_id (cfg <| bg_fee_bps := fee_bps |>) ;;
  publish (BridgeFeeUpdatedEvent bridge_id fee_bps).

Definition set_bridge_active (caller : Address) (bridge_id : string) (active : bool) : BM unit :=
  require_admin caller ;;
  cfg ← load_bridge bridge_id;
  save_bridge bridge_id (cfg <| bg_active := active |>) ;;
  publish (BridgeActiveUpdatedEvent bridge_id active).

Definition set_bridge_acceptance_paused (caller : Address) (paused : bool) : BM unit :=
  require_admin caller ;;
  modify (λ s, s <| kAcceptancePaused := Some paused |>) ;;
  publish (BridgeAcceptancePauseEvent paused caller).

Definition is_bridge_acceptance_paused (s : BridgeState) : bool := default false (kAcceptancePaused s).

Definition set_bridge_security_config (caller : Address) (cfg : SecurityConfig) : BM unit :=
  require_admin caller ;;
  validate_security_config cfg ;;
  modify (λ s, s <| kSecurityConfig := Some cfg |>) ;;
  publish (SecurityConfigUpdatedEvent (sec_min_validator_signatures cfg) (sec_min_finality_ledgers cfg)
             (sec_optimistic_delay_ledgers cfg) (sec_slash_bps cfg) (sec_supported_message_version cfg)).

Definition register_validator (caller validator : Address) (stake : Z) : BM unit :=
  require_admin caller ;;
  reject_if (stake <=? 0) InvalidValidatorStake ;;
  present ← gets (λ s, kValidator s !! validator);
  reject_if (bool_decide (present ≠ None)) ValidatorAlreadyExists ;;
  save_validator validator (mkValidatorRecord stake true 0 0) ;;
  modify (λ s, s <| kValidatorList := Some (validator_list s ++ [validator]) |>) ;;
  publish (ValidatorUpdatedEvent validator stake true).

Definition set_validator_active (caller validator : Address) (active : bool) : BM unit :=
  require_admin caller ;;
  record ← load_validator validator;
  save_validator validator (record <| vr_active := active |>) ;;
  publish (ValidatorUpdatedEvent validator (vr_stake record) active).

Definition close_channel_emergency (caller : Address) (channel_id reason : string) : BM unit :=
  require_admin caller ;;
  state ← gets (λ s, load_channel_state s channel_id);
  save_channel_state channel_id (state <| ch_emergency_closed := true |> <| ch_reason := reason |>) ;;
  with_stats (λ t, t <| bs_emergency_closures := u64_saturating_add (bs_emergency_closures t) 1 |>) ;;
  publish (ChannelEmergencyCloseEvent channel_id true reason).

Definition reopen_channel (caller : Address) (channel_id : string) : BM unit :=
  require_admin caller ;;
  state ← gets (λ s, load_channel_state s channel_id);
  save_channel_state channel_id (state <| ch_emergency_closed := false |> <| ch_reason := ""%string |>) ;;
  publish (ChannelEmergencyCloseEvent channel_id false "").

Definition transfer_admin (caller new_admin : Address) : BM unit :=
  require_admin caller ;;
  modify (λ s, s <| kAdminKey := Some new_admin |>).

(** ** Deposits and withdrawals *)

Definition bridge_deposit (sender : Address) (bridge_id : string) (amount : Z) : BM Z :=
  require_auth sender ;;
  paused ← gets is_bridge_acceptance_paused;
  reject_if paused BridgeAcceptancePaused ;;
  reject_if (amount <=? 0) AmountNotPositive ;;
  cfg ← load_bridge bridge_id;
  reject_if (negb (bg_active cfg)) BridgeInactive ;;
  reject_if (amount <? bg_min_amount cfg) AmountBelowMinimum ;;
  fee ← unwrap (compute_fee amount (bg_fee_bps cfg));
  net ← ok_or (checked_sub amount fee) Overflow;
  total ← ok_or (checked_add (bg_total_deposited cfg) amount) Overflow;
  save_bridge bridge_id (cfg <| bg_total_deposited := total |>) ;;
  publish (BridgeDepositEvent bridge_id amount fee net) ;;
  mret net.

Definition bridge_withdraw (caller : Address) (bridge_id : string) (recipient : Address) (amount : Z) :
    BM unit :=
  require_admin caller ;;
  reject_if (amount <=? 0) AmountNotPositive ;;
  cfg ← load_bridge bridge_id;
  reject_if (amount <? bg_min_amount cfg) AmountBelowMinimum ;;
  total ← ok_or (checked_add (bg_total_withdrawn cfg) amount) Overflow;
  save_bridge bridge_id (cfg <| bg_total_withdrawn := total |>) ;;
  publish (BridgeWithdrawalEvent bridge_id amount).

(** ** Cross-chain messages *)

(** An anomaly is recorded before the error is returned. *)
Definition anomaly_if (c : bool) (channel_id reason : string) (e : ContractError) : BM unit :=
  when c (record_channel_anomaly channel_id reason ;; fail e).

Definition submit_cross_chain_message (caller : Address) (input : CrossChainMessageInput) : BM Z :=
  require_auth caller ;;
  validate_id (mi_bridge_id input) ;;
  validate_id (mi_channel_id input) ;;
  validate_id (mi_source_chain input) ;;
  reject_if (mi_amount input <=? 0) AmountNotPositive ;;
  cfg ← gets load_security_config;
  anomaly_if (negb (mi_payload_version input =? sec_supported_message_version cfg))
    (mi_channel_id input) "unsupported_message_version" InvalidMessageVersion ;;
  bridge ← load_bridge (mi_bridge_id input);
  reject_if (mi_amount input <? bg_min_amount bridge) AmountBelowMinimum ;;
  channel ← gets (λ s, load_channel_state s (mi_channel_id input));
  reject_if (ch_emergency_closed channel) ChannelClosed ;;
  let source_key := (mi_channel_id input, mi_source_chain input, mi_source_tx_id input, mi_nonce input) in
  seen ← gets (λ s, kMessageSource s !! source_key);
  when (bool_decide (seen ≠ None))
    (with_stats (λ t, t <| bs_replay_rejections := u64_saturating_add (bs_replay_rejections t) 1 |>) ;;
     record_channel_anomaly (mi_channel_id input) "replay_detected" ;;
     fail ReplayDetected) ;;
  anomaly_if (negb (ch_last_observed_nonce channel =? 0) && (mi_nonce input <=? ch_last_observed_nonce channel))
    (mi_channel_id input) "out_of_order_nonce" InvalidMessageOrdering ;;
  anomaly_if (negb (ch_last_observed_height channel =? 0) &&
              (mi_source_height input <? ch_last_observed_height channel))
    (mi_channel_id input) "source_height_regression" InvalidMessageOrdering ;;
  message_id ← next_message_id;
  let wait_ledgers := Z.max (sec_min_finality_ledgers cfg) (sec_optimistic_delay_ledgers cfg) in
  now ← ask sequence;
  let message := mkCrossChainMessage message_id (mi_bridge_id input) (mi_channel_id input)
    (mi_source_chain input) (mi_source_tx_id input) (mi_source_height input) (mi_nonce input)
    (mi_recipient input) (mi_amount input) (mi_payload_version input) now
    (u32_saturating_add now wait_ledgers) 0 0 false false in
  save_channel_state (mi_channel_id input)
    (channel <| ch_last_observed_nonce := mi_nonce input |>
             <| ch_last_observed_height := mi_source_height input |>) ;;
  modify (λ s, s <| kMessageSource := <[source_key := message_id]> (kMessageSource s) |>) ;;
  save_message message ;;
  with_stats (λ t, t <| bs_total_messages := u64_saturating_add (bs_total_messages t) 1 |>) ;;
  mret message_id.

Definition attest_cross_chain_message (validator : Address) (message_id : Z) (approve : bool) : BM unit :=
  require_auth validator ;;
  record ← load_validator validator;
  reject_if (negb (vr_active record)) ValidatorInactive ;;
  message ← load_message message_id;
  reject_if (ms_executed message) MessageAlreadyExecuted ;;
  reject_if (ms_invalidated message) MessageInvalidated ;;
  seen ← gets (λ s, kAttestation s !! (message_id, validator));
  reject_if (bool_decide (seen ≠ None)) DuplicateAttestation ;;
  modify (λ s, s <| kAttestation := <[(message_id, validator) := approve]> (kAttestation s) |>) ;;
  message ←
    (if approve then
       save_validator validator (record <| vr_approvals := u32_saturating_add (vr_approvals record) 1 |>) ;;
       mret (message <| ms_approvals := u32_saturating_add (ms_approvals message) 1 |>)
     else
       record_channel_anomaly (ms_channel_id message) "validator_rejection" ;;
       mret (message <| ms_rejections := u32_saturating_add (ms_rejections message) 1 |>));
  save_message message.

Definition execute_verified_withdrawal (caller : Address) (message_id : Z) : BM unit :=
  require_auth caller ;;
  cfg ← gets load_security_config;
  message ← load_message message_id;
  reject_if (ms_executed message) MessageAlreadyExecuted ;;
  reject_if (ms_invalidated message) MessageInvalidated ;;
  reject_if (ms_approvals message <? sec_min_validator_signatures cfg) QuorumNotReached ;;
  now ← ask sequence;
  reject_if (now <? ms_finality_ledger message) MessageNotFinal ;;
  when (0 <? ms_rejections message)
    (with_stats (λ t, t <| bs_rejected_messages := u64_saturating_add (bs_rejected_messages t) 1 |>) ;;
     fail MessageRejected) ;;
  channel ← gets (λ s, load_channel_state s (ms_channel_id message));
  reject_if (ch_emergency_closed channel) ChannelClosed ;;
  bridge ← load_bridge (ms_bridge_id message);
  reject_if (ms_amount message <? bg_min_amount bridge) AmountBelowMinimum ;;
  total ← ok_or (checked_add (bg_total_withdrawn bridge) (ms_amount message)) Overflow;
  save_bridge (ms_bridge_id message) (bridge <| bg_total_withdrawn := total |>) ;;
  save_message (message <| ms_executed := true |>) ;;
  with_stats (λ t, t <| bs_executed_messages := u64_saturating_add (bs_executed_messages t) 1 |>) ;;
  publish (BridgeWithdrawalEvent (ms_bridge_id message) (ms_amount message)).

(** ** Slashing *)

Definition slashed_record (record : ValidatorRecord) (slash_bps : Z) : ValidatorRecord :=
  let amount := slash_amount (vr_stake record) slash_bps in
  let stake := saturating_sub (vr_stake record) amount in
  record <| vr_stake := stake |>
         <| vr_slashed_total := saturating_add (vr_slashed_total record) amount |>
         <| vr_active := if stake <=? 0 then false else vr_active record |>.

(** The loop over the validators, with the list of those slashed so far. *)
Fixpoint slash_loop (first_id second_id slash_bps : Z) (validators : list Address)
    (slashed : list Address) : BM (list Address) :=
  match validators with
  | [] => mret slashed
  | validator :: validators =>
      first_vote ← gets (λ s, kAttestation s !! (first_id, validator));
      second_vote ← gets (λ s, kAttestation s !! (second_id, validator));
      if bool_decide (first_vote = Some true) && bool_decide (second_vote = Some true) then
        record ← load_validator validator;
        save_validator validator (slashed_record record slash_bps) ;;
        with_stats (λ t, t <| bs_slashes := u64_saturating_add (bs_slashes t) 1 |>) ;;
        publish (ValidatorSlashedEvent validator (slash_amount (vr_stake record) slash_bps)
                   (vr_stake (slashed_record record slash_bps))) ;;
        slash_loop first_id second_id slash_bps validators (slashed ++ [validator])
      else slash_loop first_id second_id slash_bps validators slashed
  end.

Definition same_source (a b : CrossChainMessage) : bool :=
  bool_decide (ms_channel_id a = ms_channel_id b) && bool_decide (ms_source_chain a = ms_source_chain b) &&
  ((ms_nonce a =? ms_nonce b) || bool_decide (ms_source_tx_id a = ms_source_tx_id b)).

Definition slash_conflicting_messages (caller : Address) (first_message_id second_message_id : Z) :
    BM (list Address) :=
  require_auth caller ;;
  first ← load_message first_message_id;
  second ← load_message second_message_id;
  reject_if (negb (same_source first second) || message_payload_matches first second) ConflictingMessages ;;
  validators ← gets validator_list;
  cfg ← gets load_security_config;
  slashed ← slash_loop first_message_id second_message_id (sec_slash_bps cfg) validators [];
  reject_if (bool_decide (slashed = [])) NothingToSlash ;;
  save_message (first <| ms_invalidated := true |>) ;;
  save_message (second <| ms_invalidated := true |>) ;;
  record_channel_anomaly (ms_channel_id first) "conflicting_message_attestations" ;;
  mret slashed.

(** ** The contract as a transition system *)

Inductive BridgeCall : Type :=
  | CallInit (admin : Address)
  | CallRegisterBridge (caller : Address) (bridge_id : string) (fee_bps min_amount : Z)
  | CallSetBridgeFee (caller : Address) (bridge_id : string) (fee_bps : Z)
  | CallSetBridgeActive (caller : Address) (bridge_id : string) (active : bool)
  | CallDeposit (sender : Address) (bridge_id : string) (amount : Z)
  | CallWithdraw (caller : Address) (bridge_id : string) (recipient : Address) (amount : Z)
  | CallSetAcceptancePaused (caller : Address) (paused : bool)
  | CallSetSecurityConfig (caller : Address) (cfg : SecurityConfig)
  | CallRegisterValidator (caller validator : Address) (stake : Z)
  | CallSetValidatorActive (caller validator : Address) (active : bool)
  | CallSubmit (caller : Address) (input : CrossChainMessageInput)
  | CallAttest (validator : Address) (message_id : Z) (approve : bool)
  | CallExecute (caller : Address) (message_id : Z)
  | CallSlash (caller : Address) (first_message_id second_message_id : Z)
  | CallCloseChannel (caller : Address) (channel_id reason : string)
  | CallReopenChannel (caller : Address) (channel_id : string)
  | CallTransferAdmin (caller new_admin : Address).

Definition bridge_dispatch (c : BridgeCall) (env : Env) (s : BridgeState) : BridgeState :=
  match c with
  | CallInit a => (invoke (init a) env s).2
  | CallRegisterBridge c b f m => (invoke (register_bridge c b f m) env s).2
  | CallSetBridgeFee c b f => (invoke (set_bridge_fee c b f) env s).2
  | CallSetBridgeActive c b a => (invoke (set_bridge_active c b a) env s).2
  | CallDeposit u b x => (invoke (bridge_deposit u b x) env s).2
  | CallWithdraw c b r x => (invoke (bridge_withdraw c b r x) env s).2
  | CallSetAcceptancePaused c p => (invoke (set_bridge_acceptance_paused c p) env s).2
  | CallSetSecurityConfig c cfg => (invoke (set_bridge_security_config c cfg) env s).2
  | CallRegisterValidator c v x => (invoke (register_validator c v x) env s).2
  | CallSetValidatorActive c v a => (invoke (set_validator_active c v a) env s).2
  | CallSubmit c i => (invoke (submit_cross_chain_message c i) env s).2
  | CallAttest v i a => (invoke (attest_cross_chain_message v i a) env s).2
  | CallExecute c i => (invoke (execute_verified_withdrawal c i) env s).2
  | CallSlash c i j => (invoke (slash_conflicting_messages c i j) env s).2
  | CallCloseChannel c i r => (invoke (close_channel_emergency c i r) env s).2
  | CallReopenChannel c i => (invoke (reopen_channel c i) env s).2
  | CallTransferAdmin c a => (invoke (transfer_admin c a) env s).2
  end.

(** Unsigned and bounded arguments are within their machine types. *)
Definition bridge_call_in_range (c : BridgeCall) : Prop :=
  match c with
  | CallRegisterBridge _ _ f _ | CallSetBridgeFee _ _ f => 0 ≤ f
  | CallSetSecurityConfig _ cfg =>
      0 ≤ sec_min_validator_signatures cfg ∧ 0 ≤ sec_min_finality_ledgers cfg ∧
      0 ≤ sec_slash_bps cfg
  | CallRegisterValidator _ _ x => in_i128 x = true
  | _ => True
  end.

Inductive bridge_step (s : BridgeState) : BridgeState → Prop :=
  | bridge_step_call c env : bridge_call_in_range c → bridge_step s (bridge_dispatch c env s).

Abbreviation bridge_reachable := (rtc bridge_step empty_bridge) (only parsing).
