(* ===== verification/BridgeSafety.v ===== *)
(** * BridgeSafety: invariants of the bridge contract

    The records of the bridge are consistent in every state that invocations
    lead to: totals are the sums of the published transfers, the vote counts of
    a message are the numbers of attestations, a source event is one message.
    It follows that an execution needs a quorum and happens once. *)

From S2P Require Import Prelude Host Bridge.

(** ** The parts of the invariant *)

Definition next_id (s : BridgeState) : Z := default 0 (kNextMessageId s).

(** The amounts published as deposited to and withdrawn from a bridge. *)
Definition flow (id : string) (e : BridgeEvent) : Z * Z :=
  match e with
  | BridgeDepositEvent b x _ _ => if bool_decide (b = id) then (x, 0) else (0, 0)
  | BridgeWithdrawalEvent b x => if bool_decide (b = id) then (0, x) else (0, 0)
  | _ => (0, 0)
  end.

Fixpoint flows (id : string) (evs : list BridgeEvent) : Z * Z :=
  match evs with
  | [] => (0, 0)
  | e :: evs => ((flow id e).1 + (flows id evs).1, (flow id e).2 + (flows id evs).2)
  end.

Record bridge_wf (s : BridgeState) (id : string) (b : BridgeConfig) : Prop := {
  bw_id : bg_bridge_id b = id;
  bw_fee : 0 ≤ bg_fee_bps b ≤ MAX_FEE_BPS;
  bw_min : 0 ≤ bg_min_amount b;
  bw_totals : (bg_total_deposited b, bg_total_withdrawn b) = flows id (br_events s);
  bw_nonneg : 0 ≤ bg_total_deposited b ∧ 0 ≤ bg_total_withdrawn b;
}.

Record bridges_ok (s : BridgeState) : Prop := {
  bk_wf : map_Forall (bridge_wf s) (kBridge s);
  bk_flows : ∀ id, kBridge s !! id = None → flows id (br_events s) = (0, 0);
  bk_nodup : NoDup (bridge_list s);
  bk_list : ∀ id, id ∈ bridge_list s ↔ is_Some (kBridge s !! id);
}.

Definition validator_wf (v : ValidatorRecord) : Prop :=
  0 ≤ vr_stake v ∧ 0 ≤ vr_slashed_total v ∧ vr_stake v + vr_slashed_total v ≤ I128_MAX.

Record validators_ok (s : BridgeState) : Prop := {
  vo_wf : map_Forall (λ _, validator_wf) (kValidator s);
  vo_nodup : NoDup (validator_list s);
  vo_list : ∀ v, v ∈ validator_list s ↔ is_Some (kValidator s !! v);
}.

Record config_ok (s : BridgeState) : Prop := {
  co_signatures : 0 < sec_min_validator_signatures (load_security_config s);
  co_finality : 0 < sec_min_finality_ledgers (load_security_config s);
  co_slash : 0 < sec_slash_bps (load_security_config s) ≤ 10000;
}.

(** The number of validators whose vote on a message is [vote]. *)
Definition votes_in (a : gmap (Z * Address) bool) (id : Z) (vote : bool) : Z :=
  Z.of_nat (size (filter (λ e, e.1.1 = id ∧ e.2 = vote) a)).
Definition votes (s : BridgeState) : Z → bool → Z := votes_in (kAttestation s).

Definition source_of (m : CrossChainMessage) : SourceMessageKey :=
  (ms_channel_id m, ms_source_chain m, ms_source_tx_id m, ms_nonce m).

Record message_wf (s : BridgeState) (id : Z) (m : CrossChainMessage) : Prop := {
  mw_id : ms_message_id m = id;
  mw_range : 1 ≤ id ≤ next_id s;
  mw_amount : 0 < ms_amount m;
  mw_approvals : ms_approvals m = Z.min U32_MAX (votes s id true);
  mw_rejections : ms_rejections m = Z.min U32_MAX (votes s id false);
  mw_source : kMessageSource s !! source_of m = Some id;
}.

Record messages_ok (s : BridgeState) : Prop := {
  mo_wf : map_Forall (message_wf s) (kMessage s);
  mo_next : 0 ≤ next_id s;
  mo_voters : ∀ id v, is_Some (kAttestation s !! (id, v)) →
    is_Some (kMessage s !! id) ∧ is_Some (kValidator s !! v);
}.

Record bridge_ok (s : BridgeState) : Prop := {
  ok_bridges : bridges_ok s;
  ok_validators : validators_ok s;
  ok_config : config_ok s;
  ok_messages : messages_ok s;
}.

(** ** States that differ in channels, statistics and notices only *)

Definition core (s : BridgeState) :=
  (kBridge s, kBridgeList s, kSecurityConfig s, kValidator s, kValidatorList s,
   (kMessage s, kMessageSource s, kAttestation s, kNextMessageId s)).

Record same_core (s s' : BridgeState) : Prop := {
  sc_core : core s' = core s;
  sc_flows : ∀ id, flows id (br_events s') = flows id (br_events s);
}.

#[export] Instance same_core_preorder : PreOrder same_core.
Proof.
  split; [by split|]. intros s1 s2 s3 [H1 F1] [H2 F2]. split; [congruence|].
  intros id. by rewrite F2.
Qed.

Lemma flows_app id evs evs' :
  flows id (evs ++ evs') = ((flows id evs).1 + (flows id evs').1, (flows id evs).2 + (flows id evs').2).
Proof.
  induction evs as [|e evs IH]; cbn; [by destruct (flows id evs')|]. rewrite IH. cbn. f_equal; lia.
Qed.

(** Publishing one event. *)
Lemma flows_snoc id evs e :
  flows id (evs ++ [e]) = ((flows id evs).1 + (flow id e).1, (flows id evs).2 + (flow id e).2).
Proof. rewrite flows_app. cbn. f_equal; lia. Qed.

Lemma core_ext s s' : core s' = core s → br_events s' = br_events s → same_core s s'.
Proof. intros H1 H2. split; [done|]. intros id. by rewrite H2. Qed.

Lemma core_notice s e :
  (∀ id, flow id e = (0, 0)) → same_core s (s <| br_events := br_events s ++ [e] |>).
Proof.
  intros He. split; [done|]. intros id. cbn. rewrite flows_snoc, He. cbn.
  rewrite !Z.add_0_r. by destruct (flows id (br_events s)).
Qed.

Ltac core_fields H :=
  pose proof (sc_core _ _ H); unfold core in *; simplify_eq.

Lemma bridges_ok_core s s' : same_core s s' → bridges_ok s → bridges_ok s'.
Proof.
  intros [Hc Hf] [Hw Hn Hd Hl]. unfold core in Hc.
  assert (kBridge s' = kBridge s ∧ kBridgeList s' = kBridgeList s) as [Eb El] by (split; congruence).
  split; unfold bridge_list in *; rewrite ?Eb, ?El; try done.
  - intros id b Hb. destruct (Hw id b Hb). split; try done. by rewrite Hf.
  - intros id Hid. rewrite Hf. auto.
Qed.

Lemma validators_ok_ext s s' :
  kValidator s' = kValidator s → kValidatorList s' = kValidatorList s → validators_ok s → validators_ok s'.
Proof. intros Ev El [Hw Hd Hl]. split; unfold validator_list in *; by rewrite ?Ev, ?El. Qed.

Lemma config_ok_ext s s' : kSecurityConfig s' = kSecurityConfig s → config_ok s → config_ok s'.
Proof. intros E []. split; unfold load_security_config in *; by rewrite E. Qed.

Lemma messages_ok_ext s s' :
  kMessage s' = kMessage s → kMessageSource s' = kMessageSource s → kAttestation s' = kAttestation s →
  kNextMessageId s' = kNextMessageId s → (∀ v, is_Some (kValidator s !! v) → is_Some (kValidator s' !! v)) →
  messages_ok s → messages_ok s'.
Proof.
  intros Em Es Ea En Hv [Hw H0 Hvo]. unfold next_id in *. split; unfold next_id; rewrite ?En, ?Em, ?Ea; try done.
  - intros id m Hm. destruct (Hw id m Hm). split; unfold next_id, votes in *; by rewrite ?En, ?Ea, ?Es.
  - intros id v Hi. destruct (Hvo id v Hi). auto.
Qed.

Lemma bridge_ok_core s s' : same_core s s' → bridge_ok s → bridge_ok s'.
Proof.
  intros Hs [Hb Hv Hc Hm]. pose proof (sc_core _ _ Hs) as E. unfold core in E. split.
  - by eapply bridges_ok_core.
  - eapply validators_ok_ext; [..|exact Hv]; congruence.
  - eapply config_ok_ext; [|exact Hc]; congruence.
  - eapply messages_ok_ext; [..|exact Hm]; try congruence.
Qed.

(** Goes back from the last state of a run, write by write. *)
Ltac core_chain :=
  solve
    [ reflexivity | eassumption
    | etrans; [|apply core_notice; done]; core_chain
    | etrans; [|eassumption]; core_chain ].

(** ** Operations run backwards *)

Lemma with_stats_core f env s u s' : with_stats f env s = (Ok u, s') → same_core s s'.
Proof. intros [= <- <-]. by apply core_ext. Qed.

Lemma save_channel_core id c env s u s' : save_channel_state id c env s = (Ok u, s') → same_core s s'.
Proof. intros [= <- <-]. by apply core_ext. Qed.

Lemma notice_Ok e env s u s' :
  publish e env s = (Ok u, s') → s' = s <| br_events := br_events s ++ [e] |>.
Proof. by intros [= <- <-]. Qed.

Lemma load_bridge_Ok id env s b s' : load_bridge id env s = (Ok b, s') → kBridge s !! id = Some b ∧ s' = s.
Proof. unfold load_bridge. intros H. by run_inv H. Qed.

Lemma load_validator_Ok v env s r s' :
  load_validator v env s = (Ok r, s') → kValidator s !! v = Some r ∧ s' = s.
Proof. unfold load_validator. intros H. by run_inv H. Qed.

Lemma load_message_Ok id env s m s' :
  load_message id env s = (Ok m, s') → kMessage s !! id = Some m ∧ s' = s.
Proof. unfold load_message. intros H. by run_inv H. Qed.

Lemma bridge_admin_Ok caller env s u s' :
  require_admin caller env s = (Ok u, s') →
  authorized env caller = true ∧ kAdminKey s = Some caller ∧ s' = s.
Proof. unfold require_admin, load_admin. intros H. run_inv H. zbool. by subst. Qed.

Lemma validate_id_Ok id env s u s' : validate_id id env s = (Ok u, s') → s' = s.
Proof. unfold validate_id. intros H. by run_inv H. Qed.

Lemma anomaly_core id r env s u s' : record_channel_anomaly id r env s = (Ok u, s') → same_core s s'.
Proof.
  unfold record_channel_anomaly. intros H. run_step H; subst;
    repeat match goal with
    | H : with_stats _ _ _ = _ |- _ => apply with_stats_core in H
    | H : save_channel_state _ _ _ _ = _ |- _ => apply save_channel_core in H
    | H : publish _ _ _ = _ |- _ => apply notice_Ok in H as ->
    end.
  all: core_chain.
Qed.

Lemma anomaly_if_Ok c id r e env s u s' : anomaly_if c id r e env s = (Ok u, s') → c = false ∧ s' = s.
Proof. unfold anomaly_if. intros H. run_step H; subst; done. Qed.

Ltac run_prim H ::=
  lazymatch type of H with
  | load_bridge _ _ _ = _ => apply load_bridge_Ok in H as [? ->]
  | load_validator _ _ _ = _ => apply load_validator_Ok in H as [? ->]
  | load_message _ _ _ = _ => apply load_message_Ok in H as [? ->]
  | require_admin _ _ _ = _ => apply bridge_admin_Ok in H as (? & ? & ->)
  | validate_id _ _ _ = _ => apply validate_id_Ok in H as ->
  | anomaly_if _ _ _ _ _ _ = _ => apply anomaly_if_Ok in H as [? ->]
  | with_stats _ _ _ = _ => apply with_stats_core in H
  | save_channel_state _ _ _ _ = _ => apply save_channel_core in H
  | record_channel_anomaly _ _ _ _ = _ => apply anomaly_core in H
  | publish _ _ _ = _ => apply notice_Ok in H as ->
  | _ => idtac
  end.

(** ** Bridges *)

Lemma save_bridge_Ok id b env s u s' :
  save_bridge id b env s = (Ok u, s') → s' = s <| kBridge := <[id := b]> (kBridge s) |>.
Proof. by intros [= <- <-]. Qed.

Lemma flows_other id evs ev : flow id ev = (0, 0) → flows id (evs ++ [ev]) = flows id evs.
Proof. intros H. rewrite flows_snoc, H. cbn. rewrite !Z.add_0_r. by destruct (flows id evs). Qed.

Lemma bridges_save s id b b' ev :
  bridges_ok s → kBridge s !! id = Some b → (∀ id', id' ≠ id → flow id' ev = (0, 0)) →
  bg_bridge_id b' = id → 0 ≤ bg_fee_bps b' ≤ MAX_FEE_BPS → 0 ≤ bg_min_amount b' →
  0 ≤ (flow id ev).1 → 0 ≤ (flow id ev).2 →
  bg_total_deposited b' = bg_total_deposited b + (flow id ev).1 →
  bg_total_withdrawn b' = bg_total_withdrawn b + (flow id ev).2 →
  bridges_ok (s <| kBridge := <[id := b']> (kBridge s) |> <| br_events := br_events s ++ [ev] |>).
Proof.
  intros [Hw Hn Hd Hl] Hb Hev Hid Hfee Hmin Hp1 Hp2 H1 H2. pose proof (Hw id b Hb) as [_ _ _ Ht [? ?]].
  split; cbn; [intros id' b1|intros id'|done|intros id'].
  - intros [[<- <-]|[Hne Hb1]]%lookup_insert_Some.
    + split; cbn; try done; [|lia]. rewrite flows_snoc, <- Ht, H1, H2. done.
    + destruct (Hw id' b1 Hb1). split; cbn; try done. by rewrite flows_other by auto.
  - intros [Hne Hno]%lookup_insert_None. rewrite flows_other by auto. auto.
  - change (id' ∈ bridge_list s ↔ is_Some (<[id := b']> (kBridge s) !! id')). rewrite Hl.
    destruct (decide (id' = id)) as [->|]; [rewrite lookup_insert_eq, Hb|by rewrite lookup_insert_ne].
    by split; intros; eexists.
Qed.

Lemma bridges_register s id b ev :
  bridges_ok s → kBridge s !! id = None → (∀ id', flow id' ev = (0, 0)) →
  bg_bridge_id b = id → 0 ≤ bg_fee_bps b ≤ MAX_FEE_BPS → 0 ≤ bg_min_amount b →
  bg_total_deposited b = 0 → bg_total_withdrawn b = 0 →
  bridges_ok (s <| kBridge := <[id := b]> (kBridge s) |> <| kBridgeList := Some (bridge_list s ++ [id]) |>
                <| br_events := br_events s ++ [ev] |>).
Proof.
  intros [Hw Hn Hd Hl] Hb Hev Hid Hfee Hmin H1 H2.
  split; cbn; [intros id' b1|intros id'| |intros id'].
  - intros [[<- <-]|[Hne Hb1]]%lookup_insert_Some.
    + split; cbn; try done; [|lia]. by rewrite flows_other, Hn, H1, H2 by auto.
    + destruct (Hw id' b1 Hb1). split; cbn; try done. by rewrite flows_other by auto.
  - intros [Hne Hno]%lookup_insert_None. rewrite flows_other by auto. auto.
  - apply NoDup_app. split_and!; [done| |apply NoDup_singleton].
    intros x Hx%Hl ->%list_elem_of_singleton. rewrite Hb in Hx. by destruct Hx.
  - change (id' ∈ bridge_list s ++ [id] ↔ is_Some (<[id := b]> (kBridge s) !! id')).
    rewrite elem_of_app, list_elem_of_singleton, Hl.
    destruct (decide (id' = id)) as [->|]; [rewrite lookup_insert_eq|rewrite lookup_insert_ne by done];
      naive_solver.
Qed.

Lemma bridges_ok_ext s s' :
  kBridge s' = kBridge s → kBridgeList s' = kBridgeList s → br_events s' = br_events s →
  bridges_ok s → bridges_ok s'.
Proof.
  intros Eb El Ee [Hw Hn Hd Hl]. split; unfold bridge_list in *; rewrite ?Eb, ?El, ?Ee; try done.
  intros id b Hb. destruct (Hw id b Hb). split; by rewrite ?Ee.
Qed.

Lemma compute_fee_Some amount bps fee :
  0 < amount ≤ I128_MAX → 0 ≤ bps ≤ MAX_FEE_BPS → compute_fee amount bps = Some fee →
  fee = amount * bps / 10000 ∧ 0 ≤ fee ∧ fee * 10 ≤ amount.
Proof.
  intros Ha Hb H. unfold compute_fee, i256_mul, i256_div in H.
  apply bind_Some in H as (p & [_ ->]%fit_Some & H). cbn in H.
  apply bind_Some in H as (q & [_ ->]%fit_Some & [= <-]).
  unfold MAX_FEE_BPS in *. rewrite quot_pos by nia.
  assert (0 ≤ amount * bps / 10000 ∧ amount * bps / 10000 * 10 ≤ amount) as [H0 H1].
  { split; [apply Z.div_pos; nia|]. pose proof (Z.mul_div_le (amount * bps) 10000). nia. }
  unfold i256_to_i128. rewrite fit_in by (unfold in_i128; apply in_range_spec; rlia). done.
Qed.

(** *** Each operation on bridges *)

(** The rest of the invariant when only bridges and events change. *)
Lemma bridge_ok_bridges s s' :
  bridge_ok s → bridges_ok s' → kSecurityConfig s' = kSecurityConfig s → kValidator s' = kValidator s →
  kValidatorList s' = kValidatorList s → kMessage s' = kMessage s → kMessageSource s' = kMessageSource s →
  kAttestation s' = kAttestation s → kNextMessageId s' = kNextMessageId s → bridge_ok s'.
Proof.
  intros [_ Hv Hc Hm] Hb Ec Ev El Em Es Ea En. split; [done|..].
  - by eapply validators_ok_ext.
  - by eapply config_ok_ext.
  - eapply messages_ok_ext; try done. by rewrite Ev.
Qed.

Lemma register_bridge_keeps caller id fee min env s u s' :
  0 ≤ fee → bridge_ok s → register_bridge caller id fee min env s = (Ok u, s') → bridge_ok s'.
Proof.
  intros Hf Hok H. unfold register_bridge in H. run_step H; subst. zbool.
  match goal with H : save_bridge _ _ _ _ = _ |- _ => apply save_bridge_Ok in H as -> end.
  eapply bridge_ok_bridges; [exact Hok| |reflexivity..].
  by apply (bridges_register s id _ (BridgeRegisteredEvent id fee min)); [apply Hok|..].
Qed.

Lemma set_bridge_fee_keeps caller id fee env s u s' :
  0 ≤ fee → bridge_ok s → set_bridge_fee caller id fee env s = (Ok u, s') → bridge_ok s'.
Proof.
  intros Hf Hok H. unfold set_bridge_fee in H. run_step H; subst. zbool.
  match goal with H : save_bridge _ _ _ _ = _ |- _ => apply save_bridge_Ok in H as -> end.
  match goal with H : kBridge _ !! _ = Some ?b |- _ => pose proof (bk_wf _ (ok_bridges _ Hok) _ _ H) as []; rename H into Hb end.
  eapply bridge_ok_bridges; [exact Hok| |reflexivity..].
  by eapply (bridges_save s id _ _ (BridgeFeeUpdatedEvent id fee)); cbn; try done; try lia; apply Hok.
Qed.

Lemma set_bridge_active_keeps caller id a env s u s' :
  bridge_ok s → set_bridge_active caller id a env s = (Ok u, s') → bridge_ok s'.
Proof.
  intros Hok H. unfold set_bridge_active in H. run_step H; subst. zbool.
  match goal with H : save_bridge _ _ _ _ = _ |- _ => apply save_bridge_Ok in H as -> end.
  match goal with H : kBridge _ !! _ = Some ?b |- _ => pose proof (bk_wf _ (ok_bridges _ Hok) _ _ H) as []; rename H into Hb end.
  eapply bridge_ok_bridges; [exact Hok| |reflexivity..].
  by eapply (bridges_save s id _ _ (BridgeActiveUpdatedEvent id a)); cbn; try done; try lia; apply Hok.
Qed.

Lemma flow_deposit id id' x f n :
  flow id (BridgeDepositEvent id' x f n) = if bool_decide (id' = id) then (x, 0) else (0, 0).
Proof. done. Qed.

Lemma bridge_deposit_Ok sender id amount env s r s' :
  bridge_ok s → bridge_deposit sender id amount env s = (Ok r, s') →
  ∃ b, kBridge s !! id = Some b ∧ bg_active b = true ∧ is_bridge_acceptance_paused s = false ∧
    authorized env sender = true ∧ 0 < amount ∧ bg_min_amount b ≤ amount ∧
    let fee := amount * bg_fee_bps b / 10000 in
    r = amount - fee ∧ 0 ≤ fee ∧ fee * 10 ≤ amount ∧
    s' = s <| kBridge := <[id := b <| bg_total_deposited := bg_total_deposited b + amount |>]> (kBridge s) |>
           <| br_events := br_events s ++ [BridgeDepositEvent id amount fee r] |>.
Proof.
  intros Hok H. unfold bridge_deposit in H. run_step H; subst. zbool.
  match goal with H : save_bridge _ _ _ _ = _ |- _ => apply save_bridge_Ok in H as -> end.
  match goal with H : kBridge _ !! _ = Some ?b |- _ =>
    destruct (bk_wf _ (ok_bridges _ Hok) _ _ H) as [Hid Hfee Hmin Ht [Ht1 Ht2]]; exists b end.
  checked_facts.
  match goal with H : compute_fee _ _ = Some _ |- _ =>
    apply compute_fee_Some in H as (-> & ? & ?); [|rlia|done] end.
  subst. split_and!; try done; lia.
Qed.

Lemma bridge_deposit_keeps sender id amount env s r s' :
  bridge_ok s → bridge_deposit sender id amount env s = (Ok r, s') → bridge_ok s'.
Proof.
  intros Hok H. apply bridge_deposit_Ok in H as (b & Hb & _ & _ & _ & Hx & _ & _ & _ & _ & ->); [|done].
  destruct (bk_wf _ (ok_bridges _ Hok) _ _ Hb). eapply bridge_ok_bridges; [exact Hok| |reflexivity..].
  eapply (bridges_save s id b); try done; rewrite ?flow_deposit, ?bool_decide_eq_true_2 by done; cbn; try lia.
  - apply Hok.
  - intros id' Hne. by rewrite bool_decide_eq_false_2 by done.
Qed.

Lemma withdrawal_keeps s id b amount :
  bridge_ok s → kBridge s !! id = Some b → 0 < amount →
  bridge_ok (s <| kBridge := <[id := b <| bg_total_withdrawn := bg_total_withdrawn b + amount |>]> (kBridge s) |>
               <| br_events := br_events s ++ [BridgeWithdrawalEvent id amount] |>).
Proof.
  intros Hok Hb Hx. destruct (bk_wf _ (ok_bridges _ Hok) _ _ Hb).
  eapply bridge_ok_bridges; [exact Hok| |reflexivity..].
  assert (∀ id', flow id' (BridgeWithdrawalEvent id amount) = if bool_decide (id = id') then (0, amount) else (0, 0))
    as Hf by done.
  eapply (bridges_save s id b); try done; rewrite ?Hf, ?bool_decide_eq_true_2 by done; cbn; try lia.
  - apply Hok.
  - intros id' Hne. by rewrite bool_decide_eq_false_2 by done.
Qed.

Lemma bridge_withdraw_keeps caller id r amount env s u s' :
  bridge_ok s → bridge_withdraw caller id r amount env s = (Ok u, s') → bridge_ok s'.
Proof.
  intros Hok H. unfold bridge_withdraw in H. run_step H; subst. zbool. checked_facts. subst.
  match goal with H : save_bridge _ _ _ _ = _ |- _ => apply save_bridge_Ok in H as -> end.
  by apply (withdrawal_keeps s id _ amount).
Qed.

(** ** Validators *)

Lemma save_validator_Ok v r env s u s' :
  save_validator v r env s = (Ok u, s') → s' = s <| kValidator := <[v := r]> (kValidator s) |>.
Proof. by intros [= <- <-]. Qed.

Lemma save_message_Ok m env s u s' :
  save_message m env s = (Ok u, s') → s' = s <| kMessage := <[ms_message_id m := m]> (kMessage s) |>.
Proof. by intros [= <- <-]. Qed.

Lemma validators_save s v r r' :
  validators_ok s → kValidator s !! v = Some r → validator_wf r' →
  validators_ok (s <| kValidator := <[v := r']> (kValidator s) |>).
Proof.
  intros [Hw Hd Hl] Hv Hr. split; cbn; [by apply map_Forall_insert_2|done|]. intros v'.
  change (v' ∈ validator_list s ↔ is_Some (<[v := r']> (kValidator s) !! v')). rewrite Hl.
  destruct (decide (v' = v)) as [->|]; [rewrite lookup_insert_eq, Hv|by rewrite lookup_insert_ne].
  by split; intros; eexists.
Qed.

Lemma validators_register s v r :
  validators_ok s → kValidator s !! v = None → validator_wf r →
  validators_ok (s <| kValidator := <[v := r]> (kValidator s) |>
                   <| kValidatorList := Some (validator_list s ++ [v]) |>).
Proof.
  intros [Hw Hd Hl] Hv Hr. split; cbn; [by apply map_Forall_insert_2| |].
  - apply NoDup_app. split_and!; [done| |apply NoDup_singleton].
    intros x Hx%Hl ->%list_elem_of_singleton. rewrite Hv in Hx. by destruct Hx.
  - intros v'. change (v' ∈ validator_list s ++ [v] ↔ is_Some (<[v := r]> (kValidator s) !! v')).
    rewrite elem_of_app, list_elem_of_singleton, Hl.
    destruct (decide (v' = v)) as [->|]; [rewrite lookup_insert_eq|rewrite lookup_insert_ne by done];
      naive_solver.
Qed.

(** The rest of the invariant when only validators and notices change. *)
Lemma bridge_ok_validators s s' :
  bridge_ok s → validators_ok s' → (∀ v, is_Some (kValidator s !! v) → is_Some (kValidator s' !! v)) →
  kBridge s' = kBridge s → kBridgeList s' = kBridgeList s → br_events s' = br_events s →
  kSecurityConfig s' = kSecurityConfig s → kMessage s' = kMessage s → kMessageSource s' = kMessageSource s →
  kAttestation s' = kAttestation s → kNextMessageId s' = kNextMessageId s → bridge_ok s'.
Proof.
  intros [Hb _ Hc Hm] Hv Hd Eb El Ee Ec Em Es Ea En. split; [|done|..].
  - by eapply bridges_ok_ext.
  - by eapply config_ok_ext.
  - by eapply messages_ok_ext.
Qed.

Lemma lookup_insert_is_Some_2 {A} (m : gmap Address A) v v' x :
  is_Some (m !! v') → is_Some (<[v := x]> m !! v').
Proof.
  intros H. destruct (decide (v' = v)) as [->|]; [rewrite lookup_insert_eq; by eexists|by rewrite lookup_insert_ne].
Qed.

Lemma save_validator_keeps s v r r' :
  bridge_ok s → kValidator s !! v = Some r → validator_wf r' →
  bridge_ok (s <| kValidator := <[v := r']> (kValidator s) |>).
Proof.
  intros Hok Hv Hr. eapply bridge_ok_validators; [exact Hok| | |reflexivity..].
  - eapply (validators_save s v); [apply Hok|done|done].
  - intros v'. apply lookup_insert_is_Some_2.
Qed.

Lemma register_validator_keeps caller v stake env s u s' :
  in_i128 stake = true → bridge_ok s → register_validator caller v stake env s = (Ok u, s') → bridge_ok s'.
Proof.
  intros Hx Hok H. unfold register_validator in H. run_step H; subst. zbool.
  match goal with H : save_validator _ _ _ _ = _ |- _ => apply save_validator_Ok in H as -> end.
  eapply bridge_ok_core; [by apply core_notice|].
  eapply bridge_ok_validators; [exact Hok| | |reflexivity..].
  - apply (validators_register s v (mkValidatorRecord stake true 0 0)); [apply Hok|done|]. apply in_i128_spec in Hx. unfold validator_wf. cbn. lia.
  - intros v'. apply lookup_insert_is_Some_2.
Qed.

Lemma set_validator_active_keeps caller v a env s u s' :
  bridge_ok s → set_validator_active caller v a env s = (Ok u, s') → bridge_ok s'.
Proof.
  intros Hok H. unfold set_validator_active in H. run_step H; subst. zbool.
  match goal with H : save_validator _ _ _ _ = _ |- _ => apply save_validator_Ok in H as -> end.
  eapply bridge_ok_core; [by apply core_notice|].
  match goal with H : kValidator _ !! _ = Some ?r |- _ =>
    eapply (save_validator_keeps _ _ r); [done|done|exact (vo_wf _ (ok_validators _ Hok) _ _ H)] end.
Qed.

(** ** Slashing *)

Lemma slash_amount_range stake bps :
  0 ≤ stake ≤ I128_MAX → 0 < bps ≤ 10000 → 0 ≤ slash_amount stake bps ≤ stake.
Proof.
  intros Hs Hb. unfold slash_amount, saturating_mul, clamp.
  assert (Z.max I128_MIN (Z.min I128_MAX (stake * bps)) = Z.min I128_MAX (stake * bps)) as -> by (rlia || nia).
  set (p := Z.min _ _). assert (0 ≤ p ≤ stake * 10000) as Hp by (unfold p; rewrite I128_MAX_eq in *; nia).
  rewrite quot_pos by lia. destruct (_ && _) eqn:E; zbool; [lia|].
  split; [apply Z.div_pos; lia|]. apply Z.div_le_upper_bound; lia.
Qed.

Lemma slashed_record_wf r bps :
  validator_wf r → 0 < bps ≤ 10000 →
  validator_wf (slashed_record r bps) ∧
  vr_stake (slashed_record r bps) = vr_stake r - slash_amount (vr_stake r) bps ∧
  vr_stake (slashed_record r bps) + vr_slashed_total (slashed_record r bps) =
  vr_stake r + vr_slashed_total r.
Proof.
  intros (H1 & H2 & H3) Hb. pose proof (slash_amount_range (vr_stake r) bps ltac:(lia) Hb).
  unfold validator_wf, slashed_record, saturating_sub, saturating_add, clamp. cbn.
  rewrite I128_MAX_eq, I128_MIN_eq in *. lia.
Qed.

(** ** Messages *)

Lemma votes_insert (a : gmap (Z * Address) bool) id v x id' b :
  a !! (id, v) = None →
  votes_in (<[(id, v) := x]> a) id' b = votes_in a id' b + (if bool_decide (id = id' ∧ x = b) then 1 else 0).
Proof.
  intros Hn. unfold votes_in. case_bool_decide as E.
  - rewrite map_filter_insert_True by done. rewrite map_size_insert_None; [lia|].
    apply map_lookup_filter_None. by left.
  - rewrite map_filter_insert_not'; [lia|done|by intros y; rewrite Hn].
Qed.

Lemma votes_none (a : gmap (Z * Address) bool) id b :
  (∀ v, a !! (id, v) = None) → votes_in a id b = 0.
Proof.
  intros Hn. unfold votes_in. replace (filter _ a) with (∅ : gmap (Z * Address) bool); [done|].
  symmetry. apply map_empty. intros [id' v]. apply map_lookup_filter_None. right.
  intros x Hx [E _]. cbn in E. subst. by rewrite Hn in Hx.
Qed.

(** Updating the flags of a message. *)
Lemma messages_flags s id m m' :
  messages_ok s → kMessage s !! id = Some m →
  ms_message_id m' = ms_message_id m → ms_amount m' = ms_amount m → source_of m' = source_of m →
  ms_approvals m' = ms_approvals m → ms_rejections m' = ms_rejections m →
  messages_ok (s <| kMessage := <[ms_message_id m' := m']> (kMessage s) |>).
Proof.
  intros [Hw H0 Hv] Hm Eid Ex Es Ea Er. pose proof (Hw id m Hm) as [Hid ? ? ? ? ?].
  split; cbn; [intros id' m1|done|intros id' v Hi].
  - rewrite Eid, Hid. intros [[<- <-]|[Hne Hm1]]%lookup_insert_Some.
    + split; cbn; [congruence|done|by rewrite Ex|by rewrite Ea|by rewrite Er|by rewrite Es].
    + by destruct (Hw id' m1 Hm1).
  - destruct (Hv id' v Hi). split; [|done]. rewrite Eid, Hid.
    destruct (decide (id' = id)) as [->|]; [rewrite lookup_insert_eq; by eexists|by rewrite lookup_insert_ne].
Qed.

Lemma min_vote (n : Z) : 0 ≤ n → u32_saturating_add (Z.min U32_MAX n) 1 = Z.min U32_MAX (n + 1).
Proof. unfold u32_saturating_add. rewrite U32_MAX_eq. lia. Qed.

Definition counted (m : CrossChainMessage) (approve : bool) : CrossChainMessage :=
  if approve then m <| ms_approvals := u32_saturating_add (ms_approvals m) 1 |>
  else m <| ms_rejections := u32_saturating_add (ms_rejections m) 1 |>.

(** A first vote of a validator. *)
Lemma messages_vote s id m v approve :
  messages_ok s → kMessage s !! id = Some m → is_Some (kValidator s !! v) →
  kAttestation s !! (id, v) = None →
  messages_ok (s <| kAttestation := <[(id, v) := approve]> (kAttestation s) |>
                 <| kMessage := <[id := counted m approve]> (kMessage s) |>).
Proof.
  intros [Hw H0 Hvo] Hm Hv Ha. pose proof (Hw id m Hm) as [Hid Hr Hx Happ Hrej Hsrc].
  split; cbn; [intros id' m1|done|intros id' v' Hi].
  - intros [[<- <-]|[Hne Hm1]]%lookup_insert_Some.
    + assert (∀ b, 0 ≤ votes_in (kAttestation s) id b) as Hpos by (intros; unfold votes_in; lia).
      unfold votes in Happ, Hrej.
      split; cbn; try (by destruct approve); unfold votes; cbn; rewrite votes_insert by done.
      * destruct approve; cbn; rewrite Happ.
        -- rewrite bool_decide_eq_true_2 by done. apply min_vote, Hpos.
        -- rewrite bool_decide_eq_false_2, Z.add_0_r by naive_solver. done.
      * destruct approve; cbn; rewrite Hrej.
        -- rewrite bool_decide_eq_false_2, Z.add_0_r by naive_solver. done.
        -- rewrite bool_decide_eq_true_2 by done. apply min_vote, Hpos.
    + destruct (Hw id' m1 Hm1). unfold votes in *. split; unfold votes; cbn; try done;
        rewrite votes_insert, bool_decide_eq_false_2, Z.add_0_r by naive_solver; done.
  - destruct (decide ((id, v) = (id', v'))) as [[= <- <-]|Hne].
    + split; [rewrite lookup_insert_eq; by eexists|done].
    + rewrite lookup_insert_ne in Hi by done. destruct (Hvo id' v' Hi). split; [|done].
      destruct (decide (id = id')) as [->|]; [rewrite lookup_insert_eq; by eexists|by rewrite lookup_insert_ne].
Qed.

(** A message under a fresh identifier and a fresh source. *)
Lemma messages_new s m :
  messages_ok s → next_id s < U64_MAX - 1 → ms_message_id m = next_id s + 1 → 0 < ms_amount m →
  ms_approvals m = 0 → ms_rejections m = 0 → kMessageSource s !! source_of m = None →
  messages_ok (s <| kNextMessageId := Some (next_id s + 1) |>
                 <| kMessageSource := <[source_of m := next_id s + 1]> (kMessageSource s) |>
                 <| kMessage := <[ms_message_id m := m]> (kMessage s) |>).
Proof.
  intros [Hw H0 Hvo] Hn Hid Hx Ha Hr Hs. rewrite Hid.
  assert (∀ v, kAttestation s !! (next_id s + 1, v) = None) as Hno.
  { intros v. apply eq_None_not_Some. intros Hi. destruct (Hvo _ _ Hi) as [[m1 Hm1] _].
    destruct (Hw _ _ Hm1). lia. }
  split; unfold next_id; cbn; fold (next_id s); [intros id' m1|lia|intros id' v Hi].
  - intros [[<- <-]|[Hne Hm1]]%lookup_insert_Some.
    + split; unfold next_id, votes; cbn; fold (next_id s); rewrite ?votes_none by done; try (rlia || lia || done).
      by rewrite lookup_insert_eq.
    + destruct (Hw id' m1 Hm1). split; unfold next_id; cbn; fold (next_id s); try (done || lia).
      rewrite lookup_insert_ne; [done|]. intros E. rewrite E in Hs. congruence.
  - destruct (Hvo id' v Hi). split; [|done].
    destruct (decide (id' = next_id s + 1)) as [->|]; [rewrite lookup_insert_eq; by eexists|by rewrite lookup_insert_ne].
Qed.

(** The rest of the invariant when only messages, votes and sources change. *)
Lemma bridge_ok_messages s s' :
  bridge_ok s → messages_ok s' → kBridge s' = kBridge s → kBridgeList s' = kBridgeList s →
  br_events s' = br_events s → kSecurityConfig s' = kSecurityConfig s → kValidator s' = kValidator s →
  kValidatorList s' = kValidatorList s → bridge_ok s'.
Proof.
  intros [Hb Hv Hc _] Hm Eb El Ee Ec Ev Evl. split; [| | |done].
  - by eapply bridges_ok_ext.
  - by eapply validators_ok_ext.
  - by eapply config_ok_ext.
Qed.

(** Rewrites the fields of a state by those of one with the same core. *)
Ltac use_core H :=
  let E := fresh "E" in pose proof (sc_core _ _ H) as E; unfold core in E; cbn in E; injection E as ? ? ? ? ? ? ? ? ?.

Lemma attest_Ok v id approve env s u s' :
  bridge_ok s → attest_cross_chain_message v id approve env s = (Ok u, s') →
  ∃ m r r', authorized env v = true ∧ kMessage s !! id = Some m ∧ kValidator s !! v = Some r ∧ vr_active r = true ∧
    ms_executed m = false ∧ ms_invalidated m = false ∧ kAttestation s !! (id, v) = None ∧ validator_wf r' ∧
    same_core (s <| kAttestation := <[(id, v) := approve]> (kAttestation s) |>
                 <| kMessage := <[id := counted m approve]> (kMessage s) |>
                 <| kValidator := if approve then <[v := r']> (kValidator s) else kValidator s |>) s'.
Proof.
  intros Hok H. unfold attest_cross_chain_message in H. run_step H; subst; zbool;
    repeat match goal with
    | H : save_validator _ _ _ _ = _ |- _ => apply save_validator_Ok in H as ->
    | H : save_message _ _ _ = _ |- _ => apply save_message_Ok in H as ->
    end.
  all: match goal with H : kMessage _ !! _ = Some ?m, Hv : kValidator _ !! _ = Some ?r |- _ =>
    pose proof (mw_id _ _ _ (mo_wf _ (ok_messages _ Hok) _ _ H)) as Hid; exists m, r, (r <| vr_approvals := u32_saturating_add (vr_approvals r) 1 |>);
    pose proof (vo_wf _ (ok_validators _ Hok) _ _ Hv) as Hwf end.
  - split_and!; first [done|exact Hwf|idtac]. apply core_ext; [|done]. unfold core. cbn. by rewrite Hid.
  - split_and!; first [done|exact Hwf|idtac].
    match goal with H : same_core _ _ |- _ => destruct H as [Hc Hf]; unfold core in Hc; cbn in Hc end.
    split; [|done]. unfold core. cbn. rewrite Hid. congruence.
Qed.

Lemma attest_keeps v id approve env s u s' :
  bridge_ok s → attest_cross_chain_message v id approve env s = (Ok u, s') → bridge_ok s'.
Proof.
  intros Hok H. apply attest_Ok in H as (m & r & r' & _ & Hm & Hv & _ & _ & _ & Ha & Hr & Hs); [|done].
  eapply bridge_ok_core; [exact Hs|].
  assert (bridge_ok (s <| kAttestation := <[(id, v) := approve]> (kAttestation s) |>
                       <| kMessage := <[id := counted m approve]> (kMessage s) |>)) as H1.
  { eapply bridge_ok_messages; [exact Hok| |reflexivity..].
    apply (messages_vote s id m v approve); [apply Hok|done|by eexists|done]. }
  destruct approve; [|exact H1]. exact (save_validator_keeps _ v r r' H1 Hv Hr).
Qed.

Lemma next_message_id_Ok env s id s' :
  next_message_id env s = (Ok id, s') →
  id = u64_saturating_add (next_id s) 1 ∧ s' = s <| kNextMessageId := Some id |>.
Proof. by intros [= <- <-]. Qed.

Definition message_of (input : CrossChainMessageInput) (id now wait : Z) : CrossChainMessage :=
  mkCrossChainMessage id (mi_bridge_id input) (mi_channel_id input) (mi_source_chain input)
    (mi_source_tx_id input) (mi_source_height input) (mi_nonce input) (mi_recipient input)
    (mi_amount input) (mi_payload_version input) now (u32_saturating_add now wait) 0 0 false false.

Lemma submit_Ok caller input env s id s' :
  submit_cross_chain_message caller input env s = (Ok id, s') →
  ∃ wait, let m := message_of input id (sequence env) wait in
    authorized env caller = true ∧ id = u64_saturating_add (next_id s) 1 ∧ 0 < mi_amount input ∧
    kMessageSource s !! source_of m = None ∧
    wait = Z.max (sec_min_finality_ledgers (load_security_config s))
             (sec_optimistic_delay_ledgers (load_security_config s)) ∧
    same_core (s <| kNextMessageId := Some id |>
                 <| kMessageSource := <[source_of m := id]> (kMessageSource s) |>
                 <| kMessage := <[id := m]> (kMessage s) |>) s'.
Proof.
  intros H. unfold submit_cross_chain_message in H. run_step H; subst; zbool.
  match goal with H : next_message_id _ _ = _ |- _ => apply next_message_id_Ok in H as [-> ->] end.
  match goal with H : save_message _ _ _ = _ |- _ => apply save_message_Ok in H as -> end.
  eexists. split_and!; [done|done|done|done|reflexivity|].
  etrans; [|eassumption].
  match goal with H : same_core (s <| kNextMessageId := _ |>) ?s1 |- _ =>
    destruct H as [Hc Hf]; unfold core in Hc; cbn in Hc end.
  split; [|done]. unfold core, message_of, source_of. cbn. congruence.
Qed.

Lemma submit_keeps caller input env s id s' :
  bridge_ok s → next_id s' < U64_MAX →
  submit_cross_chain_message caller input env s = (Ok id, s') → bridge_ok s' ∧ next_id s < next_id s'.
Proof.
  intros Hok Hn H. apply submit_Ok in H as (wait & _ & Hid & Hx & Hs & _ & Hc).
  assert (next_id s' = id) as En by (pose proof (sc_core _ _ Hc) as E; unfold core in E; cbn in E;
    unfold next_id; by replace (kNextMessageId s') with (Some id) by congruence).
  assert (id = next_id s + 1) as Hid' by (unfold u64_saturating_add in Hid; lia).
  split; [|lia]. eapply bridge_ok_core; [exact Hc|]. eapply bridge_ok_messages; [exact Hok| |reflexivity..].
  rewrite Hid'. apply (messages_new s (message_of input (next_id s + 1) (sequence env) wait)); first [done|apply Hok|lia].
Qed.

Lemma execute_Ok caller id env s u s' :
  bridge_ok s → execute_verified_withdrawal caller id env s = (Ok u, s') →
  ∃ m b, kMessage s !! id = Some m ∧ kBridge s !! ms_bridge_id m = Some b ∧
    ms_executed m = false ∧ ms_invalidated m = false ∧ ms_rejections m ≤ 0 ∧
    sec_min_validator_signatures (load_security_config s) ≤ ms_approvals m ∧
    ms_finality_ledger m ≤ sequence env ∧
    ch_emergency_closed (load_channel_state s (ms_channel_id m)) = false ∧
    same_core (s <| kBridge := <[ms_bridge_id m := b <| bg_total_withdrawn := bg_total_withdrawn b + ms_amount m |>]>
                      (kBridge s) |>
                 <| kMessage := <[id := m <| ms_executed := true |>]> (kMessage s) |>
                 <| br_events := br_events s ++ [BridgeWithdrawalEvent (ms_bridge_id m) (ms_amount m)] |>) s'.
Proof.
  intros Hok H. unfold execute_verified_withdrawal in H. run_step H; subst; zbool.
  match goal with H : save_bridge _ _ _ _ = _ |- _ => apply save_bridge_Ok in H as -> end.
  match goal with H : save_message _ _ _ = _ |- _ => apply save_message_Ok in H as -> end.
  checked_facts. subst.
  match goal with Hm : kMessage _ !! id = Some ?m, Hb : kBridge _ !! _ = Some ?b |- _ => exists m, b;
    pose proof (mw_id _ _ _ (mo_wf _ (ok_messages _ Hok) _ _ Hm)) as Hid end.
  split_and!; try done.
  match goal with H : same_core _ ?s1 |- _ => destruct H as [Hc Hf]; unfold core in Hc; cbn in Hc end.
  split; [unfold core; cbn; rewrite Hid in Hc; congruence|]. intros id'. cbn. rewrite !flows_snoc, Hf. done.
Qed.

Lemma execute_keeps caller id env s u s' :
  bridge_ok s → execute_verified_withdrawal caller id env s = (Ok u, s') → bridge_ok s'.
Proof.
  intros Hok H. apply execute_Ok in H as (m & b & Hm & Hb & _ & _ & _ & _ & _ & _ & Hc); [|done].
  pose proof (mo_wf _ (ok_messages _ Hok) _ _ Hm) as Hwf.
  eapply bridge_ok_core; [exact Hc|].
  pose proof (withdrawal_keeps s (ms_bridge_id m) b (ms_amount m) Hok Hb (mw_amount _ _ _ Hwf)) as H1.
  eapply bridge_ok_messages; [exact H1| |reflexivity..].
  pose proof (messages_flags _ id m (m <| ms_executed := true |>) (ok_messages _ H1) Hm) as H2.
  change (ms_message_id (m <| ms_executed := true |>)) with (ms_message_id m) in H2.
  rewrite (mw_id _ _ _ Hwf) in H2. by apply H2.
Qed.

(** *** Slashing *)

Definition approved_both (s : BridgeState) (first second : Z) (v : Address) : bool :=
  bool_decide (kAttestation s !! (first, v) = Some true) &&
  bool_decide (kAttestation s !! (second, v) = Some true).

(** Everything the loop leaves alone. *)
Definition rest (s : BridgeState) :=
  (kBridge s, kBridgeList s, kSecurityConfig s, kValidatorList s, kMessage s,
   (kMessageSource s, kAttestation s, kNextMessageId s, kChannel s)).

Lemma slash_one v r bps f ev env s u1 s1 u2 s2 u3 s3 :
  bridge_ok s → 0 < bps ≤ 10000 → kValidator s !! v = Some r →
  save_validator v (slashed_record r bps) env s = (Ok u1, s1) →
  with_stats f env s1 = (Ok u2, s2) →
  publish (ValidatorSlashedEvent v (slash_amount (vr_stake r) bps) ev) env s2 = (Ok u3, s3) →
  bridge_ok s3 ∧ rest s3 = rest s ∧ kValidator s3 = <[v := slashed_record r bps]> (kValidator s).
Proof.
  intros Hok Hb Hr ->%save_validator_Ok Hst ->%notice_Ok.
  pose proof (slashed_record_wf r bps (vo_wf _ (ok_validators _ Hok) _ _ Hr) Hb) as [Hwf _].
  pose proof (save_validator_keeps s v r _ Hok Hr Hwf) as Hok1. split.
  - eapply bridge_ok_core; [by apply core_notice|]. eapply bridge_ok_core; [by eapply with_stats_core|done].
  - by injection Hst as _ <-.
Qed.

Lemma slash_loop_Ok first second bps vs acc env s l s' :
  bridge_ok s → 0 < bps ≤ 10000 → NoDup vs →
  slash_loop first second bps vs acc env s = (Ok l, s') →
  bridge_ok s' ∧ rest s' = rest s ∧ l = acc ++ List.filter (approved_both s first second) vs ∧
  ∀ v, kValidator s' !! v =
    if bool_decide (v ∈ vs) && approved_both s first second v
    then (λ r, slashed_record r bps) <$> kValidator s !! v else kValidator s !! v.
Proof.
  revert acc s. induction vs as [|w vs IH]; intros acc s Hok Hb Hnd H; cbn [slash_loop] in H.
  - run_inv H. by rewrite app_nil_r.
  - apply NoDup_cons in Hnd as [Hw Hnd].
    apply bind_Ok in H as (o1 & s1 & [-> ->]%gets_Ok & H). apply bind_Ok in H as (o2 & s1 & [-> ->]%gets_Ok & H).
    change (bool_decide (kAttestation s !! (first, w) = Some true) &&
            bool_decide (kAttestation s !! (second, w) = Some true)) with (approved_both s first second w) in H.
    assert (∀ v, bool_decide (v ∈ w :: vs) = bool_decide (v = w) || bool_decide (v ∈ vs)) as Hin.
    { intros v. rewrite (bool_decide_ext _ _ (elem_of_cons vs v w)). by rewrite bool_decide_or. }
    cbn [List.filter]. destruct (approved_both s first second w) eqn:Ew.
    + apply bind_Ok in H as (r & s1 & [Hr ->]%load_validator_Ok & H).
      apply bind_Ok in H as (u1 & s1 & Hsave & H).
      apply bind_Ok in H as (u2 & s2 & Hst & H). apply bind_Ok in H as (u3 & s3 & Hpub & H).
      destruct (slash_one _ _ _ _ _ _ _ _ _ _ _ _ _ Hok Hb Hr Hsave Hst Hpub) as (Hok3 & Hrest & Hval).
      apply IH in H as (Hok' & Hrest' & -> & Hv); [|done..].
      assert (approved_both s3 first second = approved_both s first second) as Eap.
      { unfold approved_both, rest in *. by replace (kAttestation s3) with (kAttestation s) by congruence. }
      split_and!; [done|congruence|by rewrite Eap, <- app_assoc|].
      intros v. rewrite Hv, Hval, Hin, Eap. destruct (decide (v = w)) as [->|Hne].
      * rewrite bool_decide_eq_false_2, bool_decide_eq_true_2, Ew, lookup_insert_eq, Hr by done. done.
      * by rewrite (bool_decide_eq_false_2 (v = w)), lookup_insert_ne by done.
    + apply IH in H as (Hok' & Hrest' & -> & Hv); [|done..]. split_and!; [done..|].
      intros v. rewrite Hv, Hin. destruct (decide (v = w)) as [->|Hne].
      * by rewrite Ew, !andb_false_r.
      * by rewrite (bool_decide_eq_false_2 (v = w)) by done.
Qed.

Lemma slash_Ok caller first second env s l s' :
  bridge_ok s → slash_conflicting_messages caller first second env s = (Ok l, s') →
  ∃ m1 m2, kMessage s !! first = Some m1 ∧ kMessage s !! second = Some m2 ∧
    same_source m1 m2 = true ∧ message_payload_matches m1 m2 = false ∧
    l = List.filter (approved_both s first second) (validator_list s) ∧ l ≠ [] ∧
    ∃ s1, bridge_ok s1 ∧ rest s1 = rest s ∧
      (∀ v, kValidator s1 !! v =
         if bool_decide (v ∈ validator_list s) && approved_both s first second v
         then (λ r, slashed_record r (sec_slash_bps (load_security_config s))) <$> kValidator s !! v
         else kValidator s !! v) ∧
      same_core (s1 <| kMessage := <[second := m2 <| ms_invalidated := true |>]>
                     (<[first := m1 <| ms_invalidated := true |>]> (kMessage s)) |>) s'.
Proof.
  intros Hok H. unfold slash_conflicting_messages in H. run_step H; subst; zbool.
  pose proof (ok_config _ Hok) as [_ _ Hbps].
  match goal with H : slash_loop _ _ _ _ _ _ _ = _ |- _ =>
    apply slash_loop_Ok in H as (Hok1 & Hrest & -> & Hv); [|done|done|apply Hok] end.
  repeat match goal with H : save_message _ _ _ = _ |- _ => apply save_message_Ok in H as -> end.
  match goal with H1 : kMessage s !! first = Some ?a, H2 : kMessage s !! second = Some ?b |- _ =>
    pose proof (mw_id _ _ _ (mo_wf _ (ok_messages _ Hok) _ _ H1)) as Hid1;
    pose proof (mw_id _ _ _ (mo_wf _ (ok_messages _ Hok) _ _ H2)) as Hid2; exists a, b end.
  split_and!; try done. eexists. split_and!; [exact Hok1|exact Hrest|exact Hv|].
  match goal with H : same_core _ ?s1 |- _ => destruct H as [Hc Hf]; unfold core in Hc; cbn in Hc end.
  unfold rest in Hrest. split; [|done]. unfold core. cbn. rewrite Hid1, Hid2 in Hc. congruence.
Qed.

Lemma messages_two_flags s a b m1 m2 :
  messages_ok s → kMessage s !! a = Some m1 → kMessage s !! b = Some m2 → a ≠ b →
  messages_ok (s <| kMessage := <[b := m2 <| ms_invalidated := true |>]>
                 (<[a := m1 <| ms_invalidated := true |>]> (kMessage s)) |>).
Proof.
  intros Hok H1 H2 Hne.
  pose proof (messages_flags s a m1 (m1 <| ms_invalidated := true |>) Hok H1) as Ha.
  change (ms_message_id (m1 <| ms_invalidated := true |>)) with (ms_message_id m1) in Ha.
  rewrite (mw_id _ _ _ (mo_wf _ Hok _ _ H1)) in Ha. specialize (Ha eq_refl eq_refl eq_refl eq_refl eq_refl).
  set (s1 := s <| kMessage := _ |>) in Ha.
  assert (kMessage s1 !! b = Some m2) as H2' by (by apply lookup_insert_Some; right).
  pose proof (messages_flags s1 b m2 (m2 <| ms_invalidated := true |>) Ha H2') as Hb.
  change (ms_message_id (m2 <| ms_invalidated := true |>)) with (ms_message_id m2) in Hb.
  rewrite (mw_id _ _ _ (mo_wf _ Hok _ _ H2)) in Hb. by apply Hb.
Qed.

Lemma payload_refl m : message_payload_matches m m = true.
Proof. unfold message_payload_matches. rewrite !bool_decide_eq_true_2, !Z.eqb_refl by done. done. Qed.

Lemma slash_keeps caller first second env s l s' :
  bridge_ok s → slash_conflicting_messages caller first second env s = (Ok l, s') → bridge_ok s'.
Proof.
  intros Hok H. apply slash_Ok in H as (m1 & m2 & H1 & H2 & _ & Hp & _ & _ & s1 & Hok1 & Hr & _ & Hc); [|done].
  eapply bridge_ok_core; [exact Hc|]. assert (kMessage s1 = kMessage s) as Em by (unfold rest in Hr; congruence).
  rewrite <- Em in *. eapply bridge_ok_messages; [exact Hok1| |reflexivity..].
  apply messages_two_flags; [apply Hok1|done|done|]. intros ->. rewrite H1 in H2. injection H2 as ->.
  by rewrite payload_refl in Hp.
Qed.

(** ** Every invocation keeps the invariant *)

Lemma init_keeps a env s u s' : bridge_ok s → init a env s = (Ok u, s') → bridge_ok s'.
Proof.
  intros [Hb Hv _ Hm] H. unfold init in H. run_inv H. split.
  - by apply (bridges_ok_ext s).
  - by apply (validators_ok_ext s).
  - by split.
  - by apply (messages_ok_ext s).
Qed.

Lemma security_config_keeps caller cfg env s u s' :
  bridge_call_in_range (CallSetSecurityConfig caller cfg) → bridge_ok s →
  set_bridge_security_config caller cfg env s = (Ok u, s') → bridge_ok s'.
Proof.
  intros (H1 & H2 & H3) [Hb Hv _ Hm] H. unfold set_bridge_security_config, validate_security_config in H.
  run_step H; subst; zbool. eapply bridge_ok_core; [by apply core_notice|]. split.
  - by apply (bridges_ok_ext s).
  - by apply (validators_ok_ext s).
  - split; unfold load_security_config; cbn; lia.
  - by apply (messages_ok_ext s).
Qed.

(** Operations on pauses, channels and the admin do not touch the records. *)
Lemma notice_calls_core c env s :
  match c with
  | CallSetAcceptancePaused _ _ | CallCloseChannel _ _ _ | CallReopenChannel _ _ | CallTransferAdmin _ _ =>
      same_core s (bridge_dispatch c env s)
  | _ => True
  end.
Proof.
  destruct c; try done; cbn; unfold invoke;
    lazymatch goal with |- context [match ?m env s with _ => _ end] => destruct (m env s) as [[v|e|] s'] eqn:Hm end;
    try reflexivity; cbn;
    unfold set_bridge_acceptance_paused, close_channel_emergency, reopen_channel, transfer_admin in Hm;
    run_step Hm; subst; try core_chain; try (by apply core_ext).
  etrans; [|by apply core_notice]. by apply core_ext.
Qed.

Lemma empty_bridge_ok : bridge_ok empty_bridge.
Proof.
  split; split; try done; try apply NoDup_nil_2; unfold bridge_list, validator_list; cbn.
  - intros id. rewrite lookup_empty. unfold is_Some. set_solver.
  - intros id. rewrite lookup_empty. unfold is_Some. set_solver.
  - intros id v. rewrite lookup_empty. by intros [].
Qed.

(** ** The life of a message *)

(** A message keeps its payload; votes are only added; execution and
    invalidation are final. *)
Record evolves (m m' : CrossChainMessage) : Prop := {
  ev_payload : message_payload_matches m m' = true;
  ev_executed : ms_executed m = true → ms_executed m' = true;
  ev_invalidated : ms_invalidated m = true → ms_invalidated m' = true;
}.

Lemma evolves_refl m : evolves m m.
Proof. split; [apply payload_refl|done|done]. Qed.

Lemma evolves_trans m1 m2 m3 : evolves m1 m2 → evolves m2 m3 → evolves m1 m3.
Proof.
  intros [P1 E1 I1] [P2 E2 I2]. split; [|auto|auto]. unfold message_payload_matches in *. zbool.
  rewrite !andb_true_iff, !bool_decide_eq_true, !Z.eqb_eq. split_and!; congruence.
Qed.

Definition messages_evolve (s s' : BridgeState) : Prop :=
  next_id s ≤ next_id s' ∧
  ∀ id m, kMessage s !! id = Some m → ∃ m', kMessage s' !! id = Some m' ∧ evolves m m'.

Lemma evolve_same s s' :
  kMessage s' = kMessage s → kNextMessageId s' = kNextMessageId s → messages_evolve s s'.
Proof.
  intros Em En. split; [unfold next_id; by rewrite En|]. intros id m Hm. exists m.
  rewrite Em. split; [done|apply evolves_refl].
Qed.

(** Operations that leave messages and their numbering alone. *)
Definition board (s : BridgeState) := (kMessage s, kNextMessageId s).

Lemma board_preserved c x :
  match c with
  | CallSubmit _ _ | CallAttest _ _ _ | CallExecute _ _ | CallSlash _ _ _ => True
  | _ => ∀ env s, board s = x → board (bridge_dispatch c env s) = x
  end.
Proof.
  destruct c; try done; intros env s Hs; cbn;
    lazymatch goal with |- board (invoke ?m env s).2 = x =>
      assert (preserves (λ s, board s = x) m) as Hp; [|
        destruct (invoke m env s) as [r s'] eqn:E;
        exact (invoke_preserves _ m env s r s' (preserves_ok _ _ Hp) Hs E)] end;
    unfold init, register_bridge, set_bridge_fee, set_bridge_active, bridge_deposit, bridge_withdraw,
      set_bridge_acceptance_paused, set_bridge_security_config, register_validator, set_validator_active,
      close_channel_emergency, reopen_channel, transfer_admin, require_admin, load_admin, validate_id,
      validate_security_config, load_bridge, load_validator, save_bridge, save_validator, save_channel_state,
      with_stats, publish;
    preserve; done.
Qed.

Lemma message_calls_evolve c env s :
  bridge_ok s → next_id (bridge_dispatch c env s) < U64_MAX →
  match c with
  | CallSubmit _ _ | CallAttest _ _ _ | CallExecute _ _ | CallSlash _ _ _ =>
      bridge_ok (bridge_dispatch c env s) ∧ messages_evolve s (bridge_dispatch c env s)
  | _ => True
  end.
Proof.
  intros Hok Hn.
  assert (∀ m m' id, kMessage s !! id = Some m → message_payload_matches m m' = true →
    (ms_executed m = true → ms_executed m' = true) → (ms_invalidated m = true → ms_invalidated m' = true) →
    ∀ s', kMessage s' = <[id := m']> (kMessage s) → kNextMessageId s' = kNextMessageId s → messages_evolve s s')
    as Hone.
  { intros m m' id Hm Hp He Hi s' Em En. split; [unfold next_id; by rewrite En|]. intros i mi Hmi. rewrite Em.
    destruct (decide (i = id)) as [->|].
    - exists m'. rewrite lookup_insert_eq. split; [done|]. by replace mi with m by congruence.
    - exists mi. rewrite lookup_insert_ne by done. split; [done|apply evolves_refl]. }
  destruct c; try done; cbn in Hn |- *; unfold invoke in *;
    lazymatch goal with |- context [match ?m env s with _ => _ end] => destruct (m env s) as [[v|e|] s'] eqn:Hm end;
    cbn in *; try (by split; [|apply evolve_same]).
  - destruct (submit_keeps _ _ _ _ _ _ Hok Hn Hm) as [Hok' Hlt]. split; [done|]. split; [lia|].
    apply submit_Ok in Hm as (wait & _ & Hid & _ & _ & _ & Hc). intros id m Hidm.
    pose proof (mo_wf _ (ok_messages _ Hok) _ _ Hidm) as Hwf. exists m. split; [|apply evolves_refl].
    pose proof (sc_core _ _ Hc) as E. unfold core in E. cbn in E.
    replace (kMessage s') with (<[v := message_of input v (sequence env) wait]> (kMessage s)) by congruence.
    rewrite lookup_insert_ne; [done|]. pose proof (mw_range _ _ _ Hwf). unfold u64_saturating_add in Hid.
    assert (next_id s' = v) by (unfold next_id; by replace (kNextMessageId s') with (Some v) by congruence). lia.
  - split; [by eapply attest_keeps|].
    apply attest_Ok in Hm as (m & r & r' & _ & Hm & _ & _ & _ & _ & _ & _ & Hc); [|done].
    pose proof (sc_core _ _ Hc) as E. unfold core in E. cbn in E.
    apply (Hone m (counted m approve) message_id); try done; try (by destruct approve); try congruence.
    rewrite <- (payload_refl m). by destruct approve.
  - split; [by eapply execute_keeps|].
    apply execute_Ok in Hm as (m & b & Hm & _ & _ & _ & _ & _ & _ & _ & Hc); [|done].
    pose proof (sc_core _ _ Hc) as E. unfold core in E. cbn in E.
    apply (Hone m (m <| ms_executed := true |>) message_id); try done; try congruence. exact (payload_refl m).
  - split; [by eapply slash_keeps|].
    apply slash_Ok in Hm as (m1 & m2 & H1 & H2 & _ & _ & _ & _ & s1 & _ & Hr & _ & Hc); [|done].
    pose proof (sc_core _ _ Hc) as E. unfold core in E. cbn in E. unfold rest in Hr.
    split; [unfold next_id; by replace (kNextMessageId s') with (kNextMessageId s) by congruence|].
    intros id m Hidm.
    replace (kMessage s') with (<[second_message_id := m2 <| ms_invalidated := true |>]>
      (<[first_message_id := m1 <| ms_invalidated := true |>]> (kMessage s))) by congruence.
    destruct (decide (id = second_message_id)) as [->|Hne2].
    + rewrite lookup_insert_eq. eexists. split; [done|]. replace m with m2 by congruence.
      split; [exact (payload_refl m2)|done|done].
    + rewrite lookup_insert_ne by done. destruct (decide (id = first_message_id)) as [->|Hne1].
      * rewrite lookup_insert_eq. eexists. split; [done|]. replace m with m1 by congruence.
        split; [exact (payload_refl m1)|done|done].
      * rewrite lookup_insert_ne by done. exists m. split; [done|apply evolves_refl].
Qed.

Lemma dispatch_keeps c env s :
  bridge_call_in_range c → bridge_ok s → next_id (bridge_dispatch c env s) < U64_MAX →
  bridge_ok (bridge_dispatch c env s) ∧ messages_evolve s (bridge_dispatch c env s).
Proof.
  intros Hr Hok Hn. pose proof (message_calls_evolve c env s Hok Hn) as Hm.
  pose proof (board_preserved c (board s)) as Hb. pose proof (notice_calls_core c env s) as Hc.
  assert (board (bridge_dispatch c env s) = board s → messages_evolve s (bridge_dispatch c env s)) as Hev
    by (unfold board; intros E; apply evolve_same; congruence).
  destruct c; try done; (split; [clear Hev Hb Hm|by apply Hev, Hb]); try (by eapply bridge_ok_core);
    cbn in *; unfold invoke;
    lazymatch goal with |- context [match ?m env s with _ => _ end] => destruct (m env s) as [[v|e|] s'] eqn:Hrun end;
    try done; cbn.
  - by eapply init_keeps.
  - by eapply register_bridge_keeps.
  - by eapply set_bridge_fee_keeps.
  - by eapply set_bridge_active_keeps.
  - by eapply bridge_deposit_keeps.
  - by eapply bridge_withdraw_keeps.
  - by eapply security_config_keeps.
  - by eapply register_validator_keeps.
  - by eapply set_validator_active_keeps.
Qed.

(** ** Reachable states *)

Lemma slash_loop_next first second bps vs acc n :
  preserves (λ s, kNextMessageId s = n) (slash_loop first second bps vs acc).
Proof.
  revert acc. induction vs as [|v vs IH]; intros acc; cbn [slash_loop]; [apply preserves_readonly, _|].
  unfold load_validator, save_validator, with_stats, publish. preserve; first [apply IH|done].
Qed.

Lemma next_id_back c env s : next_id (bridge_dispatch c env s) < U64_MAX → next_id s < U64_MAX.
Proof.
  assert (∀ E A (m : M BridgeState E A), preserves (λ s', kNextMessageId s' = kNextMessageId s) m →
    next_id (invoke m env s).2 = next_id s) as Hsame.
  { intros E A m Hp. unfold next_id. destruct (invoke m env s) as [r s'] eqn:Hr. cbn.
    by rewrite (invoke_preserves _ m env s r s' (preserves_ok _ _ Hp) eq_refl Hr). }
  pose proof (board_preserved c (board s)) as Hb.
  destruct c; try (specialize (Hb env s eq_refl); apply (f_equal snd) in Hb; unfold board in Hb; cbn [snd] in Hb;
    unfold next_id; by rewrite Hb).
  - cbn. unfold invoke.
    match goal with |- context [submit_cross_chain_message ?a ?b env s] =>
      destruct (submit_cross_chain_message a b env s) as [[id|e|] s'] eqn:E end; cbn; try done.
    apply submit_Ok in E as (wait & _ & Hid & _ & _ & _ & Hc). pose proof (sc_core _ _ Hc) as Ec.
    unfold core in Ec. cbn in Ec. unfold next_id at 1. replace (kNextMessageId s') with (Some id) by congruence.
    cbn. unfold u64_saturating_add in Hid. lia.
  - cbn. rewrite Hsame; [done|]. unfold attest_cross_chain_message, record_channel_anomaly, load_validator,
      load_message, save_validator, save_message, save_channel_state, with_stats, publish. by preserve.
  - cbn. rewrite Hsame; [done|]. unfold execute_verified_withdrawal, load_message, load_bridge,
      save_bridge, save_message, with_stats, publish. by preserve.
  - cbn. rewrite Hsame; [done|]. unfold slash_conflicting_messages, record_channel_anomaly, load_message,
      save_message, save_channel_state, with_stats, publish. preserve; first [apply slash_loop_next|done].
Qed.

Lemma steps_keep s s' :
  rtc bridge_step s s' → next_id s' < U64_MAX → bridge_ok s →
  bridge_ok s' ∧ next_id s < U64_MAX ∧ messages_evolve s s'.
Proof.
  intros Hs. induction Hs as [s|s1 s2 s3 Hstep Hrest IH]; intros Hn Hok.
  - split_and!; [done|done|by apply evolve_same].
  - destruct Hstep as [c env Hr].
    assert (next_id (bridge_dispatch c env s1) < U64_MAX) as Hn2.
    { clear IH Hok Hr. revert Hn. induction Hrest as [|x y z [c' env' _] _ IH]; [done|]. intros Hn.
      by eapply next_id_back, IH. }
    destruct (dispatch_keeps c env s1 Hr Hok Hn2) as [Hok2 [Hm2 He2]].
    destruct (IH Hn Hok2) as (Hok3 & _ & Hm3 & He3). split_and!; [done|by eapply next_id_back|].
    split; [lia|]. intros id m Hid. destruct (He2 id m Hid) as (m' & Hid' & H').
    destruct (He3 id m' Hid') as (m'' & Hid'' & H''). exists m''. split; [done|by eapply evolves_trans].
Qed.


(** ** Votes *)

(** The voters behind a count, without repetition. *)
Lemma voters s id b :
  ∃ vs, NoDup vs ∧ Z.of_nat (length vs) = votes s id b ∧
    ∀ v, v ∈ vs ↔ kAttestation s !! (id, v) = Some b.
Proof.
  set (a := filter (λ e, e.1.1 = id ∧ e.2 = b) (kAttestation s)).
  exists ((λ e : Z * Address * bool, e.1.2) <$> map_to_list a). split_and!.
  - apply NoDup_fmap_2_strong; [|apply NoDup_map_to_list].
    intros [[i v] x] [[i' v'] x'] H1%elem_of_map_to_list H2%elem_of_map_to_list. cbn. intros ->.
    apply map_lookup_filter_Some in H1 as [_ [H1 H1']], H2 as [_ [H2 H2']]. cbn in *. by subst.
  - rewrite length_fmap. unfold votes, votes_in. by rewrite length_map_to_list.
  - intros v. rewrite list_elem_of_fmap. split.
    + intros ([[i v'] x] & -> & H%elem_of_map_to_list). cbn in *.
      apply map_lookup_filter_Some in H as [H [E1 E2]]. cbn in *. by subst.
    + intros H. exists ((id, v), b). split; [done|]. apply elem_of_map_to_list.
      by apply map_lookup_filter_Some.
Qed.

(** ** Properties *)

(** C10: in every reachable state (message ids not exhausted) each bridge's
    totals are the sums of its published deposits and withdrawals and its fee is
    bounded, lists and records agree, stakes and slashed amounts are not
    negative, vote counts are the numbers of attestations, and a source event
    belongs to one message. *)
Theorem bridge_records_are_consistent s :
  rtc bridge_step empty_bridge s → next_id s < U64_MAX → bridge_ok s.
Proof. intros Hs Hn. by apply (steps_keep _ _ Hs Hn), empty_bridge_ok. Qed.


(** C9: in every reachable state (message ids not exhausted) a withdrawal
    message executes only if at least the configured number of distinct
    registered validators approved it and none rejected it, it is final and
    valid and its channel open; its amount is added to the bridge's withdrawals,
    and in no later state can it be executed again. *)
Theorem execution_needs_quorum caller id env s s' :
  rtc bridge_step empty_bridge s → next_id s < U64_MAX →
  execute_verified_withdrawal caller id env s = (Ok tt, s') →
  ∃ m b vs, kMessage s !! id = Some m ∧ kBridge s !! ms_bridge_id m = Some b ∧
    NoDup vs ∧ (∀ v, v ∈ vs ↔ kAttestation s !! (id, v) = Some true) ∧
    (∀ v, v ∈ vs → is_Some (kValidator s !! v)) ∧
    sec_min_validator_signatures (load_security_config s) ≤ Z.of_nat (length vs) ∧
    (∀ v, kAttestation s !! (id, v) ≠ Some false) ∧
    ms_invalidated m = false ∧ ms_finality_ledger m ≤ sequence env ∧
    ch_emergency_closed (load_channel_state s (ms_channel_id m)) = false ∧
    kBridge s' = <[ms_bridge_id m := b <| bg_total_withdrawn := bg_total_withdrawn b + ms_amount m |>]> (kBridge s) ∧
    kMessage s' = <[id := m <| ms_executed := true |>]> (kMessage s) ∧
    ∀ caller' env' s'', rtc bridge_step s' s'' → next_id s'' < U64_MAX → authorized env' caller' = true →
      invoke (execute_verified_withdrawal caller' id) env' s'' = (Err MessageAlreadyExecuted, s'').
Proof.
  intros Hs Hn H. destruct (steps_keep _ _ Hs Hn empty_bridge_ok) as [Hok _].
  pose proof (execute_keeps _ _ _ _ _ _ Hok H) as Hok'.
  apply execute_Ok in H as (m & b & Hm & Hb & _ & Hi & Hrej & Hq & Hf & Hc & Hcore); [|done].
  pose proof (mo_wf _ (ok_messages _ Hok) _ _ Hm) as [_ _ _ Happ Hrj _].
  destruct (voters s id true) as (vs & Hnd & Hlen & Hvs), (voters s id false) as (ws & _ & Hwlen & Hws).
  pose proof (sc_core _ _ Hcore) as E. unfold core in E. cbn in E.
  exists m, b, vs. split_and!; try done; try congruence.
  - intros v Hv%Hvs. by apply (mo_voters _ (ok_messages _ Hok) id v).
  - lia.
  - intros v Hv%Hws. destruct ws; [by apply not_elem_of_nil in Hv|]. cbn in Hwlen.
    assert (0 < U32_MAX) by (by rewrite U32_MAX_eq). lia.
  - intros caller' env' s'' Hs' Hn' Ha. destruct (steps_keep _ _ Hs' Hn' Hok') as (_ & _ & _ & Hev).
    destruct (Hev id (m <| ms_executed := true |>)) as (m' & Hm' & [_ He _]).
    { replace (kMessage s') with (<[id := m <| ms_executed := true |>]> (kMessage s)) by congruence.
      apply lookup_insert_eq. }
      unfold invoke, execute_verified_withdrawal, load_message, require_auth.
    run_fwd. rewrite Ha. run_fwd. rewrite Hm'. run_fwd. by rewrite (He eq_refl).
Qed.

(** What is left of a validator after one slashing. *)
Record slashed_from (r r' : ValidatorRecord) : Prop := {
  sl_stake : 0 ≤ vr_stake r' ≤ vr_stake r;
  sl_conserved : vr_stake r' + vr_slashed_total r' = vr_stake r + vr_slashed_total r;
  sl_positive : 0 < vr_stake r → vr_stake r' < vr_stake r;
  sl_active : vr_active r' = vr_active r && (0 <? vr_stake r');
}.

Lemma slashed_record_from r bps :
  validator_wf r → 0 < bps ≤ 10000 → slashed_from r (slashed_record r bps).
Proof.
  intros Hr Hb. destruct (slashed_record_wf r bps Hr Hb) as ([H0 _] & Hst & Hsum).
  destruct Hr as (H1 & H2 & H3).
  pose proof (slash_amount_range (vr_stake r) bps ltac:(lia) Hb).
  split; [lia|done| |].
  - intros Hpos. rewrite Hst. enough (slash_amount (vr_stake r) bps ≠ 0) by lia.
    unfold slash_amount. destruct (_ =? _) eqn:E; zbool; cbn; [|done].
    by replace (0 <? vr_stake r) with true by (symmetry; by apply Z.ltb_lt).
  - unfold slashed_record. cbn. rewrite Z.ltb_antisym. by destruct (_ <=? 0); rewrite ?andb_false_r, ?andb_true_r.
Qed.

(** Slashing for two conflicting messages takes a positive part of the
    stake of exactly the validators that approved both, adds it to their slashed
    total, deactivates who has nothing left, touches nobody else, and leaves
    both messages invalid: neither can be executed in a later state. *)
Theorem slashing_outcome caller first second env s l s' :
  rtc bridge_step empty_bridge s → next_id s < U64_MAX →
  slash_conflicting_messages caller first second env s = (Ok l, s') →
  l ≠ [] ∧ NoDup l ∧
  (∀ v, v ∈ l ↔ kAttestation s !! (first, v) = Some true ∧ kAttestation s !! (second, v) = Some true) ∧
  (∀ v, v ∉ l → kValidator s' !! v = kValidator s !! v) ∧
  (∀ v, v ∈ l → ∃ r r', kValidator s !! v = Some r ∧ kValidator s' !! v = Some r' ∧ slashed_from r r') ∧
  kBridge s' = kBridge s ∧
  ∀ id, id = first ∨ id = second →
    ∃ m, kMessage s !! id = Some m ∧ kMessage s' !! id = Some (m <| ms_invalidated := true |>) ∧
    ∀ caller' env' s'', rtc bridge_step s' s'' → next_id s'' < U64_MAX →
      (execute_verified_withdrawal caller' id env' s'').1 ≠ Ok tt.
Proof.
  intros Hs Hn H. destruct (steps_keep _ _ Hs Hn empty_bridge_ok) as [Hok _].
  pose proof (slash_keeps _ _ _ _ _ _ _ Hok H) as Hok'.
  apply slash_Ok in H as (m1 & m2 & H1 & H2 & Hsame & Hdiff & -> & Hne & s1 & Hok1 & Hr & Hv & Hc); [|done].
  pose proof (sc_core _ _ Hc) as E. unfold core in E. cbn in E. unfold rest in Hr.
  pose proof (ok_validators _ Hok) as [Hvw Hvd Hvl].
  assert (∀ v, v ∈ List.filter (approved_both s first second) (validator_list s) ↔
    v ∈ validator_list s ∧ approved_both s first second v = true) as Hin.
  { intros v. by rewrite list_elem_of_In, filter_In, <- list_elem_of_In. }
  assert (kValidator s' = kValidator s1) as Ev by congruence.
  assert (first ≠ second) as Hfs.
  { intros ->. rewrite H1 in H2. injection H2 as ->. by rewrite payload_refl in Hdiff. }
  split_and!; [done| | | | |congruence|].
  - apply NoDup_ListNoDup, List.NoDup_filter. by apply NoDup_ListNoDup.
  - intros v. rewrite Hin. unfold approved_both. rewrite andb_true_iff, !bool_decide_eq_true.
    split; [tauto|]. intros [Ha Hb]. split; [|done]. apply Hvl, (mo_voters _ (ok_messages _ Hok) first). by eexists.
  - intros v Hnv. rewrite Ev, Hv. case_bool_decide as Hl; cbn; [|done].
    destruct (approved_both s first second v) eqn:Ea; [|done]. destruct Hnv. by apply Hin.
  - intros v [Hl Ha]%Hin. pose proof Hl as [r Hrec]%Hvl. exists r, (slashed_record r (sec_slash_bps (load_security_config s))).
    split_and!; [done| |].
    + by rewrite Ev, Hv, bool_decide_eq_true_2, Ha, Hrec by done.
    + apply slashed_record_from; [exact (Hvw v r Hrec)|apply Hok].
  - assert (kMessage s' = <[second := m2 <| ms_invalidated := true |>]>
      (<[first := m1 <| ms_invalidated := true |>]> (kMessage s))) as Em by congruence.
    assert (∀ id m, kMessage s' !! id = Some (m <| ms_invalidated := true |>) →
      ∀ caller' env' s'', rtc bridge_step s' s'' → next_id s'' < U64_MAX →
        (execute_verified_withdrawal caller' id env' s'').1 ≠ Ok tt) as Hlater.
    { intros id m Hm caller' env' s'' Hs' Hn' Hex. destruct (steps_keep _ _ Hs' Hn' Hok') as (Hok'' & _ & _ & Hev).
      destruct (Hev id _ Hm) as (m' & Hm' & [_ _ Hi]).
      destruct (execute_verified_withdrawal caller' id env' s'') as [r s3] eqn:Er. cbn in Hex. subst r.
      apply execute_Ok in Er as (m'' & b & Hm'' & _ & _ & Hi' & _); [|done].
      rewrite Hm' in Hm''. injection Hm'' as <-. by rewrite Hi in Hi'. }
    intros id [->| ->]; eexists; (split; [eassumption|]).
    + assert (kMessage s' !! first = Some (m1 <| ms_invalidated := true |>)) as Hf
        by (rewrite Em, lookup_insert_ne, lookup_insert_eq; done).
      split; [done|]. by apply (Hlater first m1).
    + assert (kMessage s' !! second = Some (m2 <| ms_invalidated := true |>)) as Hf by by rewrite Em, lookup_insert_eq.
      split; [done|]. by apply (Hlater second m2).
Qed.

(** ** Examples *)

Definition keeper : Address := 1%positive.
Definition validator_a : Address := 2%positive.
Definition validator_b : Address := 3%positive.
Definition payee : Address := 4%positive.
Definition at_ledger (n : Z) : Env := mkEnv 0 n (λ _, true) (λ _ _, None) (λ _ _ _ _, None).

Definition incoming (tx : string) (nonce amount : Z) : CrossChainMessageInput :=
  mkCrossChainMessageInput "eth" "channel" "ethereum" tx 7 nonce payee amount 1.

Definition replay (calls : list (BridgeCall * Z)) (s : BridgeState) : BridgeState :=
  foldl (λ s c, bridge_dispatch c.1 (at_ledger c.2) s) s calls.

Lemma replay_reaches calls s :
  Forall (λ c, bridge_call_in_range c.1) calls → rtc bridge_step s (replay calls s).
Proof.
  intros H. revert s. induction H as [|[c n] calls Hc _ IH]; intros s; [apply rtc_refl|].
  eapply rtc_l; [by apply (bridge_step_call s c (at_ledger n))|]. apply IH.
Qed.

(** One bridge, two validators, and one deposit. *)
Definition opening : list (BridgeCall * Z) :=
  [(CallInit keeper, 1); (CallRegisterBridge keeper "eth" 30 10, 1);
   (CallRegisterValidator keeper validator_a 1000, 1); (CallRegisterValidator keeper validator_b 500, 1);
   (CallDeposit payee "eth" 5000, 2)].

(** A message that both validators approve. *)
Definition approved_message : BridgeState :=
  replay (opening ++ [(CallSubmit payee (incoming "tx1" 1 400), 10);
    (CallAttest validator_a 1 true, 11); (CallAttest validator_b 1 true, 12)]) empty_bridge.

(** Two messages of one source transaction; the first validator approves both. *)
Definition conflicting_messages : BridgeState :=
  replay (opening ++ [(CallSubmit payee (incoming "tx1" 1 400), 10); (CallSubmit payee (incoming "tx1" 2 900), 11);
    (CallAttest validator_a 1 true, 12); (CallAttest validator_a 2 true, 12);
    (CallAttest validator_b 2 true, 13)]) empty_bridge.

Ltac reached := apply replay_reaches; repeat constructor; cbn; lia.

Lemma bridge_records_are_consistent_witness :
  bridge_ok approved_message ∧ (bg_total_deposited <$> kBridge approved_message !! "eth"%string) = Some 5000.
Proof.
  split; [|vm_compute; reflexivity].
  apply (bridge_records_are_consistent approved_message); [reached|vm_compute; reflexivity].
Defined.

Lemma execution_needs_quorum_witness :
  let s := approved_message in
  let s' := (execute_verified_withdrawal payee 1 (at_ledger 13) s).2 in
  ∃ m b vs, kMessage s !! 1 = Some m ∧ kBridge s !! ms_bridge_id m = Some b ∧
    NoDup vs ∧ (∀ v, v ∈ vs ↔ kAttestation s !! (1, v) = Some true) ∧
    (∀ v, v ∈ vs → is_Some (kValidator s !! v)) ∧
    sec_min_validator_signatures (load_security_config s) ≤ Z.of_nat (length vs) ∧
    (∀ v, kAttestation s !! (1, v) ≠ Some false) ∧
    ms_invalidated m = false ∧ ms_finality_ledger m ≤ 13 ∧
    ch_emergency_closed (load_channel_state s (ms_channel_id m)) = false ∧
    kBridge s' = <[ms_bridge_id m := b <| bg_total_withdrawn := bg_total_withdrawn b + ms_amount m |>]> (kBridge s) ∧
    kMessage s' = <[1 := m <| ms_executed := true |>]> (kMessage s) ∧
    ∀ caller' env' s'', rtc bridge_step s' s'' → next_id s'' < U64_MAX → authorized env' caller' = true →
      invoke (execute_verified_withdrawal caller' 1) env' s'' = (Err MessageAlreadyExecuted, s'').
Proof.
  intros s s'. apply (execution_needs_quorum payee 1 (at_ledger 13) s s');
    [reached|vm_compute; reflexivity|vm_compute; reflexivity].
Defined.

Lemma slashing_outcome_witness :
  let s := conflicting_messages in
  let s' := (slash_conflicting_messages payee 1 2 (at_ledger 14) s).2 in
  kValidator s' !! validator_b = kValidator s !! validator_b ∧
  ∃ r r', kValidator s !! validator_a = Some r ∧ kValidator s' !! validator_a = Some r' ∧ slashed_from r r'.
Proof.
  intros s s'.
  assert (slash_conflicting_messages payee 1 2 (at_ledger 14) s = (Ok [validator_a], s')) as H by (vm_compute; reflexivity).
  destruct (slashing_outcome payee 1 2 (at_ledger 14) s [validator_a] s') as (_ & _ & _ & Hout & Hin & _);
    [reached|vm_compute; reflexivity|exact H|].
  split; [apply Hout|apply Hin]; rewrite list_elem_of_singleton; [discriminate|reflexivity].
Defined.

(** Invalidated messages can be slashed for again, and stakes fall each time. *)
Example slashing_is_repeatable :
  let stake s := vr_stake <$> kValidator s !! validator_a in
  let s1 := replay [(CallSlash payee 1 2, 14)] conflicting_messages in
  let s2 := replay [(CallSlash payee 1 2, 15)] s1 in
  stake conflicting_messages = Some 1000 ∧ stake s1 = Some 750 ∧ stake s2 = Some 563.
Proof. vm_compute. repeat split; reflexivity. Qed.
