(* ===== verification/Upgrade.v ===== *)
(** * Upgrade: the upgrade manager ([common/src/upgrade.rs])

    The admin proposes a code hash with a version, approvers sign it, an
    approver executes it once enough signatures are there, and the admin can
    roll an executed proposal back.  The manager is a contract of its own and
    also serves the upgrade entry points of the other contracts.  It records
    hashes and versions; it does not replace the code of a contract.  Modelled is
    the manager on a storage of its own: in the AMM contract its admin entry has
    the same key as that of [Amm.initialize_amm_settings], and the two models do
    not share it. *)

From S2P Require Import Prelude Host.

(** ** Data *)

Inductive UpgradeError : Type :=
  | UE_AlreadyInitialized | UE_NotInitialized | UE_NotAuthorized | UE_ProposalNotFound
  | UE_InvalidVersion | UE_InvalidStatus | UE_AlreadyApproved | UE_NotEnoughApprovals
  | UE_InvalidThreshold.

Inductive UpgradeStage : Type := Proposed | Approved | Executed | RolledBack.
#[export] Instance UpgradeStage_eq_dec : EqDecision UpgradeStage.
Proof. solve_decision. Defined.

(** [BytesN<32>] *)
Definition WasmHash : Type := Z.

Record UpgradeProposal : Type := mkUpgradeProposal {
  up_id : Z;
  up_proposer : Address;
  up_new_wasm_hash : WasmHash;
  up_new_version : Z;
  up_approvals : list Address;
  up_stage : UpgradeStage;
  up_prev_wasm_hash : option WasmHash;
  up_prev_version : option Z;
}.
#[export] Instance UpgradeProposal_upd : Updatable UpgradeProposal := λ p,
  mkUpgradeProposal (up_id p) (up_proposer p) (up_new_wasm_hash p) (up_new_version p)
    (up_approvals p) (up_stage p) (up_prev_wasm_hash p) (up_prev_version p).

Record UpgradeStatus : Type := mkUpgradeStatus {
  us_id : Z;
  us_stage : UpgradeStage;
  us_approval_count : Z;
  us_required_approvals : Z;
  us_target_version : Z;
}.

Inductive UpgradeEvent : Type :=
  | UpgradeInitEvent (admin : Address) (required_approvals : Z)
  | UpgradeApproverAddedEvent (caller approver : Address)
  | UpgradeApproverRemovedEvent (caller approver : Address)
  | UpgradeProposedEvent (caller : Address) (id new_version : Z)
  | UpgradeApprovalRecordedEvent (caller : Address) (proposal_id approval_count : Z)
  | UpgradeExecutedEvent (caller : Address) (proposal_id new_version : Z)
  | UpgradeRollbackEvent (caller : Address) (proposal_id prev_version : Z).

(** [UpgradeKey] *)
Record UpgradeState : Type := mkUpgradeState {
  ukAdmin : option Address;
  ukApprovers : option (list Address);
  ukRequiredApprovals : option Z;
  ukNextProposalId : option Z;
  ukCurrentWasmHash : option WasmHash;
  ukCurrentVersion : option Z;
  ukProposal : gmap Z UpgradeProposal;
  up_events : list UpgradeEvent;
}.
#[export] Instance UpgradeState_upd : Updatable UpgradeState := λ s,
  mkUpgradeState (ukAdmin s) (ukApprovers s) (ukRequiredApprovals s) (ukNextProposalId s)
    (ukCurrentWasmHash s) (ukCurrentVersion s) (ukProposal s) (up_events s).

Definition empty_upgrade : UpgradeState := mkUpgradeState None None None None None None ∅ [].

Abbreviation UM := (M UpgradeState UpgradeError) (only parsing).

Definition publish (ev : UpgradeEvent) : UM unit :=
  modify (λ s, s <| up_events := up_events s ++ [ev] |>).

(** ** Reading the storage

    [panic_with_error!] ends the invocation with an error of the contract. *)

Definition assert_initialized : UM unit :=
  admin ← gets ukAdmin;
  reject_if (bool_decide (admin = None)) UE_NotInitialized.

Definition assert_admin (caller : Address) : UM unit :=
  stored ← gets ukAdmin;
  admin ← ok_or stored UE_NotInitialized;
  reject_if (bool_decide (caller ≠ admin)) UE_NotAuthorized.

Definition approvers (s : UpgradeState) : list Address := default [] (ukApprovers s).

Definition assert_approver (caller : Address) : UM unit :=
  approvers ← gets approvers;
  reject_if (bool_decide (caller ∉ approvers)) UE_NotAuthorized.

Definition proposal (proposal_id : Z) : UM UpgradeProposal :=
  stored ← gets (λ s, ukProposal s !! proposal_id);
  ok_or stored UE_ProposalNotFound.

Definition current_wasm_hash : UM WasmHash :=
  assert_initialized ;;
  stored ← gets ukCurrentWasmHash;
  ok_or stored UE_NotInitialized.

Definition current_version : UM Z :=
  assert_initialized ;;
  gets (λ s, default 0 (ukCurrentVersion s)).

Definition required_approvals : UM Z :=
  assert_initialized ;;
  gets (λ s, default 0 (ukRequiredApprovals s)).

Definition is_approver (s : UpgradeState) (addr : Address) : bool :=
  bool_decide (ukAdmin s ≠ None) && bool_decide (addr ∈ approvers s).

(** ** Operations *)

Definition init (admin : Address) (current_wasm_hash : WasmHash) (required_approvals : Z) : UM unit :=
  require_auth admin ;;
  stored ← gets ukAdmin;
  reject_if (bool_decide (stored ≠ None)) UE_AlreadyInitialized ;;
  reject_if (required_approvals =? 0) UE_InvalidThreshold ;;
  modify (λ s, s <| ukAdmin := Some admin |>
                 <| ukApprovers := Some [admin] |>
                 <| ukRequiredApprovals := Some required_approvals |>
                 <| ukNextProposalId := Some 1 |>
                 <| ukCurrentWasmHash := Some current_wasm_hash |>
                 <| ukCurrentVersion := Some 0 |>) ;;
  publish (UpgradeInitEvent admin required_approvals).

Definition add_approver (caller approver : Address) : UM unit :=
  require_auth caller ;;
  assert_initialized ;;
  assert_admin caller ;;
  current ← gets approvers;
  when (bool_decide (approver ∉ current))
    (modify (λ s, s <| ukApprovers := Some (current ++ [approver]) |>)) ;;
  publish (UpgradeApproverAddedEvent caller approver).

Definition remove_approver (caller approver : Address) : UM unit :=
  require_auth caller ;;
  assert_initialized ;;
  assert_admin caller ;;
  stored ← gets ukAdmin;
  admin ← ok_or stored UE_NotInitialized;
  reject_if (bool_decide (approver = admin)) UE_NotAuthorized ;;
  required ← required_approvals;
  current ← gets approvers;
  match list_find (λ a, a = approver) current with
  | Some (i, _) =>
      let remaining := delete i current in
      reject_if (len remaining <? required) UE_InvalidThreshold ;;
      modify (λ s, s <| ukApprovers := Some remaining |>) ;;
      publish (UpgradeApproverRemovedEvent caller approver)
  | None => mret tt
  end.

Definition upgrade_propose (caller : Address) (new_wasm_hash : WasmHash) (new_version : Z) : UM Z :=
  require_auth caller ;;
  assert_initialized ;;
  assert_admin caller ;;
  version ← current_version;
  reject_if (new_version <=? version) UE_InvalidVersion ;;
  let approvals := [caller] in
  required ← required_approvals;
  let stage := if required <=? len approvals then Approved else Proposed in
  id ← gets (λ s, default 1 (ukNextProposalId s));
  modify (λ s, s <| ukProposal := <[id := mkUpgradeProposal id caller new_wasm_hash new_version
                                          approvals stage None None]> (ukProposal s) |>) ;;
  next ← unwrap (u64_checked_add id 1);
  modify (λ s, s <| ukNextProposalId := Some next |>) ;;
  publish (UpgradeProposedEvent caller id new_version) ;;
  mret id.

Definition upgrade_approve (caller : Address) (proposal_id : Z) : UM Z :=
  require_auth caller ;;
  assert_initialized ;;
  assert_approver caller ;;
  p ← proposal proposal_id;
  reject_if (bool_decide (up_stage p ≠ Proposed) && bool_decide (up_stage p ≠ Approved)) UE_InvalidStatus ;;
  reject_if (bool_decide (caller ∈ up_approvals p)) UE_AlreadyApproved ;;
  let approvals := up_approvals p ++ [caller] in
  required ← required_approvals;
  let p := p <| up_approvals := approvals |>
             <| up_stage := if required <=? len approvals then Approved else up_stage p |> in
  modify (λ s, s <| ukProposal := <[proposal_id := p]> (ukProposal s) |>) ;;
  publish (UpgradeApprovalRecordedEvent caller proposal_id (len approvals)) ;;
  mret (len approvals).

Definition upgrade_execute (caller : Address) (proposal_id : Z) : UM unit :=
  require_auth caller ;;
  assert_initialized ;;
  assert_approver caller ;;
  p ← proposal proposal_id;
  reject_if (bool_decide (up_stage p = Executed) || bool_decide (up_stage p = RolledBack)) UE_InvalidStatus ;;
  required ← required_approvals;
  reject_if (len (up_approvals p) <? required) UE_NotEnoughApprovals ;;
  hash ← current_wasm_hash;
  version ← current_version;
  let p := p <| up_prev_wasm_hash := Some hash |> <| up_prev_version := Some version |>
             <| up_stage := Executed |> in
  modify (λ s, s <| ukCurrentWasmHash := Some (up_new_wasm_hash p) |>
                 <| ukCurrentVersion := Some (up_new_version p) |>
                 <| ukProposal := <[proposal_id := p]> (ukProposal s) |>) ;;
  publish (UpgradeExecutedEvent caller proposal_id (up_new_version p)).

Definition upgrade_rollback (caller : Address) (proposal_id : Z) : UM unit :=
  require_auth caller ;;
  assert_initialized ;;
  assert_admin caller ;;
  p ← proposal proposal_id;
  reject_if (bool_decide (up_stage p ≠ Executed)) UE_InvalidStatus ;;
  prev_hash ← ok_or (up_prev_wasm_hash p) UE_InvalidStatus;
  prev_version ← ok_or (up_prev_version p) UE_InvalidStatus;
  modify (λ s, s <| ukCurrentWasmHash := Some prev_hash |>
                 <| ukCurrentVersion := Some prev_version |>
                 <| ukProposal := <[proposal_id := p <| up_stage := RolledBack |>]> (ukProposal s) |>) ;;
  publish (UpgradeRollbackEvent caller proposal_id prev_version).

Definition upgrade_status (proposal_id : Z) : UM UpgradeStatus :=
  assert_initialized ;;
  p ← proposal proposal_id;
  required ← required_approvals;
  mret (mkUpgradeStatus (up_id p) (up_stage p) (len (up_approvals p)) required (up_new_version p)).

(** ** The manager as a transition system *)

Inductive UpgradeCall : Type :=
  | CallUpgradeInit (admin : Address) (hash : WasmHash) (required : Z)
  | CallAddApprover (caller approver : Address)
  | CallRemoveApprover (caller approver : Address)
  | CallPropose (caller : Address) (hash : WasmHash) (version : Z)
  | CallApprove (caller : Address) (proposal_id : Z)
  | CallUpgrade (caller : Address) (proposal_id : Z)
  | CallRollback (caller : Address) (proposal_id : Z).

Definition upgrade_dispatch (c : UpgradeCall) (env : Env) (s : UpgradeState) : UpgradeState :=
  match c with
  | CallUpgradeInit a h r => (invoke (init a h r) env s).2
  | CallAddApprover c a => (invoke (add_approver c a) env s).2
  | CallRemoveApprover c a => (invoke (remove_approver c a) env s).2
  | CallPropose c h v => (invoke (upgrade_propose c h v) env s).2
  | CallApprove c i => (invoke (upgrade_approve c i) env s).2
  | CallUpgrade c i => (invoke (upgrade_execute c i) env s).2
  | CallRollback c i => (invoke (upgrade_rollback c i) env s).2
  end.

(** Thresholds are unsigned. *)
Definition upgrade_call_in_range (c : UpgradeCall) : Prop :=
  match c with CallUpgradeInit _ _ r => 0 ≤ r | _ => True end.

(** The states a sequence of invocations leads through, oldest first. *)
Definition UpgradeTrace : Type := list (UpgradeCall * Env).

Definition run_upgrades (s : UpgradeState) (t : UpgradeTrace) : UpgradeState :=
  foldl (λ s x, upgrade_dispatch x.1 x.2 s) s t.
