(* ===== verification/UpgradeSafety.v ===== *)
(** * UpgradeSafety: what the upgrade manager guarantees

    Over every sequence of invocations: signatures are counted once and are
    those of the signers, the code hash it records changes only with a quorum or
    by the admin's rollback, a rollback restores what was recorded, and approvers
    who want a proposal executed can get it recorded.  The manager does not
    replace the code of a contract, and nothing here speaks of that. *)

From S2P Require Import Prelude Host Upgrade.

(** ** Operations run backwards *)

Definition required (s : UpgradeState) : Z := default 0 (ukRequiredApprovals s).
Definition version (s : UpgradeState) : Z := default 0 (ukCurrentVersion s).
Definition next_proposal (s : UpgradeState) : Z := default 1 (ukNextProposalId s).

(** The state after an operation that published [ev]. *)
Definition noted (s : UpgradeState) (ev : UpgradeEvent) : UpgradeState :=
  s <| up_events := (up_events s ++ [ev]) |>.

Lemma upgrade_publish_Ok ev env s u s' : publish ev env s = (Ok u, s') → s' = noted s ev.
Proof. by intros [= <- <-]. Qed.

Lemma assert_initialized_Ok env s u s' :
  assert_initialized env s = (Ok u, s') → ukAdmin s ≠ None ∧ s' = s.
Proof. unfold assert_initialized. intros H. run_inv H. by zbool. Qed.

Lemma assert_admin_Ok caller env s u s' :
  assert_admin caller env s = (Ok u, s') → ukAdmin s = Some caller ∧ s' = s.
Proof. unfold assert_admin. intros H. run_inv H. zbool. by subst. Qed.

Lemma assert_approver_Ok caller env s u s' :
  assert_approver caller env s = (Ok u, s') → caller ∈ approvers s ∧ s' = s.
Proof.
  unfold assert_approver. intros H. run_inv H. split; [|done].
  match goal with H : bool_decide _ = false |- _ => apply bool_decide_eq_false in H end.
  by destruct (decide (caller ∈ approvers s)).
Qed.

Lemma proposal_Ok id env s p s' : proposal id env s = (Ok p, s') → ukProposal s !! id = Some p ∧ s' = s.
Proof. unfold proposal. intros H. by run_inv H. Qed.

Ltac run_prim H ::=
  lazymatch type of H with
  | publish _ _ _ = _ => apply upgrade_publish_Ok in H as ->
  | assert_initialized _ _ = _ => apply assert_initialized_Ok in H as [? ->]
  | assert_admin _ _ _ = _ => apply assert_admin_Ok in H as [? ->]
  | assert_approver _ _ _ = _ => apply assert_approver_Ok in H as [? ->]
  | proposal _ _ _ = _ => apply proposal_Ok in H as [? ->]
  | current_version _ _ = _ => unfold current_version in H; run_step H
  | current_wasm_hash _ _ = _ => unfold current_wasm_hash in H; run_step H
  | required_approvals _ _ = _ => unfold required_approvals in H; run_step H
  | _ => idtac
  end.

Lemma upgrade_init_Ok a h r env s u s' :
  init a h r env s = (Ok u, s') →
  authorized env a = true ∧ ukAdmin s = None ∧ r ≠ 0 ∧
  s' = noted (s <| ukAdmin := Some a |> <| ukApprovers := Some [a] |> <| ukRequiredApprovals := Some r |>
                <| ukNextProposalId := Some 1 |> <| ukCurrentWasmHash := Some h |>
                <| ukCurrentVersion := Some 0 |>) (UpgradeInitEvent a r).
Proof. unfold init. intros H. run_inv H. by zbool. Qed.

Lemma add_approver_Ok c a env s u s' :
  add_approver c a env s = (Ok u, s') →
  authorized env c = true ∧ ukAdmin s = Some c ∧
  s' = noted (if bool_decide (a ∉ approvers s) then s <| ukApprovers := Some (approvers s ++ [a]) |> else s)
         (UpgradeApproverAddedEvent c a).
Proof.
  unfold add_approver. intros H. run_step H; subst;
    match goal with H : bool_decide _ = _ |- _ => rewrite H end; done.
Qed.

Lemma remove_approver_Ok c a env s u s' :
  remove_approver c a env s = (Ok u, s') →
  authorized env c = true ∧ ukAdmin s = Some c ∧ a ≠ c ∧
  ((a ∉ approvers s ∧ s' = s) ∨
   ∃ l1 l2, approvers s = l1 ++ a :: l2 ∧ required s ≤ len (l1 ++ l2) ∧
     s' = noted (s <| ukApprovers := Some (l1 ++ l2) |>) (UpgradeApproverRemovedEvent c a)).
Proof.
  unfold remove_approver. intros H.
  repeat (apply bind_Ok in H as (? & ? & Hrun & H); run_inv Hrun).
  zbool. replace (ukAdmin s) with (Some c) in * by congruence. simplify_eq.
  destruct (list_find _ _) as [[i b]|] eqn:Hf.
  - run_inv H. zbool. apply list_find_Some in Hf as (Hi & -> & _). split_and!; try done. right.
    rewrite delete_take_drop in *. exists (take i (approvers s)), (drop (S i) (approvers s)).
    split_and!; [by rewrite take_drop_middle|done|done].
  - run_inv H. split_and!; try done. left. split; [|done]. apply list_find_None in Hf.
    rewrite Forall_forall in Hf. intros Ha%Hf. done.
Qed.

Lemma upgrade_propose_Ok c h v env s id s' :
  upgrade_propose c h v env s = (Ok id, s') →
  authorized env c = true ∧ ukAdmin s = Some c ∧ version s < v ∧ id = next_proposal s ∧ id < U64_MAX ∧
  s' = noted (s <| ukProposal := <[id := mkUpgradeProposal id c h v [c]
                     (if required s <=? 1 then Approved else Proposed) None None]> (ukProposal s) |>
                <| ukNextProposalId := Some (id + 1) |>) (UpgradeProposedEvent c id v).
Proof.
  unfold upgrade_propose. intros H. run_inv H. zbool.
  match goal with H : u64_checked_add _ _ = Some _ |- _ => apply fit_Some in H as [Hin ->] end.
  apply in_range_spec in Hin. split_and!; try done. unfold next_proposal. lia.
Qed.

(** A proposal with one more signature. *)
Definition signed_by (p : UpgradeProposal) (r : Z) (c : Address) : UpgradeProposal :=
  p <| up_approvals := (up_approvals p ++ [c]) |>
    <| up_stage := if r <=? len (up_approvals p ++ [c]) then Approved else up_stage p |>.

Definition open (p : UpgradeProposal) : Prop := up_stage p = Proposed ∨ up_stage p = Approved.

Lemma upgrade_approve_Ok c id env s n s' :
  upgrade_approve c id env s = (Ok n, s') →
  ∃ p, authorized env c = true ∧ ukAdmin s ≠ None ∧ c ∈ approvers s ∧ ukProposal s !! id = Some p ∧ open p ∧
    c ∉ up_approvals p ∧ n = len (up_approvals p ++ [c]) ∧
    s' = noted (s <| ukProposal := <[id := signed_by p (required s) c]> (ukProposal s) |>)
           (UpgradeApprovalRecordedEvent c id n).
Proof.
  unfold upgrade_approve. intros H. run_inv H. eexists. split_and!; try done; unfold open.
  - match goal with H : _ && _ = false |- _ => rewrite andb_false_iff, !bool_decide_eq_false in H; revert H end.
    destruct (up_stage _); naive_solver.
  - by match goal with H : bool_decide (c ∈ _) = false |- _ => apply bool_decide_eq_false in H end.
Qed.

(** A proposal at the moment it is executed on top of a code version. *)
Definition executed_on (p : UpgradeProposal) (hash : WasmHash) (v : Z) : UpgradeProposal :=
  p <| up_prev_wasm_hash := Some hash |> <| up_prev_version := Some v |> <| up_stage := Executed |>.

Lemma upgrade_execute_Ok c id env s u s' :
  upgrade_execute c id env s = (Ok u, s') →
  ∃ p h, authorized env c = true ∧ ukAdmin s ≠ None ∧ c ∈ approvers s ∧ ukProposal s !! id = Some p ∧ open p ∧
    required s ≤ len (up_approvals p) ∧ ukCurrentWasmHash s = Some h ∧
    s' = noted (s <| ukCurrentWasmHash := Some (up_new_wasm_hash p) |>
                  <| ukCurrentVersion := Some (up_new_version p) |>
                  <| ukProposal := <[id := executed_on p h (version s)]> (ukProposal s) |>)
           (UpgradeExecutedEvent c id (up_new_version p)).
Proof.
  unfold upgrade_execute. intros H. run_inv H. eexists _, _.
  match goal with H : _ || _ = false |- _ =>
    rewrite orb_false_iff, !bool_decide_eq_false in H; destruct H as [??] end.
  zbool. split_and!; try done. unfold open. destruct (up_stage _); naive_solver.
Qed.

Lemma upgrade_rollback_Ok c id env s u s' :
  upgrade_rollback c id env s = (Ok u, s') →
  ∃ p h v, authorized env c = true ∧ ukAdmin s = Some c ∧ ukProposal s !! id = Some p ∧ up_stage p = Executed ∧
    up_prev_wasm_hash p = Some h ∧ up_prev_version p = Some v ∧
    s' = noted (s <| ukCurrentWasmHash := Some h |> <| ukCurrentVersion := Some v |>
                  <| ukProposal := <[id := p <| up_stage := RolledBack |>]> (ukProposal s) |>)
           (UpgradeRollbackEvent c id v).
Proof.
  unfold upgrade_rollback. intros H. run_inv H. eexists _, _, _.
  zbool. by split_and!.
Qed.

(** ** The invariant *)

(** [v] signed the proposal [p] in one of the invocations. *)
Definition signed (t : UpgradeTrace) (p : UpgradeProposal) (v : Address) : Prop :=
  ∃ env, authorized env v = true ∧
    ((CallApprove v (up_id p), env) ∈ t ∨ (CallPropose v (up_new_wasm_hash p) (up_new_version p), env) ∈ t).

Record proposal_ok (t : UpgradeTrace) (r n id : Z) (p : UpgradeProposal) : Prop := {
  po_id : up_id p = id;
  po_range : 1 ≤ id < n;
  po_nodup : NoDup (up_approvals p);
  po_signed : ∀ v, v ∈ up_approvals p → signed t p v;
  po_stage : up_stage p = Proposed ↔ len (up_approvals p) < r;
  po_prev : up_stage p = Executed ∨ up_stage p = RolledBack →
    is_Some (up_prev_wasm_hash p) ∧ is_Some (up_prev_version p);
}.

(** The version the published executions and rollbacks lead to. *)
Definition version_event (v : Z) (e : UpgradeEvent) : Z :=
  match e with
  | UpgradeExecutedEvent _ _ v' | UpgradeRollbackEvent _ _ v' => v'
  | _ => v
  end.
Definition version_after (evs : list UpgradeEvent) : Z := foldl version_event 0 evs.

Record manager_ok (t : UpgradeTrace) (s : UpgradeState) : Prop := {
  mg_fresh : ukAdmin s = None → s = empty_upgrade;
  mg_admin : ∀ a, ukAdmin s = Some a → a ∈ approvers s;
  mg_nodup : NoDup (approvers s);
  mg_required : ukAdmin s ≠ None → 0 < required s;
  mg_code : ukAdmin s ≠ None → is_Some (ukCurrentWasmHash s);
  mg_proposals : map_Forall (proposal_ok t (required s) (next_proposal s)) (ukProposal s);
  mg_next : 1 ≤ next_proposal s;
  mg_version : version s = version_after (up_events s);
}.

Lemma signed_more t t' p v : t ⊆ t' → signed t p v → signed t' p v.
Proof. intros Ht (env & Ha & H). exists env. split; [done|]. destruct H as [H|H]; auto. Qed.

Lemma proposal_ok_more t t' r n n' id p :
  t ⊆ t' → n ≤ n' → proposal_ok t r n id p → proposal_ok t' r n' id p.
Proof. intros Ht Hn []. split; try done; [lia|eauto using signed_more]. Qed.

Lemma version_noted s ev : version_after (up_events (noted s ev)) = version_event (version_after (up_events s)) ev.
Proof. unfold noted, version_after. cbn. by rewrite foldl_snoc. Qed.

Lemma mg_more t t' s : t ⊆ t' → manager_ok t s → manager_ok t' s.
Proof.
  intros Ht []. split; try done. eapply map_Forall_impl; [done|].
  intros. eapply proposal_ok_more; [exact Ht|reflexivity|done].
Qed.

(** Storing a proposal, with the number of the next one. *)
Lemma manager_put t s s' id p :
  manager_ok t s → proposal_ok t (required s) (next_proposal s') id p →
  ukAdmin s' = ukAdmin s → ukAdmin s ≠ None → ukApprovers s' = ukApprovers s →
  ukRequiredApprovals s' = ukRequiredApprovals s → is_Some (ukCurrentWasmHash s') →
  next_proposal s ≤ next_proposal s' → ukProposal s' = <[id := p]> (ukProposal s) →
  version s' = version_after (up_events s') → manager_ok t s'.
Proof.
  intros [] Hp Ea Hin El Er Hh Hn Eps Hv. unfold approvers, required in *.
  split; unfold approvers, required; rewrite ?Ea, ?El, ?Er, ?Eps; try done; [|lia].
  apply map_Forall_insert_2; [done|]. eapply map_Forall_impl; [done|]. intros. by eapply proposal_ok_more.
Qed.

Lemma signed_by_ok t s id p c n :
  manager_ok t s → ukProposal s !! id = Some p → open p → c ∉ up_approvals p → signed t p c →
  next_proposal s ≤ n → proposal_ok t (required s) n id (signed_by p (required s) c).
Proof.
  intros Hok Hp Ho Hc Hs Hn. pose proof (mg_proposals _ _ Hok id p Hp) as [Hid Hr Hnd Hsg Hst Hprev].
  unfold signed_by. split; cbn [up_id up_approvals up_stage up_prev_wasm_hash up_prev_version]; cbn.
  - done.
  - lia.
  - apply NoDup_app. split_and!; [done| |apply NoDup_singleton]. by intros x Hx ->%list_elem_of_singleton.
  - intros v Hv. apply elem_of_app in Hv as [Hv|Hv%list_elem_of_singleton]; [by apply Hsg|by subst].
  - unfold len in *. rewrite length_app. cbn. destruct (_ <=? _) eqn:E; zbool; [split; [done|lia]|].
    split; [lia|]. intros. apply Hst. lia.
  - destruct (_ <=? _); [by intros [?|?]|]. done.
Qed.

Lemma mg_noted t s ev :
  manager_ok t s → (∀ v, version_event v ev = v) → ukAdmin s ≠ None → manager_ok t (noted s ev).
Proof.
  intros [] Hev Ha. split; try done. rewrite version_noted, Hev. done.
Qed.

Lemma upgrade_keeps t c env s :
  upgrade_call_in_range c → manager_ok t s → manager_ok (t ++ [(c, env)]) (upgrade_dispatch c env s).
Proof.
  intros Hr Hok0. assert (t ⊆ t ++ [(c, env)]) as Ht by set_solver.
  pose proof (mg_more _ _ _ Ht Hok0) as Hok.
  assert ((c, env) ∈ t ++ [(c, env)]) as Hin by set_solver.
  destruct c; cbn; unfold invoke;
    lazymatch goal with |- context [match ?m env s with _ => _ end] => destruct (m env s) as [[r|e|] s'] eqn:Hm end;
    try done; cbn.
  - apply upgrade_init_Ok in Hm as (_ & Hno & Hne & ->). rewrite (mg_fresh _ _ Hok Hno). cbn in Hr.
    split; cbn; try done.
    + intros a [= <-]. by apply list_elem_of_singleton.
    + apply NoDup_singleton.
    + unfold required. cbn. lia.
  - apply add_approver_Ok in Hm as (_ & Ha & ->). case_bool_decide as Hx; [|by apply mg_noted; [..|congruence]].
    apply mg_noted; [|done|cbn; congruence]. destruct Hok. split; unfold approvers in *; cbn in *; try done.
    + congruence.
    + intros b Hb. apply elem_of_app. left. auto.
    + apply NoDup_app. split_and!; [done| |apply NoDup_singleton]. by intros x Hxx ->%list_elem_of_singleton.
  - apply remove_approver_Ok in Hm as (_ & Ha & Hne & [[_ ->]|(l1 & l2 & Hl & Hlen & ->)]); [done|].
    apply mg_noted; [|done|cbn; congruence]. destruct Hok. split; unfold approvers in *; cbn in *; try done.
    + congruence.
    + intros b Hb. assert (b ∈ l1 ++ approver :: l2) as H1 by (rewrite <- Hl; auto).
      assert (b = caller) as -> by congruence.
      rewrite elem_of_app, elem_of_cons in H1. rewrite elem_of_app. naive_solver.
    + rewrite Hl in *. apply NoDup_app in mg_nodup0 as (? & Hd & [_ ?]%NoDup_cons).
      apply NoDup_app. split_and!; [done| |done]. intros x Hx1 Hx2. apply (Hd x Hx1). set_solver.
  - apply upgrade_propose_Ok in Hm as (Hau & Ha & Hv & -> & Hn & ->).
    pose proof (mg_next _ _ Hok). assert (ukAdmin s ≠ None) as Hnn by congruence.
    eapply (manager_put _ s _ (next_proposal s)); [done| |done|done|done|done|by apply (mg_code _ _ Hok)| |done|].
    + split; cbn; [done|unfold next_proposal in *; cbn; lia|apply NoDup_singleton| | |by destruct (_ <=? _); intros []].
      * intros v ->%list_elem_of_singleton. exists env. auto.
      * unfold len. cbn. destruct (_ <=? _) eqn:E; zbool; split; done || lia.
    + unfold next_proposal at 2. cbn. lia.
    + rewrite version_noted. cbn. apply Hok.
  - apply upgrade_approve_Ok in Hm as (p & Hau & Ha & Hap & Hp & Ho & Hc & -> & ->).
    eapply (manager_put _ s _ proposal_id); [done| |done|done|done|done|by apply (mg_code _ _ Hok)|done|done|].
    + apply (signed_by_ok _ s); try done. exists env. split; [done|]. left.
      by rewrite (po_id _ _ _ _ _ (mg_proposals _ _ Hok _ _ Hp)).
    + rewrite version_noted. cbn. apply Hok.
  - apply upgrade_execute_Ok in Hm as (p & h & _ & Ha & _ & Hp & Ho & Hq & Hh & ->).
    pose proof (mg_proposals _ _ Hok _ _ Hp) as [].
    eapply (manager_put _ s _ proposal_id); [done| |done|done|done|done|by eexists|done|done|].
    + split; cbn; try done. split; [done|unfold len in *; lia].
    + by rewrite version_noted.
  - apply upgrade_rollback_Ok in Hm as (p & h & v & _ & Ha & Hp & He & Hh & Hv & ->).
    pose proof (mg_proposals _ _ Hok _ _ Hp) as []. assert (ukAdmin s ≠ None) as Hnn by congruence.
    eapply (manager_put _ s _ proposal_id); [done| |done|done|done|done|by eexists|done|done|].
    + split; cbn; try done. rewrite <- po_stage0, He. split; discriminate.
    + by rewrite version_noted.
Qed.

Lemma run_upgrades_snoc s t x : run_upgrades s (t ++ [x]) = upgrade_dispatch x.1 x.2 (run_upgrades s t).
Proof. unfold run_upgrades. by rewrite foldl_snoc. Qed.

Lemma run_keeps t : Forall (λ x, upgrade_call_in_range x.1) t → manager_ok t (run_upgrades empty_upgrade t).
Proof.
  induction t as [|[c env] t IH] using rev_ind; intros Hr.
  - split; cbn; try done. apply NoDup_nil_2.
  - apply Forall_app in Hr as [Hr [Hc _]%Forall_cons]. rewrite run_upgrades_snoc. by apply upgrade_keeps; [|apply IH].
Qed.

(** Operations that neither execute nor roll back. *)
Definition quiet (c : UpgradeCall) : Prop :=
  match c with CallUpgrade _ _ | CallRollback _ _ => False | _ => True end.

(** The code in force, and a proposal that is no longer open. *)
Definition code_of (s : UpgradeState) := (ukAdmin s, ukCurrentWasmHash s, ukCurrentVersion s).

Record still (id : Z) (p : UpgradeProposal) (s s' : UpgradeState) : Prop := {
  stl_code : code_of s' = code_of s;
  stl_proposal : ukProposal s' !! id = Some p;
}.

Lemma quiet_still c env s id p t :
  quiet c → manager_ok t s → ukAdmin s ≠ None → ukProposal s !! id = Some p → up_stage p = Executed →
  still id p s (upgrade_dispatch c env s).
Proof.
  intros Hq Hok Ha Hp He. pose proof (po_range _ _ _ _ _ (mg_proposals _ _ Hok id p Hp)) as Hr.
  destruct c; try done; cbn; unfold invoke;
    lazymatch goal with |- context [match ?m env s with _ => _ end] => destruct (m env s) as [[r|e|] s'] eqn:Hm end;
    try done; cbn.
  - by apply upgrade_init_Ok in Hm as (_ & Hno & _).
  - apply add_approver_Ok in Hm as (_ & _ & ->). by case_bool_decide.
  - by apply remove_approver_Ok in Hm as (_ & _ & _ & [[_ ->]|(l1 & l2 & _ & _ & ->)]).
  - apply upgrade_propose_Ok in Hm as (_ & _ & _ & -> & _ & ->). split; [done|]. cbn.
    rewrite lookup_insert_ne by lia. done.
  - apply upgrade_approve_Ok in Hm as (q & _ & _ & _ & Hq' & Ho & _ & _ & ->). split; [done|]. cbn.
    rewrite lookup_insert_ne; [done|]. intros ->. rewrite Hp in Hq'. injection Hq' as ->.
    destruct Ho; congruence.
Qed.

Lemma quiet_run_still t2 t s id p :
  Forall (λ x, quiet x.1 ∧ upgrade_call_in_range x.1) t2 → manager_ok t s → ukAdmin s ≠ None →
  ukProposal s !! id = Some p → up_stage p = Executed → still id p s (run_upgrades s t2).
Proof.
  intros Hq. revert t s. induction Hq as [|[c env] t2 [Hc Hcr] _ IH]; intros t s Hok Ha Hp He; [done|].
  pose proof (quiet_still c env s id p t Hc Hok Ha Hp He) as [Hcode Hp'].
  destruct (IH (t ++ [(c, env)]) (upgrade_dispatch c env s)) as [Hcode2 Hp2]; try done.
  - by apply upgrade_keeps.
  - unfold code_of in Hcode. congruence.
  - split; [by rewrite <- Hcode|done].
Qed.

(** ** Approving one after the other *)

(** What signatures change: one proposal, and only its list of them. *)
Record collecting (l : list Address) (id : Z) (s s' : UpgradeState) (p p' : UpgradeProposal) : Prop := {
  cl_fields : (ukAdmin s', ukApprovers s', ukRequiredApprovals s', ukCurrentWasmHash s', ukCurrentVersion s') =
    (ukAdmin s, ukApprovers s, ukRequiredApprovals s, ukCurrentWasmHash s, ukCurrentVersion s);
  cl_found : ukProposal s' !! id = Some p';
  cl_open : open p';
  cl_hash : up_new_wasm_hash p' = up_new_wasm_hash p;
  cl_signed : ∀ v, v ∈ up_approvals p ∨ v ∈ l → v ∈ up_approvals p';
}.

Lemma open_live p : open p → bool_decide (up_stage p ≠ Proposed) && bool_decide (up_stage p ≠ Approved) = false.
Proof. intros [Ho|Ho]; rewrite Ho; reflexivity. Qed.

(** Operations run forwards. *)
Section forward.
Variables (env : Env) (s : UpgradeState) (admin : Address).

Lemma signed_run a : authorized env a = true → (require_auth a : M UpgradeState UpgradeError unit) env s = (Ok tt, s).
Proof. unfold require_auth. by intros ->. Qed.

Hypothesis Hadmin : ukAdmin s = Some admin.

Lemma initialized_now : assert_initialized env s = (Ok tt, s).
Proof. unfold assert_initialized. run_fwd. by rewrite Hadmin. Qed.
Lemma upgrade_admin_run : assert_admin admin env s = (Ok tt, s).
Proof. unfold assert_admin. run_fwd. rewrite Hadmin. run_fwd. by rewrite bool_decide_eq_false_2 by tauto. Qed.
Lemma assert_approver_run a : a ∈ approvers s → assert_approver a env s = (Ok tt, s).
Proof. intros H. unfold assert_approver. run_fwd. by rewrite bool_decide_eq_false_2 by tauto. Qed.
Lemma proposal_run id p : ukProposal s !! id = Some p → proposal id env s = (Ok p, s).
Proof. intros H. unfold proposal. run_fwd. by rewrite H. Qed.
Lemma required_run : required_approvals env s = (Ok (required s), s).
Proof. unfold required_approvals. by rewrite (bind_run _ _ _ _ _ _ initialized_now). Qed.
Lemma version_run : current_version env s = (Ok (version s), s).
Proof. unfold current_version. by rewrite (bind_run _ _ _ _ _ _ initialized_now). Qed.
Lemma hash_run h : ukCurrentWasmHash s = Some h → current_wasm_hash env s = (Ok h, s).
Proof.
  intros H. unfold current_wasm_hash. rewrite (bind_run _ _ _ _ _ _ initialized_now). run_fwd. by rewrite H.
Qed.
End forward.

(** Replaces the next operation by its outcome. *)
Ltac forward H := rewrite (bind_run _ _ _ _ _ _ H); cbv beta.

Lemma approve_one v id env s p :
  authorized env v = true → ukAdmin s ≠ None → v ∈ approvers s → ukProposal s !! id = Some p → open p →
  ∃ p', collecting [v] id s (upgrade_dispatch (CallApprove v id) env s) p p'.
Proof.
  intros Ha Hi Hv Hp Ho. cbn. unfold invoke.
  destruct (ukAdmin s) as [admin|] eqn:Hadmin; [clear Hi|done].
  assert (∃ r s', upgrade_approve v id env s = (r, s') ∧
    if bool_decide (v ∈ up_approvals p) then r = Err UE_AlreadyApproved else ∃ n, r = Ok n) as (r & s' & E & Hr).
  { unfold upgrade_approve. forward (signed_run env s v Ha). forward (initialized_now env s admin Hadmin).
    forward (assert_approver_run env s v Hv). forward (proposal_run env s id p Hp). rewrite open_live by done.
    run_fwd. case_bool_decide; [by eexists _, _|]. run_fwd. rewrite (required_run env s admin Hadmin). run_fwd.
    eexists _, _. split; [done|]. by eexists. }
  rewrite E. case_bool_decide as Hs.
  - subst r. exists p. split; try done. intros w [Hw|Hw%list_elem_of_singleton]; [done|by subst].
  - destruct Hr as [n ->]. apply upgrade_approve_Ok in E as (q & _ & _ & _ & Hq & Hoq & _ & _ & ->).
    rewrite Hp in Hq. injection Hq as <-. exists (signed_by p (required s) v). split; cbn; try done.
    + apply lookup_insert_eq.
    + unfold open, signed_by. cbn. destruct (_ <=? _); [by right|done].
    + intros w Hw. rewrite elem_of_app. naive_solver.
Qed.

Lemma approve_all vs id env s p :
  (∀ v, v ∈ vs → authorized env v = true ∧ v ∈ approvers s) → ukAdmin s ≠ None →
  ukProposal s !! id = Some p → open p →
  ∃ p', collecting vs id s (run_upgrades s ((λ v, (CallApprove v id, env)) <$> vs)) p p'.
Proof.
  revert s p. induction vs as [|v vs IH]; intros s p Hv Hi Hp Ho.
  - exists p. split; try done. intros w [?|?%not_elem_of_nil]; done.
  - change (run_upgrades s _) with
      (run_upgrades (upgrade_dispatch (CallApprove v id) env s) ((λ v, (CallApprove v id, env)) <$> vs)).
    destruct (approve_one v id env s p) as (p1 & Hone); try done; [apply Hv; set_solver..|].
    revert Hone. generalize (upgrade_dispatch (CallApprove v id) env s). intros s1 [Hf1 Hp1 Ho1 Hh1 Hs1].
    injection Hf1 as Ea El Er Eh Ev.
    destruct (IH s1 p1) as (p2 & [Hf2 Hp2 Ho2 Hh2 Hs2]); try done.
    + intros w Hw. unfold approvers. rewrite El. apply Hv. set_solver.
    + congruence.
    + exists p2. split; try done; [congruence..|].
      intros w Hw. apply Hs2. rewrite elem_of_cons in Hw. destruct Hw as [Hw|[->|Hw]]; [| |by right].
      * left. apply Hs1. by left.
      * left. apply Hs1. right. by apply list_elem_of_singleton.
Qed.

(** ** Properties *)

(** After any sequence of invocations the admin is an approver, approvers
    are distinct, the quorum is positive, identifiers are below the next one,
    each proposal's signatures are distinct and were given by their signers, and
    the version is the one the published events lead to. *)
Theorem upgrades_are_accounted t :
  Forall (λ x, upgrade_call_in_range x.1) t → manager_ok t (run_upgrades empty_upgrade t).
Proof. apply run_keeps. Qed.


(** When nothing is executed or rolled back in between, the admin can roll
    an execution back, and gets exactly the code and the version of before it. *)
Theorem rollback_undoes_execution t1 caller id env t2 env' admin :
  Forall (λ x, upgrade_call_in_range x.1) t1 →
  Forall (λ x, quiet x.1 ∧ upgrade_call_in_range x.1) t2 →
  let s := run_upgrades empty_upgrade t1 in
  ukAdmin s = Some admin → authorized env' admin = true →
  (upgrade_execute caller id env s).1 = Ok tt →
  let s2 := run_upgrades (upgrade_dispatch (CallUpgrade caller id) env s) t2 in
  let undone := upgrade_rollback admin id env' s2 in
  undone.1 = Ok tt ∧ ukCurrentWasmHash undone.2 = ukCurrentWasmHash s ∧
  version undone.2 = version s ∧ ukProposal undone.2 !! id ≠ ukProposal s !! id.
Proof.
  intros Hr1 Hq s Ha Hau Hex s2 undone. pose proof (run_keeps t1 Hr1) as Hok. fold s in Hok.
  destruct (upgrade_execute caller id env s) as [r s1] eqn:Hm. cbn in Hex. subst r.
  assert (upgrade_dispatch (CallUpgrade caller id) env s = s1) as Hd by (cbn; unfold invoke; by rewrite Hm).
  pose proof (upgrade_keeps t1 (CallUpgrade caller id) env s I Hok) as Hok1.
  subst undone s2. rewrite Hd in *. clear Hd. clearbody s.
  apply upgrade_execute_Ok in Hm as (p & h & _ & _ & _ & Hp & Ho & _ & Hh & ->).
  pose proof (quiet_run_still t2 _ _ id (executed_on p h (version s)) Hq Hok1) as Hstill.
  destruct Hstill as [Hcode Hp2]; cbn; try done.
  { congruence. }
  { apply lookup_insert_eq. }
  revert Hcode Hp2. match goal with |- context [run_upgrades ?a t2] => generalize (run_upgrades a t2) end. intros s2 Hcode Hp2.
  injection Hcode as Ea2 Eh2 Ev2. rewrite Ha in Ea2.
  assert (∃ s3, upgrade_rollback admin id env' s2 = (Ok tt, s3)) as [s3 E].
  { unfold upgrade_rollback. forward (signed_run env' s2 admin Hau). forward (initialized_now env' s2 admin Ea2).
    forward (upgrade_admin_run env' s2 admin Ea2). forward (proposal_run env' s2 id _ Hp2).
    run_fwd. by eexists. }
  rewrite E. cbn. apply upgrade_rollback_Ok in E as (q & h' & v & _ & _ & Hq' & _ & Hh' & Hv & ->).
  rewrite Hp2 in Hq'. injection Hq' as <-. cbn in Hh', Hv. injection Hh' as <-. injection Hv as <-.
  split_and!; [done|done|done|]. cbn. rewrite lookup_insert_eq, Hp. intros [= E].
  apply (f_equal up_stage) in E. cbn in E. destruct Ho; congruence.
Qed.

(** C25: whenever there are as many approvers as signatures required, a proposal
    that is still open gets executed: once every approver has signed it, the
    admin's invocation records its hash as the current one and the proposal as
    executed. *)
Theorem open_proposals_can_be_executed t id p admin env :
  Forall (λ x, upgrade_call_in_range x.1) t →
  let s := run_upgrades empty_upgrade t in
  ukAdmin s = Some admin → ukProposal s !! id = Some p → open p → required s ≤ len (approvers s) →
  (∀ v, v ∈ approvers s → authorized env v = true) →
  let s' := run_upgrades s (((λ v, (CallApprove v id, env)) <$> approvers s) ++ [(CallUpgrade admin id, env)]) in
  ukCurrentWasmHash s' = Some (up_new_wasm_hash p) ∧
  ∃ p', ukProposal s' !! id = Some p' ∧ up_stage p' = Executed.
Proof.
  intros Hr s Ha Hp Ho Hq Hau s'. pose proof (run_keeps t Hr) as Hok. fold s in Hok. clearbody s.
  assert (ukAdmin s ≠ None) as Hnn by congruence.
  destruct (approve_all (approvers s) id env s p) as (p1 & Hcoll); [auto|done..|].
  subst s'. unfold run_upgrades in *. rewrite foldl_app. cbn [foldl]. cbn [fst snd].
  revert Hcoll. generalize (foldl (λ s x, upgrade_dispatch x.1 x.2 s) s
    ((λ v, (CallApprove v id, env)) <$> approvers s)). intros s1 [Hf Hp1 Ho1 Hh1 Hs1].
  injection Hf as Ea El Er Eh Ev. rewrite Ha in Ea.
  assert (len (approvers s) ≤ len (up_approvals p1)) as Hlen.
  { unfold len. apply inj_le, submseteq_length, NoDup_submseteq; [apply Hok|auto]. }
  assert (required s1 = required s) as Hreq by (unfold required; by rewrite Er).
  destruct (mg_code _ _ Hok Hnn) as [h Hh].
  assert (∃ s2, upgrade_execute admin id env s1 = (Ok tt, s2)) as [s2 E].
  { assert (admin ∈ approvers s) as Hin by (by apply (mg_admin _ _ Hok)).
    unfold upgrade_execute. forward (signed_run env s1 admin (Hau _ Hin)). forward (initialized_now env s1 admin Ea).
    forward (assert_approver_run env s1 admin ltac:(unfold approvers; by rewrite El)).
    forward (proposal_run env s1 id _ Hp1).
    assert (bool_decide (up_stage p1 = Executed) || bool_decide (up_stage p1 = RolledBack) = false) as ->
      by (destruct Ho1 as [E|E]; rewrite E; reflexivity).
    run_fwd. rewrite (required_run env s1 admin Ea), (proj2 (Z.ltb_ge _ _)) by lia. run_fwd.
    rewrite (hash_run env s1 admin Ea h) by congruence. run_fwd.
    rewrite (version_run env s1 admin Ea). run_fwd. by eexists. }
  cbn. unfold invoke. rewrite E. cbn.
  apply upgrade_execute_Ok in E as (p2 & h2 & _ & _ & _ & Hp2 & _ & _ & _ & ->).
  rewrite Hp1 in Hp2. injection Hp2 as <-. cbn. rewrite lookup_insert_eq. split; [congruence|]. by eexists.
Qed.

(** ** Examples *)

Definition chief : Address := 1%positive.
Definition second_signer : Address := 2%positive.
Definition signing : Env := mkEnv 0 0 (λ _, true) (λ _ _, None) (λ _ _ _ _, None).
Definition signed_calls : list UpgradeCall → UpgradeTrace := fmap (λ c, (c, signing)).

Definition two_signers : UpgradeTrace :=
  signed_calls [CallUpgradeInit chief 100 2; CallAddApprover chief second_signer; CallPropose chief 200 7].

Lemma upgrades_are_accounted_witness : manager_ok two_signers (run_upgrades empty_upgrade two_signers).
Proof. apply upgrades_are_accounted. repeat constructor; cbn; lia. Defined.


Lemma rollback_undoes_execution_witness :
  let t := two_signers ++ signed_calls [CallApprove second_signer 1] in
  let s := run_upgrades empty_upgrade t in
  let s2 := run_upgrades (upgrade_dispatch (CallUpgrade chief 1) signing s)
    (signed_calls [CallPropose chief 300 8]) in
  let undone := upgrade_rollback chief 1 signing s2 in
  undone.1 = Ok tt ∧ ukCurrentWasmHash undone.2 = ukCurrentWasmHash s ∧
  version undone.2 = version s ∧ ukProposal undone.2 !! 1 ≠ ukProposal s !! 1.
Proof.
  intros t s s2 undone.
  apply (rollback_undoes_execution t chief 1 signing (signed_calls [CallPropose chief 300 8]) signing chief).
  - repeat constructor; cbn; lia.
  - repeat constructor.
  - vm_compute. reflexivity.
  - reflexivity.
  - vm_compute. reflexivity.
Defined.

Lemma open_proposals_can_be_executed_witness :
  let s := run_upgrades empty_upgrade two_signers in
  let s' := run_upgrades s (((λ v, (CallApprove v 1, signing)) <$> approvers s) ++ [(CallUpgrade chief 1, signing)]) in
  ukCurrentWasmHash s' = Some 200 ∧ ∃ p', ukProposal s' !! 1 = Some p' ∧ up_stage p' = Executed.
Proof.
  intros s s'.
  apply (open_proposals_can_be_executed two_signers 1
    (mkUpgradeProposal 1 chief 200 7 [chief] Proposed None None) chief signing).
  - repeat constructor; cbn; lia.
  - vm_compute. reflexivity.
  - vm_compute. reflexivity.
  - left. reflexivity.
  - vm_compute. discriminate.
  - reflexivity.
Defined.

(** The version is compared when a proposal is made, and not when it is executed:
    of two proposals the older one can be executed last. *)
Example executions_can_lower_the_version :
  let s := run_upgrades empty_upgrade (signed_calls
    [CallUpgradeInit chief 100 1; CallPropose chief 200 1; CallPropose chief 300 2;
     CallUpgrade chief 2; CallUpgrade chief 1]) in
  version s = 1 ∧ ukCurrentWasmHash s = Some 200.
Proof. vm_compute. split; reflexivity. Qed.
