(* ===== verification/Stablecoin.v ===== *)
(** * Stablecoin: the collateral-backed stablecoin contract ([stablecoin/src/lib.rs])

    Users deposit a collateral token, mint a stablecoin against it and redeem
    it.  The two tokens are other contracts: their operations are parameters on
    a world of their own, and the class [Tokens] states the part of the token
    interface (SEP-41) that solvency rests on. *)

From S2P Require Import Prelude Host.

(** ** Data *)

Definition BPS : Z := 10000.

Inductive StablecoinError : Type :=
  | SE_Unauthorized | SE_AlreadyInitialized | SE_NotInitialized | SE_InvalidAmount
  | SE_InvalidParameter | SE_Overflow | SE_Shutdown | SE_InsufficientCollateral.

Record FractionalReserveConfig : Type := mkFractionalReserveConfig { reserve_ratio_bps_of : Z }.

Inductive StablecoinEvent : Type :=
  | StablecoinInitialized (admin stablecoin_token collateral_token : Address) (ratio : Z)
  | ShutdownSet (caller : Address) (shutdown : bool)
  | ReserveRatioSet (caller : Address) (ratio : Z)
  | CollateralDeposited (user : Address) (amount : Z)
  | StablecoinMinted (user : Address) (collateral_amount mint_amount : Z)
  | StablecoinRedeemed (user : Address) (burn_amount collateral_out : Z).

(** [DataKey] *)
Record StableState : Type := mkStableState {
  skAdmin : option Address;
  skStablecoinToken : option Address;
  skCollateralToken : option Address;
  skReserveRatioBps : option Z;
  skShutdown : option bool;
  skTotalCollateral : option Z;
  skUserCollateral : gmap Address Z;
  skUserMinted : gmap Address Z;
  sc_events : list StablecoinEvent;
}.
#[export] Instance StableState_upd : Updatable StableState := λ s,
  mkStableState (skAdmin s) (skStablecoinToken s) (skCollateralToken s) (skReserveRatioBps s) (skShutdown s)
    (skTotalCollateral s) (skUserCollateral s) (skUserMinted s) (sc_events s).

Definition empty_stable : StableState := mkStableState None None None None None None ∅ ∅ [].

Abbreviation SM := (M StableState StablecoinError) (only parsing).

Definition announce (ev : StablecoinEvent) : SM unit :=
  modify (λ s, s <| sc_events := (sc_events s ++ [ev]) |>).

(** ** Storage *)

Definition require_init : SM unit :=
  admin ← gets skAdmin;
  reject_if (bool_decide (admin = None)) SE_NotInitialized.

Definition require_admin (caller : Address) : SM unit :=
  require_init ;;
  stored ← gets skAdmin;
  admin ← unwrap stored;
  reject_if (bool_decide (admin ≠ caller)) SE_Unauthorized.

Definition is_shutdown (s : StableState) : bool := default false (skShutdown s).

Definition stablecoin_token : SM Address :=
  require_init ;; stored ← gets skStablecoinToken; ok_or stored SE_NotInitialized.

Definition collateral_token : SM Address :=
  require_init ;; stored ← gets skCollateralToken; ok_or stored SE_NotInitialized.

Definition reserve_ratio_bps : SM Z :=
  require_init ;; gets (λ s, default BPS (skReserveRatioBps s)).

Definition total_collateral (s : StableState) : Z := default 0 (skTotalCollateral s).

Definition add_total_collateral (amount : Z) : SM unit :=
  current ← gets total_collateral;
  next ← ok_or (checked_add current amount) SE_Overflow;
  modify (λ s, s <| skTotalCollateral := Some next |>).

Definition sub_total_collateral (amount : Z) : SM unit :=
  current ← gets total_collateral;
  reject_if (current <? amount) SE_InsufficientCollateral ;;
  next ← unwrap (checked_sub current amount);
  modify (λ s, s <| skTotalCollateral := Some next |>).

Definition get_user_collateral (s : StableState) (user : Address) : Z := default 0 (skUserCollateral s !! user).
Definition set_user_collateral (user : Address) (amount : Z) : SM unit :=
  modify (λ s, s <| skUserCollateral := <[user := amount]> (skUserCollateral s) |>).
Definition get_user_minted (s : StableState) (user : Address) : Z := default 0 (skUserMinted s !! user).
Definition set_user_minted (user : Address) (amount : Z) : SM unit :=
  modify (λ s, s <| skUserMinted := <[user := amount]> (skUserMinted s) |>).

(** ** Administration *)

Definition initialize (admin stablecoin_token collateral_token : Address) (config : FractionalReserveConfig) :
    SM unit :=
  stored ← gets skAdmin;
  reject_if (bool_decide (stored ≠ None)) SE_AlreadyInitialized ;;
  require_auth admin ;;
  let ratio := reserve_ratio_bps_of config in
  reject_if (negb (in_range 0 BPS ratio)) SE_InvalidParameter ;;
  modify (λ s, s <| skAdmin := Some admin |>
                 <| skStablecoinToken := Some stablecoin_token |>
                 <| skCollateralToken := Some collateral_token |>
                 <| skReserveRatioBps := Some ratio |>
                 <| skShutdown := Some false |>
                 <| skTotalCollateral := Some 0 |>) ;;
  announce (StablecoinInitialized admin stablecoin_token collateral_token ratio).

Definition set_shutdown (caller : Address) (shutdown : bool) : SM unit :=
  require_auth caller ;;
  require_admin caller ;;
  modify (λ s, s <| skShutdown := Some shutdown |>) ;;
  announce (ShutdownSet caller shutdown).

Definition set_reserve_ratio (caller : Address) (ratio : Z) : SM unit :=
  require_auth caller ;;
  require_admin caller ;;
  reject_if (negb (in_range 0 BPS ratio)) SE_InvalidParameter ;;
  modify (λ s, s <| skReserveRatioBps := Some ratio |>) ;;
  announce (ReserveRatioSet caller ratio).

(** ** Deposit, mint, redeem *)

Section operations.
Context {W : Type} (this : Address)
        (token_transfer : Address → Address → Address → Z → W → option (unit * W))
        (token_mint : Address → Address → Z → W → option (unit * W))
        (token_burn : Address → Address → Z → W → option (unit * W)).

Definition deposit_collateral (user : Address) (amount : Z) : M (StableState * W) StablecoinError unit :=
  local require_init ;;
  require_auth user ;;
  down ← local (gets is_shutdown);
  reject_if down SE_Shutdown ;;
  reject_if (amount <=? 0) SE_InvalidAmount ;;
  collateral ← local collateral_token;
  call (token_transfer collateral user this amount) ;;
  local (add_total_collateral amount) ;;
  held ← local (gets (λ s, get_user_collateral s user));
  new ← unwrap (checked_add held amount);
  local (set_user_collateral user new) ;;
  local (announce (CollateralDeposited user amount)).

Definition mint_from_collateral (user : Address) (collateral_amount : Z) :
    M (StableState * W) StablecoinError Z :=
  local require_init ;;
  require_auth user ;;
  down ← local (gets is_shutdown);
  reject_if down SE_Shutdown ;;
  reject_if (collateral_amount <=? 0) SE_InvalidAmount ;;
  user_collateral ← local (gets (λ s, get_user_collateral s user));
  reject_if (user_collateral <? collateral_amount) SE_InsufficientCollateral ;;
  rr ← local reserve_ratio_bps;
  scaled ← ok_or (checked_mul collateral_amount rr) SE_Overflow;
  mint_amount ← unwrap (checked_div scaled BPS);
  reject_if (mint_amount <=? 0) SE_InvalidAmount ;;
  user_minted ← local (gets (λ s, get_user_minted s user));
  max_mintable ← unwrap (checked_div (default 0 (checked_mul user_collateral rr)) BPS);
  total ← unwrap (checked_add user_minted mint_amount);
  reject_if (max_mintable <? total) SE_InvalidAmount ;;
  stable ← local stablecoin_token;
  call (token_mint stable user mint_amount) ;;
  local (announce (StablecoinMinted user collateral_amount mint_amount)) ;;
  mret mint_amount.

Definition burn_and_redeem (user : Address) (burn_amount : Z) : M (StableState * W) StablecoinError Z :=
  local require_init ;;
  require_auth user ;;
  down ← local (gets is_shutdown);
  reject_if down SE_Shutdown ;;
  reject_if (burn_amount <=? 0) SE_InvalidAmount ;;
  user_minted ← local (gets (λ s, get_user_minted s user));
  reject_if (user_minted <? burn_amount) SE_InvalidAmount ;;
  rr ← local reserve_ratio_bps;
  scaled ← ok_or (checked_mul burn_amount BPS) SE_Overflow;
  collateral_out ← unwrap (checked_div scaled rr);
  user_collateral ← local (gets (λ s, get_user_collateral s user));
  reject_if (user_collateral <? collateral_out) SE_InsufficientCollateral ;;
  local (sub_total_collateral collateral_out) ;;
  left ← unwrap (checked_sub user_collateral collateral_out);
  local (set_user_collateral user left) ;;
  owed ← unwrap (checked_sub user_minted burn_amount);
  local (set_user_minted user owed) ;;
  stable ← local stablecoin_token;
  call (token_burn stable user burn_amount) ;;
  collateral ← local collateral_token;
  call (token_transfer collateral this user collateral_out) ;;
  local (announce (StablecoinRedeemed user burn_amount collateral_out)) ;;
  mret collateral_out.

(** ** The contract among others *)

Inductive StableCall : Type :=
  | CallStableInit (admin stable collateral : Address) (config : FractionalReserveConfig)
  | CallSetShutdown (caller : Address) (shutdown : bool)
  | CallSetRatio (caller : Address) (ratio : Z)
  | CallDepositCollateral (user : Address) (amount : Z)
  | CallMint (user : Address) (collateral_amount : Z)
  | CallRedeem (user : Address) (burn_amount : Z).

Definition stable_dispatch (c : StableCall) (env : Env) (x : StableState * W) : StableState * W :=
  match c with
  | CallStableInit a s t cfg => (invoke (local (initialize a s t cfg)) env x).2
  | CallSetShutdown c b => (invoke (local (set_shutdown c b)) env x).2
  | CallSetRatio c r => (invoke (local (set_reserve_ratio c r)) env x).2
  | CallDepositCollateral u a => (invoke (deposit_collateral u a) env x).2
  | CallMint u a => (invoke (mint_from_collateral u a) env x).2
  | CallRedeem u a => (invoke (burn_and_redeem u a) env x).2
  end.
End operations.

(** What the code relies on: a transfer moves a balance, minting and burning
    change the balance of one account of one token. *)
Class Tokens {W : Type} (balance : Address → Address → W → Z)
    (token_transfer : Address → Address → Address → Z → W → option (unit * W))
    (token_mint : Address → Address → Z → W → option (unit * W))
    (token_burn : Address → Address → Z → W → option (unit * W)) : Prop := {
  balance_nonneg t a w : 0 ≤ balance t a w;
  transfer_moves t src dst x w w' : token_transfer t src dst x w = Some (tt, w') → src ≠ dst →
    balance t dst w' = balance t dst w + x ∧ balance t src w' = balance t src w - x;
  transfer_local t src dst x w w' t' a : token_transfer t src dst x w = Some (tt, w') →
    t' ≠ t ∨ (a ≠ src ∧ a ≠ dst) → balance t' a w' = balance t' a w;
  mint_local t dst x w w' t' a : token_mint t dst x w = Some (tt, w') →
    t' ≠ t ∨ a ≠ dst → balance t' a w' = balance t' a w;
  burn_local t src x w w' t' a : token_burn t src x w = Some (tt, w') →
    t' ≠ t ∨ a ≠ src → balance t' a w' = balance t' a w;
}.
