(* ===== verification/StablecoinSafety.v ===== *)
(** * StablecoinSafety: solvency of the stablecoin contract

    The collateral recorded is the sum of what users hold and is covered by the
    contract's token balance, whatever the other contracts do with their own
    tokens.  What has been minted is not recorded, so that a mint can be
    repeated and no redemption succeeds. *)

From S2P Require Import Prelude Host Stablecoin.

(** ** Operations run backwards *)

Lemma require_init_Ok env s u s' : require_init env s = (Ok u, s') → skAdmin s ≠ None ∧ s' = s.
Proof. unfold require_init. intros H. run_inv H. by zbool. Qed.

Lemma stable_admin_Ok c env s u s' : require_admin c env s = (Ok u, s') → skAdmin s = Some c ∧ s' = s.
Proof.
  unfold require_admin. intros H. apply bind_Ok in H as (u1 & s1 & [_ ->]%require_init_Ok & H).
  run_inv H. zbool. by subst.
Qed.

Lemma announce_Ok ev env s u s' : announce ev env s = (Ok u, s') → s' = s <| sc_events := (sc_events s ++ [ev]) |>.
Proof. by intros [= <- <-]. Qed.

Lemma stablecoin_token_Ok env s t s' :
  stablecoin_token env s = (Ok t, s') → skStablecoinToken s = Some t ∧ s' = s.
Proof.
  unfold stablecoin_token. intros H. apply bind_Ok in H as (u1 & s1 & [_ ->]%require_init_Ok & H). by run_inv H.
Qed.

Lemma collateral_token_Ok env s t s' :
  collateral_token env s = (Ok t, s') → skCollateralToken s = Some t ∧ s' = s.
Proof.
  unfold collateral_token. intros H. apply bind_Ok in H as (u1 & s1 & [_ ->]%require_init_Ok & H). by run_inv H.
Qed.

Lemma reserve_ratio_Ok env s r s' :
  reserve_ratio_bps env s = (Ok r, s') → r = default BPS (skReserveRatioBps s) ∧ s' = s.
Proof.
  unfold reserve_ratio_bps. intros H. apply bind_Ok in H as (u1 & s1 & [_ ->]%require_init_Ok & H). by run_inv H.
Qed.

Lemma add_total_Ok x env s u s' :
  add_total_collateral x env s = (Ok u, s') →
  s' = s <| skTotalCollateral := Some (total_collateral s + x) |>.
Proof. unfold add_total_collateral. intros H. run_inv H. checked_facts. by subst. Qed.

Lemma set_collateral_Ok a x env s u s' :
  set_user_collateral a x env s = (Ok u, s') → s' = s <| skUserCollateral := <[a := x]> (skUserCollateral s) |>.
Proof. by intros [= <- <-]. Qed.

Ltac run_prim H ::=
  lazymatch type of H with
  | require_init _ _ = _ => apply require_init_Ok in H as [? ->]
  | require_admin _ _ _ = _ => apply stable_admin_Ok in H as [? ->]
  | announce _ _ _ = _ => apply announce_Ok in H as ->
  | stablecoin_token _ _ = _ => apply stablecoin_token_Ok in H as [? ->]
  | collateral_token _ _ = _ => apply collateral_token_Ok in H as [? ->]
  | reserve_ratio_bps _ _ = _ => apply reserve_ratio_Ok in H as [? ->]
  | add_total_collateral _ _ _ = _ => apply add_total_Ok in H as ->
  | set_user_collateral _ _ _ _ = _ => apply set_collateral_Ok in H as ->
  | _ => idtac
  end.

Lemma stable_init_Ok a st ct cfg env s u s' :
  initialize a st ct cfg env s = (Ok u, s') →
  skAdmin s = None ∧ 0 ≤ reserve_ratio_bps_of cfg ≤ BPS ∧
  ∃ evs, s' = s <| skAdmin := Some a |> <| skStablecoinToken := Some st |> <| skCollateralToken := Some ct |>
                <| skReserveRatioBps := Some (reserve_ratio_bps_of cfg) |> <| skShutdown := Some false |>
                <| skTotalCollateral := Some 0 |> <| sc_events := evs |>.
Proof.
  unfold initialize. intros H. run_inv H. zbool.
  match goal with H : in_range _ _ _ = true |- _ => apply in_range_spec in H as [? ?] end. split_and!; [done..|].
  by eexists.
Qed.

Lemma set_shutdown_Ok c b env s u s' :
  set_shutdown c b env s = (Ok u, s') →
  skAdmin s = Some c ∧ ∃ evs, s' = s <| skShutdown := Some b |> <| sc_events := evs |>.
Proof. unfold set_shutdown. intros H. run_inv H. split; [done|]. by eexists. Qed.

Lemma set_ratio_Ok c r env s u s' :
  set_reserve_ratio c r env s = (Ok u, s') →
  skAdmin s = Some c ∧ 0 ≤ r ≤ BPS ∧ ∃ evs, s' = s <| skReserveRatioBps := Some r |> <| sc_events := evs |>.
Proof.
  unfold set_reserve_ratio. intros H. run_inv H. zbool.
  match goal with H : in_range _ _ _ = true |- _ => apply in_range_spec in H as [? ?] end.
  split_and!; [done..|]. by eexists.
Qed.

Ltac units := repeat match goal with v : unit |- _ => destruct v end.

Section operations.
Context {W : Type} (this : Address) (balance : Address → Address → W → Z)
        (token_transfer : Address → Address → Address → Z → W → option (unit * W))
        (token_mint : Address → Address → Z → W → option (unit * W))
        (token_burn : Address → Address → Z → W → option (unit * W))
        `{!Tokens balance token_transfer token_mint token_burn}.

Abbreviation deposit := (deposit_collateral this token_transfer) (only parsing).
Abbreviation mint := (mint_from_collateral token_mint) (only parsing).
Abbreviation redeem := (burn_and_redeem this token_transfer token_burn) (only parsing).
Abbreviation dispatch := (stable_dispatch this token_transfer token_mint token_burn) (only parsing).

Lemma stable_deposit_Ok user x env s w u s' w' :
  deposit user x env (s, w) = (Ok u, (s', w')) →
  ∃ t evs, skAdmin s ≠ None ∧ authorized env user = true ∧ is_shutdown s = false ∧ 0 < x ∧
    skCollateralToken s = Some t ∧ token_transfer t user this x w = Some (tt, w') ∧
    s' = s <| skTotalCollateral := Some (total_collateral s + x) |>
           <| skUserCollateral := <[user := get_user_collateral s user + x]> (skUserCollateral s) |>
           <| sc_events := evs |>.
Proof.
  unfold deposit_collateral. intros H. world_inv H. zbool. checked_facts. subst.
  units. eexists _, _. by split_and!.
Qed.

Lemma stable_mint_Ok user x env s w m s' w' :
  mint user x env (s, w) = (Ok m, (s', w')) →
  let r := default BPS (skReserveRatioBps s) in
  ∃ t evs, authorized env user = true ∧ is_shutdown s = false ∧
    0 < x ≤ get_user_collateral s user ∧ m = Z.quot (x * r) BPS ∧ 0 < m ∧
    get_user_minted s user + m ≤ Z.quot (default 0 (checked_mul (get_user_collateral s user) r)) BPS ∧
    skStablecoinToken s = Some t ∧ token_mint t user m w = Some (tt, w') ∧ s' = s <| sc_events := evs |>.
Proof.
  unfold mint_from_collateral. intros H. world_inv H. zbool. checked_facts. subst. units.
  eexists _, _. by split_and!.
Qed.

Lemma redeem_needs_minted user x env s w r s' w' :
  redeem user x env (s, w) = (Ok r, (s', w')) → 0 < x ≤ get_user_minted s user.
Proof.
  unfold burn_and_redeem. intros H.
  do 7 (apply bind_Ok in H as (? & [? ?] & Hrun & H); world_inv Hrun). zbool. subst. by split.
Qed.

(** ** The invariant *)

Record stable_ok (s : StableState) (w : W) : Prop := {
  sb_fresh : skAdmin s = None → s = empty_stable;
  sb_total : total_collateral s = map_sum id (skUserCollateral s);
  sb_nonneg : map_Forall (λ _ x, 0 ≤ x) (skUserCollateral s);
  sb_ratio : 0 ≤ default BPS (skReserveRatioBps s) ≤ BPS;
  sb_minted : skUserMinted s = ∅;
  sb_covered : ∀ t, skCollateralToken s = Some t → total_collateral s ≤ balance t this w;
}.

(** A step: an invocation that the contract itself has not signed, or other
    contracts moving tokens that are not the contract's. *)
Inductive stable_step : StableState * W → StableState * W → Prop :=
  | stable_invoked c env x : authorized env this = false → stable_step x (dispatch c env x)
  | stable_elsewhere s w w' :
      (∀ t, balance t this w ≤ balance t this w') → stable_step (s, w) (s, w').

Lemma stable_ok_fields s s' w w' :
  stable_ok s w → skAdmin s ≠ None → skAdmin s' ≠ None → skTotalCollateral s' = skTotalCollateral s →
  skUserCollateral s' = skUserCollateral s → 0 ≤ default BPS (skReserveRatioBps s') ≤ BPS →
  skUserMinted s' = skUserMinted s → skCollateralToken s' = skCollateralToken s →
  (∀ t, skCollateralToken s = Some t → balance t this w ≤ balance t this w') → stable_ok s' w'.
Proof.
  intros [] Ha Ha' Et Eu Hr Em Ec Hb.
  assert (total_collateral s' = total_collateral s) as Et' by (unfold total_collateral; by rewrite Et).
  split; rewrite ?Eu, ?Em, ?Ec, ?Et'; try done. intros t Ht. etrans; [by apply sb_covered0|by apply Hb].
Qed.

Lemma stable_step_ok x x' : stable_step x x' → stable_ok x.1 x.2 → stable_ok x'.1 x'.2.
Proof.
  intros [c env [s w] Hself|s w w' Hb] Hok; cbn [fst snd] in Hok |- *.
  2: { destruct Hok. split; try done. intros t Ht. etrans; [by apply sb_covered0|done]. }
  destruct c; cbn; unfold invoke;
    lazymatch goal with |- context [match ?m env (s, w) with _ => _ end] =>
      destruct (m env (s, w)) as [[r|e|] [s' w']] eqn:Hm end; try done; cbn.
  - apply local_Ok in Hm as [Hm ->]. apply stable_init_Ok in Hm as (Hno & Hr & evs & ->).
    rewrite (sb_fresh _ _ Hok Hno). split; cbn; try done. intros t _. apply balance_nonneg.
  - apply local_Ok in Hm as [Hm ->]. apply set_shutdown_Ok in Hm as (Ha & evs & ->).
    eapply stable_ok_fields; [exact Hok|cbn; congruence..|done|done|apply Hok|done|done|done].
  - apply local_Ok in Hm as [Hm ->]. apply set_ratio_Ok in Hm as (Ha & Hr & evs & ->).
    eapply stable_ok_fields; [exact Hok|cbn; congruence..|done|done|done|done|done|done].
  - apply stable_deposit_Ok in Hm as (t & evs & Ha & Hau & _ & Hx & Ht & Hw & ->).
    assert (user ≠ this) as Hne by (intros ->; congruence).
    destruct (transfer_moves _ _ _ _ _ _ Hw Hne) as [Hto _]. destruct Hok. split; cbn; try done.
    + rewrite map_sum_insert. unfold total_collateral in sb_total0 |- *. cbn. rewrite sb_total0.
      unfold at_key, get_user_collateral. destruct (skUserCollateral s !! user); cbn; unfold id; lia.
    + apply map_Forall_insert_2; [|done]. unfold get_user_collateral.
      destruct (skUserCollateral s !! user) eqn:E; cbn; [|lia]. pose proof (sb_nonneg0 _ _ E). cbn in *. lia.
    + intros t' Ht'. replace t' with t by congruence. rewrite Hto.
      change (total_collateral s + amount ≤ balance t this w + amount). specialize (sb_covered0 t Ht). lia.
  - apply stable_mint_Ok in Hm as (t & evs & Hau & _ & _ & _ & _ & _ & Ht & Hw & ->).
    assert (user ≠ this) as Hne by (intros ->; congruence).
    assert (skAdmin s ≠ None) as Ha by (intros Hno; by rewrite (sb_fresh _ _ Hok Hno) in Ht).
    eapply stable_ok_fields; [exact Hok|done..|apply Hok|done|done|].
    intros t' _. erewrite <- mint_local; [done|exact Hw|by right].
  - apply redeem_needs_minted in Hm. unfold get_user_minted in Hm. rewrite (sb_minted _ _ Hok) in Hm.
    rewrite lookup_empty in Hm. cbn in Hm. lia.
Qed.

Lemma stable_reachable_ok w0 x : rtc stable_step (empty_stable, w0) x → stable_ok x.1 x.2.
Proof.
  intros Hs. assert (stable_ok (empty_stable, w0).1 (empty_stable, w0).2) as Hok by (by split).
  revert Hok. induction Hs as [x|x y z Hstep _ IH]; [done|]. intros Hok. by apply IH, (stable_step_ok x).
Qed.

(** ** Properties *)

(** C27: after any sequence of invocations, token transfers of others included,
    the recorded total is the sum of the users' collateral, no user's collateral
    is negative or above the total, and the contract's balance of the collateral
    token covers the total. *)
Theorem collateral_is_covered w0 s w :
  rtc stable_step (empty_stable, w0) (s, w) →
  total_collateral s = map_sum id (skUserCollateral s) ∧ 0 ≤ total_collateral s ∧
  (∀ user, 0 ≤ get_user_collateral s user ≤ total_collateral s) ∧
  ∀ t, skCollateralToken s = Some t → total_collateral s ≤ balance t this w.
Proof.
  intros Hs. destruct (stable_reachable_ok _ _ Hs) as []; cbn in *.
  assert (0 ≤ total_collateral s) as H0 by (rewrite sb_total0; by apply map_sum_nonneg).
  split_and!; [done|done| |done]. intros user. unfold get_user_collateral.
  destruct (skUserCollateral s !! user) as [x|] eqn:E; cbn; [|lia]. split; [exact (sb_nonneg0 _ _ E)|].
  rewrite sb_total0. pose proof (map_sum_at_key_le id (skUserCollateral s) user sb_nonneg0) as H.
  unfold at_key in H. by rewrite E in H.
Qed.

(** Every redemption of a positive amount fails, in every reachable state:
    minting does not record the minted amount that redemptions are checked
    against. *)
Theorem redemptions_are_rejected w0 s w user x env :
  rtc stable_step (empty_stable, w0) (s, w) →
  skAdmin s ≠ None → authorized env user = true → is_shutdown s = false → 0 < x →
  redeem user x env (s, w) = (Err SE_InvalidAmount, (s, w)).
Proof.
  intros Hs Ha Hau Hd Hx. destruct (stable_reachable_ok _ _ Hs) as [_ _ _ _ Hm _]. cbn in Hm.
  unfold burn_and_redeem. assert (local require_init env (s, w) = (Ok tt, (s, w))) as E.
  { unfold local, require_init. run_fwd. by rewrite bool_decide_eq_false_2. }
  rewrite (bind_run _ _ _ _ _ _ E). run_fwd. unfold require_auth. rewrite Hau. run_fwd.
  unfold local. cbn. rewrite Hd. run_fwd. rewrite (proj2 (Z.leb_gt _ _)) by done. cbn.
  run_fwd. unfold get_user_minted. rewrite Hm, lookup_empty. cbn. by rewrite (proj2 (Z.ltb_lt _ _)).
Qed.

Theorem mint_outcome w0 s w user x env m s' w' :
  rtc stable_step (empty_stable, w0) (s, w) →
  mint user x env (s, w) = (Ok m, (s', w')) →
  let r := default BPS (skReserveRatioBps s) in
  authorized env user = true ∧ is_shutdown s = false ∧ 0 < x ≤ get_user_collateral s user ∧
  m = x * r / BPS ∧ 0 < m ≤ get_user_collateral s user ∧
  (∃ t, skStablecoinToken s = Some t ∧ token_mint t user m w = Some (tt, w')) ∧
  skUserCollateral s' = skUserCollateral s ∧ skUserMinted s' = skUserMinted s ∧
  total_collateral s' = total_collateral s.
Proof.
  intros Hs H r. destruct (stable_reachable_ok _ _ Hs) as [_ _ _ Hr _ _]. cbn in Hr.
  apply stable_mint_Ok in H as (t & evs & Hau & Hd & Hx & Hm & Hpos & Hmax & Ht & Hw & ->).
  fold r in Hm, Hmax, Hr. rewrite quot_pos in Hm by (unfold BPS in *; nia).
  split_and!; try done; try lia; [|by eexists].
  subst m. unfold BPS in *. apply Z.div_le_upper_bound; [lia|]. nia.
Qed.
End operations.

(** ** Examples

    A token world with balances and nothing else. *)

Abbreviation Balances := (gmap (Address * Address) Z) (only parsing).
Definition holding (t a : Address) (w : Balances) : Z := Z.max 0 (default 0 (w !! (t, a))).
Definition pay (t src dst : Address) (x : Z) (w : Balances) : option (unit * Balances) :=
  if bool_decide (0 ≤ x ≤ holding t src w) then
    let w := <[(t, src) := holding t src w - x]> w in
    Some (tt, <[(t, dst) := holding t dst w + x]> w)
  else None.
Definition issue (t dst : Address) (x : Z) (w : Balances) : option (unit * Balances) :=
  if bool_decide (0 ≤ x) then Some (tt, <[(t, dst) := holding t dst w + x]> w) else None.
Definition destroy (t src : Address) (x : Z) (w : Balances) : option (unit * Balances) :=
  if bool_decide (0 ≤ x ≤ holding t src w) then Some (tt, <[(t, src) := holding t src w - x]> w) else None.

Lemma holding_insert t a x w t' a' :
  0 ≤ x → holding t' a' (<[(t, a) := x]> w) = if bool_decide (t' = t ∧ a' = a) then x else holding t' a' w.
Proof.
  intros Hx. unfold holding. case_bool_decide as E.
  - destruct E as [-> ->]. rewrite lookup_insert_eq. cbn. lia.
  - rewrite lookup_insert_ne; [done|]. naive_solver.
Qed.

Lemma holding_nonneg t a w : 0 ≤ holding t a w.
Proof. unfold holding. lia. Qed.

Lemma pay_spec t src dst x w w' t' a :
  pay t src dst x w = Some (tt, w') → src ≠ dst →
  holding t' a w' = holding t' a w + (if bool_decide (t' = t ∧ a = dst) then x else 0)
    - (if bool_decide (t' = t ∧ a = src) then x else 0).
Proof.
  unfold pay. intros H Hne. case_bool_decide as Hx; [|done]. injection H as <-.
  pose proof (holding_nonneg t dst (<[(t, src) := holding t src w - x]> w)).
  rewrite !holding_insert by lia. rewrite (bool_decide_eq_false_2 (t = t ∧ dst = src)) by naive_solver.
  repeat case_bool_decide; destruct_and?; subst; try lia; naive_solver.
Qed.

#[export] Instance balances_are_tokens : Tokens holding pay issue destroy.
Proof.
  split.
  - intros. apply holding_nonneg.
  - intros t src dst x w w' H Hne. rewrite !(pay_spec _ _ _ _ _ _ _ _ H Hne).
    repeat case_bool_decide; destruct_and?; subst; try lia; naive_solver.
  - intros t src dst x w w' t' a H Hne. destruct (decide (src = dst)) as [->|Hsd].
    + unfold pay in H. case_bool_decide as Hx; [|done]. injection H as <-.
      pose proof (holding_nonneg t dst (<[(t, dst) := holding t dst w - x]> w)).
      rewrite !holding_insert by lia. by rewrite !bool_decide_eq_false_2 by naive_solver.
    + rewrite (pay_spec _ _ _ _ _ _ _ _ H Hsd), !bool_decide_eq_false_2 by naive_solver. lia.
  - unfold issue. intros t dst x w w' t' a H Hne. case_bool_decide as Hx; [|done]. injection H as <-.
    rewrite holding_insert by (unfold holding; lia). by rewrite bool_decide_eq_false_2 by naive_solver.
  - unfold destroy. intros t src x w w' t' a H Hne. case_bool_decide as Hx; [|done]. injection H as <-.
    rewrite holding_insert by lia. by rewrite bool_decide_eq_false_2 by naive_solver.
Qed.

(** A contract (3) whose users hold a collateral token (11). *)
Definition keeper : Address := 1%positive.
Definition saver : Address := 2%positive.
Definition bank : Address := 3%positive.
Definition coin : Address := 10%positive.
Definition gold : Address := 11%positive.
Definition bank_env : Env := mkEnv 0 0 (λ a, negb (bool_decide (a = bank))) (λ _ _, None) (λ _ _ _ _, None).
Definition gold_rush : Balances := {[ (gold, saver) := 1000 ]}.

Definition after_calls (cs : list StableCall) (w : Balances) : StableState * Balances :=
  foldl (λ x c, stable_dispatch bank pay issue destroy c bank_env x) (empty_stable, w) cs.

Definition funded : list StableCall :=
  [CallStableInit keeper coin gold (mkFractionalReserveConfig 2000); CallDepositCollateral saver 600].

Lemma after_calls_reach cs w :
  rtc (stable_step bank holding pay issue destroy) (empty_stable, w) (after_calls cs w).
Proof.
  induction cs as [|c cs IH] using rev_ind; [apply rtc_refl|]. unfold after_calls. rewrite foldl_snoc.
  eapply rtc_r; [exact IH|]. by apply stable_invoked.
Qed.

Lemma collateral_is_covered_witness :
  let x := after_calls funded gold_rush in
  total_collateral x.1 = map_sum id (skUserCollateral x.1) ∧ total_collateral x.1 = 600 ∧
  ∀ t, skCollateralToken x.1 = Some t → total_collateral x.1 ≤ holding t bank x.2.
Proof.
  intros x. destruct (collateral_is_covered bank holding pay issue destroy gold_rush x.1 x.2) as (H & _ & _ & Hc).
  - rewrite <- surjective_pairing. apply after_calls_reach.
  - split; [exact H|]. split; [vm_compute; reflexivity|exact Hc].
Defined.

Lemma redemptions_are_rejected_witness :
  let x := after_calls (funded ++ [CallMint saver 500]) gold_rush in
  holding coin saver x.2 = 100 ∧
  burn_and_redeem bank pay destroy saver 50 bank_env (x.1, x.2) = (Err SE_InvalidAmount, (x.1, x.2)).
Proof.
  intros x. split; [vm_compute; reflexivity|].
  apply (redemptions_are_rejected bank holding pay issue destroy gold_rush).
  - rewrite <- surjective_pairing. apply after_calls_reach.
  - vm_compute. discriminate.
  - vm_compute. reflexivity.
  - vm_compute. reflexivity.
  - lia.
Defined.

Lemma mint_outcome_witness :
  let x := after_calls funded gold_rush in
  ∃ t, skStablecoinToken x.1 = Some t ∧
    issue t saver 100 x.2 = Some (tt, (mint_from_collateral issue saver 500 bank_env (x.1, x.2)).2.2).
Proof.
  intros x. set (y := (mint_from_collateral issue saver 500 bank_env (x.1, x.2)).2).
  destruct (mint_outcome bank holding pay issue destroy gold_rush x.1 x.2 saver 500 bank_env 100 y.1 y.2)
    as (_ & _ & _ & _ & _ & Hm & _).
  - rewrite <- surjective_pairing. apply after_calls_reach.
  - vm_compute. reflexivity.
  - exact Hm.
Defined.

(** What is minted is not recorded: 360 coins against a limit of 120. *)
Example mints_are_not_counted :
  let x := after_calls (funded ++ [CallMint saver 600; CallMint saver 600; CallMint saver 600]) gold_rush in
  holding coin saver x.2 = 360 ∧ get_user_collateral x.1 saver = 600.
Proof. vm_compute. split; reflexivity. Qed.
