(* ===== verification/Wallet.v ===== *)
(** * Wallet: the institutional multisignature wallet
    ([institutional-wallet/src/lib.rs], [types.rs], [storage.rs])

    Admins propose batches of calls of other contracts, approve them, and
    execute them when a threshold of approvals is reached; guardians can
    replace the admins after a delay.  The contracts that are called are
    parameters on a world of their own. *)

From S2P Require Import Prelude Host.

(** ** Data *)

Inductive WalletError : Type :=
  | WE_NotInitialized | WE_AlreadyInitialized | WE_Unauthorized | WE_InvalidThreshold | WE_InvalidAdmins
  | WE_ProposalNotFound | WE_AlreadyVoted | WE_ProposalNotActive | WE_InsufficientApprovals
  | WE_ExecutionFailed | WE_InvalidBatch.

Record RecoveryRequest : Type := mkRecoveryRequest {
  rq_new_admins : list Address;
  rq_new_threshold : Z;
  rq_initiated_at : Z;
}.

Record MultisigConfig : Type := mkMultisigConfig { mc_threshold : Z }.

(** A call of another contract; values of the host are opaque. *)
Record Transaction (Val : Type) : Type := mkTransaction {
  tx_contract : Address;
  tx_function : string;
  tx_args : list Val;
}.
Arguments mkTransaction {Val}.
Arguments tx_contract {Val}.
Arguments tx_function {Val}.
Arguments tx_args {Val}.

Inductive ProposalStatus : Type := Active | Executed | Cancelled.
#[export] Instance ProposalStatus_eq_dec : EqDecision ProposalStatus.
Proof. solve_decision. Defined.

Record Proposal (Val : Type) : Type := mkProposal {
  pr_id : Z;
  pr_proposer : Address;
  pr_description : string;
  pr_batch : list (Transaction Val);
  pr_status : ProposalStatus;
  pr_created_at : Z;
}.
Arguments mkProposal {Val}.
Arguments pr_id {Val}.
Arguments pr_proposer {Val}.
Arguments pr_description {Val}.
Arguments pr_batch {Val}.
Arguments pr_status {Val}.
Arguments pr_created_at {Val}.
#[export] Instance Proposal_upd {Val} : Updatable (Proposal Val) := λ p,
  mkProposal (pr_id p) (pr_proposer p) (pr_description p) (pr_batch p) (pr_status p) (pr_created_at p).

Record AuditEntry : Type := mkAuditEntry {
  ae_actor : Address;
  ae_action : string;
  ae_timestamp : Z;
}.

(** [DataKey] *)
Record WalletState (Val : Type) : Type := mkWalletState {
  wkConfig : option MultisigConfig;
  wkAdmins : option (list Address);
  wkNextProposalId : option Z;
  wkProposal : gmap Z (Proposal Val);
  wkApprovals : gmap Z (list Address);
  wkAuditTrail : gmap Z (list AuditEntry);
  wkGuardians : option (list Address);
  wkGuardianThreshold : option Z;
  wkRecoveryRequest : option RecoveryRequest;
}.
Arguments mkWalletState {Val}.
Arguments wkConfig {Val}.
Arguments wkAdmins {Val}.
Arguments wkNextProposalId {Val}.
Arguments wkProposal {Val}.
Arguments wkApprovals {Val}.
Arguments wkAuditTrail {Val}.
Arguments wkGuardians {Val}.
Arguments wkGuardianThreshold {Val}.
Arguments wkRecoveryRequest {Val}.
#[export] Instance WalletState_upd {Val} : Updatable (WalletState Val) := λ s,
  mkWalletState (wkConfig s) (wkAdmins s) (wkNextProposalId s) (wkProposal s) (wkApprovals s) (wkAuditTrail s)
    (wkGuardians s) (wkGuardianThreshold s) (wkRecoveryRequest s).

Definition empty_wallet {Val} : WalletState Val := mkWalletState None None None ∅ ∅ ∅ None None None.

Definition RECOVERY_DELAY : Z := 86400.

Section wallet.
Context {Val W : Type} (this : Address)
        (invoke_contract : Transaction Val → W → option (unit * W)).

Abbreviation WM := (M (WalletState Val) WalletError) (only parsing).

(** ** Storage *)

Definition get_config : WM MultisigConfig :=
  stored ← gets wkConfig; ok_or stored WE_NotInitialized.
Definition get_admins (s : WalletState Val) : list Address := default [] (wkAdmins s).
Definition get_next_proposal_id (s : WalletState Val) : Z := default 0 (wkNextProposalId s).
Definition increment_proposal_id : WM Z :=
  id ← gets get_next_proposal_id;
  next ← unwrap (u64_checked_add id 1);
  modify (λ s, s <| wkNextProposalId := Some next |>) ;;
  mret id.
Definition get_proposal (s : WalletState Val) (id : Z) : option (Proposal Val) := wkProposal s !! id.
Definition set_proposal (id : Z) (p : Proposal Val) : WM unit :=
  modify (λ s, s <| wkProposal := <[id := p]> (wkProposal s) |>).
Definition get_approvals (s : WalletState Val) (id : Z) : list Address := default [] (wkApprovals s !! id).
Definition set_approvals (id : Z) (approvals : list Address) : WM unit :=
  modify (λ s, s <| wkApprovals := <[id := approvals]> (wkApprovals s) |>).
Definition get_audit_trail (s : WalletState Val) (id : Z) : list AuditEntry := default [] (wkAuditTrail s !! id).
Definition add_audit_entry (id : Z) (entry : AuditEntry) : WM unit :=
  modify (λ s, s <| wkAuditTrail := <[id := get_audit_trail s id ++ [entry]]> (wkAuditTrail s) |>).
Definition get_guardians (s : WalletState Val) : list Address := default [] (wkGuardians s).
Definition get_guardian_threshold (s : WalletState Val) : Z := default 0 (wkGuardianThreshold s).

(** [x.is_empty() || threshold == 0 || threshold > x.len()] *)
Definition bad_threshold (members : list Address) (threshold : Z) : bool :=
  bool_decide (members = []) || (threshold =? 0) || (len members <? threshold).

(** ** Operations *)

Definition initialize (admins : list Address) (threshold : Z) : WM unit :=
  stored ← gets wkConfig;
  reject_if (bool_decide (stored ≠ None)) WE_AlreadyInitialized ;;
  reject_if (bool_decide (admins = [])) WE_InvalidAdmins ;;
  reject_if ((threshold =? 0) || (len admins <? threshold)) WE_InvalidThreshold ;;
  modify (λ s, s <| wkConfig := Some (mkMultisigConfig threshold) |> <| wkAdmins := Some admins |>).

Definition require_wallet_admin (caller : Address) : WM unit :=
  admins ← gets get_admins;
  reject_if (bool_decide (caller ∉ admins)) WE_Unauthorized.

Definition propose (proposer : Address) (description : string) (batch : list (Transaction Val)) : WM Z :=
  require_auth proposer ;;
  require_wallet_admin proposer ;;
  reject_if (bool_decide (length batch = 0%nat)) WE_InvalidBatch ;;
  id ← increment_proposal_id;
  now ← ask timestamp;
  set_proposal id (mkProposal id proposer description batch Active now) ;;
  set_approvals id [proposer] ;;
  add_audit_entry id (mkAuditEntry proposer "propose" now) ;;
  mret id.

Definition approve (approver : Address) (proposal_id : Z) : WM unit :=
  require_auth approver ;;
  require_wallet_admin approver ;;
  stored ← gets (λ s, get_proposal s proposal_id);
  p ← ok_or stored WE_ProposalNotFound;
  reject_if (bool_decide (pr_status p ≠ Active)) WE_ProposalNotActive ;;
  approvals ← gets (λ s, get_approvals s proposal_id);
  reject_if (bool_decide (approver ∈ approvals)) WE_AlreadyVoted ;;
  set_approvals proposal_id (approvals ++ [approver]) ;;
  now ← ask timestamp;
  add_audit_entry proposal_id (mkAuditEntry approver "approve" now).

(** The host refuses calls back into a contract that is running. *)
Definition invoke_other (tx : Transaction Val) (w : W) : option (unit * W) :=
  if bool_decide (tx_contract tx = this) then None else invoke_contract tx w.

Definition execute (executor : Address) (proposal_id : Z) : M (WalletState Val * W) WalletError unit :=
  require_auth executor ;;
  local (require_wallet_admin executor) ;;
  stored ← local (gets (λ s, get_proposal s proposal_id));
  p ← ok_or stored WE_ProposalNotFound;
  reject_if (bool_decide (pr_status p ≠ Active)) WE_ProposalNotActive ;;
  config ← local get_config;
  approvals ← local (gets (λ s, get_approvals s proposal_id));
  reject_if (len approvals <? mc_threshold config) WE_InsufficientApprovals ;;
  for_each (pr_batch p) (λ tx, call (invoke_other tx)) ;;
  local (set_proposal proposal_id (p <| pr_status := Executed |>)) ;;
  now ← ask timestamp;
  local (add_audit_entry proposal_id (mkAuditEntry executor "execute" now)).

Definition add_admin (new_admin : Address) : WM unit :=
  require_auth this ;;
  admins ← gets get_admins;
  reject_if (bool_decide (new_admin ∈ admins)) WE_InvalidAdmins ;;
  modify (λ s, s <| wkAdmins := Some (admins ++ [new_admin]) |>).

Definition remove_admin (admin : Address) : WM unit :=
  require_auth this ;;
  admins ← gets get_admins;
  let new_admins := filter (λ a, a ≠ admin) admins in
  reject_if (bool_decide (admin ∉ admins)) WE_InvalidAdmins ;;
  config ← get_config;
  reject_if (len new_admins <? mc_threshold config) WE_InvalidThreshold ;;
  modify (λ s, s <| wkAdmins := Some new_admins |>).

Definition set_threshold (threshold : Z) : WM unit :=
  require_auth this ;;
  admins ← gets get_admins;
  reject_if ((threshold =? 0) || (len admins <? threshold)) WE_InvalidThreshold ;;
  _ ← get_config;
  modify (λ s, s <| wkConfig := Some (mkMultisigConfig threshold) |>).

Definition set_guardians (guardians : list Address) (threshold : Z) : WM unit :=
  require_auth this ;;
  reject_if (bad_threshold guardians threshold) WE_InvalidThreshold ;;
  modify (λ s, s <| wkGuardians := Some guardians |> <| wkGuardianThreshold := Some threshold |>).

Definition start_recovery (guardian : Address) (new_admins : list Address) (new_threshold : Z) : WM unit :=
  require_auth guardian ;;
  guardians ← gets get_guardians;
  reject_if (bool_decide (guardian ∉ guardians)) WE_Unauthorized ;;
  reject_if (bad_threshold new_admins new_threshold) WE_InvalidThreshold ;;
  now ← ask timestamp;
  modify (λ s, s <| wkRecoveryRequest := Some (mkRecoveryRequest new_admins new_threshold now) |>).

Definition execute_recovery (guardian : Address) : WM unit :=
  require_auth guardian ;;
  guardians ← gets get_guardians;
  reject_if (bool_decide (guardian ∉ guardians)) WE_Unauthorized ;;
  stored ← gets wkRecoveryRequest;
  request ← ok_or stored WE_ProposalNotFound;
  now ← ask timestamp;
  ready ← unwrap (u64_checked_add (rq_initiated_at request) RECOVERY_DELAY);
  reject_if (now <? ready) WE_ExecutionFailed ;;
  modify (λ s, s <| wkAdmins := Some (rq_new_admins request) |>
                 <| wkConfig := Some (mkMultisigConfig (rq_new_threshold request)) |>
                 <| wkRecoveryRequest := None |>).

(** ** The wallet among others *)

Inductive WalletCall : Type :=
  | CallWalletInit (admins : list Address) (threshold : Z)
  | CallWalletPropose (proposer : Address) (description : string) (batch : list (Transaction Val))
  | CallWalletApprove (approver : Address) (proposal_id : Z)
  | CallWalletExecute (executor : Address) (proposal_id : Z)
  | CallAddAdmin (new_admin : Address)
  | CallRemoveAdmin (admin : Address)
  | CallSetThreshold (threshold : Z)
  | CallSetGuardians (guardians : list Address) (threshold : Z)
  | CallStartRecovery (guardian : Address) (new_admins : list Address) (new_threshold : Z)
  | CallExecuteRecovery (guardian : Address).

Definition wallet_dispatch (c : WalletCall) (env : Env) (x : WalletState Val * W) : WalletState Val * W :=
  match c with
  | CallWalletInit a t => (invoke (local (initialize a t)) env x).2
  | CallWalletPropose p d b => (invoke (local (propose p d b)) env x).2
  | CallWalletApprove a i => (invoke (local (approve a i)) env x).2
  | CallWalletExecute e i => (invoke (execute e i) env x).2
  | CallAddAdmin a => (invoke (local (add_admin a)) env x).2
  | CallRemoveAdmin a => (invoke (local (remove_admin a)) env x).2
  | CallSetThreshold t => (invoke (local (set_threshold t)) env x).2
  | CallSetGuardians g t => (invoke (local (set_guardians g t)) env x).2
  | CallStartRecovery g a t => (invoke (local (start_recovery g a t)) env x).2
  | CallExecuteRecovery g => (invoke (local (execute_recovery g)) env x).2
  end.
End wallet.
