(* ===== verification/WalletSafety.v ===== *)
(** * WalletSafety: what the institutional wallet guarantees

    Over every sequence of invocations, whatever the other contracts do: the
    audit trail of a proposal names exactly its approvers, an executed batch had
    the threshold of distinct approvals, ran as it was proposed, and runs once.
    The operations reserved to the wallet itself can never be reached. *)

From S2P Require Import Prelude Host Wallet.

Section wallet.
Context {Val W : Type} (this : Address)
        (invoke_contract : Transaction Val → W → option (unit * W)).

Abbreviation State := (WalletState Val) (only parsing).
Abbreviation dispatch := (wallet_dispatch this invoke_contract) (only parsing).
Abbreviation exec := (execute this invoke_contract) (only parsing).

Implicit Types (s : WalletState Val) (w : W) (x : WalletState Val * W) (p : Proposal Val).

(** ** Operations run backwards *)

Lemma get_config_Ok env s c s' : get_config env s = (Ok c, s') → wkConfig s = Some c ∧ s' = s.
Proof. unfold get_config. intros H. by run_inv H. Qed.

Lemma wallet_admin_Ok c env s u s' :
  require_wallet_admin c env s = (Ok u, s') → c ∈ get_admins s ∧ s' = s.
Proof.
  unfold require_wallet_admin. intros H. run_inv H. zbool. split; [|done].
  by destruct (decide (c ∈ get_admins s)).
Qed.

Lemma increment_id_Ok env s id s' :
  increment_proposal_id env s = (Ok id, s') →
  id = get_next_proposal_id s ∧ s' = s <| wkNextProposalId := Some (id + 1) |>.
Proof.
  unfold increment_proposal_id. intros H. run_inv H.
  match goal with H : u64_checked_add _ _ = Some _ |- _ => apply fit_Some in H as [_ ->] end. done.
Qed.

Lemma set_proposal_Ok id p env s u s' :
  set_proposal id p env s = (Ok u, s') → s' = s <| wkProposal := <[id := p]> (wkProposal s) |>.
Proof. by intros [= <- <-]. Qed.

Lemma set_approvals_Ok id l env s u s' :
  set_approvals id l env s = (Ok u, s') → s' = s <| wkApprovals := <[id := l]> (wkApprovals s) |>.
Proof. by intros [= <- <-]. Qed.

Lemma add_audit_Ok id e env s u s' :
  add_audit_entry id e env s = (Ok u, s') →
  s' = s <| wkAuditTrail := <[id := get_audit_trail s id ++ [e]]> (wkAuditTrail s) |>.
Proof. by intros [= <- <-]. Qed.

Ltac run_prim H ::=
  lazymatch type of H with
  | get_config _ _ = _ => apply get_config_Ok in H as [? ->]
  | require_wallet_admin _ _ _ = _ => apply wallet_admin_Ok in H as [? ->]
  | increment_proposal_id _ _ = _ => apply increment_id_Ok in H as [-> ->]
  | set_proposal _ _ _ _ = _ => apply set_proposal_Ok in H as ->
  | set_approvals _ _ _ _ = _ => apply set_approvals_Ok in H as ->
  | add_audit_entry _ _ _ _ = _ => apply add_audit_Ok in H as ->
  | _ => idtac
  end.

Lemma wallet_init_Ok a t env s u s' :
  initialize a t env s = (Ok u, s') →
  a ≠ [] ∧ t ≠ 0 ∧ t ≤ len a ∧ wkConfig s = None ∧
  s' = s <| wkConfig := Some (mkMultisigConfig t) |> <| wkAdmins := Some a |>.
Proof. unfold initialize. intros H. run_inv H. zbool. by split_and!. Qed.

Lemma propose_Ok a d b env s id s' :
  propose a d b env s = (Ok id, s') →
  id = get_next_proposal_id s ∧ authorized env a = true ∧ a ∈ get_admins s ∧ b ≠ [] ∧
  s' = s <| wkNextProposalId := Some (id + 1) |>
         <| wkProposal := <[id := mkProposal id a d b Active (timestamp env)]> (wkProposal s) |>
         <| wkApprovals := <[id := [a]]> (wkApprovals s) |>
         <| wkAuditTrail := <[id := get_audit_trail s id ++ [mkAuditEntry a "propose" (timestamp env)]]>
              (wkAuditTrail s) |>.
Proof.
  unfold propose. intros H. run_inv H. zbool. split_and!; try done. by intros ->.
Qed.

Lemma approve_Ok a id env s u s' :
  approve a id env s = (Ok u, s') →
  ∃ p, authorized env a = true ∧ a ∈ get_admins s ∧ wkProposal s !! id = Some p ∧ pr_status p = Active ∧
    a ∉ get_approvals s id ∧
    s' = s <| wkApprovals := <[id := get_approvals s id ++ [a]]> (wkApprovals s) |>
           <| wkAuditTrail := <[id := get_audit_trail s id ++ [mkAuditEntry a "approve" (timestamp env)]]>
                (wkAuditTrail s) |>.
Proof. unfold approve. intros H. run_inv H. zbool. eexists. by split_and!. Qed.

(** The effect of a batch on the other contracts, call by call. *)
Fixpoint run_batch (txs : list (Transaction Val)) (w : W) : option W :=
  match txs with
  | [] => Some w
  | tx :: txs => r ← invoke_other this invoke_contract tx w; run_batch txs r.2
  end.

Lemma batch_calls txs env s w r x :
  for_each txs (λ tx, call (invoke_other this invoke_contract tx)) env (s, w) = (Ok r : res WalletError unit, x) →
  x.1 = s ∧ run_batch txs w = Some x.2.
Proof.
  revert w. induction txs as [|tx txs IH]; intros w H; cbn [for_each run_batch] in *.
  - apply ret_Ok in H as [_ ->]. done.
  - apply bind_Ok in H as (u & [s1 w1] & [Hc ->]%call_Ok & H). rewrite Hc. by apply IH.
Qed.

Lemma execute_batch_Ok a id env s w u s' w' :
  exec a id env (s, w) = (Ok u, (s', w')) →
  ∃ p c, authorized env a = true ∧ a ∈ get_admins s ∧ wkProposal s !! id = Some p ∧ pr_status p = Active ∧
    wkConfig s = Some c ∧ mc_threshold c ≤ len (get_approvals s id) ∧ run_batch (pr_batch p) w = Some w' ∧
    s' = s <| wkProposal := <[id := p <| pr_status := Executed |>]> (wkProposal s) |>
           <| wkAuditTrail := <[id := get_audit_trail s id ++ [mkAuditEntry a "execute" (timestamp env)]]>
                (wkAuditTrail s) |>.
Proof.
  unfold execute. intros H. world_inv H. zbool.
  match goal with H : for_each _ _ _ _ = _ |- _ => apply batch_calls in H as [? ?]; cbn in *; subst end.
  eexists _, _. by split_and!.
Qed.

(** ** The invariant *)

Definition entries_of (t : list AuditEntry) : list (Address * string) := (λ e, (ae_actor e, ae_action e)) <$> t.

(** The trail a proposal with these approvals must have. *)
Definition expected_trail (p : Proposal Val) (approvals : list Address) (tail : list (Address * string)) :
    list (Address * string) :=
  (pr_proposer p, "propose"%string) :: ((λ a, (a, "approve"%string)) <$> drop 1 approvals) ++ tail.

Record record_ok (s : WalletState Val) (id : Z) (p : Proposal Val) : Prop := {
  rc_id : pr_id p = id;
  rc_range : 0 ≤ id < get_next_proposal_id s;
  rc_batch : pr_batch p ≠ [];
  rc_nodup : NoDup (get_approvals s id);
  rc_first : hd_error (get_approvals s id) = Some (pr_proposer p);
  rc_trail : ∃ tail, entries_of (get_audit_trail s id) = expected_trail p (get_approvals s id) tail ∧
    (pr_status p = Active ∧ tail = [] ∨ pr_status p = Executed ∧ ∃ e, tail = [(e, "execute"%string)]);
}.

Record wallet_ok (s : WalletState Val) : Prop := {
  wo_threshold : ∀ c, wkConfig s = Some c → mc_threshold c ≤ len (get_admins s);
  wo_records : map_Forall (record_ok s) (wkProposal s);
  wo_fresh : ∀ id, get_next_proposal_id s ≤ id → wkAuditTrail s !! id = None;
  wo_next : 0 ≤ get_next_proposal_id s;
  wo_request : ∀ r, wkRecoveryRequest s = Some r → rq_new_threshold r ≤ len (rq_new_admins r);
}.

(** The proposals, apart from the settings. *)
Definition board (s : WalletState Val) := (wkNextProposalId s, wkProposal s, wkApprovals s, wkAuditTrail s).

Lemma wallet_ok_board s s' :
  wallet_ok s → board s' = board s →
  (∀ c, wkConfig s' = Some c → mc_threshold c ≤ len (get_admins s')) →
  (∀ r, wkRecoveryRequest s' = Some r → rq_new_threshold r ≤ len (rq_new_admins r)) → wallet_ok s'.
Proof.
  intros [_ Hr Hf Hn _] Hb Hc Hq. unfold board in Hb. injection Hb as En Ep Ea Et.
  split; unfold get_next_proposal_id in *; rewrite ?En, ?Ep, ?Et; try done.
  intros id p Hp. destruct (Hr id p Hp).
  split; unfold get_approvals, get_audit_trail, get_next_proposal_id in *; by rewrite ?En, ?Ea, ?Et.
Qed.

Lemma bad_threshold_false l t : bad_threshold l t = false → l ≠ [] ∧ t ≠ 0 ∧ t ≤ len l.
Proof. unfold bad_threshold. intros H. zbool. by split_and!. Qed.

(** Operations on settings. *)
Lemma settings_keep s env u s' (m : M (WalletState Val) WalletError unit) :
  m env s = (Ok u, s') → wallet_ok s →
  (∃ a, m = add_admin this a) ∨ (∃ a, m = remove_admin this a) ∨ (∃ t, m = set_threshold this t) ∨
  (∃ g t, m = set_guardians this g t) ∨ (∃ g a t, m = start_recovery g a t) ∨ (∃ g, m = execute_recovery g) ∨
  (∃ a t, m = initialize a t) →
  wallet_ok s'.
Proof.
  intros Hm Hok Hcase.
  destruct Hcase as [[a ->]|[[a ->]|[[t ->]|[(g & t & ->)|[(g & a & t & ->)|[[g ->]|(a & t & ->)]]]]]];
    [unfold add_admin in Hm|unfold remove_admin in Hm|unfold set_threshold in Hm|unfold set_guardians in Hm
    |unfold start_recovery in Hm|unfold execute_recovery in Hm|unfold initialize in Hm];
    run_inv Hm; zbool; (eapply wallet_ok_board; [exact Hok|done|cbn|cbn]); try apply Hok.
  - intros c Hc%(wo_threshold _ Hok). unfold get_admins, len in *. cbn. rewrite length_app. lia.
  - intros c Hc. unfold get_admins in *. cbn in *. by simplify_eq.
  - intros c [= <-]. done.
  - intros r [= <-]. cbn. by apply bad_threshold_false.
  - intros c [= <-]. by apply (wo_request _ Hok).
  - done.
  - intros c [= <-]. done.
Qed.

Lemma record_ok_other s s' id p :
  record_ok s id p → get_next_proposal_id s ≤ get_next_proposal_id s' →
  wkApprovals s' !! id = wkApprovals s !! id → wkAuditTrail s' !! id = wkAuditTrail s !! id →
  record_ok s' id p.
Proof.
  intros [] Hn Ea Et. split; unfold get_approvals, get_audit_trail in *; rewrite ?Ea, ?Et; try done. lia.
Qed.

Lemma expected_snoc p l a tail :
  l ≠ [] → expected_trail p (l ++ [a]) tail = expected_trail p l ((a, "approve"%string) :: tail).
Proof.
  intros Hl. unfold expected_trail. destruct l as [|b l]; [done|].
  change (drop 1 ((b :: l) ++ [a])) with (l ++ [a]). change (drop 1 (b :: l)) with l.
  by rewrite fmap_app, <- app_assoc.
Qed.

Lemma entries_snoc t e : entries_of (t ++ [e]) = entries_of t ++ [(ae_actor e, ae_action e)].
Proof. unfold entries_of. by rewrite fmap_app. Qed.

Lemma expected_app p l tail e : expected_trail p l tail ++ [e] = expected_trail p l (tail ++ [e]).
Proof. unfold expected_trail. cbn. by rewrite <- app_assoc. Qed.

Lemma propose_keeps a d b env s id s' : propose a d b env s = (Ok id, s') → wallet_ok s → wallet_ok s'.
Proof.
  intros H [Ht Hr Hf Hn Hq]. apply propose_Ok in H as (Hid & _ & _ & Hb & ->).
  assert (get_audit_trail s id = []) as Hempty by (unfold get_audit_trail; by rewrite Hf by lia).
  split; cbn; try done.
  - intros id' p [[<- <-]|[Hne Hp]]%lookup_insert_Some.
    + split; unfold get_approvals, get_audit_trail, get_next_proposal_id; cbn; rewrite ?lookup_insert_eq; cbn; try done.
      * lia.
      * apply NoDup_singleton.
      * exists []. fold (get_audit_trail s id). rewrite Hempty. split; [done|]. by left.
    + apply (record_ok_other s); [by apply Hr|unfold get_next_proposal_id at 2; cbn; lia| |];
        cbn; by rewrite lookup_insert_ne.
  - intros id' Hle. unfold get_next_proposal_id in Hle. cbn in Hle. rewrite lookup_insert_ne by lia. apply Hf. lia.
  - unfold get_next_proposal_id. cbn. lia.
Qed.

Lemma approve_keeps a id env s u s' : approve a id env s = (Ok u, s') → wallet_ok s → wallet_ok s'.
Proof.
  intros H [Ht Hr Hf Hn Hq]. apply approve_Ok in H as (p & _ & _ & Hp & Hst & Ha & ->).
  split; cbn; try done.
  - intros id' p' Hp'. destruct (decide (id' = id)) as [->|Hne].
    + replace p' with p by congruence. destruct (Hr id p Hp) as [? ? ? Hnd Hfst (tail & Htr & Hcase)].
      assert (get_approvals s id ≠ []) as Hne by (intros E; by rewrite E in Hfst).
      split; unfold get_approvals, get_audit_trail in *; cbn; rewrite ?lookup_insert_eq; cbn; try done.
      * apply NoDup_app. split_and!; [done| |apply NoDup_singleton]. by intros y Hy ->%list_elem_of_singleton.
      * by destruct (default [] (wkApprovals s !! id)).
      * exists []. destruct Hcase as [[_ ->]|[Hex _]]; [|congruence].
        rewrite entries_snoc, Htr, expected_app. cbn. rewrite expected_snoc by done. split; [done|]. by left.
    + apply (record_ok_other s); [by apply Hr|done| |]; cbn; by rewrite lookup_insert_ne.
  - intros id' Hle. rewrite lookup_insert_ne; [by apply Hf|]. destruct (Hr id p Hp).
    unfold get_next_proposal_id in *. cbn in Hle. lia.
Qed.

Lemma execute_keeps_wallet a id env s w u s' w' :
  exec a id env (s, w) = (Ok u, (s', w')) → wallet_ok s → wallet_ok s'.
Proof.
  intros H [Ht Hr Hf Hn Hq]. apply execute_batch_Ok in H as (p & c & _ & _ & Hp & Hst & _ & _ & _ & ->).
  destruct (Hr id p Hp) as [Hid ? ? Hnd Hfst (tail & Htr & Hcase)].
  split; cbn; try done.
  - intros id' p' [[<- <-]|[Hne Hp']]%lookup_insert_Some.
    + split; unfold get_audit_trail in *; cbn; rewrite ?lookup_insert_eq; cbn; try done.
      exists [(a, "execute"%string)]. destruct Hcase as [[_ ->]|[Hex _]]; [|congruence].
      rewrite entries_snoc, Htr, expected_app. split; [done|]. right. split; [done|]. by eexists.
    + apply (record_ok_other s); [by apply Hr|done|done|]; cbn; by rewrite lookup_insert_ne.
  - intros id' Hle. rewrite lookup_insert_ne; [by apply Hf|].
    unfold get_next_proposal_id in *. cbn in Hle. lia.
Qed.

(** ** Steps *)

(** An invocation, or the other contracts moving on. *)
Inductive wallet_step : WalletState Val * W → WalletState Val * W → Prop :=
  | wallet_invoked c env x : wallet_step x (dispatch c env x)
  | wallet_elsewhere s w w' : wallet_step (s, w) (s, w').

(** A proposal keeps its batch; approvals are only added; execution is final. *)
Record follows (s s' : WalletState Val) (id : Z) (p p' : Proposal Val) : Prop := {
  fl_found : wkProposal s' !! id = Some p';
  fl_batch : pr_batch p' = pr_batch p ∧ pr_proposer p' = pr_proposer p ∧ pr_description p' = pr_description p;
  fl_approvals : ∃ more, get_approvals s' id = get_approvals s id ++ more;
  fl_executed : pr_status p = Executed → pr_status p' = Executed;
}.

Lemma follows_same s s' id p :
  wkProposal s !! id = Some p → board s' = board s → follows s s' id p p.
Proof.
  intros Hp Hb. unfold board in Hb. injection Hb as _ Ep Ea _. split; [by rewrite Ep|done| |done].
  exists []. unfold get_approvals. by rewrite Ea, app_nil_r.
Qed.

Lemma follows_trans s1 s2 s3 id p1 p2 p3 :
  follows s1 s2 id p1 p2 → follows s2 s3 id p2 p3 → follows s1 s3 id p1 p3.
Proof.
  intros [H1 (B1 & Q1 & D1) [m1 A1] E1] [H2 (B2 & Q2 & D2) [m2 A2] E2].
  split; [done|split_and!; congruence| |auto]. exists (m1 ++ m2). by rewrite A2, A1, app_assoc.
Qed.

Lemma settings_board c env s :
  match c with
  | CallWalletPropose _ _ _ | CallWalletApprove _ _ | CallWalletExecute _ _ => True
  | _ => ∀ w, board (dispatch c env (s, w)).1 = board s
  end.
Proof.
  assert (∀ (m : M (WalletState Val) WalletError unit) w, preserves (λ s', board s' = board s) m →
    board (invoke (local m) env (s, w)).2.1 = board s) as Hm.
  { intros m w Hp. unfold invoke. destruct (local m env (s, w)) as [[u|e|] [s' w']] eqn:E; try done.
    apply local_Ok in E as [E _]. exact (Hp env s _ s' eq_refl E). }
  destruct c; try done; intros w; cbn; apply Hm;
    unfold initialize, add_admin, remove_admin, set_threshold, set_guardians, start_recovery, execute_recovery,
      get_config; preserve; done.
Qed.

Lemma wallet_step_ok x x' :
  wallet_step x x' → wallet_ok x.1 →
  wallet_ok x'.1 ∧ ∀ id p, wkProposal x.1 !! id = Some p → ∃ p', follows x.1 x'.1 id p p'.
Proof.
  intros [c env [s w]|s w w'] Hok; cbn [fst] in Hok |- *.
  2: { split; [done|]. intros id p Hp. exists p. by apply follows_same. }
  pose proof (settings_board c env s) as Hb.
  destruct c; try specialize (Hb w); cbn in Hb |- *; unfold invoke in *;
    lazymatch goal with |- context [match ?m env (s, w) with _ => _ end] =>
      destruct (m env (s, w)) as [[r|e|] [s' w']] eqn:Hm end; cbn in *;
    try (split; [done|]; intros id p Hp; exists p; by apply follows_same);
    try (apply local_Ok in Hm as [Hm ->]; split;
         [eapply settings_keep; [exact Hm|done|naive_solver]|intros id p Hp; exists p; by apply follows_same]).
  - apply local_Ok in Hm as [Hm ->]. split; [by eapply propose_keeps|]. intros id p Hp.
    pose proof (rc_range _ _ _ (wo_records _ Hok _ _ Hp)) as Hlt.
    apply propose_Ok in Hm as (-> & _ & _ & _ & ->). exists p. split; cbn; [|done| |done].
    + rewrite lookup_insert_ne by lia. done.
    + exists []. unfold get_approvals. cbn. rewrite lookup_insert_ne by lia. by rewrite app_nil_r.
  - apply local_Ok in Hm as [Hm ->]. split; [by eapply approve_keeps|]. intros id p Hp.
    apply approve_Ok in Hm as (q & _ & _ & _ & _ & _ & ->). exists p. split; cbn; [done|done| |done].
    unfold get_approvals. cbn. destruct (decide (id = proposal_id)) as [->|Hne].
    + rewrite lookup_insert_eq. by eexists.
    + exists []. by rewrite lookup_insert_ne, app_nil_r.
  - split; [by eapply execute_keeps_wallet|]. intros id p Hp.
    apply execute_batch_Ok in Hm as (q & cf & _ & _ & Hq & _ & _ & _ & _ & ->).
    destruct (decide (id = proposal_id)) as [->|Hne].
    + replace q with p by congruence. exists (p <| pr_status := Executed |>). split; cbn; [apply lookup_insert_eq|done| |done].
      exists []. by rewrite app_nil_r.
    + exists p. split; cbn; [by rewrite lookup_insert_ne|done| |done]. exists []. by rewrite app_nil_r.
Qed.

Lemma wallet_steps_ok x x' :
  rtc wallet_step x x' → wallet_ok x.1 →
  wallet_ok x'.1 ∧ ∀ id p, wkProposal x.1 !! id = Some p → ∃ p', follows x.1 x'.1 id p p'.
Proof.
  intros Hs. induction Hs as [x|x y z Hstep _ IH]; intros Hok.
  - split; [done|]. intros id p Hp. exists p. by apply follows_same.
  - destruct (wallet_step_ok x y Hstep Hok) as [Hok2 H2]. destruct (IH Hok2) as [Hok3 H3]. split; [done|].
    intros id p Hp. destruct (H2 id p Hp) as [p2 Hf2]. destruct (H3 id p2 (fl_found _ _ _ _ _ Hf2)) as [p3 Hf3].
    exists p3. by eapply follows_trans.
Qed.

Lemma empty_wallet_ok : wallet_ok empty_wallet.
Proof. by split. Qed.

(** ** Properties *)

(** In every reachable state each proposal has its identifier, a batch and
    distinct approvals that start with its proposer, its audit trail is exactly
    the proposing, the approvals in order and, if executed, one execution, and
    the threshold never exceeds the number of admins. *)
Theorem wallet_records_are_faithful w0 x :
  rtc wallet_step (empty_wallet, w0) x → wallet_ok x.1.
Proof. intros Hs. by apply (wallet_steps_ok _ _ Hs), empty_wallet_ok. Qed.

(** *** Histories *)

(** The invocations so far, each with its environment and the state it met;
    other contracts may move on in between. *)
Definition History : Type := list (WalletCall (Val := Val) * Env * WalletState Val).

Inductive wallet_history (w0 : W) : History → WalletState Val * W → Prop :=
  | history_empty : wallet_history w0 [] (empty_wallet, w0)
  | history_call h c env x : wallet_history w0 h x → wallet_history w0 (h ++ [(c, env, x.1)]) (dispatch c env x)
  | history_elsewhere h s w w' : wallet_history w0 h (s, w) → wallet_history w0 h (s, w').

Lemma history_steps w0 h x : wallet_history w0 h x → rtc wallet_step (empty_wallet, w0) x.
Proof.
  induction 1 as [|h c env x _ IH|h s w w' _ IH]; [apply rtc_refl|..]; (eapply rtc_r; [exact IH|]);
    [apply wallet_invoked|apply wallet_elsewhere].
Qed.

(** [v] was an admin when it proposed the batch of [p] as the proposal [id], or
    approved that proposal, in an invocation that it signed and that succeeded. *)
Definition endorsed (h : History) (id : Z) (p : Proposal Val) (v : Address) : Prop :=
  ∃ env s, authorized env v = true ∧ v ∈ get_admins s ∧
    (((CallWalletPropose v (pr_description p) (pr_batch p), env, s) ∈ h ∧
      (propose v (pr_description p) (pr_batch p) env s).1 = Ok id) ∨
     ((CallWalletApprove v id, env, s) ∈ h ∧ (approve v id env s).1 = Ok tt)).

Definition all_endorsed (h : History) (s : WalletState Val) : Prop :=
  ∀ id p v, wkProposal s !! id = Some p → v ∈ get_approvals s id → endorsed h id p v.

Lemma endorsed_more h h' id p v : endorsed h id p v → endorsed (h ++ h') id p v.
Proof.
  intros (env & s & Ha & Hin & Hc). exists env, s. split_and!; [done|done|]. rewrite !elem_of_app. tauto.
Qed.

Lemma endorsed_same h s s' c : board s' = board s → all_endorsed h s → all_endorsed (h ++ [c]) s'.
Proof.
  unfold board, all_endorsed, get_approvals. intros [= _ -> -> _] H id p v Hp Hv. by apply endorsed_more, H.
Qed.

Lemma history_endorsed w0 h x : wallet_history w0 h x → all_endorsed h x.1.
Proof.
  induction 1 as [|h c env [s w] _ IH|h s w w' _ IH]; [done| |done]. cbn [fst] in *.
  pose proof (settings_board c env s) as Hb.
  destruct c; try specialize (Hb w); cbn in Hb |- *; try (by eapply endorsed_same); unfold invoke in *;
    lazymatch goal with |- context [match ?m env (s, w) with _ => _ end] =>
      destruct (m env (s, w)) as [[r|e|] [s' w']] eqn:Hm end; cbn in *; try (by eapply endorsed_same);
    try (apply local_Ok in Hm as [Hm ->]).
  - pose proof (f_equal fst Hm) as Hok. apply propose_Ok in Hm as (Hid & Hau & Hin & _ & ->). intros id p v. cbn. unfold get_approvals; cbn.
    intros [[<- <-]|[Hne Hp]]%lookup_insert_Some.
    + rewrite lookup_insert_eq. cbn. intros ->%list_elem_of_singleton. exists env, s. split_and!; [done|done|].
      left. split; [apply elem_of_app; right; left|exact Hok].
    + rewrite lookup_insert_ne by done. intros Hv. by apply endorsed_more, IH.
  - pose proof (f_equal fst Hm) as Hok. destruct r. apply approve_Ok in Hm as (q & Hau & Hin & _ & _ & _ & ->). intros id p v Hp. cbn in Hp. unfold get_approvals; cbn.
    destruct (decide (id = proposal_id)) as [->|Hne]; [rewrite lookup_insert_eq|rewrite lookup_insert_ne by done].
    + cbn. intros [Hv|Hv%list_elem_of_singleton]%elem_of_app; [by apply endorsed_more, IH|].
      subst v. exists env, s. split_and!; [done|done|]. right. split; [apply elem_of_app; right; left|done].
    + intros Hv. by apply endorsed_more, IH.
  - apply execute_batch_Ok in Hm as (q & cf & _ & _ & Hq & _ & _ & _ & _ & ->). intros id p v. cbn.
    intros [[<- <-]|[Hne Hp]]%lookup_insert_Some; intros Hv; [|by apply endorsed_more, IH].
    apply endorsed_more. by apply (IH _ q).
Qed.

(** C23: a batch runs only for an admin who signed, when at least the threshold
    of distinct approvers stands in its approvals and its audit trail, each of
    whom was an admin when it proposed this batch or approved it in a successful
    invocation of its own that it signed; it is the batch that was proposed, its
    calls run in order and all succeed, and in every later state its execution
    is rejected. *)
Theorem batch_runs_once w0 h s w a id env s' w' :
  wallet_history w0 h (s, w) →
  exec a id env (s, w) = (Ok tt, (s', w')) →
  ∃ p c, wkProposal s !! id = Some p ∧ wkConfig s = Some c ∧ authorized env a = true ∧ a ∈ get_admins s ∧
    NoDup (get_approvals s id) ∧ mc_threshold c ≤ len (get_approvals s id) ∧
    (∀ v, v ∈ get_approvals s id →
       endorsed h id p v ∧ ∃ action, (v, action) ∈ entries_of (get_audit_trail s id)) ∧
    run_batch (pr_batch p) w = Some w' ∧
    (∀ s1 w1 p1, rtc wallet_step (s1, w1) (s, w) → wallet_ok s1 → wkProposal s1 !! id = Some p1 →
       pr_batch p1 = pr_batch p) ∧
    ∀ s2 w2 a2 env2, rtc wallet_step (s', w') (s2, w2) → authorized env2 a2 = true → a2 ∈ get_admins s2 →
      exec a2 id env2 (s2, w2) = (Err WE_ProposalNotActive, (s2, w2)).
Proof.
  intros Hh H. pose proof (history_endorsed _ _ _ Hh) as Hend. cbn in Hend.
  destruct (wallet_steps_ok _ _ (history_steps _ _ _ Hh) empty_wallet_ok) as [Hok _]. cbn in Hok.
  pose proof (execute_keeps_wallet _ _ _ _ _ _ _ _ H Hok) as Hok'.
  apply execute_batch_Ok in H as (p & c & Ha & Hin & Hp & Hst & Hc & Hq & Hrun & Hs').
  destruct (wo_records _ Hok _ _ Hp) as [_ _ _ Hnd Hfst (tail & Htr & _)].
  exists p, c. split_and!; try done.
  - intros v Hv. split; [by apply Hend|].
    rewrite Htr. unfold expected_trail. destruct (get_approvals s id) as [|b l]; [done|].
    injection Hfst as ->. change (drop 1 (pr_proposer p :: l)) with l. apply elem_of_cons in Hv as [->|Hv].
    + exists "propose"%string. by left.
    + exists "approve"%string. right. apply elem_of_app. left. apply list_elem_of_fmap. by exists v.
  - intros s1 w1 p1 Hs1 Hok1 Hp1. destruct (wallet_steps_ok _ _ Hs1 Hok1) as [_ Hf].
    destruct (Hf id p1 Hp1) as [p2 [Hp2 [Hb _] _ _]]. cbn in Hp2. congruence.
  - intros s2 w2 a2 env2 Hs2 Ha2 Hin2. destruct (wallet_steps_ok _ _ Hs2 Hok') as [_ Hf].
    destruct (Hf id (p <| pr_status := Executed |>)) as [p2 [Hp2 _ _ He]].
    { rewrite Hs'. cbn. apply lookup_insert_eq. }
    cbn in Hp2. unfold execute. run_fwd. unfold require_auth. rewrite Ha2. run_fwd. unfold local. cbn.
    unfold require_wallet_admin. run_fwd. rewrite (bool_decide_eq_false_2 (a2 ∉ get_admins s2)) by tauto.
    run_fwd. unfold get_proposal. rewrite Hp2. run_fwd. by rewrite (He eq_refl).
Qed.

(** Invocations that the wallet itself has not signed. *)
Inductive outside_step : WalletState Val * W → WalletState Val * W → Prop :=
  | outside_invoked c env x : authorized env this = false → outside_step x (dispatch c env x)
  | outside_elsewhere s w w' : outside_step (s, w) (s, w').

(** Settings nobody but the wallet can change. *)
Definition settings_of (s : WalletState Val) := (wkConfig s, wkAdmins s, wkGuardians s).

Lemma outside_keeps x x' :
  outside_step x x' → wkConfig x.1 ≠ None → wkGuardians x.1 = None → settings_of x'.1 = settings_of x.1.
Proof.
  intros [c env [s w] Hself|s w w'] Hc Hg; cbn in Hc, Hg |- *; [|done].
  destruct c; cbn; unfold invoke;
    lazymatch goal with |- context [match ?m env (s, w) with _ => _ end] =>
      destruct (m env (s, w)) as [[r|e|] [s' w']] eqn:Hm end; try done; cbn;
    try apply local_Ok in Hm as [Hm _].
  - by apply wallet_init_Ok in Hm as (_ & _ & _ & Hno & _).
  - by apply propose_Ok in Hm as (_ & _ & _ & _ & ->).
  - by apply approve_Ok in Hm as (p & _ & _ & _ & _ & _ & ->).
  - by apply execute_batch_Ok in Hm as (p & c & _ & _ & _ & _ & _ & _ & _ & ->).
  - unfold add_admin in Hm. run_inv Hm. congruence.
  - unfold remove_admin in Hm. run_inv Hm. congruence.
  - unfold set_threshold in Hm. run_inv Hm. congruence.
  - unfold set_guardians in Hm. run_inv Hm. congruence.
  - unfold start_recovery in Hm. run_inv Hm. zbool. exfalso.
    match goal with H : ¬ (_ ∉ _) |- _ => apply H end. unfold get_guardians. rewrite Hg. apply not_elem_of_nil.
  - unfold execute_recovery in Hm. run_inv Hm. zbool. exfalso.
    match goal with H : ¬ (_ ∉ _) |- _ => apply H end. unfold get_guardians. rewrite Hg. apply not_elem_of_nil.
Qed.

Lemma outside_steps_keep x x' :
  rtc outside_step x x' → wkConfig x.1 ≠ None → wkGuardians x.1 = None → settings_of x'.1 = settings_of x.1.
Proof.
  intros Hs. induction Hs as [x|x y z Hstep _ IH]; intros Hc Hg; [done|].
  pose proof (outside_keeps x y Hstep Hc Hg) as E. rewrite <- E. unfold settings_of in E. apply IH; congruence.
Qed.

(** After initialisation the admins and the threshold never change, no
    guardians are ever set and no recovery ever starts: these operations ask for
    the wallet's own signature, which nobody outside can give and which the
    host's ban on re-entry keeps its batches from giving. *)
Theorem wallet_settings_are_frozen admins threshold env w0 s w :
  (initialize (Val := Val) admins threshold env empty_wallet).1 = Ok tt →
  rtc outside_step ((initialize admins threshold env empty_wallet).2, w0) (s, w) →
  get_admins s = admins ∧ wkConfig s = Some (mkMultisigConfig threshold) ∧ wkGuardians s = None ∧
  ∀ g env', authorized env' g = true →
    start_recovery g admins threshold env' s = (Err WE_Unauthorized, s) ∧
    execute_recovery g env' s = (Err WE_Unauthorized, s).
Proof.
  intros Hi Hs. destruct (initialize admins threshold env empty_wallet) as [r s0] eqn:E. cbn in Hi, Hs. subst r.
  apply wallet_init_Ok in E as (_ & _ & _ & _ & ->).
  apply outside_steps_keep in Hs; cbn in *; [|done|done]. injection Hs as Hc Ha Hg.
  unfold get_admins. rewrite Ha. split_and!; [done|done|done|]. intros g env' Hau.
  unfold start_recovery, execute_recovery, require_auth. run_fwd. rewrite Hau. run_fwd. unfold get_guardians.
  rewrite Hg. cbn. rewrite bool_decide_eq_true_2 by apply not_elem_of_nil. done.
Qed.
End wallet.

(** ** Examples *)

Definition alice : Address := 1%positive.
Definition bob : Address := 2%positive.
Definition carol : Address := 3%positive.
Definition vault : Address := 5%positive.
Definition ledger : Address := 9%positive.

(** The other contracts count the calls they receive. *)
Definition counting (tx : Transaction unit) (w : list string) : option (unit * list string) :=
  Some (tt, w ++ [tx_function tx]).
Definition hand (now : Z) : Env :=
  mkEnv now 0 (λ a, negb (bool_decide (a = vault))) (λ _ _, None) (λ _ _ _ _, None).
Definition play (cs : list (WalletCall (Val := unit))) : WalletState unit * list string :=
  foldl (λ x c, wallet_dispatch vault counting c (hand 10) x) (empty_wallet, []) cs.
Definition payroll : list (WalletCall (Val := unit)) :=
  [CallWalletInit [alice; bob; carol] 2;
   CallWalletPropose alice "pay" [mkTransaction ledger "pay" []; mkTransaction ledger "note" []];
   CallWalletApprove carol 0].

Lemma play_reaches cs : rtc (wallet_step vault counting) (empty_wallet, []) (play cs).
Proof.
  induction cs as [|c cs IH] using rev_ind; [apply rtc_refl|]. unfold play. rewrite foldl_snoc.
  eapply rtc_r; [exact IH|]. apply wallet_invoked.
Qed.

(** The invocations [play] makes, with the states they meet *)
Definition played (cs : list (WalletCall (Val := unit))) : list (WalletCall (Val := unit) * Env * WalletState unit) :=
  map (λ n, (nth n cs (CallSetThreshold 0), hand 10, (play (take n cs)).1)) (seq 0 (length cs)).

Lemma wallet_records_are_faithful_witness :
  wallet_ok (play payroll).1 ∧
  entries_of (get_audit_trail (play payroll).1 0) = [(alice, "propose"%string); (carol, "approve"%string)].
Proof.
  split; [|vm_compute; reflexivity].
  apply (wallet_records_are_faithful vault counting [] (play payroll)). apply play_reaches.
Defined.

Lemma payroll_history : wallet_history vault counting [] (played payroll) (play payroll).
Proof.
  change (play payroll) with (wallet_dispatch vault counting (CallWalletApprove carol 0) (hand 10) (play (take 2 payroll))).
  change (played payroll) with (played (take 2 payroll) ++ [(CallWalletApprove carol 0, hand 10, (play (take 2 payroll)).1)]).
  apply history_call.
  change (play (take 2 payroll)) with (wallet_dispatch vault counting
    (CallWalletPropose alice "pay" [mkTransaction ledger "pay" []; mkTransaction ledger "note" []]) (hand 10) (play (take 1 payroll))).
  apply (history_call _ _ _ [_]). apply (history_call _ _ _ []). apply history_empty.
Qed.

Lemma batch_runs_once_witness :
  let x := play payroll in
  let x' := (execute vault counting bob 0 (hand 20) (x.1, x.2)).2 in
  x'.2 = ["pay"%string; "note"%string] ∧
  ∃ p, wkProposal x.1 !! 0 = Some p ∧ run_batch vault counting (pr_batch p) x.2 = Some x'.2 ∧
    endorsed (played payroll) 0 p carol.
Proof.
  intros x x'. split; [vm_compute; reflexivity|].
  destruct (batch_runs_once vault counting [] (played payroll) x.1 x.2 bob 0 (hand 20) x'.1 x'.2)
    as (p & c & Hp & _ & _ & _ & _ & _ & Hend & Hrun & _).
  - rewrite <- surjective_pairing. apply payroll_history.
  - vm_compute. reflexivity.
  - exists p. split; [exact Hp|]. split; [exact Hrun|]. apply Hend. vm_compute. right. left.
Defined.

Lemma wallet_settings_are_frozen_witness :
  let s := (initialize (Val := unit) [alice; bob] 2 (hand 0) empty_wallet).2 in
  get_admins s = [alice; bob] ∧ execute_recovery alice (hand 5) s = (Err WE_Unauthorized, s).
Proof.
  intros s.
  destruct (wallet_settings_are_frozen vault counting [alice; bob] 2 (hand 0) [] s []) as (Ha & _ & _ & Hr).
  - vm_compute. reflexivity.
  - apply rtc_refl.
  - split; [exact Ha|]. apply Hr. reflexivity.
Defined.
