(* ===== verification/HelloTypes.v ===== *)
(** * HelloTypes: the data of the hello-world contract's administration

    hello-world/src is the older, monolithic lending contract.  This file holds
    the enums and stored records of the modules that govern it - admin.rs,
    risk_params.rs, risk_management.rs, interest_rate.rs, governance.rs (with
    types.rs and storage.rs) and timelock.rs - and their storage.  The modules
    share one storage: [HState] has a part per key enum. *)

From S2P Require Import Prelude.
From S2P Require Import Host.

(** [Symbol] *)
Abbreviation Symbol := string (only parsing).

(** ** Errors *)

Inductive AdminError : Type := AE_Unauthorized | AE_InvalidParameter | AE_AdminAlreadySet.

Inductive RiskParamsError : Type :=
  | RP_Unauthorized | RP_InvalidParameter | RP_ParameterChangeTooLarge | RP_InvalidCollateralRatio
  | RP_InvalidLiquidationThreshold | RP_InvalidCloseFactor | RP_InvalidLiquidationIncentive.

Inductive RiskManagementError : Type :=
  | RM_Unauthorized | RM_InvalidParameter | RM_ParameterChangeTooLarge | RM_InsufficientCollateralRatio
  | RM_OperationPaused | RM_EmergencyPaused | RM_InvalidCollateralRatio | RM_InvalidLiquidationThreshold
  | RM_InvalidCloseFactor | RM_InvalidLiquidationIncentive | RM_Overflow | RM_GovernanceRequired
  | RM_AlreadyInitialized.

Inductive InterestRateError : Type :=
  | IR_Unauthorized | IR_InvalidParameter | IR_ParameterChangeTooLarge | IR_Overflow | IR_DivisionByZero
  | IR_AlreadyInitialized.

Inductive GovernanceError : Type :=
  | GE_ProposalNotFound | GE_ProposalNotActive | GE_NotInVotingPeriod | GE_AlreadyVoted | GE_NoVotingPower
  | GE_InsufficientProposalPower | GE_VotingNotEnded | GE_InvalidProposalStatus | GE_ProposalExpired
  | GE_NotQueued | GE_InvalidExecutionTime | GE_ExecutionTooEarly | GE_AlreadyExecuted | GE_InvalidQuorum
  | GE_InvalidVotingPeriod | GE_CannotExecute | GE_QuorumNotMet | GE_ProposalDefeated | GE_InvalidAction
  | GE_ThresholdNotMet | GE_ProposalAlreadyFailed | GE_ProposalNotReady | GE_ExecutionFailed
  | GE_InvalidMultisigConfig | GE_InsufficientApprovals | GE_InvalidProposalType | GE_GuardianAlreadyExists
  | GE_GuardianNotFound | GE_InvalidGuardianConfig | GE_RecoveryInProgress | GE_NoRecoveryInProgress
  | GE_Unauthorized | GE_AlreadyInitialized | GE_NotInitialized | GE_InvalidProposal | GE_InputTooLong
  | GE_SelfDelegation | GE_VotesLocked | GE_AlreadyDelegated | GE_DelegationDepthExceeded
  | GE_ProposalRateLimitExceeded | GE_TimelockNotFound | GE_TimelockNotReady | GE_TimelockExpired
  | GE_InvalidTimelockStatus | GE_InvalidTimelockConfig | GE_InvalidTimelockDelay.

(** ** Protocol parameters *)

Record RiskParams : Type := mkRiskParams {
  rp_min_collateral_ratio : Z;
  rp_liquidation_threshold : Z;
  rp_close_factor : Z;
  rp_liquidation_incentive : Z;
  rp_last_update : Z;
}.
#[export] Instance RiskParams_upd : Updatable RiskParams := λ p,
  mkRiskParams (rp_min_collateral_ratio p) (rp_liquidation_threshold p) (rp_close_factor p)
    (rp_liquidation_incentive p) (rp_last_update p).

Record RiskConfig : Type := mkRiskConfig {
  rc_pause_switches : gmap Symbol bool;
  rc_min_collateral_ratio : Z;
  rc_liquidation_threshold : Z;
  rc_close_factor : Z;
  rc_liquidation_incentive : Z;
  rc_last_update : Z;
}.
#[export] Instance RiskConfig_upd : Updatable RiskConfig := λ c,
  mkRiskConfig (rc_pause_switches c) (rc_min_collateral_ratio c) (rc_liquidation_threshold c)
    (rc_close_factor c) (rc_liquidation_incentive c) (rc_last_update c).

Record InterestRateConfig : Type := mkInterestRateConfig {
  ir_base_rate_bps : Z;
  ir_kink_utilization_bps : Z;
  ir_multiplier_bps : Z;
  ir_jump_multiplier_bps : Z;
  ir_rate_floor_bps : Z;
  ir_rate_ceiling_bps : Z;
  ir_spread_bps : Z;
  ir_emergency_adjustment_bps : Z;
  ir_last_update : Z;
}.
#[export] Instance InterestRateConfig_upd : Updatable InterestRateConfig := λ c,
  mkInterestRateConfig (ir_base_rate_bps c) (ir_kink_utilization_bps c) (ir_multiplier_bps c)
    (ir_jump_multiplier_bps c) (ir_rate_floor_bps c) (ir_rate_ceiling_bps c) (ir_spread_bps c)
    (ir_emergency_adjustment_bps c) (ir_last_update c).

Record LendingIndex : Type := mkLendingIndex {
  li_borrow_index : Z;
  li_supply_index : Z;
  li_last_update : Z;
}.
#[export] Instance LendingIndex_upd : Updatable LendingIndex := λ i,
  mkLendingIndex (li_borrow_index i) (li_supply_index i) (li_last_update i).

Record ProtocolAnalytics : Type := mkProtocolAnalytics {
  pa_total_deposits : Z;
  pa_total_borrows : Z;
  pa_total_value_locked : Z;
}.

(** ** Governance *)

Inductive ProposalStatus : Type :=
  | Pending | Active | Succeeded | Defeated | Expired | Queued | Executed | Cancelled.
#[export] Instance ProposalStatus_eq_dec : EqDecision ProposalStatus.
Proof. solve_decision. Defined.

Inductive VoteType : Type := VoteFor | VoteAgainst | VoteAbstain.
#[export] Instance VoteType_eq_dec : EqDecision VoteType.
Proof. solve_decision. Defined.

Record InterestRateParams : Type := mkInterestRateParams {
  ip_base_rate_bps : option Z;
  ip_kink_utilization_bps : option Z;
  ip_multiplier_bps : option Z;
  ip_jump_multiplier_bps : option Z;
  ip_rate_floor_bps : option Z;
  ip_rate_ceiling_bps : option Z;
  ip_spread_bps : option Z;
}.

Record Action : Type := mkAction {
  ac_target : Address;
  ac_method : Symbol;
  ac_args : list string;
  ac_value : Z;
}.

Inductive ProposalType : Type :=
  | MinCollateralRatio (ratio : Z)
  | RiskParamsChange (mcr lt cf li : option Z)
  | PauseSwitch (op : Symbol) (paused : bool)
  | EmergencyPause (paused : bool)
  | GenericAction (action : Action)
  | InterestRateConfigChange (params : InterestRateParams).

Record Proposal : Type := mkProposal {
  pp_id : Z;
  pp_proposer : Address;
  pp_proposal_type : ProposalType;
  pp_description : string;
  pp_status : ProposalStatus;
  pp_start_time : Z;
  pp_end_time : Z;
  pp_execution_time : option Z;
  pp_voting_threshold : Z;
  pp_for_votes : Z;
  pp_against_votes : Z;
  pp_abstain_votes : Z;
  pp_total_voting_power : Z;
  pp_created_at : Z;
}.
#[export] Instance Proposal_upd : Updatable Proposal := λ p,
  mkProposal (pp_id p) (pp_proposer p) (pp_proposal_type p) (pp_description p) (pp_status p)
    (pp_start_time p) (pp_end_time p) (pp_execution_time p) (pp_voting_threshold p) (pp_for_votes p)
    (pp_against_votes p) (pp_abstain_votes p) (pp_total_voting_power p) (pp_created_at p).

Record VoteInfo : Type := mkVoteInfo {
  vi_voter : Address;
  vi_proposal_id : Z;
  vi_vote_type : VoteType;
  vi_voting_power : Z;
  vi_timestamp : Z;
}.

Record VotePowerSnapshot : Type := mkVotePowerSnapshot {
  vs_proposal_id : Z;
  vs_voter : Address;
  vs_balance : Z;
  vs_snapshot_time : Z;
}.

Record VoteLock : Type := mkVoteLock {
  vl_voter : Address;
  vl_locked_until : Z;
  vl_locked_amount : Z;
  vl_proposal_id : Z;
}.

Record DelegationRecord : Type := mkDelegationRecord {
  dr_delegator : Address;
  dr_delegatee : Address;
  dr_delegated_at : Z;
  dr_depth : Z;
}.

(** The entry under [DelegationRecord(address)]: the code stores both an
    account's own delegation and the list of its delegators there. *)
Inductive DelegationEntry : Type :=
  | IsRecord (r : DelegationRecord)
  | IsDelegators (l : list Address).

Record GovernanceAnalytics : Type := mkGovernanceAnalytics {
  ga_total_proposals : Z;
  ga_total_votes : Z;
  ga_suspicious_proposals : Z;
  ga_last_suspicious_at : Z;
  ga_max_single_voter_power : Z;
}.

Record ProposalOutcome : Type := mkProposalOutcome {
  po_proposal_id : Z;
  po_succeeded : bool;
  po_for_votes : Z;
  po_against_votes : Z;
  po_abstain_votes : Z;
  po_quorum_reached : bool;
  po_quorum_required : Z;
}.

Record ProposalSimulationResult : Type := mkProposalSimulationResult {
  ps_proposal_id : Z;
  ps_now : Z;
  ps_would_succeed : bool;
  ps_quorum_required : Z;
  ps_quorum_reached : bool;
  ps_threshold_votes : Z;
  ps_threshold_met : bool;
  ps_for_votes : Z;
  ps_against_votes : Z;
  ps_abstain_votes : Z;
  ps_total_voting_power : Z;
  ps_note : string;
}.

Record ParameterOptimizationRecommendation : Type := mkParameterOptimizationRecommendation {
  or_generated_at : Z;
  or_suggested_quorum_bps : Z;
  or_suggested_vote_threshold : Z;
  or_suggested_voting_period : Z;
  or_transparency_note : string;
}.

Record GovernanceConfig : Type := mkGovernanceConfig {
  gc_voting_period : Z;
  gc_execution_delay : Z;
  gc_quorum_bps : Z;
  gc_proposal_threshold : Z;
  gc_vote_token : Address;
  gc_timelock_duration : Z;
  gc_default_voting_threshold : Z;
}.

Record MultisigConfig : Type := mkMultisigConfig {
  mc_admins : list Address;
  mc_threshold : Z;
}.
#[export] Instance MultisigConfig_upd : Updatable MultisigConfig := λ c,
  mkMultisigConfig (mc_admins c) (mc_threshold c).

Record GuardianConfig : Type := mkGuardianConfig {
  gu_guardians : list Address;
  gu_threshold : Z;
}.
#[export] Instance GuardianConfig_upd : Updatable GuardianConfig := λ c,
  mkGuardianConfig (gu_guardians c) (gu_threshold c).

Record RecoveryRequest : Type := mkRecoveryRequest {
  rr_old_admin : Address;
  rr_new_admin : Address;
  rr_initiator : Address;
  rr_initiated_at : Z;
  rr_expires_at : Z;
}.

Definition BASIS_POINTS_SCALE : Z := 10000.
Definition DEFAULT_VOTING_PERIOD : Z := 604800.
Definition DEFAULT_EXECUTION_DELAY : Z := 172800.
Definition DEFAULT_QUORUM_BPS : Z := 4000.
Definition DEFAULT_VOTING_THRESHOLD : Z := 5000.
Definition DEFAULT_TIMELOCK_DURATION : Z := 604800.
Definition DEFAULT_RECOVERY_PERIOD : Z := 259200.
(** types.rs and timelock.rs each have a [MIN_TIMELOCK_DELAY]. *)
Definition MIN_TIMELOCK_DELAY : Z := 86400.
Definition DELEGATION_DEADLINE : Z := 86400.
Definition MAX_DELEGATION_DEPTH : Z := 3.

(** ** Timelock *)

Inductive TimelockStatus : Type := TLPending | TLReady | TLExecuted | TLCancelled | TLExpired.
#[export] Instance TimelockStatus_eq_dec : EqDecision TimelockStatus.
Proof. solve_decision. Defined.

Record TimelockOperation : Type := mkTimelockOperation {
  tl_id : Z;
  tl_proposal_type : ProposalType;
  tl_description : string;
  tl_proposer : Address;
  tl_queued_at : Z;
  tl_ready_at : Z;
  tl_expires_at : Z;
  tl_status : TimelockStatus;
  tl_delay : Z;
}.
#[export] Instance TimelockOperation_upd : Updatable TimelockOperation := λ o,
  mkTimelockOperation (tl_id o) (tl_proposal_type o) (tl_description o) (tl_proposer o) (tl_queued_at o)
    (tl_ready_at o) (tl_expires_at o) (tl_status o) (tl_delay o).

Record TimelockConfig : Type := mkTimelockConfig {
  tc_min_delay : Z;
  tc_max_delay : Z;
  tc_default_delay : Z;
  tc_grace_period : Z;
}.

(** ** Events *)

Inductive HelloEvent : Type :=
  | AdminChanged (new_admin : Address) (caller : option Address)
  | RoleGranted (caller : Address) (role : Symbol) (account : Address)
  | RoleRevoked (caller : Address) (role : Symbol) (account : Address)
  | RiskParamsUpdated (config : RiskParams)
  | AdminActionEvent (actor : Address) (action : Symbol) (at_ : Z)
  | PauseStateChanged (actor : Address) (operation : Symbol) (paused : bool) (at_ : Z)
  | GovernanceInitialized (admin vote_token : Address) (voting_period quorum_bps at_ : Z)
  | ProposalCreated (id : Z) (proposer : Address) (t : ProposalType) (description : string)
      (start_time end_time created_at : Z)
  | ProposalCreatedTopic (id : Z) (proposer : Address)
  | ProposalQueuedTopic (id execution_time : Z)
  | ProposalExecutedTopic (id : Z) (executor : Address)
  | VoteCast (id : Z) (voter : Address) (v : VoteType) (power at_ : Z)
  | ProposalQueued (id execution_time for_votes against_votes : Z) (quorum_reached threshold_met : bool)
  | ProposalFailed (id for_votes against_votes : Z) (quorum_reached threshold_met : bool)
  | ProposalExecuted (id : Z) (executor : Address) (at_ : Z)
  | ProposalCancelled (id : Z) (caller : Address) (at_ : Z)
  | ProposalApproved (id : Z) (approver : Address) (at_ : Z)
  | GuardianAdded (guardian added_by : Address) (at_ : Z)
  | GuardianRemoved (guardian removed_by : Address) (at_ : Z)
  | RecoveryStarted (old_admin new_admin initiator : Address) (expires_at at_ : Z)
  | RecoveryApproved (approver : Address) (current_approvals threshold at_ : Z)
  | RecoveryExecuted (old_admin new_admin executor : Address) (at_ : Z)
  | VotePowerSnapshotTaken (id : Z) (voter : Address) (balance at_ : Z)
  | VoteDelegated (delegator delegatee : Address) (at_ : Z)
  | VoteDelegationRevoked (delegator : Address) (at_ : Z)
  | TimelockQueued (id : Z) (proposer : Address) (ready_at expires_at delay at_ : Z)
  | TimelockExecuted (id : Z) (executor : Address) (at_ : Z)
  | TimelockCancelled (id : Z) (caller : Address) (at_ : Z).

(** ** Storage

    The key enums' unit keys are encoded by their names alone, so the [Admin]
    keys that admin.rs and risk_management.rs keep in persistent storage are
    one entry, [akAdmin]; the [Admin] of governance.rs is in instance storage,
    an entry of its own. *)

(** [AdminDataKey] *)
Record AdminStore : Type := mkAdminStore {
  akAdmin : option Address;
  akRole : gmap (Symbol * Address) bool;
}.
#[export] Instance AdminStore_upd : Updatable AdminStore := λ s, mkAdminStore (akAdmin s) (akRole s).

(** [RiskParamsDataKey], [RiskDataKey] *)
Record RiskStore : Type := mkRiskStore {
  rkRiskParamsConfig : option RiskParams;
  rkRiskConfig : option RiskConfig;
  rkEmergencyPause : option bool;
}.
#[export] Instance RiskStore_upd : Updatable RiskStore := λ s,
  mkRiskStore (rkRiskParamsConfig s) (rkRiskConfig s) (rkEmergencyPause s).

(** [InterestRateDataKey], and the totals of [DepositDataKey::ProtocolAnalytics] it reads *)
Record RateStore : Type := mkRateStore {
  ikInterestRateConfig : option InterestRateConfig;
  ikLendingIndex : option LendingIndex;
  dkProtocolAnalytics : option ProtocolAnalytics;
}.
#[export] Instance RateStore_upd : Updatable RateStore := λ s,
  mkRateStore (ikInterestRateConfig s) (ikLendingIndex s) (dkProtocolAnalytics s).

(** [GovernanceDataKey] *)
Record GovStore : Type := mkGovStore {
  gkAdmin : option Address;
  gkConfig : option GovernanceConfig;
  gkNextProposalId : option Z;
  gkMultisigConfig : option MultisigConfig;
  gkGuardianConfig : option GuardianConfig;
  gkProposal : gmap Z Proposal;
  gkVote : gmap (Z * Address) VoteInfo;
  gkVotePowerSnapshot : gmap (Z * Address) VotePowerSnapshot;
  gkVoteLock : gmap Address VoteLock;
  gkDelegationRecord : gmap Address DelegationEntry;
  gkGovernanceAnalytics : option GovernanceAnalytics;
  gkProposalApprovals : gmap Z (list Address);
  gkUserProposals : gmap (Address * Z) bool;
  gkProposalSimulationCache : gmap Z ProposalSimulationResult;
  gkParameterOptimizationCache : option ParameterOptimizationRecommendation;
  gkRecoveryRequest : option RecoveryRequest;
  gkRecoveryApprovals : option (list Address);
}.
#[export] Instance GovStore_upd : Updatable GovStore := λ s,
  mkGovStore (gkAdmin s) (gkConfig s) (gkNextProposalId s) (gkMultisigConfig s) (gkGuardianConfig s)
    (gkProposal s) (gkVote s) (gkVotePowerSnapshot s) (gkVoteLock s) (gkDelegationRecord s)
    (gkGovernanceAnalytics s) (gkProposalApprovals s) (gkUserProposals s) (gkProposalSimulationCache s)
    (gkParameterOptimizationCache s) (gkRecoveryRequest s) (gkRecoveryApprovals s).

(** the timelock's keys of [GovernanceDataKey] *)
Record TimelockStore : Type := mkTimelockStore {
  tkTimelockConfig : option TimelockConfig;
  tkNextTimelockId : option Z;
  tkTimelockOperation : gmap Z TimelockOperation;
}.
#[export] Instance TimelockStore_upd : Updatable TimelockStore := λ s,
  mkTimelockStore (tkTimelockConfig s) (tkNextTimelockId s) (tkTimelockOperation s).

Record HState : Type := mkHState {
  hs_admin : AdminStore;
  hs_risk : RiskStore;
  hs_rate : RateStore;
  hs_gov : GovStore;
  hs_timelock : TimelockStore;
  hs_events : list HelloEvent;
}.
#[export] Instance HState_upd : Updatable HState := λ s,
  mkHState (hs_admin s) (hs_risk s) (hs_rate s) (hs_gov s) (hs_timelock s) (hs_events s).

Definition empty_hello : HState :=
  mkHState (mkAdminStore None ∅) (mkRiskStore None None None) (mkRateStore None None None)
    (mkGovStore None None None None None ∅ ∅ ∅ ∅ ∅ None ∅ ∅ ∅ None None None)
    (mkTimelockStore None None ∅) [].

(** ** Access to the parts *)

Section access.
Context {E : Type}.
Definition on_admin (f : AdminStore → AdminStore) : M HState E unit :=
  modify (λ s, s <| hs_admin := f (hs_admin s) |>).
Definition on_risk (f : RiskStore → RiskStore) : M HState E unit :=
  modify (λ s, s <| hs_risk := f (hs_risk s) |>).
Definition on_rate (f : RateStore → RateStore) : M HState E unit :=
  modify (λ s, s <| hs_rate := f (hs_rate s) |>).
Definition on_gov (f : GovStore → GovStore) : M HState E unit :=
  modify (λ s, s <| hs_gov := f (hs_gov s) |>).
Definition on_timelock (f : TimelockStore → TimelockStore) : M HState E unit :=
  modify (λ s, s <| hs_timelock := f (hs_timelock s) |>).
Definition publish (ev : HelloEvent) : M HState E unit :=
  modify (λ s, s <| hs_events := (hs_events s ++ [ev]) |>).
End access.
