(* ===== verification/HelloParams.v ===== *)
(** * HelloParams: the parameters of the hello-world contract

    admin.rs, risk_params.rs, risk_management.rs and interest_rate.rs: the
    super admin and the roles, the risk parameters and their bounds, the pause
    switches, the rate model and the compound index - and the entry points of
    lib.rs that reach them.  Afterwards: validity of the stored parameters, the
    bounds of the rates and the growth of the index. *)

From S2P Require Import Prelude.
From S2P Require Import Host.
From S2P Require Import HelloTypes.

(** ** admin.rs *)

Definition has_admin (s : HState) : bool := bool_decide (akAdmin (hs_admin s) ≠ None).
Definition get_admin (s : HState) : option Address := akAdmin (hs_admin s).

Definition set_admin (new_admin : Address) (caller : option Address) : M HState AdminError unit :=
  current ← gets get_admin;
  match current with
  | Some current_admin => reject_if (bool_decide (caller ≠ Some current_admin)) AE_Unauthorized
  | None => mret tt
  end ;;
  on_admin (λ a, a <| akAdmin := Some new_admin |>) ;;
  publish (AdminChanged new_admin caller).

Definition require_admin (caller : Address) : M HState AdminError unit :=
  current ← gets get_admin;
  admin ← ok_or current AE_Unauthorized;
  reject_if (bool_decide (admin ≠ caller)) AE_Unauthorized.

Definition grant_role (caller : Address) (role : Symbol) (account : Address) : M HState AdminError unit :=
  require_admin caller ;;
  on_admin (λ a, a <| akRole := <[(role, account) := true]> (akRole a) |>) ;;
  publish (RoleGranted caller role account).

Definition revoke_role (caller : Address) (role : Symbol) (account : Address) : M HState AdminError unit :=
  require_admin caller ;;
  on_admin (λ a, a <| akRole := delete (role, account) (akRole a) |>) ;;
  publish (RoleRevoked caller role account).

Definition has_role (s : HState) (role : Symbol) (account : Address) : bool :=
  default false (akRole (hs_admin s) !! (role, account)).

Definition require_role_or_admin (caller : Address) (required_role : Symbol) : M HState AdminError unit :=
  allowed ← gets (λ s, bool_decide (get_admin s = Some caller) || has_role s required_role caller);
  reject_if (negb allowed) AE_Unauthorized.

(** ** risk_params.rs *)

Definition MIN_COLLATERAL_RATIO_MIN : Z := 10000.
Definition MIN_COLLATERAL_RATIO_MAX : Z := 50000.
Definition LIQUIDATION_THRESHOLD_MIN : Z := 10000.
Definition LIQUIDATION_THRESHOLD_MAX : Z := 50000.
Definition CLOSE_FACTOR_MIN : Z := 0.
Definition CLOSE_FACTOR_MAX : Z := BASIS_POINTS_SCALE.
Definition LIQUIDATION_INCENTIVE_MIN : Z := 0.
Definition LIQUIDATION_INCENTIVE_MAX : Z := 5000.
Definition MAX_PARAMETER_CHANGE_BPS : Z := 1000.

Abbreviation RPM := (M HState RiskParamsError) (only parsing).

Definition get_risk_params (s : HState) : option RiskParams := rkRiskParamsConfig (hs_risk s).

Definition validate_risk_params (c : RiskParams) : RPM unit :=
  reject_if ((rp_min_collateral_ratio c <? MIN_COLLATERAL_RATIO_MIN)
             || (MIN_COLLATERAL_RATIO_MAX <? rp_min_collateral_ratio c)) RP_InvalidParameter ;;
  reject_if ((rp_liquidation_threshold c <? LIQUIDATION_THRESHOLD_MIN)
             || (LIQUIDATION_THRESHOLD_MAX <? rp_liquidation_threshold c)) RP_InvalidLiquidationThreshold ;;
  reject_if (rp_min_collateral_ratio c <? rp_liquidation_threshold c) RP_InvalidCollateralRatio ;;
  reject_if ((rp_close_factor c <? CLOSE_FACTOR_MIN) || (CLOSE_FACTOR_MAX <? rp_close_factor c))
    RP_InvalidCloseFactor ;;
  reject_if ((rp_liquidation_incentive c <? LIQUIDATION_INCENTIVE_MIN)
             || (LIQUIDATION_INCENTIVE_MAX <? rp_liquidation_incentive c)) RP_InvalidLiquidationIncentive.

Definition set_config (c : RiskParams) : RPM unit := on_risk (λ r, r <| rkRiskParamsConfig := Some c |>).

Definition initialize_risk_params : RPM unit :=
  now ← ask timestamp;
  let default_config := mkRiskParams 11000 10500 5000 1000 now in
  validate_risk_params default_config ;;
  set_config default_config.

Definition validate_parameter_change (old_value new_value : Z) : RPM unit :=
  change ← unwrap (if old_value <? new_value then checked_sub new_value old_value
                   else checked_sub old_value new_value);
  scaled ← unwrap (checked_mul old_value MAX_PARAMETER_CHANGE_BPS);
  max_change ← unwrap (checked_div scaled BASIS_POINTS_SCALE);
  reject_if (max_change <? change) RP_ParameterChangeTooLarge.

(** [if let Some(x) = new { validate_parameter_change(config.field, x)?; config.field = x; }] *)
Definition change_param (new : option Z) (field : RiskParams → Z) (put : Z → RiskParams → RiskParams)
    (config : RiskParams) : RPM RiskParams :=
  match new with
  | Some x => validate_parameter_change (field config) x ;; mret (put x config)
  | None => mret config
  end.

Definition set_risk_params (min_collateral_ratio liquidation_threshold close_factor
    liquidation_incentive : option Z) : RPM unit :=
  stored ← gets get_risk_params;
  config ← ok_or stored RP_InvalidParameter;
  config ← change_param min_collateral_ratio rp_min_collateral_ratio
             (λ x c, c <| rp_min_collateral_ratio := x |>) config;
  config ← change_param liquidation_threshold rp_liquidation_threshold
             (λ x c, c <| rp_liquidation_threshold := x |>) config;
  config ← change_param close_factor rp_close_factor (λ x c, c <| rp_close_factor := x |>) config;
  config ← change_param liquidation_incentive rp_liquidation_incentive
             (λ x c, c <| rp_liquidation_incentive := x |>) config;
  validate_risk_params config ;;
  now ← ask timestamp;
  let config := config <| rp_last_update := now |> in
  set_config config ;;
  publish (RiskParamsUpdated config).

(** [(value * share).checked_div(BASIS_POINTS_SCALE)] *)
Definition share_of (value share : Z) : RPM Z :=
  product ← unwrap (checked_mul value share);
  ok_or (checked_div product BASIS_POINTS_SCALE) RP_InvalidParameter.

Definition the_risk_params : RPM RiskParams :=
  stored ← gets get_risk_params; ok_or stored RP_InvalidParameter.

Definition get_max_liquidatable_amount (debt_value : Z) : RPM Z :=
  config ← the_risk_params;
  share_of debt_value (rp_close_factor config).

Definition get_liquidation_incentive_amount (liquidated_amount : Z) : RPM Z :=
  config ← the_risk_params;
  share_of liquidated_amount (rp_liquidation_incentive config).

(** [(collateral_value * BASIS_POINTS_SCALE).checked_div(debt_value)] *)
Definition collateral_ratio (collateral_value debt_value : Z) : RPM Z :=
  scaled ← unwrap (checked_mul collateral_value BASIS_POINTS_SCALE);
  ok_or (checked_div scaled debt_value) RP_InvalidParameter.

Definition require_min_collateral_ratio (collateral_value debt_value : Z) : RPM unit :=
  config ← the_risk_params;
  if debt_value =? 0 then mret tt
  else
    ratio ← collateral_ratio collateral_value debt_value;
    reject_if (ratio <? rp_min_collateral_ratio config) RP_InvalidCollateralRatio.

Definition can_be_liquidated (collateral_value debt_value : Z) : RPM bool :=
  config ← the_risk_params;
  if debt_value =? 0 then mret false
  else
    ratio ← collateral_ratio collateral_value debt_value;
    mret (ratio <? rp_liquidation_threshold config).

(** ** risk_management.rs *)

Abbreviation RMM := (M HState RiskManagementError) (only parsing).

Definition create_default_pause_switches : gmap Symbol bool :=
  list_to_map [("pause_deposit", false); ("pause_withdraw", false); ("pause_borrow", false);
               ("pause_repay", false); ("pause_liquidate", false); ("pause_flash_loan", false);
               ("pause_bridge_acceptance", false)]%string.

Definition initialize_risk_management (admin : Address) : RMM unit :=
  stored ← gets (λ s, rkRiskConfig (hs_risk s));
  if bool_decide (stored ≠ None) then mret tt
  else
    on_admin (λ a, a <| akAdmin := Some admin |>) ;;
    now ← ask timestamp;
    params ← gets get_risk_params;
    let p := default (mkRiskParams 11000 10500 5000 1000 now) params in
    on_risk (λ r, r <| rkRiskConfig := Some (mkRiskConfig create_default_pause_switches
                        (rp_min_collateral_ratio p) (rp_liquidation_threshold p) (rp_close_factor p)
                        (rp_liquidation_incentive p) now) |>
                    <| rkEmergencyPause := Some false |>) ;;
    publish (AdminActionEvent admin "initialize" now).

Definition rm_require_admin (caller : Address) : RMM unit :=
  map_err (λ _, RM_Unauthorized) (require_admin caller).

(** [get_risk_config]: the stored switches with the current parameters. *)
Definition get_risk_config (s : HState) : option RiskConfig :=
  match rkRiskConfig (hs_risk s) with
  | None => None
  | Some config =>
      Some match get_risk_params s with
           | Some p => mkRiskConfig (rc_pause_switches config) (rp_min_collateral_ratio p)
                         (rp_liquidation_threshold p) (rp_close_factor p) (rp_liquidation_incentive p)
                         (rp_last_update p)
           | None => config
           end
  end.

(** The switches are a map; [switches] lists its entries in the host's order. *)
Definition set_pause_switches (caller : Address) (switches : list (Symbol * bool)) : RMM unit :=
  rm_require_admin caller ;;
  stored ← gets get_risk_config;
  config ← ok_or stored RM_InvalidParameter;
  now ← ask timestamp;
  on_risk (λ r, r <| rkRiskConfig :=
      Some (config <| rc_pause_switches :=
                        foldl (λ m '(op, paused), <[op := paused]> m) (rc_pause_switches config) switches |>
                   <| rc_last_update := now |>) |>) ;;
  for_each switches (λ '(op, paused), publish (PauseStateChanged caller op paused now)).

Definition set_pause_switch (caller : Address) (operation : Symbol) (paused : bool) : RMM unit :=
  rm_require_admin caller ;;
  stored ← gets get_risk_config;
  config ← ok_or stored RM_InvalidParameter;
  now ← ask timestamp;
  on_risk (λ r, r <| rkRiskConfig :=
      Some (config <| rc_pause_switches := <[operation := paused]> (rc_pause_switches config) |>
                   <| rc_last_update := now |>) |>) ;;
  publish (PauseStateChanged caller operation paused now).

Definition is_operation_paused (s : HState) (operation : Symbol) : bool :=
  match get_risk_config s with
  | Some config => default false (rc_pause_switches config !! operation)
  | None => false
  end.

Definition is_emergency_paused (s : HState) : bool := default false (rkEmergencyPause (hs_risk s)).

Definition require_operation_not_paused (operation : Symbol) : RMM unit :=
  paused ← gets (λ s, is_operation_paused s operation);
  reject_if paused RM_OperationPaused.

Definition check_operation_paused (s : HState) (operation : Symbol) : bool :=
  is_emergency_paused s || is_operation_paused s operation.

Definition set_emergency_pause (caller : Address) (paused : bool) : RMM unit :=
  rm_require_admin caller ;;
  on_risk (λ r, r <| rkEmergencyPause := Some paused |>) ;;
  now ← ask timestamp;
  publish (PauseStateChanged caller "emergency" paused now).

Definition check_emergency_pause : RMM unit :=
  paused ← gets is_emergency_paused;
  reject_if paused RM_EmergencyPaused.

(** ** interest_rate.rs *)

Definition INDEX_SCALE : Z := 1000000000000.
Definition SECONDS_PER_YEAR : Z := 31536000.

Abbreviation IRM := (M HState InterestRateError) (only parsing).

Definition get_default_config : InterestRateConfig := mkInterestRateConfig 100 8000 2000 10000 50 10000 200 0 0.

Definition get_interest_rate_config (s : HState) : option InterestRateConfig := ikInterestRateConfig (hs_rate s).

Definition set_rate_config (c : InterestRateConfig) : IRM unit :=
  on_rate (λ r, r <| ikInterestRateConfig := Some c |>).

Definition initialize_interest_rate_config (admin : Address) : IRM unit :=
  stored ← gets get_interest_rate_config;
  reject_if (bool_decide (stored ≠ None)) IR_AlreadyInitialized ;;
  set_rate_config get_default_config.

Definition calculate_utilization : IRM Z :=
  stored ← gets (λ s, dkProtocolAnalytics (hs_rate s));
  let analytics := default (mkProtocolAnalytics 0 0 0) stored in
  if pa_total_deposits analytics =? 0 then mret 0
  else
    scaled ← ok_or (checked_mul (pa_total_borrows analytics) BASIS_POINTS_SCALE) IR_Overflow;
    utilization ← ok_or (checked_div scaled (pa_total_deposits analytics)) IR_DivisionByZero;
    mret (Z.min utilization BASIS_POINTS_SCALE).

(** The kinked curve before the adjustment and the limits. *)
Definition raw_borrow_rate (config : InterestRateConfig) (utilization : Z) : IRM Z :=
  if utilization <=? ir_kink_utilization_bps config then
    if 0 <? ir_kink_utilization_bps config then
      p ← ok_or (checked_mul utilization (ir_multiplier_bps config)) IR_Overflow;
      increase ← ok_or (checked_div p (ir_kink_utilization_bps config)) IR_DivisionByZero;
      ok_or (checked_add (ir_base_rate_bps config) increase) IR_Overflow
    else mret (ir_base_rate_bps config)
  else
    rate_at_kink ← ok_or (checked_add (ir_base_rate_bps config) (ir_multiplier_bps config)) IR_Overflow;
    above ← ok_or (checked_sub utilization (ir_kink_utilization_bps config)) IR_Overflow;
    max_above ← ok_or (checked_sub BASIS_POINTS_SCALE (ir_kink_utilization_bps config)) IR_Overflow;
    if 0 <? max_above then
      p ← ok_or (checked_mul above (ir_jump_multiplier_bps config)) IR_Overflow;
      additional ← ok_or (checked_div p max_above) IR_DivisionByZero;
      ok_or (checked_add rate_at_kink additional) IR_Overflow
    else mret rate_at_kink.

Definition calculate_borrow_rate : IRM Z :=
  stored ← gets get_interest_rate_config;
  config ← ok_or stored IR_InvalidParameter;
  utilization ← calculate_utilization;
  rate ← raw_borrow_rate config utilization;
  rate ← ok_or (checked_add rate (ir_emergency_adjustment_bps config)) IR_Overflow;
  mret (Z.min (Z.max rate (ir_rate_floor_bps config)) (ir_rate_ceiling_bps config)).

Definition calculate_supply_rate : IRM Z :=
  stored ← gets get_interest_rate_config;
  config ← ok_or stored IR_InvalidParameter;
  borrow_rate ← calculate_borrow_rate;
  supply_rate ← ok_or (checked_sub borrow_rate (ir_spread_bps config)) IR_Overflow;
  mret (Z.max supply_rate (ir_rate_floor_bps config)).

(** [BASIS_POINTS_SCALE.checked_mul(SECONDS_PER_YEAR)] *)
Definition year_in_bps : IRM Z := ok_or (checked_mul BASIS_POINTS_SCALE SECONDS_PER_YEAR) IR_Overflow.

Definition calculate_accrued_interest (principal last_accrual_time current_time rate_bps : Z) : IRM Z :=
  if principal =? 0 then mret 0
  else if current_time <=? last_accrual_time then mret 0
  else
    time_elapsed ← ok_or (u64_checked_sub current_time last_accrual_time) IR_Overflow;
    denominator ← year_in_bps;
    numerator ← ok_or (checked_mul principal rate_bps) IR_Overflow;
    numerator ← ok_or (checked_mul numerator time_elapsed) IR_Overflow;
    ok_or (checked_div numerator denominator) IR_DivisionByZero.

(** [if let Some(x) = new { if bad { return Err(InvalidParameter); } config.field = x; }] *)
Definition update_rate (new : option Z) (bad : InterestRateConfig → Z → bool)
    (put : Z → InterestRateConfig → InterestRateConfig) (config : InterestRateConfig) : IRM InterestRateConfig :=
  match new with
  | Some x => reject_if (bad config x) IR_InvalidParameter ;; mret (put x config)
  | None => mret config
  end.

Definition outside_scale (x : Z) : bool := negb (in_range 0 BASIS_POINTS_SCALE x).

Definition update_interest_rate_config (caller : Address) (params : InterestRateParams) : IRM unit :=
  map_err (λ _, IR_Unauthorized) (require_admin caller) ;;
  stored ← gets get_interest_rate_config;
  config ← ok_or stored IR_InvalidParameter;
  config ← update_rate (ip_base_rate_bps params) (λ _ x, outside_scale x)
             (λ x c, c <| ir_base_rate_bps := x |>) config;
  config ← update_rate (ip_kink_utilization_bps params) (λ _ x, (x <=? 0) || (BASIS_POINTS_SCALE <=? x))
             (λ x c, c <| ir_kink_utilization_bps := x |>) config;
  config ← update_rate (ip_multiplier_bps params) (λ _ x, x <? 0)
             (λ x c, c <| ir_multiplier_bps := x |>) config;
  config ← update_rate (ip_jump_multiplier_bps params) (λ _ x, x <? 0)
             (λ x c, c <| ir_jump_multiplier_bps := x |>) config;
  config ← update_rate (ip_rate_floor_bps params) (λ c x, outside_scale x || (ir_rate_ceiling_bps c <? x))
             (λ x c, c <| ir_rate_floor_bps := x |>) config;
  config ← update_rate (ip_rate_ceiling_bps params) (λ c x, outside_scale x || (x <? ir_rate_floor_bps c))
             (λ x c, c <| ir_rate_ceiling_bps := x |>) config;
  config ← update_rate (ip_spread_bps params) (λ _ x, outside_scale x)
             (λ x c, c <| ir_spread_bps := x |>) config;
  now ← ask timestamp;
  set_rate_config (config <| ir_last_update := now |>).

Definition set_emergency_rate_adjustment (caller : Address) (adjustment_bps : Z) : IRM unit :=
  map_err (λ _, IR_Unauthorized) (require_admin caller) ;;
  magnitude ← unwrap (fit in_i128 (Z.abs adjustment_bps));
  reject_if (BASIS_POINTS_SCALE <? magnitude) IR_InvalidParameter ;;
  stored ← gets get_interest_rate_config;
  config ← ok_or stored IR_InvalidParameter;
  now ← ask timestamp;
  set_rate_config (config <| ir_emergency_adjustment_bps := adjustment_bps |> <| ir_last_update := now |>).

Definition get_lending_index (env : Env) (s : HState) : LendingIndex :=
  default (mkLendingIndex INDEX_SCALE INDEX_SCALE (timestamp env)) (ikLendingIndex (hs_rate s)).

(** [f(env).unwrap_or(0)] *)
Definition or_zero (m : IRM Z) : IRM Z :=
  r ← attempt m; mret match r with inr rate => rate | inl _ => 0 end.

(** [index * rate * time_elapsed / denom], which an index grows by *)
Definition index_growth (index rate time_elapsed denom : Z) : IRM Z :=
  p ← ok_or (checked_mul index rate) IR_Overflow;
  p ← ok_or (checked_mul p time_elapsed) IR_Overflow;
  mret (default 0 (checked_div p denom)).

Definition update_lending_index : IRM LendingIndex :=
  idx ← reads get_lending_index;
  current_time ← ask timestamp;
  if current_time <=? li_last_update idx then mret idx
  else
    time_elapsed ← unwrap (u64_checked_sub current_time (li_last_update idx));
    borrow_rate ← or_zero calculate_borrow_rate;
    supply_rate ← or_zero calculate_supply_rate;
    denom ← year_in_bps;
    borrow_growth ← index_growth (li_borrow_index idx) borrow_rate time_elapsed denom;
    supply_growth ← index_growth (li_supply_index idx) supply_rate time_elapsed denom;
    borrow_index ← ok_or (checked_add (li_borrow_index idx) borrow_growth) IR_Overflow;
    supply_index ← ok_or (checked_add (li_supply_index idx) supply_growth) IR_Overflow;
    let idx := mkLendingIndex borrow_index supply_index current_time in
    on_rate (λ r, r <| ikLendingIndex := Some idx |>) ;;
    mret idx.

Definition compute_index_interest (principal user_index current_index : Z) : IRM Z :=
  if (principal =? 0) || (user_index =? 0) || (current_index <=? user_index) then mret 0
  else
    delta ← ok_or (checked_sub current_index user_index) IR_Overflow;
    p ← ok_or (checked_mul principal delta) IR_Overflow;
    ok_or (checked_div p user_index) IR_DivisionByZero.

(** ** lib.rs

    The entry points over these modules; [RiskManagementError] stands for the
    [LendingError] lib.rs turns it into. *)

Definition initialize (admin : Address) : RMM unit :=
  set ← gets has_admin;
  reject_if set RM_Unauthorized ;;
  map_err (λ _, RM_Unauthorized) (set_admin admin None) ;;
  initialize_risk_management admin ;;
  map_err (λ _, RM_InvalidParameter) initialize_risk_params ;;
  map_err (λ e, match e with IR_AlreadyInitialized => RM_AlreadyInitialized | _ => RM_Unauthorized end)
    (initialize_interest_rate_config admin).

Definition transfer_admin (caller new_admin : Address) : M HState AdminError unit :=
  set_admin new_admin (Some caller).

Definition set_risk_params_entry (caller : Address) (mcr lt cf li : option Z) : RMM unit :=
  rm_require_admin caller ;;
  map_err (λ _, RM_InvalidParameter) (set_risk_params mcr lt cf li).

Definition set_emergency_pause_entry (caller : Address) (paused : bool) : RMM unit :=
  rm_require_admin caller ;;
  set_emergency_pause caller paused.
