(* ===== verification/Governance.v ===== *)
(** * Governance: proposals, votes, delegation, multisig and recovery

    hello-world/src/governance.rs with the wrappers of multisig.rs, and
    timelock.rs, which queues the same kinds of change without a vote.  One
    definition per function; the call type at the end lists the entry points
    through which lib.rs exposes them, and the dispatch of an invocation. *)

From S2P Require Import Prelude.
From S2P Require Import Host.
From S2P Require Import HelloTypes.
From S2P Require Import HelloParams.

Definition MAX_DESCRIPTION_LEN : Z := 256.

Abbreviation GM := (M HState GovernanceError) (only parsing).

(** A part of the storage that governance keeps. *)
Definition gov {A} (f : GovStore → A) : GM A := gets (λ s, f (hs_gov s)).
Definition the_config : GM GovernanceConfig := stored ← gov gkConfig; ok_or stored GE_NotInitialized.
Definition the_admin : GM Address := stored ← gov gkAdmin; ok_or stored GE_NotInitialized.
Definition the_proposal (id : Z) : GM Proposal :=
  stored ← gov (λ g, gkProposal g !! id); ok_or stored GE_ProposalNotFound.
Definition the_multisig_config : GM MultisigConfig := stored ← gov gkMultisigConfig; ok_or stored GE_NotInitialized.
Definition set_proposal (id : Z) (p : Proposal) : GM unit :=
  on_gov (λ g, g <| gkProposal := <[id := p]> (gkProposal g) |>).
(** [TokenClient::new(env, token).balance(account)] *)
Definition balance_of (token account : Address) : GM Z :=
  b ← ask (λ env, token_balance env token account); unwrap b.
(** [a + b] on [i128] and on [u64] *)
Definition plus (a b : Z) : GM Z := unwrap (checked_add a b).
Definition plus_time (a b : Z) : GM Z := unwrap (u64_checked_add a b).

(** ** Initialisation *)

Definition gov_initialize (admin vote_token : Address) (voting_period execution_delay quorum_bps
    proposal_threshold timelock_duration default_voting_threshold : option Z) : GM unit :=
  stored ← gov gkAdmin;
  reject_if (bool_decide (stored ≠ None)) GE_AlreadyInitialized ;;
  require_auth admin ;;
  let config := mkGovernanceConfig
    (default DEFAULT_VOTING_PERIOD voting_period) (default DEFAULT_EXECUTION_DELAY execution_delay)
    (default DEFAULT_QUORUM_BPS quorum_bps) (default 0 proposal_threshold) vote_token
    (default DEFAULT_TIMELOCK_DURATION timelock_duration)
    (default DEFAULT_VOTING_THRESHOLD default_voting_threshold) in
  reject_if (10000 <? gc_quorum_bps config) GE_InvalidQuorum ;;
  reject_if (gc_voting_period config =? 0) GE_InvalidVotingPeriod ;;
  on_gov (λ g, g <| gkAdmin := Some admin |> <| gkConfig := Some config |> <| gkNextProposalId := Some 0 |>
                 <| gkMultisigConfig := Some (mkMultisigConfig [admin] 1) |>
                 <| gkGuardianConfig := Some (mkGuardianConfig [] 1) |>) ;;
  now ← ask timestamp;
  publish (GovernanceInitialized admin vote_token (gc_voting_period config) (gc_quorum_bps config) now).

(** ** Proposals *)

Definition check_description (description : string) : GM unit :=
  reject_if (MAX_DESCRIPTION_LEN <? Z.of_nat (String.length description)) GE_InputTooLong.

(** Reads the next identifier, and writes its successor. *)
Definition next_proposal_id : GM Z := gov (λ g, default 0 (gkNextProposalId g)).
Definition advance_proposal_id (id : Z) : GM unit :=
  next ← plus_time id 1; on_gov (λ g, g <| gkNextProposalId := Some next |>).

Definition create_proposal (proposer : Address) (proposal_type : ProposalType) (description : string)
    (voting_threshold : option Z) : GM Z :=
  require_auth proposer ;;
  check_description description ;;
  config ← the_config;
  when (0 <? gc_proposal_threshold config)
    (balance ← balance_of (gc_vote_token config) proposer;
     reject_if (balance <? gc_proposal_threshold config) GE_InsufficientProposalPower) ;;
  next_id ← next_proposal_id;
  now ← ask timestamp;
  end_time ← plus_time now (gc_voting_period config);
  set_proposal next_id (mkProposal next_id proposer proposal_type description Pending now end_time None
    (default (gc_default_voting_threshold config) voting_threshold) 0 0 0 0 now) ;;
  on_gov (λ g, g <| gkUserProposals := <[(proposer, next_id) := true]> (gkUserProposals g) |>
                 <| gkProposalApprovals := <[next_id := []]> (gkProposalApprovals g) |>) ;;
  advance_proposal_id next_id ;;
  publish (ProposalCreated next_id proposer proposal_type description now end_time now) ;;
  mret next_id.

Definition create_admin_proposal (admin : Address) (proposal_type : ProposalType) (description : string) : GM Z :=
  require_auth admin ;;
  check_description description ;;
  stored_admin ← the_admin;
  reject_if (bool_decide (admin ≠ stored_admin)) GE_Unauthorized ;;
  config ← the_config;
  now ← ask timestamp;
  proposal_id ← next_proposal_id;
  execution_time ← plus_time now (Z.max (gc_execution_delay config) MIN_TIMELOCK_DELAY);
  set_proposal proposal_id (mkProposal proposal_id admin proposal_type description Queued now now
    (Some execution_time) 0 0 0 0 0 now) ;;
  advance_proposal_id proposal_id ;;
  publish (ProposalCreatedTopic proposal_id admin) ;;
  publish (ProposalQueuedTopic proposal_id execution_time) ;;
  mret proposal_id.

Definition require_multisig_admin (caller : Address) : GM MultisigConfig :=
  config ← the_multisig_config;
  reject_if (bool_decide (caller ∉ mc_admins config)) GE_Unauthorized ;;
  mret config.

Definition create_emergency_proposal (caller : Address) (proposal_type : ProposalType)
    (description : string) : GM Z :=
  require_auth caller ;;
  check_description description ;;
  require_multisig_admin caller ;;
  now ← ask timestamp;
  proposal_id ← next_proposal_id;
  set_proposal proposal_id (mkProposal proposal_id caller proposal_type description Queued now now
    (Some now) 0 0 0 0 0 now) ;;
  advance_proposal_id proposal_id ;;
  publish (ProposalCreatedTopic proposal_id caller) ;;
  mret proposal_id.

(** ** Voting *)

Definition take_vote_power_snapshot (proposal_id : Z) (voter vote_token : Address) : GM unit :=
  balance ← balance_of vote_token voter;
  now ← ask timestamp;
  on_gov (λ g, g <| gkVotePowerSnapshot := <[(proposal_id, voter) :=
    mkVotePowerSnapshot proposal_id voter balance now]> (gkVotePowerSnapshot g) |>) ;;
  publish (VotePowerSnapshotTaken proposal_id voter balance now).

Definition get_snapshotted_vote_power (proposal_id : Z) (voter vote_token : Address) : GM Z :=
  stored ← gov (λ g, gkVotePowerSnapshot g !! (proposal_id, voter));
  match stored with
  | Some snapshot => mret (vs_balance snapshot)
  | None => balance_of vote_token voter
  end.

(** The entry under [DelegationRecord(a)] read as a record, or as the list of
    delegators: reading an entry at the wrong type traps. *)
Definition read_record (a : Address) : GM (option DelegationRecord) :=
  stored ← gov (λ g, gkDelegationRecord g !! a);
  match stored with
  | Some (IsRecord r) => mret (Some r)
  | Some (IsDelegators _) => trap
  | None => mret None
  end.
Definition read_delegators (a : Address) : GM (list Address) :=
  stored ← gov (λ g, gkDelegationRecord g !! a);
  match stored with
  | Some (IsDelegators l) => mret l
  | Some (IsRecord _) => trap
  | None => mret []
  end.

(** The loop over the delegators. *)
Fixpoint sum_delegated (proposal_id : Z) (delegatee : Address) (deadline : Z) (delegators : list Address)
    (total : Z) : GM Z :=
  match delegators with
  | [] => mret total
  | delegator :: rest =>
      record ← read_record delegator;
      snap ← gov (λ g, gkVotePowerSnapshot g !! (proposal_id, delegator));
      total ← match record, snap with
              | Some r, Some x =>
                  if bool_decide (dr_delegatee r = delegatee) && (dr_delegated_at r <=? deadline)
                  then plus total (vs_balance x) else mret total
              | _, _ => mret total
              end;
      sum_delegated proposal_id delegatee deadline rest total
  end.

Definition get_delegated_power_for_voter (proposal_id : Z) (delegatee : Address) (proposal : Proposal) : GM Z :=
  delegators ← read_delegators delegatee;
  let deadline := u64_saturating_sub (pp_created_at proposal) DELEGATION_DEADLINE in
  sum_delegated proposal_id delegatee deadline delegators 0.

Definition get_vote_power_with_delegation (proposal_id : Z) (voter vote_token : Address) : GM Z :=
  proposal ← the_proposal proposal_id;
  own_power ← get_snapshotted_vote_power proposal_id voter vote_token;
  delegated_extra ← get_delegated_power_for_voter proposal_id voter proposal;
  plus own_power delegated_extra.

(** [proposal.for_votes += power], by the type of the vote *)
Definition count_vote (proposal : Proposal) (vote_type : VoteType) (power : Z) : GM Proposal :=
  match vote_type with
  | VoteFor => x ← plus (pp_for_votes proposal) power; mret (proposal <| pp_for_votes := x |>)
  | VoteAgainst => x ← plus (pp_against_votes proposal) power; mret (proposal <| pp_against_votes := x |>)
  | VoteAbstain => x ← plus (pp_abstain_votes proposal) power; mret (proposal <| pp_abstain_votes := x |>)
  end.

(** The power computed from snapshots and delegations is shadowed by the
    voter's balance, as in the code. *)
Definition vote (voter : Address) (proposal_id : Z) (vote_type : VoteType) : GM unit :=
  require_auth voter ;;
  config ← the_config;
  proposal ← the_proposal proposal_id;
  now ← ask timestamp;
  let proposal := if bool_decide (pp_status proposal = Pending) && (pp_start_time proposal <=? now)
                  then proposal <| pp_status := Active |> else proposal in
  reject_if (bool_decide (pp_status proposal ≠ Active)) GE_ProposalNotActive ;;
  seen ← gov (λ g, gkVote g !! (proposal_id, voter));
  reject_if (bool_decide (seen ≠ None)) GE_AlreadyVoted ;;
  _ ← get_vote_power_with_delegation proposal_id voter (gc_vote_token config);
  voting_power ← balance_of (gc_vote_token config) voter;
  reject_if (voting_power =? 0) GE_NoVotingPower ;;
  proposal ← count_vote proposal vote_type voting_power;
  total ← plus (pp_total_voting_power proposal) voting_power;
  set_proposal proposal_id (proposal <| pp_total_voting_power := total |>) ;;
  on_gov (λ g, g <| gkVote := <[(proposal_id, voter) :=
    mkVoteInfo voter proposal_id vote_type voting_power now]> (gkVote g) |>) ;;
  publish (VoteCast proposal_id voter vote_type voting_power now).

(** ** The verdict *)

(** What [queue_proposal] and [compute_simulation] compute from the tallies. *)
Record Verdict : Type := mkVerdict {
  vd_quorum_required : Z;
  vd_quorum_reached : bool;
  vd_threshold_votes : Z;
  vd_threshold_met : bool;
}.
Definition succeeded (v : Verdict) : bool := vd_quorum_reached v && vd_threshold_met v.

Definition verdict (proposal : Proposal) (config : GovernanceConfig) : GM Verdict :=
  total ← plus (pp_for_votes proposal) (pp_against_votes proposal);
  total_votes ← plus total (pp_abstain_votes proposal);
  weighted ← unwrap (checked_mul total_votes (gc_quorum_bps config));
  quorum_required ← unwrap (checked_div weighted BASIS_POINTS_SCALE);
  weighted ← unwrap (checked_mul (pp_total_voting_power proposal) (pp_voting_threshold proposal));
  threshold_votes ← unwrap (checked_div weighted BASIS_POINTS_SCALE);
  mret (mkVerdict quorum_required (quorum_required <=? total_votes)
          threshold_votes (threshold_votes <=? pp_for_votes proposal)).

Definition can_be_queued (st : ProposalStatus) : bool :=
  match st with Executed | Cancelled | Expired | Queued => false | _ => true end.

Definition queue_proposal (caller : Address) (proposal_id : Z) : GM ProposalOutcome :=
  require_auth caller ;;
  config ← the_config;
  proposal ← the_proposal proposal_id;
  now ← ask timestamp;
  reject_if (now <=? pp_end_time proposal) GE_VotingNotEnded ;;
  reject_if (negb (can_be_queued (pp_status proposal))) GE_InvalidProposalStatus ;;
  limit ← plus_time (pp_end_time proposal) DEFAULT_TIMELOCK_DURATION;
  when (limit <? now)
    (set_proposal proposal_id (proposal <| pp_status := Expired |>) ;; fail GE_ProposalExpired) ;;
  v ← verdict proposal config;
  (if succeeded v then
    execution_time ← plus_time now (gc_execution_delay config);
    set_proposal proposal_id (proposal <| pp_execution_time := Some execution_time |>
                                       <| pp_status := Queued |>) ;;
    publish (ProposalQueued proposal_id execution_time (pp_for_votes proposal) (pp_against_votes proposal)
               (vd_quorum_reached v) (succeeded v && vd_quorum_reached v))
  else
    set_proposal proposal_id (proposal <| pp_status := Defeated |>) ;;
    publish (ProposalFailed proposal_id (pp_for_votes proposal) (pp_against_votes proposal)
               (vd_quorum_reached v) (negb (succeeded v) && vd_quorum_reached v))) ;;
  mret (mkProposalOutcome proposal_id (succeeded v) (pp_for_votes proposal) (pp_against_votes proposal)
          (pp_abstain_votes proposal) (vd_quorum_reached v) (vd_quorum_required v)).

Definition compute_simulation (proposal : Proposal) (config : GovernanceConfig) : GM ProposalSimulationResult :=
  now ← ask timestamp;
  v ← verdict proposal config;
  mret (mkProposalSimulationResult (pp_id proposal) now (succeeded v) (vd_quorum_required v)
    (vd_quorum_reached v) (vd_threshold_votes v) (vd_threshold_met v) (pp_for_votes proposal)
    (pp_against_votes proposal) (pp_abstain_votes proposal) (pp_total_voting_power proposal)
    (if succeeded v then "simulation: would succeed with current votes"
     else "simulation: would fail with current votes")).

Definition simulate_proposal (proposal_id : Z) : GM ProposalSimulationResult :=
  config ← the_config;
  proposal ← the_proposal proposal_id;
  result ← compute_simulation proposal config;
  on_gov (λ g, g <| gkProposalSimulationCache := <[proposal_id := result]> (gkProposalSimulationCache g) |>) ;;
  mret result.

Definition get_governance_analytics (s : HState) : GovernanceAnalytics :=
  default (mkGovernanceAnalytics 0 0 0 0 0) (gkGovernanceAnalytics (hs_gov s)).

Definition get_parameter_optimization_recommendation : GM ParameterOptimizationRecommendation :=
  cached ← gov gkParameterOptimizationCache;
  match cached with
  | Some c => mret c
  | None =>
      config ← the_config;
      analytics ← gets get_governance_analytics;
      let votes_per_proposal :=
        if ga_total_proposals analytics =? 0 then 0 else ga_total_votes analytics / ga_total_proposals analytics in
      let suspicious := 0 <? ga_suspicious_proposals analytics in
      let quorum := gc_quorum_bps config in
      let quorum := if (votes_per_proposal <? 10) && (2000 <? quorum) then Z.max 0 (quorum - 500) else quorum in
      let quorum := if suspicious then Z.min (u32_saturating_add quorum 250) 9000 else quorum in
      threshold ← (if suspicious then
                     x ← plus (gc_default_voting_threshold config) 250; mret (Z.min x BASIS_POINTS_SCALE)
                   else mret (gc_default_voting_threshold config));
      now ← ask timestamp;
      let recommendation := mkParameterOptimizationRecommendation now quorum threshold (gc_voting_period config)
        "recommendation derived from on-chain analytics; governance may override" in
      on_gov (λ g, g <| gkParameterOptimizationCache := Some recommendation |>) ;;
      mret recommendation
  end.

(** ** Execution *)

Definition execute_proposal_type (proposal_type : ProposalType) : GM unit :=
  match proposal_type with
  | MinCollateralRatio ratio =>
      map_err (λ _, GE_ExecutionFailed) (set_risk_params (Some ratio) None None None)
  | RiskParamsChange mcr lt cf li => map_err (λ _, GE_ExecutionFailed) (set_risk_params mcr lt cf li)
  | InterestRateConfigChange params =>
      admin ← the_admin; map_err (λ _, GE_ExecutionFailed) (update_interest_rate_config admin params)
  | PauseSwitch op paused =>
      admin ← the_admin; map_err (λ _, GE_ExecutionFailed) (set_pause_switch admin op paused)
  | EmergencyPause paused =>
      admin ← the_admin; map_err (λ _, GE_ExecutionFailed) (set_emergency_pause admin paused)
  | GenericAction _ => fail GE_InvalidProposalType
  end.

Definition execute_proposal (executor : Address) (proposal_id : Z) : GM unit :=
  require_auth executor ;;
  config ← the_config;
  proposal ← the_proposal proposal_id;
  now ← ask timestamp;
  reject_if (bool_decide (pp_status proposal ≠ Queued)) GE_NotQueued ;;
  execution_time ← ok_or (pp_execution_time proposal) GE_InvalidExecutionTime;
  reject_if (now <? execution_time) GE_ExecutionTooEarly ;;
  limit ← plus_time execution_time (gc_timelock_duration config);
  when (limit <? now)
    (set_proposal proposal_id (proposal <| pp_status := Expired |>) ;; fail GE_ProposalExpired) ;;
  execute_proposal_type (pp_proposal_type proposal) ;;
  set_proposal proposal_id (proposal <| pp_status := Executed |>) ;;
  publish (ProposalExecuted proposal_id executor now).

Definition cancel_proposal (caller : Address) (proposal_id : Z) : GM unit :=
  require_auth caller ;;
  admin ← the_admin;
  proposal ← the_proposal proposal_id;
  reject_if (bool_decide (caller ≠ pp_proposer proposal) && bool_decide (caller ≠ admin)) GE_Unauthorized ;;
  reject_if (bool_decide (pp_status proposal = Executed) || bool_decide (pp_status proposal = Queued))
    GE_InvalidProposalStatus ;;
  set_proposal proposal_id (proposal <| pp_status := Cancelled |>) ;;
  now ← ask timestamp;
  publish (ProposalCancelled proposal_id caller now).

(** ** Multisig *)

Definition approve_proposal (approver : Address) (proposal_id : Z) : GM unit :=
  require_auth approver ;;
  require_multisig_admin approver ;;
  stored ← gov (λ g, gkProposal g !! proposal_id);
  reject_if (bool_decide (stored = None)) GE_ProposalNotFound ;;
  approvals ← gov (λ g, default [] (gkProposalApprovals g !! proposal_id));
  reject_if (bool_decide (approver ∈ approvals)) GE_AlreadyVoted ;;
  on_gov (λ g, g <| gkProposalApprovals := <[proposal_id := approvals ++ [approver]]> (gkProposalApprovals g) |>) ;;
  now ← ask timestamp;
  publish (ProposalApproved proposal_id approver now).

Definition set_multisig_config (caller : Address) (admins : list Address) (threshold : Z) : GM unit :=
  require_auth caller ;;
  admin ← the_admin;
  reject_if (bool_decide (caller ≠ admin)) GE_Unauthorized ;;
  reject_if (bool_decide (admins = []) || (threshold =? 0) || (len admins <? threshold))
    GE_InvalidMultisigConfig ;;
  on_gov (λ g, g <| gkMultisigConfig := Some (mkMultisigConfig admins threshold) |>).

Definition set_multisig_admins (caller : Address) (admins : list Address) : GM unit :=
  config ← the_multisig_config; set_multisig_config caller admins (mc_threshold config).

Definition set_multisig_threshold (caller : Address) (threshold : Z) : GM unit :=
  config ← the_multisig_config; set_multisig_config caller (mc_admins config) threshold.

Definition propose_set_min_collateral_ratio (proposer : Address) (new_ratio : Z) : GM Z :=
  create_proposal proposer (MinCollateralRatio new_ratio) "Update min collateral ratio" None.

Definition execute_multisig_proposal (executor : Address) (proposal_id : Z) : GM unit :=
  require_auth executor ;;
  config ← require_multisig_admin executor;
  proposal ← the_proposal proposal_id;
  reject_if (bool_decide (pp_status proposal ≠ Pending)) GE_InvalidProposalStatus ;;
  approvals ← gov (λ g, default [] (gkProposalApprovals g !! proposal_id));
  reject_if (len approvals <? mc_threshold config) GE_InsufficientApprovals ;;
  execute_proposal_type (pp_proposal_type proposal) ;;
  set_proposal proposal_id (proposal <| pp_status := Executed |>) ;;
  publish (ProposalExecutedTopic proposal_id executor).

(** multisig.rs *)

Definition ms_set_admins (caller : Address) (admins : list Address) (threshold : Z) : GM unit :=
  reject_if (bool_decide (admins = []) || (threshold =? 0) || (len admins <? threshold))
    GE_InvalidMultisigConfig ;;
  reject_if (negb (bool_decide (NoDup admins))) GE_InvalidMultisigConfig ;;
  set_multisig_config caller admins threshold.

Definition ms_propose_set_min_cr (proposer : Address) (new_ratio : Z) : GM Z :=
  reject_if (new_ratio <=? 10000) GE_InvalidProposal ;;
  proposal_id ← create_proposal proposer (MinCollateralRatio new_ratio) "Adjust minimum collateral ratio" None;
  approve_proposal proposer proposal_id ;;
  mret proposal_id.

(** ** Guardians and recovery *)

Definition require_gov_admin (caller : Address) : GM unit :=
  require_auth caller ;;
  admin ← the_admin;
  reject_if (bool_decide (caller ≠ admin)) GE_Unauthorized.

Definition the_guardian_config : GM GuardianConfig := stored ← gov gkGuardianConfig; ok_or stored GE_GuardianNotFound.
Definition set_guardian_config (c : GuardianConfig) : GM unit := on_gov (λ g, g <| gkGuardianConfig := Some c |>).

Definition add_guardian (caller guardian : Address) : GM unit :=
  require_gov_admin caller ;;
  config ← gov (λ g, default (mkGuardianConfig [] 1) (gkGuardianConfig g));
  reject_if (bool_decide (guardian ∈ gu_guardians config)) GE_GuardianAlreadyExists ;;
  set_guardian_config (config <| gu_guardians := (gu_guardians config ++ [guardian]) |>) ;;
  now ← ask timestamp;
  publish (GuardianAdded guardian caller now).

Definition remove_guardian (caller guardian : Address) : GM unit :=
  require_gov_admin caller ;;
  config ← the_guardian_config;
  let new_guardians := filter (λ g, g ≠ guardian) (gu_guardians config) in
  reject_if (negb (bool_decide (guardian ∈ gu_guardians config))) GE_GuardianNotFound ;;
  set_guardian_config (mkGuardianConfig new_guardians (Z.min (gu_threshold config) (len new_guardians))) ;;
  now ← ask timestamp;
  publish (GuardianRemoved guardian caller now).

Definition set_guardian_threshold (caller : Address) (threshold : Z) : GM unit :=
  require_gov_admin caller ;;
  config ← the_guardian_config;
  reject_if ((threshold =? 0) || (len (gu_guardians config) <? threshold)) GE_InvalidGuardianConfig ;;
  set_guardian_config (config <| gu_threshold := threshold |>).

Definition start_recovery (initiator old_admin new_admin : Address) : GM unit :=
  require_auth initiator ;;
  config ← the_guardian_config;
  reject_if (bool_decide (initiator ∉ gu_guardians config)) GE_Unauthorized ;;
  stored ← gov gkRecoveryRequest;
  reject_if (bool_decide (stored ≠ None)) GE_RecoveryInProgress ;;
  now ← ask timestamp;
  expires_at ← plus_time now DEFAULT_RECOVERY_PERIOD;
  on_gov (λ g, g <| gkRecoveryRequest := Some (mkRecoveryRequest old_admin new_admin initiator now expires_at) |>
                 <| gkRecoveryApprovals := Some [initiator] |>) ;;
  publish (RecoveryStarted old_admin new_admin initiator expires_at now).

Definition approve_recovery (approver : Address) : GM unit :=
  require_auth approver ;;
  config ← the_guardian_config;
  reject_if (bool_decide (approver ∉ gu_guardians config)) GE_Unauthorized ;;
  stored ← gov gkRecoveryRequest;
  reject_if (bool_decide (stored = None)) GE_NoRecoveryInProgress ;;
  approvals ← gov (λ g, default [] (gkRecoveryApprovals g));
  reject_if (bool_decide (approver ∈ approvals)) GE_AlreadyVoted ;;
  on_gov (λ g, g <| gkRecoveryApprovals := Some (approvals ++ [approver]) |>) ;;
  now ← ask timestamp;
  publish (RecoveryApproved approver (len (approvals ++ [approver])) (gu_threshold config) now).

Definition execute_recovery (executor : Address) : GM unit :=
  require_auth executor ;;
  config ← the_guardian_config;
  stored ← gov gkRecoveryRequest;
  request ← ok_or stored GE_NoRecoveryInProgress;
  now ← ask timestamp;
  when (rr_expires_at request <? now)
    (on_gov (λ g, g <| gkRecoveryRequest := None |>) ;; fail GE_ProposalExpired) ;;
  approvals ← gov (λ g, default [] (gkRecoveryApprovals g));
  reject_if (len approvals <? gu_threshold config) GE_InsufficientApprovals ;;
  multisig ← the_multisig_config;
  let new_admins := filter (λ a, a ≠ rr_old_admin request) (mc_admins multisig) ++ [rr_new_admin request] in
  on_gov (λ g, g <| gkMultisigConfig := Some (multisig <| mc_admins := new_admins |>) |>
                 <| gkRecoveryRequest := None |> <| gkRecoveryApprovals := None |>) ;;
  publish (RecoveryExecuted (rr_old_admin request) (rr_new_admin request) executor now).

(** ** Delegation of votes *)

Definition is_vote_locked (env : Env) (s : HState) (voter : Address) : bool :=
  match gkVoteLock (hs_gov s) !! voter with
  | Some lock => timestamp env <? vl_locked_until lock
  | None => false
  end.

Definition get_delegation_depth (a : Address) : GM Z :=
  record ← read_record a;
  mret match record with Some r => dr_depth r | None => 0 end.

Definition set_delegation_entry (a : Address) (e : DelegationEntry) : GM unit :=
  on_gov (λ g, g <| gkDelegationRecord := <[a := e]> (gkDelegationRecord g) |>).

Definition delegate_vote (delegator delegatee : Address) : GM unit :=
  require_auth delegator ;;
  reject_if (bool_decide (delegator = delegatee)) GE_SelfDelegation ;;
  locked ← reads (λ env s, is_vote_locked env s delegator);
  reject_if locked GE_VotesLocked ;;
  stored ← gov (λ g, gkDelegationRecord g !! delegator);
  reject_if (bool_decide (is_Some stored)) GE_AlreadyDelegated ;;
  depth ← get_delegation_depth delegatee;
  reject_if (MAX_DELEGATION_DEPTH <=? depth) GE_DelegationDepthExceeded ;;
  now ← ask timestamp;
  set_delegation_entry delegator (IsRecord (mkDelegationRecord delegator delegatee now (depth + 1))) ;;
  delegators ← read_delegators delegatee;
  set_delegation_entry delegatee (IsDelegators (delegators ++ [delegator])) ;;
  publish (VoteDelegated delegator delegatee now).

Definition revoke_delegation (delegator : Address) : GM unit :=
  require_auth delegator ;;
  stored ← read_record delegator;
  record ← ok_or stored GE_NotInitialized;
  delegators ← read_delegators (dr_delegatee record);
  set_delegation_entry (dr_delegatee record) (IsDelegators (filter (λ d, d ≠ delegator) delegators)) ;;
  on_gov (λ g, g <| gkDelegationRecord := delete delegator (gkDelegationRecord g) |>) ;;
  now ← ask timestamp;
  publish (VoteDelegationRevoked delegator now).
