(* ===== verification/HelloCalls.v ===== *)
(** * HelloCalls: timelock and entry points of the administration of the hello-world contract

    hello-world/src/timelock.rs, one definition per function: delayed operations
    without a vote.  It keeps its own configuration and operations, and runs the
    changes governance.rs runs: the two [execute_proposal_type] functions of the
    code are the same text.

    Then the state-changing entry points of hello-world/src/lib.rs that reach
    the modules of [HelloParams], [Governance] and the timelock, as one call
    type, their dispatch, and the runs of the contract.  The entry points that
    move positions are those of [PositionCalls].  Of the state of this file they
    update the compound index and change the totals that the rates are computed
    from; [CallPositions] stands for them here, with any totals. *)

From S2P Require Import Prelude.
From S2P Require Import Host.
From S2P Require Import HelloTypes.
From S2P Require Import HelloParams.
From S2P Require Import Governance.

(** [TimelockConfig::default()] *)
Definition default_timelock_config : TimelockConfig := mkTimelockConfig 7200 172800 86400 86400.

Definition valid_timelock_config (c : TimelockConfig) : bool :=
  negb (tc_max_delay c <? tc_min_delay c)
  && negb ((tc_default_delay c <? tc_min_delay c) || (tc_max_delay c <? tc_default_delay c)).

Definition get_timelock_config (s : HState) : TimelockConfig :=
  default default_timelock_config (tkTimelockConfig (hs_timelock s)).

Definition initialize_timelock (config : TimelockConfig) : GM unit :=
  reject_if (negb (valid_timelock_config config)) GE_InvalidTimelockConfig ;;
  on_timelock (λ t, t <| tkTimelockConfig := Some config |> <| tkNextTimelockId := Some 0 |>).

Definition next_timelock_id (s : HState) : Z := default 0 (tkNextTimelockId (hs_timelock s)).

Definition set_operation (id : Z) (o : TimelockOperation) : GM unit :=
  on_timelock (λ t, t <| tkTimelockOperation := <[id := o]> (tkTimelockOperation t) |>).

Definition get_timelock_operation (s : HState) (id : Z) : option TimelockOperation :=
  tkTimelockOperation (hs_timelock s) !! id.

Definition the_operation (id : Z) : GM TimelockOperation :=
  stored ← gets (λ s, get_timelock_operation s id); ok_or stored GE_TimelockNotFound.

Definition queue_timelock_operation (proposer : Address) (proposal_type : ProposalType) (description : string)
    (custom_delay : option Z) : GM Z :=
  require_auth proposer ;;
  config ← gets get_timelock_config;
  let delay := default (tc_default_delay config) custom_delay in
  reject_if ((delay <? tc_min_delay config) || (tc_max_delay config <? delay)) GE_InvalidTimelockDelay ;;
  operation_id ← gets next_timelock_id;
  now ← ask timestamp;
  ready_at ← plus_time now delay;
  expires_at ← plus_time ready_at (tc_grace_period config);
  set_operation operation_id (mkTimelockOperation operation_id proposal_type description proposer now
    ready_at expires_at TLPending delay) ;;
  next ← plus_time operation_id 1;
  on_timelock (λ t, t <| tkNextTimelockId := Some next |>) ;;
  publish (TimelockQueued operation_id proposer ready_at expires_at delay now) ;;
  mret operation_id.

(** [status != Pending && status != Ready] *)
Definition is_closed (st : TimelockStatus) : bool := bool_decide (st ≠ TLPending) && bool_decide (st ≠ TLReady).

Definition execute_timelock_operation (executor : Address) (operation_id : Z) : GM unit :=
  require_auth executor ;;
  operation ← the_operation operation_id;
  reject_if (is_closed (tl_status operation)) GE_InvalidTimelockStatus ;;
  now ← ask timestamp;
  reject_if (now <? tl_ready_at operation) GE_TimelockNotReady ;;
  when (tl_expires_at operation <? now)
    (set_operation operation_id (operation <| tl_status := TLExpired |>) ;; fail GE_TimelockExpired) ;;
  execute_proposal_type (tl_proposal_type operation) ;;
  set_operation operation_id (operation <| tl_status := TLExecuted |>) ;;
  publish (TimelockExecuted operation_id executor now).

Definition cancel_timelock_operation (caller : Address) (operation_id : Z) : GM unit :=
  require_auth caller ;;
  operation ← the_operation operation_id;
  admin ← the_admin;
  reject_if (bool_decide (caller ≠ tl_proposer operation) && bool_decide (caller ≠ admin)) GE_Unauthorized ;;
  reject_if (is_closed (tl_status operation)) GE_InvalidTimelockStatus ;;
  set_operation operation_id (operation <| tl_status := TLCancelled |>) ;;
  now ← ask timestamp;
  publish (TimelockCancelled operation_id caller now).

Definition get_pending_timelock_operations (s : HState) : list TimelockOperation :=
  omap (λ id, match get_timelock_operation s id with
              | Some o => if is_closed (tl_status o) then None else Some o
              | None => None
              end) (seqZ 0 (next_timelock_id s)).

Definition update_timelock_config (admin : Address) (config : TimelockConfig) : GM unit :=
  require_auth admin ;;
  stored_admin ← the_admin;
  reject_if (bool_decide (admin ≠ stored_admin)) GE_Unauthorized ;;
  reject_if (negb (valid_timelock_config config)) GE_InvalidTimelockConfig ;;
  on_timelock (λ t, t <| tkTimelockConfig := Some config |>).

Inductive HelloCall : Type :=
  | CallInitialize (admin : Address)
  | CallTransferAdmin (caller new_admin : Address)
  | CallSetRiskParams (caller : Address) (mcr lt cf li : option Z)
  | CallSetEmergencyPause (caller : Address) (paused : bool)
  | CallUpdateInterestRateConfig (caller : Address) (params : InterestRateParams)
  | CallPositions (accrue : bool) (totals : option ProtocolAnalytics)
  | CallGovInitialize (admin vote_token : Address) (voting_period execution_delay quorum_bps proposal_threshold
      timelock_duration default_voting_threshold : option Z)
  | CallCreateProposal (proposer : Address) (t : ProposalType) (description : string) (threshold : option Z)
  | CallVote (voter : Address) (proposal_id : Z) (v : VoteType)
  | CallQueueProposal (caller : Address) (proposal_id : Z)
  | CallExecuteProposal (executor : Address) (proposal_id : Z)
  | CallCancelProposal (caller : Address) (proposal_id : Z)
  | CallApproveProposal (approver : Address) (proposal_id : Z)
  | CallAddGuardian (caller guardian : Address)
  | CallDelegateVote (delegator delegatee : Address)
  | CallSimulateProposal (proposal_id : Z)
  | CallParameterOptimization
  | CallCreateEmergencyProposal (caller : Address) (t : ProposalType) (description : string)
  | CallInitializeTimelock (config : TimelockConfig)
  | CallQueueTimelockOperation (proposer : Address) (t : ProposalType) (description : string) (delay : option Z)
  | CallExecuteTimelockOperation (executor : Address) (operation_id : Z)
  | CallCancelTimelockOperation (caller : Address) (operation_id : Z).

(** What a position entry point does to the state modelled here. *)
Definition positions_move (accrue : bool) (totals : option ProtocolAnalytics) : M HState InterestRateError unit :=
  when accrue (update_lending_index ;; mret tt) ;;
  on_rate (λ r, r <| dkProtocolAnalytics := totals |>).

Definition hello_dispatch (c : HelloCall) (env : Env) (s : HState) : HState :=
  match c with
  | CallInitialize a => (invoke (initialize a) env s).2
  | CallTransferAdmin a b => (invoke (transfer_admin a b) env s).2
  | CallSetRiskParams a m l c i => (invoke (set_risk_params_entry a m l c i) env s).2
  | CallSetEmergencyPause a p => (invoke (set_emergency_pause_entry a p) env s).2
  | CallUpdateInterestRateConfig a p => (invoke (update_interest_rate_config a p) env s).2
  | CallPositions a t => (invoke (positions_move a t) env s).2
  | CallGovInitialize a v p d q t l x => (invoke (gov_initialize a v p d q t l x) env s).2
  | CallCreateProposal p t d x => (invoke (create_proposal p t d x) env s).2
  | CallVote v i t => (invoke (vote v i t) env s).2
  | CallQueueProposal c i => (invoke (queue_proposal c i) env s).2
  | CallExecuteProposal e i => (invoke (execute_proposal e i) env s).2
  | CallCancelProposal c i => (invoke (cancel_proposal c i) env s).2
  | CallApproveProposal a i => (invoke (approve_proposal a i) env s).2
  | CallAddGuardian c g => (invoke (add_guardian c g) env s).2
  | CallDelegateVote a b => (invoke (delegate_vote a b) env s).2
  | CallSimulateProposal i => (invoke (simulate_proposal i) env s).2
  | CallParameterOptimization => (invoke get_parameter_optimization_recommendation env s).2
  | CallCreateEmergencyProposal c t d => (invoke (create_emergency_proposal c t d) env s).2
  | CallInitializeTimelock c => (invoke (initialize_timelock c) env s).2
  | CallQueueTimelockOperation p t d x => (invoke (queue_timelock_operation p t d x) env s).2
  | CallExecuteTimelockOperation e i => (invoke (execute_timelock_operation e i) env s).2
  | CallCancelTimelockOperation c i => (invoke (cancel_timelock_operation c i) env s).2
  end.

Inductive hello_reachable : HState → Prop :=
  | hello_empty : hello_reachable empty_hello
  | hello_step c env s : hello_reachable s → hello_reachable (hello_dispatch c env s).

Inductive hello_run (s : HState) : HState → Prop :=
  | hello_run_refl : hello_run s s
  | hello_run_step s' c env : hello_run s s' → hello_run s (hello_dispatch c env s').
