(* ===== verification/ParamSafety.v ===== *)
(** * ParamSafety: the parameters of the hello-world contract stay in bounds

    Over every sequence of invocations of [HelloCalls]: the risk parameters are
    valid and change by at most a tenth of their value at a time, whoever
    changes them; the rate model is well formed, so rates follow its curve
    between its floor and its ceiling.  An index update adds the interest of
    the time since the last one - but the first index is never stored, so in
    fact no interest accrues. *)

From S2P Require Import Prelude.
From S2P Require Import Host.
From S2P Require Import HelloTypes.
From S2P Require Import HelloParams.
From S2P Require Import Governance.
From S2P Require Import HelloCalls.

(** ** What only reads *)

#[export] Instance require_admin_ro a : Readonly (require_admin a).
Proof. apply _. Qed.
#[export] Instance rm_require_admin_ro a : Readonly (rm_require_admin a).
Proof. apply _. Qed.
#[export] Instance validate_risk_params_ro c : Readonly (validate_risk_params c).
Proof. apply _. Qed.
#[export] Instance validate_parameter_change_ro a b : Readonly (validate_parameter_change a b).
Proof. apply _. Qed.
#[export] Instance change_param_ro new field put c : Readonly (change_param new field put c).
Proof. unfold change_param. apply _. Qed.
#[export] Instance update_rate_ro new bad put c : Readonly (update_rate new bad put c).
Proof. unfold update_rate. apply _. Qed.
#[export] Instance calculate_utilization_ro : Readonly calculate_utilization.
Proof. unfold calculate_utilization. apply _. Qed.
#[export] Instance raw_borrow_rate_ro c u : Readonly (raw_borrow_rate c u).
Proof. unfold raw_borrow_rate. apply _. Qed.
#[export] Instance calculate_borrow_rate_ro : Readonly calculate_borrow_rate.
Proof. unfold calculate_borrow_rate. apply _. Qed.
#[export] Instance calculate_supply_rate_ro : Readonly calculate_supply_rate.
Proof. unfold calculate_supply_rate. apply _. Qed.
#[export] Instance or_zero_ro m : Readonly m → Readonly (or_zero m).
Proof. unfold or_zero. apply _. Qed.
#[export] Instance index_growth_ro a b c d : Readonly (index_growth a b c d).
Proof. unfold index_growth. apply _. Qed.
#[export] Instance gov_ro {A} (f : GovStore → A) : Readonly (gov f).
Proof. apply _. Qed.
#[export] Instance the_proposal_ro i : Readonly (the_proposal i).
Proof. unfold the_proposal. apply _. Qed.
#[export] Instance plus_ro a b : Readonly (plus a b).
Proof. unfold plus. apply _. Qed.
#[export] Instance balance_of_ro t a : Readonly (balance_of t a).
Proof. unfold balance_of. apply _. Qed.
#[export] Instance require_multisig_admin_ro a : Readonly (require_multisig_admin a).
Proof. unfold require_multisig_admin, the_multisig_config. apply _. Qed.
#[export] Instance read_record_ro a : Readonly (read_record a).
Proof. unfold read_record. apply _. Qed.
#[export] Instance read_delegators_ro a : Readonly (read_delegators a).
Proof. unfold read_delegators. apply _. Qed.
#[export] Instance sum_delegated_ro i a d l total : Readonly (sum_delegated i a d l total).
Proof.
  revert total. induction l as [|x l IH]; intros total; [apply _|].
  apply readonly_bind; [apply _|intros r]. apply readonly_bind; [apply _|intros o].
  apply readonly_bind; [|apply IH]. destruct r, o; apply _.
Qed.
#[export] Instance get_vote_power_ro i a t : Readonly (get_vote_power_with_delegation i a t).
Proof.
  unfold get_vote_power_with_delegation, get_snapshotted_vote_power, get_delegated_power_for_voter. apply _.
Qed.
#[export] Instance count_vote_ro p v x : Readonly (count_vote p v x).
Proof. destruct v; apply _. Qed.
#[export] Instance verdict_ro p c : Readonly (verdict p c).
Proof. unfold verdict. apply _. Qed.
#[export] Instance get_delegation_depth_ro a : Readonly (get_delegation_depth a).
Proof. unfold get_delegation_depth. apply _. Qed.

(** ** Induction over the runs *)

Section induction.
Context (I : HState → Prop) (Hstep : ∀ c env s, I s → I (hello_dispatch c env s)).

Lemma hello_reachable_ind' s : I empty_hello → hello_reachable s → I s.
Proof. intros Hempty. induction 1; auto. Qed.

Lemma hello_run_ind' s s' : I s → hello_run s s' → I s'.
Proof. intros Hs. induction 1; auto. Qed.
End induction.

Lemma hello_reachable_run s s' : hello_reachable s → hello_run s s' → hello_reachable s'.
Proof. intros Hs. induction 1; [done|]. by apply hello_step. Qed.

(** An invariant that every operation keeps, succeeding or not. *)
Lemma invoke_keeps {E A} (I : HState → Prop) (m : M HState E A) env s :
  preserves I m → I s → I (invoke m env s).2.
Proof.
  intros Hm Hs. destruct (invoke m env s) as [r s'] eqn:H.
  refine (invoke_preserves I m env s r s' _ Hs H). by apply preserves_ok.
Qed.

(** The parts of an operation, down to reads and writes. *)
Ltac open_ops :=
  unfold initialize, transfer_admin, set_risk_params_entry, set_emergency_pause_entry, positions_move,
    set_admin, initialize_risk_management, initialize_risk_params, initialize_interest_rate_config,
    set_emergency_pause, set_pause_switch,
    gov_initialize, create_proposal, vote, queue_proposal, execute_proposal, execute_proposal_type,
    cancel_proposal, approve_proposal, add_guardian, delegate_vote, simulate_proposal,
    get_parameter_optimization_recommendation, create_emergency_proposal,
    initialize_timelock, queue_timelock_operation, execute_timelock_operation, cancel_timelock_operation,
    check_description, the_config, the_admin, advance_proposal_id, next_proposal_id, set_proposal,
    set_guardian_config, require_gov_admin, set_delegation_entry, compute_simulation,
    the_operation, set_operation, plus_time,
    on_admin, on_risk, on_rate, on_gov, on_timelock, publish in *.

Ltac run_prim H ::=
  lazymatch type of H with
  | publish _ _ _ = _ => unfold publish in H; run_step H
  | on_admin _ _ _ = _ => unfold on_admin in H; run_step H
  | on_risk _ _ _ = _ => unfold on_risk in H; run_step H
  | on_rate _ _ _ = _ => unfold on_rate in H; run_step H
  | on_gov _ _ _ = _ => unfold on_gov in H; run_step H
  | on_timelock _ _ _ = _ => unfold on_timelock in H; run_step H
  | set_config _ _ _ = _ => unfold set_config in H; run_step H
  | set_rate_config _ _ _ = _ => unfold set_rate_config in H; run_step H
  | gov _ _ _ = _ => unfold gov in H; run_step H
  | plus _ _ _ _ = _ => unfold plus in H; run_step H
  | plus_time _ _ _ _ = _ => unfold plus_time in H; run_step H
  | the_config _ _ = _ => unfold the_config in H; run_step H
  | the_admin _ _ = _ => unfold the_admin in H; run_step H
  | the_proposal _ _ _ = _ => unfold the_proposal in H; run_step H
  | the_operation _ _ _ = _ => unfold the_operation in H; run_step H
  | set_proposal _ _ _ _ = _ => unfold set_proposal in H; run_step H
  | set_operation _ _ _ _ = _ => unfold set_operation in H; run_step H
  | balance_of _ _ _ _ = _ => unfold balance_of in H; run_step H
  | check_description _ _ _ = _ => unfold check_description in H; run_step H
  | next_proposal_id _ _ = _ => unfold next_proposal_id in H; run_step H
  | advance_proposal_id _ _ _ = _ => unfold advance_proposal_id in H; run_step H
  | require_admin _ _ _ = _ => unfold require_admin in H; run_step H
  | rm_require_admin _ _ _ = _ => unfold rm_require_admin in H; run_step H
  | require_gov_admin _ _ _ = _ => unfold require_gov_admin in H; run_step H
  | require_multisig_admin _ _ _ = _ => unfold require_multisig_admin, the_multisig_config in H; run_step H
  | set_delegation_entry _ _ _ _ = _ => unfold set_delegation_entry in H; run_step H
  | _ => idtac
  end.

(** ** Risk parameters *)

Definition valid_risk (p : RiskParams) : Prop :=
  MIN_COLLATERAL_RATIO_MIN ≤ rp_min_collateral_ratio p ≤ MIN_COLLATERAL_RATIO_MAX ∧
  LIQUIDATION_THRESHOLD_MIN ≤ rp_liquidation_threshold p ≤ LIQUIDATION_THRESHOLD_MAX ∧
  rp_liquidation_threshold p ≤ rp_min_collateral_ratio p ∧
  CLOSE_FACTOR_MIN ≤ rp_close_factor p ≤ CLOSE_FACTOR_MAX ∧
  LIQUIDATION_INCENTIVE_MIN ≤ rp_liquidation_incentive p ≤ LIQUIDATION_INCENTIVE_MAX.

(** At most a tenth away, the limit [MAX_PARAMETER_CHANGE_BPS]. *)
Definition near (old new : Z) : Prop := 10 * Z.abs (new - old) ≤ old.

Definition risk_near (p q : RiskParams) : Prop :=
  near (rp_min_collateral_ratio p) (rp_min_collateral_ratio q) ∧
  near (rp_liquidation_threshold p) (rp_liquidation_threshold q) ∧
  near (rp_close_factor p) (rp_close_factor q) ∧
  near (rp_liquidation_incentive p) (rp_liquidation_incentive q).

Lemma validate_risk_params_Ok c env s u s' :
  validate_risk_params c env s = (Ok u, s') → valid_risk c ∧ s' = s.
Proof. unfold validate_risk_params, valid_risk. intros H. run_inv H. zbool. split; [|done]. lia. Qed.

Lemma validate_parameter_change_Ok old new env s u s' :
  validate_parameter_change old new env s = (Ok u, s') → 0 ≤ old → near old new ∧ s' = s.
Proof.
  unfold validate_parameter_change, near, MAX_PARAMETER_CHANGE_BPS, BASIS_POINTS_SCALE.
  intros H Hold. run_inv H. split; [|done]. zbool. checked_facts. subst.
  rewrite quot_pos in * by lia.
  pose proof (Z.mul_div_le (old * 1000) 10000).
  match goal with H : (if ?c then _ else _) = Some _ |- _ => destruct c eqn:? end; zbool; checked_facts; lia.
Qed.

Lemma change_param_Ok new field put c env s c' s' :
  change_param new field put c env s = (Ok c', s') → 0 ≤ field c →
  s' = s ∧ c' = match new with Some x => put x c | None => c end ∧
  match new with Some x => near (field c) x | None => True end.
Proof.
  unfold change_param. destruct new as [x|]; intros H Hf; run_inv H; [|done].
  match goal with H : validate_parameter_change _ _ _ _ = _ |- _ =>
    apply validate_parameter_change_Ok in H as [? ->] end; done.
Qed.

Lemma near_refl x : 0 ≤ x → near x x.
Proof. unfold near. lia. Qed.

Lemma set_risk_params_Ok mcr lt cf li env s u s' p :
  set_risk_params mcr lt cf li env s = (Ok u, s') → get_risk_params s = Some p → valid_risk p →
  ∃ q, valid_risk q ∧ risk_near p q ∧
    rp_min_collateral_ratio q = default (rp_min_collateral_ratio p) mcr ∧
    rp_liquidation_threshold q = default (rp_liquidation_threshold p) lt ∧
    rp_close_factor q = default (rp_close_factor p) cf ∧
    rp_liquidation_incentive q = default (rp_liquidation_incentive p) li ∧
    rp_last_update q = timestamp env ∧
    s' = s <| hs_risk := ((hs_risk s) <| rkRiskParamsConfig := Some q |>) |>
           <| hs_events := (hs_events s ++ [RiskParamsUpdated q]) |>.
Proof.
  unfold set_risk_params. intros H Hp Hv. pose proof Hv as (?&?&?&?&?).
  unfold MIN_COLLATERAL_RATIO_MIN, LIQUIDATION_THRESHOLD_MIN, CLOSE_FACTOR_MIN, LIQUIDATION_INCENTIVE_MIN in *.
  run_inv H. replace (get_risk_params _) with (Some p) in *. simplify_eq.
  repeat match goal with
  | H : change_param _ _ _ _ _ _ = _ |- _ =>
      apply change_param_Ok in H as (-> & -> & ?); [|destruct mcr, lt, cf, li; cbn in *; lia]
  | H : validate_risk_params _ _ _ = _ |- _ => apply validate_risk_params_Ok in H as [? ->]
  end.
  eexists. split; [|split; [|split_and!; [..|reflexivity]]];
    [|unfold risk_near; destruct mcr, lt, cf, li; cbn in *; split_and!; try done; by apply near_refl; lia
     |destruct mcr, lt, cf, li; done..].
  done.
Qed.

(** ** Who changes the parameters

    The parts of the storage that the parameters are in, and the operations
    that an invocation can change them with. *)

Definition core (s : HState) : AdminStore * RiskStore * RateStore := (hs_admin s, hs_risk s, hs_rate s).

Inductive core_effect (env : Env) (s : HState) : HState → Prop :=
  | ce_none : core_effect env s s
  | ce_init a u s1 : initialize a env s = (Ok u, s1) → core_effect env s s1
  | ce_transfer a b u s1 : transfer_admin a b env s = (Ok u, s1) → core_effect env s s1
  | ce_risk m l c i u s1 : set_risk_params m l c i env s = (Ok u, s1) → core_effect env s s1
  | ce_switch a o p u s1 : set_pause_switch a o p env s = (Ok u, s1) → core_effect env s s1
  | ce_emergency a p u s1 : set_emergency_pause a p env s = (Ok u, s1) → core_effect env s s1
  | ce_rate a p u s1 : update_interest_rate_config a p env s = (Ok u, s1) → core_effect env s s1
  | ce_positions x t u s1 : positions_move x t env s = (Ok u, s1) → core_effect env s s1.

(** Operations of governance.rs and timelock.rs that leave the parameters alone. *)
Definition keeps_core {E A} (m : M HState E A) : Prop := ∀ x, preserves (λ s, core s = x) m.

Ltac keep_core := let st := fresh "st" in intros st; open_ops; preserve; assumption.

Lemma keeps_core_invoke {E A} (m : M HState E A) env s : keeps_core m → core (invoke m env s).2 = core s.
Proof. intros Hm. by apply (invoke_keeps (λ s', core s' = core s)). Qed.

Lemma keeps_core_run {E A} (m : M HState E A) env s r s' :
  keeps_core m → m env s = (r, s') → core s' = core s.
Proof. intros Hm. by apply (Hm (core s)). Qed.

Lemma create_proposal_core p t d o : keeps_core (create_proposal p t d o).
Proof. keep_core. Qed.
Lemma vote_core v i t : keeps_core (vote v i t).
Proof. keep_core. Qed.
Lemma queue_proposal_core c i : keeps_core (queue_proposal c i).
Proof. keep_core. Qed.
Lemma delegate_vote_core a b : keeps_core (delegate_vote a b).
Proof. keep_core. Qed.

Lemma execute_proposal_type_core t env s u s1 :
  execute_proposal_type t env s = (Ok u, s1) → ∃ s2, core_effect env s s2 ∧ core s1 = core s2.
Proof.
  unfold execute_proposal_type. intros H. destruct t; run_inv H; eexists; (split; [|reflexivity]);
    [eapply ce_risk|eapply ce_risk|eapply ce_switch|eapply ce_emergency|eapply ce_rate]; done.
Qed.

(** What is left of a run after the execution of the change. *)
Lemma execute_proposal_runs e i env s u s' :
  execute_proposal e i env s = (Ok u, s') →
  ∃ p x config s1, gkProposal (hs_gov s) !! i = Some p ∧ gkConfig (hs_gov s) = Some config ∧
    authorized env e = true ∧ pp_status p = Queued ∧ pp_execution_time p = Some x ∧
    x ≤ timestamp env ≤ x + gc_timelock_duration config ∧
    execute_proposal_type (pp_proposal_type p) env s = (Ok tt, s1) ∧
    s' = s1 <| hs_gov := ((hs_gov s1) <| gkProposal := <[i := p <| pp_status := Executed |>]> (gkProposal (hs_gov s1)) |>) |>
            <| hs_events := (hs_events s1 ++ [ProposalExecuted i e (timestamp env)]) |>.
Proof.
  unfold execute_proposal. intros H. run_inv H; zbool.
  match goal with H : u64_checked_add _ _ = Some _ |- _ => apply fit_Some in H as [? ->] end.
  match goal with H : execute_proposal_type _ _ _ = (Ok ?a, ?s1) |- _ => destruct a;
    eexists _, _, _, s1; split_and!; done || lia end.
Qed.

Lemma execute_timelock_runs e i env s u s' :
  execute_timelock_operation e i env s = (Ok u, s') →
  ∃ o s1, tkTimelockOperation (hs_timelock s) !! i = Some o ∧ authorized env e = true ∧
    is_closed (tl_status o) = false ∧ tl_ready_at o ≤ timestamp env ≤ tl_expires_at o ∧
    execute_proposal_type (tl_proposal_type o) env s = (Ok tt, s1) ∧
    s' = s1 <| hs_timelock := ((hs_timelock s1) <| tkTimelockOperation :=
                 <[i := o <| tl_status := TLExecuted |>]> (tkTimelockOperation (hs_timelock s1)) |>) |>
            <| hs_events := (hs_events s1 ++ [TimelockExecuted i e (timestamp env)]) |>.
Proof.
  unfold execute_timelock_operation. intros H. run_inv H; zbool.
  match goal with H : execute_proposal_type _ _ _ = (Ok ?a, ?s1) |- _ => destruct a;
    eexists _, s1; split_and!; done end.
Qed.

(** Splits an invocation into its success and the rest, which changes nothing. *)
Lemma invoke_cases {E A} (m : M HState E A) env s :
  (∃ a s', m env s = (Ok a, s') ∧ (invoke m env s).2 = s') ∨ (invoke m env s).2 = s.
Proof. unfold invoke. destruct (m env s) as [[a|e|] s']; [left; by eexists _, _|by right|by right]. Qed.

Lemma dispatch_core c env s : ∃ s1, core_effect env s s1 ∧ core (hello_dispatch c env s) = core s1.
Proof.
  destruct c; simpl.
  all: try (eexists; split; [apply ce_none|apply keeps_core_invoke; first
    [apply create_proposal_core|apply vote_core|apply queue_proposal_core|apply delegate_vote_core|keep_core]]).
  all: lazymatch goal with |- context[(invoke ?m ?e ?st).2] =>
         destruct (invoke_cases m e st) as [(u & s' & H & ->)| ->]; [|eexists; by split; [apply ce_none|]] end.
  - eexists; split; [by eapply ce_init|done].
  - eexists; split; [by eapply ce_transfer|done].
  - unfold set_risk_params_entry in H. run_inv H. eexists; split; [by eapply ce_risk|done].
  - unfold set_emergency_pause_entry in H. run_inv H. eexists; split; [by eapply ce_emergency|done].
  - eexists; split; [by eapply ce_rate|done].
  - eexists; split; [by eapply ce_positions|done].
  - apply execute_proposal_runs in H as (?&?&?&?&_&_&_&_&_&_&H&->). by apply execute_proposal_type_core in H.
  - apply execute_timelock_runs in H as (?&?&_&_&_&_&H&->). by apply execute_proposal_type_core in H.
Qed.

(** ** The rate model *)

Definition valid_rate (c : InterestRateConfig) : Prop :=
  0 ≤ ir_base_rate_bps c ≤ BASIS_POINTS_SCALE ∧ 0 < ir_kink_utilization_bps c < BASIS_POINTS_SCALE ∧
  0 ≤ ir_multiplier_bps c ∧ 0 ≤ ir_jump_multiplier_bps c ∧
  0 ≤ ir_rate_floor_bps c ≤ ir_rate_ceiling_bps c ∧ ir_rate_ceiling_bps c ≤ BASIS_POINTS_SCALE ∧
  0 ≤ ir_spread_bps c ≤ BASIS_POINTS_SCALE.

Lemma update_rate_Ok new bad put c env s c' s' :
  update_rate new bad put c env s = (Ok c', s') →
  s' = s ∧ match new with Some x => bad c x = false ∧ c' = put x c | None => c' = c end.
Proof. unfold update_rate. destruct new; intros H; run_inv H; done. Qed.

(** An update keeps what the checks of its field keep. *)
Lemma update_rate_valid new bad put c env s c' s' :
  update_rate new bad put c env s = (Ok c', s') → valid_rate c →
  (∀ x, bad c x = false → valid_rate (put x c)) → valid_rate c' ∧ s' = s.
Proof. intros [-> H]%update_rate_Ok Hc Hput. destruct new as [x|]; [|by subst]. destruct H as [? ->]. auto. Qed.

Lemma outside_scale_false x : outside_scale x = false → 0 ≤ x ≤ BASIS_POINTS_SCALE.
Proof. unfold outside_scale. intros H. zbool. by apply in_range_spec. Qed.

Lemma update_interest_rate_config_Ok a p env s u s' :
  update_interest_rate_config a p env s = (Ok u, s') →
  get_admin s = Some a ∧ ∃ c c', get_interest_rate_config s = Some c ∧
    s' = s <| hs_rate := ((hs_rate s) <| ikInterestRateConfig := Some c' |>) |> ∧
    (valid_rate c → valid_rate c').
Proof.
  unfold update_interest_rate_config. intros H. run_inv H. zbool. subst. split; [congruence|].
  assert (∀ (c c' : InterestRateConfig) t, (valid_rate c → valid_rate c') →
    valid_rate c → valid_rate (c' <| ir_last_update := t |>)) as Hlast by (intros; auto).
  repeat match goal with
  | H : update_rate _ _ _ _ _ _ = (Ok _, ?s1) |- _ =>
      let Hs := fresh in pose proof (update_rate_Ok _ _ _ _ _ _ _ _ H) as [Hs _]; subst s1;
      let Hv := fresh "Hval" in
      pose proof (λ Hc Hput, proj1 (update_rate_valid _ _ _ _ _ _ _ _ H Hc Hput)) as Hv; clear H
  end.
  eexists _, _. split_and!; [done|reflexivity|]. intros Hc. apply (Hlast _ _ _ (λ H, H)). clear Hlast.
  repeat match goal with
  | Hc : valid_rate ?c, H : valid_rate ?c → _ → valid_rate ?c' |- _ =>
      let Hn := fresh "Hvalid" in
      assert (valid_rate c') as Hn by (apply H; [exact Hc|]; clear -Hc; intros x Hx; zbool;
        repeat match goal with H : outside_scale _ = false |- _ => apply outside_scale_false in H end;
        unfold valid_rate in *; cbn in *; lia); clear H
  end.
  assumption.
Qed.

Lemma set_emergency_rate_adjustment_valid a x env s u s' :
  set_emergency_rate_adjustment a x env s = (Ok u, s') →
  Z.abs x ≤ BASIS_POINTS_SCALE ∧ ∃ c, get_interest_rate_config s = Some c ∧
    s' = s <| hs_rate := ((hs_rate s) <| ikInterestRateConfig :=
           Some (c <| ir_emergency_adjustment_bps := x |> <| ir_last_update := timestamp env |>) |>) |>.
Proof.
  unfold set_emergency_rate_adjustment. intros H. run_inv H. zbool.
  match goal with H : fit _ _ = Some _ |- _ => apply fit_Some in H as [? ->] end.
  split; [done|]. by eexists.
Qed.

(** The documented curve: linear up to the kink, steeper above it. *)
Definition curve (c : InterestRateConfig) (u : Z) : Z :=
  if u <=? ir_kink_utilization_bps c
  then ir_base_rate_bps c + Z.quot (u * ir_multiplier_bps c) (ir_kink_utilization_bps c)
  else ir_base_rate_bps c + ir_multiplier_bps c
       + Z.quot ((u - ir_kink_utilization_bps c) * ir_jump_multiplier_bps c)
                (BASIS_POINTS_SCALE - ir_kink_utilization_bps c).

Definition utilization (s : HState) : Z :=
  match dkProtocolAnalytics (hs_rate s) with
  | Some t => if pa_total_deposits t =? 0 then 0
              else Z.min (Z.quot (pa_total_borrows t * BASIS_POINTS_SCALE) (pa_total_deposits t)) BASIS_POINTS_SCALE
  | None => 0
  end.

Definition limited (c : InterestRateConfig) (rate : Z) : Z :=
  Z.min (Z.max rate (ir_rate_floor_bps c)) (ir_rate_ceiling_bps c).

Lemma calculate_utilization_Ok env s u s' :
  calculate_utilization env s = (Ok u, s') → u = utilization s ∧ s' = s.
Proof.
  unfold calculate_utilization, utilization. intros H.
  apply bind_Ok in H as (o & s1 & [-> ->]%gets_Ok & H). cbv zeta in H.
  destruct (dkProtocolAnalytics (hs_rate s)) as [t|]; cbn [from_option default id] in H; [|by run_inv H].
  destruct (pa_total_deposits t =? 0) eqn:Ht; run_inv H; checked_facts; by subst.
Qed.

Lemma raw_borrow_rate_Ok c u env s r s' :
  raw_borrow_rate c u env s = (Ok r, s') → valid_rate c → r = curve c u ∧ s' = s.
Proof.
  unfold raw_borrow_rate, curve. intros H Hv. run_inv H; checked_facts; subst; (split; [|done]);
    repeat match goal with H : _ = true |- _ => rewrite H | H : _ = false |- _ => rewrite H end; try done;
    exfalso; unfold valid_rate, BASIS_POINTS_SCALE in *; zbool; lia.
Qed.

Lemma calculate_borrow_rate_Ok env s r s' :
  calculate_borrow_rate env s = (Ok r, s') →
  (∀ c, get_interest_rate_config s = Some c → valid_rate c) →
  s' = s ∧ ∃ c, get_interest_rate_config s = Some c ∧
    r = limited c (curve c (utilization s) + ir_emergency_adjustment_bps c).
Proof.
  unfold calculate_borrow_rate. intros H Hv. run_inv H.
  match goal with H : calculate_utilization _ _ = _ |- _ => apply calculate_utilization_Ok in H as [-> ->] end.
  match goal with H : Some _ = get_interest_rate_config _ |- _ => symmetry in H; rename H into Hc
                | H : get_interest_rate_config _ = Some _ |- _ => rename H into Hc end.
  match goal with H : raw_borrow_rate _ _ _ _ = _ |- _ => apply raw_borrow_rate_Ok in H as [-> ->]; [|by apply Hv] end.
  checked_facts. subst. split; [done|]. eexists. by split.
Qed.

Lemma calculate_supply_rate_Ok env s q s' :
  calculate_supply_rate env s = (Ok q, s') →
  s' = s ∧ ∃ c r, get_interest_rate_config s = Some c ∧ calculate_borrow_rate env s = (Ok r, s) ∧
    q = Z.max (r - ir_spread_bps c) (ir_rate_floor_bps c).
Proof.
  unfold calculate_supply_rate. intros H. run_inv H.
  match goal with H : calculate_borrow_rate _ _ = (_, ?s1) |- _ =>
    pose proof (readonly_run _ _ _ _ _ H); subst s1 end.
  checked_facts. subst. split; [done|]. eexists _, _. split_and!; [|done|done]. congruence.
Qed.

(** ** The compound index *)

(** The rate an index update uses. *)
Definition rate_or_zero (m : M HState InterestRateError Z) (env : Env) (s : HState) : Z :=
  match (m env s).1 with Ok r => r | _ => 0 end.

Definition grown (index rate elapsed : Z) : Z :=
  index + Z.quot (index * rate * elapsed) (BASIS_POINTS_SCALE * SECONDS_PER_YEAR).

Lemma or_zero_Ok m env s r s' : Readonly m → or_zero m env s = (Ok r, s') → r = rate_or_zero m env s ∧ s' = s.
Proof.
  intros Hm. unfold or_zero, rate_or_zero. intros H. run_inv H.
  match goal with H : attempt _ _ _ = (Ok ?x, ?s1) |- _ => apply attempt_Ok in H; destruct x;
    rewrite H; pose proof (readonly_run _ _ _ _ _ H) end; done.
Qed.

Lemma index_growth_Ok i r t d env s g s' :
  index_growth i r t d env s = (Ok g, s') → d = BASIS_POINTS_SCALE * SECONDS_PER_YEAR →
  0 ≤ i * r * t → i + g = grown i r t ∧ s' = s.
Proof.
  unfold index_growth, grown. intros H -> Hn. run_inv H. split; [|done]. checked_facts. subst.
  match goal with H : in_i128 (i * r * t) = true |- _ => apply in_i128_spec in H end.
  rewrite checked_div_fits by (unfold BASIS_POINTS_SCALE, SECONDS_PER_YEAR; lia).
  cbn [from_option default]. by rewrite quot_pos by (unfold BASIS_POINTS_SCALE, SECONDS_PER_YEAR; lia).
Qed.

(** Rates within the limits of a well-formed model. *)
Lemma limited_bounds c x : valid_rate c → ir_rate_floor_bps c ≤ limited c x ≤ ir_rate_ceiling_bps c.
Proof. unfold valid_rate, limited. lia. Qed.

Definition rates_valid (s : HState) : Prop := ∀ c, get_interest_rate_config s = Some c → valid_rate c.

Lemma borrow_rate_nonneg env s : rates_valid s → 0 ≤ rate_or_zero calculate_borrow_rate env s.
Proof.
  intros Hv. unfold rate_or_zero. destruct (calculate_borrow_rate env s) as [[r|e|] s'] eqn:H; cbn; [|lia..].
  apply calculate_borrow_rate_Ok in H as (_ & c & Hc & ->); [|done].
  pose proof (limited_bounds c (curve c (utilization s) + ir_emergency_adjustment_bps c) (Hv c Hc)).
  pose proof (Hv c Hc) as Hc'. unfold valid_rate in Hc'. lia.
Qed.

Lemma supply_rate_nonneg env s : rates_valid s → 0 ≤ rate_or_zero calculate_supply_rate env s.
Proof.
  intros Hv. unfold rate_or_zero. destruct (calculate_supply_rate env s) as [[r|e|] s'] eqn:H; cbn; [|lia..].
  apply calculate_supply_rate_Ok in H as (_ & c & r' & Hc & _ & ->).
  specialize (Hv c Hc). unfold valid_rate in Hv. lia.
Qed.

Definition index_update (env : Env) (s : HState) : LendingIndex :=
  let idx := get_lending_index env s in
  if timestamp env <=? li_last_update idx then idx
  else
    let elapsed := timestamp env - li_last_update idx in
    mkLendingIndex (grown (li_borrow_index idx) (rate_or_zero calculate_borrow_rate env s) elapsed)
      (grown (li_supply_index idx) (rate_or_zero calculate_supply_rate env s) elapsed) (timestamp env).

Lemma grown_le i r t : 0 ≤ i → 0 ≤ r → 0 ≤ t → i ≤ grown i r t.
Proof.
  intros. unfold grown. assert (0 ≤ Z.quot (i * r * t) (BASIS_POINTS_SCALE * SECONDS_PER_YEAR)); [|lia].
  apply quot_nonneg; [|unfold BASIS_POINTS_SCALE, SECONDS_PER_YEAR; lia]. repeat apply Z.mul_nonneg_nonneg; lia.
Qed.

Definition index_positive (i : LendingIndex) : Prop := 0 ≤ li_borrow_index i ∧ 0 ≤ li_supply_index i.
Definition index_le (i j : LendingIndex) : Prop :=
  li_borrow_index i ≤ li_borrow_index j ∧ li_supply_index i ≤ li_supply_index j.

Lemma update_lending_index_Ok env s i s' :
  update_lending_index env s = (Ok i, s') → rates_valid s → index_positive (get_lending_index env s) →
  i = index_update env s ∧ index_le (get_lending_index env s) i ∧
  (s' = s ∨ s' = s <| hs_rate := ((hs_rate s) <| ikLendingIndex := Some i |>) |>).
Proof.
  unfold update_lending_index, index_update, index_le. intros H Hv [Hb Hs].
  pose proof (borrow_rate_nonneg env s Hv). pose proof (supply_rate_nonneg env s Hv).
  set (idx := get_lending_index env s) in *.
  apply bind_Ok in H as (? & ? & [-> ->]%reads_Ok & H). apply bind_Ok in H as (? & ? & [-> ->]%ask_Ok & H).
  fold idx in H. destruct (timestamp env <=? li_last_update idx) eqn:Ht; [run_inv H; split_and!; auto; lia|].
  unfold year_in_bps in H. run_inv H. zbool. checked_facts.
  match goal with H : u64_checked_sub _ _ = Some _ |- _ => apply fit_Some in H as [? ->] end.
  repeat match goal with H : or_zero ?m _ _ = _ |- _ => apply or_zero_Ok in H as [-> ->]; [|apply _] end.
  repeat match goal with H : index_growth _ _ _ _ _ _ = _ |- _ =>
    apply index_growth_Ok in H as [? ->]; [|done|repeat apply Z.mul_nonneg_nonneg; lia] end.
  subst. cbn [li_borrow_index li_supply_index].
  split_and!; [f_equal; congruence| |..]; [| |by right].
  all: match goal with H : _ + ?v = grown _ _ _ |- _ <= _ + ?v => rewrite H end; apply grown_le; lia.
Qed.

(** ** The invariant *)

Record core_inv (s : HState) : Prop := {
  ci_risk : ∀ p, get_risk_params s = Some p → valid_risk p;
  ci_admin : get_risk_params s ≠ None → get_admin s ≠ None;
  ci_rate : rates_valid s;
  ci_index : ikLendingIndex (hs_rate s) = None;
}.

(** What one invocation may do to the parameters. *)
Definition core_step (s s' : HState) : Prop :=
  ∀ p, get_risk_params s = Some p → ∃ q, get_risk_params s' = Some q ∧ valid_risk q ∧ risk_near p q.

Lemma core_inv_eq s s' : core s = core s' → core_inv s → core_inv s'.
Proof.
  unfold core. intros [= Ha Hr Hi] [H1 H2 H3 H4].
  unfold get_risk_params, get_admin, rates_valid, get_interest_rate_config in *.
  split; unfold get_risk_params, get_admin, rates_valid, get_interest_rate_config;
    by rewrite <- ?Ha, <- ?Hr, <- ?Hi.
Qed.

Lemma core_step_eq s s1 s' : core s1 = core s' → core_step s s1 → core_step s s'.
Proof.
  unfold core, core_step, get_risk_params. intros [= Ha Hr Hi]. by rewrite <- Hr.
Qed.

Lemma risk_near_refl p : valid_risk p → risk_near p p.
Proof.
  unfold valid_risk, risk_near, near, MIN_COLLATERAL_RATIO_MIN, LIQUIDATION_THRESHOLD_MIN, CLOSE_FACTOR_MIN,
    LIQUIDATION_INCENTIVE_MIN. lia.
Qed.

(** Nothing changes but, perhaps, the rate model. *)
Lemma core_inv_rates s s' :
  core_inv s → hs_admin s' = hs_admin s → get_risk_params s' = get_risk_params s → rates_valid s' →
  ikLendingIndex (hs_rate s') = ikLendingIndex (hs_rate s) → core_inv s' ∧ core_step s s'.
Proof.
  intros [H1 H2 H3 H4] Ha Hr Hv Hi. unfold get_admin in *. split.
  - split; [by rewrite Hr|unfold get_admin; by rewrite Hr, Ha|done|by rewrite Hi].
  - intros p Hp. exists p. rewrite Hr. split_and!; auto using risk_near_refl.
Qed.

Lemma initialize_Ok a env s u s' :
  initialize a env s = (Ok u, s') →
  get_admin s = None ∧ get_admin s' = Some a ∧
  get_risk_params s' = Some (mkRiskParams 11000 10500 5000 1000 (timestamp env)) ∧
  get_interest_rate_config s' = Some get_default_config ∧ ikLendingIndex (hs_rate s') = ikLendingIndex (hs_rate s).
Proof.
  unfold initialize, has_admin. intros H. run_inv H. zbool.
  match goal with H : set_admin _ _ _ _ = _ |- _ => unfold set_admin in H; run_step H; subst end.
  all: match goal with H : initialize_risk_management _ _ _ = _ |- _ =>
         unfold initialize_risk_management in H; run_step H; subst end.
  all: repeat match goal with
    | H : validate_risk_params _ _ _ = (_, ?s1) |- _ =>
        pose proof (readonly_run _ _ _ _ _ H); subst s1; clear H
    | H : initialize_risk_params _ _ = _ |- _ => unfold initialize_risk_params in H; run_step H; subst
    | H : initialize_interest_rate_config _ _ _ = _ |- _ =>
        unfold initialize_interest_rate_config in H; run_step H; subst
    end; cbn in *; subst; split_and!; done || (unfold get_admin in *; congruence).
Qed.

Lemma default_rate_valid : valid_rate get_default_config.
Proof. unfold valid_rate, BASIS_POINTS_SCALE. cbn. lia. Qed.

Lemma transfer_admin_Ok a b env s u s' :
  transfer_admin a b env s = (Ok u, s') →
  (get_admin s = None ∨ get_admin s = Some a) ∧
  s' = s <| hs_admin := ((hs_admin s) <| akAdmin := Some b |>) |>
         <| hs_events := (hs_events s ++ [AdminChanged b (Some a)]) |>.
Proof. unfold transfer_admin, set_admin. intros H. run_inv H; zbool; split; auto; right; congruence. Qed.

(** The rates and the index where the invocation leaves them alone. *)
Lemma core_inv_same s s' :
  core_inv s → hs_admin s' = hs_admin s → get_risk_params s' = get_risk_params s →
  hs_rate s' = hs_rate s → core_inv s' ∧ core_step s s'.
Proof.
  intros Hinv Ha Hr Hi. apply core_inv_rates; [done..| |by rewrite Hi].
  pose proof (ci_rate s Hinv) as Hv. unfold rates_valid, get_interest_rate_config in *. by rewrite Hi.
Qed.

(** An index that was never stored starts at the time it is asked for, so it is
    not behind, and the update has nothing to store. *)
Lemma update_lending_index_unset env s :
  ikLendingIndex (hs_rate s) = None →
  update_lending_index env s = (Ok (mkLendingIndex INDEX_SCALE INDEX_SCALE (timestamp env)), s).
Proof.
  intros Hi. unfold update_lending_index, get_lending_index. rewrite bind_eq. unfold reads. rewrite Hi.
  cbn [from_option default]. rewrite bind_eq. unfold ask. cbn [li_last_update].
  by rewrite (proj2 (Z.leb_le _ _) (Z.le_refl _)).
Qed.

Lemma positions_move_Ok a t env s u s' :
  positions_move a t env s = (Ok u, s') → ikLendingIndex (hs_rate s) = None →
  s' = s <| hs_rate := ((hs_rate s) <| dkProtocolAnalytics := t |>) |>.
Proof.
  unfold positions_move. intros H Hi. run_inv H; [|done].
  match goal with H : update_lending_index _ _ = _ |- _ => rewrite (update_lending_index_unset _ _ Hi) in H end.
  by simplify_eq.
Qed.

Lemma core_effect_step env s s1 : core_inv s → core_effect env s s1 → core_inv s1 ∧ core_step s s1.
Proof.
  intros Hinv Heff. pose proof Hinv as [H1 H2 H3 H4].
  destruct Heff as [|a u s1 H|a b u s1 H|m l c i u s1 H|a o p u s1 H|a p u s1 H|a p u s1 H|a t u s1 H].
  - by apply core_inv_same.
  - apply initialize_Ok in H as (Ha & Ha' & Hr & Hc & Hi).
    assert (get_risk_params s = None) as Hn by (destruct (get_risk_params s); [by destruct H2|done]).
    split; [|by intros p Hp; rewrite Hn in Hp].
    split; [|by rewrite Ha'| |by rewrite Hi].
    + rewrite Hr. intros p [= <-]. unfold valid_risk. cbn. split_and!; done.
    + intros x. rewrite Hc. intros [= <-]. apply default_rate_valid.
  - apply transfer_admin_Ok in H as (_ & ->). split; [split; done|].
    intros p Hp. exists p. split_and!; auto using risk_near_refl.
  - destruct (get_risk_params s) as [p|] eqn:Hp.
    + destruct (set_risk_params_Ok _ _ _ _ _ _ _ _ _ H Hp (H1 p eq_refl)) as (q & Hq & Hn & _ & _ & _ & _ & _ & ->).
      split; [split; try done; [intros x Hx; change (Some q = Some x) in Hx; by simplify_eq|intros _; by apply H2]|].
      intros x Hx. rewrite Hp in Hx. simplify_eq. by exists q.
    + unfold set_risk_params in H. run_inv H. congruence.
  - unfold set_pause_switch in H. run_inv H. by apply core_inv_same.
  - unfold set_emergency_pause in H. run_inv H. by apply core_inv_same.
  - apply update_interest_rate_config_Ok in H as (_ & c & c' & Hc & -> & Hv).
    apply core_inv_rates; [done..| |done]. intros x [= <-]. auto.
  - apply positions_move_Ok in H as ->; [|done]. by apply core_inv_rates.
Qed.

Lemma dispatch_inv c env s : core_inv s → core_inv (hello_dispatch c env s) ∧ core_step s (hello_dispatch c env s).
Proof.
  intros Hinv. destruct (dispatch_core c env s) as (s1 & Heff & Hc).
  destruct (core_effect_step env s s1 Hinv Heff) as [? ?].
  split; [by eapply core_inv_eq|by eapply core_step_eq].
Qed.

Lemma reachable_core s : hello_reachable s → core_inv s.
Proof.
  apply (hello_reachable_ind' core_inv); [intros; by apply dispatch_inv|].
  by split.
Qed.

(** ** What holds in every reachable state *)

(** C28: in every reachable state the risk parameters are within their bounds
    with the collateral ratio at least the liquidation threshold, and one
    invocation - by the admin, a proposal or the timelock - moves each of them
    by at most a tenth of its value. *)
Theorem risk_params_change_slowly c env s p :
  hello_reachable s → get_risk_params s = Some p →
  valid_risk p ∧ ∃ q, get_risk_params (hello_dispatch c env s) = Some q ∧ valid_risk q ∧ risk_near p q.
Proof.
  intros Hs Hp. pose proof (reachable_core s Hs) as Hinv. split; [by apply (ci_risk s Hinv)|].
  destruct (dispatch_inv c env s Hinv) as [_ Hstep]. by apply Hstep.
Qed.

(** The borrow rate is the curve at the current utilisation plus the emergency
    adjustment, cut off at floor and ceiling; the supply rate is the spread
    below it, and not above the borrow rate. *)
Theorem protocol_rates_are_limited env s r q s1 s2 :
  hello_reachable s →
  calculate_borrow_rate env s = (Ok r, s1) → calculate_supply_rate env s = (Ok q, s2) →
  s1 = s ∧ s2 = s ∧ ∃ c, get_interest_rate_config s = Some c ∧
    r = limited c (curve c (utilization s) + ir_emergency_adjustment_bps c) ∧
    ir_rate_floor_bps c ≤ r ≤ ir_rate_ceiling_bps c ∧
    q = Z.max (r - ir_spread_bps c) (ir_rate_floor_bps c) ∧
    ir_rate_floor_bps c ≤ q ≤ r ∧ 0 ≤ q ∧ r ≤ BASIS_POINTS_SCALE.
Proof.
  intros Hs Hr Hq. pose proof (ci_rate s (reachable_core s Hs)) as Hv.
  destruct (calculate_supply_rate_Ok _ _ _ _ Hq) as (-> & c' & r' & Hc' & Hr' & ->).
  destruct (calculate_borrow_rate_Ok _ _ _ _ Hr Hv) as (-> & c & Hc & Hrc). simplify_eq.
  split_and!; try done. exists c'. pose proof (Hv c' Hc') as Hval.
  pose proof (limited_bounds c' (curve c' (utilization s) + ir_emergency_adjustment_bps c') Hval).
  rewrite Hr in Hr'. simplify_eq. unfold valid_rate in Hval. split_and!; try done; lia.
Qed.

(** In every reachable state updating the compound index returns the
    initial index and stores nothing, because an index that was never stored
    counts as updated just now; so the interest since any earlier update is
    zero, whatever the debt, the rate and the time. *)
Theorem protocol_accrues_no_interest env s principal :
  hello_reachable s →
  update_lending_index env s = (Ok (mkLendingIndex INDEX_SCALE INDEX_SCALE (timestamp env)), s) ∧
  ∀ env' s', hello_run s s' →
    ∃ idx, update_lending_index env' s' = (Ok idx, s') ∧
      compute_index_interest principal INDEX_SCALE (li_borrow_index idx) env' s' = (Ok 0, s').
Proof.
  intros Hs. split; [apply update_lending_index_unset, ci_index, reachable_core, Hs|].
  intros env' s' Hrun. eexists. split.
  - apply update_lending_index_unset, ci_index, reachable_core. by eapply hello_reachable_run.
  - unfold compute_index_interest. cbn [li_borrow_index]. rewrite !orb_true_r. reflexivity.
Qed.

(** ** A concrete contract

    Account 1 initialises the contract; the pool is half borrowed. *)

Definition at_time (t : Z) : Env := mkEnv t 0 (λ _, true) (λ _ _, None) (λ _ _ _ _, None).

Definition run_calls (s : HState) (l : list (HelloCall * Env)) : HState :=
  foldl (λ s '(c, env), hello_dispatch c env s) s l.

Lemma run_calls_run s l : hello_run s (run_calls s l).
Proof.
  induction l as [|[c env] l IH] using rev_ind; [apply hello_run_refl|].
  unfold run_calls. rewrite foldl_app. by apply hello_run_step.
Qed.

Lemma run_calls_reachable l : hello_reachable (run_calls empty_hello l).
Proof. apply (hello_reachable_run empty_hello); [apply hello_empty|apply run_calls_run]. Qed.

Definition half_borrowed : HState :=
  run_calls empty_hello
    [(CallInitialize 1%positive, at_time 100); (CallPositions true (Some (mkProtocolAnalytics 2000 1000 2000)), at_time 200)].

Lemma half_borrowed_reachable : hello_reachable half_borrowed.
Proof. apply run_calls_reachable. Qed.

Lemma risk_params_change_slowly_witness :
  ∃ p q, get_risk_params half_borrowed = Some p ∧
    get_risk_params (hello_dispatch (CallSetRiskParams 1%positive (Some 12000) None None None) (at_time 300)
                       half_borrowed) = Some q ∧
    rp_min_collateral_ratio p = 11000 ∧ rp_min_collateral_ratio q = 12000 ∧ valid_risk q ∧ risk_near p q.
Proof.
  assert (Hp : get_risk_params half_borrowed = Some (mkRiskParams 11000 10500 5000 1000 100)) by (vm_compute; reflexivity).
  destruct (risk_params_change_slowly (CallSetRiskParams 1%positive (Some 12000) None None None) (at_time 300)
              half_borrowed _ half_borrowed_reachable Hp) as (_ & q & Hq & Hv & Hn).
  exists (mkRiskParams 11000 10500 5000 1000 100), q. split_and!; try done.
  vm_compute in Hq. injection Hq as <-. reflexivity.
Defined.

Lemma protocol_rates_are_limited_witness :
  ∃ r q c, calculate_borrow_rate (at_time 300) half_borrowed = (Ok r, half_borrowed) ∧
    get_interest_rate_config half_borrowed = Some c ∧ utilization half_borrowed = 5000 ∧ r = 1350 ∧
    q = Z.max (r - ir_spread_bps c) (ir_rate_floor_bps c) ∧ q = 1150.
Proof.
  assert (Hr : calculate_borrow_rate (at_time 300) half_borrowed = (Ok 1350, half_borrowed)) by (vm_compute; reflexivity).
  assert (Hq : calculate_supply_rate (at_time 300) half_borrowed = (Ok 1150, half_borrowed)) by (vm_compute; reflexivity).
  destruct (protocol_rates_are_limited _ _ _ _ _ _ half_borrowed_reachable Hr Hq) as (_ & _ & c & Hc & _ & _ & Hq' & _).
  exists 1350, 1150, c. split_and!; try done.
Defined.

(** A year at 13.5% on a debt of 1000 000. *)
Lemma protocol_accrues_no_interest_witness :
  let s := hello_dispatch (CallPositions true None) (at_time 31536300) half_borrowed in
  ∃ idx, update_lending_index (at_time 31536300) s = (Ok idx, s) ∧
    compute_index_interest 1000000 INDEX_SCALE (li_borrow_index idx) (at_time 31536300) s = (Ok 0, s).
Proof.
  destruct (protocol_accrues_no_interest (at_time 300) half_borrowed 1000000 half_borrowed_reachable) as [_ H].
  apply H. apply hello_run_step, hello_run_refl.
Defined.
