(* ===== verification/HelloConfig.v ===== *)
(** * HelloConfig: configuration store, snapshot and recovery of the hello-world contract

    config.rs, config_snapshot.rs and recovery.rs: modules that lib.rs declares
    (but for the snapshot) and no entry point calls.  They read the
    administration of [HelloTypes]; the configuration store and the guardians of
    recovery.rs have storage keys of their own, while the request for a recovery
    and its approvals are those of governance.rs. *)

From S2P Require Import Prelude.
From S2P Require Import Host.
From S2P Require Import HelloTypes.
From S2P Require Import HelloParams.
From S2P Require Import Governance.
From S2P Require Import HelloCalls.
From S2P Require Import ParamSafety.

(** ** config.rs *)

Inductive ConfigError : Type := CF_Unauthorized.

Section config.
Context {Val : Type}.

(** [ConfigDataKey] *)
Abbreviation ConfigStore := (gmap Symbol Val).
Abbreviation CM := (M (HState * ConfigStore) ConfigError) (only parsing).

Definition config_admin (caller : Address) : CM unit := local (map_err (λ _, CF_Unauthorized) (rm_require_admin caller)).
Definition config_write (key : Symbol) (value : Val) : CM unit := modify (λ '(s, c), (s, <[key := value]> c)).

Definition config_set (caller : Address) (key : Symbol) (value : Val) : CM unit :=
  config_admin caller ;; config_write key value.

Definition config_get (c : ConfigStore) (key : Symbol) : option Val := c !! key.

(** The loop over the keys *)
Fixpoint backup_of (c : ConfigStore) (keys : list Symbol) : list (Symbol * Val) :=
  match keys with
  | [] => []
  | key :: keys => match config_get c key with
                   | Some value => (key, value) :: backup_of c keys
                   | None => backup_of c keys
                   end
  end.

Definition config_backup (caller : Address) (keys : list Symbol) : CM (list (Symbol * Val)) :=
  config_admin caller ;; gets (λ '(_, c), backup_of c keys).

Definition config_restore (caller : Address) (backup : list (Symbol * Val)) : CM unit :=
  config_admin caller ;; for_each backup (λ '(key, value), config_write key value).

(** *** Round trip *)

Definition restored (backup : list (Symbol * Val)) (c : ConfigStore) : ConfigStore :=
  foldl (λ c '(key, value), <[key := value]> c) c backup.

Lemma config_admin_run caller env s c :
  config_admin caller env (s, c) = (if bool_decide (get_admin s = Some caller) then Ok tt else Err CF_Unauthorized, (s, c)).
Proof.
  unfold config_admin, rm_require_admin, require_admin, local, map_err. rewrite bind_eq. cbn [gets]. rewrite bind_eq.
  destruct (get_admin s) as [a|]; cbn; [|by rewrite bool_decide_false]. unfold reject_if.
  destruct (decide (a = caller)) as [->|Hne]; [by rewrite bool_decide_false, bool_decide_true by auto|].
  by rewrite bool_decide_true, bool_decide_false by congruence.
Qed.

Lemma restore_run backup env s : ∀ c,
  for_each (E := ConfigError) backup (λ '(key, value), config_write key value) env (s, c) = (Ok tt, (s, restored backup c)).
Proof. induction backup as [|[k v] backup IH]; intros c; [done|]. cbn [for_each]. rewrite bind_eq. apply IH. Qed.

Lemma backup_elem c keys k v : (k, v) ∈ backup_of c keys ↔ k ∈ keys ∧ c !! k = Some v.
Proof.
  induction keys as [|x keys IH]; cbn; [split; [by intros ?%elem_of_nil|by intros [?%elem_of_nil _]]|].
  unfold config_get. rewrite elem_of_cons. destruct (c !! x) as [y|] eqn:Hx; [rewrite elem_of_cons|]; rewrite IH.
  - split; [intros [[= -> ->]|[? ?]]; auto|]. intros [[->|?] ?]; [left; congruence|auto].
  - split; [intros [? ?]; auto|]. intros [[->|?] ?]; [congruence|auto].
Qed.

Lemma restored_lookup backup : (∀ k v v', (k, v) ∈ backup → (k, v') ∈ backup → v = v') → ∀ c k,
  (∀ v, (k, v) ∈ backup → restored backup c !! k = Some v) ∧
  ((∀ v, (k, v) ∉ backup) → restored backup c !! k = c !! k).
Proof.
  induction backup as [|[x y] backup IH] using rev_ind; intros Hf c k; [split; [by intros v ?%elem_of_nil|done]|].
  unfold restored in *. rewrite foldl_app. cbn.
  assert (Hf' : ∀ k v v', (k, v) ∈ backup → (k, v') ∈ backup → v = v').
  { intros ? ? ? H1 H2. eapply Hf; apply elem_of_app; left; [exact H1|exact H2]. }
  destruct (IH Hf' c k) as [IH1 IH2]. split.
  - intros v Hv. destruct (decide (x = k)) as [->|Hne].
    + rewrite lookup_insert_eq. f_equal. eapply Hf; [|exact Hv]. apply elem_of_app. right. left.
    + rewrite lookup_insert_ne by done. apply IH1. apply elem_of_app in Hv as [?|[= -> _]%list_elem_of_singleton]; done.
  - intros Hv. rewrite lookup_insert_ne.
    + apply IH2. intros v Hin. apply (Hv v), elem_of_app. by left.
    + intros ->. apply (Hv y), elem_of_app. right. left.
Qed.

(** What the admin backed up is restored, whatever became of the store in the
    meantime: the keys of the backup that had a value have it again.  Every other
    key - also one of the backup that had no value then - stays as it is. *)
Theorem backups_restore_values admin keys env s c backup sc env' s' c' :
  config_backup admin keys env (s, c) = (Ok backup, sc) → get_admin s' = Some admin →
  ∃ c'', config_restore admin backup env' (s', c') = (Ok tt, (s', c'')) ∧ sc = (s, c) ∧
    (∀ k v, k ∈ keys → config_get c k = Some v → config_get c'' k = Some v) ∧
    (∀ k, k ∉ keys ∨ config_get c k = None → config_get c'' k = config_get c' k).
Proof.
  intros Hb Ha. unfold config_backup in Hb. rewrite bind_eq, config_admin_run in Hb.
  destruct (bool_decide _); [|done]. cbn in Hb. injection Hb as <- <-.
  exists (restored (backup_of c keys) c'). unfold config_restore. rewrite bind_eq, config_admin_run, bool_decide_true by done.
  split; [apply restore_run|]. split; [done|]. unfold config_get.
  assert (Hf : ∀ k v v', (k, v) ∈ backup_of c keys → (k, v') ∈ backup_of c keys → v = v').
  { intros k v v' [_ H1]%backup_elem [_ H2]%backup_elem. congruence. }
  split; intros k; destruct (restored_lookup _ Hf c' k) as [H1 H2].
  - intros v Hk Hv. apply H1, backup_elem. done.
  - intros Hk. apply H2. intros v [Hin Hv]%backup_elem. destruct Hk as [Hk|Hk]; [by apply Hk|congruence].
Qed.

(** Only the name of the admin is needed, not the signature. *)
Theorem config_writes_are_unsigned caller key value backup env s c :
  (config_set caller key value env (s, c) =
     if bool_decide (get_admin s = Some caller) then (Ok tt, (s, <[key := value]> c)) else (Err CF_Unauthorized, (s, c))) ∧
  (config_restore caller backup env (s, c) =
     if bool_decide (get_admin s = Some caller) then (Ok tt, (s, restored backup c)) else (Err CF_Unauthorized, (s, c))).
Proof.
  unfold config_set, config_restore. rewrite !bind_eq, !config_admin_run. case_bool_decide; [|done].
  split; [done|apply restore_run].
Qed.
End config.

(** ** config_snapshot.rs *)

Record ConfigSnapshot : Type := mkConfigSnapshot {
  sn_min_collateral_ratio : Z;
  sn_liquidation_threshold : Z;
  sn_close_factor : Z;
  sn_liquidation_incentive : Z;
  sn_emergency_paused : bool;
  sn_base_borrow_rate : Z;
  sn_snapshot_time : Z;
}.

Definition get_config_snapshot : M HState InterestRateError (option ConfigSnapshot) :=
  stored ← gets get_risk_params;
  match stored with
  | None => mret None
  | Some p =>
      emergency_paused ← gets is_emergency_paused;
      base_borrow_rate ← or_zero calculate_borrow_rate;
      now ← ask timestamp;
      mret (Some (mkConfigSnapshot (rp_min_collateral_ratio p) (rp_liquidation_threshold p) (rp_close_factor p)
                    (rp_liquidation_incentive p) emergency_paused base_borrow_rate now))
  end.

(** In every reachable state a snapshot shows the current settings, which are
    within their bounds; its rate is that of the curve, or 0 when there is none. *)
Theorem snapshot_is_current env s r s' :
  hello_reachable s → get_config_snapshot env s = (Ok (Some r), s') →
  s' = s ∧ ∃ p, get_risk_params s = Some p ∧ valid_risk p ∧
    sn_min_collateral_ratio r = rp_min_collateral_ratio p ∧ sn_liquidation_threshold r = rp_liquidation_threshold p ∧
    sn_close_factor r = rp_close_factor p ∧ sn_liquidation_incentive r = rp_liquidation_incentive p ∧
    sn_liquidation_threshold r ≤ sn_min_collateral_ratio r ∧
    sn_emergency_paused r = is_emergency_paused s ∧ sn_snapshot_time r = timestamp env ∧
    0 ≤ sn_base_borrow_rate r ≤ BASIS_POINTS_SCALE.
Proof.
  intros Hs%reachable_core H. unfold get_config_snapshot in H.
  apply bind_Ok in H as (stored & s1 & [-> ->]%gets_Ok & H). destruct (get_risk_params s) as [p|] eqn:Hp; [|run_inv H; congruence].
  run_inv H. match goal with H : or_zero _ _ _ = _ |- _ => apply or_zero_Ok in H as [-> ->]; [|apply _] end.
  match goal with H : Some r = Some _ |- _ => injection H as -> end.
  split; [done|]. exists p. pose proof (ci_risk _ Hs p Hp) as Hv. split; [done|]. split; [exact Hv|]. cbn.
  split_and!; try done; try apply Hv.
  - apply borrow_rate_nonneg, (ci_rate _ Hs).
  - unfold rate_or_zero. destruct (calculate_borrow_rate env s) as [[q|e|] s1] eqn:Hq; cbn; [|unfold BASIS_POINTS_SCALE; lia..].
    apply calculate_borrow_rate_Ok in Hq as (_ & c & Hc & ->); [|apply (ci_rate _ Hs)].
    pose proof (ci_rate _ Hs c Hc) as Hvr. pose proof (limited_bounds c (curve c (utilization s) + ir_emergency_adjustment_bps c) Hvr).
    unfold valid_rate in Hvr. lia.
Qed.

(** ** recovery.rs *)

Module Recovery.

Inductive RecoveryEvent : Type :=
  | EmGuardianAdded (guardian : Address) | EmGuardianRemoved (guardian : Address)
  | EmRecoveryStarted (old_admin new_admin initiator : Address) | EmRecoveryApproved (approver : Address)
  | EmRecoveryExecuted (old_admin new_admin executor : Address).

(** The keys of [GovernanceDataKey] that only this module uses, and its events *)
Record RecoveryKeys : Type := mkRecoveryKeys {
  rvMultisigAdmins : option (list Address);
  rvGuardians : option (list Address);
  rvGuardianThreshold : option Z;
  rv_events : list RecoveryEvent;
}.
#[export] Instance RecoveryKeys_upd : Updatable RecoveryKeys := λ k,
  mkRecoveryKeys (rvMultisigAdmins k) (rvGuardians k) (rvGuardianThreshold k) (rv_events k).
Definition no_keys : RecoveryKeys := mkRecoveryKeys None None None [].

Abbreviation RM := (M (HState * RecoveryKeys) GovernanceError) (only parsing).

Definition key {A} (f : RecoveryKeys → A) : RM A := gets (λ sk, f sk.2).
Definition on_keys (f : RecoveryKeys → RecoveryKeys) : RM unit := modify (λ sk, (sk.1, f sk.2)).
Definition emit (e : RecoveryEvent) : RM unit := on_keys (λ k, k <| rv_events := (rv_events k ++ [e]) |>).
Definition gov_key {A} (f : GovStore → A) : RM A := gets (λ sk, f (hs_gov sk.1)).

Definition require_multisig_admin (caller : Address) : RM unit :=
  stored ← key rvMultisigAdmins;
  admins ← ok_or stored GE_Unauthorized;
  reject_if (bool_decide (caller ∉ admins)) GE_Unauthorized.

(** The comparison of every two guardians *)
Definition has_duplicates (l : list Address) : bool := bool_decide (¬ NoDup l).

Definition set_guardians (caller : Address) (guardians : list Address) (threshold : Z) : RM unit :=
  require_multisig_admin caller ;;
  reject_if (bool_decide (guardians = [])) GE_InvalidGuardianConfig ;;
  reject_if ((threshold =? 0) || (len guardians <? threshold)) GE_InvalidGuardianConfig ;;
  reject_if (has_duplicates guardians) GE_InvalidGuardianConfig ;;
  on_keys (λ k, k <| rvGuardians := Some guardians |> <| rvGuardianThreshold := Some threshold |>) ;;
  for_each guardians (λ g, emit (EmGuardianAdded g)).

Definition add_guardian (caller guardian : Address) : RM unit :=
  require_multisig_admin caller ;;
  guardians ← key (λ k, default [] (rvGuardians k));
  reject_if (bool_decide (guardian ∈ guardians)) GE_GuardianAlreadyExists ;;
  on_keys (λ k, k <| rvGuardians := Some (guardians ++ [guardian]) |>) ;;
  emit (EmGuardianAdded guardian).

Definition remove_guardian (caller guardian : Address) : RM unit :=
  require_multisig_admin caller ;;
  stored ← key rvGuardians;
  guardians ← ok_or stored GE_GuardianNotFound;
  reject_if (bool_decide (guardian ∉ guardians)) GE_GuardianNotFound ;;
  on_keys (λ k, k <| rvGuardians := Some (filter (λ g, g ≠ guardian) guardians) |>) ;;
  emit (EmGuardianRemoved guardian).

Definition set_guardian_threshold (caller : Address) (threshold : Z) : RM unit :=
  require_multisig_admin caller ;;
  guardians ← key (λ k, default [] (rvGuardians k));
  reject_if ((threshold =? 0) || (len guardians <? threshold)) GE_InvalidGuardianConfig ;;
  on_keys (λ k, k <| rvGuardianThreshold := Some threshold |>).

Definition start_recovery (initiator old_admin new_admin : Address) : RM unit :=
  stored ← key rvGuardians;
  guardians ← ok_or stored GE_Unauthorized;
  reject_if (bool_decide (initiator ∉ guardians)) GE_Unauthorized ;;
  request ← gov_key gkRecoveryRequest;
  reject_if (bool_decide (request ≠ None)) GE_RecoveryInProgress ;;
  now ← ask timestamp;
  expires_at ← local (plus_time now DEFAULT_RECOVERY_PERIOD);
  local (on_gov (λ g, g <| gkRecoveryRequest := Some (mkRecoveryRequest old_admin new_admin initiator now expires_at) |>
                        <| gkRecoveryApprovals := Some [initiator] |>)) ;;
  emit (EmRecoveryStarted old_admin new_admin initiator).

(** The removal of an expired request is undone by the error. *)
Definition not_expired (request : RecoveryRequest) : RM unit :=
  now ← ask timestamp;
  when (rr_expires_at request <? now)
    (local (on_gov (λ g, g <| gkRecoveryRequest := None |>)) ;; fail GE_ProposalExpired).

Definition approve_recovery (approver : Address) : RM unit :=
  stored ← key rvGuardians;
  guardians ← ok_or stored GE_Unauthorized;
  reject_if (bool_decide (approver ∉ guardians)) GE_Unauthorized ;;
  stored ← gov_key gkRecoveryRequest;
  recovery ← ok_or stored GE_NoRecoveryInProgress;
  not_expired recovery ;;
  approvals ← gov_key (λ g, default [] (gkRecoveryApprovals g));
  reject_if (bool_decide (approver ∈ approvals)) GE_AlreadyVoted ;;
  local (on_gov (λ g, g <| gkRecoveryApprovals := Some (approvals ++ [approver]) |>)) ;;
  emit (EmRecoveryApproved approver).

Definition execute_recovery (executor : Address) : RM unit :=
  stored ← gov_key gkRecoveryRequest;
  recovery ← ok_or stored GE_NoRecoveryInProgress;
  not_expired recovery ;;
  threshold ← key (λ k, default 1 (rvGuardianThreshold k));
  approvals ← gov_key (λ g, default [] (gkRecoveryApprovals g));
  reject_if (len approvals <? threshold) GE_InsufficientApprovals ;;
  admins ← key (λ k, default [] (rvMultisigAdmins k));
  on_keys (λ k, k <| rvMultisigAdmins := Some (filter (λ a, a ≠ rr_old_admin recovery) admins ++ [rr_new_admin recovery]) |>) ;;
  local (on_gov (λ g, g <| gkRecoveryRequest := None |> <| gkRecoveryApprovals := None |>)) ;;
  emit (EmRecoveryExecuted (rr_old_admin recovery) (rr_new_admin recovery) executor).

Definition get_guardians (k : RecoveryKeys) : option (list Address) := rvGuardians k.
Definition get_guardian_threshold (k : RecoveryKeys) : Z := default 1 (rvGuardianThreshold k).
Definition get_recovery_request (s : HState) : option RecoveryRequest := gkRecoveryRequest (hs_gov s).
Definition get_recovery_approvals (s : HState) : option (list Address) := gkRecoveryApprovals (hs_gov s).

Inductive RecoveryCall : Type :=
  | RSetGuardians (caller : Address) (guardians : list Address) (threshold : Z) | RAddGuardian (caller guardian : Address)
  | RRemoveGuardian (caller guardian : Address) | RSetThreshold (caller : Address) (threshold : Z)
  | RStart (initiator old_admin new_admin : Address) | RApprove (approver : Address) | RExecute (executor : Address).

Definition recovery_call (c : RecoveryCall) : RM unit :=
  match c with
  | RSetGuardians c g t => set_guardians c g t
  | RAddGuardian c g => add_guardian c g
  | RRemoveGuardian c g => remove_guardian c g
  | RSetThreshold c t => set_guardian_threshold c t
  | RStart i o n => start_recovery i o n
  | RApprove a => approve_recovery a
  | RExecute e => execute_recovery e
  end.

(** *** What the module can do *)

(** As long as its keys are not set - and no other code sets them - every
    operation but one is refused; that one carries out a recovery which
    governance.rs has started, without a signature and without the guardians'
    threshold of governance.rs: one approval, that of its initiator, is enough. *)
Theorem recovery_without_guardians c env s k r s' k' :
  rvMultisigAdmins k = None → rvGuardians k = None → rvGuardianThreshold k = None →
  recovery_call c env (s, k) = (r, (s', k')) →
  match c with
  | RExecute executor =>
      r = Ok tt ↔ ∃ q, gkRecoveryRequest (hs_gov s) = Some q ∧ timestamp env ≤ rr_expires_at q ∧
                       default [] (gkRecoveryApprovals (hs_gov s)) ≠ []
  | _ => r = Err GE_Unauthorized ∧ s' = s ∧ k' = k
  end.
Proof.
  intros Ha Hg Ht H. destruct c; cbn [recovery_call] in H;
    try (unfold set_guardians, add_guardian, remove_guardian, set_guardian_threshold, require_multisig_admin, start_recovery,
           approve_recovery, key in H; rewrite !bind_eq in H; cbn [gets] in H; cbn [snd] in H; rewrite ?Ha, ?Hg in H; cbn in H; by injection H as <- <- <-).
  unfold execute_recovery, gov_key, key, not_expired in H. rewrite bind_eq in H. cbn [gets fst] in H.
  destruct (gkRecoveryRequest (hs_gov s)) as [q|]; [|cbn in H; injection H as <- _ _; split; [done|by intros (q & ? & _)]].
  rewrite bind_eq in H. cbn [ok_or mret M_ret] in H. rewrite bind_eq in H. rewrite bind_eq in H. cbn [ask] in H.
  destruct (Z.ltb_spec (rr_expires_at q) (timestamp env)); cbn [when] in H.
  { cbn in H. injection H as <- _ _. split; [done|]. intros (q' & [= <-] & ? & _). lia. }
  unfold mret, M_ret in H. cbn iota beta in H. rewrite bind_eq in H. cbn [gets snd] in H. rewrite Ht in H. rewrite bind_eq in H. cbn [gets fst] in H.
  set (approvals := default [] _) in *. change (default 1 None) with 1 in H. unfold reject_if in H.
  rewrite bind_eq in H. destruct (Z.ltb_spec (len approvals) 1) as [Hl|Hl]; cbn in H; injection H as <- _ _.
  - split; [done|]. intros (_ & _ & _ & Hne). destruct approvals; [done|]. unfold len in Hl. cbn in Hl. lia.
  - split; [|done]. intros _. exists q. split_and!; [done|done|]. intros Hn. rewrite Hn in Hl. unfold len in Hl. cbn in Hl. lia.
Qed.

(** The module never lists a guardian twice. *)
Definition guardians_ok (k : RecoveryKeys) : Prop := ∀ l, rvGuardians k = Some l → NoDup l.

Lemma emits_keep f (l : list Address) env : ∀ s k s' k' u,
  for_each l (λ g, emit (f g)) env (s, k) = (Ok u, (s', k')) → rvGuardians k' = rvGuardians k.
Proof.
  induction l as [|g l IH]; intros s k s' k' u H; [by injection H as _ _ <-|]. cbn [for_each] in H.
  apply bind_Ok in H as (v & [s1 k1] & H & Hl). injection H as _ <- <-. by apply IH in Hl.
Qed.

Theorem guardians_stay_distinct c env s k s' k' :
  guardians_ok k → recovery_call c env (s, k) = (Ok tt, (s', k')) → guardians_ok k'.
Proof.
  intros Hk H. unfold guardians_ok in *.
  destruct c; cbn [recovery_call] in H; unfold set_guardians, add_guardian, remove_guardian, set_guardian_threshold,
    require_multisig_admin, start_recovery, approve_recovery, execute_recovery, not_expired, key, gov_key, on_keys in H.
  1: { apply bind_Ok in H as (? & [s0 k0] & Hadm & H). world_inv Hadm. unfold emit, on_keys in H. world_inv H.
       match goal with H : for_each _ _ _ _ = _ |- _ => apply (emits_keep EmGuardianAdded) in H as -> end. cbn.
       intros l [= <-]. match goal with H : has_duplicates _ = false |- _ => apply bool_decide_eq_false, dec_stable in H end. done. }
  all: unfold emit, on_keys in H; world_inv H; zbool; cbn in *; try done.
  - intros l [= <-]. apply NoDup_app. split_and!; [|intros x Hx ->%list_elem_of_singleton; done|apply NoDup_singleton].
    destruct (rvGuardians _) as [l|] eqn:Hl; [by apply Hk|constructor].
  - intros l [= <-]. apply NoDup_filter. by apply Hk.
Qed.
End Recovery.
