(* ===== verification/GovernanceSafety.v ===== *)
(** * GovernanceSafety: what governance guarantees, and what it does not

    Over every sequence of invocations: tallies are the sums of the recorded
    votes, proposals move along their life cycle and are executed at most once,
    in their window, after their vote or by the order of an admin; an account is
    the delegator of one other or the delegatee of one. *)

From S2P Require Import Prelude.
From S2P Require Import Host.
From S2P Require Import HelloTypes.
From S2P Require Import HelloParams.
From S2P Require Import Governance.
From S2P Require Import HelloCalls.
From S2P Require Import ParamSafety.

(** ** The ballot: proposals and votes *)

Record Ballot : Type := mkBallot {
  bl_admin : option Address;
  bl_config : option GovernanceConfig;
  bl_multisig : option MultisigConfig;
  bl_next : Z;
  bl_proposals : gmap Z Proposal;
  bl_votes : gmap (Z * Address) VoteInfo;
}.

Definition ballot (s : HState) : Ballot :=
  let g := hs_gov s in
  mkBallot (gkAdmin g) (gkConfig g) (gkMultisigConfig g) (default 0 (gkNextProposalId g)) (gkProposal g) (gkVote g).

(** The verdict on the tallies. *)
Definition verdict_of (p : Proposal) (c : GovernanceConfig) : Verdict :=
  let total := pp_for_votes p + pp_against_votes p + pp_abstain_votes p in
  let quorum := Z.quot (total * gc_quorum_bps c) BASIS_POINTS_SCALE in
  let threshold := Z.quot (pp_total_voting_power p * pp_voting_threshold p) BASIS_POINTS_SCALE in
  mkVerdict quorum (quorum <=? total) threshold (threshold <=? pp_for_votes p).

Lemma verdict_Ok p c env s v s' : verdict p c env s = (Ok v, s') → v = verdict_of p c ∧ s' = s.
Proof. unfold verdict. intros H. run_inv H. checked_facts. by subst. Qed.

(** Operations that leave the ballot alone. *)
Definition keeps_ballot {E A} (m : M HState E A) : Prop := ∀ x, preserves (λ s, ballot s = x) m.

Ltac keep_ballot :=
  let st := fresh "st" in intros st; open_ops; unfold set_risk_params, update_interest_rate_config,
    set_config, set_rate_config, update_lending_index, year_in_bps; open_ops; preserve; assumption.

Lemma keeps_ballot_run {E A} (m : M HState E A) env s r s' :
  keeps_ballot m → m env s = (r, s') → ballot s' = ballot s.
Proof. intros Hm. by apply (Hm (ballot s)). Qed.

Lemma keeps_ballot_invoke {E A} (m : M HState E A) env s : keeps_ballot m → ballot (invoke m env s).2 = ballot s.
Proof. intros Hm. by apply (invoke_keeps (λ s', ballot s' = ballot s)). Qed.

Lemma execute_proposal_type_ballot t : keeps_ballot (execute_proposal_type t).
Proof. destruct t; keep_ballot. Qed.
Lemma delegate_vote_ballot a b : keeps_ballot (delegate_vote a b).
Proof. keep_ballot. Qed.
Lemma positions_move_ballot a t : keeps_ballot (positions_move a t).
Proof. keep_ballot. Qed.

(** ** What the operations on the ballot do *)

(** A ballot with one proposal replaced or added. *)
Definition with_proposal (id : Z) (p : Proposal) (b : Ballot) : Ballot :=
  mkBallot (bl_admin b) (bl_config b) (bl_multisig b) (bl_next b) (<[id := p]> (bl_proposals b)) (bl_votes b).
Definition with_next (n : Z) (b : Ballot) : Ballot :=
  mkBallot (bl_admin b) (bl_config b) (bl_multisig b) n (bl_proposals b) (bl_votes b).
Definition with_vote (id : Z) (a : Address) (v : VoteInfo) (b : Ballot) : Ballot :=
  mkBallot (bl_admin b) (bl_config b) (bl_multisig b) (bl_next b) (bl_proposals b) (<[(id, a) := v]> (bl_votes b)).

Definition fresh_proposal (id : Z) (a : Address) (t : ProposalType) (d : string) (st : ProposalStatus)
    (start finish : Z) (x : option Z) (threshold : Z) : Proposal :=
  mkProposal id a t d st start finish x threshold 0 0 0 0 start.

Lemma create_proposal_runs a t d o env s id s' :
  create_proposal a t d o env s = (Ok id, s') →
  ∃ c, bl_config (ballot s) = Some c ∧ authorized env a = true ∧ id = bl_next (ballot s) ∧
    ballot s' = with_next (id + 1) (with_proposal id (fresh_proposal id a t d Pending (timestamp env)
      (timestamp env + gc_voting_period c) None (default (gc_default_voting_threshold c) o)) (ballot s)).
Proof.
  unfold create_proposal. intros H. run_inv H;
    repeat match goal with H : u64_checked_add _ _ = Some _ |- _ => apply fit_Some in H as [? ->] end;
    eexists; split_and!; done.
Qed.

Lemma create_emergency_runs a t d env s id s' :
  create_emergency_proposal a t d env s = (Ok id, s') →
  ∃ m, bl_multisig (ballot s) = Some m ∧ a ∈ mc_admins m ∧ authorized env a = true ∧ id = bl_next (ballot s) ∧
    ballot s' = with_next (id + 1) (with_proposal id (fresh_proposal id a t d Queued (timestamp env)
      (timestamp env) (Some (timestamp env)) 0) (ballot s)).
Proof.
  unfold create_emergency_proposal. intros H. run_inv H. zbool.
  match goal with H : u64_checked_add _ _ = Some _ |- _ => apply fit_Some in H as [? ->] end.
  eexists; split_and!; try done.
  match goal with H : ¬ (_ ∉ _) |- _ => by apply dec_stable in H end.
Qed.

Definition tallied (p : Proposal) (v : VoteType) (x : Z) : Proposal :=
  let p := p <| pp_status := Active |> <| pp_total_voting_power := pp_total_voting_power p + x |> in
  match v with
  | VoteFor => p <| pp_for_votes := pp_for_votes p + x |>
  | VoteAgainst => p <| pp_against_votes := pp_against_votes p + x |>
  | VoteAbstain => p <| pp_abstain_votes := pp_abstain_votes p + x |>
  end.

(** The proposal a vote is counted on: open, or opened by the vote. *)
Lemma activated p now :
  let q := if bool_decide (pp_status p = Pending) && (pp_start_time p <=? now) then p <| pp_status := Active |> else p in
  pp_status q = Active →
  q = p <| pp_status := Active |> ∧ (pp_status p = Active ∨ pp_status p = Pending ∧ pp_start_time p ≤ now).
Proof.
  cbv zeta. destruct (_ && _) eqn:Hc; intros Hq; zbool; split; auto. destruct p; cbn in *; by subst.
Qed.

Lemma vote_runs a i v env s u s' :
  vote a i v env s = (Ok u, s') →
  ∃ p c x, bl_proposals (ballot s) !! i = Some p ∧ bl_config (ballot s) = Some c ∧ authorized env a = true ∧
    bl_votes (ballot s) !! (i, a) = None ∧
    (pp_status p = Active ∨ pp_status p = Pending ∧ pp_start_time p ≤ timestamp env) ∧
    token_balance env (gc_vote_token c) a = Some x ∧ x ≠ 0 ∧
    ballot s' = with_vote i a (mkVoteInfo a i v x (timestamp env)) (with_proposal i (tallied p v x) (ballot s)).
Proof.
  unfold vote. intros H. run_inv H; zbool.
  all: match goal with H : get_vote_power_with_delegation _ _ _ _ _ = (_, ?s1) |- _ =>
         pose proof (readonly_run _ _ _ _ _ H); subst s1 end.
  all: match goal with H : pp_status (if _ then _ else _) = Active |- _ =>
         apply activated in H as [Hq ?]; rewrite Hq in *; clear Hq end.
  all: unfold count_vote in *; destruct v;
    repeat match goal with H : (_ ≫= _) _ _ = (Ok _, _) |- _ => run_step H; subst end; checked_facts; subst.
  all: by eexists _, _, _; split_and!.
Qed.

(** The proposal that a verdict makes of [p]. *)
Definition judged (p : Proposal) (c : GovernanceConfig) (now : Z) : Proposal :=
  if succeeded (verdict_of p c)
  then p <| pp_execution_time := Some (now + gc_execution_delay c) |> <| pp_status := Queued |>
  else p <| pp_status := Defeated |>.

Lemma queue_proposal_runs a i env s o s' :
  queue_proposal a i env s = (Ok o, s') →
  ∃ p c, bl_proposals (ballot s) !! i = Some p ∧ bl_config (ballot s) = Some c ∧ authorized env a = true ∧
    can_be_queued (pp_status p) = true ∧
    pp_end_time p < timestamp env ≤ pp_end_time p + DEFAULT_TIMELOCK_DURATION ∧
    o = mkProposalOutcome i (succeeded (verdict_of p c)) (pp_for_votes p) (pp_against_votes p) (pp_abstain_votes p)
          (vd_quorum_reached (verdict_of p c)) (vd_quorum_required (verdict_of p c)) ∧
    ballot s' = with_proposal i (judged p c (timestamp env)) (ballot s).
Proof.
  unfold queue_proposal, judged. intros H. run_inv H; zbool;
    repeat match goal with H : u64_checked_add _ _ = Some _ |- _ => apply fit_Some in H as [? ->] end.
  all: match goal with H : verdict _ _ _ _ = _ |- _ => apply verdict_Ok in H as [-> ->] end.
  all: eexists _, _; split_and!; try done; try lia.
  all: match goal with H : succeeded _ = _ |- _ => rewrite H end; reflexivity.
Qed.

Lemma cancel_proposal_runs a i env s u s' :
  cancel_proposal a i env s = (Ok u, s') →
  ∃ p m, bl_proposals (ballot s) !! i = Some p ∧ bl_admin (ballot s) = Some m ∧ authorized env a = true ∧
    (a = pp_proposer p ∨ a = m) ∧ pp_status p ≠ Executed ∧ pp_status p ≠ Queued ∧
    ballot s' = with_proposal i (p <| pp_status := Cancelled |>) (ballot s).
Proof.
  unfold cancel_proposal. intros H. run_inv H; zbool. eexists _, _; split_and!; try done.
  match goal with H : _ ∨ _ |- _ => destruct H end; zbool; auto.
Qed.

Lemma gov_initialize_runs a t vp ed q th td dt env s u s' :
  gov_initialize a t vp ed q th td dt env s = (Ok u, s') →
  bl_admin (ballot s) = None ∧ authorized env a = true ∧ default DEFAULT_QUORUM_BPS q ≤ 10000 ∧
  ∃ c, gc_quorum_bps c = default DEFAULT_QUORUM_BPS q ∧
    ballot s' = mkBallot (Some a) (Some c) (Some (mkMultisigConfig [a] 1)) 0
                  (bl_proposals (ballot s)) (bl_votes (ballot s)).
Proof.
  unfold gov_initialize. intros H. run_inv H; zbool. split_and!; try done. eexists; split; [|reflexivity]. done.
Qed.

Lemma execute_proposal_ballot e i env s u s' :
  execute_proposal e i env s = (Ok u, s') →
  ∃ p x c, bl_proposals (ballot s) !! i = Some p ∧ bl_config (ballot s) = Some c ∧
    pp_status p = Queued ∧ pp_execution_time p = Some x ∧
    x ≤ timestamp env ≤ x + gc_timelock_duration c ∧
    ballot s' = with_proposal i (p <| pp_status := Executed |>) (ballot s).
Proof.
  intros (p & x & c & s1 & Hp & Hc & _ & Hst & Hx & Ht & Hex & ->)%execute_proposal_runs.
  apply keeps_ballot_run in Hex; [|apply execute_proposal_type_ballot].
  eexists _, _, _; split_and!; try done; try lia. rewrite <- Hex. reflexivity.
Qed.

(** ** The steps of the ballot *)

Inductive ballot_step (env : Env) (b : Ballot) : Ballot → Prop :=
  | bs_none : ballot_step env b b
  | bs_init a c : bl_admin b = None → gc_quorum_bps c ≤ 10000 →
      ballot_step env b (mkBallot (Some a) (Some c) (Some (mkMultisigConfig [a] 1)) 0 (bl_proposals b) (bl_votes b))
  | bs_create a t d c thr : bl_config b = Some c → authorized env a = true →
      ballot_step env b (with_next (bl_next b + 1) (with_proposal (bl_next b)
        (fresh_proposal (bl_next b) a t d Pending (timestamp env) (timestamp env + gc_voting_period c) None thr) b))
  | bs_emergency a t d m : bl_multisig b = Some m → a ∈ mc_admins m → authorized env a = true →
      ballot_step env b (with_next (bl_next b + 1) (with_proposal (bl_next b)
        (fresh_proposal (bl_next b) a t d Queued (timestamp env) (timestamp env) (Some (timestamp env)) 0) b))
  | bs_vote i p c a v x : bl_proposals b !! i = Some p → bl_config b = Some c → authorized env a = true →
      bl_votes b !! (i, a) = None → pp_status p = Active ∨ pp_status p = Pending →
      token_balance env (gc_vote_token c) a = Some x → x ≠ 0 →
      ballot_step env b (with_vote i a (mkVoteInfo a i v x (timestamp env)) (with_proposal i (tallied p v x) b))
  | bs_queue i p c : bl_proposals b !! i = Some p → bl_config b = Some c → can_be_queued (pp_status p) = true →
      pp_end_time p < timestamp env ≤ pp_end_time p + DEFAULT_TIMELOCK_DURATION →
      ballot_step env b (with_proposal i (judged p c (timestamp env)) b)
  | bs_execute i p x c : bl_proposals b !! i = Some p → bl_config b = Some c → pp_status p = Queued →
      pp_execution_time p = Some x → x ≤ timestamp env ≤ x + gc_timelock_duration c →
      ballot_step env b (with_proposal i (p <| pp_status := Executed |>) b)
  | bs_cancel i p a m : bl_proposals b !! i = Some p → bl_admin b = Some m → authorized env a = true →
      a = pp_proposer p ∨ a = m → pp_status p ≠ Executed → pp_status p ≠ Queued →
      ballot_step env b (with_proposal i (p <| pp_status := Cancelled |>) b).

Lemma dispatch_ballot c env s : ballot_step env (ballot s) (ballot (hello_dispatch c env s)).
Proof.
  assert (∀ E A (m : M HState E A), keeps_ballot m → ballot_step env (ballot s) (ballot (invoke m env s).2)) as Hkeep.
  { intros E A m Hm. rewrite keeps_ballot_invoke by done. apply bs_none. }
  destruct c; simpl.
  all: try (apply Hkeep; first [apply delegate_vote_ballot|apply positions_move_ballot|keep_ballot]).
  all: lazymatch goal with |- context[(invoke ?m ?e ?st).2] =>
         destruct (invoke_cases m e st) as [(u & s' & H & ->)| ->]; [|apply bs_none] end.
  - apply gov_initialize_runs in H as (? & _ & ? & c & Hq & ->). apply bs_init; [done|by rewrite Hq].
  - apply create_proposal_runs in H as (c & ? & ? & -> & ->). by eapply bs_create.
  - apply vote_runs in H as (p & c & x & ? & ? & ? & ? & Hst & ? & ? & ->).
    eapply bs_vote; [done..| |done|done]. destruct Hst as [?|[? _]]; auto.
  - apply queue_proposal_runs in H as (p & c & ? & ? & _ & ? & ? & _ & ->). by eapply bs_queue.
  - apply execute_proposal_ballot in H as (p & x & c & ? & ? & ? & ? & ? & ->). by eapply bs_execute.
  - apply cancel_proposal_runs in H as (p & m & ? & ? & ? & ? & ? & ? & ->). by eapply bs_cancel.
  - apply create_emergency_runs in H as (m & ? & ? & ? & -> & ->). by eapply bs_emergency.
  - apply execute_timelock_runs in H as (o & s1 & _ & _ & _ & _ & H & ->).
    apply keeps_ballot_run in H; [|apply execute_proposal_type_ballot].
    change (ballot_step env (ballot s) (ballot s1)). rewrite H. apply bs_none.
Qed.

(** ** The invariant of the ballot *)

Definition counts_for (id : Z) (v : VoteType) (x : VoteInfo) : Z :=
  if decide (vi_proposal_id x = id ∧ vi_vote_type x = v) then vi_voting_power x else 0.
(** The power of the recorded votes of one type on a proposal. *)
Definition tally (votes : gmap (Z * Address) VoteInfo) (id : Z) (v : VoteType) : Z := map_sum (counts_for id v) votes.

Definition tallies (p : Proposal) : Z * Z * Z * Z :=
  (pp_for_votes p, pp_against_votes p, pp_abstain_votes p, pp_total_voting_power p).
Definition counted (votes : gmap (Z * Address) VoteInfo) (id : Z) : Z * Z * Z * Z :=
  (tally votes id VoteFor, tally votes id VoteAgainst, tally votes id VoteAbstain,
   tally votes id VoteFor + tally votes id VoteAgainst + tally votes id VoteAbstain).

(** Why a proposal may be queued: a multisig admin asked for it, or its vote passed. *)
Definition by_admin (m : option MultisigConfig) (p : Proposal) (x : Z) : Prop :=
  ∃ c, m = Some c ∧ pp_proposer p ∈ mc_admins c ∧ x = pp_created_at p.
Definition by_vote (c : option GovernanceConfig) (p : Proposal) (x : Z) : Prop :=
  ∃ c', c = Some c' ∧ succeeded (verdict_of p c') = true ∧
    pp_end_time p + gc_execution_delay c' < x ≤ pp_end_time p + DEFAULT_TIMELOCK_DURATION + gc_execution_delay c'.

Definition status_ok (c : option GovernanceConfig) (m : option MultisigConfig) (p : Proposal) : Prop :=
  match pp_status p with
  | Pending | Active | Cancelled => True
  | Defeated => ∀ c', c = Some c' → succeeded (verdict_of p c') = false
  | Queued | Executed => ∃ x, pp_execution_time p = Some x ∧ (by_admin m p x ∨ by_vote c p x)
  | Succeeded | Expired => False
  end.

Record proposal_ok (b : Ballot) (id : Z) (p : Proposal) : Prop := {
  po_id : pp_id p = id;
  po_range : 0 ≤ id < bl_next b;
  po_tally : tallies p = counted (bl_votes b) id;
  po_status : status_ok (bl_config b) (bl_multisig b) p;
}.

Record ballot_inv (b : Ballot) : Prop := {
  bi_next : 0 ≤ bl_next b;
  bi_start : bl_admin b = None → bl_config b = None ∧ bl_multisig b = None ∧ bl_proposals b = ∅;
  bi_quorum c : bl_config b = Some c → gc_quorum_bps c ≤ 10000;
  bi_proposals id p : bl_proposals b !! id = Some p → proposal_ok b id p;
  bi_votes id a x : bl_votes b !! (id, a) = Some x →
    vi_proposal_id x = id ∧ vi_voter x = a ∧ vi_voting_power x ≠ 0 ∧ is_Some (bl_proposals b !! id);
}.

(** A proposal replaced, its tallies kept. *)
Lemma inv_replace b id p p' :
  ballot_inv b → bl_proposals b !! id = Some p → pp_id p' = pp_id p → tallies p' = tallies p →
  status_ok (bl_config b) (bl_multisig b) p' → ballot_inv (with_proposal id p' b).
Proof.
  intros [Hn Hs Hq Hp Hv] Hid Heq Ht Hst. split; cbn; try done.
  - intros Ha. destruct (Hs Ha) as (_ & _ & He). by rewrite He in Hid.
  - intros id' q [[<- <-]|[_ Hl]]%lookup_insert_Some; [|by destruct (Hp id' q Hl)].
    destruct (Hp id p Hid) as [Hi Hr Hc _]. split; [congruence|done|by rewrite Ht|done].
  - intros id' a x Hx. destruct (Hv id' a x Hx) as (? & ? & ? & ?). split_and!; try done.
    by apply lookup_insert_is_Some'; right.
Qed.

Lemma tally_absent b id v : ballot_inv b → bl_proposals b !! id = None → tally (bl_votes b) id v = 0.
Proof.
  intros Hinv Hn. unfold tally.
  assert (∀ k x, bl_votes b !! k = Some x → counts_for id v x = 0) as Hz.
  { intros [i a] x (<- & _ & _ & Hs)%(bi_votes b Hinv). unfold counts_for.
    destruct (decide _) as [[Hi _]|]; [|done]. rewrite Hi, Hn in Hs. by destruct Hs. }
  clear -Hz. induction (bl_votes b) as [|k x m Hk IH] using map_ind; [apply map_sum_empty|].
  rewrite map_sum_insert_new by done. rewrite (Hz k x) by apply lookup_insert_eq.
  rewrite IH; [done|]. intros k' x' Hk'. apply (Hz k' x'). rewrite lookup_insert_ne; [done|]. intros ->. congruence.
Qed.

(** A proposal created: nobody has voted on it. *)
Lemma inv_create b p :
  ballot_inv b → bl_admin b ≠ None → pp_id p = bl_next b → tallies p = (0, 0, 0, 0) →
  status_ok (bl_config b) (bl_multisig b) p →
  ballot_inv (with_next (bl_next b + 1) (with_proposal (bl_next b) p b)).
Proof.
  intros Hinv Ha Hid Ht Hst. pose proof Hinv as [Hn Hs Hq Hp Hv].
  assert (bl_proposals b !! bl_next b = None) as Hfresh.
  { destruct (bl_proposals b !! bl_next b) as [q|] eqn:Hl; [|done]. destruct (Hp _ q Hl). lia. }
  split; cbn; try done; [lia| |].
  - intros id q [[<- <-]|[Hne Hl]]%lookup_insert_Some.
    + split; [done|cbn; lia| |done]. cbn [with_next with_proposal bl_votes]. unfold counted.
      by rewrite !(tally_absent b).
    + destruct (Hp id q Hl) as [? ? ? ?]. split; [done|cbn; lia|done|done].
  - intros id a x Hx. destruct (Hv id a x Hx) as (? & ? & ? & ?). split_and!; try done.
    by apply lookup_insert_is_Some'; right.
Qed.

Lemma tally_vote votes i a v x now w :
  votes !! (i, a) = None →
  tally (<[(i, a) := mkVoteInfo a i v x now]> votes) i w = (if decide (v = w) then x else 0) + tally votes i w.
Proof.
  intros Hn. unfold tally. rewrite map_sum_insert_new by done. unfold counts_for. cbn.
  f_equal. destruct (decide (v = w)); [by rewrite decide_True|by rewrite decide_False by tauto].
Qed.

Lemma tally_vote_other votes i a v x now id w :
  votes !! (i, a) = None → i ≠ id →
  tally (<[(i, a) := mkVoteInfo a i v x now]> votes) id w = tally votes id w.
Proof.
  intros Hn Hne. unfold tally. rewrite map_sum_insert_new by done. unfold counts_for. cbn.
  by rewrite decide_False by tauto.
Qed.

(** A vote counted. *)
Lemma inv_vote b i p a v x now :
  ballot_inv b → bl_proposals b !! i = Some p → bl_votes b !! (i, a) = None → x ≠ 0 →
  ballot_inv (with_vote i a (mkVoteInfo a i v x now) (with_proposal i (tallied p v x) b)).
Proof.
  intros [Hn Hs Hq Hp Hv] Hi Hfresh Hx. split; cbn; try done.
  - intros Ha. destruct (Hs Ha) as (_ & _ & He). by rewrite He in Hi.
  - intros id q Hl. destruct (Hp i p Hi) as [Hid Hr Ht _]. unfold tallies, counted in Ht. simplify_eq.
    apply lookup_insert_Some in Hl as [[<- <-]|[Hne Hl]].
    + split; [by destruct v| by destruct v| |by destruct v].
      cbn [with_vote with_proposal bl_votes]. unfold tallies, counted. rewrite !tally_vote by done.
      destruct v; cbn [tallied pp_for_votes]; repeat case_decide; try done; cbn; repeat (apply (f_equal2 pair); [|lia]); lia.
    + destruct (Hp id q Hl) as [? ? Ht' ?]. split; try done.
      cbn [with_vote with_proposal bl_votes]. rewrite Ht'. unfold counted. by rewrite !tally_vote_other by done.
  - intros id a' y [[[= <- <-] <-]|[_ Hl]]%lookup_insert_Some.
    + split_and!; try done. apply lookup_insert_is_Some'. by left.
    + destruct (Hv id a' y Hl) as (? & ? & ? & ?). split_and!; try done. by apply lookup_insert_is_Some'; right.
Qed.

Lemma ballot_step_inv env b b' : ballot_inv b → ballot_step env b b' → ballot_inv b'.
Proof.
  intros Hinv Hstep. pose proof Hinv as [Hn Hs Hq Hp Hv]. destruct Hstep.
  - done.
  - destruct (Hs ltac:(assumption)) as (Hc & Hm & He).
    split; cbn; try done.
    + by intros ? [= <-].
    + intros id p. by rewrite He.
  - apply inv_create; try done. intros Ha. destruct (Hs Ha) as (Hc & _ & _). congruence.
  - apply inv_create; try done.
    + intros Ha. destruct (Hs Ha) as (_ & Hm & _). congruence.
    + cbn. eexists; split; [done|]. left. eexists. by split_and!.
  - by apply inv_vote.
  - eapply inv_replace; [done|done|by unfold judged; destruct (succeeded _)|by unfold judged; destruct (succeeded _)|].
    unfold judged. destruct (succeeded _) eqn:Hv'; cbn; [|intros c' Hc'; by replace c' with c by congruence].
    eexists; split; [done|]. right. eexists. split_and!; [done|done|cbn; lia|cbn; lia].
  - eapply inv_replace; try done. destruct (Hp i p ltac:(assumption)) as [_ _ _ Hst].
    unfold status_ok in *. replace (pp_status p) with Queued in Hst by congruence. done.
  - by eapply inv_replace.
Qed.

Lemma reachable_ballot s : hello_reachable s → ballot_inv (ballot s).
Proof.
  apply (hello_reachable_ind' (λ s, ballot_inv (ballot s))).
  - intros c env s' Hinv. eapply ballot_step_inv; [done|apply dispatch_ballot].
  - split; cbn; done || (intros *; rewrite lookup_empty; done).
Qed.

(** ** The life cycle of a proposal *)

Definition may_become (st st' : ProposalStatus) : bool :=
  match st, st' with
  | (Pending | Active), (Active | Queued | Defeated | Cancelled) => true
  | Defeated, (Defeated | Cancelled) => true
  | Cancelled, Cancelled => true
  | Queued, Executed => true
  | _, _ => false
  end.

(** What never changes in a proposal. *)
Definition terms (p : Proposal) :=
  (pp_id p, pp_proposer p, pp_proposal_type p, pp_description p, pp_start_time p, pp_end_time p,
   pp_voting_threshold p, pp_created_at p).

Definition evolves (p p' : Proposal) : Prop := p' = p ∨ may_become (pp_status p) (pp_status p') = true.

Lemma judged_evolves b i p c now :
  proposal_ok b i p → bl_config b = Some c → can_be_queued (pp_status p) = true →
  terms (judged p c now) = terms p ∧ evolves p (judged p c now).
Proof.
  intros [_ _ _ Hst] Hc Hq. unfold judged, evolves, status_ok in *.
  destruct (pp_status p) eqn:Hp; try done;
    try specialize (Hst c Hc); destruct (succeeded (verdict_of p c)) eqn:Hv; try done; by auto.
Qed.

Lemma ballot_step_evolves env b b' id p :
  ballot_inv b → ballot_step env b b' → bl_proposals b !! id = Some p →
  ∃ p', bl_proposals b' !! id = Some p' ∧ terms p' = terms p ∧ evolves p p'.
Proof.
  intros Hinv Hstep Hid. pose proof (bi_proposals b Hinv id p Hid) as Hok.
  assert (∀ i q q', bl_proposals b !! i = Some q → terms q' = terms q → evolves q q' →
    ∃ p', <[i := q']> (bl_proposals b) !! id = Some p' ∧ terms p' = terms p ∧ evolves p p') as Hput.
  { intros i q q' Hq Ht Hev. destruct (decide (i = id)) as [->|Hne].
    - rewrite lookup_insert_eq. assert (q = p) as -> by congruence. exists q'. by split_and!.
    - rewrite lookup_insert_ne by done. exists p. split_and!; try done. by left. }
  assert (∀ q, ∃ p', <[bl_next b := q]> (bl_proposals b) !! id = Some p' ∧ terms p' = terms p ∧ evolves p p') as Hnew.
  { intros q. destruct Hok as [_ Hr _ _]. rewrite lookup_insert_ne by lia. exists p. split_and!; try done. by left. }
  destruct Hstep; cbn; try (by apply Hnew); try (exists p; split_and!; [done|done|by left]).
  - eapply Hput; [done|by destruct v|]. right.
    replace (pp_status (tallied p0 v x)) with Active by (by destruct v).
    match goal with H : _ ∨ _ |- _ => by destruct H as [Hst|Hst]; rewrite Hst end.
  - eapply Hput; [done|..]; eapply judged_evolves; try done; by apply (bi_proposals b Hinv).
  - eapply Hput; [done|done|]. right. cbn. by replace (pp_status p0) with Queued by congruence.
  - eapply Hput; [done|done|]. right. cbn.
    pose proof (po_status _ _ _ (bi_proposals b Hinv i p0 ltac:(assumption))) as Hst. unfold status_ok in Hst.
    destruct (pp_status p0); done.
Qed.


Lemma executed_is_final s s' id p :
  hello_reachable s → hello_run s s' → gkProposal (hs_gov s) !! id = Some p → pp_status p = Executed →
  gkProposal (hs_gov s') !! id = Some p.
Proof.
  intros Hs Hrun Hid Hst. induction Hrun as [|s' c env Hrun IH]; [done|].
  assert (hello_reachable s') as Hs' by (by eapply hello_reachable_run).
  destruct (ballot_step_evolves env _ _ id p (reachable_ballot s' Hs') (dispatch_ballot c env s') IH)
    as (p' & Hp' & _ & [->|Hb]); [done|]. by rewrite Hst in Hb.
Qed.

(** C12: in every reachable state the tallies of each proposal are the sums of
    its recorded votes by type, the total is the sum of the three, every
    recorded vote belongs to its voter and an existing proposal, and who has
    voted cannot vote again. *)
Theorem governance_counts_votes s :
  hello_reachable s →
  (∀ id p, gkProposal (hs_gov s) !! id = Some p →
    pp_id p = id ∧ pp_for_votes p = tally (gkVote (hs_gov s)) id VoteFor ∧
    pp_against_votes p = tally (gkVote (hs_gov s)) id VoteAgainst ∧
    pp_abstain_votes p = tally (gkVote (hs_gov s)) id VoteAbstain ∧
    pp_total_voting_power p = pp_for_votes p + pp_against_votes p + pp_abstain_votes p) ∧
  (∀ id a x, gkVote (hs_gov s) !! (id, a) = Some x →
    vi_proposal_id x = id ∧ vi_voter x = a ∧ vi_voting_power x ≠ 0 ∧ is_Some (gkProposal (hs_gov s) !! id) ∧
    ∀ v env u s', vote a id v env s ≠ (Ok u, s')).
Proof.
  intros Hs. pose proof (reachable_ballot s Hs) as Hinv. split.
  - intros id p Hp. destruct (bi_proposals _ Hinv id p Hp) as [Hid _ Ht _].
    unfold tallies, counted in Ht. injection Ht as H1 H2 H3 H4. cbn in *. split_and!; try done. lia.
  - intros id a x Hx. destruct (bi_votes _ Hinv id a x Hx) as (? & ? & ? & ?). split_and!; try done.
    intros v env u s' (p & c & y & _ & _ & _ & Hn & _)%vote_runs. cbn in Hn. congruence.
Qed.


(** ** The verdict of a vote *)

Lemma share_le total q : 0 ≤ total → 0 ≤ q ≤ BASIS_POINTS_SCALE → Z.quot (total * q) BASIS_POINTS_SCALE ≤ total.
Proof.
  unfold BASIS_POINTS_SCALE. intros Ht Hq. rewrite quot_pos by (try apply Z.mul_nonneg_nonneg; lia).
  apply Z.div_le_upper_bound; [lia|]. rewrite (Z.mul_comm total). apply Z.mul_le_mono_nonneg_r; lia.
Qed.

(** Judging a proposal: it is queued exactly when the votes reach the
    quorum and the votes for it its threshold, and is defeated otherwise; it is
    judged only after its end, within seven days, and nothing but its status and
    execution time changes; the quorum, being a share (at most 100%) of the
    votes cast, is always reached. *)
Theorem vote_decides_proposal a i env s o s' :
  queue_proposal a i env s = (Ok o, s') →
  ∃ p c p', gkProposal (hs_gov s) !! i = Some p ∧ gkConfig (hs_gov s) = Some c ∧
    can_be_queued (pp_status p) = true ∧
    pp_end_time p < timestamp env ≤ pp_end_time p + DEFAULT_TIMELOCK_DURATION ∧
    gkProposal (hs_gov s') = <[i := p']> (gkProposal (hs_gov s)) ∧ terms p' = terms p ∧
    let total := pp_for_votes p + pp_against_votes p + pp_abstain_votes p in
    po_quorum_required o = Z.quot (total * gc_quorum_bps c) 10000 ∧
    (po_succeeded o = true ↔ po_quorum_required o ≤ total ∧
       Z.quot (pp_total_voting_power p * pp_voting_threshold p) 10000 ≤ pp_for_votes p) ∧
    (if po_succeeded o then pp_status p' = Queued ∧ pp_execution_time p' = Some (timestamp env + gc_execution_delay c)
     else pp_status p' = Defeated) ∧
    (0 ≤ total → 0 ≤ gc_quorum_bps c ≤ 10000 → po_quorum_reached o = true).
Proof.
  intros (p & c & Hp & Hc & _ & Hq & Ht & -> & Hb)%queue_proposal_runs.
  exists p, c, (judged p c (timestamp env)). split_and!; try done; try lia.
  - by injection Hb.
  - unfold judged. by destruct (succeeded _).
  - cbv zeta. cbn [po_succeeded po_quorum_required po_quorum_reached].
    split; [done|split; [|split]].
    + unfold succeeded. by rewrite andb_true_iff, <- !Z.leb_le.
    + unfold judged. by destruct (succeeded _) eqn:?.
    + intros Hn Hr. by apply Z.leb_le, share_le.
Qed.

(** ** Vote delegation *)

Definition delegations (s : HState) : gmap Address DelegationEntry * gmap Address VoteLock :=
  (gkDelegationRecord (hs_gov s), gkVoteLock (hs_gov s)).

Definition keeps_delegations {E A} (m : M HState E A) : Prop := ∀ x, preserves (λ s, delegations s = x) m.

Ltac keep_delegations :=
  let st := fresh "st" in intros st; open_ops; unfold set_risk_params, update_interest_rate_config,
    set_config, set_rate_config, update_lending_index, year_in_bps; open_ops; preserve; assumption.

(** An account with an entry delegates to one account, or is delegated to by one. *)
Record paired (d : gmap Address DelegationEntry) : Prop := {
  pd_record a r : d !! a = Some (IsRecord r) →
    dr_delegator r = a ∧ dr_depth r = 1 ∧ d !! dr_delegatee r = Some (IsDelegators [a]);
  pd_list b l : d !! b = Some (IsDelegators l) →
    ∃ a r, l = [a] ∧ d !! a = Some (IsRecord r) ∧ dr_delegatee r = b;
}.

Definition deleg_inv (x : gmap Address DelegationEntry * gmap Address VoteLock) : Prop := paired x.1 ∧ x.2 = ∅.

Definition delegated (a b : Address) (now : Z) (d : gmap Address DelegationEntry) : gmap Address DelegationEntry :=
  <[b := IsDelegators [a]]> (<[a := IsRecord (mkDelegationRecord a b now 1)]> d).

Lemma read_record_Ok a env s r s' :
  read_record a env s = (Ok r, s') → gkDelegationRecord (hs_gov s) !! a = IsRecord <$> r ∧ s' = s.
Proof.
  unfold read_record, gov. rewrite bind_eq. cbn [gets].
  destruct (gkDelegationRecord (hs_gov s) !! a) as [[r'|l]|]; intros H; run_inv H; done.
Qed.

Lemma read_delegators_Ok a env s l s' :
  read_delegators a env s = (Ok l, s') →
  s' = s ∧ (gkDelegationRecord (hs_gov s) !! a = None ∧ l = [] ∨
            gkDelegationRecord (hs_gov s) !! a = Some (IsDelegators l)).
Proof.
  unfold read_delegators, gov. rewrite bind_eq. cbn [gets].
  destruct (gkDelegationRecord (hs_gov s) !! a) as [[r|l']|]; intros H; run_inv H; auto.
Qed.

(** A delegation goes through only between two accounts without an entry. *)
Lemma delegate_vote_runs a b env s u s' :
  delegate_vote a b env s = (Ok u, s') →
  authorized env a = true ∧ a ≠ b ∧ gkDelegationRecord (hs_gov s) !! a = None ∧
  gkDelegationRecord (hs_gov s) !! b = None ∧
  delegations s' = (delegated a b (timestamp env) (gkDelegationRecord (hs_gov s)), gkVoteLock (hs_gov s)).
Proof.
  unfold delegate_vote, get_delegation_depth. intros H. run_inv H; zbool.
  match goal with H : read_record _ _ _ = _ |- _ => apply read_record_Ok in H as [Hb ->] end.
  match goal with H : read_delegators _ _ _ = _ |- _ => apply read_delegators_Ok in H as [-> Hl] end.
  cbn in Hl. rewrite lookup_insert_ne, Hb in Hl by done.
  match goal with H : ¬ is_Some _ |- _ => apply eq_None_not_Some in H end.
  destruct Hl as [[Hr ->]|Hr];
    match type of Hr with _ <$> ?o = _ => destruct o; [done|]; by split_and! end.
Qed.

Lemma paired_delegated d a b now :
  paired d → a ≠ b → d !! a = None → d !! b = None → paired (delegated a b now d).
Proof.
  intros [Hr Hl] Hne Ha Hb. unfold delegated. split.
  - intros x r [[<- [=]]|[Hx Hl1]]%lookup_insert_Some.
    apply lookup_insert_Some in Hl1 as [[<- [= <-]]|[Hx' Hl1]].
    + cbn. split_and!; [done|done|]. by rewrite lookup_insert_eq.
    + destruct (Hr x r Hl1) as (? & ? & Hp). split_and!; try done.
      rewrite !lookup_insert_ne; [done|..]; intros Heq; rewrite <- Heq in Hp; congruence.
  - intros y l [[<- [= <-]]|[Hy Hl1]]%lookup_insert_Some.
    + exists a, (mkDelegationRecord a b now 1). split_and!; [done| |done]. rewrite lookup_insert_ne by done. by rewrite lookup_insert_eq.
    + apply lookup_insert_Some in Hl1 as [[_ [=]]|[Hy' Hl1]].
      destruct (Hl y l Hl1) as (x & r & -> & Hx & Hd). exists x, r. split_and!; try done.
      rewrite !lookup_insert_ne; [done|..]; intros Heq; rewrite <- Heq in Hx; congruence.
Qed.

Lemma vote_delegations a i v : keeps_delegations (vote a i v).
Proof. keep_delegations. Qed.
Lemma execute_type_delegations t : keeps_delegations (execute_proposal_type t).
Proof. destruct t; keep_delegations. Qed.
Lemma execute_proposal_delegations a i : keeps_delegations (execute_proposal a i).
Proof.
  intros x. unfold execute_proposal. pose proof (λ t, execute_type_delegations t x). open_ops. preserve; assumption.
Qed.

Lemma execute_timelock_delegations a i : keeps_delegations (execute_timelock_operation a i).
Proof.
  intros x. unfold execute_timelock_operation. pose proof (λ t, execute_type_delegations t x). open_ops.
  preserve; assumption.
Qed.

Lemma dispatch_delegations c env s :
  deleg_inv (delegations s) → deleg_inv (delegations (hello_dispatch c env s)).
Proof.
  intros Hinv.
  assert (∀ E A (m : M HState E A), keeps_delegations m → deleg_inv (delegations (invoke m env s).2)) as Hkeep.
  { intros E A m Hm. pose proof (invoke_keeps (λ s', delegations s' = delegations s) m env s (Hm _) eq_refl) as Heq.
    cbn beta in Heq. by rewrite Heq. }
  destruct c; simpl; try (apply Hkeep; first
    [apply vote_delegations|apply execute_proposal_delegations|apply execute_timelock_delegations|keep_delegations]).
  destruct (invoke_cases (delegate_vote delegator delegatee) env s) as [(u & s' & H & ->)| ->]; [|done].
  apply delegate_vote_runs in H as (_ & Hne & Ha & Hb & ->). destruct Hinv as [Hp Hl].
  split; [by apply paired_delegated|done].
Qed.

Lemma reachable_delegations s : hello_reachable s → deleg_inv (delegations s).
Proof.
  apply (hello_reachable_ind' (λ s, deleg_inv (delegations s))); [intros; by apply dispatch_delegations|].
  split; [|done]. split; intros *; cbn; by rewrite lookup_empty.
Qed.

Lemma delegate_vote_succeeds a b env s :
  authorized env a = true → a ≠ b → gkVoteLock (hs_gov s) = ∅ →
  gkDelegationRecord (hs_gov s) !! a = None → gkDelegationRecord (hs_gov s) !! b = None →
  ∃ s', delegate_vote a b env s = (Ok tt, s').
Proof.
  intros Hauth Hne Hlock Ha Hb. eexists.
  unfold delegate_vote, get_delegation_depth, read_record, read_delegators, gov, require_auth, is_vote_locked,
    set_delegation_entry, on_gov, publish.
  run_fwd. rewrite Hauth. cbv beta iota. rewrite bool_decide_false by done. run_fwd.
  rewrite Hlock, lookup_empty. run_fwd. rewrite Ha, bool_decide_false by (by intros [? ?]). run_fwd.
  rewrite Hb. run_fwd. change (MAX_DELEGATION_DEPTH <=? 0) with false. run_fwd.
  match goal with |- context[match ?o with Some _ => _ | None => _ end] =>
    assert (o = None) as -> by (cbn; by rewrite lookup_insert_ne) end.
  run_fwd. reflexivity.
Qed.

(** In every reachable state the entries under the delegation key, which
    holds records and lists, form pairs of one delegator and one delegatee; a
    delegation goes through exactly between two accounts without an entry, and a
    delegator's votes always fail. *)
Theorem delegations_are_pairs s :
  hello_reachable s →
  paired (gkDelegationRecord (hs_gov s)) ∧
  (∀ a b env, (∃ u s', delegate_vote a b env s = (Ok u, s')) ↔
    authorized env a = true ∧ a ≠ b ∧ gkDelegationRecord (hs_gov s) !! a = None ∧
    gkDelegationRecord (hs_gov s) !! b = None) ∧
  (∀ a r i v env u s', gkDelegationRecord (hs_gov s) !! a = Some (IsRecord r) → vote a i v env s ≠ (Ok u, s')).
Proof.
  intros Hs. destruct (reachable_delegations s Hs) as [Hp Hl]. cbn in Hp, Hl. split_and!; [done|..].
  - intros a b env. split.
    + intros (u & s' & (? & ? & ? & ? & _)%delegate_vote_runs). by split_and!.
    + intros (? & ? & ? & ?). destruct (delegate_vote_succeeds a b env s) as [s' Hok]; try done. by exists tt, s'.
  - intros a r i v env u s' Ha H. unfold vote in H. run_inv H.
    all: match goal with H : get_vote_power_with_delegation _ _ _ _ _ = _ |- _ => rename H into Hw end.
    all: unfold get_vote_power_with_delegation, get_snapshotted_vote_power, get_delegated_power_for_voter in Hw.
    all: run_step Hw; subst; match goal with H : read_delegators _ _ _ = _ |- _ =>
      apply read_delegators_Ok in H as [-> [[? ?]|?]]; congruence end.
Qed.

(** ** A concrete run

    Account 1 is the admin; accounts 2 and 3 hold 60 and 40 of the vote token 9. *)

Definition holders (t : Z) : Env :=
  mkEnvironment t 0 (λ _, true) (λ _ _, None) (λ _ _ _ _, None)
    (λ token a, if bool_decide (token = 9%positive)
                then Some (if bool_decide (a = 2%positive) then 60 else if bool_decide (a = 3%positive) then 40 else 0)
                else None).

Definition governed : HState :=
  run_calls empty_hello
    [(CallInitialize 1%positive, holders 100);
     (CallGovInitialize 1%positive 9%positive (Some 100) (Some 10) None None (Some 1000) None, holders 100)].
Definition voted : HState :=
  run_calls governed
    [(CallCreateProposal 2%positive (MinCollateralRatio 12000) "" None, holders 100);
     (CallVote 2%positive 0 VoteFor, holders 150); (CallVote 3%positive 0 VoteAgainst, holders 160)].
Definition queued : HState := hello_dispatch (CallQueueProposal 3%positive 0) (holders 201) voted.
Definition paired_up : HState := hello_dispatch (CallDelegateVote 4%positive 5%positive) (holders 100) governed.

Lemma governed_reachable : hello_reachable governed.
Proof. apply run_calls_reachable. Qed.
Lemma voted_reachable : hello_reachable voted.
Proof. apply (hello_reachable_run governed); [apply governed_reachable|apply run_calls_run]. Qed.
Lemma queued_reachable : hello_reachable queued.
Proof. apply hello_step, voted_reachable. Qed.
Lemma paired_up_reachable : hello_reachable paired_up.
Proof. apply hello_step, governed_reachable. Qed.


Lemma governance_counts_votes_witness :
  tally (gkVote (hs_gov voted)) 0 VoteFor = 60 ∧ tally (gkVote (hs_gov voted)) 0 VoteAgainst = 40 ∧
  (pp_total_voting_power <$> gkProposal (hs_gov voted) !! 0) = Some 100 ∧
  ∀ v u s', vote 2%positive 0 v (holders 170) voted ≠ (Ok u, s').
Proof.
  destruct (governance_counts_votes voted voted_reachable) as [_ H].
  split_and!; [vm_compute; reflexivity|vm_compute; reflexivity|vm_compute; reflexivity|].
  intros v u s'.
  assert (Hx : gkVote (hs_gov voted) !! (0, 2%positive) = Some (mkVoteInfo 2%positive 0 VoteFor 60 150)) by (vm_compute; reflexivity).
  destruct (H 0 2%positive _ Hx) as (_ & _ & _ & _ & Hn). apply Hn.
Defined.


Lemma vote_decides_proposal_witness :
  ∃ o s', queue_proposal 3%positive 0 (holders 201) voted = (Ok o, s') ∧
    po_succeeded o = true ∧ po_quorum_required o = 40 ∧ po_quorum_reached o = true.
Proof.
  destruct (queue_proposal 3%positive 0 (holders 201) voted) as [r s'] eqn:H.
  destruct r as [o|e|]; [|by vm_compute in H|by vm_compute in H].
  destruct (vote_decides_proposal _ _ _ _ _ _ H) as (p & c & p' & Hp & Hc & _ & _ & _ & _ & Hq & _ & _ & Hv).
  exists o, s'. vm_compute in Hp, Hc. simplify_eq. cbn in Hq, Hv.
  split_and!; [done|vm_compute in H; injection H as <- _; reflexivity|exact Hq|apply Hv; lia].
Defined.

Lemma delegations_are_pairs_witness :
  gkDelegationRecord (hs_gov paired_up) !! 4%positive =
    Some (IsRecord (mkDelegationRecord 4%positive 5%positive 100 1)) ∧
  (∀ u s', delegate_vote 2%positive 5%positive (holders 120) paired_up ≠ (Ok u, s')) ∧
  (∃ u s', delegate_vote 2%positive 3%positive (holders 120) paired_up = (Ok u, s')).
Proof.
  destruct (delegations_are_pairs paired_up paired_up_reachable) as (_ & H & _).
  split_and!; [vm_compute; reflexivity| |].
  - intros u s' Hd. destruct (proj1 (H 2%positive 5%positive (holders 120)) (ex_intro _ u (ex_intro _ s' Hd))) as (_ & _ & _ & Hb).
    by vm_compute in Hb.
  - apply H. split_and!; [done|done|vm_compute; reflexivity|vm_compute; reflexivity].
Defined.
