(* ===== verification/GovernanceLimits.v ===== *)
(** * GovernanceLimits: what governance does not ask for

    Runs that succeed: a proposal nobody votes on takes effect, since its
    quorum is a share of the votes cast; a timelock operation needs no vote and
    no admin; and the entry points that name the admin do not ask for its
    signature. *)

From S2P Require Import Prelude.
From S2P Require Import Host.
From S2P Require Import HelloTypes.
From S2P Require Import HelloParams.
From S2P Require Import Governance.
From S2P Require Import HelloCalls.
From S2P Require Import ParamSafety.
From S2P Require Import GovernanceSafety.

(** ** Runs that succeed *)

Lemma validate_parameter_change_succeeds old new env s :
  0 ≤ old ≤ 50000 → near old new → validate_parameter_change old new env s = (Ok tt, s).
Proof.
  unfold near. intros Ho Hn. unfold validate_parameter_change, MAX_PARAMETER_CHANGE_BPS, BASIS_POINTS_SCALE.
  rewrite (checked_mul_fits old 1000) by (apply in_i128_spec; rewrite I128_MIN_eq, I128_MAX_eq; lia).
  replace (if old <? new then checked_sub new old else checked_sub old new) with (Some (Z.abs (new - old)))
    by (destruct (Z.ltb_spec old new); rewrite checked_sub_fits;
        (f_equal; lia) || (apply in_i128_spec; rewrite I128_MIN_eq, I128_MAX_eq; lia)).
  run_fwd. rewrite checked_div_fits by (rewrite ?I128_MAX_eq; lia). run_fwd.
  rewrite (proj2 (Z.ltb_ge _ _)); [done|]. apply Z.div_le_lower_bound; lia.
Qed.

Lemma validate_risk_params_succeeds c env s : valid_risk c → validate_risk_params c env s = (Ok tt, s).
Proof.
  unfold valid_risk. intros (? & ? & ? & ? & ?). unfold validate_risk_params.
  repeat match goal with |- context[?a <? ?b] => rewrite (proj2 (Z.ltb_ge a b)) by lia end. reflexivity.
Qed.

(** A minimum collateral ratio within the limits can be set. *)
Lemma set_min_ratio_succeeds p ratio env s :
  get_risk_params s = Some p → valid_risk p → near (rp_min_collateral_ratio p) ratio →
  valid_risk (p <| rp_min_collateral_ratio := ratio |>) →
  ∃ s', set_risk_params (Some ratio) None None None env s = (Ok tt, s') ∧
    get_risk_params s' = Some (p <| rp_min_collateral_ratio := ratio |> <| rp_last_update := timestamp env |>) ∧
    hs_gov s' = hs_gov s.
Proof.
  intros Hp Hv Hn Hv'. unfold set_risk_params, change_param. rewrite bind_eq. unfold gets. rewrite Hp. run_fwd.
  rewrite validate_parameter_change_succeeds; [|unfold valid_risk, MIN_COLLATERAL_RATIO_MIN, MIN_COLLATERAL_RATIO_MAX in Hv; lia|done].
  run_fwd. rewrite validate_risk_params_succeeds by done. run_fwd.
  unfold set_config, on_risk, publish. run_fwd. eexists. split_and!; reflexivity.
Qed.

Lemma plus_time_run a b env s : 0 ≤ a + b ≤ U64_MAX → plus_time a b env s = (Ok (a + b), s).
Proof. intros H. unfold plus_time, u64_checked_add. by rewrite fits_u64. Qed.

Lemma create_proposal_succeeds a t d o c env s :
  gkConfig (hs_gov s) = Some c → gc_proposal_threshold c ≤ 0 → authorized env a = true →
  Z.of_nat (String.length d) ≤ MAX_DESCRIPTION_LEN → 0 ≤ timestamp env + gc_voting_period c ≤ U64_MAX →
  0 ≤ default 0 (gkNextProposalId (hs_gov s)) < U64_MAX →
  ∃ s', create_proposal a t d o env s = (Ok (default 0 (gkNextProposalId (hs_gov s))), s').
Proof.
  intros Hc Hthr Ha Hd Ht Hn.
  unfold create_proposal, check_description, the_config, gov, next_proposal_id, advance_proposal_id, set_proposal, require_auth, on_gov, publish.
  run_fwd. rewrite Ha. cbv beta iota. rewrite (proj2 (Z.ltb_ge _ _)) by done. run_fwd. rewrite Hc. run_fwd.
  rewrite (proj2 (Z.ltb_ge _ _)) by done. unfold gov. run_fwd. rewrite plus_time_run by done. run_fwd.
  rewrite plus_time_run by lia. run_fwd. eexists. reflexivity.
Qed.

Lemma queue_proposal_succeeds a i p c env s :
  gkProposal (hs_gov s) !! i = Some p → gkConfig (hs_gov s) = Some c → authorized env a = true →
  can_be_queued (pp_status p) = true → 
  pp_end_time p < timestamp env ≤ pp_end_time p + DEFAULT_TIMELOCK_DURATION →
  0 ≤ pp_end_time p + DEFAULT_TIMELOCK_DURATION ≤ U64_MAX →
  0 ≤ timestamp env + gc_execution_delay c ≤ U64_MAX → tallies p = (0, 0, 0, 0) →
  succeeded (verdict_of p c) = true ∧ ∃ o s', queue_proposal a i env s = (Ok o, s').
Proof.
  intros Hp Hc Ha Hst Ht Hb Hd. unfold tallies. intros [= Hf Hag Hab Htot].
  assert (succeeded (verdict_of p c) = true) as Hs.
  { unfold succeeded, verdict_of. cbn. by rewrite Hf, Hag, Hab, Htot. }
  assert (verdict p c env s = (Ok (verdict_of p c), s)) as Hv.
  { unfold verdict, verdict_of. rewrite Hf, Hag, Hab, Htot. reflexivity. }
  split; [done|]. unfold queue_proposal, the_config, the_proposal, gov, set_proposal, require_auth, on_gov, publish.
  run_fwd. rewrite Ha. cbv beta iota. run_fwd. rewrite Hc. run_fwd. rewrite Hp. run_fwd.
  rewrite (proj2 (Z.leb_gt _ _)) by lia. run_fwd. rewrite Hst. run_fwd. rewrite plus_time_run by done. run_fwd.
  rewrite (proj2 (Z.ltb_ge _ _)) by lia. run_fwd. rewrite Hv. run_fwd. rewrite Hs. run_fwd.
  rewrite plus_time_run by done. run_fwd. eexists _, _. reflexivity.
Qed.

Lemma execute_proposal_succeeds a i p x c env s s1 :
  gkProposal (hs_gov s) !! i = Some p → gkConfig (hs_gov s) = Some c → authorized env a = true →
  pp_status p = Queued → pp_execution_time p = Some x → x ≤ timestamp env ≤ x + gc_timelock_duration c →
  0 ≤ x + gc_timelock_duration c ≤ U64_MAX → execute_proposal_type (pp_proposal_type p) env s = (Ok tt, s1) →
  ∃ s', execute_proposal a i env s = (Ok tt, s').
Proof.
  intros Hp Hc Ha Hst Hx Ht Hb Hex.
  unfold execute_proposal, the_config, the_proposal, gov, set_proposal, require_auth, on_gov, publish.
  run_fwd. rewrite Ha. cbv beta iota. run_fwd. rewrite Hc. run_fwd. rewrite Hp. run_fwd.
  rewrite bool_decide_false by (rewrite Hst; auto). run_fwd. rewrite Hx. run_fwd.
  rewrite (proj2 (Z.ltb_ge _ _)) by lia. run_fwd. rewrite plus_time_run by done. run_fwd.
  rewrite (proj2 (Z.ltb_ge _ _)) by lia. run_fwd. rewrite Hex. run_fwd. eexists. reflexivity.
Qed.

(** ** What needs nobody's consent *)

(** An invocation at time [t] that only [a] has signed. *)
Definition signed_by (a : Address) (t : Z) : Env :=
  mkEnv t 0 (λ x, bool_decide (x = a)) (λ _ _, None) (λ _ _ _ _, None).

Lemma signed_by_auth a t : authorized (signed_by a t) a = true.
Proof. by apply bool_decide_true. Qed.

Lemma invoke_success {E A} (m : M HState E A) env s x s' : m env s = (Ok x, s') → (invoke m env s).2 = s'.
Proof. unfold invoke. by intros ->. Qed.

(** An admissible new minimum collateral ratio. *)
Definition admissible (p : RiskParams) (ratio : Z) : Prop :=
  near (rp_min_collateral_ratio p) ratio ∧ valid_risk (p <| rp_min_collateral_ratio := ratio |>).

Lemma set_min_ratio_type p ratio env s :
  hello_reachable s → get_risk_params s = Some p → admissible p ratio → ∀ s1, core s1 = core s →
  ∃ s2, execute_proposal_type (MinCollateralRatio ratio) env s1 = (Ok tt, s2) ∧
    get_risk_params s2 = Some (p <| rp_min_collateral_ratio := ratio |> <| rp_last_update := timestamp env |>) ∧
    hs_gov s2 = hs_gov s1.
Proof.
  intros Hs Hp [Hn Hv] s1 Hc. cbn [execute_proposal_type].
  destruct (set_min_ratio_succeeds p ratio env s1) as (s2 & H & Hp' & Hg); try done.
  - unfold core in Hc. injection Hc as _ Hr _. unfold get_risk_params in *. by rewrite Hr.
  - by apply (ci_risk s (reachable_core s Hs)).
  - exists s2. split_and!; [|done|done]. unfold map_err. by rewrite H.
Qed.

(** Without a proposal threshold, any account by itself can set the minimum
    collateral ratio to any admissible value: it proposes, queues and executes
    in the windows the configuration gives, and nobody has to vote. *)
Theorem unopposed_proposals_take_effect a ratio c p s t0 t1 t2 :
  hello_reachable s → gkConfig (hs_gov s) = Some c → gc_proposal_threshold c ≤ 0 →
  get_risk_params s = Some p → admissible p ratio →
  let id := default 0 (gkNextProposalId (hs_gov s)) in
  let ready := t1 + gc_execution_delay c in
  0 ≤ id < U64_MAX → 0 ≤ t0 + gc_voting_period c →
  t0 + gc_voting_period c < t1 ≤ t0 + gc_voting_period c + DEFAULT_TIMELOCK_DURATION →
  0 ≤ ready ≤ t2 → t2 ≤ ready + gc_timelock_duration c →
  t0 + gc_voting_period c + DEFAULT_TIMELOCK_DURATION ≤ U64_MAX → ready + gc_timelock_duration c ≤ U64_MAX →
  let s1 := hello_dispatch (CallCreateProposal a (MinCollateralRatio ratio) "" None) (signed_by a t0) s in
  let s2 := hello_dispatch (CallQueueProposal a id) (signed_by a t1) s1 in
  let s3 := hello_dispatch (CallExecuteProposal a id) (signed_by a t2) s2 in
  rp_min_collateral_ratio <$> get_risk_params s3 = Some ratio ∧ gkVote (hs_gov s3) = gkVote (hs_gov s).
Proof.
  intros Hs Hc Hthr Hp Hadm id ready Hid Hstart Ht1 Hready Ht2 Hb1 Hb2 s1 s2 s3.
  pose proof (signed_by_auth a) as Hauth. unfold DEFAULT_TIMELOCK_DURATION in *.
  destruct (create_proposal_succeeds a (MinCollateralRatio ratio) "" None c (signed_by a t0) s) as [x1 H1];
    [done|done|done|cbn; unfold MAX_DESCRIPTION_LEN; lia|cbn; lia|done|].
  assert (s1 = x1) as -> by exact (invoke_success _ _ _ _ _ H1).
  pose proof (keeps_core_run _ _ _ _ _ (create_proposal_core _ _ _ _) H1) as Hcore1.
  apply create_proposal_runs in H1 as (c' & Hc' & _ & _ & Hb). cbn in Hc'. simplify_eq. fold id in Hb.
  injection Hb as _ Hc1 _ _ Hps Hvs. cbn in Hc1, Hps, Hvs.
  set (q := fresh_proposal _ _ _ _ _ _ _ _ _) in Hps.
  destruct (queue_proposal_succeeds a id q c (signed_by a t1) x1) as [Hverdict (o & x2 & H2)];
    [by rewrite Hps, lookup_insert_eq|congruence|done|done|cbn; unfold DEFAULT_TIMELOCK_DURATION; lia
    |cbn; unfold DEFAULT_TIMELOCK_DURATION; lia|cbn; fold ready; lia|done|].
  assert (s2 = x2) as -> by exact (invoke_success _ _ _ _ _ H2).
  pose proof (keeps_core_run _ _ _ _ _ (queue_proposal_core _ _) H2) as Hcore2.
  apply queue_proposal_runs in H2 as (q' & c' & Hq' & Hc' & _ & _ & _ & _ & Hb). cbn in Hq', Hc'.
  rewrite Hps, lookup_insert_eq in Hq'. assert (q' = q) as -> by congruence. assert (c' = c) as -> by congruence.
  unfold judged in Hb. rewrite Hverdict in Hb. injection Hb as _ Hc2 _ _ Hps2 Hvs2. cbn in Hc2, Hps2, Hvs2.
  destruct (set_min_ratio_type p ratio (signed_by a t2) s Hs Hp Hadm x2) as (y & Hex & Hp' & _);
    [unfold core in *; congruence|].
  destruct (execute_proposal_succeeds a id (q <| pp_execution_time := Some ready |> <| pp_status := Queued |>)
    ready c (signed_by a t2) x2 y) as [x3 H3]; try done; [by rewrite Hps2, lookup_insert_eq|congruence|cbn; lia|lia|].
  assert (s3 = x3) as -> by exact (invoke_success _ _ _ _ _ H3).
  pose proof (execute_proposal_ballot _ _ _ _ _ _ H3) as (? & ? & ? & _ & _ & _ & _ & _ & Hb).
  apply execute_proposal_runs in H3 as (q3 & ? & ? & y' & Hq3 & _ & _ & _ & _ & _ & Hex' & ->).
  rewrite Hps2, lookup_insert_eq in Hq3. simplify_eq. cbn in Hex, Hex'. split.
  - cbn. rewrite Hex in Hex'. simplify_eq. change (rp_min_collateral_ratio <$> get_risk_params y' = Some ratio).
    by rewrite Hp'.
  - injection Hb as _ _ _ _ _ Hvs3. rewrite <- Hvs, <- Hvs2. exact Hvs3.
Qed.

(** Any account by itself can set the minimum collateral ratio to any
    admissible value at once: it configures the timelock without a delay, queues
    the change and executes it, and no vote, proposal or admin is involved. *)
Theorem timelock_needs_no_vote a ratio p s t grace :
  hello_reachable s → get_risk_params s = Some p → admissible p ratio → 0 ≤ t → 0 ≤ grace → t + grace ≤ U64_MAX →
  let env := signed_by a t in
  let s1 := hello_dispatch (CallInitializeTimelock (mkTimelockConfig 0 0 0 grace)) env s in
  let s2 := hello_dispatch (CallQueueTimelockOperation a (MinCollateralRatio ratio) "" None) env s1 in
  let s3 := hello_dispatch (CallExecuteTimelockOperation a 0) env s2 in
  rp_min_collateral_ratio <$> get_risk_params s3 = Some ratio ∧ hs_gov s3 = hs_gov s.
Proof.
  intros Hs Hp Hadm Ht Hg Hb env s1 s2 s3.
  assert (∃ x1, initialize_timelock (mkTimelockConfig 0 0 0 grace) env s = (Ok tt, x1) ∧ core x1 = core s ∧
    hs_gov x1 = hs_gov s ∧ tkTimelockConfig (hs_timelock x1) = Some (mkTimelockConfig 0 0 0 grace) ∧
    tkNextTimelockId (hs_timelock x1) = Some 0) as (x1 & H1 & Hc1 & Hg1 & Hconf & Hnext) by by eexists.
  assert (s1 = x1) as -> by exact (invoke_success _ _ _ _ _ H1).
  set (o := mkTimelockOperation 0 (MinCollateralRatio ratio) "" a t t (t + grace) TLPending 0).
  assert (∃ x2, queue_timelock_operation a (MinCollateralRatio ratio) "" None env x1 = (Ok 0, x2) ∧
    core x2 = core x1 ∧ hs_gov x2 = hs_gov x1 ∧ tkTimelockOperation (hs_timelock x2) !! 0 = Some o)
    as (x2 & H2 & Hc2 & Hg2 & Ho).
  { unfold queue_timelock_operation, require_auth, get_timelock_config, next_timelock_id, set_operation,
      on_timelock, publish. run_fwd. unfold env at 1. rewrite signed_by_auth. cbv beta iota. run_fwd.
    rewrite Hconf. cbn [default from_option id tc_default_delay tc_min_delay tc_max_delay tc_grace_period].
    change ((0 <? 0) || (0 <? 0)) with false. run_fwd. rewrite Hnext. change (timestamp env) with t.
    cbn [default from_option id]. rewrite plus_time_run by lia. run_fwd. rewrite Z.add_0_r, plus_time_run by lia.
    run_fwd. rewrite plus_time_run by (unfold U64_MAX; lia). run_fwd.
    eexists. split_and!; [reflexivity|done|done|]. cbn. by rewrite lookup_insert_eq. }
  assert (s2 = x2) as -> by exact (invoke_success _ _ _ _ _ H2).
  destruct (set_min_ratio_type p ratio env s Hs Hp Hadm x2) as (y & Hex & Hp' & Hgy); [congruence|].
  assert (∃ x3, execute_timelock_operation a 0 env x2 = (Ok tt, x3)) as [x3 H3].
  { unfold execute_timelock_operation, require_auth, the_operation, get_timelock_operation, set_operation,
      on_timelock, publish. run_fwd. unfold env at 1. rewrite signed_by_auth. cbv beta iota. run_fwd.
    rewrite Ho. run_fwd. change (is_closed (tl_status o)) with false. run_fwd.
    change (timestamp _ <? tl_ready_at o) with (t <? t). rewrite Z.ltb_irrefl. run_fwd.
    change (tl_expires_at o <? timestamp _) with (t + grace <? t). rewrite (proj2 (Z.ltb_ge _ _)) by lia. run_fwd.
    change (tl_proposal_type o) with (MinCollateralRatio ratio). rewrite Hex. run_fwd.
    eexists. reflexivity. }
  assert (s3 = x3) as -> by exact (invoke_success _ _ _ _ _ H3).
  apply execute_timelock_runs in H3 as (o' & y' & Ho' & _ & _ & _ & Hex' & ->).
  assert (o' = o) as -> by congruence. change (tl_proposal_type o) with (MinCollateralRatio ratio) in Hex'.
  assert (y' = y) as -> by congruence.
  split; [change (rp_min_collateral_ratio <$> get_risk_params y = Some ratio); by rewrite Hp'|].
  change (hs_gov y = hs_gov s). congruence.
Qed.

(** The entry points that name the admin, or that set up the contract. *)
Definition names_admin (c : HelloCall) : bool :=
  match c with
  | CallInitialize _ | CallTransferAdmin _ _ | CallSetRiskParams _ _ _ _ _ | CallSetEmergencyPause _ _
  | CallUpdateInterestRateConfig _ _ | CallInitializeTimelock _ => true
  | _ => false
  end.

(** The effect of the entry points that name the admin does not depend on
    who signed the invocation, so whoever knows the admin's address can make any
    account the admin. *)
Theorem protocol_admin_never_signs c s now seq signed signed' prices registry balances :
  names_admin c = true →
  hello_dispatch c (mkEnvironment now seq signed prices registry balances) s =
  hello_dispatch c (mkEnvironment now seq signed' prices registry balances) s ∧
  ∀ a b env, get_admin s = Some a → get_admin (hello_dispatch (CallTransferAdmin a b) env s) = Some b.
Proof.
  intros Hc. split.
  - destruct c; try done; cbn [hello_dispatch]; f_equal; apply time_only_invoke; try done;
      unfold initialize, initialize_risk_management, initialize_risk_params, initialize_interest_rate_config,
        transfer_admin, set_admin, set_risk_params_entry, set_risk_params, change_param, validate_parameter_change,
        validate_risk_params, set_emergency_pause_entry, set_emergency_pause, update_interest_rate_config, update_rate,
        initialize_timelock, rm_require_admin, require_admin, set_config, set_rate_config, on_admin, on_risk, on_rate,
        on_timelock, publish; apply _.
  - intros a b env Ha. cbn. unfold invoke, transfer_admin, set_admin. rewrite bind_eq. unfold gets. rewrite Ha.
  rewrite bool_decide_false by auto. unfold reject_if, on_admin, publish. run_fwd. reflexivity.
Qed.

(** ** Examples *)

Lemma unopposed_proposals_take_effect_witness :
  let s1 := hello_dispatch (CallCreateProposal 7%positive (MinCollateralRatio 12000) "" None) (signed_by 7%positive 1000) governed in
  let s2 := hello_dispatch (CallQueueProposal 7%positive 0) (signed_by 7%positive 1101) s1 in
  let s3 := hello_dispatch (CallExecuteProposal 7%positive 0) (signed_by 7%positive 1111) s2 in
  rp_min_collateral_ratio <$> get_risk_params s3 = Some 12000 ∧ gkVote (hs_gov s3) = gkVote (hs_gov governed).
Proof.
  apply (unopposed_proposals_take_effect 7%positive 12000
    (mkGovernanceConfig 100 10 4000 0 9%positive 1000 5000) (mkRiskParams 11000 10500 5000 1000 100) governed
    1000 1101 1111 governed_reachable);
    try (vm_compute; reflexivity); try (vm_compute; split; congruence); try (vm_compute; congruence).
  split; [vm_compute; congruence|vm_compute; split_and!; congruence].
Defined.

Lemma timelock_needs_no_vote_witness :
  let env := signed_by 7%positive 500 in
  let s1 := hello_dispatch (CallInitializeTimelock (mkTimelockConfig 0 0 0 60)) env half_borrowed in
  let s2 := hello_dispatch (CallQueueTimelockOperation 7%positive (MinCollateralRatio 12000) "" None) env s1 in
  let s3 := hello_dispatch (CallExecuteTimelockOperation 7%positive 0) env s2 in
  rp_min_collateral_ratio <$> get_risk_params s3 = Some 12000 ∧ hs_gov s3 = hs_gov half_borrowed.
Proof.
  apply (timelock_needs_no_vote 7%positive 12000 (mkRiskParams 11000 10500 5000 1000 100) half_borrowed 500 60
    half_borrowed_reachable); try (vm_compute; reflexivity); try (vm_compute; congruence).
  split; [vm_compute; congruence|vm_compute; split_and!; congruence].
Defined.

Lemma protocol_admin_never_signs_witness :
  hello_dispatch (CallSetRiskParams 1%positive (Some 12000) None None None) (signed_by 7%positive 500) half_borrowed =
  hello_dispatch (CallSetRiskParams 1%positive (Some 12000) None None None) (signed_by 1%positive 500) half_borrowed ∧
  get_admin (hello_dispatch (CallTransferAdmin 1%positive 7%positive) (signed_by 7%positive 500) half_borrowed) = Some 7%positive.
Proof.
  destruct (protocol_admin_never_signs (CallSetRiskParams 1%positive (Some 12000) None None None) half_borrowed 500 0
    (λ x, bool_decide (x = 7%positive)) (λ x, bool_decide (x = 1%positive)) (λ _ _, None) (λ _ _ _ _, None)
    (λ _ _, None) eq_refl) as [H1 H2].
  split; [exact H1|]. apply (H2 1%positive). vm_compute. reflexivity.
Defined.
