(* ===== verification/PositionTypes.v ===== *)
(** * PositionTypes: the data of the hello-world contract's positions

    The enums and stored records of deposit.rs, borrow.rs, repay.rs,
    withdraw.rs, liquidate.rs, multi_collateral.rs, oracle.rs, rate_limiter.rs,
    circuit_breaker.rs, mev_protection.rs, reserve.rs, treasury.rs,
    credit_score.rs and analytics.rs; the public error type of errors.rs and the
    conversions into it; the storage of the whole contract, [PState], of which
    the administration's [HState] is a part. *)

From S2P Require Import Prelude.
From S2P Require Import Host.
From S2P Require Import HelloTypes.
From S2P Require Import HelloParams.

(** ** Errors *)

Inductive DepositError : Type :=
  | DE_InvalidAmount | DE_InvalidAsset | DE_InsufficientBalance | DE_DepositPaused | DE_AssetNotEnabled
  | DE_Overflow | DE_Reentrancy | DE_Unauthorized.

Inductive BorrowError : Type :=
  | BE_InvalidAmount | BE_InvalidAsset | BE_InsufficientCollateral | BE_BorrowPaused
  | BE_InsufficientCollateralRatio | BE_Overflow | BE_Reentrancy | BE_MaxBorrowExceeded | BE_AssetNotEnabled.

Inductive RepayError : Type :=
  | RE_InvalidAmount | RE_InvalidAsset | RE_InsufficientBalance | RE_RepayPaused | RE_NoDebt | RE_Overflow
  | RE_Reentrancy.

Inductive WithdrawError : Type :=
  | WE_InvalidAmount | WE_InvalidAsset | WE_InsufficientCollateral | WE_WithdrawPaused
  | WE_InsufficientCollateralRatio | WE_Overflow | WE_Reentrancy | WE_Undercollateralized.

Inductive LiquidationError : Type :=
  | LQ_InvalidAmount | LQ_InvalidAsset | LQ_NotLiquidatable | LQ_LiquidationPaused | LQ_ExceedsCloseFactor
  | LQ_InsufficientBalance | LQ_Overflow | LQ_InvalidCollateralAsset | LQ_InvalidDebtAsset
  | LQ_PriceNotAvailable | LQ_InsufficientLiquidation | LQ_Reentrancy.

Inductive MultiCollateralError : Type := MC_Overflow | MC_AssetNotFound.

Inductive OracleError : Type :=
  | OE_InvalidPrice | OE_StalePrice | OE_PriceDeviationExceeded | OE_InvalidOracle | OE_OraclePaused
  | OE_Overflow | OE_Unauthorized | OE_AssetNotSupported | OE_FallbackNotConfigured | OE_CircuitBreakerOpen
  | OE_NotEnoughSources.

Inductive RateLimitError : Type := RL_RateLimited | RL_InvalidConfig | RL_Unauthorized | RL_Overflow.

Inductive MevProtectionError : Type :=
  | ME_InvalidConfig | ME_CommitNotFound | ME_CommitNotReady | ME_CommitExpired | ME_Unauthorized
  | ME_FeeCapExceeded | ME_InvalidAmount | ME_InvalidOperation.

Inductive ReserveError : Type :=
  | RS_Unauthorized | RS_InvalidReserveFactor | RS_InsufficientReserve | RS_InvalidAsset | RS_InvalidTreasury
  | RS_InvalidAmount | RS_Overflow | RS_TreasuryNotSet.

Inductive TreasuryError : Type :=
  | TE_Unauthorized | TE_InvalidAmount | TE_InsufficientReserve | TE_Overflow | TE_TreasuryNotSet | TE_InvalidFee.

Inductive AnalyticsError : Type := AN_NotInitialized | AN_InvalidParameter | AN_Overflow | AN_DataNotFound.

(** of hello-world's flash_loan.rs *)
Inductive FlashLoanError : Type :=
  | FE_InvalidAmount | FE_InvalidAsset | FE_InsufficientLiquidity | FE_FlashLoanPaused | FE_NotRepaid
  | FE_InsufficientRepayment | FE_Overflow | FE_Reentrancy | FE_InvalidCallback | FE_CallbackFailed.

(** The error type of the public interface. *)
Inductive LendingError : Type :=
  | Unauthorized | InvalidAmount | InvalidAsset | InvalidParameter | InsufficientBalance
  | InsufficientCollateral | InsufficientCollateralRatio | Overflow | ProtocolPaused | Reentrancy
  | NotInitialized | AlreadyInitialized | DataNotFound | DivisionByZero | NoDebt | AssetNotEnabled
  | LimitExceeded | InvalidState | PriceUnavailable | InsufficientLiquidity | InvalidCallback
  | CallbackFailed | NotRepaid | TreasuryNotSet | InsufficientReserve | InvalidFee | GovernanceRequired
  | GovernanceFailure | CommitRequired | CommitNotFound | CommitNotReady | CommitExpired | FeeCapExceeded
  | NotFound | AlreadyExists.

(** [impl From<E> for LendingError] *)
Class IntoLending (E : Type) : Type := into : E → LendingError.

#[export] Instance from_AdminError : IntoLending AdminError := λ e,
  match e with
  | AE_Unauthorized => Unauthorized
  | AE_InvalidParameter => InvalidParameter
  | AE_AdminAlreadySet => AlreadyInitialized
  end.

#[export] Instance from_AnalyticsError : IntoLending AnalyticsError := λ e,
  match e with
  | AN_NotInitialized => NotInitialized
  | AN_InvalidParameter => InvalidParameter
  | AN_Overflow => Overflow
  | AN_DataNotFound => DataNotFound
  end.

#[export] Instance from_BorrowError : IntoLending BorrowError := λ e,
  match e with
  | BE_InvalidAmount => InvalidAmount
  | BE_InvalidAsset => InvalidAsset
  | BE_InsufficientCollateral => InsufficientCollateral
  | BE_BorrowPaused => ProtocolPaused
  | BE_InsufficientCollateralRatio => InsufficientCollateralRatio
  | BE_Overflow => Overflow
  | BE_Reentrancy => Reentrancy
  | BE_MaxBorrowExceeded => LimitExceeded
  | BE_AssetNotEnabled => AssetNotEnabled
  end.

#[export] Instance from_DepositError : IntoLending DepositError := λ e,
  match e with
  | DE_InvalidAmount => InvalidAmount
  | DE_InvalidAsset => InvalidAsset
  | DE_InsufficientBalance => InsufficientBalance
  | DE_DepositPaused => ProtocolPaused
  | DE_AssetNotEnabled => AssetNotEnabled
  | DE_Overflow => Overflow
  | DE_Reentrancy => Reentrancy
  | DE_Unauthorized => Unauthorized
  end.

#[export] Instance from_FlashLoanError : IntoLending FlashLoanError := λ e,
  match e with
  | FE_InvalidAmount => InvalidAmount
  | FE_InvalidAsset => InvalidAsset
  | FE_InsufficientLiquidity => InsufficientLiquidity
  | FE_FlashLoanPaused => ProtocolPaused
  | FE_NotRepaid => NotRepaid
  | FE_InsufficientRepayment => InsufficientBalance
  | FE_Overflow => Overflow
  | FE_Reentrancy => Reentrancy
  | FE_InvalidCallback => InvalidCallback
  | FE_CallbackFailed => CallbackFailed
  end.

#[export] Instance from_ReserveError : IntoLending ReserveError := λ e,
  match e with
  | RS_Unauthorized => Unauthorized
  | RS_InvalidReserveFactor => InvalidParameter
  | RS_InsufficientReserve => InsufficientReserve
  | RS_InvalidAsset => InvalidAsset
  | RS_InvalidTreasury => InvalidParameter
  | RS_InvalidAmount => InvalidAmount
  | RS_Overflow => Overflow
  | RS_TreasuryNotSet => TreasuryNotSet
  end.

#[export] Instance from_GovernanceError : IntoLending GovernanceError := λ e,
  match e with
  | GE_Unauthorized => Unauthorized
  | GE_AlreadyInitialized => AlreadyInitialized
  | GE_NotInitialized => NotInitialized
  | GE_InvalidQuorum => InvalidParameter
  | GE_InvalidVotingPeriod => InvalidParameter
  | _ => GovernanceFailure
  end.

#[export] Instance from_InterestRateError : IntoLending InterestRateError := λ e,
  match e with
  | IR_Unauthorized => Unauthorized
  | IR_InvalidParameter => InvalidParameter
  | IR_ParameterChangeTooLarge => LimitExceeded
  | IR_Overflow => Overflow
  | IR_DivisionByZero => DivisionByZero
  | IR_AlreadyInitialized => AlreadyInitialized
  end.

#[export] Instance from_LiquidationError : IntoLending LiquidationError := λ e,
  match e with
  | LQ_InvalidAmount => InvalidAmount
  | LQ_InvalidAsset => InvalidAsset
  | LQ_NotLiquidatable => InvalidState
  | LQ_LiquidationPaused => ProtocolPaused
  | LQ_ExceedsCloseFactor => LimitExceeded
  | LQ_InsufficientBalance => InsufficientBalance
  | LQ_Overflow => Overflow
  | LQ_InvalidCollateralAsset => InvalidAsset
  | LQ_InvalidDebtAsset => InvalidAsset
  | LQ_PriceNotAvailable => PriceUnavailable
  | LQ_InsufficientLiquidation => InvalidState
  | LQ_Reentrancy => Reentrancy
  end.

#[export] Instance from_RateLimitError : IntoLending RateLimitError := λ e,
  match e with
  | RL_RateLimited => LimitExceeded
  | RL_InvalidConfig => InvalidParameter
  | RL_Unauthorized => Unauthorized
  | RL_Overflow => Overflow
  end.

#[export] Instance from_MevProtectionError : IntoLending MevProtectionError := λ e,
  match e with
  | ME_InvalidConfig => InvalidParameter
  | ME_CommitNotFound => CommitNotFound
  | ME_CommitNotReady => CommitNotReady
  | ME_CommitExpired => CommitExpired
  | ME_Unauthorized => Unauthorized
  | ME_FeeCapExceeded => FeeCapExceeded
  | ME_InvalidAmount => InvalidAmount
  | ME_InvalidOperation => InvalidState
  end.

#[export] Instance from_RepayError : IntoLending RepayError := λ e,
  match e with
  | RE_InvalidAmount => InvalidAmount
  | RE_InvalidAsset => InvalidAsset
  | RE_InsufficientBalance => InsufficientBalance
  | RE_RepayPaused => ProtocolPaused
  | RE_NoDebt => NoDebt
  | RE_Overflow => Overflow
  | RE_Reentrancy => Reentrancy
  end.

#[export] Instance from_RiskManagementError : IntoLending RiskManagementError := λ e,
  match e with
  | RM_Unauthorized => Unauthorized
  | RM_InvalidParameter => InvalidParameter
  | RM_ParameterChangeTooLarge => LimitExceeded
  | RM_InsufficientCollateralRatio => InsufficientCollateralRatio
  | RM_OperationPaused => ProtocolPaused
  | RM_EmergencyPaused => ProtocolPaused
  | RM_InvalidCollateralRatio => InvalidParameter
  | RM_InvalidLiquidationThreshold => InvalidParameter
  | RM_InvalidCloseFactor => InvalidParameter
  | RM_InvalidLiquidationIncentive => InvalidParameter
  | RM_Overflow => Overflow
  | RM_GovernanceRequired => GovernanceRequired
  | RM_AlreadyInitialized => AlreadyInitialized
  end.

#[export] Instance from_RiskParamsError : IntoLending RiskParamsError := λ e,
  match e with
  | RP_Unauthorized => Unauthorized
  | RP_InvalidParameter => InvalidParameter
  | RP_ParameterChangeTooLarge => LimitExceeded
  | RP_InvalidCollateralRatio => InvalidParameter
  | RP_InvalidLiquidationThreshold => InvalidParameter
  | RP_InvalidCloseFactor => InvalidParameter
  | RP_InvalidLiquidationIncentive => InvalidParameter
  end.

#[export] Instance from_TreasuryError : IntoLending TreasuryError := λ e,
  match e with
  | TE_Unauthorized => Unauthorized
  | TE_InvalidAmount => InvalidAmount
  | TE_InsufficientReserve => InsufficientReserve
  | TE_Overflow => Overflow
  | TE_TreasuryNotSet => TreasuryNotSet
  | TE_InvalidFee => InvalidFee
  end.

#[export] Instance from_WithdrawError : IntoLending WithdrawError := λ e,
  match e with
  | WE_InvalidAmount => InvalidAmount
  | WE_InvalidAsset => InvalidAsset
  | WE_InsufficientCollateral => InsufficientCollateral
  | WE_WithdrawPaused => ProtocolPaused
  | WE_InsufficientCollateralRatio => InsufficientCollateralRatio
  | WE_Overflow => Overflow
  | WE_Reentrancy => Reentrancy
  | WE_Undercollateralized => InvalidState
  end.

(** ** Positions *)

Record AssetParams : Type := mkAssetParams {
  ap_deposit_enabled : bool;
  ap_collateral_factor : Z;
  ap_max_deposit : Z;
  ap_borrow_fee_bps : Z;
}.

Record Position : Type := mkPosition {
  pos_collateral : Z;
  pos_debt : Z;
  pos_borrow_interest : Z;
  pos_last_accrual_time : Z;
}.
#[export] Instance Position_upd : Updatable Position := λ p,
  mkPosition (pos_collateral p) (pos_debt p) (pos_borrow_interest p) (pos_last_accrual_time p).

(** [Activity] of deposit.rs and [ActivityEntry] of analytics.rs, which are
    stored under one key; the metadata map is always empty. *)
Record Activity : Type := mkActivity {
  act_user : Address;
  act_type : Symbol;
  act_amount : Z;
  act_asset : option Address;
  act_timestamp : Z;
}.

Record UserAnalytics : Type := mkUserAnalytics {
  ua_total_deposits : Z;
  ua_total_borrows : Z;
  ua_total_withdrawals : Z;
  ua_total_repayments : Z;
  ua_collateral_value : Z;
  ua_debt_value : Z;
  ua_collateralization_ratio : Z;
  ua_activity_score : Z;
  ua_transaction_count : Z;
  ua_first_interaction : Z;
  ua_last_activity : Z;
  ua_risk_level : Z;
  ua_loyalty_tier : Z;
}.
#[export] Instance UserAnalytics_upd : Updatable UserAnalytics := λ a,
  mkUserAnalytics (ua_total_deposits a) (ua_total_borrows a) (ua_total_withdrawals a) (ua_total_repayments a)
    (ua_collateral_value a) (ua_debt_value a) (ua_collateralization_ratio a) (ua_activity_score a)
    (ua_transaction_count a) (ua_first_interaction a) (ua_last_activity a) (ua_risk_level a)
    (ua_loyalty_tier a).

#[export] Instance ProtocolAnalytics_upd : Updatable ProtocolAnalytics := λ a,
  mkProtocolAnalytics (pa_total_deposits a) (pa_total_borrows a) (pa_total_value_locked a).

(** ** Oracle *)

Record PriceFeed : Type := mkPriceFeed {
  pf_price : Z;
  pf_last_updated : Z;
  pf_oracle : Address;
  pf_decimals : Z;
}.

Record CachedPrice : Type := mkCachedPrice { cp_price : Z; cp_cached_at : Z; cp_ttl : Z }.

Record OracleConfig : Type := mkOracleConfig {
  oc_max_deviation_bps : Z;
  oc_max_staleness_seconds : Z;
  oc_cache_ttl_seconds : Z;
  oc_min_price : Z;
  oc_max_price : Z;
  oc_twap_window_seconds : Z;
  oc_max_observations : Z;
  oc_min_sources : Z;
  oc_outlier_deviation_bps : Z;
  oc_breaker_deviation_bps : Z;
  oc_breaker_cooldown_seconds : Z;
}.

Record PriceObservation : Type := mkPriceObservation { ob_price : Z; ob_timestamp : Z }.

(** [CircuitBreakerState] of oracle.rs *)
Record AssetBreakerState : Type := mkAssetBreakerState {
  ab_open_until : Z;
  ab_last_safe_price : Z;
  ab_last_trip_timestamp : Z;
}.
#[export] Instance AssetBreakerState_upd : Updatable AssetBreakerState := λ b,
  mkAssetBreakerState (ab_open_until b) (ab_last_safe_price b) (ab_last_trip_timestamp b).

(** ** Limits *)

Record RateLimitConfig : Type := mkRateLimitConfig {
  rl_window_seconds : Z;
  rl_max_calls_per_window : Z;
  rl_burst_calls : Z;
  rl_grace_burst_calls : Z;
}.

Record BucketState : Type := mkBucketState { bk_tokens : Z; bk_last_refill : Z }.
#[export] Instance BucketState_upd : Updatable BucketState := λ b,
  mkBucketState (bk_tokens b) (bk_last_refill b).

Record RateLimitStatus : Type := mkRateLimitStatus {
  st_config : RateLimitConfig;
  st_bucket : BucketState;
  st_capacity_tokens : Z;
  st_refill_per_second : Z;
  st_grace_enabled : bool;
}.

Inductive CircuitBreakerStatus : Type := BreakerActive | BreakerPaused | BreakerEmergency.
#[export] Instance CircuitBreakerStatus_eq_dec : EqDecision CircuitBreakerStatus.
Proof. solve_decision. Defined.

Inductive CircuitBreakerReason : Type :=
  | OracleFailure | FlashCrash | ExcessiveLiquidations | ManualActivation | SystemMaintenance.

Record CircuitBreakerState : Type := mkCircuitBreakerState {
  cb_status : CircuitBreakerStatus;
  cb_activated_at : Z;
  cb_activated_by : Address;
  cb_cooldown_period : Z;
  cb_auto_deactivate_at : option Z;
  cb_reason : CircuitBreakerReason;
}.
#[export] Instance CircuitBreakerState_upd : Updatable CircuitBreakerState := λ b,
  mkCircuitBreakerState (cb_status b) (cb_activated_at b) (cb_activated_by b) (cb_cooldown_period b)
    (cb_auto_deactivate_at b) (cb_reason b).

Record CircuitBreakerConfig : Type := mkCircuitBreakerConfig {
  cc_cooldown_period : Z;
  cc_auto_deactivate_enabled : bool;
  cc_whitelist_enabled : bool;
}.

Inductive SensitiveOperation : Type := OpBorrow | OpWithdraw | OpLiquidate.
#[export] Instance SensitiveOperation_eq_dec : EqDecision SensitiveOperation.
Proof. solve_decision. Defined.

Inductive TxOrderingHint : Type := HintDefault | PrivateMempool | BatchAuction | DelayedReveal.

Record MevProtectionConfig : Type := mkMevProtectionConfig {
  mv_commit_delay_secs : Z;
  mv_commit_expiry_secs : Z;
  mv_suspicious_window_secs : Z;
  mv_fee_smoothing_bps : Z;
  mv_base_protection_fee_bps : Z;
  mv_surge_protection_fee_bps : Z;
  mv_sandwich_threshold_bps : Z;
  mv_private_mempool_enabled : bool;
  mv_batching_enabled : bool;
}.

Record PendingCommit : Type := mkPendingCommit {
  pc_id : Z;
  pc_owner : Address;
  pc_operation : SensitiveOperation;
  pc_asset : option Address;
  pc_secondary_asset : option Address;
  pc_borrower : option Address;
  pc_amount : Z;
  pc_max_fee_bps : Z;
  pc_hint : TxOrderingHint;
  pc_committed_at : Z;
  pc_reveal_after : Z;
  pc_expires_at : Z;
  pc_commit_ledger : Z;
}.

Record OrderingObservation : Type := mkOrderingObservation {
  oo_actor : Address; oo_amount : Z; oo_timestamp : Z;
}.

Record OrderingStats : Type := mkOrderingStats {
  os_suspicious_sequences : Z;
  os_sandwich_alerts : Z;
  os_last_alert_timestamp : Z;
  os_last_effective_fee_bps : Z;
}.
#[export] Instance OrderingStats_upd : Updatable OrderingStats := λ o,
  mkOrderingStats (os_suspicious_sequences o) (os_sandwich_alerts o) (os_last_alert_timestamp o)
    (os_last_effective_fee_bps o).

(** ** Fees, credit, reports *)

Record TreasuryFeeConfig : Type := mkTreasuryFeeConfig {
  tf_interest_fee_bps : Z;
  tf_liquidation_fee_bps : Z;
}.

Inductive CreditScoreChangeReason : Type :=
  | OnTimeRepayment | LateRepayment | LiquidationReason | HealthyPosition | NewUser.

Record CreditScoreSnapshot : Type := mkCreditScoreSnapshot {
  sn_score : Z; sn_timestamp : Z; sn_reason : CreditScoreChangeReason;
}.

Record CreditScore : Type := mkCreditScore {
  cs_user : Address;
  cs_score : Z;
  cs_on_time_repayments : Z;
  cs_late_repayments : Z;
  cs_liquidations : Z;
  cs_total_borrowed : Z;
  cs_total_repaid : Z;
  cs_last_updated : Z;
  cs_history : list CreditScoreSnapshot;
}.
#[export] Instance CreditScore_upd : Updatable CreditScore := λ c,
  mkCreditScore (cs_user c) (cs_score c) (cs_on_time_repayments c) (cs_late_repayments c) (cs_liquidations c)
    (cs_total_borrowed c) (cs_total_repaid c) (cs_last_updated c) (cs_history c).

Record ProtocolMetrics : Type := mkProtocolMetrics {
  pm_total_value_locked : Z;
  pm_total_deposits : Z;
  pm_total_borrows : Z;
  pm_utilization_rate : Z;
  pm_average_borrow_rate : Z;
  pm_total_users : Z;
  pm_total_transactions : Z;
  pm_last_update : Z;
}.

Record UserMetrics : Type := mkUserMetrics {
  um_collateral : Z;
  um_debt : Z;
  um_health_factor : Z;
  um_total_deposits : Z;
  um_total_borrows : Z;
  um_total_withdrawals : Z;
  um_total_repayments : Z;
  um_activity_score : Z;
  um_risk_level : Z;
  um_transaction_count : Z;
}.

(** ** Events *)

Inductive PositionEvent : Type :=
  | DepositEvent (user : Address) (asset : option Address) (amount at_ : Z)
  | WithdrawalEvent (user : Address) (asset : option Address) (amount at_ : Z)
  | BorrowEvent (user : Address) (asset : option Address) (amount at_ : Z)
  | RepayEvent (user : Address) (asset : option Address) (amount at_ : Z)
  | LiquidationEvent (liquidator borrower : Address) (debt_asset collateral_asset : option Address)
      (debt_liquidated collateral_seized incentive_amount at_ : Z)
  | PriceUpdatedEvent (actor asset : Address) (price decimals : Z) (oracle : Address) (at_ : Z)
  | PositionUpdatedEvent (user : Address) (collateral debt : Z)
  | AnalyticsUpdatedEvent (user : Address) (activity_type : Symbol) (amount at_ : Z)
  | UserActivityTrackedEvent (user : Address) (operation : Symbol) (amount at_ : Z)
  | TreasurySetEvent (admin treasury : Address) (at_ : Z)
  | ReservesClaimedEvent (admin : Address) (asset : option Address) (recipient : Address) (amount at_ : Z)
  | FeeConfigUpdatedEvent (admin : Address) (interest_fee_bps liquidation_fee_bps at_ : Z)
  | LiquidationFeeCollectedEvent (asset : option Address) (fee_amount at_ : Z)
  | CircuitBreakerActivatedEvent (activated_by : Address) (emergency_mode : bool) (at_ : Z)
  | CircuitBreakerDeactivatedEvent (deactivated_by : Address) (at_ : Z)
  | WhitelistAddedEvent (liquidator added_by : Address) (at_ : Z)
  | WhitelistRemovedEvent (liquidator removed_by : Address) (at_ : Z)
  | ReserveInitialized (asset : option Address) (factor : Z)
  | ReserveFactorUpdated (caller : Address) (asset : option Address) (factor : Z)
  | ReserveAmmTargetSet (caller : Address) (asset : option Address) (amm : Address)
  | ReserveDeployedToAmm (caller : Address) (asset : option Address) (amount lp_tokens new_lp : Z)
  | ReserveAccrued (asset : option Address) (amount new_balance : Z)
  | TreasuryAddressSet (caller treasury : Address)
  | ReserveWithdrawn (caller : Address) (asset : option Address) (treasury : Address) (amount new_balance : Z)
  | FlashLoanInitiatedEvent (user asset : Address) (amount fee : Z) (callback : Address) (at_ : Z)
  | FlashLoanRepaidEvent (user asset : Address) (amount fee at_ : Z).

(** ** flash_loan.rs *)

Record FlashLoanConfig : Type := mkFlashLoanConfig {
  fl_fee_bps : Z;
  fl_max_amount : Z;
  fl_min_amount : Z;
}.
#[export] Instance FlashLoanConfig_upd : Updatable FlashLoanConfig := λ c,
  mkFlashLoanConfig (fl_fee_bps c) (fl_max_amount c) (fl_min_amount c).

Record FlashLoanRecord : Type := mkFlashLoanRecord {
  fr_amount : Z;
  fr_fee : Z;
  fr_timestamp : Z;
  fr_callback : Address;
}.

(** ** Storage

    Keys are encoded by their names, so enums that repeat a name share the
    entry: [PauseSwitches] of deposit.rs, oracle.rs and flash_loan.rs,
    [EmergencyPause] of deposit.rs and risk_management.rs, [ActivityLog] of
    deposit.rs and analytics.rs, [TreasuryAddress] of reserve.rs and
    treasury.rs, and all the [Admin] keys of persistent storage. *)

(** [DepositDataKey] *)
Record LoanStore : Type := mkLoanStore {
  lkCollateralBalance : gmap Address Z;
  lkAssetParams : gmap Address AssetParams;
  lkPauseSwitches : option (gmap Symbol bool);
  lkPosition : gmap Address Position;
  lkUserAnalytics : gmap Address UserAnalytics;
  lkActivityLog : option (list Activity);
  lkProtocolReserve : gmap (option Address) Z;
  lkNativeAssetAddress : option Address;
  lkUserAssetCollateral : gmap (Address * Address) Z;
  lkUserAssetList : gmap Address (list Address);
  lkUserBorrowIndex : gmap Address Z;
}.
#[export] Instance LoanStore_upd : Updatable LoanStore := λ s,
  mkLoanStore (lkCollateralBalance s) (lkAssetParams s) (lkPauseSwitches s) (lkPosition s) (lkUserAnalytics s)
    (lkActivityLog s) (lkProtocolReserve s) (lkNativeAssetAddress s) (lkUserAssetCollateral s)
    (lkUserAssetList s) (lkUserBorrowIndex s).

(** [OracleDataKey] *)
Record OracleStore : Type := mkOracleStore {
  okPriceFeed : gmap Address PriceFeed;
  okFallbackOracle : gmap Address Address;
  okPrimaryOracle : gmap Address Address;
  okFallbackFeed : gmap Address PriceFeed;
  okPriceCache : gmap Address CachedPrice;
  okOracleConfig : option OracleConfig;
  okOracleSources : gmap Address (list Address);
  okSourceFeed : gmap (Address * Address) PriceFeed;
  okPriceHistory : gmap Address (list PriceObservation);
  okCircuitBreaker : gmap Address AssetBreakerState;
}.
#[export] Instance OracleStore_upd : Updatable OracleStore := λ s,
  mkOracleStore (okPriceFeed s) (okFallbackOracle s) (okPrimaryOracle s) (okFallbackFeed s) (okPriceCache s)
    (okOracleConfig s) (okOracleSources s) (okSourceFeed s) (okPriceHistory s) (okCircuitBreaker s).

(** [RateLimitDataKey] *)
Record LimitStore : Type := mkLimitStore {
  nkOpConfig : gmap Symbol RateLimitConfig;
  nkOpPoolConfig : gmap (Symbol * Address) RateLimitConfig;
  nkUserBucket : gmap (Address * Symbol * Address) BucketState;
  nkGlobalBucket : gmap (Symbol * Address) BucketState;
  nkUserGrace : gmap (Address * Symbol) bool;
}.
#[export] Instance LimitStore_upd : Updatable LimitStore := λ s,
  mkLimitStore (nkOpConfig s) (nkOpPoolConfig s) (nkUserBucket s) (nkGlobalBucket s) (nkUserGrace s).

(** the circuit breaker's keys of [DataKey] *)
Record BreakerStore : Type := mkBreakerStore {
  bkCircuitBreakerConfig : option CircuitBreakerConfig;
  bkCircuitBreakerState : option CircuitBreakerState;
  bkCircuitBreakerWhitelist : option (list Address);
}.
#[export] Instance BreakerStore_upd : Updatable BreakerStore := λ s,
  mkBreakerStore (bkCircuitBreakerConfig s) (bkCircuitBreakerState s) (bkCircuitBreakerWhitelist s).

(** [MevDataKey] *)
Record MevStore : Type := mkMevStore {
  mkConfig : option MevProtectionConfig;
  mkNextCommitId : option Z;
  mkCommit : gmap Z PendingCommit;
  mkStats : option OrderingStats;
  mkLatestObservation : gmap (Symbol * option Address) OrderingObservation;
  mkPreviousObservation : gmap (Symbol * option Address) OrderingObservation;
  mkSmoothedFee : gmap (Symbol * option Address) Z;
}.
#[export] Instance MevStore_upd : Updatable MevStore := λ s,
  mkMevStore (mkConfig s) (mkNextCommitId s) (mkCommit s) (mkStats s) (mkLatestObservation s)
    (mkPreviousObservation s) (mkSmoothedFee s).

(** [ReserveDataKey], [TreasuryDataKey] *)
Record ReserveStore : Type := mkReserveStore {
  vkReserveBalance : gmap (option Address) Z;
  vkReserveFactor : gmap (option Address) Z;
  vkTreasuryAddress : option Address;
  vkReserveAmmTarget : gmap (option Address) Address;
  vkReserveAmmLpBalance : gmap (option Address) Z;
  vkFeeConfig : option TreasuryFeeConfig;
}.
#[export] Instance ReserveStore_upd : Updatable ReserveStore := λ s,
  mkReserveStore (vkReserveBalance s) (vkReserveFactor s) (vkTreasuryAddress s) (vkReserveAmmTarget s)
    (vkReserveAmmLpBalance s) (vkFeeConfig s).

(** [AnalyticsDataKey], the credit scores of [DataKey], and the nonces of [IntentDataKey] *)
Record ReportStore : Type := mkReportStore {
  yk_ProtocolMetrics : option ProtocolMetrics;
  yk_UserMetrics : gmap Address UserMetrics;
  yk_TotalUsers : option Z;
  yk_TotalTransactions : option Z;
  yk_CreditScore : gmap Address CreditScore;
  yk_NextNonce : gmap (Address * Symbol) Z;
}.
#[export] Instance ReportStore_upd : Updatable ReportStore := λ s,
  mkReportStore (yk_ProtocolMetrics s) (yk_UserMetrics s) (yk_TotalUsers s) (yk_TotalTransactions s)
    (yk_CreditScore s) (yk_NextNonce s).

(** [FlashLoanDataKey], without the shared [PauseSwitches]; the loans and the
    guards are temporary storage *)
Record FlashStore : Type := mkFlashStore {
  fkFlashLoanConfig : option FlashLoanConfig;
  fkActiveFlashLoan : gmap (Address * Address) FlashLoanRecord;
  fkFlashLoanGuard : gset (Address * Address);
}.
#[export] Instance FlashStore_upd : Updatable FlashStore := λ s,
  mkFlashStore (fkFlashLoanConfig s) (fkActiveFlashLoan s) (fkFlashLoanGuard s).

(** The storage of the contract.  [ps_lock] is the entry of temporary storage
    that the re-entrancy guard sets. *)
Record PState : Type := mkPState {
  ps_hello : HState;
  ps_loan : LoanStore;
  ps_oracle : OracleStore;
  ps_limit : LimitStore;
  ps_breaker : BreakerStore;
  ps_mev : MevStore;
  ps_reserve : ReserveStore;
  ps_report : ReportStore;
  ps_flash : FlashStore;
  ps_lock : bool;
  ps_events : list PositionEvent;
}.
#[export] Instance PState_upd : Updatable PState := λ s,
  mkPState (ps_hello s) (ps_loan s) (ps_oracle s) (ps_limit s) (ps_breaker s) (ps_mev s) (ps_reserve s)
    (ps_report s) (ps_flash s) (ps_lock s) (ps_events s).

Definition empty_protocol : PState :=
  mkPState empty_hello
    (mkLoanStore ∅ ∅ None ∅ ∅ None ∅ None ∅ ∅ ∅)
    (mkOracleStore ∅ ∅ ∅ ∅ ∅ None ∅ ∅ ∅ ∅)
    (mkLimitStore ∅ ∅ ∅ ∅ ∅)
    (mkBreakerStore None None None)
    (mkMevStore None None ∅ None ∅ ∅ ∅)
    (mkReserveStore ∅ ∅ None ∅ ∅ None)
    (mkReportStore None ∅ None None ∅ ∅)
    (mkFlashStore None ∅ ∅)
    false [].

#[export] Program Instance HState_part : Part HState PState := {|
  part := ps_hello;
  put_part h s := s <| ps_hello := h |>;
|}.
Solve All Obligations with by intros; repeat match goal with s : PState |- _ => destruct s end.

(** ** Access to the parts *)

Section access.
Context {E : Type}.
Definition on_loan (f : LoanStore → LoanStore) : M PState E unit :=
  modify (λ s, s <| ps_loan := f (ps_loan s) |>).
Definition on_oracle (f : OracleStore → OracleStore) : M PState E unit :=
  modify (λ s, s <| ps_oracle := f (ps_oracle s) |>).
Definition on_limit (f : LimitStore → LimitStore) : M PState E unit :=
  modify (λ s, s <| ps_limit := f (ps_limit s) |>).
Definition on_breaker (f : BreakerStore → BreakerStore) : M PState E unit :=
  modify (λ s, s <| ps_breaker := f (ps_breaker s) |>).
Definition on_mev (f : MevStore → MevStore) : M PState E unit :=
  modify (λ s, s <| ps_mev := f (ps_mev s) |>).
Definition on_reserve (f : ReserveStore → ReserveStore) : M PState E unit :=
  modify (λ s, s <| ps_reserve := f (ps_reserve s) |>).
Definition on_report (f : ReportStore → ReportStore) : M PState E unit :=
  modify (λ s, s <| ps_report := f (ps_report s) |>).
Definition on_flash (f : FlashStore → FlashStore) : M PState E unit :=
  modify (λ s, s <| ps_flash := f (ps_flash s) |>).
Definition emit (ev : PositionEvent) : M PState E unit :=
  modify (λ s, s <| ps_events := (ps_events s ++ [ev]) |>).

Definition loan {A} (f : LoanStore → A) : M PState E A := gets (λ s, f (ps_loan s)).
Definition orc {A} (f : OracleStore → A) : M PState E A := gets (λ s, f (ps_oracle s)).
End access.

(** [crate::admin::require_admin(env, &caller).map_err(|_| e)] *)
Definition admin_or {E} (caller : Address) (e : E) : M PState E unit :=
  map_err (λ _, e) (within (require_admin caller)).
