(* ===== verification/Oracle.v ===== *)
(** * Oracle: the price feeds of the hello-world contract (oracle.rs)

    Feeds per asset and source, their staleness, deviation and circuit-breaker
    checks, the median of the sources without outliers, the time-weighted
    average of the observations, and the cache.  Reading a price writes: it
    appends an observation, moves the breaker and fills the cache - also when
    the read fails afterwards. *)

From S2P Require Import Prelude.
From S2P Require Import Host.
From S2P Require Import HelloTypes.
From S2P Require Import HelloParams.
From S2P Require Import PositionTypes.

Abbreviation OM := (M PState OracleError) (only parsing).

(** ** Configuration *)

Definition DEFAULT_MAX_DEVIATION_BPS : Z := 500.
Definition DEFAULT_MAX_STALENESS_SECONDS : Z := 3600.
Definition DEFAULT_CACHE_TTL_SECONDS : Z := 300.
Definition DEFAULT_MIN_PRICE : Z := 1.
Definition DEFAULT_MAX_PRICE : Z := I128_MAX.
Definition DEFAULT_TWAP_WINDOW_SECONDS : Z := 900.
Definition DEFAULT_MAX_OBSERVATIONS : Z := 64.
Definition DEFAULT_MIN_SOURCES : Z := 1.
Definition DEFAULT_OUTLIER_DEVIATION_BPS : Z := 1000.
Definition DEFAULT_BREAKER_DEVIATION_BPS : Z := 2500.
Definition DEFAULT_BREAKER_COOLDOWN_SECONDS : Z := 600.

(** [get_default_config] of oracle.rs *)
Definition default_oracle_config : OracleConfig :=
  mkOracleConfig DEFAULT_MAX_DEVIATION_BPS DEFAULT_MAX_STALENESS_SECONDS DEFAULT_CACHE_TTL_SECONDS
    DEFAULT_MIN_PRICE DEFAULT_MAX_PRICE DEFAULT_TWAP_WINDOW_SECONDS DEFAULT_MAX_OBSERVATIONS
    DEFAULT_MIN_SOURCES DEFAULT_OUTLIER_DEVIATION_BPS DEFAULT_BREAKER_DEVIATION_BPS
    DEFAULT_BREAKER_COOLDOWN_SECONDS.

Definition get_oracle_config (s : PState) : OracleConfig :=
  default default_oracle_config (okOracleConfig (ps_oracle s)).
Definition get_primary_oracle (s : PState) (asset : Address) : option Address :=
  okPrimaryOracle (ps_oracle s) !! asset.
Definition get_fallback_oracle (s : PState) (asset : Address) : option Address :=
  okFallbackOracle (ps_oracle s) !! asset.

(** ** Checks *)

Definition validate_price (price : Z) : OM unit :=
  reject_if (price <=? 0) OE_InvalidPrice ;;
  config ← gets get_oracle_config;
  reject_if ((price <? oc_min_price config) || (oc_max_price config <? price)) OE_InvalidPrice.

Definition is_price_stale (env : Env) (s : PState) (last_updated : Z) : bool :=
  if timestamp env <? last_updated then true
  else oc_max_staleness_seconds (get_oracle_config s) <? timestamp env - last_updated.

(** [|new - old| * 10000 / base], as both deviation checks compute it *)
Definition deviation_bps (new old base : Z) : OM Z :=
  diff ← ok_or (if old <? new then checked_sub new old else checked_sub old new) OE_Overflow;
  scaled ← ok_or (checked_mul diff 10000) OE_Overflow;
  ok_or (checked_div scaled base) OE_Overflow.

Definition check_price_deviation (new_price old_price : Z) : OM unit :=
  if old_price =? 0 then mret tt
  else
    config ← gets get_oracle_config;
    dev ← deviation_bps new_price old_price old_price;
    reject_if (oc_max_deviation_bps config <? dev) OE_PriceDeviationExceeded.

(** ** The circuit breaker of an asset *)

Definition get_breaker_state (s : PState) (asset : Address) : AssetBreakerState :=
  default (mkAssetBreakerState 0 0 0) (okCircuitBreaker (ps_oracle s) !! asset).

Definition set_breaker_state (asset : Address) (b : AssetBreakerState) : OM unit :=
  on_oracle (λ o, o <| okCircuitBreaker := <[asset := b]> (okCircuitBreaker o) |>).

Definition is_breaker_open (env : Env) (s : PState) (asset : Address) : bool :=
  timestamp env <? ab_open_until (get_breaker_state s asset).

Definition maybe_trip_breaker (asset : Address) (candidate_price : Z) : OM unit :=
  config ← gets get_oracle_config;
  if oc_breaker_deviation_bps config <=? 0 then mret tt
  else
    state ← gets (λ s, get_breaker_state s asset);
    if ab_last_safe_price state <=? 0 then
      set_breaker_state asset (mkAssetBreakerState 0 candidate_price 0)
    else
      dev ← deviation_bps candidate_price (ab_last_safe_price state) (ab_last_safe_price state);
      if oc_breaker_deviation_bps config <? dev then
        now ← ask timestamp;
        set_breaker_state asset
          (state <| ab_open_until := u64_saturating_add now (oc_breaker_cooldown_seconds config) |>
                 <| ab_last_trip_timestamp := now |>) ;;
        fail OE_CircuitBreakerOpen
      else mret tt.

Definition record_safe_price (asset : Address) (safe_price : Z) : OM unit :=
  state ← gets (λ s, get_breaker_state s asset);
  set_breaker_state asset (state <| ab_last_safe_price := safe_price |>).

(** ** Sources and history *)

Definition get_oracle_sources (s : PState) (asset : Address) : list Address :=
  default [] (okOracleSources (ps_oracle s) !! asset).
Definition set_oracle_sources_internal (asset : Address) (sources : list Address) : OM unit :=
  on_oracle (λ o, o <| okOracleSources := <[asset := sources]> (okOracleSources o) |>).
Definition get_source_feed (s : PState) (asset source : Address) : option PriceFeed :=
  okSourceFeed (ps_oracle s) !! (asset, source).
Definition write_source_feed (asset source : Address) (feed : PriceFeed) : OM unit :=
  on_oracle (λ o, o <| okSourceFeed := <[(asset, source) := feed]> (okSourceFeed o) |>).
Definition load_history (s : PState) (asset : Address) : list PriceObservation :=
  default [] (okPriceHistory (ps_oracle s) !! asset).
Definition save_history (asset : Address) (history : list PriceObservation) : OM unit :=
  on_oracle (λ o, o <| okPriceHistory := <[asset := history]> (okPriceHistory o) |>).

(** [while history.len() > max { history.pop_front(); }] *)
Fixpoint keep_newest {A} (max : Z) (history : list A) : list A :=
  match history with
  | [] => []
  | _ :: rest => if max <? len history then keep_newest max rest else history
  end.

Definition append_observation (asset : Address) (price : Z) : OM unit :=
  config ← gets get_oracle_config;
  if oc_max_observations config =? 0 then mret tt
  else
    history ← gets (λ s, load_history s asset);
    now ← ask timestamp;
    save_history asset (keep_newest (oc_max_observations config) (history ++ [mkPriceObservation price now])).

(** ** The median of the sources *)

(** The inner loop of the insertion sort: moves [key] down from index [j]. *)
Fixpoint shift_down (values : list Z) (key : Z) (j : nat) : list Z :=
  match j with
  | O => <[O := key]> values
  | S j' =>
      let prev := values !!! j' in
      if prev <=? key then <[j := key]> values
      else shift_down (<[j := prev]> values) key j'
  end.

(** The outer loop, from index [i] for [left] more indices. *)
Fixpoint sort_from (values : list Z) (i left : nat) : list Z :=
  match left with
  | O => values
  | S left' => sort_from (shift_down values (values !!! i) i) (S i) left'
  end.

Definition median_i128 (values : list Z) : OM Z :=
  if len values =? 0 then fail OE_NotEnoughSources
  else mret (sort_from values 1 (length values - 1) !!! Z.to_nat (len values / 2)).

(** The loop of [filter_outliers] *)
Fixpoint keep_close (median band : Z) (prices : list Z) : OM (list Z) :=
  match prices with
  | [] => mret []
  | p :: rest =>
      if p <=? 0 then keep_close median band rest
      else
        dev ← deviation_bps p median median;
        kept ← keep_close median band rest;
        mret (if dev <=? band then p :: kept else kept)
  end.

Definition filter_outliers (median : Z) (prices : list Z) : OM (list Z) :=
  config ← gets get_oracle_config;
  reject_if (median <=? 0) OE_InvalidPrice ;;
  if oc_outlier_deviation_bps config <=? 0 then mret prices
  else keep_close median (oc_outlier_deviation_bps config) prices.

(** What the aggregation sees of the feeds: the fresh prices, in the order of
    primary, fallback and further sources, and whether there was any feed, and
    any stale one. *)
Record SeenFeeds : Type := mkSeenFeeds {
  sf_candidates : list Z;
  sf_any : bool;
  sf_stale : bool;
}.

Definition see_feed (env : Env) (s : PState) (trusted : PriceFeed → bool)
    (seen : SeenFeeds) (feed : option PriceFeed) : SeenFeeds :=
  match feed with
  | None => seen
  | Some f =>
      let stale := is_price_stale env s (pf_last_updated f) in
      if trusted f && negb stale then mkSeenFeeds (sf_candidates seen ++ [pf_price f]) true (sf_stale seen)
      else mkSeenFeeds (sf_candidates seen) true (stale || sf_stale seen)
  end.

Definition seen_feeds (env : Env) (s : PState) (asset : Address) : SeenFeeds :=
  let seen := see_feed env s (λ _, true) (mkSeenFeeds [] false false) (okPriceFeed (ps_oracle s) !! asset) in
  let seen := match get_fallback_oracle s asset with
              | None => seen
              | Some fallback => see_feed env s (λ f, bool_decide (pf_oracle f = fallback)) seen
                                   (okFallbackFeed (ps_oracle s) !! asset)
              end in
  foldl (λ seen src, see_feed env s (λ _, true) seen (get_source_feed s asset src)) seen
    (get_oracle_sources s asset).

Definition aggregate_spot_price (asset : Address) : OM Z :=
  config ← gets get_oracle_config;
  seen ← reads (λ env s, seen_feeds env s asset);
  if len (sf_candidates seen) =? 0 then
    fail (if sf_any seen && sf_stale seen then OE_StalePrice else OE_FallbackNotConfigured)
  else
    med ← median_i128 (sf_candidates seen);
    filtered ← filter_outliers med (sf_candidates seen);
    reject_if (len filtered <? oc_min_sources config) OE_NotEnoughSources ;;
    median_i128 filtered.

(** ** The time-weighted average *)

(** The first loop: the index before the first observation inside the window. *)
Fixpoint start_index (window_start : Z) (i : nat) (history : list PriceObservation) : nat :=
  match history with
  | [] => O
  | obs :: rest => if window_start <=? ob_timestamp obs then (i - 1)%nat else start_index window_start (S i) rest
  end.

(** [weighted_sum + price * dt] *)
Definition add_segment (weighted_sum price dt : Z) : OM Z :=
  p ← ok_or (checked_mul price dt) OE_Overflow;
  ok_or (checked_add weighted_sum p) OE_Overflow.

(** The second loop: the last observation used, its time, the weighted sum and
    the time it covers. *)
Fixpoint add_segments (window_start now : Z) (rest : list PriceObservation) (prev : PriceObservation)
    (prev_t weighted_sum total_time : Z) : OM (PriceObservation * Z * Z * Z) :=
  match rest with
  | [] => mret (prev, prev_t, weighted_sum, total_time)
  | cur :: rest' =>
      let cur_t := ob_timestamp cur in
      if cur_t <=? window_start then add_segments window_start now rest' prev prev_t weighted_sum total_time
      else if now <? cur_t then mret (prev, prev_t, weighted_sum, total_time)
      else if prev_t <? cur_t then
        sum ← add_segment weighted_sum (ob_price prev) (cur_t - prev_t);
        add_segments window_start now rest' cur cur_t sum (u64_saturating_add total_time (cur_t - prev_t))
      else add_segments window_start now rest' cur cur_t weighted_sum total_time
  end.

Definition compute_twap (asset : Address) (spot_price : Z) : OM Z :=
  config ← gets get_oracle_config;
  if oc_twap_window_seconds config =? 0 then mret spot_price
  else
    now ← ask timestamp;
    let window_start := u64_saturating_sub now (oc_twap_window_seconds config) in
    history ← gets (λ s, load_history s asset);
    if len history =? 0 then mret spot_price
    else
      let start := start_index window_start 0 history in
      prev ← unwrap (history !! start);
      let prev_t := if ob_timestamp prev <? window_start then window_start else ob_timestamp prev in
      '(prev, prev_t, sum, total) ← add_segments window_start now (drop (S start) history) prev prev_t 0 0;
      let last_price := if ob_timestamp prev =? 0 then spot_price else ob_price prev in
      '(sum, total) ←
        (if prev_t <? now then
           sum ← add_segment sum last_price (now - prev_t);
           mret (sum, u64_saturating_add total (now - prev_t))
         else mret (sum, total));
      if total =? 0 then mret spot_price
      else ok_or (checked_div sum total) OE_Overflow.

(** ** Cache *)

Definition get_cached_price (env : Env) (s : PState) (asset : Address) : option Z :=
  match okPriceCache (ps_oracle s) !! asset with
  | Some c =>
      if (cp_cached_at c <=? timestamp env) && (timestamp env <=? u64_saturating_add (cp_cached_at c) (cp_ttl c))
      then Some (cp_price c) else None
  | None => None
  end.

Definition cache_price (asset : Address) (price : Z) : OM unit :=
  config ← gets get_oracle_config;
  now ← ask timestamp;
  on_oracle (λ o, o <| okPriceCache :=
    <[asset := mkCachedPrice price now (oc_cache_ttl_seconds config)]> (okPriceCache o) |>).

(** ** Reading *)

Definition get_price (asset : Address) : OM Z :=
  opened ← reads (λ env s, is_breaker_open env s asset);
  reject_if opened OE_CircuitBreakerOpen ;;
  cached ← reads (λ env s, get_cached_price env s asset);
  match cached with
  | Some price => mret price
  | None =>
      spot ← aggregate_spot_price asset;
      maybe_trip_breaker asset spot ;;
      append_observation asset spot ;;
      twap ← compute_twap asset spot;
      maybe_trip_breaker asset twap ;;
      cache_price asset twap ;;
      record_safe_price asset twap ;;
      mret twap
  end.

(** ** Writing *)

(** The check of [pause_map.get(op)] that every module repeats. *)
Definition switched_off (s : PState) (op : Symbol) : bool :=
  match lkPauseSwitches (ps_loan s) with
  | Some pause_map => default false (pause_map !! op)
  | None => false
  end.

Definition update_price_feed (caller asset : Address) (price decimals : Z) (oracle : Address) : OM Z :=
  paused ← gets (λ s, switched_off s "pause_oracle");
  reject_if paused OE_OraclePaused ;;
  is_admin ← gets (λ s, bool_decide (get_admin (ps_hello s) = Some caller));
  is_primary ← gets (λ s, bool_decide (get_primary_oracle s asset = Some caller));
  is_fallback ← gets (λ s, bool_decide (get_fallback_oracle s asset = Some caller));
  reject_if (negb is_admin && negb is_primary && negb is_fallback) OE_Unauthorized ;;
  reject_if (negb is_admin && bool_decide (caller ≠ oracle)) OE_Unauthorized ;;
  validate_price price ;;
  let to_fallback := is_fallback && negb is_primary && negb is_admin in
  current_feed ← orc (λ o, (if to_fallback then okFallbackFeed o else okPriceFeed o) !! asset);
  match current_feed with
  | Some feed => check_price_deviation price (pf_price feed)
  | None => mret tt
  end ;;
  now ← ask timestamp;
  let new_feed := mkPriceFeed price now oracle decimals in
  on_oracle (λ o, if to_fallback then o <| okFallbackFeed := <[asset := new_feed]> (okFallbackFeed o) |>
                  else o <| okPriceFeed := <[asset := new_feed]> (okPriceFeed o) |>) ;;
  write_source_feed asset oracle new_feed ;;
  when is_admin (on_oracle (λ o, o <| okPrimaryOracle := <[asset := oracle]> (okPrimaryOracle o) |>)) ;;
  cache_price asset price ;;
  emit (PriceUpdatedEvent caller asset price decimals oracle now) ;;
  mret price.

(** ** Administration *)

Definition set_primary_oracle (caller asset primary_oracle : Address) : OM unit :=
  current ← gets (λ s, get_admin (ps_hello s));
  admin ← ok_or current OE_Unauthorized;
  reject_if (bool_decide (caller ≠ admin)) OE_Unauthorized ;;
  on_oracle (λ o, o <| okPrimaryOracle := <[asset := primary_oracle]> (okPrimaryOracle o) |>).

Definition set_fallback_oracle (this caller asset fallback_oracle : Address) : OM unit :=
  admin_or caller OE_Unauthorized ;;
  reject_if (bool_decide (fallback_oracle = this)) OE_InvalidOracle ;;
  on_oracle (λ o, o <| okFallbackOracle := <[asset := fallback_oracle]> (okFallbackOracle o) |>).

Definition configure_oracle (caller : Address) (config : OracleConfig) : OM unit :=
  admin_or caller OE_Unauthorized ;;
  reject_if ((oc_max_deviation_bps config <=? 0) || (10000 <? oc_max_deviation_bps config)) OE_InvalidPrice ;;
  reject_if (oc_max_staleness_seconds config =? 0) OE_InvalidPrice ;;
  reject_if (oc_min_sources config =? 0) OE_InvalidPrice ;;
  reject_if (256 <? oc_max_observations config) OE_InvalidPrice ;;
  reject_if ((oc_outlier_deviation_bps config <=? 0) || (10000 <? oc_outlier_deviation_bps config))
    OE_InvalidPrice ;;
  reject_if ((oc_breaker_deviation_bps config <=? 0) || (10000 <? oc_breaker_deviation_bps config))
    OE_InvalidPrice ;;
  on_oracle (λ o, o <| okOracleConfig := Some config |>).

Definition set_oracle_sources (caller asset : Address) (sources : list Address) : OM unit :=
  admin_or caller OE_Unauthorized ;;
  set_oracle_sources_internal asset sources.

Definition emergency_pause_asset_oracle (caller asset : Address) (pause_seconds : Z) : OM unit :=
  admin_or caller OE_Unauthorized ;;
  now ← ask timestamp;
  state ← gets (λ s, get_breaker_state s asset);
  set_breaker_state asset (state <| ab_open_until := u64_saturating_add now pause_seconds |>
                                 <| ab_last_trip_timestamp := now |>).
