(* ===== verification/Limits.v ===== *)
(** * Limits: what guards the position operations of the hello-world contract

    The token buckets of rate_limiter.rs, the liquidation breaker of
    circuit_breaker.rs, the nonces of intents.rs, and the commit-and-reveal of
    mev_protection.rs. *)

From S2P Require Import Prelude.
From S2P Require Import Host.
From S2P Require Import HelloTypes.
From S2P Require Import HelloParams.
From S2P Require Import PositionTypes.

(** ** rate_limiter.rs *)

Abbreviation LM := (M PState RateLimitError) (only parsing).

Definition TOKEN_SCALE : Z := 1000000.

(** [default_config] of rate_limiter.rs *)
Definition default_limit (op : Symbol) : RateLimitConfig :=
  if decide (op = "borrow"%string) then mkRateLimitConfig 60 5 3 10
  else if decide (op = "liquidate"%string) then mkRateLimitConfig 60 10 5 20
  else mkRateLimitConfig 60 30 10 0.

Definition get_op_config (s : PState) (op : Symbol) : RateLimitConfig :=
  default (default_limit op) (nkOpConfig (ps_limit s) !! op).
Definition get_pool_config (s : PState) (op : Symbol) (pool : Address) : RateLimitConfig :=
  default (get_op_config s op) (nkOpPoolConfig (ps_limit s) !! (op, pool)).
Definition is_grace_enabled (s : PState) (user : Address) (op : Symbol) : bool :=
  default false (nkUserGrace (ps_limit s) !! (user, op)).

Definition capacity_tokens (cfg : RateLimitConfig) (grace : bool) : Z :=
  let base := default I128_MAX (checked_add (rl_max_calls_per_window cfg) (rl_burst_calls cfg)) in
  let extra := if grace then rl_grace_burst_calls cfg else 0 in
  default I128_MAX (v ← checked_add base extra; checked_mul v TOKEN_SCALE).

Definition refill_per_second (cfg : RateLimitConfig) : LM Z :=
  reject_if ((rl_window_seconds cfg =? 0) || (rl_max_calls_per_window cfg =? 0)) RL_InvalidConfig ;;
  per_window ← ok_or (checked_mul (rl_max_calls_per_window cfg) TOKEN_SCALE) RL_Overflow;
  ok_or (checked_div per_window (rl_window_seconds cfg)) RL_Overflow.

Definition refill_bucket (bucket : BucketState) (cfg : RateLimitConfig) (cap_tokens : Z) : LM BucketState :=
  now ← ask timestamp;
  if now <=? bk_last_refill bucket then mret bucket
  else
    rate ← refill_per_second cfg;
    add ← ok_or (checked_mul rate (now - bk_last_refill bucket)) RL_Overflow;
    total ← ok_or (checked_add (bk_tokens bucket) add) RL_Overflow;
    mret (mkBucketState (Z.min total cap_tokens) now).

(** [get_or_init_bucket] on the entry under the key *)
Definition get_or_init_bucket (env : Env) (entry : option BucketState) (cap_tokens : Z) : BucketState :=
  default (mkBucketState cap_tokens (timestamp env)) entry.

Definition is_bypassed (s : PState) (caller : Address) : bool :=
  bool_decide (get_admin (ps_hello s) = Some caller) || has_role (ps_hello s) "rate_limit_bypass" caller.

Definition validate_limit_config (cfg : RateLimitConfig) : LM unit :=
  reject_if (rl_window_seconds cfg =? 0) RL_InvalidConfig ;;
  reject_if (rl_max_calls_per_window cfg =? 0) RL_InvalidConfig.

Definition configure_operation_limit (caller : Address) (op : Symbol) (cfg : RateLimitConfig) : LM unit :=
  admin_or caller RL_Unauthorized ;;
  validate_limit_config cfg ;;
  on_limit (λ l, l <| nkOpConfig := <[op := cfg]> (nkOpConfig l) |>).

Definition configure_pool_limit (caller : Address) (op : Symbol) (pool : Address) (cfg : RateLimitConfig) :
    LM unit :=
  admin_or caller RL_Unauthorized ;;
  validate_limit_config cfg ;;
  on_limit (λ l, l <| nkOpPoolConfig := <[(op, pool) := cfg]> (nkOpPoolConfig l) |>).

Definition set_user_grace (caller user : Address) (op : Symbol) (enabled : bool) : LM unit :=
  admin_or caller RL_Unauthorized ;;
  on_limit (λ l, l <| nkUserGrace := <[(user, op) := enabled]> (nkUserGrace l) |>).

(** Takes one token out of the bucket, and stores it. *)
Definition take_token (entry : PState → option BucketState) (store : BucketState → LimitStore → LimitStore)
    (cfg : RateLimitConfig) (cap : Z) : LM unit :=
  bucket ← reads (λ env s, get_or_init_bucket env (entry s) cap);
  bucket ← refill_bucket bucket cfg cap;
  reject_if (bk_tokens bucket <? TOKEN_SCALE) RL_RateLimited ;;
  left ← ok_or (checked_sub (bk_tokens bucket) TOKEN_SCALE) RL_Overflow;
  on_limit (store (bucket <| bk_tokens := left |>)).

Definition consume (caller user : Address) (op : Symbol) (pool : Address) : LM unit :=
  bypassed ← gets (λ s, is_bypassed s caller);
  if (bypassed : bool) then mret tt
  else
    cfg ← gets (λ s, get_pool_config s op pool);
    grace ← gets (λ s, is_grace_enabled s user op);
    let cap := capacity_tokens cfg grace in
    take_token (λ s, nkUserBucket (ps_limit s) !! (user, op, pool))
      (λ b l, l <| nkUserBucket := <[(user, op, pool) := b]> (nkUserBucket l) |>) cfg cap ;;
    take_token (λ s, nkGlobalBucket (ps_limit s) !! (op, pool))
      (λ b l, l <| nkGlobalBucket := <[(op, pool) := b]> (nkGlobalBucket l) |>) cfg cap.

(** [get_user_status] and [get_global_status], on the entry of the bucket *)
Definition limit_status (cfg : RateLimitConfig) (grace : bool) (entry : PState → option BucketState) :
    LM RateLimitStatus :=
  let cap := capacity_tokens cfg grace in
  bucket ← reads (λ env s, get_or_init_bucket env (entry s) cap);
  refill ← recover 0 (refill_per_second cfg);
  mret (mkRateLimitStatus cfg bucket cap refill grace).

Definition get_user_status (user : Address) (op : Symbol) (pool : Address) : LM RateLimitStatus :=
  cfg ← gets (λ s, get_pool_config s op pool);
  grace ← gets (λ s, is_grace_enabled s user op);
  limit_status cfg grace (λ s, nkUserBucket (ps_limit s) !! (user, op, pool)).

Definition get_global_status (op : Symbol) (pool : Address) : LM RateLimitStatus :=
  cfg ← gets (λ s, get_pool_config s op pool);
  limit_status cfg false (λ s, nkGlobalBucket (ps_limit s) !! (op, pool)).

(** ** circuit_breaker.rs *)

Abbreviation CBM := (M PState LendingError) (only parsing).

Definition DEFAULT_COOLDOWN_PERIOD : Z := 3600.
Definition MAX_COOLDOWN_PERIOD : Z := 86400.

(** [impl Default for CircuitBreakerConfig] *)
Definition default_breaker_config : CircuitBreakerConfig :=
  mkCircuitBreakerConfig DEFAULT_COOLDOWN_PERIOD true true.

Definition set_breaker (st : CircuitBreakerState) : CBM unit :=
  on_breaker (λ b, b <| bkCircuitBreakerState := Some st |>).

Definition initialize_circuit_breaker (this : Address) (config : CircuitBreakerConfig) : CBM unit :=
  reject_if (MAX_COOLDOWN_PERIOD <? cc_cooldown_period config) InvalidParameter ;;
  on_breaker (λ b, b <| bkCircuitBreakerConfig := Some config |>) ;;
  now ← ask timestamp;
  set_breaker (mkCircuitBreakerState BreakerActive now this (cc_cooldown_period config) None SystemMaintenance) ;;
  on_breaker (λ b, b <| bkCircuitBreakerWhitelist := Some [] |>).

Definition get_circuit_breaker_config (s : PState) : CircuitBreakerConfig :=
  default default_breaker_config (bkCircuitBreakerConfig (ps_breaker s)).

Definition get_circuit_breaker_state : CBM CircuitBreakerState :=
  stored ← gets (λ s, bkCircuitBreakerState (ps_breaker s));
  ok_or stored NotFound.

(** The authorisation that every administrative operation of the breaker opens with. *)
Definition breaker_admin (caller : Address) : CBM unit :=
  require_auth caller ;;
  current ← gets (λ s, get_admin (ps_hello s));
  admin ← ok_or current Unauthorized;
  reject_if (bool_decide (caller ≠ admin)) Unauthorized.

Definition activate_circuit_breaker (caller : Address) (reason : CircuitBreakerReason) (emergency_mode : bool) :
    CBM unit :=
  breaker_admin caller ;;
  config ← gets get_circuit_breaker_config;
  now ← ask timestamp;
  auto ← (if cc_auto_deactivate_enabled config then
            at_ ← unwrap (u64_checked_add now (cc_cooldown_period config)); mret (Some at_)
          else mret None);
  set_breaker (mkCircuitBreakerState (if emergency_mode then BreakerEmergency else BreakerPaused) now caller
                 (cc_cooldown_period config) auto reason) ;;
  emit (CircuitBreakerActivatedEvent caller emergency_mode now).

Definition deactivate_circuit_breaker (caller : Address) : CBM unit :=
  breaker_admin caller ;;
  state ← get_circuit_breaker_state;
  reject_if (bool_decide (cb_status state = BreakerActive)) InvalidState ;;
  set_breaker (state <| cb_status := BreakerActive |> <| cb_auto_deactivate_at := None |>) ;;
  now ← ask timestamp;
  emit (CircuitBreakerDeactivatedEvent caller now).

Definition get_whitelist (s : PState) : list Address := default [] (bkCircuitBreakerWhitelist (ps_breaker s)).
Definition is_whitelisted (s : PState) (liquidator : Address) : bool :=
  bool_decide (liquidator ∈ get_whitelist s).

Definition is_liquidation_allowed (liquidator : Address) : CBM bool :=
  state ← get_circuit_breaker_state;
  now ← ask timestamp;
  if match cb_auto_deactivate_at state with Some at_ => at_ <=? now | None => false end then
    set_breaker (state <| cb_status := BreakerActive |> <| cb_auto_deactivate_at := None |>) ;;
    mret true
  else
    match cb_status state with
    | BreakerActive => mret true
    | BreakerPaused => mret false
    | BreakerEmergency => gets (λ s, is_whitelisted s liquidator)
    end.

Definition set_whitelist (l : list Address) : CBM unit :=
  on_breaker (λ b, b <| bkCircuitBreakerWhitelist := Some l |>).

Definition add_to_whitelist (admin liquidator : Address) : CBM unit :=
  breaker_admin admin ;;
  whitelist ← gets get_whitelist;
  reject_if (bool_decide (liquidator ∈ whitelist)) AlreadyExists ;;
  set_whitelist (whitelist ++ [liquidator]) ;;
  now ← ask timestamp;
  emit (WhitelistAddedEvent liquidator admin now).

Definition remove_from_whitelist (admin liquidator : Address) : CBM unit :=
  breaker_admin admin ;;
  stored ← gets (λ s, bkCircuitBreakerWhitelist (ps_breaker s));
  whitelist ← ok_or stored NotFound;
  reject_if (bool_decide (liquidator ∉ whitelist)) NotFound ;;
  set_whitelist (filter (λ a, a ≠ liquidator) whitelist) ;;
  now ← ask timestamp;
  emit (WhitelistRemovedEvent liquidator admin now).

Definition update_circuit_breaker_config (admin : Address) (config : CircuitBreakerConfig) : CBM unit :=
  breaker_admin admin ;;
  reject_if (MAX_COOLDOWN_PERIOD <? cc_cooldown_period config) InvalidParameter ;;
  on_breaker (λ b, b <| bkCircuitBreakerConfig := Some config |>).

(** ** intents.rs *)

Inductive IntentError : Type := BadNonce | IntentExpired.

Abbreviation NM := (M PState IntentError) (only parsing).

Definition next_nonce (s : PState) (user : Address) (op : Symbol) : Z :=
  default 0 (yk_NextNonce (ps_report s) !! (user, op)).

Definition set_next_nonce (user : Address) (op : Symbol) (nonce : Z) : NM unit :=
  on_report (λ r, r <| yk_NextNonce := <[(user, op) := nonce]> (yk_NextNonce r) |>).

(** [user.require_auth_for_args(..)]: the environment says whether the user
    authorised the typed payload the contract builds. *)
Definition require_intent_auth (user : Address) (op : Symbol) (nonce expires_at : Z) : NM unit :=
  now ← ask timestamp;
  reject_if (expires_at <? now) IntentExpired ;;
  expected ← gets (λ s, next_nonce s user op);
  reject_if (negb (nonce =? expected)) BadNonce ;;
  require_auth user ;;
  set_next_nonce user op (u64_saturating_add expected 1).

(** ** mev_protection.rs *)

Abbreviation MVM := (M PState MevProtectionError) (only parsing).

Definition MAX_BPS : Z := 10000.

(** [default_config] of mev_protection.rs *)
Definition default_mev_config : MevProtectionConfig :=
  mkMevProtectionConfig 30 300 45 2500 10 60 500 true true.

Definition validate_mev_config (c : MevProtectionConfig) : MVM unit :=
  reject_if ((mv_commit_delay_secs c =? 0) || (mv_commit_expiry_secs c <=? mv_commit_delay_secs c)
             || (mv_suspicious_window_secs c =? 0)
             || negb (in_range 0 MAX_BPS (mv_fee_smoothing_bps c))
             || negb (in_range 0 MAX_BPS (mv_base_protection_fee_bps c))
             || negb (in_range 0 MAX_BPS (mv_surge_protection_fee_bps c))
             || negb (in_range 0 MAX_BPS (mv_sandwich_threshold_bps c))) ME_InvalidConfig.

Definition configure (caller : Address) (config : MevProtectionConfig) : MVM unit :=
  map_err (λ _, ME_Unauthorized) (within (rm_require_admin caller)) ;;
  validate_mev_config config ;;
  on_mev (λ m, m <| mkConfig := Some config |>).

Definition mev_config (s : PState) : MevProtectionConfig := default default_mev_config (mkConfig (ps_mev s)).

Definition next_commit_id : MVM Z :=
  stored ← gets (λ s, mkNextCommitId (ps_mev s));
  let id := default 1 stored in
  on_mev (λ m, m <| mkNextCommitId := Some (u64_saturating_add id 1) |>) ;;
  mret id.

Definition load_commit (commit_id : Z) : MVM PendingCommit :=
  stored ← gets (λ s, mkCommit (ps_mev s) !! commit_id);
  ok_or stored ME_CommitNotFound.

Definition remove_commit (commit_id : Z) : MVM unit :=
  on_mev (λ m, m <| mkCommit := delete commit_id (mkCommit m) |>).

Definition create_commit (owner : Address) (operation : SensitiveOperation)
    (asset secondary_asset borrower : option Address) (amount max_fee_bps : Z) (hint : TxOrderingHint) : MVM Z :=
  require_auth owner ;;
  reject_if (amount <=? 0) ME_InvalidAmount ;;
  reject_if (negb (in_range 0 MAX_BPS max_fee_bps)) ME_InvalidConfig ;;
  cfg ← gets mev_config;
  id ← next_commit_id;
  now ← ask timestamp;
  ledger ← ask sequence;
  on_mev (λ m, m <| mkCommit := <[id :=
    mkPendingCommit id owner operation asset secondary_asset borrower amount max_fee_bps hint now
      (u64_saturating_add now (mv_commit_delay_secs cfg)) (u64_saturating_add now (mv_commit_expiry_secs cfg))
      ledger]> (mkCommit m) |>) ;;
  mret id.

Definition cancel_commit (owner : Address) (commit_id : Z) : MVM unit :=
  require_auth owner ;;
  commit ← load_commit commit_id;
  reject_if (bool_decide (pc_owner commit ≠ owner)) ME_Unauthorized ;;
  remove_commit commit_id.

Definition operation_symbol (operation : SensitiveOperation) : Symbol :=
  match operation with OpBorrow => "borrow" | OpWithdraw => "withdraw" | OpLiquidate => "liquidate" end.

(** [(a - b).abs()] and the like trap on overflow. *)
Definition amounts_close (a b threshold_bps : Z) : MVM bool :=
  if (a =? 0) && (b =? 0) then mret true
  else
    abs_a ← unwrap (fit in_i128 (Z.abs a));
    abs_b ← unwrap (fit in_i128 (Z.abs b));
    let max := if abs_b <? abs_a then abs_a else abs_b in
    if max =? 0 then mret true
    else
      d ← unwrap (checked_sub a b);
      diff ← unwrap (fit in_i128 (Z.abs d));
      mret (saturating_mul diff MAX_BPS <=? saturating_mul max threshold_bps).

(** [now.saturating_sub(o.timestamp) <= cfg.suspicious_window_secs] *)
Definition is_recent (cfg : MevProtectionConfig) (now : Z) (o : OrderingObservation) : bool :=
  u64_saturating_sub now (oo_timestamp o) <=? mv_suspicious_window_secs cfg.

Definition preview_fee_bps (operation : SensitiveOperation) (asset : option Address) (amount : Z) : MVM Z :=
  cfg ← gets mev_config;
  let op_key := operation_symbol operation in
  latest ← gets (λ s, mkLatestObservation (ps_mev s) !! (op_key, asset));
  stored ← gets (λ s, mkSmoothedFee (ps_mev s) !! (op_key, asset));
  let prior := default (mv_base_protection_fee_bps cfg) stored in
  now ← ask timestamp;
  target ← match latest with
           | Some last =>
               if is_recent cfg now last then
                 close ← amounts_close (oo_amount last) amount (mv_sandwich_threshold_bps cfg);
                 mret (if (close : bool) then saturating_add (mv_surge_protection_fee_bps cfg) (mv_base_protection_fee_bps cfg)
                       else mv_surge_protection_fee_bps cfg)
               else mret (mv_base_protection_fee_bps cfg)
           | None => mret (mv_base_protection_fee_bps cfg)
           end;
  smoothed ← unwrap (saturating_div
                (saturating_add (saturating_mul prior (saturating_sub MAX_BPS (mv_fee_smoothing_bps cfg)))
                                (saturating_mul target (mv_fee_smoothing_bps cfg))) MAX_BPS);
  mret (clamp 0 MAX_BPS smoothed).

Definition execution_hint (s : PState) (requested : TxOrderingHint) : TxOrderingHint :=
  let cfg := mev_config s in
  match requested with
  | PrivateMempool => if mv_private_mempool_enabled cfg then PrivateMempool else DelayedReveal
  | BatchAuction => if mv_batching_enabled cfg then BatchAuction else DelayedReveal
  | HintDefault => if mv_private_mempool_enabled cfg then PrivateMempool
                   else if mv_batching_enabled cfg then BatchAuction else DelayedReveal
  | DelayedReveal => DelayedReveal
  end.

Definition get_ordering_stats (s : PState) : OrderingStats :=
  default (mkOrderingStats 0 0 0 0) (mkStats (ps_mev s)).

Definition validate_reveal (owner : Address) (commit_id : Z) (expected : SensitiveOperation) : MVM PendingCommit :=
  commit ← load_commit commit_id;
  reject_if (bool_decide (pc_owner commit ≠ owner)) ME_Unauthorized ;;
  reject_if (bool_decide (pc_operation commit ≠ expected)) ME_InvalidOperation ;;
  now ← ask timestamp;
  reject_if (now <? pc_reveal_after commit) ME_CommitNotReady ;;
  reject_if (pc_expires_at commit <? now) ME_CommitExpired ;;
  mret commit.

(** The statistics after one more observation. *)
Definition count_sequence (cfg : MevProtectionConfig) (now : Z) (actor : Address)
    (latest : option OrderingObservation) (stats : OrderingStats) : OrderingStats :=
  match latest with
  | Some last =>
      if is_recent cfg now last && bool_decide (oo_actor last ≠ actor)
      then stats <| os_suspicious_sequences := u64_saturating_add (os_suspicious_sequences stats) 1 |> else stats
  | None => stats
  end.

Definition count_sandwich (cfg : MevProtectionConfig) (now : Z) (actor : Address) (amount : Z)
    (previous latest : option OrderingObservation) (stats : OrderingStats) : MVM OrderingStats :=
  match previous, latest with
  | Some prev, Some last =>
      if is_recent cfg now prev && is_recent cfg now last && bool_decide (oo_actor prev = actor)
         && bool_decide (oo_actor last ≠ actor) then
        close ← amounts_close (oo_amount prev) amount (mv_sandwich_threshold_bps cfg);
        mret (if (close : bool) then stats <| os_sandwich_alerts := u64_saturating_add (os_sandwich_alerts stats) 1 |>
                                  <| os_last_alert_timestamp := now |> else stats)
      else mret stats
  | _, _ => mret stats
  end.

Definition record_ordering_signal (actor : Address) (operation : SensitiveOperation) (asset : option Address)
    (amount effective_fee_bps : Z) : MVM unit :=
  cfg ← gets mev_config;
  let key := (operation_symbol operation, asset) in
  now ← ask timestamp;
  latest ← gets (λ s, mkLatestObservation (ps_mev s) !! key);
  previous ← gets (λ s, mkPreviousObservation (ps_mev s) !! key);
  stats ← gets get_ordering_stats;
  let stats := count_sequence cfg now actor latest stats in
  stats ← count_sandwich cfg now actor amount previous latest stats;
  on_mev (λ m, m <| mkStats := Some (stats <| os_last_effective_fee_bps := effective_fee_bps |>) |>) ;;
  match latest with
  | Some last => on_mev (λ m, m <| mkPreviousObservation := <[key := last]> (mkPreviousObservation m) |>)
  | None => mret tt
  end ;;
  on_mev (λ m, m <| mkLatestObservation :=
                      <[key := mkOrderingObservation actor amount now]> (mkLatestObservation m) |>) ;;
  on_mev (λ m, m <| mkSmoothedFee := <[key := effective_fee_bps]> (mkSmoothedFee m) |>).

(** The fee check of the reveals. *)
Definition capped_fee (operation : SensitiveOperation) (commit : PendingCommit) : MVM Z :=
  effective_fee_bps ← preview_fee_bps operation (pc_asset commit) (pc_amount commit);
  reject_if (pc_max_fee_bps commit <? effective_fee_bps) ME_FeeCapExceeded ;;
  mret effective_fee_bps.

Definition reveal_borrow (owner : Address) (commit_id : Z) : MVM (option Address * Z * Z) :=
  require_auth owner ;;
  commit ← validate_reveal owner commit_id OpBorrow;
  fee ← capped_fee OpBorrow commit;
  record_ordering_signal owner OpBorrow (pc_asset commit) (pc_amount commit) fee ;;
  remove_commit commit_id ;;
  mret (pc_asset commit, pc_amount commit, fee).

Definition reveal_withdraw (owner : Address) (commit_id : Z) : MVM (option Address * Z) :=
  require_auth owner ;;
  commit ← validate_reveal owner commit_id OpWithdraw;
  fee ← capped_fee OpWithdraw commit;
  record_ordering_signal owner OpWithdraw (pc_asset commit) (pc_amount commit) fee ;;
  remove_commit commit_id ;;
  mret (pc_asset commit, pc_amount commit).

Definition reveal_liquidation (owner : Address) (commit_id : Z) :
    MVM (Address * option Address * option Address * Z) :=
  require_auth owner ;;
  commit ← validate_reveal owner commit_id OpLiquidate;
  fee ← capped_fee OpLiquidate commit;
  borrower ← ok_or (pc_borrower commit) ME_InvalidOperation;
  record_ordering_signal owner OpLiquidate (pc_asset commit) (pc_amount commit) fee ;;
  remove_commit commit_id ;;
  mret (borrower, pc_asset commit, pc_secondary_asset commit, pc_amount commit).
