(* ===== verification/Reserves.v ===== *)
(** * Reserves: the protocol's income in the hello-world contract

    The two ledgers of reserves, reserve.rs with its own balances and
    treasury.rs over the reserve that positions credit; the credit scores of
    credit_score.rs; the reports of analytics.rs.  Tokens are contracts of an
    arbitrary world. *)

From S2P Require Import Prelude.
From S2P Require Import Host.
From S2P Require Import HelloTypes.
From S2P Require Import HelloParams.
From S2P Require Import PositionTypes.

(** ** reserve.rs *)

Abbreviation VM := (M PState ReserveError) (only parsing).

Definition MAX_RESERVE_FACTOR_BPS : Z := 5000.
Definition DEFAULT_RESERVE_FACTOR_BPS : Z := 1000.

Definition get_reserve_balance (s : PState) (asset : option Address) : Z :=
  default 0 (vkReserveBalance (ps_reserve s) !! asset).
Definition get_reserve_factor (s : PState) (asset : option Address) : Z :=
  default DEFAULT_RESERVE_FACTOR_BPS (vkReserveFactor (ps_reserve s) !! asset).
Definition get_treasury_address (s : PState) : option Address := vkTreasuryAddress (ps_reserve s).

Definition set_reserve_balance (asset : option Address) (amount : Z) : VM unit :=
  on_reserve (λ r, r <| vkReserveBalance := <[asset := amount]> (vkReserveBalance r) |>).
Definition put_reserve_factor (asset : option Address) (factor : Z) : VM unit :=
  on_reserve (λ r, r <| vkReserveFactor := <[asset := factor]> (vkReserveFactor r) |>).

(** [caller.require_auth(); require_admin(env, &caller)?] *)
Definition reserve_admin (caller : Address) : VM unit :=
  require_auth caller ;;
  admin_or caller RS_Unauthorized.

Definition initialize_reserve_config (asset : option Address) (reserve_factor_bps : Z) : VM unit :=
  reject_if (negb (in_range 0 MAX_RESERVE_FACTOR_BPS reserve_factor_bps)) RS_InvalidReserveFactor ;;
  put_reserve_factor asset reserve_factor_bps ;;
  set_reserve_balance asset 0 ;;
  emit (ReserveInitialized asset reserve_factor_bps).

Definition set_reserve_factor (caller : Address) (asset : option Address) (reserve_factor_bps : Z) : VM unit :=
  reserve_admin caller ;;
  reject_if (negb (in_range 0 MAX_RESERVE_FACTOR_BPS reserve_factor_bps)) RS_InvalidReserveFactor ;;
  put_reserve_factor asset reserve_factor_bps ;;
  emit (ReserveFactorUpdated caller asset reserve_factor_bps).

Definition set_reserve_amm_target (caller : Address) (asset : option Address) (amm_contract : Address) : VM unit :=
  reserve_admin caller ;;
  on_reserve (λ r, r <| vkReserveAmmTarget := <[asset := amm_contract]> (vkReserveAmmTarget r) |>) ;;
  emit (ReserveAmmTargetSet caller asset amm_contract).

Definition record_reserve_deploy_to_amm (caller : Address) (asset : option Address)
    (reserve_amount lp_tokens_received : Z) : VM unit :=
  reserve_admin caller ;;
  reject_if ((reserve_amount <=? 0) || (lp_tokens_received <=? 0)) RS_InvalidAmount ;;
  current_reserve ← gets (λ s, get_reserve_balance s asset);
  reject_if (current_reserve <? reserve_amount) RS_InsufficientReserve ;;
  rest ← unwrap (checked_sub current_reserve reserve_amount);
  set_reserve_balance asset rest ;;
  current_lp ← gets (λ s, default 0 (vkReserveAmmLpBalance (ps_reserve s) !! asset));
  new_lp ← ok_or (checked_add current_lp lp_tokens_received) RS_Overflow;
  on_reserve (λ r, r <| vkReserveAmmLpBalance := <[asset := new_lp]> (vkReserveAmmLpBalance r) |>) ;;
  emit (ReserveDeployedToAmm caller asset reserve_amount lp_tokens_received new_lp).

Definition accrue_reserve (asset : option Address) (interest_amount : Z) : VM (Z * Z) :=
  if interest_amount <=? 0 then mret (0, 0)
  else
    reserve_factor ← gets (λ s, get_reserve_factor s asset);
    scaled ← ok_or (checked_mul interest_amount reserve_factor) RS_Overflow;
    reserve_amount ← ok_or (checked_div scaled BASIS_POINTS_SCALE) RS_Overflow;
    lender_amount ← ok_or (checked_sub interest_amount reserve_amount) RS_Overflow;
    current_balance ← gets (λ s, get_reserve_balance s asset);
    new_balance ← ok_or (checked_add current_balance reserve_amount) RS_Overflow;
    set_reserve_balance asset new_balance ;;
    emit (ReserveAccrued asset reserve_amount new_balance) ;;
    mret (reserve_amount, lender_amount).

Definition set_treasury_address (this caller treasury : Address) : VM unit :=
  reserve_admin caller ;;
  reject_if (bool_decide (treasury = this)) RS_InvalidTreasury ;;
  on_reserve (λ r, r <| vkTreasuryAddress := Some treasury |>) ;;
  emit (TreasuryAddressSet caller treasury).

(** ** treasury.rs *)

Abbreviation TM := (M PState TreasuryError) (only parsing).

Definition DEFAULT_INTEREST_FEE_BPS : Z := 1000.
Definition DEFAULT_LIQUIDATION_FEE_BPS : Z := 1000.

Definition default_fee_config : TreasuryFeeConfig :=
  mkTreasuryFeeConfig DEFAULT_INTEREST_FEE_BPS DEFAULT_LIQUIDATION_FEE_BPS.

Definition treasury_admin (caller : Address) : TM unit :=
  require_auth caller ;;
  admin_or caller TE_Unauthorized.

Definition set_treasury (caller treasury : Address) : TM unit :=
  treasury_admin caller ;;
  on_reserve (λ r, r <| vkTreasuryAddress := Some treasury |>) ;;
  now ← ask timestamp;
  emit (TreasurySetEvent caller treasury now).

Definition get_fee_config (s : PState) : TreasuryFeeConfig :=
  default default_fee_config (vkFeeConfig (ps_reserve s)).

Definition set_fee_config (caller : Address) (config : TreasuryFeeConfig) : TM unit :=
  treasury_admin caller ;;
  reject_if ((tf_interest_fee_bps config <? 0) || (10000 <? tf_interest_fee_bps config)) TE_InvalidFee ;;
  reject_if ((tf_liquidation_fee_bps config <? 0) || (10000 <? tf_liquidation_fee_bps config)) TE_InvalidFee ;;
  on_reserve (λ r, r <| vkFeeConfig := Some config |>) ;;
  now ← ask timestamp;
  emit (FeeConfigUpdatedEvent caller (tf_interest_fee_bps config) (tf_liquidation_fee_bps config) now).

(** [get_reserve_balance] of treasury.rs *)
Definition get_protocol_reserve (s : PState) (asset : option Address) : Z :=
  default 0 (lkProtocolReserve (ps_loan s) !! asset).

Definition set_protocol_reserve {E} (asset : option Address) (amount : Z) : M PState E unit :=
  on_loan (λ l, l <| lkProtocolReserve := <[asset := amount]> (lkProtocolReserve l) |>).

(** [ProtocolReserve(asset) += fee], as borrow, repay and liquidate do it *)
Definition credit_reserve {E} (asset : option Address) (fee : Z) (overflow : E) : M PState E unit :=
  current_reserve ← gets (λ s, get_protocol_reserve s asset);
  new_reserve ← ok_or (checked_add current_reserve fee) overflow;
  set_protocol_reserve asset new_reserve.

(** ** Moving reserves out *)

Section transfers.
Context {W : Type} (this : Address)
        (token_transfer : Address → Address → Address → Z → W → option (unit * W)).

(** [withdraw_reserve_funds] of reserve.rs *)
Definition withdraw_reserve_funds (caller : Address) (asset : option Address) (amount : Z) :
    M (PState * W) ReserveError Z :=
  local (reserve_admin caller) ;;
  reject_if (amount <=? 0) RS_InvalidAmount ;;
  stored ← local (gets get_treasury_address);
  treasury ← ok_or stored RS_TreasuryNotSet;
  current_balance ← local (gets (λ s, get_reserve_balance s asset));
  reject_if (current_balance <? amount) RS_InsufficientReserve ;;
  new_balance ← ok_or (checked_sub current_balance amount) RS_Overflow;
  local (set_reserve_balance asset new_balance) ;;
  local (emit (ReserveWithdrawn caller asset treasury amount new_balance)) ;;
  match asset with
  | Some token => call (token_transfer token this treasury amount)
  | None => mret tt
  end ;;
  mret amount.

(** [claim_reserves] of treasury.rs *)
Definition claim_reserves (caller : Address) (asset : option Address) (recipient : Address) (amount : Z) :
    M (PState * W) TreasuryError unit :=
  local (treasury_admin caller) ;;
  reject_if (amount <=? 0) TE_InvalidAmount ;;
  current_reserve ← local (gets (λ s, get_protocol_reserve s asset));
  reject_if (current_reserve <? amount) TE_InsufficientReserve ;;
  new_reserve ← ok_or (checked_sub current_reserve amount) TE_Overflow;
  local (set_protocol_reserve asset new_reserve) ;;
  match asset with
  | Some token => call (token_transfer token this recipient amount)
  | None => mret tt
  end ;;
  now ← ask timestamp;
  local (emit (ReservesClaimedEvent caller asset recipient amount now)).
End transfers.

(** ** credit_score.rs *)

Abbreviation KM := (M PState LendingError) (only parsing).

Definition MIN_CREDIT_SCORE : Z := 0.
Definition MAX_CREDIT_SCORE : Z := 1000.
Definition DEFAULT_CREDIT_SCORE : Z := 500.
Definition ON_TIME_REPAYMENT_BONUS : Z := 10.
Definition LATE_REPAYMENT_PENALTY : Z := 50.
Definition LIQUIDATION_PENALTY : Z := 100.
Definition HEALTHY_POSITION_BONUS : Z := 5.
Definition BASE_LTV_BPS : Z := 7000.
Definition MAX_LTV_BONUS_BPS : Z := 1500.
Definition MAX_LTV_PENALTY_BPS : Z := 2000.
Definition BASE_RATE_ADJUSTMENT_BPS : Z := 500.

Definition set_credit_score (user : Address) (c : CreditScore) : KM unit :=
  on_report (λ r, r <| yk_CreditScore := <[user := c]> (yk_CreditScore r) |>).

Definition get_credit_score (user : Address) : KM CreditScore :=
  stored ← gets (λ s, yk_CreditScore (ps_report s) !! user);
  ok_or stored NotFound.

Definition initialize_credit_score (user : Address) : KM unit :=
  stored ← gets (λ s, yk_CreditScore (ps_report s) !! user);
  match stored with
  | Some _ => mret tt
  | None =>
      now ← ask timestamp;
      set_credit_score user
        (mkCreditScore user DEFAULT_CREDIT_SCORE 0 0 0 0 0 now [mkCreditScoreSnapshot DEFAULT_CREDIT_SCORE now NewUser])
  end.

(** The last steps of the three updates: the new score, its time and its snapshot. *)
Definition rescore (user : Address) (c : CreditScore) (score : Z) (reason : CreditScoreChangeReason) : KM unit :=
  now ← ask timestamp;
  set_credit_score user
    (c <| cs_score := score |> <| cs_last_updated := now |>
       <| cs_history := (cs_history c ++ [mkCreditScoreSnapshot score now reason]) |>).

(** [count += 1] on a [u32] *)
Definition u32_incr (n : Z) : KM Z := unwrap (fit in_u32 (n + 1)).

Definition update_score_on_repayment (user : Address) (amount : Z) (is_on_time : bool) : KM unit :=
  initialize_credit_score user ;;
  c ← get_credit_score user;
  repaid ← unwrap (checked_add (cs_total_repaid c) amount);
  let c := c <| cs_total_repaid := repaid |> in
  if is_on_time then
    n ← u32_incr (cs_on_time_repayments c);
    score ← unwrap (checked_add (cs_score c) ON_TIME_REPAYMENT_BONUS);
    rescore user (c <| cs_on_time_repayments := n |>) (Z.min (Z.max score MIN_CREDIT_SCORE) MAX_CREDIT_SCORE)
      OnTimeRepayment
  else
    n ← u32_incr (cs_late_repayments c);
    score ← unwrap (checked_add (cs_score c) (- LATE_REPAYMENT_PENALTY));
    rescore user (c <| cs_late_repayments := n |>) (Z.min (Z.max score MIN_CREDIT_SCORE) MAX_CREDIT_SCORE)
      LateRepayment.

Definition update_score_on_liquidation (user : Address) : KM unit :=
  initialize_credit_score user ;;
  c ← get_credit_score user;
  n ← u32_incr (cs_liquidations c);
  score ← unwrap (checked_sub (cs_score c) LIQUIDATION_PENALTY);
  rescore user (c <| cs_liquidations := n |>) (Z.max score MIN_CREDIT_SCORE) LiquidationReason.

Definition update_score_on_healthy_position (user : Address) : KM unit :=
  initialize_credit_score user ;;
  c ← get_credit_score user;
  score ← unwrap (checked_add (cs_score c) HEALTHY_POSITION_BONUS);
  rescore user c (Z.min score MAX_CREDIT_SCORE) HealthyPosition.

Definition record_borrow (user : Address) (amount : Z) : KM unit :=
  initialize_credit_score user ;;
  c ← get_credit_score user;
  borrowed ← unwrap (checked_add (cs_total_borrowed c) amount);
  set_credit_score user (c <| cs_total_borrowed := borrowed |>).

(** The score of a user, or the score of nobody. *)
Definition score_of (s : PState) (user : Address) : Z :=
  match yk_CreditScore (ps_report s) !! user with Some c => cs_score c | None => DEFAULT_CREDIT_SCORE end.

(** [((score - from) * MAX_LTV_BONUS_BPS) / width] *)
Definition linear_bonus (score from width : Z) : KM Z :=
  d ← unwrap (checked_sub score from);
  p ← unwrap (checked_mul d MAX_LTV_BONUS_BPS);
  unwrap (checked_div p width).

(** The adjustment of the loan-to-value ratio for a score. *)
Definition ltv_adjustment (score : Z) : KM Z :=
  if 800 <=? score then mret MAX_LTV_BONUS_BPS
  else if 600 <=? score then linear_bonus score 600 200
  else if 300 <=? score then linear_bonus score 450 150
  else
    p ← unwrap (checked_mul score (MAX_LTV_PENALTY_BPS - 500));
    q ← unwrap (checked_div p 300);
    unwrap (checked_add (- MAX_LTV_PENALTY_BPS) q).

Definition calculate_adjusted_ltv (user : Address) : KM Z :=
  score ← gets (λ s, score_of s user);
  adjustment ← ltv_adjustment score;
  unwrap (checked_add BASE_LTV_BPS adjustment).

Definition calculate_adjusted_interest_rate (user : Address) (base_rate_bps : Z) : KM Z :=
  score ← gets (λ s, score_of s user);
  d ← unwrap (checked_sub 500 score);
  p ← unwrap (checked_mul d BASE_RATE_ADJUSTMENT_BPS);
  adjustment ← unwrap (checked_div p 500);
  unwrap (checked_add base_rate_bps adjustment).

(** ** analytics.rs *)

Abbreviation YM := (M PState AnalyticsError) (only parsing).

Definition protocol_analytics (s : PState) : ProtocolAnalytics :=
  default (mkProtocolAnalytics 0 0 0) (dkProtocolAnalytics (hs_rate (ps_hello s))).

Definition get_total_value_locked (s : PState) : Z := pa_total_value_locked (protocol_analytics s).

Definition get_protocol_utilization : YM Z :=
  analytics ← gets protocol_analytics;
  if pa_total_deposits analytics =? 0 then mret 0
  else
    scaled ← unwrap (checked_mul (pa_total_borrows analytics) BASIS_POINTS_SCALE);
    ok_or (checked_div scaled (pa_total_deposits analytics)) AN_Overflow.

Definition calculate_weighted_avg_interest_rate : YM Z :=
  analytics ← gets protocol_analytics;
  if pa_total_borrows analytics =? 0 then mret 0
  else
    utilization ← get_protocol_utilization;
    scaled ← unwrap (checked_mul utilization 10);
    share ← unwrap (checked_div scaled BASIS_POINTS_SCALE);
    unwrap (checked_add 200 share).

Definition update_protocol_metrics : YM ProtocolMetrics :=
  tvl ← gets get_total_value_locked;
  utilization ← get_protocol_utilization;
  avg_rate ← calculate_weighted_avg_interest_rate;
  analytics ← gets protocol_analytics;
  total_users ← gets (λ s, default 0 (yk_TotalUsers (ps_report s)));
  total_transactions ← gets (λ s, default 0 (yk_TotalTransactions (ps_report s)));
  now ← ask timestamp;
  let metrics := mkProtocolMetrics tvl (pa_total_deposits analytics) (pa_total_borrows analytics) utilization
                   avg_rate total_users total_transactions now in
  on_report (λ r, r <| yk_ProtocolMetrics := Some metrics |>) ;;
  mret metrics.

Definition get_protocol_stats : YM ProtocolMetrics :=
  cached ← gets (λ s, yk_ProtocolMetrics (ps_report s));
  match cached with
  | Some metrics => mret metrics
  | None => update_protocol_metrics
  end.

Definition get_user_position_summary (user : Address) : YM Position :=
  stored ← gets (λ s, lkPosition (ps_loan s) !! user);
  ok_or stored AN_DataNotFound.

Definition calculate_health_factor (user : Address) : YM Z :=
  position ← get_user_position_summary user;
  if pos_debt position =? 0 then mret I128_MAX
  else
    scaled ← unwrap (checked_mul (pos_collateral position) BASIS_POINTS_SCALE);
    ok_or (checked_div scaled (pos_debt position)) AN_Overflow.

Definition calculate_user_risk_level (health_factor : Z) : Z :=
  if 15000 <=? health_factor then 1
  else if 12000 <=? health_factor then 2
  else if 11000 <=? health_factor then 3
  else if 10500 <=? health_factor then 4
  else 5.

Definition get_user_activity_summary (user : Address) : YM UserMetrics :=
  stored ← gets (λ s, lkUserAnalytics (ps_loan s) !! user);
  user_analytics ← ok_or stored AN_DataNotFound;
  position ← recover (mkPosition 0 0 0 0) (get_user_position_summary user);
  health_factor ← recover I128_MAX (calculate_health_factor user);
  let activity_score := saturating_add (saturating_mul (ua_transaction_count user_analytics) 100)
                          (Z.quot (ua_total_deposits user_analytics) 1000) in
  mret (mkUserMetrics (pos_collateral position) (pos_debt position) health_factor
          (ua_total_deposits user_analytics) (ua_total_borrows user_analytics)
          (ua_total_withdrawals user_analytics) (ua_total_repayments user_analytics) activity_score
          (calculate_user_risk_level health_factor) (ua_transaction_count user_analytics)).

Definition activity_log (s : PState) : list Activity := default [] (lkActivityLog (ps_loan s)).

(** [offset + limit] is a plain addition of [u32]s. *)
Definition get_recent_activity (limit offset : Z) : YM (list Activity) :=
  log ← gets activity_log;
  if len log <=? offset then mret []
  else
    back ← unwrap (fit in_u32 (offset + limit));
    let start := Z.max 0 (len log - back) in
    let end_ := Z.max 0 (len log - offset) in
    mret (rev (take (Z.to_nat (end_ - start)) (drop (Z.to_nat start) log))).

Definition get_user_activity_feed (user : Address) (limit offset : Z) : YM (list Activity) :=
  log ← gets activity_log;
  let user_activities := rev (filter (λ e, act_user e = user) log) in
  if len user_activities <=? offset then mret []
  else
    let end_ := Z.max 0 (len user_activities - offset) in
    let start := Z.max 0 (end_ - limit) in
    mret (take (Z.to_nat (end_ - start)) (drop (Z.to_nat start) user_activities)).

Record UserReport : Type := mkUserReport {
  ur_user : Address;
  ur_metrics : UserMetrics;
  ur_position : Position;
  ur_recent_activities : list Activity;
  ur_timestamp : Z;
}.

Definition generate_protocol_report : YM (ProtocolMetrics * Z) :=
  metrics ← update_protocol_metrics;
  now ← ask timestamp;
  mret (metrics, now).

Definition generate_user_report (user : Address) : YM UserReport :=
  metrics ← get_user_activity_summary user;
  position ← get_user_position_summary user;
  recent_activities ← get_user_activity_feed user 10 0;
  now ← ask timestamp;
  mret (mkUserReport user metrics position recent_activities now).
