(* ===== verification/Positions.v ===== *)
(** * Positions: collateral and debt in the hello-world contract

    deposit.rs, multi_collateral.rs, borrow.rs, repay.rs, withdraw.rs and
    liquidate.rs.  Tokens are contracts of an arbitrary world [W]: a call may
    fail, which traps, and the host rolls the world back with the storage. *)

From S2P Require Import Prelude.
From S2P Require Import Host.
From S2P Require Import HelloTypes.
From S2P Require Import HelloParams.
From S2P Require Import PositionTypes.
From S2P Require Import Oracle.
From S2P Require Import Limits.
From S2P Require Import Reserves.

Abbreviation DM := (M PState DepositError) (only parsing).
Abbreviation BM := (M PState BorrowError) (only parsing).
Abbreviation WM := (M PState WithdrawError) (only parsing).
Abbreviation QM := (M PState LiquidationError) (only parsing).

(** ** deposit.rs: the records of a position *)

Definition set_asset_params (asset : Address) (params : AssetParams) : DM unit :=
  on_loan (λ l, l <| lkAssetParams := <[asset := params]> (lkAssetParams l) |>).

Definition get_collateral (s : PState) (user : Address) : Z :=
  default 0 (lkCollateralBalance (ps_loan s) !! user).
Definition set_collateral {E} (user : Address) (amount : Z) : M PState E unit :=
  on_loan (λ l, l <| lkCollateralBalance := <[user := amount]> (lkCollateralBalance l) |>).
Definition get_position (s : PState) (user : Address) : option Position := lkPosition (ps_loan s) !! user.
Definition set_position {E} (user : Address) (p : Position) : M PState E unit :=
  on_loan (λ l, l <| lkPosition := <[user := p]> (lkPosition l) |>).
Definition get_asset_params (s : PState) (asset : Address) : option AssetParams :=
  lkAssetParams (ps_loan s) !! asset.

(** [get_user_asset_collateral] and [get_user_asset_list] of multi_collateral.rs *)
Definition get_user_asset_collateral (s : PState) (user asset : Address) : Z :=
  default 0 (lkUserAssetCollateral (ps_loan s) !! (user, asset)).
Definition get_user_asset_list (s : PState) (user : Address) : list Address :=
  default [] (lkUserAssetList (ps_loan s) !! user).
Definition set_user_asset_collateral {E} (user asset : Address) (amount : Z) : M PState E unit :=
  on_loan (λ l, l <| lkUserAssetCollateral := <[(user, asset) := amount]> (lkUserAssetCollateral l) |>).
Definition set_user_asset_list {E} (user : Address) (assets : list Address) : M PState E unit :=
  on_loan (λ l, l <| lkUserAssetList := <[user := assets]> (lkUserAssetList l) |>).

(** A position for a user without one. *)
Definition new_position (now : Z) : Position := mkPosition 0 0 0 now.

Definition record_asset_deposit (user asset : Address) (amount : Z) : DM unit :=
  current ← gets (λ s, get_user_asset_collateral s user asset);
  new_balance ← ok_or (checked_add current amount) DE_Overflow;
  set_user_asset_collateral user asset new_balance ;;
  asset_list ← gets (λ s, get_user_asset_list s user);
  when (bool_decide (asset ∉ asset_list)) (set_user_asset_list user (asset_list ++ [asset])).

Definition record_asset_withdrawal {E} (user asset : Address) (amount : Z) : M PState E unit :=
  current ← gets (λ s, get_user_asset_collateral s user asset);
  let new_balance := default 0 (checked_sub current amount) in
  set_user_asset_collateral user asset new_balance ;;
  when (new_balance =? 0)
    (asset_list ← gets (λ s, get_user_asset_list s user);
     set_user_asset_list user (filter (λ a, a ≠ asset) asset_list)).

(** ** Statistics *)

Definition fresh_analytics (now : Z) : UserAnalytics := mkUserAnalytics 0 0 0 0 0 0 0 0 0 now now 0 0.
Definition user_analytics (s : PState) (user : Address) (now : Z) : UserAnalytics :=
  default (fresh_analytics now) (lkUserAnalytics (ps_loan s) !! user).
Definition set_user_analytics {E} (user : Address) (a : UserAnalytics) : M PState E unit :=
  on_loan (λ l, l <| lkUserAnalytics := <[user := a]> (lkUserAnalytics l) |>).

Definition set_protocol_analytics {E} (a : ProtocolAnalytics) : M PState E unit :=
  within (on_rate (λ r, r <| dkProtocolAnalytics := Some a |>)).

(** The last steps of every update of a user's statistics. *)
Definition touch (now : Z) (a : UserAnalytics) : UserAnalytics :=
  a <| ua_transaction_count := u64_saturating_add (ua_transaction_count a) 1 |> <| ua_last_activity := now |>.

(** [collateral * 10000 / debt], zero when it overflows *)
Definition ratio_or_zero (collateral debt : Z) : Z :=
  default 0 (v ← checked_mul collateral 10000; checked_div v debt).

(** The ratio of borrow, repay and liquidate, which is zero without collateral. *)
Definition with_ratio (a : UserAnalytics) : UserAnalytics :=
  a <| ua_collateralization_ratio :=
    if (0 <? ua_debt_value a) && (0 <? ua_collateral_value a)
    then ratio_or_zero (ua_collateral_value a) (ua_debt_value a) else 0 |>.

Definition update_user_analytics (user : Address) (amount now : Z) (is_deposit : bool) : DM unit :=
  a ← gets (λ s, user_analytics s user now);
  a ← (if is_deposit then
         deposits ← ok_or (checked_add (ua_total_deposits a) amount) DE_Overflow;
         value ← ok_or (checked_add (ua_collateral_value a) amount) DE_Overflow;
         mret (a <| ua_total_deposits := deposits |> <| ua_collateral_value := value |>)
       else mret a);
  set_user_analytics user (touch now a).

Definition update_protocol_analytics (amount : Z) (is_deposit : bool) : DM unit :=
  a ← gets protocol_analytics;
  a ← (if is_deposit then
         deposits ← ok_or (checked_add (pa_total_deposits a) amount) DE_Overflow;
         locked ← ok_or (checked_add (pa_total_value_locked a) amount) DE_Overflow;
         mret (a <| pa_total_deposits := deposits |> <| pa_total_value_locked := locked |>)
       else mret a);
  set_protocol_analytics a.

Definition add_activity_log {E} (user : Address) (activity_type : Symbol) (amount : Z)
    (asset : option Address) (now : Z) : M PState E unit :=
  log ← gets activity_log;
  let log := log ++ [mkActivity user activity_type amount asset now] in
  on_loan (λ l, l <| lkActivityLog := Some (if 1000 <? len log then tail log else log) |>).

(** The three events after the event of the operation. *)
Definition emit_updates {E} (user : Address) (p : Position) (operation : Symbol) (amount now : Z) :
    M PState E unit :=
  emit (PositionUpdatedEvent user (pos_collateral p) (pos_debt p)) ;;
  emit (AnalyticsUpdatedEvent user operation amount now) ;;
  emit (UserActivityTrackedEvent user operation amount now).

Definition check_risk_management_pause : DM unit :=
  paused ← gets (λ s, is_emergency_paused (ps_hello s));
  reject_if paused DE_DepositPaused.

Definition set_native_asset_address (this caller native_asset : Address) : DM unit :=
  current ← gets (λ s, get_admin (ps_hello s));
  admin ← ok_or current DE_InvalidAsset;
  reject_if (bool_decide (caller ≠ admin)) DE_InvalidAsset ;;
  require_auth caller ;;
  reject_if (bool_decide (native_asset = this)) DE_InvalidAsset ;;
  on_loan (λ l, l <| lkNativeAssetAddress := Some native_asset |>).

(** ** multi_collateral.rs *)

Definition PRICE_DECIMALS : Z := 100000000.
Definition BPS_SCALE : Z := 10000.

Definition get_collateral_factor (s : PState) (asset : Address) : Z :=
  match get_asset_params s asset with Some p => ap_collateral_factor p | None => BPS_SCALE end.

(** [get_oracle_price], and [get_asset_price] of liquidate.rs: the default hides
    every failure of the oracle. *)
Definition get_oracle_price {E} (asset : Address) : M PState E Z := recover PRICE_DECIMALS (get_price asset).

Definition weighted_value (amount price factor : Z) : M PState MultiCollateralError Z :=
  value_with_price ← ok_or (checked_mul amount price) MC_Overflow;
  value_in_base ← ok_or (checked_div value_with_price PRICE_DECIMALS) MC_Overflow;
  weighted ← ok_or (checked_mul value_in_base factor) MC_Overflow;
  ok_or (checked_div weighted BPS_SCALE) MC_Overflow.

(** The loop of [calculate_total_collateral_value] *)
Fixpoint sum_collateral_value (user : Address) (assets : list Address) (total : Z) :
    M PState MultiCollateralError Z :=
  match assets with
  | [] => mret total
  | asset :: rest =>
      amount ← gets (λ s, get_user_asset_collateral s user asset);
      if amount =? 0 then sum_collateral_value user rest total
      else
        price ← get_oracle_price asset;
        factor ← gets (λ s, get_collateral_factor s asset);
        value ← weighted_value amount price factor;
        total ← ok_or (checked_add total value) MC_Overflow;
        sum_collateral_value user rest total
  end.

Definition calculate_total_collateral_value (user : Address) : M PState MultiCollateralError Z :=
  asset_list ← gets (λ s, get_user_asset_list s user);
  sum_collateral_value user asset_list 0.

Definition has_multi_asset_collateral (s : PState) (user : Address) : bool :=
  negb (bool_decide (get_user_asset_list s user = [])).

(** ** Interest

    [accrue_interest], which borrow.rs, repay.rs and liquidate.rs repeat with
    their own overflow error. *)

Definition accrue_interest {E} (overflow : E) (user : Address) (position : Position) : M PState E Position :=
  now ← ask timestamp;
  index ← map_err (λ _, overflow) (within update_lending_index);
  let current_index := li_borrow_index index in
  position ←
    (if pos_debt position =? 0 then
       mret (position <| pos_borrow_interest := 0 |> <| pos_last_accrual_time := now |>)
     else
       stored ← loan (λ l, lkUserBorrowIndex l !! user);
       let user_index := default current_index stored in
       new_interest ← map_err (λ _, overflow)
                        (within (compute_index_interest (pos_debt position) user_index current_index));
       interest ← ok_or (checked_add (pos_borrow_interest position) new_interest) overflow;
       mret (position <| pos_borrow_interest := interest |> <| pos_last_accrual_time := now |>));
  on_loan (λ l, l <| lkUserBorrowIndex := <[user := current_index]> (lkUserBorrowIndex l) |>) ;;
  mret position.

(** ** borrow.rs *)

(** [collateral * collateral_factor / 10000] *)
Definition factored (collateral collateral_factor : Z) : BM Z :=
  scaled ← ok_or (checked_mul collateral collateral_factor) BE_Overflow;
  ok_or (checked_div scaled 10000) BE_Overflow.

(** [value * 10000 / by] *)
Definition scaled_down (value by_ : Z) : BM Z :=
  scaled ← ok_or (checked_mul value 10000) BE_Overflow;
  ok_or (checked_div scaled by_) BE_Overflow.

Definition calculate_max_borrowable (collateral current_debt current_interest collateral_factor
    min_collateral_ratio : Z) : BM Z :=
  collateral_value ← factored collateral collateral_factor;
  current_total_debt ← ok_or (checked_add current_debt current_interest) BE_Overflow;
  max_debt ← scaled_down collateral_value min_collateral_ratio;
  if current_total_debt <? max_debt then ok_or (checked_sub max_debt current_total_debt) BE_Overflow
  else mret 0.

(** The collateral that counts for a user, and whether the factor is still to
    be applied. *)
Definition effective_collateral (user : Address) : BM (Z * bool) :=
  multi ← gets (λ s, has_multi_asset_collateral s user);
  if (multi : bool) then
    total ← map_err (λ _, BE_Overflow) (calculate_total_collateral_value user);
    mret (total, false)
  else
    balance ← gets (λ s, get_collateral s user);
    mret (balance, true).

(** [risk_params::get_min_collateral_ratio(env).unwrap_or(15000)] *)
Definition min_ratio (s : PState) : Z :=
  match get_risk_params (ps_hello s) with Some p => rp_min_collateral_ratio p | None => 15000 end.

Definition validate_collateral_ratio_after_borrow (user : Address) (borrow_amount collateral_factor : Z) : BM unit :=
  stored ← gets (λ s, get_position s user);
  position ← ok_or stored BE_InsufficientCollateral;
  '(collateral, apply_factor) ← effective_collateral user;
  reject_if (collateral =? 0) BE_InsufficientCollateral ;;
  new_debt ← ok_or (checked_add (pos_debt position) borrow_amount) BE_Overflow;
  total_debt ← ok_or (checked_add new_debt (pos_borrow_interest position)) BE_Overflow;
  if total_debt =? 0 then mret tt
  else
    collateral_value ← (if (apply_factor : bool) then factored collateral collateral_factor else mret collateral);
    ratio ← scaled_down collateral_value total_debt;
    required ← gets min_ratio;
    reject_if (ratio <? required) BE_InsufficientCollateralRatio.

Definition update_user_analytics_borrow (user : Address) (amount now : Z) : BM unit :=
  a ← gets (λ s, user_analytics s user now);
  borrows ← ok_or (checked_add (ua_total_borrows a) amount) BE_Overflow;
  debt ← ok_or (checked_add (ua_debt_value a) amount) BE_Overflow;
  set_user_analytics user (touch now (with_ratio (a <| ua_total_borrows := borrows |> <| ua_debt_value := debt |>))).

Definition update_protocol_analytics_borrow (amount : Z) : BM unit :=
  a ← gets protocol_analytics;
  borrows ← ok_or (checked_add (pa_total_borrows a) amount) BE_Overflow;
  set_protocol_analytics (a <| pa_total_borrows := borrows |>).

(** ** repay.rs *)

Definition update_user_analytics_repay (user : Address) (amount now : Z) : M PState RepayError unit :=
  a ← gets (λ s, user_analytics s user now);
  repayments ← ok_or (checked_add (ua_total_repayments a) amount) RE_Overflow;
  set_user_analytics user (touch now (with_ratio
    (a <| ua_total_repayments := repayments |>
       <| ua_debt_value := default 0 (checked_sub (ua_debt_value a) amount) |>))).

Definition update_protocol_analytics_repay (amount : Z) : M PState RepayError unit :=
  a ← gets protocol_analytics;
  set_protocol_analytics (a <| pa_total_borrows := default 0 (checked_sub (pa_total_borrows a) amount) |>).

(** ** withdraw.rs *)

(** [calculate_collateral_ratio]: also [None] on overflow *)
Definition calculate_collateral_ratio (collateral debt interest collateral_factor : Z) : option Z :=
  total_debt ← checked_add debt interest;
  if total_debt =? 0 then None
  else
    scaled ← checked_mul collateral collateral_factor;
    collateral_value ← checked_div scaled 10000;
    scaled ← checked_mul collateral_value 10000;
    checked_div scaled total_debt.

Definition asset_factor (s : PState) (asset : option Address) : Z :=
  match asset with
  | Some a => match get_asset_params s a with Some p => ap_collateral_factor p | None => 10000 end
  | None => 10000
  end.

Definition validate_collateral_ratio_after_withdraw (user : Address) (withdraw_amount : Z)
    (asset : option Address) : WM unit :=
  stored ← gets (λ s, get_position s user);
  position ← ok_or stored WE_InsufficientCollateral;
  if (pos_debt position =? 0) && (pos_borrow_interest position =? 0) then mret tt
  else
    current_collateral ← gets (λ s, get_collateral s user);
    new_collateral ← ok_or (checked_sub current_collateral withdraw_amount) WE_InsufficientCollateral;
    collateral_factor ← gets (λ s, asset_factor s asset);
    _ ← ok_or (checked_add (pos_debt position) (pos_borrow_interest position)) WE_Overflow;
    match calculate_collateral_ratio new_collateral (pos_debt position) (pos_borrow_interest position)
            collateral_factor with
    | Some new_ratio =>
        required ← gets min_ratio;
        reject_if (new_ratio <? required) WE_InsufficientCollateralRatio
    | None => mret tt
    end.

Definition update_user_analytics_withdraw (user : Address) (amount now : Z) : WM unit :=
  a ← gets (λ s, user_analytics s user now);
  withdrawals ← ok_or (checked_add (ua_total_withdrawals a) amount) WE_Overflow;
  let value := default 0 (checked_sub (ua_collateral_value a) amount) in
  set_user_analytics user (touch now
    (a <| ua_total_withdrawals := withdrawals |> <| ua_collateral_value := value |>
       <| ua_collateralization_ratio :=
            if 0 <? ua_debt_value a then ratio_or_zero value (ua_debt_value a) else 0 |>)).

Definition update_protocol_analytics_withdraw (amount : Z) : WM unit :=
  a ← gets protocol_analytics;
  set_protocol_analytics
    (a <| pa_total_value_locked := default 0 (checked_sub (pa_total_value_locked a) amount) |>).

(** ** liquidate.rs *)

Definition MAX_PENALTY_BPS : Z := 2000.

Definition calculate_dynamic_penalty (collateral_value total_debt : Z) : QM Z :=
  stored ← gets (λ s, get_risk_params (ps_hello s));
  params ← ok_or stored LQ_Overflow;
  let base_incentive := rp_liquidation_incentive params in
  let threshold := rp_liquidation_threshold params in
  if total_debt =? 0 then mret base_incentive
  else
    scaled ← ok_or (checked_mul collateral_value 10000) LQ_Overflow;
    health_factor_bps ← ok_or (checked_div scaled total_debt) LQ_Overflow;
    if threshold <=? health_factor_bps then mret base_incentive
    else
      severity_numerator ← unwrap (checked_sub threshold health_factor_bps);
      penalty_range ← unwrap (checked_sub MAX_PENALTY_BPS base_incentive);
      product ← ok_or (checked_mul severity_numerator penalty_range) LQ_Overflow;
      extra ← ok_or (checked_div product threshold) LQ_Overflow;
      penalty ← ok_or (checked_add base_incentive extra) LQ_Overflow;
      mret (Z.min penalty MAX_PENALTY_BPS).

(** [amount * from_price / to_price] *)
Definition convert (amount from_price to_price : Z) : QM Z :=
  p ← ok_or (checked_mul amount from_price) LQ_Overflow;
  ok_or (checked_div p to_price) LQ_Overflow.

Definition calculate_collateral_value (collateral_amount collateral_price debt_price : Z) : QM Z :=
  reject_if (debt_price =? 0) LQ_PriceNotAvailable ;;
  convert collateral_amount collateral_price debt_price.

(** The price of an asset, one for the native asset. *)
Definition price_of (asset : option Address) : QM Z :=
  match asset with Some a => get_oracle_price a | None => mret 1 end.

Definition is_native (debt_asset collateral_asset : option Address) : bool :=
  bool_decide (debt_asset = None) && bool_decide (collateral_asset = None).

(** The collateral a liquidation can seize. *)
Definition seizable (s : PState) (borrower : Address) (collateral_asset : option Address) : Z :=
  match collateral_asset with
  | Some a => if has_multi_asset_collateral s borrower then get_user_asset_collateral s borrower a
              else get_collateral s borrower
  | None => get_collateral s borrower
  end.

(** The collateral value a liquidation is decided on. *)
Definition value_for_check (borrower : Address) (debt_asset collateral_asset : option Address)
    (collateral_balance : Z) : QM Z :=
  multi ← gets (λ s, has_multi_asset_collateral s borrower);
  if (multi : bool) then map_err (λ _, LQ_Overflow) (calculate_total_collateral_value borrower)
  else if is_native debt_asset collateral_asset then mret collateral_balance
  else
    debt_price ← price_of debt_asset;
    collateral_price ← price_of collateral_asset;
    calculate_collateral_value collateral_balance collateral_price debt_price.

(** The amount of collateral a debt is worth. *)
Definition debt_in_collateral (debt_asset collateral_asset : option Address) (amount : Z) : QM Z :=
  if is_native debt_asset collateral_asset then mret amount
  else
    debt_price ← price_of debt_asset;
    collateral_price ← price_of collateral_asset;
    convert amount debt_price collateral_price.

Record LiquidationTerms : Type := mkLiquidationTerms {
  lt_debt : Z;
  lt_seized : Z;
  lt_incentive : Z;
  lt_fee : Z;
  lt_to_liquidator : Z;
}.

(** What is repaid, seized and kept: the part of [liquidate] from the position
    to the transfers. *)
Definition liquidation_terms (borrower : Address) (debt_asset collateral_asset : option Address)
    (debt_amount : Z) (position : Position) : QM LiquidationTerms :=
  collateral_balance ← gets (λ s, seizable s borrower collateral_asset);
  total_debt ← ok_or (checked_add (pos_debt position) (pos_borrow_interest position)) LQ_Overflow;
  check_value ← value_for_check borrower debt_asset collateral_asset collateral_balance;
  can_liquidate ← map_err (λ _, LQ_NotLiquidatable) (within (can_be_liquidated check_value total_debt));
  reject_if (negb can_liquidate) LQ_NotLiquidatable ;;
  max_liquidatable ← map_err (λ _, LQ_Overflow) (within (get_max_liquidatable_amount total_debt));
  reject_if (max_liquidatable <? debt_amount) LQ_ExceedsCloseFactor ;;
  let debt_liquidated := if total_debt <? debt_amount then total_debt else debt_amount in
  incentive_bps ← calculate_dynamic_penalty check_value total_debt;
  product ← ok_or (checked_mul debt_liquidated incentive_bps) LQ_Overflow;
  incentive_amount ← ok_or (checked_div product 10000) LQ_Overflow;
  worth ← debt_in_collateral debt_asset collateral_asset debt_liquidated;
  with_bonus ← unwrap (checked_add 10000 incentive_bps);
  product ← ok_or (checked_mul worth with_bonus) LQ_Overflow;
  collateral_seized ← ok_or (checked_div product 10000) LQ_Overflow;
  let seized := if collateral_balance <? collateral_seized then collateral_balance else collateral_seized in
  fee_config ← gets get_fee_config;
  product ← ok_or (checked_mul incentive_amount (tf_liquidation_fee_bps fee_config)) LQ_Overflow;
  fee ← ok_or (checked_div product 10000) LQ_Overflow;
  to_liquidator ← ok_or (checked_sub seized fee) LQ_Overflow;
  mret (mkLiquidationTerms debt_liquidated seized incentive_amount fee to_liquidator).

(** The position after a payment: interest first, then principal. *)
Definition pay_position (position : Position) (interest principal now : Z) : Position :=
  position <| pos_borrow_interest := default 0 (checked_sub (pos_borrow_interest position) interest) |>
           <| pos_debt := default 0 (checked_sub (pos_debt position) principal) |>
           <| pos_last_accrual_time := now |>.

(** The interest part of a payment. *)
Definition interest_part (position : Position) (amount : Z) : Z :=
  if amount <=? pos_borrow_interest position then amount else pos_borrow_interest position.

Definition update_liquidation_analytics (borrower : Address) (debt_liquidated collateral_seized now : Z) : QM unit :=
  a ← gets (λ s, user_analytics s borrower now);
  set_user_analytics borrower (touch now (with_ratio
    (a <| ua_debt_value := default 0 (checked_sub (ua_debt_value a) debt_liquidated) |>
       <| ua_collateral_value := default 0 (checked_sub (ua_collateral_value a) collateral_seized) |>))) ;;
  p ← gets protocol_analytics;
  set_protocol_analytics
    (p <| pa_total_value_locked := default 0 (checked_sub (pa_total_value_locked p) collateral_seized) |>).

(** The records a liquidation changes, after the transfers. *)
Definition settle_liquidation (liquidator borrower : Address) (debt_asset collateral_asset : option Address)
    (position : Position) (t : LiquidationTerms) (now : Z) : QM Position :=
  when (0 <? lt_fee t)
    (credit_reserve collateral_asset (lt_fee t) LQ_Overflow ;;
     emit (LiquidationFeeCollectedEvent collateral_asset (lt_fee t) now)) ;;
  let interest_to_pay := interest_part position (lt_debt t) in
  principal_to_pay ← ok_or (checked_sub (lt_debt t) interest_to_pay) LQ_Overflow;
  let position := pay_position position interest_to_pay principal_to_pay now in
  aggregate ← gets (λ s, get_collateral s borrower);
  let new_aggregate := default 0 (checked_sub aggregate (lt_seized t)) in
  set_collateral borrower new_aggregate ;;
  match collateral_asset with
  | Some a =>
      multi ← gets (λ s, has_multi_asset_collateral s borrower);
      when (multi : bool) (record_asset_withdrawal borrower a (lt_seized t))
  | None => mret tt
  end ;;
  let position := position <| pos_collateral := new_aggregate |> in
  set_position borrower position ;;
  update_liquidation_analytics borrower (lt_debt t) (lt_seized t) now ;;
  add_activity_log borrower "liquidate" (lt_debt t) debt_asset now ;;
  emit (LiquidationEvent liquidator borrower debt_asset collateral_asset (lt_debt t) (lt_seized t)
          (lt_incentive t) now) ;;
  mret position.

(** ** The operations *)

Section operations.
Context {W : Type} (this : Address)
        (token_balance : Address → Address → W → option (Z * W))
        (token_transfer : Address → Address → Address → Z → W → option (unit * W))
        (token_transfer_from : Address → Address → Address → Address → Z → W → option (unit * W)).

(** [let _guard = ReentrancyGuard::new(env)?]: the lock is removed when the
    function returns. *)
Definition guarded {E A} (busy : E) (m : M (PState * W) E A) : M (PState * W) E A := λ env '(s, w),
  if ps_lock s then (Err busy, (s, w))
  else
    let '(r, (s', w')) := m env (s <| ps_lock := true |>, w) in
    (r, (s' <| ps_lock := false |>, w')).

(** [asset == Some(env.current_contract_address())] *)
Definition is_this (asset : option Address) : bool := bool_decide (asset = Some this).

(** Checks a balance, then takes the tokens with [transfer_from]. *)
Definition collect {E} (token from : Address) (amount : Z) (insufficient : E) : M (PState * W) E unit :=
  balance ← call (token_balance token from);
  reject_if (balance <? amount) insufficient ;;
  call (token_transfer_from token this from this amount).

Definition deposit_collateral (user : Address) (asset : option Address) (amount : Z) :
    M (PState * W) DepositError Z :=
  reject_if (amount <=? 0) DE_InvalidAmount ;;
  guarded DE_Reentrancy
    (paused ← local (gets (λ s, switched_off s "pause_deposit"));
     reject_if paused DE_DepositPaused ;;
     local check_risk_management_pause ;;
     now ← ask timestamp;
     match asset with
     | Some token =>
         reject_if (bool_decide (token = this)) DE_InvalidAsset ;;
         params ← local (gets (λ s, get_asset_params s token));
         match params with
         | Some p =>
             reject_if (negb (ap_deposit_enabled p)) DE_AssetNotEnabled ;;
             reject_if ((0 <? ap_max_deposit p) && (ap_max_deposit p <? amount)) DE_InvalidAmount
         | None => mret tt
         end ;;
         collect token user amount DE_InsufficientBalance
     | None => mret tt
     end ;;
     stored ← local (gets (λ s, get_position s user));
     let position := default (new_position now) stored in
     current_collateral ← local (gets (λ s, get_collateral s user));
     new_collateral ← ok_or (checked_add current_collateral amount) DE_Overflow;
     local (set_collateral user new_collateral) ;;
     match asset with
     | Some token => local (record_asset_deposit user token amount)
     | None => mret tt
     end ;;
     let position := position <| pos_collateral := new_collateral |> <| pos_last_accrual_time := now |> in
     local (set_position user position) ;;
     local (update_user_analytics user amount now true) ;;
     local (update_protocol_analytics amount true) ;;
     local (add_activity_log user "deposit" amount asset now) ;;
     local (emit (DepositEvent user asset amount now)) ;;
     local (emit_updates user position "deposit" amount now) ;;
     mret new_collateral).

Definition borrow_asset (user : Address) (asset : option Address) (amount : Z) : M (PState * W) BorrowError Z :=
  reject_if (amount <=? 0) BE_InvalidAmount ;;
  guarded BE_Reentrancy
    (paused ← local (gets (λ s, switched_off s "pause_borrow"));
     reject_if paused BE_BorrowPaused ;;
     now ← ask timestamp;
     reject_if (is_this asset) BE_InvalidAsset ;;
     params ← local (gets (λ s, a ← asset; get_asset_params s a));
     reject_if (match params with Some p => negb (ap_deposit_enabled p) | None => false end) BE_AssetNotEnabled ;;
     stored ← local (gets (λ s, get_position s user));
     position ← local (accrue_interest BE_Overflow user (default (new_position now) stored));
     '(collateral, use_raw_factor) ← local (effective_collateral user);
     reject_if (collateral =? 0) BE_InsufficientCollateral ;;
     let collateral_factor := match params with Some p => ap_collateral_factor p | None => 10000 end in
     let borrow_fee_bps := match params with Some p => ap_borrow_fee_bps p | None => 0 end in
     required ← local (gets min_ratio);
     max_borrowable ← local (calculate_max_borrowable collateral (pos_debt position) (pos_borrow_interest position)
                               (if (use_raw_factor : bool) then collateral_factor else 10000) required);
     reject_if (max_borrowable <? amount) BE_MaxBorrowExceeded ;;
     local (validate_collateral_ratio_after_borrow user amount collateral_factor) ;;
     new_debt ← ok_or (checked_add (pos_debt position) amount) BE_Overflow;
     product ← ok_or (checked_mul amount borrow_fee_bps) BE_Overflow;
     fee_amount ← ok_or (checked_div product 10000) BE_Overflow;
     receive_amount ← ok_or (checked_sub amount fee_amount) BE_Overflow;
     reject_if (receive_amount <=? 0) BE_InvalidAmount ;;
     let position := position <| pos_debt := new_debt |> <| pos_last_accrual_time := now |> in
     local (set_position user position) ;;
     match asset with
     | Some token =>
         contract_balance ← call (token_balance token this);
         reject_if (contract_balance <? amount) BE_InsufficientCollateral ;;
         call (token_transfer token this user receive_amount) ;;
         when (0 <? fee_amount) (local (credit_reserve asset fee_amount BE_Overflow))
     | None => mret tt
     end ;;
     local (update_user_analytics_borrow user amount now) ;;
     local (update_protocol_analytics_borrow amount) ;;
     local (add_activity_log user "borrow" amount asset now) ;;
     local (emit (BorrowEvent user asset amount now)) ;;
     local (emit_updates user position "borrow" amount now) ;;
     ok_or (checked_add (pos_debt position) (pos_borrow_interest position)) BE_Overflow).

(** [get_native_asset_address] of repay.rs *)
Definition get_native_asset_address : M PState RepayError Address :=
  stored ← loan lkNativeAssetAddress;
  ok_or stored RE_InvalidAsset.

(** The tokens are collected twice when an asset is named, and the payment is
    subtracted twice from the position, as in the code. *)
Definition repay_debt (user : Address) (asset : option Address) (amount : Z) :
    M (PState * W) RepayError (Z * Z * Z) :=
  reject_if (amount <=? 0) RE_InvalidAmount ;;
  guarded RE_Reentrancy
    (paused ← local (gets (λ s, switched_off s "pause_repay"));
     reject_if paused RE_RepayPaused ;;
     now ← ask timestamp;
     reject_if (is_this asset) RE_InvalidAsset ;;
     asset_addr ← match asset with
                  | Some token => mret token
                  | None => local get_native_asset_address
                  end;
     reserve_factor ← local (gets (λ s, tf_interest_fee_bps (get_fee_config s)));
     stored ← local (gets (λ s, get_position s user));
     position ← ok_or stored RE_NoDebt;
     reject_if ((pos_debt position =? 0) && (pos_borrow_interest position =? 0)) RE_NoDebt ;;
     position ← local (accrue_interest RE_Overflow user position);
     total_debt ← ok_or (checked_add (pos_debt position) (pos_borrow_interest position)) RE_Overflow;
     let repay_amount := if total_debt <=? amount then total_debt else amount in
     match asset with
     | Some token => collect token user repay_amount RE_InsufficientBalance
     | None => mret tt
     end ;;
     let interest_paid := interest_part position repay_amount in
     principal_paid ← ok_or (checked_sub repay_amount interest_paid) RE_Overflow;
     collect asset_addr user repay_amount RE_InsufficientBalance ;;
     let position := pay_position (pay_position position interest_paid principal_paid now)
                       interest_paid principal_paid now in
     local (set_position user position) ;;
     when (0 <? interest_paid)
       (product ← ok_or (checked_mul interest_paid reserve_factor) RE_Overflow;
        reserve_amount ← ok_or (checked_div product 10000) RE_Overflow;
        when (0 <? reserve_amount) (local (credit_reserve asset reserve_amount RE_Overflow))) ;;
     local (update_user_analytics_repay user repay_amount now) ;;
     local (update_protocol_analytics_repay repay_amount) ;;
     local (add_activity_log user "repay" repay_amount asset now) ;;
     local (emit (RepayEvent user asset repay_amount now)) ;;
     local (add_activity_log user "repay" repay_amount asset now) ;;
     local (emit (RepayEvent user asset repay_amount now)) ;;
     local (recover tt (update_score_on_repayment user repay_amount
                          ((0 <? principal_paid) || (repay_amount =? total_debt)))) ;;
     local (recover tt (record_borrow user 0)) ;;
     local (emit_updates user position "repay" repay_amount now) ;;
     mret (default 0 (checked_add (pos_debt position) (pos_borrow_interest position)),
           interest_paid, principal_paid)).

Definition withdraw_collateral (user : Address) (asset : option Address) (amount : Z) :
    M (PState * W) WithdrawError Z :=
  reject_if (amount <=? 0) WE_InvalidAmount ;;
  guarded WE_Reentrancy
    (paused ← local (gets (λ s, switched_off s "pause_withdraw"));
     reject_if paused WE_WithdrawPaused ;;
     now ← ask timestamp;
     reject_if (is_this asset) WE_InvalidAsset ;;
     current_collateral ← local (gets (λ s, get_collateral s user));
     reject_if (current_collateral <? amount) WE_InsufficientCollateral ;;
     local (validate_collateral_ratio_after_withdraw user amount asset) ;;
     new_collateral ← ok_or (checked_sub current_collateral amount) WE_Overflow;
     local (set_collateral user new_collateral) ;;
     match asset with
     | Some token => local (record_asset_withdrawal user token amount)
     | None => mret tt
     end ;;
     stored ← local (gets (λ s, get_position s user));
     let position := (default (new_position now) stored) <| pos_collateral := new_collateral |>
                                                         <| pos_last_accrual_time := now |> in
     local (set_position user position) ;;
     match asset with
     | Some token => call (token_transfer token this user amount)
     | None => mret tt
     end ;;
     local (update_user_analytics_withdraw user amount now) ;;
     local (update_protocol_analytics_withdraw amount) ;;
     local (add_activity_log user "withdraw" amount asset now) ;;
     local (emit (WithdrawalEvent user asset amount now)) ;;
     local (emit_updates user position "withdraw" amount now) ;;
     mret new_collateral).

(** The transfers of a liquidation: the debt from the liquidator, the seized
    collateral less the fee to the liquidator. *)
Definition liquidation_transfers (liquidator : Address) (debt_asset collateral_asset : option Address)
    (t : LiquidationTerms) : M (PState * W) LiquidationError unit :=
  match debt_asset with
  | Some token => collect token liquidator (lt_debt t) LQ_InsufficientBalance
  | None => mret tt
  end ;;
  match collateral_asset with
  | Some token =>
      contract_balance ← call (token_balance token this);
      reject_if (contract_balance <? lt_seized t) LQ_InsufficientBalance ;;
      call (token_transfer token this liquidator (lt_to_liquidator t))
  | None => mret tt
  end.

Definition liquidate (liquidator borrower : Address) (debt_asset collateral_asset : option Address)
    (debt_amount : Z) : M (PState * W) LiquidationError (Z * Z * Z) :=
  reject_if (debt_amount <=? 0) LQ_InvalidAmount ;;
  guarded LQ_Reentrancy
    (allowed ← local (recover true (is_liquidation_allowed liquidator));
     reject_if (negb allowed) LQ_LiquidationPaused ;;
     paused ← local (gets (λ s, is_emergency_paused (ps_hello s)));
     reject_if paused LQ_LiquidationPaused ;;
     local (map_err (λ _, LQ_LiquidationPaused) (within (require_operation_not_paused "pause_liquidate"))) ;;
     reject_if (is_this debt_asset) LQ_InvalidDebtAsset ;;
     reject_if (is_this collateral_asset) LQ_InvalidCollateralAsset ;;
     now ← ask timestamp;
     stored ← local (gets (λ s, get_position s borrower));
     position ← ok_or stored LQ_NotLiquidatable;
     position ← local (accrue_interest LQ_Overflow borrower position);
     t ← local (liquidation_terms borrower debt_asset collateral_asset debt_amount position);
     liquidation_transfers liquidator debt_asset collateral_asset t ;;
     position ← local (settle_liquidation liquidator borrower debt_asset collateral_asset position t now);
     local (recover tt (update_score_on_liquidation borrower)) ;;
     local (emit_updates borrower position "liquidate" (lt_debt t) now) ;;
     mret (lt_debt t, lt_seized t, lt_incentive t)).

(** ** lib.rs: the entry points *)

(** [.map_err(Into::into)] *)
Definition to_lending {E A} `{!IntoLending E} (m : M (PState * W) E A) : M (PState * W) LendingError A :=
  map_err into m.

(** The pool of a rate limit: the asset, or the contract for the native asset. *)
Definition pool_of (asset : option Address) : Address := default this asset.

(** [rate_limiter::consume(..).map_err(|_| LendingError::LimitExceeded)?] *)
Definition limited_call (caller user : Address) (op : Symbol) (asset : option Address) :
    M (PState * W) LendingError unit :=
  map_err (λ _, LimitExceeded) (local (consume caller user op (pool_of asset))).

(** [intents::require_intent_auth(..).map_err(|_| LendingError::Unauthorized)?] *)
Definition intent_auth (user : Address) (op : Symbol) (nonce expires_at : Z) : M (PState * W) LendingError unit :=
  map_err (λ _, Unauthorized) (local (require_intent_auth user op nonce expires_at)).

Definition deposit_collateral_entry (user : Address) (asset : option Address) (amount : Z) :=
  to_lending (deposit_collateral user asset amount).

Definition borrow_asset_entry (user : Address) (asset : option Address) (amount : Z) :
    M (PState * W) LendingError Z :=
  limited_call user user "borrow" asset ;;
  to_lending (borrow_asset user asset amount).

Definition borrow_asset_intent (relayer user : Address) (asset : option Address)
    (amount nonce expires_at : Z) : M (PState * W) LendingError Z :=
  require_auth relayer ;;
  intent_auth user "borrow" nonce expires_at ;;
  limited_call relayer user "borrow" asset ;;
  to_lending (borrow_asset user asset amount).

Definition repay_debt_entry (user : Address) (asset : option Address) (amount : Z) :=
  to_lending (repay_debt user asset amount).

Definition withdraw_collateral_entry (user : Address) (asset : option Address) (amount : Z) :=
  to_lending (withdraw_collateral user asset amount).

Definition liquidate_entry (liquidator borrower : Address) (debt_asset collateral_asset : option Address)
    (debt_amount : Z) : M (PState * W) LendingError (Z * Z * Z) :=
  require_auth liquidator ;;
  limited_call liquidator liquidator "liquidate" debt_asset ;;
  to_lending (liquidate liquidator borrower debt_asset collateral_asset debt_amount).

Definition liquidate_intent (relayer liquidator borrower : Address) (debt_asset collateral_asset : option Address)
    (debt_amount nonce expires_at : Z) : M (PState * W) LendingError (Z * Z * Z) :=
  require_auth relayer ;;
  intent_auth liquidator "liquidate" nonce expires_at ;;
  limited_call relayer liquidator "liquidate" debt_asset ;;
  to_lending (liquidate liquidator borrower debt_asset collateral_asset debt_amount).

Definition reveal_borrow_protected (user : Address) (commit_id : Z) : M (PState * W) LendingError Z :=
  '(asset, amount, _) ← to_lending (local (reveal_borrow user commit_id));
  to_lending (borrow_asset user asset amount).

Definition reveal_withdraw_protected (user : Address) (commit_id : Z) : M (PState * W) LendingError Z :=
  '(asset, amount) ← to_lending (local (reveal_withdraw user commit_id));
  to_lending (withdraw_collateral user asset amount).

Definition reveal_liquidation_protected (liquidator : Address) (commit_id : Z) :
    M (PState * W) LendingError (Z * Z * Z) :=
  '(borrower, debt_asset, collateral_asset, debt_amount) ← to_lending (local (reveal_liquidation liquidator commit_id));
  to_lending (liquidate liquidator borrower debt_asset collateral_asset debt_amount).

Definition update_asset_config (asset : Address) (params : AssetParams) : M (PState * W) LendingError unit :=
  current ← local (gets (λ s, get_admin (ps_hello s)));
  admin ← ok_or current Unauthorized;
  require_auth admin ;;
  to_lending (local (set_asset_params asset params)).
End operations.
