(* ===== verification/HelloFlash.v ===== *)
(** * HelloFlash: flash loans of the hello-world contract (flash_loan.rs)

    A loan of a token to a callback contract, which is called and from which the
    loan and a fee are pulled back.  The host refuses calls back into the
    contract, so the callback only changes the world. *)

From S2P Require Import Prelude.
From S2P Require Import Host.
From S2P Require Import HelloTypes.
From S2P Require Import HelloParams.
From S2P Require Import PositionTypes.
From S2P Require Import Oracle.
From S2P Require Import Reserves.
From S2P Require Import Positions.

Abbreviation FM := (M PState FlashLoanError) (only parsing).

(** ** Configuration *)

Definition DEFAULT_FLASH_LOAN_FEE_BPS : Z := 9.
Definition DEFAULT_MAX_FLASH_LOAN_AMOUNT : Z := 1000000000000.
Definition DEFAULT_MIN_FLASH_LOAN_AMOUNT : Z := 100.

Definition get_default_config : FlashLoanConfig :=
  mkFlashLoanConfig DEFAULT_FLASH_LOAN_FEE_BPS DEFAULT_MAX_FLASH_LOAN_AMOUNT DEFAULT_MIN_FLASH_LOAN_AMOUNT.

Definition get_flash_loan_config (s : PState) : FlashLoanConfig :=
  default get_default_config (fkFlashLoanConfig (ps_flash s)).

Definition set_flash_loan_config (caller : Address) (new_config : FlashLoanConfig) : FM unit :=
  admin_or caller FE_InvalidCallback ;;
  reject_if (negb ((0 <=? fl_fee_bps new_config) && (fl_fee_bps new_config <=? 10000))) FE_InvalidAmount ;;
  on_flash (λ f, f <| fkFlashLoanConfig := Some new_config |>).

Definition set_flash_loan_fee (caller : Address) (fee_bps : Z) : FM unit :=
  admin_or caller FE_InvalidCallback ;;
  reject_if (negb ((0 <=? fee_bps) && (fee_bps <=? 10000))) FE_InvalidAmount ;;
  config ← gets get_flash_loan_config;
  on_flash (λ f, f <| fkFlashLoanConfig := Some (config <| fl_fee_bps := fee_bps |>) |>).

Definition calculate_flash_loan_fee (amount : Z) : FM Z :=
  config ← gets get_flash_loan_config;
  scaled ← ok_or (checked_mul amount (fl_fee_bps config)) FE_Overflow;
  ok_or (checked_div scaled 10000) FE_Overflow.

(** ** The record of a loan *)

Definition record_flash_loan (user asset : Address) (amount fee : Z) (callback : Address) : FM unit :=
  now ← ask timestamp;
  on_flash (λ f, f <| fkActiveFlashLoan :=
    <[(user, asset) := mkFlashLoanRecord amount fee now callback]> (fkActiveFlashLoan f) |>).

Definition clear_flash_loan (user asset : Address) : FM unit :=
  on_flash (λ f, f <| fkActiveFlashLoan := delete (user, asset) (fkActiveFlashLoan f) |>).

Definition is_flash_loan_active (s : PState) (user asset : Address) : bool :=
  bool_decide (is_Some (fkActiveFlashLoan (ps_flash s) !! (user, asset))).

(** ** The loan *)

Section operations.
Context {W : Type} (this : Address)
        (token_balance : Address → Address → W → option (Z * W))
        (token_transfer : Address → Address → Address → Z → W → option (unit * W))
        (token_transfer_from : Address → Address → Address → Address → Z → W → option (unit * W)).

(** [let _granular_guard = ReentrancyGuard::new_with_key(env, lock_key)?]: the
    key is removed when the function returns. *)
Definition flash_guarded {A} (user asset : Address) (m : M (PState * W) FlashLoanError A) :
    M (PState * W) FlashLoanError A := λ env '(s, w),
  if bool_decide ((user, asset) ∈ fkFlashLoanGuard (ps_flash s)) then (Err FE_Reentrancy, (s, w))
  else
    let set g := λ s : PState, s <| ps_flash := (ps_flash s) <| fkFlashLoanGuard := g |> |> in
    let '(r, (s', w')) := m env (set (fkFlashLoanGuard (ps_flash s) ∪ {[(user, asset)]}) s, w) in
    (r, (set (fkFlashLoanGuard (ps_flash s') ∖ {[(user, asset)]}) s', w')).

(** The callback is the contract [callback]; [on_flash_loan user asset amount
    fee] is what its entry point of that name does to the world. *)
Definition execute_flash_loan (on_flash_loan : Address → Address → Z → Z → W → option (unit * W))
    (user asset : Address) (amount : Z) (callback : Address) : M (PState * W) FlashLoanError Z :=
  reject_if (amount <=? 0) FE_InvalidAmount ;;
  config ← local (gets get_flash_loan_config);
  reject_if ((amount <? fl_min_amount config) || (fl_max_amount config <? amount)) FE_InvalidAmount ;;
  paused ← local (gets (λ s, switched_off s "pause_flash_loan"));
  reject_if paused FE_FlashLoanPaused ;;
  fee ← local (calculate_flash_loan_fee amount);
  total_required ← ok_or (checked_add amount fee) FE_Overflow;
  initial_balance ← call (token_balance asset this);
  reject_if (initial_balance <? amount) FE_InsufficientLiquidity ;;
  flash_guarded user asset
    (local (record_flash_loan user asset amount fee callback) ;;
     call (token_transfer asset this callback amount) ;;
     now ← ask timestamp;
     local (emit (FlashLoanInitiatedEvent user asset amount fee callback now)) ;;
     call (on_flash_loan user asset amount fee) ;;
     call (token_transfer_from asset this callback this total_required) ;;
     when (0 <? fee) (local (credit_reserve (Some asset) fee FE_Overflow)) ;;
     local (clear_flash_loan user asset) ;;
     mret total_required).

Definition repay_flash_loan (user asset : Address) (amount : Z) : M (PState * W) FlashLoanError unit :=
  stored ← local (gets (λ s, fkActiveFlashLoan (ps_flash s) !! (user, asset)));
  record ← ok_or stored FE_NotRepaid;
  total_required ← ok_or (checked_add (fr_amount record) (fr_fee record)) FE_Overflow;
  reject_if (amount <? total_required) FE_InsufficientRepayment ;;
  call (token_transfer_from asset this user this total_required) ;;
  now ← ask timestamp;
  local (emit (FlashLoanRepaidEvent user asset (fr_amount record) (fr_fee record) now)).
End operations.
