(* ===== verification/PositionCalls.v ===== *)
(** * PositionCalls: the hello-world contract as a transition system

    The state-changing entry points of hello-world/src/lib.rs over the modules
    of [Positions], [Limits] and [Reserves], joined with those of [HelloCalls],
    as one call type; their dispatch over the contract's storage and a world of
    tokens; the reachable states.  Between invocations the world may change in
    any way. *)

From S2P Require Import Prelude.
From S2P Require Import Host.
From S2P Require Import HelloTypes.
From S2P Require Import HelloParams.
From S2P Require Import HelloCalls.
From S2P Require Import PositionTypes.
From S2P Require Import Limits.
From S2P Require Import Reserves.
From S2P Require Import Positions.
From S2P Require Import HelloFlash.

(** A flash loan names a callback contract; what that contract does to the world
    when it is called is part of the invocation. *)
Inductive PCall (W : Type) : Type :=
  | CallAdmin (c : HelloCall)
  | CallElsewhere (w : W)
  | CallDeposit (user : Address) (asset : option Address) (amount : Z)
  | CallBorrow (user : Address) (asset : option Address) (amount : Z)
  | CallBorrowIntent (relayer user : Address) (asset : option Address) (amount nonce expires_at : Z)
  | CallRepay (user : Address) (asset : option Address) (amount : Z)
  | CallWithdraw (user : Address) (asset : option Address) (amount : Z)
  | CallLiquidate (liquidator borrower : Address) (debt_asset collateral_asset : option Address) (debt_amount : Z)
  | CallLiquidateIntent (relayer liquidator borrower : Address) (debt_asset collateral_asset : option Address)
      (debt_amount nonce expires_at : Z)
  | CallConfigureMev (caller : Address) (config : MevProtectionConfig)
  | CallCommit (owner : Address) (operation : SensitiveOperation) (asset secondary borrower : option Address)
      (amount max_fee_bps : Z) (hint : TxOrderingHint)
  | CallRevealBorrow (user : Address) (commit_id : Z)
  | CallRevealWithdraw (user : Address) (commit_id : Z)
  | CallRevealLiquidation (liquidator : Address) (commit_id : Z)
  | CallCancelCommit (owner : Address) (commit_id : Z)
  | CallSetReserveFactor (caller : Address) (asset : option Address) (factor : Z)
  | CallSetTreasuryAddress (caller treasury : Address)
  | CallWithdrawReserveFunds (caller : Address) (asset : option Address) (amount : Z)
  | CallSetReserveAmmTarget (caller : Address) (asset : option Address) (amm : Address)
  | CallRecordReserveDeploy (caller : Address) (asset : option Address) (reserve_amount lp_tokens : Z)
  | CallSetTreasury (caller treasury : Address)
  | CallClaimReserves (caller : Address) (asset : option Address) (recipient : Address) (amount : Z)
  | CallSetFeeConfig (caller : Address) (config : TreasuryFeeConfig)
  | CallUpdateAssetConfig (asset : Address) (params : AssetParams)
  | CallConfigureOperationLimit (caller : Address) (op : Symbol) (cfg : RateLimitConfig)
  | CallConfigurePoolLimit (caller : Address) (op : Symbol) (pool : Address) (cfg : RateLimitConfig)
  | CallSetUserGrace (caller user : Address) (op : Symbol) (enabled : bool)
  | CallProtocolStats
  | CallProtocolReport
  | CallTotalCollateralValue (user : Address)
  | CallInitializeCreditScore (user : Address)
  | CallInitializeBreaker (config : CircuitBreakerConfig)
  | CallActivateBreaker (caller : Address) (reason : CircuitBreakerReason) (emergency_mode : bool)
  | CallDeactivateBreaker (caller : Address)
  | CallIsLiquidationAllowed (liquidator : Address)
  | CallAddToWhitelist (admin liquidator : Address)
  | CallRemoveFromWhitelist (admin liquidator : Address)
  | CallFlashLoan (user asset : Address) (amount : Z) (callback : Address)
      (on_flash_loan : Address → Address → Z → Z → W → option (unit * W))
  | CallRepayFlashLoan (user asset : Address) (amount : Z)
  | CallConfigureFlashLoan (caller : Address) (config : FlashLoanConfig).
Arguments CallAdmin {W} c.
Arguments CallElsewhere {W} w.
Arguments CallDeposit {W} user asset amount.
Arguments CallBorrow {W} user asset amount.
Arguments CallBorrowIntent {W} relayer user asset amount nonce expires_at.
Arguments CallRepay {W} user asset amount.
Arguments CallWithdraw {W} user asset amount.
Arguments CallLiquidate {W} liquidator borrower debt_asset collateral_asset debt_amount.
Arguments CallLiquidateIntent {W} relayer liquidator borrower debt_asset collateral_asset debt_amount nonce expires_at.
Arguments CallConfigureMev {W} caller config.
Arguments CallCommit {W} owner operation asset secondary borrower amount max_fee_bps hint.
Arguments CallRevealBorrow {W} user commit_id.
Arguments CallRevealWithdraw {W} user commit_id.
Arguments CallRevealLiquidation {W} liquidator commit_id.
Arguments CallCancelCommit {W} owner commit_id.
Arguments CallSetReserveFactor {W} caller asset factor.
Arguments CallSetTreasuryAddress {W} caller treasury.
Arguments CallWithdrawReserveFunds {W} caller asset amount.
Arguments CallSetReserveAmmTarget {W} caller asset amm.
Arguments CallRecordReserveDeploy {W} caller asset reserve_amount lp_tokens.
Arguments CallSetTreasury {W} caller treasury.
Arguments CallClaimReserves {W} caller asset recipient amount.
Arguments CallSetFeeConfig {W} caller config.
Arguments CallUpdateAssetConfig {W} asset params.
Arguments CallConfigureOperationLimit {W} caller op cfg.
Arguments CallConfigurePoolLimit {W} caller op pool cfg.
Arguments CallSetUserGrace {W} caller user op enabled.
Arguments CallProtocolStats {W}.
Arguments CallProtocolReport {W}.
Arguments CallTotalCollateralValue {W} user.
Arguments CallInitializeCreditScore {W} user.
Arguments CallInitializeBreaker {W} config.
Arguments CallActivateBreaker {W} caller reason emergency_mode.
Arguments CallDeactivateBreaker {W} caller.
Arguments CallIsLiquidationAllowed {W} liquidator.
Arguments CallAddToWhitelist {W} admin liquidator.
Arguments CallRemoveFromWhitelist {W} admin liquidator.
Arguments CallFlashLoan {W} user asset amount callback on_flash_loan.
Arguments CallRepayFlashLoan {W} user asset amount.
Arguments CallConfigureFlashLoan {W} caller config.

(** The administration's calls that are entry points: [CallPositions] stood
    for the position operations, which have calls of their own here. *)
Definition is_entry_point (c : HelloCall) : bool :=
  match c with CallPositions _ _ => false | _ => true end.

(** What the contract relies on in a token: it refuses negative amounts, as the
    token interface of the platform documents. *)
Class TokenLaws {W : Type} (token_transfer : Address → Address → Address → Z → W → option (unit * W))
    (token_transfer_from : Address → Address → Address → Address → Z → W → option (unit * W)) : Prop := {
  transfer_nonneg t from to x w r : token_transfer t from to x w = Some r → 0 ≤ x;
  transfer_from_nonneg t spender from to x w r : token_transfer_from t spender from to x w = Some r → 0 ≤ x;
}.

Section system.
Context {W : Type} (this : Address)
        (token_balance : Address → Address → W → option (Z * W))
        (token_transfer : Address → Address → Address → Z → W → option (unit * W))
        (token_transfer_from : Address → Address → Address → Address → Z → W → option (unit * W)).

(** An operation of the administration. *)
Definition admin_call (c : HelloCall) (env : Env) (s : PState) : PState :=
  if is_entry_point c then s <| ps_hello := hello_dispatch c env (ps_hello s) |> else s.

(** The state after an invocation of an operation. *)
Definition ran {E A} (m : M (PState * W) E A) (env : Env) (s : PState * W) : PState * W := (invoke m env s).2.

Definition position_call (c : PCall W) (env : Env) (s : PState * W) : PState * W :=
  match c with
  | CallAdmin c => (admin_call c env s.1, s.2)
  | CallElsewhere w => (s.1, w)
  | CallDeposit u a x => ran (deposit_collateral_entry this token_balance token_transfer_from u a x) env s
  | CallBorrow u a x => ran (borrow_asset_entry this token_balance token_transfer u a x) env s
  | CallBorrowIntent r u a x n e => ran (borrow_asset_intent this token_balance token_transfer r u a x n e) env s
  | CallRepay u a x => ran (repay_debt_entry this token_balance token_transfer_from u a x) env s
  | CallWithdraw u a x => ran (withdraw_collateral_entry this token_transfer u a x) env s
  | CallLiquidate l b d c x =>
      ran (liquidate_entry this token_balance token_transfer token_transfer_from l b d c x) env s
  | CallLiquidateIntent r l b d c x n e =>
      ran (liquidate_intent this token_balance token_transfer token_transfer_from r l b d c x n e) env s
  | CallConfigureMev a cfg => ran (local (configure a cfg)) env s
  | CallCommit o op a sa b x f h => ran (local (create_commit o op a sa b x f h)) env s
  | CallRevealBorrow u i => ran (reveal_borrow_protected this token_balance token_transfer u i) env s
  | CallRevealWithdraw u i => ran (reveal_withdraw_protected this token_transfer u i) env s
  | CallRevealLiquidation l i =>
      ran (reveal_liquidation_protected this token_balance token_transfer token_transfer_from l i) env s
  | CallCancelCommit o i => ran (local (cancel_commit o i)) env s
  | CallSetReserveFactor a t f => ran (local (set_reserve_factor a t f)) env s
  | CallSetTreasuryAddress a t => ran (local (set_treasury_address this a t)) env s
  | CallWithdrawReserveFunds a t x => ran (withdraw_reserve_funds this token_transfer a t x) env s
  | CallSetReserveAmmTarget a t m => ran (local (set_reserve_amm_target a t m)) env s
  | CallRecordReserveDeploy a t x lp => ran (local (record_reserve_deploy_to_amm a t x lp)) env s
  | CallSetTreasury a t => ran (local (set_treasury a t)) env s
  | CallClaimReserves a t r x => ran (claim_reserves this token_transfer a t r x) env s
  | CallSetFeeConfig a cfg => ran (local (set_fee_config a cfg)) env s
  | CallUpdateAssetConfig a p => ran (update_asset_config a p) env s
  | CallConfigureOperationLimit a op cfg => ran (local (configure_operation_limit a op cfg)) env s
  | CallConfigurePoolLimit a op p cfg => ran (local (configure_pool_limit a op p cfg)) env s
  | CallSetUserGrace a u op e => ran (local (set_user_grace a u op e)) env s
  | CallProtocolStats => ran (local get_protocol_stats) env s
  | CallProtocolReport => ran (local generate_protocol_report) env s
  | CallTotalCollateralValue u =>
      ran (local (recover (E2 := MultiCollateralError) 0 (calculate_total_collateral_value u))) env s
  | CallInitializeCreditScore u => ran (local (initialize_credit_score u)) env s
  | CallInitializeBreaker cfg => ran (local (initialize_circuit_breaker this cfg)) env s
  | CallActivateBreaker a r e => ran (local (activate_circuit_breaker a r e)) env s
  | CallDeactivateBreaker a => ran (local (deactivate_circuit_breaker a)) env s
  | CallIsLiquidationAllowed l => ran (local (is_liquidation_allowed l)) env s
  | CallAddToWhitelist a l => ran (local (add_to_whitelist a l)) env s
  | CallRemoveFromWhitelist a l => ran (local (remove_from_whitelist a l)) env s
  | CallFlashLoan u a x cb f =>
      ran (to_lending (execute_flash_loan this token_balance token_transfer token_transfer_from f u a x cb)) env s
  | CallRepayFlashLoan u a x => ran (to_lending (repay_flash_loan this token_transfer_from u a x)) env s
  | CallConfigureFlashLoan a cfg => ran (local (set_flash_loan_config a cfg)) env s
  end.

(** Everything an invocation, or anybody else between two of them, can lead to. *)
Inductive protocol_reachable : PState * W → Prop :=
  | protocol_empty w : protocol_reachable (empty_protocol, w)
  | protocol_step c env s : protocol_reachable s → protocol_reachable (position_call c env s).

Inductive protocol_run (s : PState * W) : PState * W → Prop :=
  | protocol_run_refl : protocol_run s s
  | protocol_run_step s' c env : protocol_run s s' → protocol_run s (position_call c env s').
End system.
