(* ===== verification/PositionSafety.v ===== *)
(** * PositionSafety: the hello-world contract as a whole

    What holds after every sequence of entry points.  First, the contract's
    administration is the system of [HelloCalls]: every run of the contract is,
    on the administration's part of the storage, a run in which position
    operations are calls of [CallPositions]; so the theorems on the
    administration hold for the whole contract.  Then what no entry point ever
    sets, and the ledger of collateral. *)

From S2P Require Import Prelude.
From S2P Require Import Host.
From S2P Require Import HelloTypes.
From S2P Require Import HelloParams.
From S2P Require Import Governance.
From S2P Require Import HelloCalls.
From S2P Require Import ParamSafety.
From S2P Require Import PositionTypes.
From S2P Require Import Oracle.
From S2P Require Import Limits.
From S2P Require Import Reserves.
From S2P Require Import Positions.
From S2P Require Import HelloFlash.
From S2P Require Import PositionCalls.

(** ** Invariants kept by every write *)

(** [m] keeps an invariant of the storage, whatever the world. *)
Abbreviation keeps I m := (preserves (λ sw, I sw.1) m) (only parsing).

Section keeps.
Context {W : Type} (I : PState → Prop).
Implicit Types (E : Type).

Lemma keeps_guarded {E A} (busy : E) (m : M (PState * W) E A) :
  (∀ s b, I s → I (s <| ps_lock := b |>)) → keeps I m → keeps I (guarded busy m).
Proof.
  intros Hlock Hm env [s w] r [s' w'] Hs. unfold guarded. destruct (ps_lock s); [by intros [= <- <- <-]|].
  destruct (m env (s <| ps_lock := true |>, w)) as [r1 [s1 w1]] eqn:Hr.
  intros [= <- <- <-]. apply Hlock, (Hm env (s <| ps_lock := true |>, w) r1 (s1, w1)); [by apply Hlock|done].
Qed.

Lemma keeps_flash_guarded {A} u a (m : M (PState * W) FlashLoanError A) :
  (∀ s g, I s → I (s <| ps_flash := (ps_flash s) <| fkFlashLoanGuard := g |> |>)) → keeps I m →
  keeps I (flash_guarded u a m).
Proof.
  intros Hg Hm env [s w] r [s' w'] Hs. unfold flash_guarded. cbv zeta. case_bool_decide; [by intros [= <- <- <-]|].
  destruct (m env _) as [r1 [s1 w1]] eqn:Hr. intros [= <- <- <-]. apply Hg.
  eapply (Hm _ (_, w) r1 (s1, w1)); [|exact Hr]. by apply Hg.
Qed.

Lemma keeps_ran {E A} (m : M (PState * W) E A) env s : keeps I m → I s.1 → I (ran m env s).1.
Proof.
  intros Hm Hs. unfold ran, invoke. destruct (m env s) as [[] s'] eqn:Hr; [|done|done].
  by eapply (Hm _ _ _ _ Hs Hr).
Qed.
End keeps.

(** The operations that have a lemma; [keep] opens the others up to their
    writes. *)
Create HintDb keeps.

Ltac keep_leaf := first [solve [apply preserves_readonly, _] | solve [auto 2 with keeps nocore]].

Ltac keep_step :=
  lazymatch goal with
  | |- forall _, _ => intro
  | |- preserves _ (_ ≫= _) => apply preserves_bind
  | |- preserves _ (modify _) => apply preserves_modify; intros ? ?
  | |- preserves _ (if ?c then _ else _) => destruct c
  | |- preserves _ (match ?o with _ => _ end) => destruct o
  | |- preserves (λ sw, ?I (sw.1)) (guarded _ _) => first [keep_leaf | apply (keeps_guarded I)]
  | |- preserves (λ sw, ?I (sw.1)) (flash_guarded _ _ _) => apply (keeps_flash_guarded I)
  | |- preserves _ (local _) => first [keep_leaf | apply preserves_local]
  | |- preserves _ (call _) => apply preserves_call
  | |- preserves _ (map_err _ _) => first [keep_leaf | apply preserves_map_err]
  | |- preserves _ (attempt _) => first [keep_leaf | apply preserves_attempt]
  | |- preserves _ (recover _ _) => first [keep_leaf | apply preserves_recover]
  | |- preserves _ (when _ _) => first [keep_leaf | apply preserves_when]
  | |- preserves _ _ => keep_leaf
  end.
Ltac keep := repeat keep_step.

(** ** What only reads *)

#[export] Instance compute_index_interest_ro p u c : Readonly (compute_index_interest p u c).
Proof. unfold compute_index_interest. apply _. Qed.
#[export] Instance collateral_ratio_ro c d : Readonly (collateral_ratio c d).
Proof. unfold collateral_ratio. apply _. Qed.
#[export] Instance can_be_liquidated_ro c d : Readonly (can_be_liquidated c d).
Proof. unfold can_be_liquidated, the_risk_params. apply _. Qed.
#[export] Instance max_liquidatable_ro d : Readonly (get_max_liquidatable_amount d).
Proof. unfold get_max_liquidatable_amount, the_risk_params, share_of. apply _. Qed.
#[export] Instance not_paused_ro op : Readonly (require_operation_not_paused op).
Proof. unfold require_operation_not_paused. apply _. Qed.
#[export] Instance admin_or_ro {E} a (e : E) : Readonly (admin_or a e).
Proof. unfold admin_or. apply _. Qed.
#[export] Instance keep_close_ro m b l : Readonly (keep_close m b l).
Proof.
  induction l as [|p l IH]; simpl; [apply _|]. destruct (p <=? 0); [done|]. unfold deviation_bps. apply _.
Qed.
#[export] Instance median_ro l : Readonly (median_i128 l).
Proof. unfold median_i128. apply _. Qed.
#[export] Instance filter_outliers_ro m l : Readonly (filter_outliers m l).
Proof. unfold filter_outliers. apply _. Qed.
#[export] Instance aggregate_ro a : Readonly (aggregate_spot_price a).
Proof. unfold aggregate_spot_price. apply _. Qed.
#[export] Instance add_segments_ro ws now l p t s d : Readonly (add_segments ws now l p t s d).
Proof.
  revert p t s d. induction l as [|x l IH]; intros p t s d; simpl; [apply _|].
  repeat case_match; try apply IH; try apply _.
Qed.
#[export] Instance compute_twap_ro a p : Readonly (compute_twap a p).
Proof.
  unfold compute_twap, add_segment. repeat (first [apply _ | apply readonly_bind; [|intros ?] | case_match]).
Qed.
#[export] Instance validate_price_ro p : Readonly (validate_price p).
Proof. unfold validate_price. apply _. Qed.
#[export] Instance check_price_deviation_ro a b : Readonly (check_price_deviation a b).
Proof. unfold check_price_deviation, deviation_bps. apply _. Qed.
#[export] Instance amounts_close_ro a b t : Readonly (amounts_close a b t).
Proof. unfold amounts_close. apply _. Qed.
#[export] Instance preview_fee_ro op a x : Readonly (preview_fee_bps op a x).
Proof. unfold preview_fee_bps. apply _. Qed.
#[export] Instance count_sandwich_ro cfg now a x p l st : Readonly (count_sandwich cfg now a x p l st).
Proof. unfold count_sandwich. apply _. Qed.
#[export] Instance validate_reveal_ro o i op : Readonly (validate_reveal o i op).
Proof. unfold validate_reveal, load_commit. apply _. Qed.
#[export] Instance capped_fee_ro op c : Readonly (capped_fee op c).
Proof. unfold capped_fee. apply _. Qed.
#[export] Instance refill_bucket_ro b cfg cap : Readonly (refill_bucket b cfg cap).
Proof. unfold refill_bucket, refill_per_second. apply _. Qed.
#[export] Instance breaker_admin_ro a : Readonly (breaker_admin a).
Proof. unfold breaker_admin. apply _. Qed.
#[export] Instance weighted_value_ro a p f : Readonly (weighted_value a p f).
Proof. unfold weighted_value. apply _. Qed.
#[export] Instance max_borrowable_ro c d i f r : Readonly (calculate_max_borrowable c d i f r).
Proof. unfold calculate_max_borrowable, factored, scaled_down. apply _. Qed.
#[export] Instance penalty_ro c d : Readonly (calculate_dynamic_penalty c d).
Proof. unfold calculate_dynamic_penalty. apply _. Qed.
#[export] Instance validate_withdraw_ro u x a : Readonly (validate_collateral_ratio_after_withdraw u x a).
Proof. unfold validate_collateral_ratio_after_withdraw. apply _. Qed.

(** The entry points, down to the operations that have lemmas of their own. *)
Ltac open_calls :=
  unfold deposit_collateral_entry, borrow_asset_entry, borrow_asset_intent, repay_debt_entry,
    withdraw_collateral_entry, liquidate_entry, liquidate_intent, reveal_borrow_protected,
    reveal_withdraw_protected, reveal_liquidation_protected, update_asset_config, to_lending, limited_call,
    intent_auth, reveal_borrow, reveal_withdraw, reveal_liquidation, configure, create_commit, next_commit_id,
    cancel_commit, load_commit, set_reserve_factor, put_reserve_factor, set_treasury_address, reserve_admin,
    set_reserve_amm_target, set_treasury, treasury_admin, set_asset_params, configure_operation_limit,
    configure_pool_limit, set_user_grace, validate_limit_config, validate_mev_config, get_protocol_stats,
    generate_protocol_report, update_protocol_metrics, get_protocol_utilization,
    calculate_weighted_avg_interest_rate, calculate_total_collateral_value, initialize_circuit_breaker,
    activate_circuit_breaker, deactivate_circuit_breaker, is_liquidation_allowed, get_circuit_breaker_state,
    add_to_whitelist, remove_from_whitelist, set_whitelist, set_breaker, on_loan, on_mev, on_reserve, on_limit,
    on_breaker, on_report, set_flash_loan_config, repay_flash_loan, on_flash.

(** ** The administration of the contract is the system of [HelloCalls] *)

(** A read-only prefix either leaves the storage or hands it on. *)
Lemma readonly_bind_cases {S E A B} (m : M S E A) (k : A → M S E B) `{!Readonly m} env s r s' :
  (m ≫= k) env s = (r, s') → (∃ a, k a env s = (r, s')) ∨ s' = s.
Proof.
  rewrite bind_eq. pose proof (readonly env s) as Hro.
  destruct (m env s) as [[a|e|] s1]; simpl in Hro; subst; naive_solver.
Qed.

Lemma update_lending_index_cases env h r h' :
  update_lending_index env h = (r, h') →
  h' = h ∨ ∃ i, r = Ok i ∧ h' = h <| hs_rate := (hs_rate h) <| ikLendingIndex := Some i |> |>.
Proof.
  unfold update_lending_index. intros Hr.
  apply readonly_bind_cases in Hr as [[idx Hr]|]; [|by left|apply _].
  apply readonly_bind_cases in Hr as [[now Hr]|]; [|by left|apply _].
  destruct (now <=? li_last_update idx); [left; by injection Hr|].
  do 8 (apply readonly_bind_cases in Hr as [[? Hr]|]; [|by left|apply _]).
  cbv zeta in Hr. cbn in Hr. right. eexists. by injection Hr as <- <-.
Qed.

Lemma positions_move_index env h i h' :
  update_lending_index env h = (Ok i, h') →
  hello_dispatch (CallPositions true (dkProtocolAnalytics (hs_rate h))) env h = h'.
Proof.
  intros Hr. unfold hello_dispatch, positions_move, invoke.
  rewrite bind_eq. unfold when. rewrite bind_eq, Hr. cbn.
  destruct (update_lending_index_cases _ _ _ _ Hr) as [->|(j & _ & ->)]; by destruct h as [? ? []].
Qed.

(** ** What every write keeps *)

Ltac score_range := unfold MIN_CREDIT_SCORE, MAX_CREDIT_SCORE in *; lia.

Section protocol.
Context (h0 : HState) (Hh0 : hello_reachable h0).

(** The administration's part is reached from [h0]; no entry point sets a price
    source, the native asset, the position switches or the reserves of
    reserve.rs; scores, fees and reserves stay in range; the borrow index of a
    user is the initial one. *)
Record sound (s : PState) : Prop := {
  so_admin : hello_run h0 (ps_hello s);
  so_oracle : ps_oracle s = ps_oracle empty_protocol;
  so_native : lkNativeAssetAddress (ps_loan s) = None;
  so_switches : lkPauseSwitches (ps_loan s) = None;
  so_balance : vkReserveBalance (ps_reserve s) = ∅;
  so_lp : vkReserveAmmLpBalance (ps_reserve s) = ∅;
  so_credit : map_Forall (λ _ c, MIN_CREDIT_SCORE ≤ cs_score c ≤ MAX_CREDIT_SCORE) (yk_CreditScore (ps_report s));
  so_fees : ∀ c, vkFeeConfig (ps_reserve s) = Some c →
    0 ≤ tf_interest_fee_bps c ≤ 10000 ∧ 0 ≤ tf_liquidation_fee_bps c ≤ 10000;
  so_reserve : map_Forall (λ _ x, 0 ≤ x) (lkProtocolReserve (ps_loan s));
  so_index : map_Forall (λ _ i, i = INDEX_SCALE) (lkUserBorrowIndex (ps_loan s));
}.

Ltac sound_write := intros; match goal with H : sound _ |- _ => destruct H; constructor; cbn; auto end.

Lemma sound_reachable s : sound s → hello_reachable (ps_hello s).
Proof. intros Hs. by eapply hello_reachable_run, so_admin. Qed.

(** The index never moves. *)
Lemma index_unset env s : sound s →
  update_lending_index env (ps_hello s) = (Ok (mkLendingIndex INDEX_SCALE INDEX_SCALE (timestamp env)), ps_hello s).
Proof. intros Hs. by apply update_lending_index_unset, ci_index, reachable_core, sound_reachable. Qed.

Lemma within_index env s : sound s → within (T := PState) update_lending_index env s =
  (Ok (mkLendingIndex INDEX_SCALE INDEX_SCALE (timestamp env)), s).
Proof. intros Hs. unfold within. cbn. rewrite index_unset by done. by destruct s. Qed.

Lemma sound_index {E} (f : InterestRateError → E) : preserves sound (map_err f (within update_lending_index)).
Proof.
  intros env s r s' Hs. unfold map_err. rewrite within_index by done. by intros [= <- <-].
Qed.

Lemma sound_totals {E} a : preserves sound (set_protocol_analytics (E := E) a).
Proof.
  apply preserves_within. intros env t r s' Ht [= <- <-]. destruct Ht. constructor; cbn; auto.
  apply (hello_run_step _ _ (CallPositions false (Some a)) env) in so_admin0. exact so_admin0.
Qed.

(** No feed, no price: every read fails, and writes nothing. *)
Lemma get_price_unset a env s : sound s → ∃ e, get_price a env s = (Err e, s).
Proof.
  intros Hs. pose proof (so_oracle s Hs) as Ho.
  unfold get_price, is_breaker_open, get_breaker_state, get_cached_price, aggregate_spot_price, seen_feeds,
    get_fallback_oracle, get_oracle_sources, get_source_feed.
  rewrite bind_eq. cbn. rewrite Ho. cbn. rewrite !lookup_empty. cbn.
  unfold reject_if. destruct (timestamp env <? 0); [by eexists|].
  rewrite bind_eq. cbn. rewrite bind_eq. cbn. rewrite Ho. cbn. rewrite lookup_empty. rewrite bind_eq. cbn.
  rewrite bind_eq. cbn. rewrite bind_eq. cbn. rewrite Ho. cbn. rewrite !lookup_empty. cbn. by eexists.
Qed.

Lemma sound_price {E} a : preserves sound (get_oracle_price (E := E) a).
Proof.
  intros env s r s' Hs. unfold get_oracle_price, recover.
  destruct (get_price_unset a env s Hs) as [e ->]. by intros [= <- <-].
Qed.

#[local] Hint Resolve sound_index sound_totals sound_price : keeps.

Lemma sound_credit_reserve {E} a fee (e : E) : 0 ≤ fee → preserves sound (credit_reserve a fee e).
Proof.
  intros Hfee. unfold credit_reserve.
  apply (preserves_bind_post _ (λ x, 0 ≤ x)); [keep| |intros x Hx].
  { intros env s x s' Hs Hr. apply gets_Ok in Hr as [-> _]. unfold get_protocol_reserve.
    destruct (_ !! a) as [y|] eqn:Hy; [|done]. exact (map_Forall_lookup_1 _ _ _ _ (so_reserve s Hs) Hy). }
  apply (preserves_bind_post _ (λ y, 0 ≤ y)); [keep| |intros y Hy].
  { intros env s y s' Hs Hr. apply ok_or_Ok in Hr as [Hr _]. checked_facts. lia. }
  apply preserves_modify. sound_write. by apply map_Forall_insert_2.
Qed.

Lemma sound_accrue {E} (e : E) u p : preserves sound (accrue_interest e u p).
Proof.
  unfold accrue_interest. apply preserves_bind; [keep|intros now].
  apply (preserves_bind_post _ (λ i, li_borrow_index i = INDEX_SCALE)); [auto with keeps| |intros i Hi].
  { intros env s i s' Hs Hr. apply map_err_Ok in Hr. rewrite within_index in Hr by done.
    injection Hr as <- <-. done. }
  apply preserves_bind; [keep|intros q].
  apply preserves_bind; [|keep]. apply preserves_modify. sound_write. by apply map_Forall_insert_2.
Qed.

Lemma sound_set_credit u c : MIN_CREDIT_SCORE ≤ cs_score c ≤ MAX_CREDIT_SCORE → preserves sound (set_credit_score u c).
Proof. intros Hc. apply preserves_modify. sound_write. by apply map_Forall_insert_2. Qed.

Lemma sound_init_credit u : preserves sound (initialize_credit_score u).
Proof.
  unfold initialize_credit_score. keep. apply sound_set_credit. cbn. unfold MIN_CREDIT_SCORE, MAX_CREDIT_SCORE, DEFAULT_CREDIT_SCORE. lia.
Qed.

Lemma sound_rescore u c x r : MIN_CREDIT_SCORE ≤ x ≤ MAX_CREDIT_SCORE → preserves sound (rescore u c x r).
Proof. intros Hx. unfold rescore. keep. by apply sound_set_credit. Qed.

(** A score read from the storage is in range. *)
Lemma sound_get_credit {A} u (k : CreditScore → M PState LendingError A) :
  (∀ c, MIN_CREDIT_SCORE ≤ cs_score c ≤ MAX_CREDIT_SCORE → preserves sound (k c)) →
  preserves sound (c ← get_credit_score u; k c).
Proof.
  apply preserves_bind_post; [unfold get_credit_score; keep|].
  intros env s c s' Hs Hr. unfold get_credit_score in Hr. run_inv Hr.
  match goal with H : _ = Some c |- _ => exact (map_Forall_lookup_1 _ _ _ _ (so_credit s Hs) H) end.
Qed.

Lemma sound_score_repayment u x b : preserves sound (update_score_on_repayment u x b).
Proof.
  unfold update_score_on_repayment. apply preserves_bind; [apply sound_init_credit|intros _].
  apply sound_get_credit. intros c Hc. unfold u32_incr. apply preserves_bind; [keep|intros y].
  destruct b; (apply preserves_bind; [keep|intros n]; apply preserves_bind; [keep|intros z]);
    apply sound_rescore; score_range.
Qed.

Lemma sound_score_liquidation u : preserves sound (update_score_on_liquidation u).
Proof.
  unfold update_score_on_liquidation. apply preserves_bind; [apply sound_init_credit|intros _].
  apply sound_get_credit. intros c Hc. unfold u32_incr. apply preserves_bind; [keep|intros n].
  apply (preserves_bind_post _ (λ x, x = cs_score c - LIQUIDATION_PENALTY)); [keep| |intros x ->].
  { intros env s x s' _ Hr. apply unwrap_Ok in Hr as [Hr _]. by checked_facts. }
  apply sound_rescore. unfold LIQUIDATION_PENALTY. score_range.
Qed.

Lemma sound_record_borrow u x : preserves sound (record_borrow u x).
Proof.
  unfold record_borrow. apply preserves_bind; [apply sound_init_credit|intros _].
  apply sound_get_credit. intros c Hc. keep. by apply sound_set_credit.
Qed.

#[local] Hint Resolve sound_accrue sound_score_repayment sound_score_liquidation sound_record_borrow
  sound_init_credit : keeps.

Ltac sound_op := keep; try solve [sound_write].

Lemma sound_collateral_value u l t : preserves sound (sum_collateral_value u l t).
Proof.
  revert t. induction l as [|a l IH]; intros t; simpl; [keep|].
  keep. all: apply IH.
Qed.
#[local] Hint Resolve sound_collateral_value : keeps.

Lemma sound_effective u : preserves sound (effective_collateral u).
Proof. unfold effective_collateral, calculate_total_collateral_value. keep. Qed.
#[local] Hint Resolve sound_effective : keeps.

Lemma sound_validate_borrow u x f : preserves sound (validate_collateral_ratio_after_borrow u x f).
Proof. unfold validate_collateral_ratio_after_borrow, factored, scaled_down. keep. Qed.
#[local] Hint Resolve sound_validate_borrow : keeps.

Lemma sound_log {E} u t x a now : preserves sound (add_activity_log (E := E) u t x a now).
Proof. unfold add_activity_log, on_loan. sound_op. Qed.
Lemma sound_updates {E} u p t x now : preserves sound (emit_updates (E := E) u p t x now).
Proof. unfold emit_updates, emit. sound_op. Qed.
Lemma sound_emit {E} ev : preserves sound (emit (E := E) ev).
Proof. unfold emit. sound_op. Qed.
Lemma sound_set_collateral {E} u x : preserves sound (set_collateral (E := E) u x).
Proof. unfold set_collateral, on_loan. sound_op. Qed.
Lemma sound_set_position {E} u x : preserves sound (set_position (E := E) u x).
Proof. unfold set_position, on_loan. sound_op. Qed.
Lemma sound_set_analytics {E} u x : preserves sound (set_user_analytics (E := E) u x).
Proof. unfold set_user_analytics, on_loan. sound_op. Qed.
Lemma sound_asset_deposit u a x : preserves sound (record_asset_deposit u a x).
Proof. unfold record_asset_deposit, set_user_asset_collateral, set_user_asset_list, on_loan. sound_op. Qed.
Lemma sound_asset_withdrawal {E} u a x : preserves sound (record_asset_withdrawal (E := E) u a x).
Proof. unfold record_asset_withdrawal, set_user_asset_collateral, set_user_asset_list, on_loan. sound_op. Qed.
#[local] Hint Resolve sound_log sound_updates sound_emit sound_set_collateral sound_set_position
  sound_set_analytics sound_asset_deposit sound_asset_withdrawal : keeps.

Lemma sound_credit_when {E} a fee (e : E) : preserves sound (when (0 <? fee) (credit_reserve a fee e)).
Proof. apply preserves_when_true. intros H. zbool. apply sound_credit_reserve. lia. Qed.
Lemma sound_credit_local {W E} a fee (e : E) :
  preserves (λ sw : PState * W, sound sw.1) (when (0 <? fee) (local (credit_reserve a fee e))).
Proof. apply preserves_when_true. intros H. zbool. apply preserves_local, sound_credit_reserve. lia. Qed.
#[local] Hint Resolve sound_credit_when sound_credit_local : keeps.

(** *** The operations on positions *)

Context {W : Type} (this : Address)
        (token_balance : Address → Address → W → option (Z * W))
        (token_transfer : Address → Address → Address → Z → W → option (unit * W))
        (token_transfer_from : Address → Address → Address → Address → Z → W → option (unit * W)).

Lemma sound_deposit u a x : keeps sound (deposit_collateral this token_balance token_transfer_from u a x).
Proof.
  unfold deposit_collateral, collect, check_risk_management_pause, update_user_analytics,
    update_protocol_analytics.
  sound_op.
Qed.

Lemma sound_borrow u a x : keeps sound (borrow_asset this token_balance token_transfer u a x).
Proof.
  unfold borrow_asset, update_user_analytics_borrow, update_protocol_analytics_borrow.
  sound_op.
Qed.

Lemma sound_repay u a x : keeps sound (repay_debt this token_balance token_transfer_from u a x).
Proof.
  unfold repay_debt, collect, get_native_asset_address, update_user_analytics_repay,
    update_protocol_analytics_repay.
  sound_op.
Qed.

Lemma sound_withdraw u a x : keeps sound (withdraw_collateral this token_transfer u a x).
Proof.
  unfold withdraw_collateral, update_user_analytics_withdraw, update_protocol_analytics_withdraw.
  sound_op.
Qed.

Lemma sound_terms b d c x p : preserves sound (liquidation_terms b d c x p).
Proof.
  unfold liquidation_terms, value_for_check, debt_in_collateral, price_of, calculate_collateral_value,
    calculate_total_collateral_value, convert.
  sound_op.
Qed.

Lemma sound_settle l b d c p t now : preserves sound (settle_liquidation l b d c p t now).
Proof.
  unfold settle_liquidation, update_liquidation_analytics. apply preserves_bind; [|sound_op].
  apply preserves_when_true. intros Hfee. zbool. apply preserves_bind; [apply sound_credit_reserve; lia|sound_op].
Qed.
#[local] Hint Resolve sound_terms sound_settle : keeps.

Lemma sound_allowed l : preserves sound (is_liquidation_allowed l).
Proof. unfold is_liquidation_allowed, get_circuit_breaker_state, set_breaker, on_breaker. sound_op. Qed.
#[local] Hint Resolve sound_allowed : keeps.

Lemma sound_liquidate l b d c x :
  keeps sound (liquidate this token_balance token_transfer token_transfer_from l b d c x).
Proof.
  unfold liquidate, liquidation_transfers, collect.
  sound_op.
Qed.

(** *** The other operations *)

#[local] Hint Resolve sound_deposit sound_borrow sound_repay sound_withdraw sound_liquidate : keeps.

Lemma sound_consume c u op p : preserves sound (consume c u op p).
Proof. unfold consume, take_token, on_limit. sound_op. Qed.
Lemma sound_intent u op n e : preserves sound (require_intent_auth u op n e).
Proof. unfold require_intent_auth, set_next_nonce, on_report. sound_op. Qed.
Lemma sound_signal o op a x f : preserves sound (record_ordering_signal o op a x f).
Proof. unfold record_ordering_signal, on_mev. sound_op. Qed.
Lemma sound_remove i : preserves sound (remove_commit i).
Proof. unfold remove_commit, on_mev. sound_op. Qed.
#[local] Hint Resolve sound_consume sound_intent sound_signal sound_remove : keeps.

Lemma sound_record_deploy a t x lp : preserves sound (record_reserve_deploy_to_amm a t x lp).
Proof.
  unfold record_reserve_deploy_to_amm, reserve_admin. apply preserves_bind; [keep|intros _].
  apply preserves_reject. intros Hx. zbool.
  apply (preserves_bind_post _ (λ y, y = 0)); [keep| |intros y ->].
  { intros env s y s' Hs Hr. apply gets_Ok in Hr as [-> _]. unfold get_reserve_balance.
    by rewrite (so_balance s Hs), lookup_empty. }
  apply preserves_reject. intros Hy. zbool. lia.
Qed.

Lemma sound_claim a t r x : keeps sound (claim_reserves this token_transfer a t r x).
Proof.
  unfold claim_reserves, treasury_admin. apply preserves_bind; [keep|intros _].
  apply preserves_reject. intros Hx. apply preserves_bind; [keep|intros held].
  apply preserves_reject. intros Hy. zbool.
  apply (preserves_bind_post _ (λ y, 0 ≤ y)); [keep| |intros y Hz].
  { intros env s y s' _ Hr. apply ok_or_Ok in Hr as [Hr _]. checked_facts. lia. }
  unfold set_protocol_reserve, on_loan. sound_op. sound_write. by apply map_Forall_insert_2.
Qed.

Lemma sound_withdraw_reserve a t x : keeps sound (withdraw_reserve_funds this token_transfer a t x).
Proof.
  unfold withdraw_reserve_funds, reserve_admin. apply preserves_bind; [keep|intros _].
  apply preserves_reject. intros Hx. zbool.
  apply preserves_bind; [keep|intros stored]. apply preserves_bind; [keep|intros treasury].
  apply (preserves_bind_post _ (λ y, y = 0)); [keep| |intros y ->].
  { intros env [s w] y [s' w'] Hs Hr. apply local_Ok in Hr as [Hr _]. apply gets_Ok in Hr as [-> _].
    unfold get_reserve_balance. by rewrite (so_balance s Hs), lookup_empty. }
  apply preserves_reject. intros Hy. zbool. lia.
Qed.

Lemma sound_fees a c : preserves sound (set_fee_config a c).
Proof.
  unfold set_fee_config, treasury_admin. apply preserves_bind; [keep|intros _].
  apply preserves_reject. intros H1. apply preserves_reject. intros H2. zbool.
  unfold on_reserve. sound_op. sound_write. intros c' [= <-]. lia.
Qed.
#[local] Hint Resolve sound_record_deploy sound_claim sound_withdraw_reserve sound_fees : keeps.

Lemma sound_flash f u a x cb :
  keeps sound (execute_flash_loan this token_balance token_transfer token_transfer_from f u a x cb).
Proof. unfold execute_flash_loan, record_flash_loan, clear_flash_loan, on_flash. sound_op. Qed.
#[local] Hint Resolve sound_flash : keeps.

Lemma sound_step c env s : sound s.1 →
  sound (position_call this token_balance token_transfer token_transfer_from c env s).1.
Proof.
  intros Hs. destruct c; cbn [position_call].
  1: { unfold admin_call. destruct (is_entry_point c) eqn:Hc; [|done]. cbn. destruct Hs. constructor; cbn; auto.
       by apply hello_run_step. }
  1: done.
  all: apply (keeps_ran sound); [|done].
  all: open_calls.
  all: sound_op.
Qed.
End protocol.

(** ** The lock of the re-entrancy guard *)

Definition unlocked (s : PState) : Prop := ps_lock s = false.

Lemma unlocked_guarded {W E A} (busy : E) (m : M (PState * W) E A) :
  preserves (λ sw, unlocked sw.1) (guarded busy m).
Proof.
  intros env [s w] r [s' w'] Hs. unfold guarded, unlocked in *. cbn in *. rewrite Hs.
  destruct (m env _) as [r1 [s1 w1]]. by intros [= <- <- <-].
Qed.
#[export] Hint Resolve unlocked_guarded : keeps.

Section unlocked.
Context {W : Type} (this : Address)
        (token_balance : Address → Address → W → option (Z * W))
        (token_transfer : Address → Address → Address → Z → W → option (unit * W))
        (token_transfer_from : Address → Address → Address → Address → Z → W → option (unit * W)).

Lemma unlocked_price {E} a : preserves unlocked (get_oracle_price (E := E) a).
Proof.
  unfold get_oracle_price, get_price, maybe_trip_breaker, set_breaker_state, append_observation, save_history,
    cache_price, record_safe_price, set_breaker_state, on_oracle.
  keep; done.
Qed.
#[local] Hint Resolve unlocked_price : keeps.

Lemma unlocked_value u l t : preserves unlocked (sum_collateral_value u l t).
Proof. revert t. induction l as [|a l IH]; intros t; simpl; keep; apply IH. Qed.
#[local] Hint Resolve unlocked_value : keeps.

Lemma unlocked_step c env s : unlocked s.1 →
  unlocked (position_call this token_balance token_transfer token_transfer_from c env s).1.
Proof.
  intros Hs. destruct c; cbn [position_call].
  1: { unfold admin_call. by destruct (is_entry_point c). }
  1: done.
  all: apply (keeps_ran unlocked); [|done].
  all: open_calls.
  all: unfold execute_flash_loan, record_flash_loan, clear_flash_loan, on_flash, credit_reserve.
  all: unfold deposit_collateral, borrow_asset, repay_debt, withdraw_collateral, liquidate, consume, take_token,
    require_intent_auth, set_next_nonce, record_ordering_signal, remove_commit, record_reserve_deploy_to_amm,
    claim_reserves, withdraw_reserve_funds, set_fee_config, set_protocol_reserve, set_reserve_balance,
    initialize_credit_score, set_credit_score, reserve_admin, treasury_admin, emit, on_loan, on_mev, on_reserve,
    on_limit, on_breaker, on_report.
  all: keep; done.
Qed.
End unlocked.

(** ** The whole contract *)

(** *** Credit *)

(** The ratio for a score, as [calculate_adjusted_ltv] computes it. *)
Definition ltv_for (score : Z) : M PState LendingError Z :=
  adjustment ← ltv_adjustment score; unwrap (checked_add BASE_LTV_BPS adjustment).

Definition ltv_in_range (env : Env) (s : PState) (score : Z) : bool :=
  match (ltv_for score env s).1 with Ok ltv => in_range 5000 8500 ltv | _ => false end.

Lemma ltv_for_ro score : Readonly (ltv_for score).
Proof. unfold ltv_for, ltv_adjustment, linear_bonus. apply _. Qed.

(** All scores, checked one by one. *)
Lemma ltv_all env s : forallb (ltv_in_range env s) (seqZ 0 1001) = true.
Proof. vm_compute. reflexivity. Qed.

Lemma ltv_for_Ok env s score :
  MIN_CREDIT_SCORE ≤ score ≤ MAX_CREDIT_SCORE → ∃ ltv, ltv_for score env s = (Ok ltv, s) ∧ 5000 ≤ ltv ≤ 8500.
Proof.
  intros Hscore. assert (Hin : score ∈ seqZ 0 1001) by (apply elem_of_seqZ; score_range).
  pose proof (proj1 (forallb_forall _ _) (ltv_all env s) score (proj1 (list_elem_of_In _ _) Hin)) as Hltv.
  unfold ltv_in_range in Hltv. pose proof (ltv_for_ro score env s) as Hro.
  destruct (ltv_for score env s) as [[ltv|e|] s1]; cbn [fst snd] in *; [|discriminate..].
  subst s1. exists ltv. split; [done|]. by apply in_range_spec.
Qed.

Section protocol_theorems.
Context {W : Type} (this : Address)
        (token_balance : Address → Address → W → option (Z * W))
        (token_transfer : Address → Address → Address → Z → W → option (unit * W))
        (token_transfer_from : Address → Address → Address → Address → Z → W → option (unit * W)).

Abbreviation reachable := (protocol_reachable this token_balance token_transfer token_transfer_from).
Abbreviation run := (protocol_run this token_balance token_transfer token_transfer_from).

Lemma sound_reached s : reachable s → sound empty_hello s.1 ∧ unlocked s.1.
Proof.
  induction 1 as [w|c env s Hs [IH1 IH2]].
  - split; [|done]. constructor; cbn; try done. constructor.
  - split; [apply sound_step|apply unlocked_step]; by auto using hello_empty.
Qed.

Lemma sound_from s : sound empty_hello s → sound (ps_hello s) s.
Proof. intros []. constructor; try done. constructor. Qed.

Lemma administration_reachable s : reachable s → hello_reachable (ps_hello s.1).
Proof. intros Hs. apply (sound_reachable empty_hello), sound_reached, Hs. constructor. Qed.

(** The storage of the administration moves, under every entry point of the
    whole contract, as in the system of the administration's own calls, where
    the position operations are [CallPositions]: what is reached is reachable
    there, and every run of the contract is a run there. *)
Theorem contract_refines_administration s s' :
  reachable s → run s s' → hello_reachable (ps_hello s.1) ∧ hello_run (ps_hello s.1) (ps_hello s'.1).
Proof.
  intros Hs Hrun. pose proof (administration_reachable s Hs) as Hadm. split; [done|].
  apply (so_admin (ps_hello s.1) s'.1). induction Hrun as [|s' c env _ IH].
  - by apply sound_from, sound_reached.
  - by apply sound_step.
Qed.

(** In every reachable state the oracle has no price for any asset, and the
    reader of prices, which hides the failure, says that one unit of every
    asset is worth one unit of debt. *)
Theorem every_price_is_one {E} asset env s :
  reachable s →
  (∃ e, get_price asset env s.1 = (Err e, s.1)) ∧
  get_oracle_price (E := E) asset env s.1 = (Ok PRICE_DECIMALS, s.1).
Proof.
  intros Hs. pose proof (proj1 (sound_reached s Hs)) as Hso.
  destruct (get_price_unset _ asset env _ Hso) as [e He].
  split; [by eexists|]. unfold get_oracle_price, recover. by rewrite He.
Qed.

(** In every reachable state every credit score is between 0 and 1000, and
    the loan-to-value ratio computed from it is between 50% and 85%; computing
    it never traps. *)
Theorem credit_scores_bounded user env s :
  reachable s → MIN_CREDIT_SCORE ≤ score_of s.1 user ≤ MAX_CREDIT_SCORE ∧
  ∃ ltv, calculate_adjusted_ltv user env s.1 = (Ok ltv, s.1) ∧ 5000 ≤ ltv ≤ 8500.
Proof.
  intros Hs. pose proof (so_credit _ _ (proj1 (sound_reached s Hs))) as Hc.
  assert (Hscore : MIN_CREDIT_SCORE ≤ score_of s.1 user ≤ MAX_CREDIT_SCORE).
  { unfold score_of. destruct (_ !! user) as [c|] eqn:Hu; [exact (map_Forall_lookup_1 _ _ _ _ Hc Hu)|done]. }
  split; [done|]. destruct (ltv_for_Ok env s.1 _ Hscore) as (ltv & Hltv & Hrange). exists ltv. split; [|done].
  exact Hltv.
Qed.
End protocol_theorems.
