(* ===== verification/Books.v ===== *)
(** * Books: what the position operations of the hello-world contract record, and a specification of them

    The book of a state is what positions are about: collateral, debts, totals
    and the protocol's reserve, with the settings they are judged by.  Most
    operations leave it alone ([SameBook]); the lemmas here say what the writes of
    deposit.rs and its siblings do to it, and what their computations return in
    a reachable state, where the index stands still and no price is known.

    Then one rule per position operation, on books only: what has to hold, and
    the book afterwards.  Tokens, pauses, limits, statistics, events and the
    order of the writes are the contract's business; [PositionOutcomes] shows
    that every entry point of the contract is one of these rules or leaves the
    book alone.  Prices do not appear: the contract has none. *)

From S2P Require Import Prelude.
From S2P Require Import Host.
From S2P Require Import HelloTypes.
From S2P Require Import HelloParams.
From S2P Require Import HelloCalls.
From S2P Require Import ParamSafety.
From S2P Require Import PositionTypes.
From S2P Require Import Oracle.
From S2P Require Import Limits.
From S2P Require Import Reserves.
From S2P Require Import Positions.
From S2P Require Import PositionCalls.
From S2P Require Import PositionSafety.

(** ** The book *)

Record Book : Type := mkBook {
  b_collateral : gmap Address Z;
  b_asset : gmap (Address * Address) Z;
  b_listed : gmap Address (list Address);
  b_position : gmap Address Position;
  b_totals : ProtocolAnalytics;
  b_reserve : gmap (option Address) Z;
  b_risk : option RiskParams;
  b_params : gmap Address AssetParams;
  b_fees : TreasuryFeeConfig;
}.
#[export] Instance Book_upd : Updatable Book := λ b,
  mkBook (b_collateral b) (b_asset b) (b_listed b) (b_position b) (b_totals b) (b_reserve b) (b_risk b)
    (b_params b) (b_fees b).

Definition book (s : PState) : Book :=
  mkBook (lkCollateralBalance (ps_loan s)) (lkUserAssetCollateral (ps_loan s)) (lkUserAssetList (ps_loan s))
    (lkPosition (ps_loan s)) (protocol_analytics s) (lkProtocolReserve (ps_loan s))
    (get_risk_params (ps_hello s)) (lkAssetParams (ps_loan s)) (get_fee_config s).

(** *** Reading the book *)

Definition collateral_of (b : Book) (user : Address) : Z := default 0 (b_collateral b !! user).
Definition asset_of (b : Book) (user asset : Address) : Z := default 0 (b_asset b !! (user, asset)).
Definition listed_of (b : Book) (user : Address) : list Address := default [] (b_listed b !! user).
Definition reserve_of (b : Book) (asset : option Address) : Z := default 0 (b_reserve b !! asset).
Definition factor_of (b : Book) (asset : Address) : Z :=
  match b_params b !! asset with Some p => ap_collateral_factor p | None => 10000 end.
Definition factor_for (b : Book) (asset : option Address) : Z :=
  match asset with Some a => factor_of b a | None => 10000 end.
Definition required_ratio (b : Book) : Z :=
  match b_risk b with Some p => rp_min_collateral_ratio p | None => 15000 end.

(** The value of the listed collateral of a user, every asset at price one. *)
Definition listed_value (b : Book) (user : Address) : Z :=
  foldr Z.add 0 (map (λ a, Z.quot (asset_of b user a * factor_of b a) 10000) (listed_of b user)).

(** *** Writing the book *)

Definition with_collateral (user : Address) (x : Z) (b : Book) : Book :=
  b <| b_collateral := <[user := x]> (b_collateral b) |>.
Definition with_position (user : Address) (p : Position) (b : Book) : Book :=
  b <| b_position := <[user := p]> (b_position b) |>.
Definition with_asset (user asset : Address) (x : Z) (b : Book) : Book :=
  b <| b_asset := <[(user, asset) := x]> (b_asset b) |>.
Definition with_listed (user : Address) (l : list Address) (b : Book) : Book :=
  b <| b_listed := <[user := l]> (b_listed b) |>.
Definition with_totals (a : ProtocolAnalytics) (b : Book) : Book := b <| b_totals := a |>.
Definition with_reserve (asset : option Address) (x : Z) (b : Book) : Book :=
  b <| b_reserve := <[asset := x]> (b_reserve b) |>.

(** A deposit of a named asset: its balance, and the list of the user's assets. *)
Definition asset_deposited (user asset : Address) (amount : Z) (b : Book) : Book :=
  b <| b_asset := <[(user, asset) := asset_of b user asset + amount]> (b_asset b) |>
    <| b_listed := if bool_decide (asset ∈ listed_of b user) then b_listed b
                   else <[user := (listed_of b user ++ [asset])]> (b_listed b) |>.

Definition asset_withdrawn (user asset : Address) (amount : Z) (b : Book) : Book :=
  let rest := default 0 (checked_sub (asset_of b user asset) amount) in
  b <| b_asset := <[(user, asset) := rest]> (b_asset b) |>
    <| b_listed := if rest =? 0 then <[user := filter (λ a, a ≠ asset) (listed_of b user)]> (b_listed b)
                   else b_listed b |>.

Definition fee_credited (asset : option Address) (fee : Z) (b : Book) : Book :=
  b <| b_reserve := if 0 <? fee then <[asset := reserve_of b asset + fee]> (b_reserve b) else b_reserve b |>.

(** ** Operations that leave the book alone *)

Class SameBook {E A} (m : M PState E A) : Prop := same_book : ∀ env s, book (m env s).2 = book s.

Lemma same_book_run {E A} (m : M PState E A) `{!SameBook m} env s r s' :
  m env s = (r, s') → book s' = book s.
Proof. intros Hr. pose proof (same_book (m := m) env s) as H. by rewrite Hr in H. Qed.

Lemma same_book_preserves {E A} (m : M PState E A) :
  (∀ b, preserves (λ s, book s = b) m) → SameBook m.
Proof.
  intros Hm env s. destruct (m env s) as [r s'] eqn:Hr. exact (Hm (book s) env s r s' eq_refl Hr).
Qed.

Section same_book.
Context {E : Type}.

Lemma same_hint {A} (m : M PState E A) `{!SameBook m} b : preserves (λ s, book s = b) m.
Proof. intros env s r s' Hs Hr. by rewrite (same_book_run m env s r s' Hr). Qed.
End same_book.
#[export] Hint Extern 1 (preserves (λ s, book s = _) _) => solve [apply same_hint, _] : keeps.

Ltac same := apply same_book_preserves; intros ?; keep; try done.

#[export] Instance same_emit {E} ev : SameBook (emit (E := E) ev).
Proof. unfold emit. same. Qed.
#[export] Instance same_updates {E} u p t x now : SameBook (emit_updates (E := E) u p t x now).
Proof. unfold emit_updates. same. Qed.
#[export] Instance same_log {E} u t x a now : SameBook (add_activity_log (E := E) u t x a now).
Proof. unfold add_activity_log, on_loan. same. Qed.
#[export] Instance same_analytics {E} u a : SameBook (set_user_analytics (E := E) u a).
Proof. unfold set_user_analytics, on_loan. same. Qed.
#[export] Instance same_user_deposit u x now d : SameBook (update_user_analytics u x now d).
Proof. unfold update_user_analytics. same. Qed.
#[export] Instance same_user_borrow u x now : SameBook (update_user_analytics_borrow u x now).
Proof. unfold update_user_analytics_borrow. same. Qed.
#[export] Instance same_user_repay u x now : SameBook (update_user_analytics_repay u x now).
Proof. unfold update_user_analytics_repay. same. Qed.
#[export] Instance same_user_withdraw u x now : SameBook (update_user_analytics_withdraw u x now).
Proof. unfold update_user_analytics_withdraw. same. Qed.
#[export] Instance same_credit u c : SameBook (set_credit_score u c).
Proof. unfold set_credit_score, on_report. same. Qed.
#[export] Instance same_init_credit u : SameBook (initialize_credit_score u).
Proof. unfold initialize_credit_score. same. Qed.
#[export] Instance same_score_repayment u x b : SameBook (update_score_on_repayment u x b).
Proof. unfold update_score_on_repayment, get_credit_score, u32_incr, rescore. same. Qed.
#[export] Instance same_score_liquidation u : SameBook (update_score_on_liquidation u).
Proof. unfold update_score_on_liquidation, get_credit_score, u32_incr, rescore. same. Qed.
#[export] Instance same_record_borrow u x : SameBook (record_borrow u x).
Proof. unfold record_borrow, get_credit_score. same. Qed.
#[export] Instance same_recover {E1 E2 A} (d : A) (m : M PState E1 A) :
  SameBook m → SameBook (recover (E2 := E2) d m).
Proof. intros Hm. same. Qed.
#[export] Instance same_price {E} a : SameBook (get_oracle_price (E := E) a).
Proof.
  unfold get_oracle_price, get_price, maybe_trip_breaker, append_observation, save_history, cache_price,
    record_safe_price, set_breaker_state, on_oracle.
  same.
Qed.
#[export] Instance same_sum u l t : SameBook (sum_collateral_value u l t).
Proof. revert t. induction l as [|a l IH]; intros t; simpl; same. Qed.
#[export] Instance same_effective u : SameBook (effective_collateral u).
Proof. unfold effective_collateral, calculate_total_collateral_value. same. Qed.
#[export] Instance same_allowed l : SameBook (is_liquidation_allowed l).
Proof. unfold is_liquidation_allowed, get_circuit_breaker_state, set_breaker, on_breaker. same. Qed.

(** ** The writes *)

(** A write that ran. *)
Lemma wrote {E} (f : PState → PState) b env s (r : unit) s' :
  book (f s) = b → (modify f : M PState E unit) env s = (Ok r, s') → book s' = b.
Proof. intros Hf [= <- <-]. done. Qed.

Section writes.
Context {E : Type}.

Lemma set_collateral_book u x env s r s' :
  set_collateral (E := E) u x env s = (Ok r, s') → book s' = with_collateral u x (book s).
Proof. by apply wrote. Qed.
Lemma set_position_book u p env s r s' :
  set_position (E := E) u p env s = (Ok r, s') → book s' = with_position u p (book s).
Proof. by apply wrote. Qed.
Lemma set_asset_book u a x env s r s' :
  set_user_asset_collateral (E := E) u a x env s = (Ok r, s') → book s' = with_asset u a x (book s).
Proof. by apply wrote. Qed.
Lemma set_listed_book u l env s r s' :
  set_user_asset_list (E := E) u l env s = (Ok r, s') → book s' = with_listed u l (book s).
Proof. by apply wrote. Qed.
Lemma set_reserve_book a x env s r s' :
  set_protocol_reserve (E := E) a x env s = (Ok r, s') → book s' = with_reserve a x (book s).
Proof. by apply wrote. Qed.
Lemma set_totals_book a env s r s' :
  set_protocol_analytics (E := E) a env s = (Ok r, s') → book s' = with_totals a (book s).
Proof. intros [= <- <-]. done. Qed.
End writes.

(** Replaces the writes in the context by what they do to the book. *)
Ltac write_facts :=
  repeat match goal with
  | H : set_collateral _ _ _ _ = (Ok _, _) |- _ => apply set_collateral_book in H
  | H : set_position _ _ _ _ = (Ok _, _) |- _ => apply set_position_book in H
  | H : set_user_asset_collateral _ _ _ _ _ = (Ok _, _) |- _ => apply set_asset_book in H
  | H : set_user_asset_list _ _ _ _ = (Ok _, _) |- _ => apply set_listed_book in H
  | H : set_protocol_reserve _ _ _ _ = (Ok _, _) |- _ => apply set_reserve_book in H
  | H : set_protocol_analytics _ _ _ = (Ok _, _) |- _ => apply set_totals_book in H
  end.

(** Expresses what is read from a state by its book. *)
Ltac read_books :=
  repeat match goal with
  | |- context [get_collateral ?s ?u] => change (get_collateral s u) with (collateral_of (book s) u)
  | H : context [get_collateral ?s ?u] |- _ => change (get_collateral s u) with (collateral_of (book s) u) in H
  | |- context [get_position ?s ?u] => change (get_position s u) with (b_position (book s) !! u)
  | H : context [get_position ?s ?u] |- _ => change (get_position s u) with (b_position (book s) !! u) in H
  | |- context [get_user_asset_collateral ?s ?u ?a] =>
      change (get_user_asset_collateral s u a) with (asset_of (book s) u a)
  | H : context [get_user_asset_collateral ?s ?u ?a] |- _ =>
      change (get_user_asset_collateral s u a) with (asset_of (book s) u a) in H
  | |- context [get_user_asset_list ?s ?u] => change (get_user_asset_list s u) with (listed_of (book s) u)
  | H : context [get_user_asset_list ?s ?u] |- _ => change (get_user_asset_list s u) with (listed_of (book s) u) in H
  | |- context [get_protocol_reserve ?s ?a] => change (get_protocol_reserve s a) with (reserve_of (book s) a)
  | |- context [min_ratio ?s] => change (min_ratio s) with (required_ratio (book s))
  | H : context [get_asset_params ?s ?a] |- _ => change (get_asset_params s a) with (b_params (book s) !! a) in H
  | H : context [get_collateral_factor ?s ?a] |- _ => change (get_collateral_factor s a) with (factor_of (book s) a) in H
  | |- context [get_collateral_factor ?s ?a] => change (get_collateral_factor s a) with (factor_of (book s) a)
  | H : context [asset_factor ?s ?a] |- _ => change (asset_factor s a) with (factor_for (book s) a) in H
  | H : context [get_fee_config ?s] |- _ => change (get_fee_config s) with (b_fees (book s)) in H
  | H : context [min_ratio ?s] |- _ => change (min_ratio s) with (required_ratio (book s)) in H
  | H : context [protocol_analytics ?s] |- _ => change (protocol_analytics s) with (b_totals (book s)) in H
  | |- context [protocol_analytics ?s] => change (protocol_analytics s) with (b_totals (book s))
  end.

(** Follows the books along a run. *)
Ltac chain_books :=
  repeat match goal with
  | H : book ?s' = _, H' : context [book ?s'] |- _ =>
      lazymatch type of H' with book s' = _ => fail | _ => rewrite H in H' end
  end;
  repeat match goal with
  | H : book ?s' = _ |- context [book ?s'] => rewrite H
  end.

Section composed.
Context {E : Type}.

Lemma credit_reserve_book asset fee (e : E) env s r s' :
  credit_reserve asset fee e env s = (Ok r, s') →
  book s' = with_reserve asset (reserve_of (book s) asset + fee) (book s).
Proof. intros Hr. unfold credit_reserve in Hr. run_inv Hr. checked_facts. write_facts. by subst. Qed.

Lemma credit_when_book asset fee (e : E) env s r s' :
  when (0 <? fee) (credit_reserve asset fee e) env s = (Ok r, s') → book s' = fee_credited asset fee (book s).
Proof.
  unfold when, fee_credited. destruct (0 <? fee); [apply credit_reserve_book|]. intros [= _ <-]. by destruct (book s).
Qed.

Lemma asset_withdrawal_book u a x env s r s' :
  record_asset_withdrawal (E := E) u a x env s = (Ok r, s') → book s' = asset_withdrawn u a x (book s).
Proof.
  intros Hr. unfold record_asset_withdrawal in Hr. run_inv Hr; write_facts; unfold asset_withdrawn; read_books;
    destruct (_ =? 0); try done.
  by chain_books.
Qed.
End composed.

Lemma asset_deposit_book u a x env s r s' :
  record_asset_deposit u a x env s = (Ok r, s') → book s' = asset_deposited u a x (book s).
Proof.
  intros Hr. unfold record_asset_deposit in Hr. run_inv Hr; checked_facts; write_facts; subst; unfold asset_deposited;
    read_books; chain_books; cbn in *; zbool.
  - by rewrite bool_decide_eq_false_2.
  - rewrite bool_decide_eq_true_2; [done|by apply dec_stable].
Qed.

(** *** The totals *)

Lemma totals_deposit_book x env s r s' :
  update_protocol_analytics x true env s = (Ok r, s') →
  book s' = with_totals ((b_totals (book s))
    <| pa_total_deposits := pa_total_deposits (b_totals (book s)) + x |>
    <| pa_total_value_locked := pa_total_value_locked (b_totals (book s)) + x |>) (book s).
Proof.
  intros Hr. unfold update_protocol_analytics in Hr. run_inv Hr. checked_facts.
  write_facts. by subst.
Qed.
Lemma totals_borrow_book x env s r s' :
  update_protocol_analytics_borrow x env s = (Ok r, s') →
  book s' = with_totals ((b_totals (book s)) <| pa_total_borrows := pa_total_borrows (b_totals (book s)) + x |>) (book s).
Proof.
  intros Hr. unfold update_protocol_analytics_borrow in Hr. run_inv Hr. checked_facts.
  write_facts. by subst.
Qed.
Lemma totals_repay_book x env s r s' :
  update_protocol_analytics_repay x env s = (Ok r, s') →
  book s' = with_totals ((b_totals (book s))
    <| pa_total_borrows := default 0 (checked_sub (pa_total_borrows (b_totals (book s))) x) |>) (book s).
Proof.
  intros Hr. unfold update_protocol_analytics_repay in Hr. run_inv Hr.
  write_facts. by subst.
Qed.
Lemma totals_withdraw_book x env s r s' :
  update_protocol_analytics_withdraw x env s = (Ok r, s') →
  book s' = with_totals ((b_totals (book s))
    <| pa_total_value_locked := default 0 (checked_sub (pa_total_value_locked (b_totals (book s))) x) |>) (book s).
Proof.
  intros Hr. unfold update_protocol_analytics_withdraw in Hr. run_inv Hr.
  write_facts. by subst.
Qed.

(** ** The guard *)

Lemma lock_Ok {W E A} (busy : E) (m : M (PState * W) E A) env s w a s' w' :
  guarded busy m env (s, w) = (Ok a, (s', w')) →
  ps_lock s = false ∧ ∃ s1, m env (s <| ps_lock := true |>, w) = (Ok a, (s1, w')) ∧ s' = s1 <| ps_lock := false |>.
Proof.
  unfold guarded. destruct (ps_lock s); [done|]. destruct (m env _) as [r1 [s1 w1]]. intros [= -> <- <-].
  split; [done|]. by exists s1.
Qed.


(** ** What the computations return *)

#[export] Instance same_index {E} (f : InterestRateError → E) : SameBook (map_err f (within update_lending_index)).
Proof.
  intros env s. unfold map_err, within. cbn. destruct (update_lending_index env (ps_hello s)) as [r h] eqn:Hr.
  destruct (update_lending_index_cases _ _ _ _ Hr) as [->|(i & -> & ->)]; [destruct r|]; by destruct s as [[]].
Qed.
#[export] Instance same_accrue {E} (e : E) u p : SameBook (accrue_interest e u p).
Proof. unfold accrue_interest, on_loan. same. Qed.

(** The collateral that counts against a debt: the listed assets, or without
    any the balance times the factor of the asset that is borrowed. *)
Definition counted (b : Book) (user : Address) (factor : Z) : Z :=
  if bool_decide (listed_of b user = []) then Z.quot (collateral_of b user * factor) 10000 else listed_value b user.

Section computed.
Context (h0 : HState) (Hh0 : hello_reachable h0).

Lemma accrue_Ok {E} (e : E) u p env s q s' :
  sound h0 s → accrue_interest e u p env s = (Ok q, s') →
  q = p <| pos_borrow_interest := if pos_debt p =? 0 then 0 else pos_borrow_interest p |>
        <| pos_last_accrual_time := timestamp env |>.
Proof.
  intros Hs Hr. unfold accrue_interest in Hr. apply bind_Ok in Hr as (now & s1 & Hnow & Hr).
  apply ask_Ok in Hnow as [-> ->]. apply bind_Ok in Hr as (i & s1 & Hi & Hr).
  apply map_err_Ok in Hi. rewrite (within_index h0) in Hi by done. injection Hi as <- <-. cbn in Hr.
  apply bind_Ok in Hr as (q' & s1 & Hq & Hr). run_inv Hr. destruct (pos_debt p =? 0) eqn:Hd.
  { by apply ret_Ok in Hq as [-> _]. }
  unfold loan in Hq. run_inv Hq. checked_facts.
  match goal with H : within _ _ _ = _ |- _ => apply within_Ok in H as (h & Hnew & _) end.
  assert (Hidx : default INDEX_SCALE (lkUserBorrowIndex (ps_loan s) !! u) = INDEX_SCALE).
  { destruct (_ !! u) eqn:Hu; [|done]. exact (map_Forall_lookup_1 _ _ _ _ (so_index _ _ Hs) Hu). }
  subst. cbn [li_borrow_index] in Hnew. rewrite Hidx in Hnew. unfold compute_index_interest in Hnew.
  rewrite Z.leb_refl, orb_true_r in Hnew. apply ret_Ok in Hnew as [-> _]. by rewrite Z.add_0_r.
Qed.

Lemma oracle_price_one {E} a env s : sound h0 s → get_oracle_price (E := E) a env s = (Ok PRICE_DECIMALS, s).
Proof.
  intros Hs. destruct (get_price_unset h0 a env s Hs) as [e He]. unfold get_oracle_price, recover. by rewrite He.
Qed.

Lemma weighted_value_Ok x f env s v s' :
  weighted_value x PRICE_DECIMALS f env s = (Ok v, s') → v = Z.quot (x * f) 10000 ∧ s' = s.
Proof.
  intros Hr. unfold weighted_value in Hr. run_inv Hr. checked_facts. subst.
  unfold BPS_SCALE. by rewrite Z.quot_mul.
Qed.

Lemma sum_collateral_value_Ok u l t env s v s' :
  sound h0 s → sum_collateral_value u l t env s = (Ok v, s') →
  v = t + foldr Z.add 0 (map (λ a, Z.quot (asset_of (book s) u a * factor_of (book s) a) 10000) l) ∧ s' = s.
Proof.
  intros Hs. revert t. induction l as [|a l IH]; intros t Hr.
  { injection Hr as <- <-. split; [by rewrite Z.add_0_r|done]. }
  cbn [sum_collateral_value] in Hr. apply bind_Ok in Hr as (x & s1 & Hx & Hr). apply gets_Ok in Hx as [-> ->].
  read_books. cbn [map foldr]. destruct (_ =? 0) eqn:Hz.
  { zbool. apply IH in Hr as [-> ->]. rewrite Hz, Z.mul_0_l, Z.quot_0_l by done. split; [lia|done]. }
  apply bind_Ok in Hr as (p & s1 & Hp & Hr). rewrite oracle_price_one in Hp by done. injection Hp as <- <-.
  run_inv Hr. checked_facts. read_books.
  match goal with H : weighted_value _ _ _ _ _ = _ |- _ => apply weighted_value_Ok in H as [-> ->] end.
  subst. edestruct IH as [-> ->]; [eassumption|]. split; [lia|done].
Qed.

Lemma effective_Ok u env s c flag s' :
  sound h0 s → effective_collateral u env s = (Ok (c, flag), s') →
  s' = s ∧ flag = bool_decide (listed_of (book s) u = []) ∧
  c = if flag then collateral_of (book s) u else listed_value (book s) u.
Proof.
  intros Hs Hr. unfold effective_collateral, has_multi_asset_collateral in Hr. run_inv Hr; read_books;
    destruct (bool_decide _); try done; simplify_eq.
  - unfold calculate_total_collateral_value in Hrun. run_inv Hrun.
    apply sum_collateral_value_Ok in Hrun1 as [-> ->]; [done|done].
  - done.
Qed.
End computed.

(** ** Runs *)

(** Replaces every step of a run by what it does to the book. *)
Ltac book_facts :=
  write_facts;
  repeat match goal with
  | H : record_asset_deposit _ _ _ _ _ = (Ok _, _) |- _ => apply asset_deposit_book in H
  | H : record_asset_withdrawal _ _ _ _ _ = (Ok _, _) |- _ => apply asset_withdrawal_book in H
  | H : credit_reserve _ _ _ _ _ = (Ok _, _) |- _ => apply credit_reserve_book in H
  | H : update_protocol_analytics _ true _ _ = (Ok _, _) |- _ => apply totals_deposit_book in H
  | H : update_protocol_analytics_borrow _ _ _ = (Ok _, _) |- _ => apply totals_borrow_book in H
  | H : update_protocol_analytics_repay _ _ _ = (Ok _, _) |- _ => apply totals_repay_book in H
  | H : update_protocol_analytics_withdraw _ _ _ = (Ok _, _) |- _ => apply totals_withdraw_book in H
  | H : ?m ?env ?s = (Ok _, ?s') |- _ => apply (same_book_run m env s) in H
  end.

Lemma lock_book s x : book (s <| ps_lock := x |>) = book s.
Proof. reflexivity. Qed.

(** ** The book after an operation *)

(** A position after its interest was brought up to date. *)
Definition accrued (now : Z) (p : Position) : Position :=
  p <| pos_borrow_interest := if pos_debt p =? 0 then 0 else pos_borrow_interest p |>
    <| pos_last_accrual_time := now |>.

Definition owed (p : Position) : Z := pos_debt p + pos_borrow_interest p.

(** A subtraction that gives zero where it overflows. *)
Definition minus (a b : Z) : Z := default 0 (checked_sub a b).

Definition on_totals (f : ProtocolAnalytics → ProtocolAnalytics) (b : Book) : Book := with_totals (f (b_totals b)) b.

Definition deposited (user : Address) (asset : option Address) (amount now : Z) (b : Book) : Book :=
  let c := collateral_of b user + amount in
  let p := default (new_position now) (b_position b !! user) in
  let b' := with_collateral user c b in
  let b' := match asset with Some a => asset_deposited user a amount b' | None => b' end in
  on_totals (λ t, t <| pa_total_deposits := pa_total_deposits t + amount |>
                    <| pa_total_value_locked := pa_total_value_locked t + amount |>)
    (with_position user (p <| pos_collateral := c |> <| pos_last_accrual_time := now |>) b').

Definition withdrawn (user : Address) (asset : option Address) (amount now : Z) (b : Book) : Book :=
  let c := collateral_of b user - amount in
  let p := default (new_position now) (b_position b !! user) in
  let b' := with_collateral user c b in
  let b' := match asset with Some a => asset_withdrawn user a amount b' | None => b' end in
  on_totals (λ t, t <| pa_total_value_locked := minus (pa_total_value_locked t) amount |>)
    (with_position user (p <| pos_collateral := c |> <| pos_last_accrual_time := now |>) b').

Definition borrowed (user : Address) (asset : option Address) (amount fee now : Z) (p : Position)
    (b : Book) : Book :=
  let b' := with_position user (p <| pos_debt := pos_debt p + amount |> <| pos_last_accrual_time := now |>) b in
  let b' := match asset with Some _ => fee_credited asset fee b' | None => b' end in
  on_totals (λ t, t <| pa_total_borrows := pa_total_borrows t + amount |>) b'.

(** The fee on a loan of an asset. *)
Definition loan_fee (b : Book) (asset : option Address) (amount : Z) : Z :=
  Z.quot (amount * match a ← asset; b_params b !! a with Some p => ap_borrow_fee_bps p | None => 0 end) 10000.

(** The position after a repayment, from which the payment is taken twice. *)
Definition paid_twice (p : Position) (amount now : Z) : Position :=
  let interest := interest_part p amount in
  pay_position (pay_position p interest (amount - interest) now) interest (amount - interest) now.

Definition repaid (user : Address) (asset : option Address) (amount now : Z) (p : Position) (b : Book) : Book :=
  let interest := interest_part p amount in
  let cut := if 0 <? interest then Z.quot (interest * tf_interest_fee_bps (b_fees b)) 10000 else 0 in
  on_totals (λ t, t <| pa_total_borrows := minus (pa_total_borrows t) amount |>)
    (fee_credited asset cut (with_position user (paid_twice p amount now) b)).

Definition liquidated (user : Address) (asset : option Address) (t : LiquidationTerms) (now : Z) (p : Position)
    (b : Book) : Book :=
  let interest := interest_part p (lt_debt t) in
  let c := minus (collateral_of b user) (lt_seized t) in
  let b' := with_collateral user c (fee_credited asset (lt_fee t) b) in
  let b' := match asset with
            | Some a => if bool_decide (listed_of b user = []) then b' else asset_withdrawn user a (lt_seized t) b'
            | None => b'
            end in
  on_totals (λ a, a <| pa_total_value_locked := minus (pa_total_value_locked a) (lt_seized t) |>)
    (with_position user
       ((pay_position p interest (lt_debt t - interest) now) <| pos_collateral := c |>) b').

(** ** Liquidation *)

(** An asset without a price counts as one; the native asset as well, but in
    other units. *)
Definition unit_price (asset : option Address) : Z := match asset with Some _ => PRICE_DECIMALS | None => 1 end.

Definition seizable_of (b : Book) (user : Address) (asset : option Address) : Z :=
  match asset with
  | Some a => if bool_decide (listed_of b user = []) then collateral_of b user else asset_of b user a
  | None => collateral_of b user
  end.

Definition converted (x : Z) (from to : option Address) : Z :=
  if is_native from to then x else Z.quot (x * unit_price from) (unit_price to).

(** The value a liquidation is decided on. *)
Definition judged_value (b : Book) (user : Address) (debt_asset asset : option Address) : Z :=
  if bool_decide (listed_of b user = []) then converted (seizable_of b user asset) asset debt_asset
  else listed_value b user.

(** The conditions of a liquidation, and its terms. *)
Record liquidation_due (b : Book) (user : Address) (debt_asset asset : option Address) (amount : Z)
    (p : Position) (r : RiskParams) (t : LiquidationTerms) : Prop := {
  ld_risk : b_risk b = Some r;
  ld_owes : owed p ≠ 0;
  ld_unhealthy : Z.quot (judged_value b user debt_asset asset * 10000) (owed p) < rp_liquidation_threshold r;
  ld_close : amount ≤ Z.quot (owed p * rp_close_factor r) 10000;
  ld_debt : lt_debt t = Z.min amount (owed p);
  ld_bonus : ∃ bonus, bonus ≤ Z.max MAX_PENALTY_BPS (rp_liquidation_incentive r) ∧
    lt_incentive t = Z.quot (lt_debt t * bonus) 10000 ∧
    lt_seized t = Z.min (Z.quot (converted (lt_debt t) debt_asset asset * (10000 + bonus)) 10000)
                    (seizable_of b user asset);
  ld_fee : lt_fee t = Z.quot (lt_incentive t * tf_liquidation_fee_bps (b_fees b)) 10000;
  ld_paid : lt_to_liquidator t = lt_seized t - lt_fee t;
}.

(** ** The rules *)

Inductive book_step (b : Book) : Book → Prop :=
  | step_deposit user asset amount now :
      0 < amount → book_step b (deposited user asset amount now b)
  | step_withdraw user asset amount now p :
      0 < amount → amount ≤ collateral_of b user → b_position b !! user = Some p →
      (pos_debt p = 0 ∧ pos_borrow_interest p = 0 ∨
       ∀ ratio, calculate_collateral_ratio (collateral_of b user - amount) (pos_debt p) (pos_borrow_interest p)
                  (factor_for b asset) = Some ratio →
                required_ratio b ≤ ratio) →
      book_step b (withdrawn user asset amount now b)
  | step_borrow user asset amount now p :
      0 < amount → loan_fee b asset amount < amount → b_position b !! user = Some p →
      owed (accrued now p) + amount ≤ Z.quot (counted b user (factor_for b asset) * 10000) (required_ratio b) →
      book_step b (borrowed user asset amount (loan_fee b asset amount) now (accrued now p) b)
  | step_repay user asset amount given now p :
      0 < given → b_position b !! user = Some p → pos_debt p ≠ 0 ∨ pos_borrow_interest p ≠ 0 →
      amount = Z.min given (owed (accrued now p)) → 0 ≤ amount →
      book_step b (repaid user (Some asset) amount now (accrued now p) b)
  | step_liquidate user debt_asset asset amount now p r t :
      0 < amount → b_position b !! user = Some p →
      liquidation_due b user debt_asset asset amount (accrued now p) r t →
      (asset = None ∨ 0 ≤ lt_to_liquidator t) →
      book_step b (liquidated user asset t now (accrued now p) b)
  | step_claim asset amount :
      0 < amount → amount ≤ reserve_of b asset →
      book_step b (with_reserve asset (reserve_of b asset - amount) b)
  | step_flash_fee asset fee :
      0 < fee → book_step b (with_reserve (Some asset) (reserve_of b (Some asset) + fee) b)
  | step_settings risk params fees :
      (∀ r, risk = Some r → valid_risk r) →
      book_step b (b <| b_risk := risk |> <| b_params := params |> <| b_fees := fees |>).

(** ** What the rules keep *)

(** A position's collateral is the balance of its user; without a position there
    is neither balance nor asset; no interest is ever recorded. *)
Record book_ok (b : Book) : Prop := {
  bo_risk : ∀ r, b_risk b = Some r → valid_risk r;
  bo_position : ∀ user p, b_position b !! user = Some p →
    pos_collateral p = collateral_of b user ∧ pos_borrow_interest p = 0;
  bo_nobody : ∀ user, b_position b !! user = None → b_collateral b !! user = None ∧ listed_of b user = [];
}.

(** A rule that moves one user's collateral and position. *)
Lemma book_ok_move b b' user p c :
  book_ok b → b_position b' = <[user := p]> (b_position b) → b_collateral b' = <[user := c]> (b_collateral b) →
  b_risk b' = b_risk b → pos_collateral p = c → pos_borrow_interest p = 0 →
  (∀ u, u ≠ user → listed_of b' u = listed_of b u) → book_ok b'.
Proof.
  intros [H0 H1 H2] Hp Hb Hr Hc Hi Hl. split; [by rewrite Hr|..]; intros u; rewrite Hp; destruct (decide (u = user)) as [->|Hu].
  - intros q. rewrite lookup_insert_eq. intros [= <-]. unfold collateral_of. by rewrite Hb, lookup_insert_eq.
  - intros q. rewrite lookup_insert_ne by done. unfold collateral_of. rewrite Hb, lookup_insert_ne by done. apply H1.
  - by rewrite lookup_insert_eq.
  - rewrite lookup_insert_ne, Hl by done. rewrite Hb, lookup_insert_ne by done. apply H2.
Qed.

(** A rule that moves the debt of a position only. *)
Lemma book_ok_debt b b' user p q :
  book_ok b → b_position b !! user = Some p → b_position b' = <[user := q]> (b_position b) →
  b_collateral b' = b_collateral b → b_listed b' = b_listed b → b_risk b' = b_risk b →
  pos_collateral q = pos_collateral p → pos_borrow_interest q = 0 → book_ok b'.
Proof.
  intros [H0 H1 H2] Hp Hq Hb Hl Hr Hc Hi. split; [by rewrite Hr|..]; intros u; rewrite Hq; unfold listed_of, collateral_of; rewrite ?Hb, ?Hl;
    destruct (decide (u = user)) as [->|Hu].
  - intros r. rewrite lookup_insert_eq. intros [= <-]. rewrite Hc. split; [by apply H1|done].
  - intros r. rewrite lookup_insert_ne by done. apply H1.
  - by rewrite lookup_insert_eq.
  - rewrite lookup_insert_ne by done. apply H2.
Qed.

Lemma listed_deposited u user a x b : u ≠ user → listed_of (asset_deposited user a x b) u = listed_of b u.
Proof.
  intros Hu. unfold listed_of at 1. cbn. destruct (bool_decide _); [done|]. by rewrite lookup_insert_ne.
Qed.
Lemma listed_withdrawn u user a x b : u ≠ user → listed_of (asset_withdrawn user a x b) u = listed_of b u.
Proof.
  intros Hu. unfold listed_of at 1. cbn. destruct (_ =? 0); [|done]. by rewrite lookup_insert_ne.
Qed.

(** Without recorded interest every payment is principal. *)
Lemma no_interest_part p amount : pos_borrow_interest p = 0 → 0 ≤ amount → interest_part p amount = 0.
Proof. intros Hp Ha. unfold interest_part. rewrite Hp. destruct (amount <=? 0) eqn:?; zbool; lia. Qed.

Lemma no_interest_accrued now p : pos_borrow_interest p = 0 → pos_borrow_interest (accrued now p) = 0.
Proof. intros Hp. unfold accrued. cbn. by destruct (_ =? 0). Qed.

Lemma owed_accrued now p : pos_borrow_interest p = 0 → owed (accrued now p) = pos_debt p.
Proof. intros Hp. unfold owed. rewrite no_interest_accrued by done. cbn. lia. Qed.

(** The debt that a liquidation takes is positive. *)
Lemma liquidation_debt b user da asset amount p r t :
  0 < amount → valid_risk r → liquidation_due b user da asset amount p r t → 0 < lt_debt t ≤ owed p.
Proof.
  intros Ha Hr Hd. pose proof (ld_close _ _ _ _ _ _ _ _ Hd) as Hclose. rewrite (ld_debt _ _ _ _ _ _ _ _ Hd).
  destruct Hr as (_ & _ & _ & [Hcf _] & _). unfold CLOSE_FACTOR_MIN in Hcf.
  assert (0 < owed p); [|lia]. destruct (Z.le_gt_cases (owed p) 0); [|done].
  assert (Z.quot (owed p * rp_close_factor r) 10000 <= 0); [|lia].
  apply Z.opp_nonneg_nonpos. rewrite <- Z.quot_opp_l by lia. apply quot_nonneg; nia.
Qed.

(** A payment that has no interest to pay. *)
Lemma paid_interest p x y now : pos_borrow_interest p = 0 → x = 0 → pos_borrow_interest (pay_position p x y now) = 0.
Proof. intros Hp ->. unfold pay_position. cbn. by rewrite Hp. Qed.

Lemma default_no_interest b user now :
  book_ok b → pos_borrow_interest (default (new_position now) (b_position b !! user)) = 0.
Proof. intros Hb. destruct (_ !! user) eqn:Hp; [by apply (bo_position b Hb) in Hp as [_ ?]|done]. Qed.

Lemma book_step_ok b b' : book_ok b → book_step b b' → book_ok b'.
Proof.
  intros Hb Hstep. pose proof Hb as [H0 H1 H2].
  destruct Hstep as [user asset x now Hx|user asset x now p Hx Hle Hp Hcond|user asset x now p Hx Hf Hp Hle
    |user asset x given now p Hx Hp Hd -> Hpos|user da asset x now p r t Hx Hp Hdue Hpaid|asset x Hx Hle|asset fee Hfee|risk params fees Hr].
  - eapply (book_ok_move b _ user); try first [done|by destruct asset].
    + by apply default_no_interest.
    + intros u Hu. destruct asset; [exact (listed_deposited u user a x (with_collateral user _ b) Hu)|done].
  - eapply (book_ok_move b _ user); try first [done|by destruct asset].
    + by apply default_no_interest.
    + intros u Hu. destruct asset; [exact (listed_withdrawn u user a x (with_collateral user _ b) Hu)|done].
  - eapply (book_ok_debt b _ user p); try first [done|by destruct asset].
    apply (no_interest_accrued now p (proj2 (H1 user p Hp))).
  - pose proof (no_interest_accrued now p (proj2 (H1 user p Hp))) as Hi.
    eapply (book_ok_debt b _ user p); try done.
    unfold paid_twice. by repeat apply paid_interest; try apply no_interest_part.
  - pose proof (no_interest_accrued now p (proj2 (H1 user p Hp))) as Hi.
    pose proof (liquidation_debt _ _ _ _ _ _ _ _ Hx (H0 r (ld_risk _ _ _ _ _ _ _ _ Hdue)) Hdue) as Hdebt.
    eapply (book_ok_move b _ user);
      try first [done|by (unfold liquidated; destruct asset; [destruct (bool_decide _)|])].
    + apply paid_interest; [done|apply no_interest_part; [done|lia]].
    + intros u Hu. unfold liquidated. destruct asset; [|done]. destruct (bool_decide _); [done|].
      exact (listed_withdrawn u user a (lt_seized t) (with_collateral user _ (fee_credited _ _ b)) Hu).
  - by split.
  - by split.
  - by split.
Qed.
