(* ===== verification/PositionOutcomes.v ===== *)
(** * PositionOutcomes: what the operations on positions and the flash loans do

    Collateral and debt in the hello-world contract, operation by operation, in
    every reachable state: the exact change of the book, what was required, and
    which tokens moved.  Then the steps of a flash loan, its fee, and the tokens
    it leaves; between invocations no loan is open. *)

From S2P Require Import Prelude.
From S2P Require Import Host.
From S2P Require Import HelloTypes.
From S2P Require Import HelloParams.
From S2P Require Import HelloCalls.
From S2P Require Import ParamSafety.
From S2P Require Import PositionTypes.
From S2P Require Import Oracle.
From S2P Require Import Limits.
From S2P Require Import Reserves.
From S2P Require Import Positions.
From S2P Require Import PositionCalls.
From S2P Require Import PositionSafety.
From S2P Require Import Books.
From S2P Require Import HelloFlash.

Section outcomes.
Context (h0 : HState) (Hh0 : hello_reachable h0).
Context {W : Type} (this : Address)
        (token_balance : Address → Address → W → option (Z * W))
        (token_transfer : Address → Address → Address → Z → W → option (unit * W))
        (token_transfer_from : Address → Address → Address → Address → Z → W → option (unit * W)).

(** The result of an operation, from the storage it ran on under the lock. *)
Ltac open_run Hr :=
  apply bind_Ok in Hr as (? & [? ?] & Hpos & Hr);
  apply reject_if_Ok in Hpos as [Hpos [= -> ->]];
  apply lock_Ok in Hr as (Hlock & ? & Hr & ->).

Ltac no_units := repeat match goal with v : unit |- _ => destruct v end.

(** Whether a fee is taken. *)
Ltac fee_case :=
  repeat match goal with
  | H : 0 < ?f |- context [0 <? ?f] => rewrite (proj2 (Z.ltb_lt 0 f) H)
  | H : ?f ≤ 0 |- context [0 <? ?f] => rewrite (proj2 (Z.ltb_ge 0 f) H)
  end.

Lemma collect_Ok {E} t from x (e : E) env s w u s' w' :
  collect this token_balance token_transfer_from t from x e env (s, w) = (Ok u, (s', w')) →
  s' = s ∧ ∃ have w1, token_balance t from w = Some (have, w1) ∧ x ≤ have ∧
    token_transfer_from t this from this x w1 = Some (tt, w').
Proof.
  intros Hr. unfold collect in Hr. world_inv Hr. zbool. destruct u. eauto 10.
Qed.

Lemma deposit_book u asset x env s w v s' w' :
  deposit_collateral this token_balance token_transfer_from u asset x env (s, w) = (Ok v, (s', w')) →
  0 < x ∧ v = collateral_of (book s) u + x ∧ book s' = deposited u asset x (timestamp env) (book s) ∧
  match asset with
  | Some t => ∃ have w1, token_balance t u w = Some (have, w1) ∧ x ≤ have ∧
      token_transfer_from t this u this x w1 = Some (tt, w')
  | None => w' = w
  end.
Proof.
  intros Hr. unfold deposit_collateral, check_risk_management_pause in Hr. open_run Hr.
  world_inv Hr; book_facts; checked_facts; zbool; read_books; rewrite ?lock_book in *; subst.
  1-2: match goal with H : collect _ _ _ _ _ _ _ _ _ = _ |- _ => apply collect_Ok in H as (-> & Htokens) end.
  all: rewrite ?lock_book in *; split_and!; try done.
  all: unfold deposited; chain_books; reflexivity.
Qed.
Lemma validate_withdraw_Ok u x asset env s r s' :
  validate_collateral_ratio_after_withdraw u x asset env s = (Ok r, s') →
  s' = s ∧ ∃ p, b_position (book s) !! u = Some p ∧
  (pos_debt p = 0 ∧ pos_borrow_interest p = 0 ∨
   ∀ ratio, calculate_collateral_ratio (collateral_of (book s) u - x) (pos_debt p) (pos_borrow_interest p)
              (factor_for (book s) asset) = Some ratio →
            required_ratio (book s) ≤ ratio).
Proof.
  intros Hr. split; [by apply readonly_run in Hr; [|apply _]|].
  unfold validate_collateral_ratio_after_withdraw in Hr. run_inv Hr; read_books; checked_facts; subst.
  - eexists. split; [done|]. left. zbool. done.
  - eexists. split; [done|]. right. intros ratio Hratio. zbool. congruence.
  - eexists. split; [done|]. right. intros ratio Hratio. congruence.
Qed.

Lemma withdraw_book u asset x env s w v s' w' :
  withdraw_collateral this token_transfer u asset x env (s, w) = (Ok v, (s', w')) →
  0 < x ∧ x ≤ collateral_of (book s) u ∧ v = collateral_of (book s) u - x ∧
  book s' = withdrawn u asset x (timestamp env) (book s) ∧
  (∃ p, b_position (book s) !! u = Some p ∧
    (pos_debt p = 0 ∧ pos_borrow_interest p = 0 ∨
     ∀ ratio, calculate_collateral_ratio (collateral_of (book s) u - x) (pos_debt p) (pos_borrow_interest p)
                (factor_for (book s) asset) = Some ratio →
              required_ratio (book s) ≤ ratio)) ∧
  match asset with Some t => token_transfer t this u x w = Some (tt, w') | None => w' = w end.
Proof.
  intros Hr. unfold withdraw_collateral in Hr. open_run Hr.
  world_inv Hr; book_facts; checked_facts; zbool; read_books; rewrite ?lock_book in *; subst.
  all: match goal with H : validate_collateral_ratio_after_withdraw _ _ _ _ _ = _ |- _ =>
         apply validate_withdraw_Ok in H as (-> & Hcond) end.
  all: rewrite ?lock_book in *; no_units; split_and!; try done.
  all: unfold withdrawn; chain_books; reflexivity.
Qed.
Lemma sound_locked s x : sound h0 s → sound h0 (s <| ps_lock := x |>).
Proof. intros []. by constructor. Qed.

(** The accrual of a run in a sound state, and what it leaves. *)
Lemma accrue_run {E} (e : E) u p env s q s' :
  sound h0 s → accrue_interest e u p env s = (Ok q, s') →
  q = accrued (timestamp env) p ∧ book s' = book s ∧ sound h0 s'.
Proof.
  intros Hs Hr. split_and!; [by eapply accrue_Ok|by eapply (same_book_run _ _ _ _ _ Hr)|].
  by eapply (sound_accrue h0 Hh0 e u p env s).
Qed.

Lemma max_borrowable_Ok c d i f r env s m s' :
  calculate_max_borrowable c d i f r env s = (Ok m, s') →
  s' = s ∧ let ceiling := Z.quot (Z.quot (c * f) 10000 * 10000) r in
           m = if d + i <? ceiling then ceiling - (d + i) else 0.
Proof.
  intros Hr. unfold calculate_max_borrowable, factored, scaled_down in Hr. run_inv Hr; checked_facts; subst.
  all: cbv zeta; by rewrite Heqb.
Qed.

Lemma validate_borrow_Ok u x f env s r s' :
  sound h0 s → validate_collateral_ratio_after_borrow u x f env s = (Ok r, s') →
  s' = s ∧ ∃ p, b_position (book s) !! u = Some p.
Proof.
  intros Hs Hr. unfold validate_collateral_ratio_after_borrow, factored, scaled_down in Hr. run_inv Hr; read_books.
  all: match goal with H : effective_collateral _ _ _ = _ |- _ => apply (effective_Ok h0) in H as (-> & _); [|done] end.
  all: split; [done|by eexists].
Qed.

(** The three factors a borrow is limited by, in one. *)
Lemma counted_ceiling b u factor r z flag :
  flag = bool_decide (listed_of b u = []) → z = (if flag then collateral_of b u else listed_value b u) →
  Z.quot (Z.quot (z * (if flag then factor else 10000)) 10000 * 10000) r = Z.quot (counted b u factor * 10000) r.
Proof. intros -> ->. unfold counted. destruct (bool_decide _); [done|]. by rewrite Z.quot_mul. Qed.

Lemma borrow_book u asset x env s w v s' w' :
  sound h0 s → borrow_asset this token_balance token_transfer u asset x env (s, w) = (Ok v, (s', w')) →
  let now := timestamp env in let b := book s in let fee := loan_fee b asset x in
  0 < x ∧ fee < x ∧
  (∃ p, b_position b !! u = Some p ∧ v = owed (accrued now p) + x ∧
    owed (accrued now p) + x ≤ Z.quot (counted b u (factor_for b asset) * 10000) (required_ratio b) ∧
    book s' = borrowed u asset x fee now (accrued now p) b) ∧
  match asset with
  | Some t => ∃ have w1, token_balance t this w = Some (have, w1) ∧ x ≤ have ∧
      token_transfer t this u (x - fee) w1 = Some (tt, w')
  | None => w' = w
  end.
Proof.
  intros Hs Hr. unfold borrow_asset in Hr. open_run Hr. apply (sound_locked _ true) in Hs.
  world_inv Hr.
  all: match goal with H : accrue_interest _ _ _ _ _ = _ |- _ =>
         apply accrue_run in H as (-> & Hb & Hs'); [|done] end.
  all: match goal with H : effective_collateral _ _ _ = _ |- _ =>
         apply (effective_Ok h0) in H as (-> & Hflag & Hz); [|done] end.
  all: match goal with H : calculate_max_borrowable _ _ _ _ _ _ _ = _ |- _ =>
         apply max_borrowable_Ok in H as (-> & Hmax) end.
  all: match goal with H : validate_collateral_ratio_after_borrow _ _ _ _ _ = _ |- _ =>
         apply validate_borrow_Ok in H as (-> & p' & Hp'); [|done] end.
  all: book_facts; checked_facts; read_books; rewrite ?Hb, ?lock_book in *; rewrite Hp' in *.
  all: cbv zeta in Hmax; rewrite (counted_ceiling _ _ _ _ _ _ Hflag Hz) in Hmax; cbn [default id from_option] in *.
  all: match goal with |- context [loan_fee ?b ?a ?y] =>
         match goal with H : ?f = Z.quot ?g 10000, H' : ?g = y * _ |- _ =>
           rewrite H' in H; change (f = loan_fee b a y) in H; rewrite <- H in * end end.
  all: zbool; no_units; cbv zeta; split_and!; try done; try lia.
  all: try (exists p'; split_and!; [done|by subst; unfold owed; cbn; lia|..]).
  all: try match goal with |- owed ?q + ?y ≤ ?c =>
    match type of Hmax with ?m = _ => assert (Hm : m = if owed q <? c then c - owed q else 0) by exact Hmax end;
    destruct (owed q <? c) eqn:?; zbool; lia end.
  all: try match goal with H : ?g = _ - _ |- ∃ _ _, _ => subst g; eauto 10 end.
  all: unfold borrowed, fee_credited; chain_books; subst; fee_case; reflexivity.
Qed.
Lemma native_unset env s a s' : sound h0 s → get_native_asset_address env s = (Ok a, s') → False.
Proof.
  intros Hs Hr. unfold get_native_asset_address, loan in Hr. run_inv Hr.
  pose proof (so_native _ _ Hs). congruence.
Qed.

Lemma min_if a b : (if a <=? b then a else b) = Z.min b a.
Proof. destruct (a <=? b) eqn:?; zbool; lia. Qed.

Lemma min_lt a b : (if a <? b then a else b) = Z.min a b.
Proof. destruct (a <? b) eqn:?; zbool; lia. Qed.

(** One collection of tokens. *)
Definition collected (t from : Address) (x : Z) (w w' : W) : Prop :=
  ∃ have w1, token_balance t from w = Some (have, w1) ∧ x ≤ have ∧
    token_transfer_from t this from this x w1 = Some (tt, w').

Lemma repay_book u asset x env s w r i pr s' w' :
  sound h0 s → repay_debt this token_balance token_transfer_from u asset x env (s, w) = (Ok (r, i, pr), (s', w')) →
  let now := timestamp env in let b := book s in
  0 < x ∧ ∃ t p w1, asset = Some t ∧ b_position b !! u = Some p ∧ (pos_debt p ≠ 0 ∨ pos_borrow_interest p ≠ 0) ∧
  let q := accrued now p in let amount := Z.min x (owed q) in
  i = interest_part q amount ∧ pr = amount - i ∧
  book s' = repaid u (Some t) amount now q b ∧
  collected t u amount w w1 ∧ collected t u amount w1 w'.
Proof.
  intros Hs Hr. unfold repay_debt in Hr. open_run Hr. apply (sound_locked _ true) in Hs.
  world_inv Hr.
  all: try match goal with H : get_native_asset_address _ _ = _ |- _ => by apply native_unset in H end.
  all: match goal with H : accrue_interest _ _ _ _ _ = _ |- _ =>
         apply accrue_run in H as (-> & Hb & Hs'); [|done] end.
  all: repeat match goal with H : collect _ _ _ _ _ _ _ _ _ = _ |- _ => apply collect_Ok in H as (-> & ?) end.
  all: book_facts; checked_facts; read_books; rewrite ?Hb, ?lock_book in *.
  all: match goal with H : ?v = pos_debt ?q + pos_borrow_interest ?q |- _ =>
         change (v = owed q) in H; subst v; rewrite !min_if in * end.
  all: zbool; no_units; cbv zeta; split; [done|]; do 3 eexists; split_and!; try done.
  all: try match goal with H : _ ∨ _ |- _ ∨ _ => destruct H; zbool; by auto end.
  all: unfold repaid, paid_twice, fee_credited; chain_books; subst; fee_case; reflexivity.
Qed.
(** *** Liquidation *)

Lemma price_of_Ok asset env s v s' :
  sound h0 s → price_of asset env s = (Ok v, s') → v = unit_price asset ∧ s' = s.
Proof.
  intros Hs Hr. destruct asset as [a|]; [|by injection Hr].
  cbn in Hr. rewrite (oracle_price_one h0) in Hr by done. by injection Hr.
Qed.

Lemma penalty_Ok c d env s v s' r :
  get_risk_params (ps_hello s) = Some r → calculate_dynamic_penalty c d env s = (Ok v, s') →
  v ≤ Z.max MAX_PENALTY_BPS (rp_liquidation_incentive r) ∧ s' = s.
Proof.
  intros Hp Hr. unfold calculate_dynamic_penalty in Hr. run_inv Hr; rewrite Hp in *; simplify_eq; split; try done; lia.
Qed.

Lemma can_be_liquidated_Ok c d env s v s' :
  can_be_liquidated c d env s = (Ok v, s') →
  ∃ r, get_risk_params s = Some r ∧
       v = (negb (d =? 0) && (Z.quot (c * 10000) d <? rp_liquidation_threshold r)).
Proof.
  intros Hr. unfold can_be_liquidated, the_risk_params, collateral_ratio in Hr. run_inv Hr.
  all: eexists; split; [done|]; checked_facts; subst; by rewrite ?Heqb.
Qed.

Lemma max_liquidatable_Ok d env s v s' r :
  get_risk_params s = Some r → get_max_liquidatable_amount d env s = (Ok v, s') →
  v = Z.quot (d * rp_close_factor r) 10000.
Proof.
  intros Hp Hr. unfold get_max_liquidatable_amount, the_risk_params, share_of in Hr. run_inv Hr.
  rewrite Hp in *. simplify_eq. checked_facts. by subst.
Qed.
Lemma convert_Ok x f t env s v s' : convert x f t env s = (Ok v, s') → v = Z.quot (x * f) t ∧ s' = s.
Proof. intros Hr. unfold convert in Hr. run_inv Hr. checked_facts. by subst. Qed.

Lemma value_for_check_Ok u da ca env s v s' :
  sound h0 s → value_for_check u da ca (seizable_of (book s) u ca) env s = (Ok v, s') →
  v = judged_value (book s) u da ca ∧ s' = s.
Proof.
  intros Hs Hr. unfold value_for_check, has_multi_asset_collateral in Hr. unfold judged_value, converted.
  apply bind_Ok in Hr as (multi & s1 & Hm & Hr). apply gets_Ok in Hm as [-> ->]. read_books.
  destruct (bool_decide _); cbn in Hr.
  - unfold is_native in *. rewrite (andb_comm (bool_decide (ca = None))). destruct (_ && _).
    { by apply ret_Ok in Hr. }
    apply bind_Ok in Hr as (dp & s1 & Hd & Hr). apply price_of_Ok in Hd as [-> ->]; [|done].
    apply bind_Ok in Hr as (cp & s1 & Hc & Hr). apply price_of_Ok in Hc as [-> ->]; [|done].
    unfold calculate_collateral_value in Hr. run_inv Hr. by apply convert_Ok in Hrun0.
  - apply map_err_Ok in Hr. unfold calculate_total_collateral_value in Hr. run_inv Hr.
    by apply (sum_collateral_value_Ok h0) in Hrun0 as [-> ->].
Qed.

Lemma debt_in_collateral_Ok da ca x env s v s' :
  sound h0 s → debt_in_collateral da ca x env s = (Ok v, s') → v = converted x da ca ∧ s' = s.
Proof.
  intros Hs Hr. unfold debt_in_collateral in Hr. unfold converted. destruct (is_native da ca).
  { by apply ret_Ok in Hr. }
  apply bind_Ok in Hr as (dp & s1 & Hd & Hr). apply price_of_Ok in Hd as [-> ->]; [|done].
  apply bind_Ok in Hr as (cp & s1 & Hc & Hr). apply price_of_Ok in Hc as [-> ->]; [|done].
  by apply convert_Ok in Hr.
Qed.

Lemma seizable_book s u ca : seizable s u ca = seizable_of (book s) u ca.
Proof.
  destruct ca; [|done]. unfold seizable, seizable_of, has_multi_asset_collateral. read_books.
  by destruct (bool_decide _).
Qed.

Lemma liquidation_terms_Ok u da ca x p env s t s' :
  sound h0 s → liquidation_terms u da ca x p env s = (Ok t, s') →
  s' = s ∧ ∃ r, liquidation_due (book s) u da ca x p r t.
Proof.
  intros Hs Hr. unfold liquidation_terms in Hr. run_inv Hr. rewrite seizable_book in *.
  match goal with H : value_for_check _ _ _ _ _ _ = _ |- _ => apply value_for_check_Ok in H as [-> ->]; [|done] end.
  repeat match goal with H : within _ _ _ = _ |- _ =>
    pose proof (readonly_run _ _ _ _ _ H); subst; apply within_Ok in H as (? & H & _) end.
  cbn [part HState_part] in *.
  match goal with H : can_be_liquidated _ _ _ _ = _ |- _ => apply can_be_liquidated_Ok in H as (r & Hp & Hcan) end.
  match goal with H : get_max_liquidatable_amount _ _ _ = _ |- _ => apply (max_liquidatable_Ok _ _ _ _ _ r) in H as Hclose; [|done] end.
  match goal with H : calculate_dynamic_penalty _ _ _ _ = _ |- _ => apply (penalty_Ok _ _ _ _ _ _ r) in H as [Hbonus ->]; [|done] end.
  match goal with H : debt_in_collateral _ _ _ _ _ = _ |- _ => apply debt_in_collateral_Ok in H as [-> ->]; [|done] end.
  checked_facts; zbool. split; [done|]. exists r. change (pos_debt p + pos_borrow_interest p) with (owed p) in *.
  rewrite !min_lt, (Z.min_comm _ x) in *. read_books. subst.
  match goal with H : _ && _ = true |- _ => apply andb_true_iff in H as [? ?]; zbool end.
  constructor; try done. eexists. split_and!; [exact Hbonus|done|apply Z.min_comm].
Qed.
Lemma settle_book l u da ca p t now env s q s' :
  settle_liquidation l u da ca p t now env s = (Ok q, s') → book s' = liquidated u ca t now p (book s).
Proof.
  intros Hr. unfold settle_liquidation, has_multi_asset_collateral, update_liquidation_analytics in Hr.
  run_inv Hr; book_facts; checked_facts; read_books; zbool; subst; chain_books; unfold liquidated, fee_credited, minus;
    fee_case; try reflexivity.
  all: match goal with H : _ = negb (bool_decide (?k = [])) |- _ =>
         change k with (listed_of (book s) u) in H; destruct (bool_decide _); try done end.
Qed.

Lemma allowed_run {E} l env s v s' :
  sound h0 s → recover (E2 := E) true (is_liquidation_allowed l) env s = (Ok v, s') →
  book s' = book s ∧ sound h0 s'.
Proof.
  intros Hs Hr. split; [by apply same_book_run in Hr; [|apply _]|].
  eapply preserves_recover; [apply sound_allowed|exact Hs|exact Hr].
Qed.

Lemma liquidate_book l u da ca x env s w r s' w' :
  sound h0 s →
  liquidate this token_balance token_transfer token_transfer_from l u da ca x env (s, w) = (Ok r, (s', w')) →
  let now := timestamp env in let b := book s in
  0 < x ∧ ∃ p params t, b_position b !! u = Some p ∧
  liquidation_due b u da ca x (accrued now p) params t ∧
  r = (lt_debt t, lt_seized t, lt_incentive t) ∧ book s' = liquidated u ca t now (accrued now p) b ∧
  ∃ w1, match da with Some a => collected a l (lt_debt t) w w1 | None => w1 = w end ∧
  match ca with
  | Some a => ∃ have w2, token_balance a this w1 = Some (have, w2) ∧ lt_seized t ≤ have ∧
      token_transfer a this l (lt_to_liquidator t) w2 = Some (tt, w')
  | None => w' = w1
  end.
Proof.
  intros Hs Hr. unfold liquidate, liquidation_transfers in Hr. open_run Hr. apply (sound_locked _ true) in Hs.
  world_inv Hr; no_units.
  all: repeat match goal with H : within _ _ _ = _ |- _ => apply readonly_run in H as ->; [|apply _] end.
  all: match goal with H : recover true _ _ _ = _ |- _ => apply allowed_run in H as [Hb Hs1]; [|done] end.
  all: match goal with H : accrue_interest _ _ _ _ _ = _ |- _ => apply accrue_run in H as (-> & Hb2 & Hs2); [|done] end.
  all: match goal with H : liquidation_terms _ _ _ _ _ _ _ = _ |- _ =>
         apply liquidation_terms_Ok in H as (-> & params & Hdue); [|done] end.
  all: repeat match goal with H : collect _ _ _ _ _ _ _ _ _ = _ |- _ => apply collect_Ok in H as (-> & ?) end.
  all: match goal with H : settle_liquidation _ _ _ _ _ _ _ _ _ = _ |- _ => apply settle_book in H end.
  all: book_facts; read_books; rewrite ?Hb2, ?Hb, ?lock_book in *; zbool; split; [done|].
  all: eexists _, params, _; split_and!; [eassumption|eassumption|done|by chain_books|].
  all: eauto 10.
Qed.
End outcomes.

Section outcome.
Context {W : Type} (this : Address)
        (token_balance : Address → Address → W → option (Z * W))
        (token_transfer : Address → Address → Address → Z → W → option (unit * W))
        (token_transfer_from : Address → Address → Address → Address → Z → W → option (unit * W)).

Abbreviation flash := (execute_flash_loan this token_balance token_transfer token_transfer_from).

Lemma flash_guarded_Ok {A} u a (m : M (PState * W) FlashLoanError A) env s w v s' w' :
  flash_guarded u a m env (s, w) = (Ok v, (s', w')) →
  (u, a) ∉ fkFlashLoanGuard (ps_flash s) ∧ ∃ s1,
    m env (s <| ps_flash := (ps_flash s) <| fkFlashLoanGuard := (fkFlashLoanGuard (ps_flash s) ∪ {[(u, a)]}) |> |>, w)
      = (Ok v, (s1, w')) ∧
    s' = s1 <| ps_flash := (ps_flash s1) <| fkFlashLoanGuard := (fkFlashLoanGuard (ps_flash s1) ∖ {[(u, a)]}) |> |>.
Proof.
  unfold flash_guarded. cbv zeta. case_bool_decide as Hg; [done|].
  destruct (m env _) as [r1 [s1 w1]] eqn:Hr. intros [= -> <- <-]. split; [done|]. by eexists.
Qed.

(** The tokens move out, the callback runs, and loan and fee are pulled back. *)
Definition flash_funds (f : Address → Address → Z → Z → W → option (unit * W)) (u a : Address) (x fee : Z) (cb : Address)
    (w w' : W) : Prop :=
  ∃ have w0 w1 w2, token_balance a this w = Some (have, w0) ∧ x ≤ have ∧
    token_transfer a this cb x w0 = Some (tt, w1) ∧ f u a x fee w1 = Some (tt, w2) ∧
    token_transfer_from a this cb this (x + fee) w2 = Some (tt, w').

Lemma credit_flash asset fee env s (r : unit) s' :
  credit_reserve asset fee FE_Overflow env s = (Ok r, s') → (0 <? fee) = true →
  book s' = fee_credited asset fee (book s) ∧ ps_flash s' = ps_flash s.
Proof.
  intros Hr Hfee. pose proof (credit_reserve_book _ _ _ _ _ _ _ Hr) as ->. unfold fee_credited. rewrite Hfee.
  split; [done|]. unfold credit_reserve, set_protocol_reserve, on_loan in Hr. by run_inv Hr.
Qed.

Lemma no_fee asset fee b : (0 <? fee) = false → fee_credited asset fee b = b.
Proof. intros Hfee. unfold fee_credited. rewrite Hfee. by destruct b. Qed.

(** The loan and the guard come and go. *)
Lemma flash_closed (fs : FlashStore) (k : Address * Address) r :
  k ∉ fkFlashLoanGuard fs →
  mkFlashStore (fkFlashLoanConfig fs) (delete k (<[k := r]> (fkActiveFlashLoan fs)))
    ((fkFlashLoanGuard fs ∪ {[k]}) ∖ {[k]}) =
  mkFlashStore (fkFlashLoanConfig fs) (delete k (fkActiveFlashLoan fs)) (fkFlashLoanGuard fs).
Proof. intros Hk. f_equal; [by rewrite delete_insert_eq|]. apply leibniz_equiv. set_solver. Qed.

Lemma hello_flash_loan_Ok f u a x cb env s w v s' w' :
  flash f u a x cb env (s, w) = (Ok v, (s', w')) →
  ∃ fee, 0 < x ∧ fl_min_amount (get_flash_loan_config s) ≤ x ≤ fl_max_amount (get_flash_loan_config s) ∧
    switched_off s "pause_flash_loan" = false ∧ fee = Z.quot (x * fl_fee_bps (get_flash_loan_config s)) 10000 ∧
    v = x + fee ∧ (u, a) ∉ fkFlashLoanGuard (ps_flash s) ∧
    book s' = fee_credited (Some a) fee (book s) ∧
    ps_flash s' = mkFlashStore (fkFlashLoanConfig (ps_flash s)) (delete (u, a) (fkActiveFlashLoan (ps_flash s)))
                    (fkFlashLoanGuard (ps_flash s)) ∧
    flash_funds f u a x fee cb w w'.
Proof.
  unfold execute_flash_loan, calculate_flash_loan_fee. intros Hr. world_inv Hr. zbool.
  match goal with H : flash_guarded _ _ _ _ _ = _ |- _ => apply flash_guarded_Ok in H as (Hguard & s1 & Hloan & ->) end.
  unfold record_flash_loan, clear_flash_loan, on_flash in Hloan. world_inv Hloan.
  all: unfold emit in *; repeat match goal with H : modify _ _ _ = _ |- _ => apply modify_Ok in H; subst end.
  all: repeat match goal with v : unit |- _ => destruct v end.
  all: match goal with H0 : checked_mul _ _ = Some _, H1 : checked_div _ _ = Some _, H2 : checked_add _ _ = Some _ |- _ =>
    apply checked_mul_Some in H0 as [-> _]; apply checked_div_Some in H1 as (-> & _ & _);
    apply checked_add_Some in H2 as [-> _] end.
  all: eexists; split; [done|]; split; [done|]; split; [done|]; split; [reflexivity|]; split; [done|]; split; [done|].
  all: split; [|split; [|by eexists _, _, _, _]].
  1,2: match goal with H : credit_reserve _ _ _ _ _ = _ |- _ => apply credit_flash in H as [Hb Hf]; [|done] end.
  - etransitivity; [exact Hb|done].
  - cbn in Hf |- *. rewrite Hf. by apply (flash_closed (ps_flash s)).
  - by rewrite no_fee.
  - by apply (flash_closed (ps_flash s)).
Qed.
End outcome.
