(* ===== verification/PositionRefinement.v ===== *)
(** * PositionRefinement: the contract implements the rules of positions

    Every entry point of the hello-world contract, run in a reachable state,
    leaves the book as it is or takes one step of [book_step]. *)

From S2P Require Import Prelude.
From S2P Require Import Host.
From S2P Require Import HelloTypes.
From S2P Require Import HelloParams.
From S2P Require Import Governance.
From S2P Require Import HelloCalls.
From S2P Require Import ParamSafety.
From S2P Require Import PositionTypes.
From S2P Require Import Oracle.
From S2P Require Import Limits.
From S2P Require Import Reserves.
From S2P Require Import Positions.
From S2P Require Import PositionCalls.
From S2P Require Import PositionSafety.
From S2P Require Import Books.
From S2P Require Import PositionOutcomes.
From S2P Require Import HelloFlash.

(** ** The administration *)

(** The administration does not touch the totals. *)
Definition keeps_totals {E A} (m : M HState E A) : Prop :=
  ∀ x, preserves (λ s, dkProtocolAnalytics (hs_rate s) = x) m.

Ltac keep_totals :=
  intros x; open_ops;
  unfold set_risk_params, set_config, update_interest_rate_config, set_rate_config, set_pause_switch,
    set_emergency_pause, publish, on_risk, on_rate;
  preserve; try assumption.

Lemma proposal_type_totals t : keeps_totals (execute_proposal_type t).
Proof. keep_totals. Qed.

Lemma dispatch_totals c env s :
  is_entry_point c = true → dkProtocolAnalytics (hs_rate (hello_dispatch c env s)) = dkProtocolAnalytics (hs_rate s).
Proof.
  intros Hc. destruct c; try discriminate Hc; simpl.
  all: apply (invoke_keeps (λ s', dkProtocolAnalytics (hs_rate s') = dkProtocolAnalytics (hs_rate s))); [|done].
  all: match goal with |- preserves _ ?m => enough (H : keeps_totals m) by apply H end.
  all: try solve [keep_totals].
  all: intros x; unfold execute_proposal, execute_timelock_operation, the_operation, set_operation, the_config,
    the_proposal, set_proposal, plus_time, on_gov, on_timelock, publish.
  all: preserve; try assumption; apply proposal_type_totals.
Qed.

Lemma admin_call_book c env s :
  hello_reachable (ps_hello s) →
  ∃ risk, (∀ r, risk = Some r → valid_risk r) ∧ book (admin_call c env s) = (book s) <| b_risk := risk |> <| b_params := b_params (book s) |>
                                              <| b_fees := b_fees (book s) |>.
Proof.
  intros Hs. unfold admin_call. destruct (is_entry_point c) eqn:Hc.
  - exists (get_risk_params (hello_dispatch c env (ps_hello s))).
    split; [by apply ci_risk, reachable_core, hello_step|]. unfold book, protocol_analytics. cbn.
    by rewrite dispatch_totals.
  - exists (b_risk (book s)). split; [by apply ci_risk, reachable_core|done].
Qed.

(** ** Operations beside positions *)

Definition booked (b : Book) (s : PState) : Prop := book s = b.
#[export] Hint Extern 1 (preserves (booked _) _) => solve [apply same_hint, _] : keeps.

#[export] Instance same_consume c u op p : SameBook (consume c u op p).
Proof. unfold consume, take_token, on_limit. same. Qed.
#[export] Instance same_intent u op n e : SameBook (require_intent_auth u op n e).
Proof. unfold require_intent_auth, set_next_nonce, on_report. same. Qed.
#[export] Instance same_signal o op a x f : SameBook (record_ordering_signal o op a x f).
Proof. unfold record_ordering_signal, on_mev. same. Qed.
#[export] Instance same_remove i : SameBook (remove_commit i).
Proof. unfold remove_commit, on_mev. same. Qed.
#[export] Instance same_reveal_borrow u i : SameBook (reveal_borrow u i).
Proof. unfold reveal_borrow. same. Qed.
#[export] Instance same_reveal_withdraw u i : SameBook (reveal_withdraw u i).
Proof. unfold reveal_withdraw. same. Qed.
#[export] Instance same_reveal_liquidation u i : SameBook (reveal_liquidation u i).
Proof. unfold reveal_liquidation. same. Qed.

Section refinement.
Context (h0 : HState) (Hh0 : hello_reachable h0).
Context {W : Type} (this : Address)
        (token_balance : Address → Address → W → option (Z * W))
        (token_transfer : Address → Address → Address → Z → W → option (unit * W))
        (token_transfer_from : Address → Address → Address → Address → Z → W → option (unit * W))
        `{!TokenLaws token_transfer token_transfer_from}.
Implicit Types (s : PState * W).

(** A run leads from the book to one step of the specification, or nowhere. *)
Definition simulated {E A} (m : M (PState * W) E A) : Prop := ∀ env s a s',
  sound h0 s.1 → m env s = (Ok a, s') → book s'.1 = book s.1 ∨ book_step (book s.1) (book s'.1).

Lemma simulated_ran {E A} (m : M (PState * W) E A) env s :
  simulated m → sound h0 s.1 →
  book (ran m env s).1 = book s.1 ∨ book_step (book s.1) (book (ran m env s).1).
Proof.
  intros Hm Hs. unfold ran, invoke. destruct (m env s) as [[a|e|] s'] eqn:Hr; [|by left..].
  by apply (Hm env s a s').
Qed.

Lemma simulated_same {E A} (m : M PState E A) : SameBook m → simulated (local (W := W) m).
Proof.
  intros Hm env [s w] a [s' w'] _ Hr. apply local_Ok in Hr as [Hr _]. left. cbn. by apply same_book_run in Hr.
Qed.

Lemma simulated_map_err {E1 E2 A} (f : E1 → E2) (m : M (PState * W) E1 A) : simulated m → simulated (map_err f m).
Proof. intros Hm env s a s' Hs Hr. apply map_err_Ok in Hr. by apply (Hm env s a). Qed.

(** A first part that leaves the book alone. *)
Lemma simulated_after {E A B} (m : M (PState * W) E A) (k : A → M (PState * W) E B) :
  (∀ env s r s', sound h0 s.1 → m env s = (Ok r, s') → book s'.1 = book s.1 ∧ sound h0 s'.1) →
  (∀ a, simulated (k a)) → simulated (m ≫= k).
Proof.
  intros Hm Hk env s b s' Hs Hr. apply bind_Ok in Hr as (a & s1 & H1 & H2).
  destruct (Hm _ _ _ _ Hs H1) as [<- Hs1]. by apply (Hk a env s1 b s').
Qed.

Lemma local_quiet {E A} (m : M PState E A) : SameBook m → preserves (sound h0) m →
  ∀ env s r s', sound h0 s.1 → local m env s = (Ok r, s') → book s'.1 = book s.1 ∧ sound h0 s'.1.
Proof.
  intros Hb Hm env [s w] r [s' w'] Hs Hr. apply local_Ok in Hr as [Hr _]. cbn in *.
  split; [by apply same_book_run in Hr|]. by apply (Hm env s (Ok r) s').
Qed.

Lemma simulated_deposit u a x : simulated (deposit_collateral this token_balance token_transfer_from u a x).
Proof.
  intros env [s w] v [s' w'] _ Hr. right. apply deposit_book in Hr as (Hx & _ & Hb & _). cbn. rewrite Hb.
  by apply step_deposit.
Qed.

Lemma simulated_withdraw u a x : simulated (withdraw_collateral this token_transfer u a x).
Proof.
  intros env [s w] v [s' w'] _ Hr. right.
  apply withdraw_book in Hr as (Hx & Hle & _ & Hb & (p & Hp & Hcond) & _). cbn. rewrite Hb.
  by eapply step_withdraw.
Qed.

Lemma simulated_borrow u a x : simulated (borrow_asset this token_balance token_transfer u a x).
Proof.
  intros env [s w] v [s' w'] Hs Hr. right.
  apply (borrow_book h0 Hh0) in Hr as (Hx & Hfee & (p & Hp & _ & Hle & Hb) & _); [|done]. cbn. rewrite Hb.
  by eapply step_borrow.
Qed.

Lemma simulated_repay u a x : simulated (repay_debt this token_balance token_transfer_from u a x).
Proof.
  intros env [s w] [[v i] pr] [s' w'] Hs Hr. right.
  apply (repay_book h0 Hh0) in Hr as (Hx & t & p & w1 & -> & Hp & Hd & _ & _ & Hb & Hpaid & _); [|done].
  destruct Hpaid as (have & w2 & _ & _ & Hpaid). apply transfer_from_nonneg in Hpaid. cbn. rewrite Hb.
  by eapply step_repay.
Qed.

Lemma simulated_liquidate l u da ca x :
  simulated (liquidate this token_balance token_transfer token_transfer_from l u da ca x).
Proof.
  intros env [s w] r [s' w'] Hs Hr. right.
  apply (liquidate_book h0 Hh0) in Hr as (Hx & p & q & t & Hp & Hdue & _ & Hb & w1 & _ & Hpaid); [|done].
  cbn. rewrite Hb. eapply step_liquidate; [done..|]. destruct ca; [right|by left].
  destruct Hpaid as (have & w2 & _ & _ & Hpaid). by apply transfer_nonneg in Hpaid.
Qed.
(** *** Entry points *)

#[local] Hint Resolve sound_signal sound_remove : keeps.

Lemma sound_reveals u i :
  preserves (sound h0) (reveal_borrow u i) ∧ preserves (sound h0) (reveal_withdraw u i) ∧
  preserves (sound h0) (reveal_liquidation u i).
Proof. unfold reveal_borrow, reveal_withdraw, reveal_liquidation, load_commit. split_and!; keep. Qed.

Lemma quiet_map_err {E1 E2 A} (f : E1 → E2) (m : M PState E1 A) : SameBook m → preserves (sound h0) m →
  ∀ env s r s', sound h0 s.1 → map_err f (local m) env s = (Ok r, s') → book s'.1 = book s.1 ∧ sound h0 s'.1.
Proof. intros Hb Hm env s r s' Hs Hr. apply map_err_Ok in Hr. by eapply local_quiet. Qed.

Lemma quiet_auth {E} a env s r s' :
  sound h0 s.1 → require_auth (S := PState * W) (E := E) a env s = (Ok r, s') → book s'.1 = book s.1 ∧ sound h0 s'.1.
Proof. intros Hs Hr. by apply require_auth_Ok in Hr as [_ ->]. Qed.

Lemma quiet_limited c u op a env s r s' :
  sound h0 s.1 → limited_call this c u op a env s = (Ok r, s') → book s'.1 = book s.1 ∧ sound h0 s'.1.
Proof. apply quiet_map_err; [apply _|apply sound_consume]. Qed.

Lemma quiet_intent u op n e env s r s' :
  sound h0 s.1 → intent_auth u op n e env s = (Ok r, s') → book s'.1 = book s.1 ∧ sound h0 s'.1.
Proof. apply quiet_map_err; [apply _|apply sound_intent]. Qed.

Lemma simulated_keeps {E A} (m : M (PState * W) E A) : (∀ b, keeps (booked b) m) → simulated m.
Proof. intros Hm env s a s' _ Hr. left. by apply (Hm (book s.1) env s (Ok a) s'). Qed.

Lemma simulated_claim a t r x : simulated (claim_reserves this token_transfer a t r x).
Proof.
  intros env [s w] v [s' w'] _ Hr. right. unfold claim_reserves, treasury_admin, admin_or in Hr.
  world_inv Hr; book_facts; checked_facts; zbool; subst; cbn; chain_books.
  all: match goal with H : within _ _ _ = _ |- _ => apply readonly_run in H as ->; [|apply _] end.
  all: by apply (step_claim (book s)).
Qed.

Lemma simulated_flash f u a x cb :
  simulated (execute_flash_loan this token_balance token_transfer token_transfer_from f u a x cb).
Proof.
  intros env [s w] v [s' w'] _ Hr.
  apply hello_flash_loan_Ok in Hr as (fee & _ & _ & _ & _ & _ & _ & Hb & _). cbn.
  rewrite Hb. unfold fee_credited. destruct (0 <? fee) eqn:Hfee; [zbool; right; by apply (step_flash_fee (book s))|by left].
Qed.

Lemma sound_valid p : sound h0 p → ∀ r, b_risk (book p) = Some r → valid_risk r.
Proof. intros Hs. apply ci_risk, reachable_core. by apply (sound_reachable h0). Qed.

Lemma simulated_fees a c : simulated (local (set_fee_config a c)).
Proof.
  intros env [s w] v [s' w'] Hs Hr. right. unfold set_fee_config, treasury_admin, admin_or, on_reserve in Hr.
  world_inv Hr. book_facts. cbn. match goal with H : within _ _ _ = _ |- _ => apply readonly_run in H as ->; [|apply _] end.
  chain_books. apply (step_settings (book s) (b_risk (book s)) (b_params (book s)) c), (sound_valid s), Hs.
Qed.

Lemma simulated_asset_config a p : simulated (update_asset_config a p).
Proof.
  intros env [s w] v [s' w'] Hs Hr. right. unfold update_asset_config, to_lending, set_asset_params, on_loan in Hr.
  world_inv Hr. cbn. apply (step_settings (book s) (b_risk (book s)) (<[a := p]> (b_params (book s))) (b_fees (book s))), (sound_valid s), Hs.
Qed.

Lemma simulated_withdraw_reserve a t x : simulated (withdraw_reserve_funds this token_transfer a t x).
Proof. apply simulated_keeps. intros b. unfold withdraw_reserve_funds, reserve_admin, set_reserve_balance, on_reserve. keep; done. Qed.

Lemma simulated_repay_flash u a x : simulated (repay_flash_loan this token_transfer_from u a x).
Proof. apply simulated_keeps. intros b. unfold repay_flash_loan. keep; done. Qed.

#[local] Hint Resolve simulated_deposit simulated_withdraw simulated_borrow simulated_repay simulated_liquidate
  simulated_claim simulated_flash simulated_repay_flash simulated_fees simulated_asset_config simulated_withdraw_reserve : keeps.

Ltac open_entries :=
  unfold deposit_collateral_entry, borrow_asset_entry, borrow_asset_intent, repay_debt_entry, withdraw_collateral_entry,
    liquidate_entry, liquidate_intent, reveal_borrow_protected, reveal_withdraw_protected, reveal_liquidation_protected,
    to_lending.

Ltac sim_step :=
  first
    [ solve [auto 2 with keeps nocore]
    | apply simulated_map_err
    | apply simulated_after;
        [first [apply quiet_auth | apply quiet_limited | apply quiet_intent
               | apply quiet_map_err; [apply _|apply (sound_reveals _ _)]]
        |let r := fresh "r" in intros r; repeat match type of r with (_ * _)%type => destruct r as [r ?] end] ].

(** Every entry point of the contract, from a sound state. *)
Lemma call_simulated c env s : sound h0 s.1 →
  let s' := position_call this token_balance token_transfer token_transfer_from c env s in
  book s'.1 = book s.1 ∨ book_step (book s.1) (book s'.1).
Proof.
  intros Hs. destruct c; cbn [position_call].
  1: { right. destruct (admin_call_book c env s.1) as (risk & Hv & Hb); [by apply (sound_reachable h0)|].
       cbn. rewrite Hb. by apply step_settings. }
  1: by left.
  all: apply simulated_ran; [|done].
  all: first [solve [auto 2 with keeps nocore]|apply simulated_same; open_calls; unfold record_reserve_deploy_to_amm, set_reserve_balance, reserve_admin, on_reserve; same|idtac].
  all: open_entries; repeat sim_step.
Qed.
End refinement.
