(* ===== verification/PositionTheorems.v ===== *)
(** * PositionTheorems: collateral and debt in every reachable state

    What the operations on positions do to collateral, debts and tokens,
    whatever happened before; the theorems rest on [PositionRefinement].
    [PositionRuns] runs the contract over a concrete world of tokens. *)

From S2P Require Import Prelude.
From S2P Require Import Host.
From S2P Require Import HelloTypes.
From S2P Require Import HelloParams.
From S2P Require Import HelloCalls.
From S2P Require Import ParamSafety.
From S2P Require Import PositionTypes.
From S2P Require Import Limits.
From S2P Require Import Reserves.
From S2P Require Import Positions.
From S2P Require Import PositionCalls.
From S2P Require Import PositionSafety.
From S2P Require Import Books.
From S2P Require Import PositionOutcomes.
From S2P Require Import PositionRefinement.

Section theorems.
Context {W : Type} (this : Address)
        (token_balance : Address → Address → W → option (Z * W))
        (token_transfer : Address → Address → Address → Z → W → option (unit * W))
        (token_transfer_from : Address → Address → Address → Address → Z → W → option (unit * W))
        `{!TokenLaws token_transfer token_transfer_from}.

Abbreviation reachable := (protocol_reachable this token_balance token_transfer token_transfer_from).
Abbreviation step := (position_call this token_balance token_transfer token_transfer_from).

Lemma reached_sound s : reachable s → sound empty_hello s.1.
Proof. intros Hs. by eapply sound_reached. Qed.

Lemma step_simulated c env s : reachable s →
  book (step c env s).1 = book s.1 ∨ book_step (book s.1) (book (step c env s).1).
Proof. intros Hs. eapply (call_simulated empty_hello hello_empty); [done|]. by apply reached_sound. Qed.

Lemma reached_book s : reachable s → rtc book_step (book empty_protocol) (book s.1).
Proof.
  induction 1 as [w|c env s Hs IH]; [done|].
  destruct (step_simulated c env s Hs) as [->|Hstep]; [done|]. by eapply rtc_r.
Qed.

Lemma empty_book_ok : book_ok (book empty_protocol).
Proof. split; [done|done|]. by intros user _. Qed.

Lemma reached_ok s : reachable s → book_ok (book s.1).
Proof.
  intros Hs. apply reached_book in Hs. revert Hs. generalize (book s.1). intros b.
  apply rtc_ind_r; [apply empty_book_ok|]. intros ? ? _ ? ?. by eapply book_step_ok.
Qed.

(** C5: every entry point of the hello-world contract, in every reachable state,
    leaves collateral, debts, totals and reserve as they are or takes one step
    of the rules of positions; so whatever is reached is reached by those rules. *)
Theorem contract_refines_rules c env s :
  reachable s →
  (book (step c env s).1 = book s.1 ∨ book_step (book s.1) (book (step c env s).1)) ∧
  rtc book_step (book empty_protocol) (book s.1).
Proof. intros Hs. split; [by apply step_simulated|by apply reached_book]. Qed.

(** C13: in every reachable state the collateral of a position is the balance of
    its user, no position has interest, and a user without a position has
    neither collateral nor listed assets. *)
Theorem position_records_agree s user :
  reachable s →
  match get_position s.1 user with
  | Some p => pos_collateral p = get_collateral s.1 user ∧ pos_borrow_interest p = 0
  | None => get_collateral s.1 user = 0 ∧ get_user_asset_list s.1 user = []
  end.
Proof.
  intros Hs. pose proof (reached_ok s Hs) as [_ H1 H2]. specialize (H1 user). specialize (H2 user). read_books.
  unfold collateral_of. destruct (b_position _ !! user) as [p|]; [by apply H1|].
  destruct H2 as [-> ?]; [done|]. by split.
Qed.
(** ** Borrowing and repaying *)

Lemma required_ratio_pos s : reachable s → 0 < min_ratio s.1.
Proof.
  intros Hs. pose proof (bo_risk _ (reached_ok s Hs)) as Hv. unfold min_ratio.
  change (get_risk_params (ps_hello s.1)) with (b_risk (book s.1)). destruct (b_risk _) as [r|]; [|done].
  destruct (Hv r eq_refl) as [Hr _]. unfold MIN_COLLATERAL_RATIO_MIN in Hr. lia.
Qed.

Lemma quot_ceiling d c r : 0 ≤ c → 0 < r → d ≤ Z.quot c r → d * r ≤ c.
Proof. intros Hc Hr Hd. rewrite quot_pos in Hd by lia. pose proof (Z.mul_div_le c r Hr). nia. Qed.

(** A debt that fits its type stays in it after a payment taken twice. *)
Lemma minus_twice d x : 0 < x ≤ d → d ≤ I128_MAX → minus (minus d x) x = d - 2 * x.
Proof.
  rewrite I128_MAX_eq. intros Hx Hd. unfold minus.
  rewrite (checked_sub_fits d x) by (apply in_i128_spec; rewrite I128_MIN_eq, I128_MAX_eq; lia). cbn.
  rewrite checked_sub_fits by (apply in_i128_spec; rewrite I128_MIN_eq, I128_MAX_eq; lia). cbn. lia.
Qed.

(** In every reachable state a repayment names an asset, since the native
    one has no address; from the position's debt the payment is taken twice, and
    the tokens are collected twice, while the total of loans falls by the
    payment once; collateral and the other positions stay as they are. *)
Theorem repayment_counts_twice u asset x env s r i pr s' p :
  reachable s → get_position s.1 u = Some p → 0 < pos_debt p ≤ I128_MAX →
  repay_debt this token_balance token_transfer_from u asset x env s = (Ok (r, i, pr), s') →
  let paid := Z.min x (pos_debt p) in
  i = 0 ∧ pr = paid ∧ 0 < paid ∧
  ∃ t q w1, asset = Some t ∧ get_position s'.1 u = Some q ∧ pos_debt q = pos_debt p - 2 * paid ∧
  collected this token_balance token_transfer_from t u paid s.2 w1 ∧
  collected this token_balance token_transfer_from t u paid w1 s'.2 ∧
  pa_total_borrows (protocol_analytics s'.1) = minus (pa_total_borrows (protocol_analytics s.1)) paid ∧
  (∀ u', get_collateral s'.1 u' = get_collateral s.1 u') ∧
  (∀ u', u' ≠ u → get_position s'.1 u' = get_position s.1 u').
Proof.
  destruct s as [s w], s' as [s' w']. cbn [fst snd]. intros Hs Hp Hdebt Hr. read_books.
  destruct (bo_position _ (reached_ok _ Hs) u p Hp) as [_ Hi].
  apply (repay_book empty_hello hello_empty) in Hr
    as (Hx & t & p' & w1 & -> & Hp' & _ & Hint & Hpr & Hb & Hc1 & Hc2); [|by apply (reached_sound (s, w))].
  rewrite Hp in Hp'. injection Hp' as <-. cbv zeta in *. rewrite owed_accrued in * by done.
  assert (Hpaid : 0 < Z.min x (pos_debt p)) by lia.
  assert (Hno : interest_part (accrued (timestamp env) p) (Z.min x (pos_debt p)) = 0).
  { apply no_interest_part; [by apply no_interest_accrued|lia]. }
  rewrite Hno in Hint. subst i. rewrite Z.sub_0_r in Hpr. split_and!; [done..|].
  exists t, (paid_twice (accrued (timestamp env) p) (Z.min x (pos_debt p)) (timestamp env)), w1.
  split_and!; try done.
  - rewrite Hb. apply lookup_insert_eq.
  - unfold paid_twice. rewrite Hno, Z.sub_0_r. apply minus_twice; lia.
  - read_books. by rewrite Hb.
  - intros u'. read_books. by rewrite Hb.
  - intros u' Hu. read_books. rewrite Hb. by apply lookup_insert_ne.
Qed.
(** ** Withdrawing and liquidating *)

(** Taking an asset that is not on the list leaves the list alone. *)
Lemma filter_absent (t : Address) (l : list Address) : t ∉ l → filter (λ a, a ≠ t) l = l.
Proof.
  induction l as [|a l IH]; intros Hnot; [done|]. apply not_elem_of_cons in Hnot as [Ha Hl].
  rewrite filter_cons_True, IH; done.
Qed.

Lemma listed_unlisted u t x b : t ∉ listed_of b u → listed_of (asset_withdrawn u t x b) u = listed_of b u.
Proof.
  intros Hnot. unfold asset_withdrawn. unfold listed_of at 1. cbn. destruct (_ =? 0); [|done].
  rewrite lookup_insert_eq. cbn. by apply filter_absent.
Qed.

(** A withdrawal that goes through takes its amount out of the user's one
    collateral balance and keeps the required ratio where there is debt; the
    token paid out is the one the caller names, whatever the user deposited: one
    that is not on the user's list leaves the list and the worth of what the
    user can borrow against as they were. *)
Theorem withdrawal_ignores_asset u asset x env s v s' :
  reachable s → withdraw_collateral this token_transfer u asset x env s = (Ok v, s') →
  ∃ p q, get_position s.1 u = Some p ∧ get_position s'.1 u = Some q ∧
  0 < x ≤ get_collateral s.1 u ∧ v = get_collateral s.1 u - x ∧
  get_collateral s'.1 u = v ∧ pos_collateral q = v ∧ pos_debt q = pos_debt p ∧
  (pos_debt p = 0 ∨ ∀ ratio, calculate_collateral_ratio v (pos_debt p) 0 (asset_factor s.1 asset) = Some ratio →
                    min_ratio s.1 ≤ ratio) ∧
  (∀ u', u' ≠ u → get_collateral s'.1 u' = get_collateral s.1 u' ∧ get_position s'.1 u' = get_position s.1 u') ∧
  match asset with
  | Some t =>
      token_transfer t this u x s.2 = Some (tt, s'.2) ∧
      (t ∉ get_user_asset_list s.1 u → get_user_asset_list s.1 u ≠ [] →
       get_user_asset_list s'.1 u = get_user_asset_list s.1 u ∧
       ∀ factor, counted (book s'.1) u factor = counted (book s.1) u factor)
  | None => s'.2 = s.2
  end.
Proof.
  destruct s as [s w], s' as [s' w']. cbn [fst snd]. intros Hs Hr.
  apply withdraw_book in Hr as (Hx & Hle & -> & Hb & (p & Hp & Hcond) & Ht).
  destruct (bo_position _ (reached_ok _ Hs) u p Hp) as [_ Hi]. cbn [fst] in Hi.
  read_books. rewrite Hb.
  assert (Hq : b_position (withdrawn u asset x (timestamp env) (book s)) =
    <[u := p <| pos_collateral := collateral_of (book s) u - x |> <| pos_last_accrual_time := timestamp env |>]>
      (b_position (book s))) by (unfold withdrawn; rewrite Hp; by destruct asset).
  assert (Hc : ∀ u', collateral_of (withdrawn u asset x (timestamp env) (book s)) u' =
    if decide (u' = u) then collateral_of (book s) u - x else collateral_of (book s) u').
  { intros u'. trans (default 0 (<[u := collateral_of (book s) u - x]> (b_collateral (book s)) !! u')); [by destruct asset|].
    destruct (decide (u' = u)) as [->|Hu]; [by rewrite lookup_insert_eq|by rewrite lookup_insert_ne]. }
  eexists p, _. rewrite Hq, Hc, lookup_insert_eq, decide_True by done. split_and!; try done.
  - destruct Hcond as [[? _]|Hcond]; [by left|]. right. intros ratio Hratio. apply Hcond. by rewrite Hi.
  - intros u' Hu. read_books. rewrite Hb. by rewrite Hq, Hc, lookup_insert_ne, decide_False.
  - destruct asset as [t|]; [|done]. split; [done|]. intros Hnot Hsome.
    assert (Hlist : listed_of (withdrawn u (Some t) x (timestamp env) (book s)) u = listed_of (book s) u).
    { unfold withdrawn. exact (listed_unlisted u t x (with_collateral u (collateral_of (book s) u - x) (book s)) Hnot). }
    split; [done|]. intros factor. unfold counted. rewrite Hlist.
    rewrite bool_decide_eq_false_2 by done. unfold listed_value. rewrite Hlist. f_equal.
    apply map_ext_in. intros a Ha. apply list_elem_of_In in Ha. f_equal. f_equal.
    unfold asset_of. cbn. rewrite lookup_insert_ne; [done|]. intros [= ->]. done.
Qed.

(** A payment of part of a debt. *)
Lemma minus_part d x : 0 < x ≤ d → d ≤ I128_MAX → minus d x = d - x.
Proof.
  rewrite I128_MAX_eq. intros Hx Hd. unfold minus.
  rewrite checked_sub_fits by (apply in_i128_spec; rewrite I128_MIN_eq, I128_MAX_eq; lia). done.
Qed.


End theorems.
