(* ===== verification/PositionRuns.v ===== *)
(** * PositionRuns: who has to sign, and the contract over a concrete world of tokens

    Depositing, borrowing, repaying and withdrawing depend on the invocation's
    time only, and so on nobody's signature.  The world: balances per token and
    holder; a transfer refuses a negative amount and one that the sender does
    not have.  The contract's operations run in it. *)

From S2P Require Import Prelude.
From S2P Require Import Host.
From S2P Require Import HelloTypes.
From S2P Require Import HelloParams.
From S2P Require Import PositionTypes.
From S2P Require Import Oracle.
From S2P Require Import Limits.
From S2P Require Import Reserves.
From S2P Require Import Positions.
From S2P Require Import PositionCalls.
From S2P Require Import HelloCalls.
From S2P Require Import PositionSafety.
From S2P Require Import Books.
From S2P Require Import PositionOutcomes.
From S2P Require Import PositionTheorems.

(** *** The combinators *)

Section combinators.
Context {S W E : Type}.

#[export] Instance time_only_local {A} (m : M S E A) : TimeOnly m → TimeOnly (local (W := W) m).
Proof. intros Hm env env' [s w] H. unfold local. by rewrite (Hm env env' s H). Qed.

#[export] Instance time_only_call {A} (f : W → option (A * W)) : TimeOnly (call (S := S) (E := E) f).
Proof. by intros env env' [s w] H. Qed.

#[export] Instance time_only_within {T A} `{!Part S T} (m : M S E A) : TimeOnly m → TimeOnly (within (T := T) m).
Proof. intros Hm env env' t H. unfold within. by rewrite (Hm env env' (part t) H). Qed.

#[export] Instance time_only_when c (m : M S E unit) : TimeOnly m → TimeOnly (when c m).
Proof. intros Hm. by destruct c. Qed.

#[export] Instance time_only_fail {A} (e : E) : TimeOnly (fail e : M S E A).
Proof. done. Qed.

#[export] Instance time_only_trap {A} : TimeOnly (trap : M S E A).
Proof. done. Qed.

#[export] Instance time_only_attempt {E2 A} (m : M S E A) : TimeOnly m → TimeOnly (attempt (E2 := E2) m).
Proof. intros Hm env env' s H. unfold attempt. by rewrite (Hm env env' s H). Qed.

Lemma time_only_reads {A} (f : Env → S → A) :
  (∀ env env' s, timestamp env = timestamp env' → f env s = f env' s) → TimeOnly (reads f : M S E A).
Proof. intros Hf env env' s H. unfold reads. by rewrite (Hf env env' s H). Qed.
End combinators.

#[export] Instance time_only_guarded {W E A} (e : E) (m : M (PState * W) E A) : TimeOnly m → TimeOnly (guarded e m).
Proof.
  intros Hm env env' [s w] H. unfold guarded. destruct (ps_lock s); [done|].
  by rewrite (Hm env env' (s <| ps_lock := true |>, w) H).
Qed.

(** *** What the operations are made of *)

#[export] Instance time_only_breaker a : TimeOnly (E := OracleError) (reads (λ env s, is_breaker_open env s a)).
Proof. apply time_only_reads. intros env env' s H. unfold is_breaker_open. by rewrite H. Qed.

#[export] Instance time_only_cached a : TimeOnly (E := OracleError) (reads (λ env s, get_cached_price env s a)).
Proof. apply time_only_reads. intros env env' s H. unfold get_cached_price. by rewrite H. Qed.

Lemma see_feed_time env env' s f seen feed :
  timestamp env = timestamp env' → see_feed env s f seen feed = see_feed env' s f seen feed.
Proof. intros H. unfold see_feed, is_price_stale. by rewrite H. Qed.

#[export] Instance time_only_feeds a : TimeOnly (E := OracleError) (reads (λ env s, seen_feeds env s a)).
Proof.
  apply time_only_reads. intros env env' s H. unfold seen_feeds. rewrite (see_feed_time env env') by done.
  assert (∀ l x, foldl (λ seen src, see_feed env s (λ _, true) seen (get_source_feed s a src)) x l =
                 foldl (λ seen src, see_feed env' s (λ _, true) seen (get_source_feed s a src)) x l) as Hl.
  { induction l as [|b l IH]; intros x; [done|]. cbn. by rewrite (see_feed_time env env'). }
  destruct (get_fallback_oracle s a); [rewrite (see_feed_time env env') by done|]; apply Hl.
Qed.

#[export] Instance time_only_bucket (entry : PState → option BucketState) cap :
  TimeOnly (E := RateLimitError) (reads (λ env s, get_or_init_bucket env (entry s) cap)).
Proof. apply time_only_reads. intros env env' s H. unfold get_or_init_bucket. by rewrite H. Qed.

#[export] Instance time_only_close m b l : TimeOnly (keep_close m b l).
Proof.
  induction l as [|p l IH]; cbn [keep_close]; [apply _|]. unfold deviation_bps. apply _.
Qed.

#[export] Instance time_only_segments w n l p t s d : TimeOnly (add_segments w n l p t s d).
Proof.
  revert p t s d. induction l as [|x l IH]; intros p t s d; cbn [add_segments]; [apply _|].
  cbv zeta. unfold add_segment. apply _.
Qed.

#[export] Instance time_only_price a : TimeOnly (get_price a).
Proof.
  unfold get_price, aggregate_spot_price, median_i128, filter_outliers, maybe_trip_breaker, set_breaker_state,
    append_observation, save_history, compute_twap, add_segment, cache_price, record_safe_price, deviation_bps,
    on_oracle. cbv zeta. apply _.
Qed.

#[export] Instance time_only_sum {u} l t : TimeOnly (sum_collateral_value u l t).
Proof.
  revert t. induction l as [|a l IH]; intros t; cbn [sum_collateral_value]; [apply _|].
  unfold get_oracle_price, weighted_value. apply _.
Qed.

#[export] Instance time_only_read_index : TimeOnly (E := InterestRateError) (reads get_lending_index).
Proof. apply time_only_reads. intros env env' s H. unfold get_lending_index. by rewrite H. Qed.

#[export] Instance time_only_index : TimeOnly update_lending_index.
Proof.
  unfold update_lending_index, or_zero, calculate_supply_rate, calculate_borrow_rate, calculate_utilization,
    raw_borrow_rate, year_in_bps, index_growth, on_rate. cbv zeta. apply _.
Qed.

#[export] Instance time_only_accrue {E} (e : E) u p : TimeOnly (accrue_interest e u p).
Proof. unfold accrue_interest, compute_index_interest, loan, on_loan. cbv zeta. apply _. Qed.

#[export] Instance time_only_score_repay u x b : TimeOnly (update_score_on_repayment u x b).
Proof.
  unfold update_score_on_repayment, initialize_credit_score, get_credit_score, u32_incr, rescore, set_credit_score.
  cbv zeta. apply _.
Qed.

#[export] Instance time_only_record u x : TimeOnly (record_borrow u x).
Proof. unfold record_borrow, initialize_credit_score, get_credit_score, set_credit_score. cbv zeta. apply _. Qed.

#[export] Instance time_only_consume c u op pool : TimeOnly (consume c u op pool).
Proof. unfold consume, take_token, refill_bucket, refill_per_second, on_limit. cbv zeta. apply _. Qed.

(** *** The operations *)

Section operations.
Context {W : Type} (this : Address)
        (token_balance : Address → Address → W → option (Z * W))
        (token_transfer : Address → Address → Address → Z → W → option (unit * W))
        (token_transfer_from : Address → Address → Address → Address → Z → W → option (unit * W)).

#[export] Instance time_only_collect {E} t from x (e : E) :
  TimeOnly (collect this token_balance token_transfer_from t from x e).
Proof. unfold collect. apply _. Qed.

Ltac open_time := 
  unfold check_risk_management_pause, record_asset_deposit, record_asset_withdrawal, set_collateral, set_position,
    set_user_asset_collateral, set_user_asset_list, update_user_analytics, update_protocol_analytics,
    update_user_analytics_borrow, update_protocol_analytics_borrow, update_user_analytics_repay,
    update_protocol_analytics_repay, update_user_analytics_withdraw, update_protocol_analytics_withdraw,
    set_user_analytics, set_protocol_analytics, add_activity_log, emit_updates, effective_collateral,
    calculate_total_collateral_value, calculate_max_borrowable, validate_collateral_ratio_after_borrow,
    validate_collateral_ratio_after_withdraw, factored, scaled_down, get_native_asset_address, credit_reserve,
    set_protocol_reserve, emit, loan, on_loan, on_rate; cbv zeta.

#[export] Instance time_only_deposit u a x :
  TimeOnly (deposit_collateral this token_balance token_transfer_from u a x).
Proof. unfold deposit_collateral. open_time. apply _. Qed.
#[export] Instance time_only_borrow u a x : TimeOnly (borrow_asset this token_balance token_transfer u a x).
Proof. unfold borrow_asset. open_time. apply _. Qed.
#[export] Instance time_only_repay u a x : TimeOnly (repay_debt this token_balance token_transfer_from u a x).
Proof. unfold repay_debt. open_time. apply _. Qed.
#[export] Instance time_only_withdraw u a x : TimeOnly (withdraw_collateral this token_transfer u a x).
Proof. unfold withdraw_collateral. open_time. apply _. Qed.

Definition moves_position (c : PCall W) : bool :=
  match c with
  | CallDeposit _ _ _ | CallBorrow _ _ _ | CallRepay _ _ _ | CallWithdraw _ _ _ => true
  | _ => false
  end.

(** Depositing, borrowing, repaying and withdrawing for a user need
    nobody's signature, neither the user's nor the caller's: with whatever
    signatures an invocation is made at a given time, it does the same. *)
Theorem positions_need_no_signature c s now seq signed signed' prices registry balances :
  moves_position c = true →
  position_call this token_balance token_transfer token_transfer_from c
    (mkEnvironment now seq signed prices registry balances) s =
  position_call this token_balance token_transfer token_transfer_from c
    (mkEnvironment now seq signed' prices registry balances) s.
Proof.
  intros Hc. destruct c; try done; cbn [position_call]; unfold ran; f_equal; apply time_only_invoke; try done;
    unfold deposit_collateral_entry, borrow_asset_entry, repay_debt_entry, withdraw_collateral_entry, limited_call,
      to_lending; apply _.
Qed.
End operations.

(** ** Tokens *)

Definition Tokens : Type := gmap (Address * Address) Z.

Definition held (t a : Address) (w : Tokens) : Z := default 0 (w !! (t, a)).

Definition balance_of (t a : Address) (w : Tokens) : option (Z * Tokens) := Some (held t a w, w).

Definition move (t from to : Address) (x : Z) (w : Tokens) : option (unit * Tokens) :=
  if (x <? 0) || (held t from w <? x) then None
  else
    let w := <[(t, from) := held t from w - x]> w in
    Some (tt, <[(t, to) := held t to w + x]> w).

Definition move_for (t spender from to : Address) (x : Z) (w : Tokens) : option (unit * Tokens) := move t from to x w.

#[export] Instance tokens_laws : TokenLaws move move_for.
Proof.
  split; intros *; unfold move_for, move; destruct (x <? 0) eqn:?; cbn; intros Hr; zbool; [done|lia|done|lia].
Qed.

(** ** A run *)

Definition lender : Address := 9%positive.
Definition gold : Address := 20%positive.
Definition silver : Address := 21%positive.
Definition alice : Address := 5%positive.
Definition bob : Address := 6%positive.

Definition tokens0 : Tokens :=
  {[ (gold, alice) := 100; (silver, lender) := 500; (silver, alice) := 0; (silver, bob) := 400 ]}.

Definition at_time (t : Z) : Env := mkEnv t 0 (λ _, false) (λ _ _, None) (λ _ _ _ _, None).

Definition play (c : PCall Tokens) (t : Z) (s : PState * Tokens) : PState * Tokens :=
  position_call lender balance_of move move_for c (at_time t) s.

Definition opened : PState * Tokens :=
  play (CallAdmin (CallInitialize alice)) 1000 (empty_protocol, tokens0).
Definition with_gold := play (CallDeposit alice (Some gold) 100) 1001 opened.
Definition drained := play (CallWithdraw alice (Some silver) 100) 1002 with_gold.
Definition indebted := play (CallBorrow alice (Some silver) 60) 1003 drained.

(** Gold counts for less, and then a part of the debt is liquidated. *)
Definition signed_at (a : Address) (t : Z) : Env := mkEnv t 0 (λ b, bool_decide (a = b)) (λ _ _, None) (λ _ _ _ _, None).
Definition devalued : PState * Tokens :=
  position_call lender balance_of move move_for (CallUpdateAssetConfig gold (mkAssetParams true 5000 0 0))
    (signed_at alice 1004) (play (CallBorrow alice (Some silver) 80) 1003 with_gold).
Definition seized :=
  (liquidate lender balance_of move move_for bob alice (Some silver) (Some gold) 20 (at_time 1005) devalued).2.

Abbreviation reached := (protocol_reachable lender balance_of move move_for).

Lemma reached_opened : reached opened.
Proof. apply protocol_step, protocol_empty. Qed.
Lemma reached_gold : reached with_gold.
Proof. apply protocol_step, reached_opened. Qed.
Lemma reached_drained : reached drained.
Proof. apply protocol_step, reached_gold. Qed.
Lemma reached_indebted : reached indebted.
Proof. apply protocol_step, reached_drained. Qed.
Lemma reached_devalued : reached devalued.
Proof. do 2 apply protocol_step. apply reached_gold. Qed.

(** Collateral backs loans after it has been withdrawn: a user who deposits
    100 of one token and withdraws 100 of another has no collateral left, and
    still borrows 60, without a signature on any of these calls; the contract
    keeps 100 of the one token and has given away 160 of the other. *)
Theorem withdrawn_collateral_backs_loans :
  reached indebted ∧ get_collateral indebted.1 alice = 0 ∧
  (pos_debt <$> get_position indebted.1 alice) = Some 60 ∧
  held gold alice indebted.2 = 0 ∧ held silver alice indebted.2 = 160 ∧
  held gold lender indebted.2 = 100 ∧ held silver lender indebted.2 = 340.
Proof. split; [apply reached_indebted|vm_compute; done]. Qed.

(** ** The theorems at work *)

Lemma contract_refines_rules_witness : rtc book_step (book empty_protocol) (book indebted.1).
Proof.
  exact (proj2 (contract_refines_rules lender balance_of move move_for CallProtocolStats (at_time 1004) indebted
                  reached_indebted)).
Defined.

Lemma position_records_agree_witness :
  ∃ p, get_position indebted.1 alice = Some p ∧ pos_collateral p = get_collateral indebted.1 alice ∧
       get_collateral indebted.1 bob = 0.
Proof.
  pose proof (position_records_agree lender balance_of move move_for indebted alice reached_indebted) as Ha.
  assert (Hp : is_Some (get_position indebted.1 alice)) by (vm_compute; by eexists).
  destruct Hp as [p Hp]. rewrite Hp in Ha. exists p. split; [done|]. split; [by destruct Ha|]. vm_compute. done.
Defined.


Lemma repayment_counts_twice_witness :
  let s' := (repay_debt lender balance_of move_for alice (Some silver) 20 (at_time 1004) indebted).2 in
  ∃ q, get_position s'.1 alice = Some q ∧ pos_debt q = 60 - 2 * 20.
Proof.
  intros s'. destruct (repayment_counts_twice lender balance_of move move_for alice (Some silver) 20 (at_time 1004)
    indebted 20 0 20 s' (mkPosition 0 60 0 1003) reached_indebted)
    as (_ & _ & _ & t & q & w1 & _ & Hq & Hd & _); [vm_compute; reflexivity|vm_compute; done|vm_compute; reflexivity|].
  exists q. exact (conj Hq Hd).
Defined.

Lemma withdrawal_ignores_asset_witness :
  let s' := (withdraw_collateral lender move alice (Some silver) 100 (at_time 1002) with_gold).2 in
  get_collateral s'.1 alice = 0 ∧ ∀ factor, counted (book s'.1) alice factor = counted (book with_gold.1) alice factor.
Proof.
  intros s'. destruct (withdrawal_ignores_asset lender balance_of move move_for alice (Some silver) 100 (at_time 1002)
    with_gold 0 s' reached_gold) as (p & q & _ & _ & _ & _ & Hc & _ & _ & _ & _ & _ & Hl); [vm_compute; reflexivity|].
  split; [exact Hc|]. apply Hl; vm_compute; [|done]. intros Hin. by apply list_elem_of_singleton in Hin.
Defined.


Lemma positions_need_no_signature_witness :
  position_call lender balance_of move move_for (CallBorrow alice (Some silver) 60)
    (mkEnvironment 1003 0 (λ _, true) (λ _ _, None) (λ _ _ _ _, None) (λ _ _, None)) drained = indebted.
Proof.
  exact (positions_need_no_signature lender balance_of move move_for (CallBorrow alice (Some silver) 60) drained
           1003 0 (λ _, true) (λ _, false) (λ _ _, None) (λ _ _ _ _, None) (λ _ _, None) eq_refl).
Defined.

Lemma contract_refines_administration_witness : hello_run (ps_hello opened.1) (ps_hello indebted.1).
Proof.
  refine (proj2 (contract_refines_administration lender balance_of move move_for opened indebted reached_opened _)).
  do 3 eapply protocol_run_step. apply protocol_run_refl.
Defined.

Lemma every_price_is_one_witness :
  get_oracle_price (E := OracleError) silver (at_time 1004) indebted.1 = (Ok PRICE_DECIMALS, indebted.1).
Proof.
  exact (proj2 (every_price_is_one lender balance_of move move_for silver (at_time 1004) indebted reached_indebted)).
Defined.

Lemma credit_scores_bounded_witness :
  ∃ ltv, calculate_adjusted_ltv alice (at_time 1004) indebted.1 = (Ok ltv, indebted.1) ∧ 5000 ≤ ltv ≤ 8500.
Proof.
  exact (proj2 (credit_scores_bounded lender balance_of move move_for alice (at_time 1004) indebted reached_indebted)).
Defined.
