(* ===== verification/FlashTheorems.v ===== *)
(** * FlashTheorems: flash loans of the hello-world contract, in every reachable state

    No loan is open between invocations, so nothing can be repaid separately;
    the fee is between nothing and the loan, and the contract gets both back. *)

From S2P Require Import Prelude.
From S2P Require Import Host.
From S2P Require Import HelloTypes.
From S2P Require Import HelloParams.
From S2P Require Import HelloCalls.
From S2P Require Import ParamSafety.
From S2P Require Import PositionTypes.
From S2P Require Import Oracle.
From S2P Require Import Limits.
From S2P Require Import Reserves.
From S2P Require Import Positions.
From S2P Require Import HelloFlash.
From S2P Require Import PositionCalls.
From S2P Require Import PositionSafety.
From S2P Require Import Books.
From S2P Require Import PositionOutcomes.
From S2P Require Import PositionTheorems.
From S2P Require Import PositionRuns.

(** ** The flash-loan storage *)

Definition with_flash (fs : FlashStore) (s : PState) : Prop := ps_flash s = fs.

Lemma flash_guard_apart {W E A} fs (busy : E) (m : M (PState * W) E A) :
  keeps (with_flash fs) m → keeps (with_flash fs) (guarded busy m).
Proof. by apply keeps_guarded. Qed.
#[export] Hint Resolve flash_guard_apart : keeps.

Lemma flash_within_apart {E A} fs (m : M HState E A) : preserves (with_flash fs) (within m).
Proof. by apply preserves_within. Qed.
#[export] Hint Resolve flash_within_apart : keeps.

Definition is_flash {W} (c : PCall W) : bool :=
  match c with CallFlashLoan _ _ _ _ _ | CallConfigureFlashLoan _ _ => true | _ => false end.

(** The same invocation, with other signatures; what does not look at them. *)
Definition signed_by (signed : Address → bool) (env : Env) : Env :=
  mkEnvironment (timestamp env) (sequence env) signed (oracle_price env) (registry_validate env) (Host.token_balance env).
Definition asks_nobody {S E A} (m : M S E A) : Prop := ∀ env signed s, m (signed_by signed env) s = m env s.

Lemma asks_bind {S E A B} (m : M S E A) (k : A → M S E B) :
  asks_nobody m → (∀ x, asks_nobody (k x)) → asks_nobody (m ≫= k).
Proof. intros Hm Hk env g s. rewrite !bind_eq, Hm. destruct (m env s) as [[] ?]; [apply Hk|done..]. Qed.

Lemma asks_if {S E A} (c : bool) (m1 m2 : M S E A) :
  asks_nobody m1 → asks_nobody m2 → asks_nobody (if c then m1 else m2).
Proof. by destruct c. Qed.

Lemma asks_ok_or {S E A} (o : option A) (e : E) : asks_nobody (ok_or o e : M S E A).
Proof. by destruct o. Qed.

Lemma asks_local {S W E A} (m : M S E A) : asks_nobody m → asks_nobody (local (W := W) m).
Proof. intros Hm env g [s w]. unfold local. by rewrite Hm. Qed.

Lemma asks_flash_guarded {W A} u a (m : M (PState * W) FlashLoanError A) :
  asks_nobody m → asks_nobody (flash_guarded u a m).
Proof. intros Hm env g [s w]. unfold flash_guarded. case_bool_decide; [done|]. by rewrite Hm. Qed.

Ltac unsigned :=
  repeat first [apply asks_bind; [|intros] | apply asks_if | apply asks_ok_or | apply asks_local | apply asks_flash_guarded];
  try (intros ? ? []; reflexivity).

Lemma flash_asks_nobody {W} this bal out back f u a x cb : asks_nobody (execute_flash_loan (W := W) this bal out back f u a x cb).
Proof.
  unfold execute_flash_loan, calculate_flash_loan_fee, credit_reserve, when, reject_if. unsigned.
Qed.

Section theorems.
Context {W : Type} (this : Address)
        (token_balance : Address → Address → W → option (Z * W))
        (token_transfer : Address → Address → Address → Z → W → option (unit * W))
        (token_transfer_from : Address → Address → Address → Address → Z → W → option (unit * W)).

Abbreviation reachable := (protocol_reachable this token_balance token_transfer token_transfer_from).
Abbreviation step := (position_call this token_balance token_transfer token_transfer_from).
Abbreviation flash := (execute_flash_loan this token_balance token_transfer token_transfer_from).

Lemma apart_price {E} fs a : preserves (with_flash fs) (get_oracle_price (E := E) a).
Proof.
  unfold get_oracle_price, get_price, maybe_trip_breaker, set_breaker_state, append_observation, save_history,
    cache_price, record_safe_price, set_breaker_state, on_oracle.
  keep; done.
Qed.
#[local] Hint Resolve apart_price : keeps.

Lemma apart_value fs u l t : preserves (with_flash fs) (sum_collateral_value u l t).
Proof. revert t. induction l as [|a l IH]; intros t; simpl; keep; apply IH. Qed.
#[local] Hint Resolve apart_value : keeps.

Ltac open_position_writes :=
  unfold check_risk_management_pause, record_asset_deposit, record_asset_withdrawal, set_collateral, set_position,
    set_user_asset_collateral, set_user_asset_list, update_user_analytics, update_protocol_analytics,
    update_user_analytics_borrow, update_protocol_analytics_borrow, update_user_analytics_repay,
    update_protocol_analytics_repay, update_user_analytics_withdraw, update_protocol_analytics_withdraw,
    set_user_analytics, set_protocol_analytics, add_activity_log, emit_updates, effective_collateral,
    calculate_total_collateral_value, calculate_max_borrowable, validate_collateral_ratio_after_borrow,
    validate_collateral_ratio_after_withdraw, get_native_asset_address, credit_reserve, accrue_interest, record_borrow,
    update_score_on_repayment, update_score_on_liquidation, initialize_credit_score, set_credit_score, rescore, loan.

(** The other entry points leave it alone. *)
Lemma flash_apart c env s : is_flash c = false → ps_flash (step c env s).1 = ps_flash s.1.
Proof.
  intros Hc. destruct c; try discriminate Hc; cbn [position_call].
  1: { unfold admin_call. by destruct (is_entry_point c). }
  1: done.
  all: apply (keeps_ran (with_flash (ps_flash s.1))); [|done].
  all: open_calls.
  all: unfold deposit_collateral, borrow_asset, repay_debt, withdraw_collateral, liquidate, liquidation_terms,
    settle_liquidation, liquidation_transfers, collect, value_for_check, debt_in_collateral, price_of, convert,
    calculate_collateral_value, update_liquidation_analytics, repay_flash_loan.
  all: do 2 open_position_writes.
  all: unfold consume, take_token, require_intent_auth, set_next_nonce, record_ordering_signal, remove_commit,
    record_reserve_deploy_to_amm, claim_reserves, withdraw_reserve_funds, set_fee_config, set_reserve_balance,
    reserve_admin, treasury_admin, is_liquidation_allowed, get_circuit_breaker_state, set_breaker,
    set_protocol_reserve, emit, on_loan, on_mev, on_reserve, on_limit, on_breaker, on_report.
  all: keep; done.
Qed.

(** No loan, no guard, and a fee of at most the loan. *)
Definition flash_idle (s : PState) : Prop :=
  fkActiveFlashLoan (ps_flash s) = ∅ ∧ fkFlashLoanGuard (ps_flash s) = ∅ ∧
  0 ≤ fl_fee_bps (get_flash_loan_config s) ≤ 10000.

Lemma flash_idle_step c env s : flash_idle s.1 → flash_idle (step c env s).1.
Proof.
  intros (H1 & H2 & H3). destruct (is_flash c) eqn:Hc.
  - destruct c; try discriminate Hc; cbn [position_call]; unfold ran;
      (match goal with |- context [invoke ?m env s] => destruct (invoked_or_kept m env s) as [->|(v & [s' w'] & Hr & ->)] end;
       [done|]); destruct s as [s w]; cbn in *.
    + unfold to_lending in Hr. apply map_err_Ok, hello_flash_loan_Ok in Hr as (fee & _ & _ & _ & _ & _ & _ & _ & Hf & _).
      unfold flash_idle, get_flash_loan_config in *. rewrite Hf. cbn. rewrite H1, H2. split; [by rewrite delete_empty|done].
    + apply local_Ok in Hr as [Hr _]. unfold set_flash_loan_config, admin_or, on_flash in Hr. run_inv Hr. zbool.
      match goal with H : within _ _ _ = _ |- _ => apply readonly_run in H as ->; [|apply _] end.
      unfold flash_idle, get_flash_loan_config in *. cbn. split_and!; try done; lia.
  - unfold flash_idle, get_flash_loan_config. by rewrite flash_apart.
Qed.

Lemma reached_flash_idle s : reachable s → flash_idle s.1.
Proof. induction 1 as [w|c env s _ IH]; [by split_and!|by apply flash_idle_step]. Qed.

(** Between invocations no flash loan is open and no guard is set, so
    repaying one always fails with [NotRepaid]: the separate repayment that the
    interface offers can never be used.  The switch that would pause flash
    loans is never on, and the fee rate is between 0 and 100%. *)
Theorem flash_loans_cannot_be_repaid_separately s env u a x :
  reachable s → flash_idle s.1 ∧ switched_off s.1 "pause_flash_loan" = false ∧
  repay_flash_loan this token_transfer_from u a x env s = (Err FE_NotRepaid, s).
Proof.
  intros Hs. pose proof (reached_flash_idle s Hs) as Hidle. split; [done|]. split.
  - unfold switched_off. by rewrite (so_switches _ _ (proj1 (sound_reached this _ _ _ s Hs))).
  - destruct s as [s w]. unfold repay_flash_loan. rewrite bind_eq. cbn. destruct Hidle as (Ha & _). cbn in Ha.
    by rewrite Ha, lookup_empty.
Qed.

(** ** The tokens of a loan *)

(** What tokens and callback have to promise: reading a balance changes nothing,
    a transfer moves what it says, and a callback, which has no authority over
    the contract's tokens, does not lower the contract's balance. *)
Definition holds (t a : Address) (w : W) (v : Z) : Prop := token_balance t a w = Some (v, w).

Context (balance_reads : ∀ t a w v w', token_balance t a w = Some (v, w') → w' = w)
        (transfer_takes : ∀ t from to x w w' v,
           from ≠ to → token_transfer t from to x w = Some (tt, w') → holds t from w v → holds t from w' (v - x))
        (transfer_from_gives : ∀ t spender from to x w w' v,
           from ≠ to → token_transfer_from t spender from to x w = Some (tt, w') → holds t to w v → holds t to w' (v + x)).

End theorems.

(** ** A loan of [gold] *)

(** The callback pays the fee with tokens of its own. *)
Definition arbitrageur : Address := 30%positive.
Definition no_gain (u a : Address) (x fee : Z) (w : Tokens) : option (unit * Tokens) := Some (tt, w).
Definition gold_world : Tokens := {[ (gold, lender) := 20000; (gold, arbitrageur) := 5 ]}.
Definition gold_lent :=
  execute_flash_loan lender balance_of move move_for no_gain alice gold 5000 arbitrageur (at_time 1001)
    (play (CallAdmin (CallInitialize alice)) 1000 (empty_protocol, gold_world)).

Lemma move_takes t from to x w w' v :
  from ≠ to → move t from to x w = Some (tt, w') → holds balance_of t from w v → holds balance_of t from w' (v - x).
Proof.
  unfold holds, balance_of, move. intros Hne Hm [= <-]. destruct (_ || _); [done|]. injection Hm as <-.
  unfold held, Tokens in *. cbn. f_equal. apply pair_equal_spec. split; [|done]. rewrite lookup_insert_ne by congruence. by rewrite lookup_insert_eq.
Qed.

Lemma move_gives t spender from to x w w' v :
  from ≠ to → move_for t spender from to x w = Some (tt, w') → holds balance_of t to w v → holds balance_of t to w' (v + x).
Proof.
  unfold holds, balance_of, move_for, move. intros Hne Hm [= <-]. destruct (_ || _); [done|]. injection Hm as <-.
  unfold held, Tokens in *. cbn. f_equal. apply pair_equal_spec. split; [|done]. rewrite lookup_insert_eq. cbn. by rewrite lookup_insert_ne by congruence.
Qed.

Lemma reached_gold_world : reached (play (CallAdmin (CallInitialize alice)) 1000 (empty_protocol, gold_world)).
Proof. apply protocol_step, protocol_empty. Qed.


Lemma flash_loans_cannot_be_repaid_separately_witness :
  repay_flash_loan lender move_for alice gold 10 (at_time 1002) indebted = (Err FE_NotRepaid, indebted).
Proof.
  exact (proj2 (proj2 (flash_loans_cannot_be_repaid_separately lender balance_of move move_for indebted (at_time 1002)
                         alice gold 10 reached_indebted))).
Defined.
