(* ===== verification/CrossAsset.v ===== *)
(** * CrossAsset: lending across assets ([hello-world/src/cross_asset.rs])

    A second lending system in the hello-world contract, with a storage of its
    own: configured assets with a price each, one position per user and asset,
    totals per asset.  It moves no tokens.  The file declares
    [cross_asset_borrow] twice; the first is [cross_asset_borrow_by_capacity]
    here, and what it calls [get_total_borrows] and [update_total_borrows], which
    the file does not have, is read as [get_total_borrow] and
    [update_total_borrow]. *)

From S2P Require Import Prelude.
From S2P Require Import Host.

(** ** Data *)

Inductive AssetKey : Type := Native | Token (addr : Address).

Definition from_option (asset : option Address) : AssetKey :=
  match asset with Some addr => Token addr | None => Native end.
Definition to_option (key : AssetKey) : option Address :=
  match key with Native => None | Token addr => Some addr end.

#[export] Instance AssetKey_eq_dec : EqDecision AssetKey.
Proof. solve_decision. Defined.
#[export] Instance AssetKey_countable : Countable AssetKey.
Proof. apply (inj_countable' to_option from_option). by intros []. Defined.

(** [UserAssetKey] *)
Abbreviation UserAssetKey := (Address * AssetKey)%type (only parsing).

Record AssetConfig : Type := mkAssetConfig {
  ac_asset : option Address;
  ac_collateral_factor : Z;
  ac_liquidation_threshold : Z;
  ac_reserve_factor : Z;
  ac_max_supply : Z;
  ac_max_borrow : Z;
  ac_can_collateralize : bool;
  ac_can_borrow : bool;
  ac_price : Z;
  ac_price_updated_at : Z;
  ac_is_isolated : bool;
  ac_is_frozen : bool;
}.
#[export] Instance AssetConfig_upd : Updatable AssetConfig := λ c,
  mkAssetConfig (ac_asset c) (ac_collateral_factor c) (ac_liquidation_threshold c) (ac_reserve_factor c)
    (ac_max_supply c) (ac_max_borrow c) (ac_can_collateralize c) (ac_can_borrow c) (ac_price c)
    (ac_price_updated_at c) (ac_is_isolated c) (ac_is_frozen c).

Record AssetPosition : Type := mkAssetPosition {
  xp_collateral : Z;
  xp_debt_principal : Z;
  xp_accrued_interest : Z;
  xp_last_updated : Z;
}.
#[export] Instance AssetPosition_upd : Updatable AssetPosition := λ p,
  mkAssetPosition (xp_collateral p) (xp_debt_principal p) (xp_accrued_interest p) (xp_last_updated p).

Record UserPositionSummary : Type := mkUserPositionSummary {
  us_total_collateral_value : Z;
  us_weighted_collateral_value : Z;
  us_total_debt_value : Z;
  us_weighted_debt_value : Z;
  us_health_factor : Z;
  us_is_liquidatable : bool;
  us_borrow_capacity : Z;
}.

Inductive CrossAssetError : Type :=
  | AssetNotConfigured | AssetDisabled | InsufficientCollateral | ExceedsBorrowCapacity | UnhealthyPosition
  | SupplyCapExceeded | BorrowCapExceeded | InvalidPrice | PriceStale | NotAuthorized.

Inductive CrossEvent : Type :=
  | SupplyCapChangedEvent (asset : option Address) (old_cap new_cap timestamp : Z)
  | BorrowCapChangedEvent (asset : option Address) (old_cap new_cap timestamp : Z)
  | PoolFrozenEvent (asset : option Address) (frozen : bool) (timestamp : Z).

(** The storage under ADMIN, ASSET_CONFIGS, USER_POSITIONS, TOTAL_SUPPLIES,
    TOTAL_BORROWS and ASSET_LIST *)
Record CrossState : Type := mkCrossState {
  cs_admin : option Address;
  cs_configs : gmap AssetKey AssetConfig;
  cs_positions : gmap UserAssetKey AssetPosition;
  cs_supplies : gmap AssetKey Z;
  cs_borrows : gmap AssetKey Z;
  cs_list : list AssetKey;
  cs_events : list CrossEvent;
}.
#[export] Instance CrossState_upd : Updatable CrossState := λ s,
  mkCrossState (cs_admin s) (cs_configs s) (cs_positions s) (cs_supplies s) (cs_borrows s) (cs_list s) (cs_events s).

Definition empty_cross : CrossState := mkCrossState None ∅ ∅ ∅ ∅ [] [].

Abbreviation XM := (M CrossState CrossAssetError) (only parsing).

(** [a + b], [a - b] and [a * b] on [i128], which trap on overflow *)
Definition plus (a b : Z) : XM Z := unwrap (checked_add a b).
Definition less (a b : Z) : XM Z := unwrap (checked_sub a b).
Definition times (a b : Z) : XM Z := unwrap (checked_mul a b).

(** ** Storage *)

Definition store_config (key : AssetKey) (config : AssetConfig) : XM unit :=
  modify (λ s, s <| cs_configs := <[key := config]> (cs_configs s) |>).

Definition get_asset_config (key : AssetKey) : XM AssetConfig :=
  stored ← gets (λ s, cs_configs s !! key);
  ok_or stored AssetNotConfigured.

Definition new_asset_position (now : Z) : AssetPosition := mkAssetPosition 0 0 0 now.

Definition get_user_asset_position (env : Env) (s : CrossState) (user : Address) (asset : option Address) :
    AssetPosition :=
  default (new_asset_position (timestamp env)) (cs_positions s !! (user, from_option asset)).

Definition set_user_asset_position (user : Address) (asset : option Address) (position : AssetPosition) : XM unit :=
  modify (λ s, s <| cs_positions := <[(user, from_option asset) := position]> (cs_positions s) |>).

Definition get_total_supply (s : CrossState) (key : AssetKey) : Z := default 0 (cs_supplies s !! key).
Definition get_total_borrow (s : CrossState) (key : AssetKey) : Z := default 0 (cs_borrows s !! key).

Definition update_total_supply (key : AssetKey) (delta : Z) : XM unit :=
  current ← gets (λ s, get_total_supply s key);
  total ← plus current delta;
  modify (λ s, s <| cs_supplies := <[key := total]> (cs_supplies s) |>).

Definition update_total_borrow (key : AssetKey) (delta : Z) : XM unit :=
  current ← gets (λ s, get_total_borrow s key);
  total ← plus current delta;
  modify (λ s, s <| cs_borrows := <[key := total]> (cs_borrows s) |>).

Definition publish (ev : CrossEvent) : XM unit := modify (λ s, s <| cs_events := (cs_events s ++ [ev]) |>).

(** ** Administration *)

(** [initialize] of cross_asset.rs *)
Definition initialize_ca (admin : Address) : XM unit :=
  stored ← gets cs_admin;
  reject_if (bool_decide (stored ≠ None)) NotAuthorized ;;
  require_auth admin ;;
  modify (λ s, s <| cs_admin := Some admin |>).

(** [require_admin] of cross_asset.rs *)
Definition require_ca_admin : XM unit :=
  stored ← gets cs_admin;
  admin ← ok_or stored NotAuthorized;
  require_auth admin.

Definition require_valid_basis_points (value : Z) : XM unit :=
  reject_if (negb (in_range 0 10000 value)) AssetNotConfigured.

Definition require_valid_config (config : AssetConfig) : XM unit :=
  require_valid_basis_points (ac_collateral_factor config) ;;
  require_valid_basis_points (ac_liquidation_threshold config) ;;
  require_valid_basis_points (ac_reserve_factor config) ;;
  reject_if (ac_price config <=? 0) InvalidPrice ;;
  reject_if (ac_liquidation_threshold config <? ac_collateral_factor config) AssetNotConfigured.

Definition initialize_asset (asset : option Address) (config : AssetConfig) : XM unit :=
  require_ca_admin ;;
  require_valid_config config ;;
  store_config (from_option asset) config ;;
  asset_list ← gets cs_list;
  when (bool_decide (from_option asset ∉ asset_list))
    (modify (λ s, s <| cs_list := (asset_list ++ [from_option asset]) |>)).

(** [if let Some(x) = new { require_valid_basis_points(x)?; config.field = x; }] *)
Definition update_factor (new : option Z) (put : Z → AssetConfig → AssetConfig) (config : AssetConfig) :
    XM AssetConfig :=
  match new with
  | Some x => require_valid_basis_points x ;; mret (put x config)
  | None => mret config
  end.

(** [update_asset_config] of cross_asset.rs *)
Definition update_ca_config (asset : option Address) (collateral_factor liquidation_threshold max_supply max_borrow : option Z)
    (can_collateralize can_borrow : option bool) : XM unit :=
  require_ca_admin ;;
  let key := from_option asset in
  config ← get_asset_config key;
  let old_supply_cap := ac_max_supply config in
  let old_borrow_cap := ac_max_borrow config in
  config ← update_factor collateral_factor (λ x c, c <| ac_collateral_factor := x |>) config;
  config ← update_factor liquidation_threshold (λ x c, c <| ac_liquidation_threshold := x |>) config;
  let config := config <| ac_max_supply := default (ac_max_supply config) max_supply |>
                       <| ac_max_borrow := default (ac_max_borrow config) max_borrow |>
                       <| ac_can_collateralize := default (ac_can_collateralize config) can_collateralize |>
                       <| ac_can_borrow := default (ac_can_borrow config) can_borrow |> in
  store_config key config ;;
  ts ← ask timestamp;
  when (negb (ac_max_supply config =? old_supply_cap))
    (publish (SupplyCapChangedEvent asset old_supply_cap (ac_max_supply config) ts)) ;;
  when (negb (ac_max_borrow config =? old_borrow_cap))
    (publish (BorrowCapChangedEvent asset old_borrow_cap (ac_max_borrow config) ts)).

Definition update_asset_price (asset : option Address) (price : Z) : XM unit :=
  require_ca_admin ;;
  reject_if (price <=? 0) InvalidPrice ;;
  config ← get_asset_config (from_option asset);
  now ← ask timestamp;
  store_config (from_option asset) (config <| ac_price := price |> <| ac_price_updated_at := now |>).

Definition freeze_pool (admin : Address) (asset : option Address) (freeze : bool) : XM unit :=
  stored ← gets cs_admin;
  stored_admin ← ok_or stored NotAuthorized;
  reject_if (bool_decide (admin ≠ stored_admin)) NotAuthorized ;;
  require_auth admin ;;
  config ← get_asset_config (from_option asset);
  store_config (from_option asset) (config <| ac_is_frozen := freeze |>) ;;
  now ← ask timestamp;
  publish (PoolFrozenEvent asset freeze now).

(** ** The summary of a user's positions *)

Record Values : Type := mkValues {
  va_collateral : Z;
  va_weighted_collateral : Z;
  va_debt : Z;
  va_weighted_debt : Z;
}.

(** The body of the loop for a configured asset. *)
Definition add_asset (now : Z) (config : AssetConfig) (position : AssetPosition) (v : Values) : XM Values :=
  if (xp_collateral position =? 0) && (xp_debt_principal position =? 0) then mret v
  else
    reject_if ((ac_price_updated_at config <? now) && (3600 <? now - ac_price_updated_at config)) PriceStale ;;
    p ← times (xp_collateral position) (ac_price config);
    let collateral_value := Z.quot p 10000000 in
    total_collateral ← plus (va_collateral v) collateral_value;
    weighted_collateral ←
      (if ac_can_collateralize config then
         q ← times collateral_value (ac_liquidation_threshold config);
         plus (va_weighted_collateral v) (Z.quot q 10000)
       else mret (va_weighted_collateral v));
    total_debt ← plus (xp_debt_principal position) (xp_accrued_interest position);
    d ← times total_debt (ac_price config);
    let debt_value := Z.quot d 10000000 in
    debt ← plus (va_debt v) debt_value;
    weighted_debt ← plus (va_weighted_debt v) debt_value;
    mret (mkValues total_collateral weighted_collateral debt weighted_debt).

(** The loop over the asset list. *)
Fixpoint add_assets (user : Address) (assets : list AssetKey) (v : Values) : XM Values :=
  match assets with
  | [] => mret v
  | key :: rest =>
      stored ← gets (λ s, cs_configs s !! key);
      match stored with
      | Some config =>
          position ← reads (λ env s, get_user_asset_position env s user (to_option key));
          now ← ask timestamp;
          v ← add_asset now config position v;
          add_assets user rest v
      | None => add_assets user rest v
      end
  end.

Definition get_user_position_summary (user : Address) : XM UserPositionSummary :=
  asset_list ← gets cs_list;
  v ← add_assets user asset_list (mkValues 0 0 0 0);
  health_factor ←
    (if 0 <? va_weighted_debt v then
       p ← times (va_weighted_collateral v) 10000;
       unwrap (checked_div p (va_weighted_debt v))
     else mret I128_MAX);
  let is_liquidatable := (health_factor <? 10000) && (0 <? va_weighted_debt v) in
  borrow_capacity ←
    (if va_weighted_debt v <? va_weighted_collateral v then less (va_weighted_collateral v) (va_weighted_debt v)
     else mret 0);
  mret (mkUserPositionSummary (va_collateral v) (va_weighted_collateral v) (va_debt v) (va_weighted_debt v)
          health_factor is_liquidatable borrow_capacity).

(** ** Positions *)

Definition cross_asset_deposit (user : Address) (asset : option Address) (amount : Z) : XM AssetPosition :=
  require_auth user ;;
  let key := from_option asset in
  config ← get_asset_config key;
  reject_if (ac_is_frozen config) AssetDisabled ;;
  reject_if (negb (ac_can_collateralize config)) AssetDisabled ;;
  when (0 <? ac_max_supply config)
    (total_supply ← gets (λ s, get_total_supply s key);
     after ← plus total_supply amount;
     reject_if (ac_max_supply config <? after) SupplyCapExceeded) ;;
  position ← reads (λ env s, get_user_asset_position env s user asset);
  collateral ← plus (xp_collateral position) amount;
  now ← ask timestamp;
  let position := position <| xp_collateral := collateral |> <| xp_last_updated := now |> in
  set_user_asset_position user asset position ;;
  update_total_supply key amount ;;
  mret position.

(** The first [cross_asset_borrow] *)
Definition cross_asset_borrow_by_capacity (user : Address) (asset : option Address) (amount : Z) : XM AssetPosition :=
  require_auth user ;;
  reject_if (amount <=? 0) InsufficientCollateral ;;
  let key := from_option asset in
  config ← get_asset_config key;
  reject_if (negb (ac_can_borrow config)) AssetDisabled ;;
  when (0 <? ac_max_borrow config)
    (total_borrows ← gets (λ s, get_total_borrow s key);
     after ← plus total_borrows amount;
     reject_if (ac_max_borrow config <? after) BorrowCapExceeded) ;;
  current_summary ← get_user_position_summary user;
  p ← times amount (ac_price config);
  reject_if (us_borrow_capacity current_summary <? Z.quot p 10000000) ExceedsBorrowCapacity ;;
  position ← reads (λ env s, get_user_asset_position env s user asset);
  debt ← plus (xp_debt_principal position) amount;
  now ← ask timestamp;
  let position := position <| xp_debt_principal := debt |> <| xp_last_updated := now |> in
  set_user_asset_position user asset position ;;
  update_total_borrow key amount ;;
  new_summary ← get_user_position_summary user;
  reject_if (us_health_factor new_summary <? 10000) UnhealthyPosition ;;
  mret position.

(** The second [cross_asset_borrow] *)
Definition cross_asset_borrow (user : Address) (asset : option Address) (amount : Z) : XM AssetPosition :=
  require_auth user ;;
  let key := from_option asset in
  config ← get_asset_config key;
  reject_if (ac_is_frozen config) AssetDisabled ;;
  reject_if (negb (ac_can_borrow config)) AssetDisabled ;;
  when (0 <? ac_max_borrow config)
    (total_borrow ← gets (λ s, get_total_borrow s key);
     after ← plus total_borrow amount;
     reject_if (ac_max_borrow config <? after) BorrowCapExceeded) ;;
  position ← reads (λ env s, get_user_asset_position env s user asset);
  debt ← plus (xp_debt_principal position) amount;
  now ← ask timestamp;
  let position := position <| xp_debt_principal := debt |> <| xp_last_updated := now |> in
  set_user_asset_position user asset position ;;
  (if ac_is_isolated config then
     pool_debt ← plus (xp_debt_principal position) (xp_accrued_interest position);
     let max_pool_debt :=
       default 0 (checked_div (default 0 (checked_mul (xp_collateral position) (ac_collateral_factor config))) 10000) in
     when (max_pool_debt <? pool_debt)
       (back ← less (xp_debt_principal position) amount;
        set_user_asset_position user asset (position <| xp_debt_principal := back |>) ;;
        fail ExceedsBorrowCapacity)
   else
     summary ← get_user_position_summary user;
     when (us_health_factor summary <? 10000)
       (back ← less (xp_debt_principal position) amount;
        set_user_asset_position user asset (position <| xp_debt_principal := back |>) ;;
        fail ExceedsBorrowCapacity)) ;;
  update_total_borrow key amount ;;
  mret position.

Definition cross_asset_withdraw (user : Address) (asset : option Address) (amount : Z) : XM AssetPosition :=
  require_auth user ;;
  let key := from_option asset in
  position ← reads (λ env s, get_user_asset_position env s user asset);
  reject_if (xp_collateral position <? amount) InsufficientCollateral ;;
  collateral ← less (xp_collateral position) amount;
  now ← ask timestamp;
  let position := position <| xp_collateral := collateral |> <| xp_last_updated := now |> in
  set_user_asset_position user asset position ;;
  summary ← get_user_position_summary user;
  when ((0 <? us_total_debt_value summary) && (us_health_factor summary <? 10000))
    (back ← plus (xp_collateral position) amount;
     set_user_asset_position user asset (position <| xp_collateral := back |>) ;;
     fail UnhealthyPosition) ;;
  delta ← less 0 amount;
  update_total_supply key delta ;;
  mret position.

Definition cross_asset_repay (user : Address) (asset : option Address) (amount : Z) : XM AssetPosition :=
  require_auth user ;;
  let key := from_option asset in
  position ← reads (λ env s, get_user_asset_position env s user asset);
  total_debt ← plus (xp_debt_principal position) (xp_accrued_interest position);
  let repay_amount := Z.min amount total_debt in
  position ←
    (if repay_amount <=? xp_accrued_interest position then
       interest ← less (xp_accrued_interest position) repay_amount;
       mret (position <| xp_accrued_interest := interest |>)
     else
       remaining ← less repay_amount (xp_accrued_interest position);
       principal ← less (xp_debt_principal position) remaining;
       mret (position <| xp_accrued_interest := 0 |> <| xp_debt_principal := principal |>));
  now ← ask timestamp;
  let position := position <| xp_last_updated := now |> in
  set_user_asset_position user asset position ;;
  delta ← less 0 repay_amount;
  update_total_borrow key delta ;;
  mret position.

(** Both positions are read before either is written. *)
Definition cross_asset_liquidate (liquidator user : Address) (debt_asset collateral_asset : option Address)
    (debt_to_repay collateral_to_receive : Z) : XM Z :=
  require_auth liquidator ;;
  debt_config ← get_asset_config (from_option debt_asset);
  collateral_config ← get_asset_config (from_option collateral_asset);
  summary ← get_user_position_summary user;
  reject_if (negb (us_is_liquidatable summary)) InsufficientCollateral ;;
  debt_position ← reads (λ env s, get_user_asset_position env s user debt_asset);
  collateral_position ← reads (λ env s, get_user_asset_position env s user collateral_asset);
  reject_if ((debt_to_repay <=? 0) || (collateral_to_receive <=? 0)) InsufficientCollateral ;;
  incentive ← less (ac_liquidation_threshold collateral_config) (ac_collateral_factor collateral_config);
  share ← less 10000 incentive;
  p ← times collateral_to_receive share;
  let actual_collateral := Z.quot p 10000 in
  reject_if (xp_collateral collateral_position <? actual_collateral) InsufficientCollateral ;;
  total_debt ← plus (xp_debt_principal debt_position) (xp_accrued_interest debt_position);
  reject_if (total_debt <? debt_to_repay) InsufficientCollateral ;;
  principal ← less (xp_debt_principal debt_position) debt_to_repay;
  now ← ask timestamp;
  left ← less (xp_collateral collateral_position) actual_collateral;
  set_user_asset_position user debt_asset
    (debt_position <| xp_debt_principal := principal |> <| xp_last_updated := now |>) ;;
  set_user_asset_position user collateral_asset
    (collateral_position <| xp_collateral := left |> <| xp_last_updated := now |>) ;;
  debt_delta ← less 0 debt_to_repay;
  update_total_borrow (from_option debt_asset) debt_delta ;;
  supply_delta ← less 0 actual_collateral;
  update_total_supply (from_option collateral_asset) supply_delta ;;
  mret actual_collateral.

(** ** Views *)

Definition get_supply_headroom (asset : option Address) : XM (Z * Z * Z) :=
  config ← get_asset_config (from_option asset);
  current_supply ← gets (λ s, get_total_supply s (from_option asset));
  if ac_max_supply config =? 0 then mret (I128_MAX, 0, current_supply)
  else
    room ← less (ac_max_supply config) current_supply;
    mret (Z.max room 0, ac_max_supply config, current_supply).

Definition get_borrow_utilization (asset : option Address) : XM (Z * Z) :=
  config ← get_asset_config (from_option asset);
  current_borrows ← gets (λ s, get_total_borrow s (from_option asset));
  mret (current_borrows, ac_max_borrow config).

(** ** The entry points *)

Inductive CrossCall : Type :=
  | InitializeCa (admin : Address)
  | InitializeAsset (asset : option Address) (config : AssetConfig)
  | UpdateCaConfig (asset : option Address) (cf lt ms mb : option Z) (cc cb : option bool)
  | UpdateAssetPrice (asset : option Address) (price : Z)
  | FreezePool (admin : Address) (asset : option Address) (freeze : bool)
  | CrossDeposit (user : Address) (asset : option Address) (amount : Z)
  | CrossBorrow (user : Address) (asset : option Address) (amount : Z)
  | CrossBorrowByCapacity (user : Address) (asset : option Address) (amount : Z)
  | CrossWithdraw (user : Address) (asset : option Address) (amount : Z)
  | CrossRepay (user : Address) (asset : option Address) (amount : Z)
  | CrossLiquidate (liquidator user : Address) (debt_asset collateral_asset : option Address) (debt collateral : Z).

Definition cross_dispatch (c : CrossCall) (env : Env) (s : CrossState) : CrossState :=
  match c with
  | InitializeCa a => (invoke (initialize_ca a) env s).2
  | InitializeAsset a cfg => (invoke (initialize_asset a cfg) env s).2
  | UpdateCaConfig a cf lt ms mb cc cb => (invoke (update_ca_config a cf lt ms mb cc cb) env s).2
  | UpdateAssetPrice a p => (invoke (update_asset_price a p) env s).2
  | FreezePool a t f => (invoke (freeze_pool a t f) env s).2
  | CrossDeposit u a x => (invoke (cross_asset_deposit u a x) env s).2
  | CrossBorrow u a x => (invoke (cross_asset_borrow u a x) env s).2
  | CrossBorrowByCapacity u a x => (invoke (cross_asset_borrow_by_capacity u a x) env s).2
  | CrossWithdraw u a x => (invoke (cross_asset_withdraw u a x) env s).2
  | CrossRepay u a x => (invoke (cross_asset_repay u a x) env s).2
  | CrossLiquidate l u d c x y => (invoke (cross_asset_liquidate l u d c x y) env s).2
  end.

Inductive cross_reachable : CrossState → Prop :=
  | cross_empty : cross_reachable empty_cross
  | cross_step c env s : cross_reachable s → cross_reachable (cross_dispatch c env s).
