(* ===== verification/CrossTheorems.v ===== *)
(** * CrossTheorems: what holds of the cross-asset ledger

    The operations run backwards; then the totals per asset against the
    positions, the conditions of loans and withdrawals, the meaning of the
    summary, liquidations in one asset, negative amounts, and a run in which
    collateral comes from nothing. *)

From S2P Require Import Prelude.
From S2P Require Import Host.
From S2P Require Import CrossAsset.

(** ** Running the operations backwards *)

Lemma plus_Ok a b env s x s' : plus a b env s = (Ok x, s') → x = a + b ∧ s' = s.
Proof. unfold plus. intros Hr. run_inv Hr. by checked_facts. Qed.
Lemma less_Ok a b env s x s' : less a b env s = (Ok x, s') → x = a - b ∧ s' = s.
Proof. unfold less. intros Hr. run_inv Hr. by checked_facts. Qed.
Lemma times_Ok a b env s x s' : times a b env s = (Ok x, s') → x = a * b ∧ s' = s.
Proof. unfold times. intros Hr. run_inv Hr. by checked_facts. Qed.
Lemma config_Ok k env s c s' : get_asset_config k env s = (Ok c, s') → cs_configs s !! k = Some c ∧ s' = s.
Proof. unfold get_asset_config. intros Hr. by run_inv Hr. Qed.
Lemma ca_admin_Ok env s u s' :
  require_ca_admin env s = (Ok u, s') → (∃ a, cs_admin s = Some a ∧ authorized env a = true) ∧ s' = s.
Proof. unfold require_ca_admin. intros Hr. run_inv Hr. eauto. Qed.
Lemma cross_supply_Ok k d env s u s' :
  update_total_supply k d env s = (Ok u, s') →
  s' = s <| cs_supplies := <[k := get_total_supply s k + d]> (cs_supplies s) |>.
Proof. unfold update_total_supply, plus. intros Hr. run_inv Hr. checked_facts. by subst. Qed.
Lemma total_borrow_Ok k d env s u s' :
  update_total_borrow k d env s = (Ok u, s') →
  s' = s <| cs_borrows := <[k := get_total_borrow s k + d]> (cs_borrows s) |>.
Proof. unfold update_total_borrow, plus. intros Hr. run_inv Hr. checked_facts. by subst. Qed.
Lemma set_asset_position_Ok u a p env s r s' :
  set_user_asset_position u a p env s = (Ok r, s') →
  s' = s <| cs_positions := <[(u, from_option a) := p]> (cs_positions s) |>.
Proof. by intros [= <- <-]. Qed.

#[export] Instance plus_ro a b : Readonly (plus a b).
Proof. unfold plus. apply _. Qed.
#[export] Instance less_ro a b : Readonly (less a b).
Proof. unfold less. apply _. Qed.
#[export] Instance times_ro a b : Readonly (times a b).
Proof. unfold times. apply _. Qed.
#[export] Instance config_ro k : Readonly (get_asset_config k).
Proof. unfold get_asset_config. apply _. Qed.
#[export] Instance add_asset_ro now c p v : Readonly (add_asset now c p v).
Proof. unfold add_asset. apply _. Qed.
#[export] Instance add_assets_ro u l v : Readonly (add_assets u l v).
Proof. revert v. induction l as [|k l IH]; intros v; cbn [add_assets]; apply _. Qed.
#[export] Instance summary_ro u : Readonly (get_user_position_summary u).
Proof. unfold get_user_position_summary. apply _. Qed.

Ltac run_prim H ::=
  lazymatch type of H with
  | plus _ _ _ _ = _ => apply plus_Ok in H as [? ?]
  | less _ _ _ _ = _ => apply less_Ok in H as [? ?]
  | times _ _ _ _ = _ => apply times_Ok in H as [? ?]
  | get_asset_config _ _ _ = _ => apply config_Ok in H as [? ?]
  | require_ca_admin _ _ = _ => apply ca_admin_Ok in H as [? ?]
  | update_total_supply _ _ _ _ = _ => apply cross_supply_Ok in H
  | update_total_borrow _ _ _ _ = _ => apply total_borrow_Ok in H
  | set_user_asset_position _ _ _ _ _ = _ => apply set_asset_position_Ok in H
  | get_user_position_summary _ _ _ = _ => pose proof (readonly_run _ _ _ _ _ H)
  | _ => idtac
  end.

(** ** Moves on the ledger *)

Definition asset_position (s : CrossState) (now : Z) (u : Address) (k : AssetKey) : AssetPosition :=
  default (new_asset_position now) (cs_positions s !! (u, k)).

(** What a position owes. *)
Definition debt_of (p : AssetPosition) : Z := xp_debt_principal p + xp_accrued_interest p.

(** The sums over all users' positions in an asset. *)
Definition part_of (f : AssetPosition → Z) (k : AssetKey) (uk : UserAssetKey) (p : AssetPosition) : Z :=
  if decide (uk.2 = k) then f p else 0.
Definition supplied (s : CrossState) (k : AssetKey) : Z := key_sum (part_of xp_collateral k) (cs_positions s).
Definition lent (s : CrossState) (k : AssetKey) : Z := key_sum (part_of debt_of k) (cs_positions s).

(** One position changes; the totals change by [dc] and [dd]. *)
Record moved (u : Address) (k : AssetKey) (p' : AssetPosition) (dc dd : Z) (s s' : CrossState) : Prop := {
  mv_positions : cs_positions s' = <[(u, k) := p']> (cs_positions s);
  mv_supply k' : get_total_supply s' k' = get_total_supply s k' + (if decide (k = k') then dc else 0);
  mv_borrow k' : get_total_borrow s' k' = get_total_borrow s k' + (if decide (k = k') then dd else 0);
  mv_settings : cs_admin s' = cs_admin s ∧ cs_configs s' = cs_configs s ∧ cs_list s' = cs_list s;
}.

Lemma at_position f s now u k :
  f (new_asset_position now) = 0 →
  at_key f (cs_positions s) (u, k) = f (asset_position s now u k).
Proof. intros Hf. unfold at_key, asset_position. destruct (cs_positions s !! (u, k)); cbn; [done|by rewrite Hf]. Qed.

Lemma sum_moved f now u k p' dc dd s s' k' :
  f (new_asset_position now) = 0 → moved u k p' dc dd s s' →
  key_sum (part_of f k') (cs_positions s') =
  key_sum (part_of f k') (cs_positions s) + (if decide (k = k') then f p' - f (asset_position s now u k) else 0).
Proof.
  intros Hf Hm. rewrite (mv_positions _ _ _ _ _ _ _ Hm), key_sum_insert. rewrite <- at_position by done.
  unfold part_of, at_key. cbn. destruct (decide (k = k')); destruct (_ !! (u, k)); cbn; lia.
Qed.

Lemma supplied_moved now u k p' dc dd s s' k' :
  moved u k p' dc dd s s' →
  supplied s' k' = supplied s k' +
    (if decide (k = k') then xp_collateral p' - xp_collateral (asset_position s now u k) else 0).
Proof. by apply sum_moved. Qed.

Lemma lent_moved now u k p' dc dd s s' k' :
  moved u k p' dc dd s s' →
  lent s' k' = lent s k' + (if decide (k = k') then debt_of p' - debt_of (asset_position s now u k) else 0).
Proof. by apply sum_moved. Qed.

Lemma inserted_total (m : gmap AssetKey Z) k d k' :
  default 0 (<[k := default 0 (m !! k) + d]> m !! k') = default 0 (m !! k') + (if decide (k = k') then d else 0).
Proof. destruct (decide (k = k')) as [->|Hk]; [by rewrite lookup_insert_eq|rewrite lookup_insert_ne by done; lia]. Qed.

(** The three ways an operation writes. *)
Lemma moved_supply u k p' d s s' :
  s' = s <| cs_positions := <[(u, k) := p']> (cs_positions s) |>
         <| cs_supplies := <[k := get_total_supply s k + d]> (cs_supplies s) |> →
  moved u k p' d 0 s s'.
Proof.
  intros ->. split; try done; intros k'; unfold get_total_supply, get_total_borrow; cbn.
  - apply inserted_total.
  - case_decide; lia.
Qed.
Lemma moved_borrow u k p' d s s' :
  s' = s <| cs_positions := <[(u, k) := p']> (cs_positions s) |>
         <| cs_borrows := <[k := get_total_borrow s k + d]> (cs_borrows s) |> →
  moved u k p' 0 d s s'.
Proof.
  intros ->. split; try done; intros k'; unfold get_total_supply, get_total_borrow; cbn.
  - case_decide; lia.
  - apply inserted_total.
Qed.

(** ** What the operations do *)

Ltac units := repeat match goal with v : unit |- _ => destruct v end.

Lemma cross_deposit_Ok u a x env s p s' :
  cross_asset_deposit u a x env s = (Ok p, s') →
  let p0 := asset_position s (timestamp env) u (from_option a) in
  (∃ c, cs_configs s !! from_option a = Some c ∧ ac_is_frozen c = false ∧ ac_can_collateralize c = true ∧
     (0 < ac_max_supply c → get_total_supply s (from_option a) + x ≤ ac_max_supply c)) ∧
  authorized env u = true ∧ p = p0 <| xp_collateral := xp_collateral p0 + x |> <| xp_last_updated := timestamp env |> ∧
  moved u (from_option a) p x 0 s s'.
Proof.
  unfold cross_asset_deposit. intros Hr. run_inv Hr; zbool.
  all: split; [eexists; split_and!; [done|done|done|lia]|]; split_and!; [done|done|].
  all: by apply moved_supply.
Qed.

Lemma cross_repay_Ok u a x env s p s' :
  cross_asset_repay u a x env s = (Ok p, s') →
  let p0 := asset_position s (timestamp env) u (from_option a) in
  let paid := Z.min x (debt_of p0) in
  authorized env u = true ∧ xp_collateral p = xp_collateral p0 ∧ debt_of p = debt_of p0 - paid ∧
  (xp_accrued_interest p0 < paid → xp_accrued_interest p = 0) ∧
  (paid ≤ xp_accrued_interest p0 → xp_debt_principal p = xp_debt_principal p0) ∧
  moved u (from_option a) p 0 (- paid) s s'.
Proof.
  unfold cross_asset_repay. intros Hr. cbv zeta in Hr. run_inv Hr; zbool.
  all: cbv zeta; change (get_user_asset_position env s u a) with (asset_position s (timestamp env) u (from_option a)) in *.
  all: unfold debt_of in *; split_and!; try done; cbn; try lia.
  all: by apply moved_borrow.
Qed.

Lemma cross_withdraw_Ok u a x env s p s' :
  cross_asset_withdraw u a x env s = (Ok p, s') →
  let p0 := asset_position s (timestamp env) u (from_option a) in
  authorized env u = true ∧ x ≤ xp_collateral p0 ∧
  p = p0 <| xp_collateral := xp_collateral p0 - x |> <| xp_last_updated := timestamp env |> ∧
  moved u (from_option a) p (- x) 0 s s' ∧
  ∃ t sm, t = s <| cs_positions := <[(u, from_option a) := p]> (cs_positions s) |> ∧
    get_user_position_summary u env t = (Ok sm, t) ∧ (0 < us_total_debt_value sm → 10000 ≤ us_health_factor sm).
Proof.
  unfold cross_asset_withdraw. intros Hr. run_inv Hr; zbool.
  change (get_user_asset_position env s u a) with (asset_position s (timestamp env) u (from_option a)) in *.
  all: cbv zeta; split_and!; try done; try by apply moved_supply.
  all: eexists _, _; split_and!; [reflexivity|eassumption|].
  all: match goal with H : _ ∨ _ |- _ => destruct H; zbool; lia end.
Qed.

Lemma cross_borrow_Ok u a x env s p s' :
  cross_asset_borrow u a x env s = (Ok p, s') →
  let k := from_option a in
  let p0 := asset_position s (timestamp env) u k in
  authorized env u = true ∧
  p = p0 <| xp_debt_principal := xp_debt_principal p0 + x |> <| xp_last_updated := timestamp env |> ∧
  moved u k p 0 x s s' ∧
  ∃ c, cs_configs s !! k = Some c ∧ ac_is_frozen c = false ∧ ac_can_borrow c = true ∧
    (0 < ac_max_borrow c → get_total_borrow s k + x ≤ ac_max_borrow c) ∧
    if ac_is_isolated c
    then debt_of p ≤ default 0 (checked_div (default 0 (checked_mul (xp_collateral p) (ac_collateral_factor c))) 10000)
    else ∃ t sm, t = s <| cs_positions := <[(u, k) := p]> (cs_positions s) |> ∧
      get_user_position_summary u env t = (Ok sm, t) ∧ 10000 ≤ us_health_factor sm.
Proof.
  unfold cross_asset_borrow. intros Hr. run_inv Hr; zbool.
  all: change (get_user_asset_position env s u a) with (asset_position s (timestamp env) u (from_option a)) in *.
  all: cbv zeta; split_and!; try done; try by apply moved_borrow.
  all: eexists; split_and!; [eassumption|done|done|lia|].
  all: match goal with H : ac_is_isolated _ = _ |- _ => rewrite H end; unfold debt_of; cbn in *; try done.
  all: eexists _, _; split_and!; [reflexivity|eassumption|done].
Qed.

Lemma cross_borrow_capacity_Ok u a x env s p s' :
  cross_asset_borrow_by_capacity u a x env s = (Ok p, s') →
  let k := from_option a in
  let p0 := asset_position s (timestamp env) u k in
  authorized env u = true ∧ 0 < x ∧
  p = p0 <| xp_debt_principal := xp_debt_principal p0 + x |> <| xp_last_updated := timestamp env |> ∧
  moved u k p 0 x s s' ∧
  ∃ c, cs_configs s !! k = Some c ∧ ac_can_borrow c = true ∧
    (0 < ac_max_borrow c → get_total_borrow s k + x ≤ ac_max_borrow c) ∧
    ∃ sm, get_user_position_summary u env s' = (Ok sm, s') ∧ 10000 ≤ us_health_factor sm.
Proof.
  unfold cross_asset_borrow_by_capacity. intros Hr. run_inv Hr; zbool.
  all: change (get_user_asset_position env s u a) with (asset_position s (timestamp env) u (from_option a)) in *.
  all: cbv zeta; split_and!; try done; try by apply moved_borrow.
  all: eexists; split_and!; [eassumption|done|lia|].
  all: eexists; split; [eassumption|done].
Qed.

(** The two writes of a liquidation in two assets are one move each. *)
Lemma moved_twice u k1 k2 p1 p2 d1 d2 s s' :
  k1 ≠ k2 →
  s' = s <| cs_positions := <[(u, k2) := p2]> (<[(u, k1) := p1]> (cs_positions s)) |>
         <| cs_borrows := <[k1 := get_total_borrow s k1 + d1]> (cs_borrows s) |>
         <| cs_supplies := <[k2 := get_total_supply s k2 + d2]> (cs_supplies s) |> →
  ∃ t, moved u k1 p1 0 d1 s t ∧ moved u k2 p2 d2 0 t s' ∧ cs_positions t !! (u, k2) = cs_positions s !! (u, k2).
Proof.
  intros Hk ->.
  exists (s <| cs_positions := <[(u, k1) := p1]> (cs_positions s) |>
            <| cs_borrows := <[k1 := get_total_borrow s k1 + d1]> (cs_borrows s) |>).
  split_and!; [by apply moved_borrow|by apply moved_supply|]. cbn. rewrite lookup_insert_ne; [done|]. by intros [= ?].
Qed.

Lemma cross_liquidate_Ok l u da ca x y env s got s' :
  cross_asset_liquidate l u da ca x y env s = (Ok got, s') →
  let k := from_option da in let k' := from_option ca in
  let p := asset_position s (timestamp env) u k in let q := asset_position s (timestamp env) u k' in
  authorized env l = true ∧ 0 < x ∧ 0 < y ∧ x ≤ debt_of p ∧ got ≤ xp_collateral q ∧
  (∃ c, cs_configs s !! k' = Some c ∧
     got = Z.quot (y * (10000 - (ac_liquidation_threshold c - ac_collateral_factor c))) 10000) ∧
  (∃ sm, get_user_position_summary u env s = (Ok sm, s) ∧ us_is_liquidatable sm = true) ∧
  let p' := p <| xp_debt_principal := xp_debt_principal p - x |> <| xp_last_updated := timestamp env |> in
  let q' := q <| xp_collateral := xp_collateral q - got |> <| xp_last_updated := timestamp env |> in
  s' = s <| cs_positions := <[(u, k') := q']> (<[(u, k) := p']> (cs_positions s)) |>
         <| cs_borrows := <[k := get_total_borrow s k + - x]> (cs_borrows s) |>
         <| cs_supplies := <[k' := get_total_supply s k' + - got]> (cs_supplies s) |>.
Proof.
  unfold cross_asset_liquidate. intros Hr. run_inv Hr; zbool.
  all: change (get_user_asset_position env s u da) with (asset_position s (timestamp env) u (from_option da)) in *.
  all: change (get_user_asset_position env s u ca) with (asset_position s (timestamp env) u (from_option ca)) in *.
  all: cbv zeta; split_and!; try done; try lia.
  all: try (eexists; split; [eassumption|done]).
Qed.

(** *** Administration *)

Abbreviation ledger s := (cs_positions s, cs_supplies s, cs_borrows s).

Lemma keeps_ledger_config k c b : preserves (λ s, ledger s = b) (store_config k c).
Proof. by apply preserves_modify. Qed.
Lemma keeps_ledger_publish e b : preserves (λ s, ledger s = b) (publish e).
Proof. by apply preserves_modify. Qed.
#[local] Hint Resolve keeps_ledger_config keeps_ledger_publish : preserves.

Ltac open_admin :=
  unfold initialize_ca, initialize_asset, update_ca_config, update_asset_price, freeze_pool, require_ca_admin,
    require_valid_config, require_valid_basis_points, update_factor, get_asset_config; cbv zeta.

Definition is_setting (c : CrossCall) : bool :=
  match c with
  | InitializeCa _ | InitializeAsset _ _ | UpdateCaConfig _ _ _ _ _ _ _ | UpdateAssetPrice _ _
  | FreezePool _ _ _ => true
  | _ => false
  end.

Lemma settings_keep_ledger c env s : is_setting c = true → ledger (cross_dispatch c env s) = ledger s.
Proof.
  intros Hc. destruct c; try done; cbn [cross_dispatch];
    match goal with |- context [invoke ?m env s] => destruct (invoke m env s) as [r s'] eqn:Hr end;
    (eapply (invoke_preserves (λ t, ledger t = ledger s)); [|reflexivity|exact Hr]);
    apply preserves_ok; open_admin; preserve; assumption.
Qed.

(** ** The totals *)

(** Whether an invocation keeps the two assets of a liquidation apart. *)
Definition apart (c : CrossCall) : bool :=
  match c with CrossLiquidate _ _ da ca _ _ => bool_decide (from_option da ≠ from_option ca) | _ => true end.

Lemma supply_gap_moved now u k p' dc dd s s' k' :
  moved u k p' dc dd s s' → dc = xp_collateral p' - xp_collateral (asset_position s now u k) →
  get_total_supply s' k' - supplied s' k' = get_total_supply s k' - supplied s k'.
Proof.
  intros Hm ->. rewrite (mv_supply _ _ _ _ _ _ _ Hm), (supplied_moved now _ _ _ _ _ _ _ _ Hm). case_decide; lia.
Qed.
Lemma borrow_gap_moved now u k p' dc dd s s' k' :
  moved u k p' dc dd s s' → dd = debt_of p' - debt_of (asset_position s now u k) →
  get_total_borrow s' k' - lent s' k' = get_total_borrow s k' - lent s k'.
Proof.
  intros Hm ->. rewrite (mv_borrow _ _ _ _ _ _ _ Hm), (lent_moved now _ _ _ _ _ _ _ _ Hm). case_decide; lia.
Qed.

(** By how much the totals of an asset are off. *)
Definition supply_gap (s : CrossState) (k : AssetKey) : Z := get_total_supply s k - supplied s k.
Definition borrow_gap (s : CrossState) (k : AssetKey) : Z := get_total_borrow s k - lent s k.

Lemma one_move_gaps now u k p' dc dd s s' k' :
  moved u k p' dc dd s s' → dc = xp_collateral p' - xp_collateral (asset_position s now u k) →
  dd = debt_of p' - debt_of (asset_position s now u k) →
  supply_gap s' k' = supply_gap s k' ∧ borrow_gap s' k' = borrow_gap s k'.
Proof. intros Hm Hc Hd. split; [by eapply supply_gap_moved|by eapply borrow_gap_moved]. Qed.

Lemma liquidation_gaps l u da ca x y env s got s' k' :
  cross_asset_liquidate l u da ca x y env s = (Ok got, s') →
  supply_gap s' k' = supply_gap s k' ∧ borrow_gap s' k' ≤ borrow_gap s k' ∧
  (from_option da ≠ from_option ca → borrow_gap s' k' = borrow_gap s k').
Proof.
  intros Hr. apply cross_liquidate_Ok in Hr as (_ & Hx & _ & _ & _ & _ & _ & Hs). cbv zeta in Hs.
  destruct (decide (from_option da = from_option ca)) as [Heq|Hne].
  - rewrite <- Heq in Hs. rewrite insert_insert_eq in Hs.
    set (p := asset_position s (timestamp env) u (from_option da)) in *.
    set (q := p <| xp_collateral := xp_collateral p - got |> <| xp_last_updated := timestamp env |>) in *.
    assert (Hm : moved u (from_option da) q (- got) (- x) s s').
    { subst s'. split; try done; intros k; unfold get_total_supply, get_total_borrow; cbn; apply inserted_total. }
    unfold supply_gap, borrow_gap.
    rewrite (mv_supply _ _ _ _ _ _ _ Hm), (mv_borrow _ _ _ _ _ _ _ Hm).
    rewrite (supplied_moved (timestamp env) _ _ _ _ _ _ _ _ Hm), (lent_moved (timestamp env) _ _ _ _ _ _ _ _ Hm).
    fold p. replace (debt_of q) with (debt_of p) by done. cbn [q xp_collateral].
    split_and!; [case_decide; cbn; lia|case_decide; lia|done].
  - apply moved_twice in Hs as (t & H1 & H2 & Hq); [|done].
    assert (supply_gap t k' = supply_gap s k' ∧ borrow_gap t k' = borrow_gap s k') as [<- <-].
    { eapply (one_move_gaps (timestamp env)); [exact H1|cbn; lia|unfold debt_of; cbn; lia]. }
    assert (Hq' : asset_position t (timestamp env) u (from_option ca) =
                  asset_position s (timestamp env) u (from_option ca)) by (unfold asset_position; by rewrite Hq).
    assert (supply_gap s' k' = supply_gap t k' ∧ borrow_gap s' k' = borrow_gap t k') as [-> ->]; [|by split_and!].
    eapply (one_move_gaps (timestamp env)); [exact H2|rewrite Hq'; cbn; lia|rewrite Hq'; unfold debt_of; cbn; lia].
Qed.

Lemma step_gaps c env s k :
  supply_gap (cross_dispatch c env s) k = supply_gap s k ∧
  borrow_gap (cross_dispatch c env s) k ≤ borrow_gap s k ∧
  (apart c = true → borrow_gap (cross_dispatch c env s) k = borrow_gap s k).
Proof.
  assert (Hsame : ∀ s', supply_gap s' k = supply_gap s k ∧ borrow_gap s' k = borrow_gap s k →
    supply_gap s' k = supply_gap s k ∧ borrow_gap s' k ≤ borrow_gap s k ∧
    (apart c = true → borrow_gap s' k = borrow_gap s k)) by (intros s' [-> ->]; by split_and!).
  destruct (is_setting c) eqn:Hset.
  { apply Hsame. pose proof (settings_keep_ledger c env s Hset) as Hl. injection Hl as H1 H2 H3.
    unfold supply_gap, borrow_gap, supplied, lent, get_total_supply, get_total_borrow. by rewrite H1, H2, H3. }
  destruct c; try done; cbn [cross_dispatch];
    match goal with |- context [invoke ?m env s] => destruct (invoked_or_kept m env s) as [->|(r & s' & Hr & ->)] end;
    try (by apply Hsame).
  - apply Hsame. apply cross_deposit_Ok in Hr as (_ & _ & -> & Hm).
    eapply (one_move_gaps (timestamp env)); [exact Hm|cbn; lia|unfold debt_of; cbn; lia].
  - apply Hsame. apply cross_borrow_Ok in Hr as (_ & -> & Hm & _).
    eapply (one_move_gaps (timestamp env)); [exact Hm|cbn; lia|unfold debt_of; cbn; lia].
  - apply Hsame. apply cross_borrow_capacity_Ok in Hr as (_ & _ & -> & Hm & _).
    eapply (one_move_gaps (timestamp env)); [exact Hm|cbn; lia|unfold debt_of; cbn; lia].
  - apply Hsame. apply cross_withdraw_Ok in Hr as (_ & _ & -> & Hm & _).
    eapply (one_move_gaps (timestamp env)); [exact Hm|cbn; lia|unfold debt_of; cbn; lia].
  - apply Hsame. apply cross_repay_Ok in Hr as (_ & Hc & Hd & _ & _ & Hm).
    eapply (one_move_gaps (timestamp env)); [exact Hm|lia|lia].
  - eapply liquidation_gaps in Hr as (H1 & H2 & H3). split_and!; [exact H1|exact H2|].
    intros Ha. apply bool_decide_eq_true in Ha. by apply H3.
Qed.

(** ** The summary as a sum over the assets *)

Section summary.
Implicit Types (s : CrossState) (u : Address) (k : AssetKey).

(** Whether a position counts in the summary. *)
Definition counts_in (s : CrossState) (now : Z) (u : Address) (k : AssetKey) : bool :=
  let p := asset_position s now u k in negb ((xp_collateral p =? 0) && (xp_debt_principal p =? 0)).

Definition priced (c : AssetConfig) (x : Z) : Z := Z.quot (x * ac_price c) 10000000.

Definition collateral_worth (c : AssetConfig) (p : AssetPosition) : Z := priced c (xp_collateral p).
Definition weighted_worth (c : AssetConfig) (p : AssetPosition) : Z :=
  if ac_can_collateralize c then Z.quot (collateral_worth c p * ac_liquidation_threshold c) 10000 else 0.
Definition debt_worth (c : AssetConfig) (p : AssetPosition) : Z := priced c (debt_of p).

(** The sum of a worth over the listed and configured assets. *)
Definition over_assets (f : AssetConfig → AssetPosition → Z) (s : CrossState) (now : Z) (u : Address) : Z :=
  foldr (λ k acc, match cs_configs s !! k with
                  | Some c => if counts_in s now u k then f c (asset_position s now u k) else 0
                  | None => 0
                  end + acc) 0 (cs_list s).

Definition fresh (now : Z) (c : AssetConfig) : Prop := now - ac_price_updated_at c ≤ 3600.

Lemma from_to k : from_option (to_option k) = k.
Proof. by destruct k. Qed.

Lemma add_asset_Ok now c p v env s v' s' :
  add_asset now c p v env s = (Ok v', s') →
  let counted := negb ((xp_collateral p =? 0) && (xp_debt_principal p =? 0)) in
  let add f := if counted then f c p else 0 in
  va_collateral v' = va_collateral v + add collateral_worth ∧
  va_weighted_collateral v' = va_weighted_collateral v + add weighted_worth ∧
  va_debt v' = va_debt v + add debt_worth ∧ va_weighted_debt v' = va_weighted_debt v + add debt_worth ∧
  (counted = true → fresh now c).
Proof.
  unfold add_asset. intros Hr. cbv zeta. destruct (_ && _).
  { run_inv Hr. cbn [negb]. by split_and!; try lia. }
  cbn [negb]. run_inv Hr; unfold weighted_worth, debt_worth, collateral_worth, priced, debt_of, fresh.
  all: repeat match goal with H : ac_can_collateralize _ = _ |- _ => rewrite H end; cbn.
  all: split_and!; try lia; intros _; match goal with H : (_ && _) = false |- _ => zbool; destruct H end; zbool; lia.
Qed.

Lemma add_assets_Ok u l v env s v' s' :
  add_assets u l v env s = (Ok v', s') →
  let now := timestamp env in
  let sum f := foldr (λ k acc, match cs_configs s !! k with
                  | Some c => if counts_in s now u k then f c (asset_position s now u k) else 0
                  | None => 0
                  end + acc) 0 l in
  va_collateral v' = va_collateral v + sum collateral_worth ∧
  va_weighted_collateral v' = va_weighted_collateral v + sum weighted_worth ∧
  va_debt v' = va_debt v + sum debt_worth ∧ va_weighted_debt v' = va_weighted_debt v + sum debt_worth ∧
  ∀ k c, k ∈ l → cs_configs s !! k = Some c → counts_in s now u k = true → fresh now c.
Proof.
  cbv zeta. revert v. induction l as [|k l IH]; intros v Hr; cbn [add_assets foldr] in *.
  { run_inv Hr. split_and!; try lia. intros k c Hk. by apply not_elem_of_nil in Hk. }
  apply bind_Ok in Hr as (stored & s1 & Hg & Hr). apply gets_Ok in Hg as [-> ->].
  destruct (cs_configs s !! k) as [c|] eqn:Hc.
  - apply bind_Ok in Hr as (p & s1 & Hp & Hr). apply reads_Ok in Hp as [-> ->].
    apply bind_Ok in Hr as (now & s1 & Hn & Hr). apply ask_Ok in Hn as [-> ->].
    apply bind_Ok in Hr as (v1 & s1 & Ha & Hr). pose proof (readonly_run _ _ _ _ _ Ha) as ->.
    apply add_asset_Ok in Ha. unfold get_user_asset_position in Ha. rewrite from_to in Ha.
    fold (asset_position s (timestamp env) u k) in Ha. fold (counts_in s (timestamp env) u k) in Ha.
    destruct Ha as (H1 & H2 & H3 & H4 & H5). apply IH in Hr as (I1 & I2 & I3 & I4 & I5).
    split_and!; [by rewrite I1, H1; lia|by rewrite I2, H2; lia|by rewrite I3, H3; lia|by rewrite I4, H4; lia|].
    intros k' c' [->|Hk]%elem_of_cons Hc' Hcount; [|by eapply I5].
    rewrite Hc in Hc'. injection Hc' as <-. by apply H5.
  - apply IH in Hr as (I1 & I2 & I3 & I4 & I5). split_and!; try lia.
    intros k' c' [->|Hk]%elem_of_cons Hc' Hcount; [congruence|by eapply I5].
Qed.

Lemma summary_Ok u env s sm s' :
  get_user_position_summary u env s = (Ok sm, s') →
  let now := timestamp env in
  us_total_collateral_value sm = over_assets collateral_worth s now u ∧
  us_weighted_collateral_value sm = over_assets weighted_worth s now u ∧
  us_total_debt_value sm = over_assets debt_worth s now u ∧
  us_weighted_debt_value sm = over_assets debt_worth s now u ∧
  us_health_factor sm =
    (if 0 <? over_assets debt_worth s now u
     then Z.quot (over_assets weighted_worth s now u * 10000) (over_assets debt_worth s now u) else I128_MAX) ∧
  us_is_liquidatable sm = (us_health_factor sm <? 10000) && (0 <? over_assets debt_worth s now u) ∧
  us_borrow_capacity sm = Z.max 0 (over_assets weighted_worth s now u - over_assets debt_worth s now u) ∧
  ∀ k c, k ∈ cs_list s → cs_configs s !! k = Some c → counts_in s now u k = true → fresh now c.
Proof.
  unfold get_user_position_summary. intros Hr. apply bind_Ok in Hr as (l & s1 & Hl & Hr).
  apply gets_Ok in Hl as [-> ->]. apply bind_Ok in Hr as (v & s1 & Hv & Hr).
  pose proof (readonly_run _ _ _ _ _ Hv) as ->. apply add_assets_Ok in Hv as (H1 & H2 & H3 & H4 & H5). cbn in *.
  fold (over_assets collateral_worth s (timestamp env) u) in H1.
  fold (over_assets weighted_worth s (timestamp env) u) in H2.
  fold (over_assets debt_worth s (timestamp env) u) in H3, H4.
  cbv zeta. rewrite H2, H4 in Hr.
  run_inv Hr; cbn; checked_facts; zbool; subst; split_and!; try done; try lia.
  all: try (by destruct (0 <? _) eqn:?; zbool; try lia).
Qed.

(** A health of at least one. *)
Lemma healthy wc wd h :
  h = (if 0 <? wd then Z.quot (wc * 10000) wd else I128_MAX) → 10000 ≤ h → wd ≤ 0 ∨ wd ≤ wc.
Proof.
  intros -> Hh. destruct (0 <? wd) eqn:Hwd; zbool; [|by left; lia]. right.
  destruct (Z.le_gt_cases 0 wc) as [Hc|Hc].
  - rewrite quot_pos in Hh by lia. pose proof (Z.mul_div_le (wc * 10000) wd ltac:(lia)). nia.
  - assert (Z.quot (wc * 10000) wd ≤ 0); [|lia]. apply Z.opp_nonneg_nonpos. rewrite <- Z.quot_opp_l by lia.
    apply quot_nonneg; lia.
Qed.
End summary.

(** The states that invocations lead to that keep the two assets of every
    liquidation apart. *)
Inductive cross_orderly : CrossState → Prop :=
  | orderly_empty : cross_orderly empty_cross
  | orderly_step c env s : cross_orderly s → apart c = true → cross_orderly (cross_dispatch c env s).

(** C7: in every reachable state of the cross-asset lending the total supply of
    an asset is the sum of the users' collateral in it, and its total of loans
    is at most the sum of what the users owe in it - and exactly that sum as
    long as no liquidation names one asset as both the debt and the collateral. *)
Theorem cross_totals_are_sums s k :
  (cross_reachable s → get_total_supply s k = supplied s k ∧ get_total_borrow s k ≤ lent s k) ∧
  (cross_orderly s → get_total_supply s k = supplied s k ∧ get_total_borrow s k = lent s k).
Proof.
  enough (H : (cross_reachable s → supply_gap s k = 0 ∧ borrow_gap s k ≤ 0) ∧
              (cross_orderly s → supply_gap s k = 0 ∧ borrow_gap s k = 0)).
  { destruct H as [H1 H2]. unfold supply_gap, borrow_gap in *. split; intros Hs.
    - destruct (H1 Hs). lia.
    - destruct (H2 Hs). lia. }
  split; intros Hs.
  - induction Hs as [|c env s Hs [IH1 IH2]]; [done|]. destruct (step_gaps c env s k) as (H1 & H2 & _). lia.
  - induction Hs as [|c env s Hs [IH1 IH2] Ha]; [done|]. destruct (step_gaps c env s k) as (H1 & _ & H2).
    specialize (H2 Ha). lia.
Qed.

Lemma over_assets_ext f s t now u :
  cs_positions s = cs_positions t → cs_configs s = cs_configs t → cs_list s = cs_list t →
  over_assets f s now u = over_assets f t now u.
Proof. intros Hp Hc Hl. unfold over_assets, counts_in, asset_position. by rewrite Hp, Hc, Hl. Qed.

(** The values after an operation, from the summary it was decided on. *)
Lemma summary_over u env s sm k p dc dd s' :
  get_user_position_summary u env (s <| cs_positions := <[(u, k) := p]> (cs_positions s) |>) =
    (Ok sm, s <| cs_positions := <[(u, k) := p]> (cs_positions s) |>) →
  moved u k p dc dd s s' →
  let now := timestamp env in
  us_total_debt_value sm = over_assets debt_worth s' now u ∧
  us_health_factor sm =
    (if 0 <? over_assets debt_worth s' now u
     then Z.quot (over_assets weighted_worth s' now u * 10000) (over_assets debt_worth s' now u) else I128_MAX).
Proof.
  intros Hr [Hp _ _ (_ & Hc & Hl)]. apply summary_Ok in Hr as (_ & _ & Hd & _ & Hh & _). cbv zeta.
  rewrite !(over_assets_ext _ s' (s <| cs_positions := <[(u, k) := p]> (cs_positions s) |>)) by done. done.
Qed.

Lemma pool_limit d x y :
  d ≤ default 0 (checked_div (default 0 (checked_mul x y)) 10000) → d ≤ 0 ∨ d ≤ Z.quot (x * y) 10000.
Proof.
  destruct (checked_mul x y) as [z|] eqn:Hz; [|by left]. checked_facts. subst. cbn [default].
  destruct (checked_div _ _) eqn:Hq; [|by left]. checked_facts. subst. by right.
Qed.

(** C8: a cross-asset loan that goes through was signed by the borrower, for a
    configured asset that can be borrowed and is not frozen, within its cap; it
    adds the amount to the borrower's principal and to the total; and afterwards
    either the asset is isolated and the debt in it is within the collateral
    factor's share of the collateral in it, or the value owed over all assets is
    within the weighted value of all collateral. *)
Theorem cross_loans_are_covered u a x env s p s' :
  cross_asset_borrow u a x env s = (Ok p, s') →
  let k := from_option a in let now := timestamp env in
  authorized env u = true ∧ cs_positions s' !! (u, k) = Some p ∧
  xp_debt_principal p = xp_debt_principal (asset_position s now u k) + x ∧
  get_total_borrow s' k = get_total_borrow s k + x ∧
  ∃ c, cs_configs s !! k = Some c ∧ ac_is_frozen c = false ∧ ac_can_borrow c = true ∧
  (0 < ac_max_borrow c → get_total_borrow s' k ≤ ac_max_borrow c) ∧
  if ac_is_isolated c then debt_of p ≤ 0 ∨ debt_of p ≤ Z.quot (xp_collateral p * ac_collateral_factor c) 10000
  else over_assets debt_worth s' now u ≤ 0 ∨ over_assets debt_worth s' now u ≤ over_assets weighted_worth s' now u.
Proof.
  intros Hr. apply cross_borrow_Ok in Hr as (Ha & -> & Hm & c & Hc & Hf & Hb & Hcap & Hlim). cbv zeta.
  pose proof (mv_borrow _ _ _ _ _ _ _ Hm (from_option a)) as Htotal. rewrite decide_True in Htotal by done.
  split_and!; try done.
  - rewrite (mv_positions _ _ _ _ _ _ _ Hm). apply lookup_insert_eq.
  - eexists; split_and!; [done|done|done|lia|]. destruct (ac_is_isolated c).
    + by apply pool_limit.
    + destruct Hlim as (t & sm & -> & Hsm & Hh).
      eapply (summary_over u env s sm _ _ _ _ s') in Hsm as [_ Hq]; [|exact Hm]. by eapply healthy.
Qed.

(** A withdrawal that goes through was signed by the owner and takes its
    amount off the owner's collateral in that asset, which covers it, and off
    the asset's total; afterwards what the owner owes over all assets, if
    anything, is within the weighted value of the collateral left. *)
Theorem cross_withdrawals_keep_health u a x env s p s' :
  cross_asset_withdraw u a x env s = (Ok p, s') →
  let k := from_option a in let now := timestamp env in let p0 := asset_position s now u k in
  authorized env u = true ∧ cs_positions s' !! (u, k) = Some p ∧ x ≤ xp_collateral p0 ∧
  xp_collateral p = xp_collateral p0 - x ∧ debt_of p = debt_of p0 ∧
  get_total_supply s' k = get_total_supply s k - x ∧
  (over_assets debt_worth s' now u ≤ 0 ∨ over_assets debt_worth s' now u ≤ over_assets weighted_worth s' now u).
Proof.
  intros Hr. apply cross_withdraw_Ok in Hr as (Ha & Hx & -> & Hm & t & sm & -> & Hsm & Hh). cbv zeta.
  pose proof (mv_supply _ _ _ _ _ _ _ Hm (from_option a)) as Htotal. rewrite decide_True in Htotal by done.
  split_and!; try done.
  - rewrite (mv_positions _ _ _ _ _ _ _ Hm). apply lookup_insert_eq.
  - eapply (summary_over u env s sm _ _ _ _ s') in Hsm as [Hd Hq]; [|exact Hm].
    destruct (Z.le_gt_cases (over_assets debt_worth s' (timestamp env) u) 0); [by left|].
    eapply healthy; [exact Hq|]. apply Hh. lia.
Qed.

(** A summary that is computed is the sums, over the listed and configured
    assets in which the user has collateral or principal, of the collateral's
    value, its weighted value and the debt's value, none of their prices being
    older than an hour; the health is the quotient of the weighted collateral
    and the debt; and it says liquidatable exactly when there is debt and the
    health is below one. *)
Theorem cross_summary_is_sum u env s sm s' :
  get_user_position_summary u env s = (Ok sm, s') →
  let now := timestamp env in
  s' = s ∧
  us_total_collateral_value sm = over_assets collateral_worth s now u ∧
  us_weighted_collateral_value sm = over_assets weighted_worth s now u ∧
  us_total_debt_value sm = over_assets debt_worth s now u ∧
  us_borrow_capacity sm = Z.max 0 (over_assets weighted_worth s now u - over_assets debt_worth s now u) ∧
  (us_is_liquidatable sm = true ↔
     0 < over_assets debt_worth s now u ∧
     Z.quot (over_assets weighted_worth s now u * 10000) (over_assets debt_worth s now u) < 10000) ∧
  ∀ k c, k ∈ cs_list s → cs_configs s !! k = Some c → counts_in s now u k = true → fresh now c.
Proof.
  intros Hr. pose proof (readonly_run _ _ _ _ _ Hr) as ->.
  apply summary_Ok in Hr as (H1 & H2 & H3 & _ & H5 & H6 & H7 & H8). cbv zeta. split_and!; try done.
  rewrite H6, H5. destruct (0 <? _) eqn:Hd; zbool.
  - rewrite andb_true_r, Z.ltb_lt. split; [intros ?; split; lia|by intros [_ ?]].
  - rewrite andb_false_r. split; [done|lia].
Qed.

(** A liquidation that names one asset as the debt and the collateral takes
    the collateral and lowers both totals, but leaves the debt as it was, the
    second position written being the first one read. *)
Theorem same_asset_liquidation_keeps_debt l u a x y env s got s' :
  cross_asset_liquidate l u a a x y env s = (Ok got, s') →
  let k := from_option a in let p := asset_position s (timestamp env) u k in
  ∃ q, cs_positions s' !! (u, k) = Some q ∧ xp_debt_principal q = xp_debt_principal p ∧
  xp_accrued_interest q = xp_accrued_interest p ∧ xp_collateral q = xp_collateral p - got ∧
  0 < x ∧ get_total_borrow s' k = get_total_borrow s k - x ∧ get_total_supply s' k = get_total_supply s k - got.
Proof.
  intros Hr. apply cross_liquidate_Ok in Hr as (_ & Hx & _ & _ & _ & _ & _ & ->). cbv zeta.
  eexists. split; [apply lookup_insert_eq|]. unfold get_total_borrow, get_total_supply. cbn.
  rewrite !lookup_insert_eq. cbn. split_and!; try done; lia.
Qed.

(** ** Runs *)

Definition ca_admin : Address := 1%positive.
Definition mallory : Address := 5%positive.
Definition gold_asset : option Address := Some 20%positive.
Definition silver_asset : option Address := Some 21%positive.

Definition signed_for (a : Address) (t : Z) : Env := mkEnv t 0 (λ b, bool_decide (a = b)) (λ _ _, None) (λ _ _ _ _, None).

Definition listing (asset : option Address) : AssetConfig :=
  mkAssetConfig asset 7500 8000 1000 0 0 true true 10000000 1000 false false.

Definition cross_opened : CrossState :=
  cross_dispatch (InitializeAsset silver_asset (listing silver_asset)) (signed_for ca_admin 1000)
    (cross_dispatch (InitializeAsset gold_asset (listing gold_asset)) (signed_for ca_admin 1000)
       (cross_dispatch (InitializeCa ca_admin) (signed_for ca_admin 1000) empty_cross)).

(** A withdrawal of a negative amount, and a loan. *)
Definition conjured : CrossState := cross_dispatch (CrossWithdraw mallory gold_asset (-1000)) (signed_for mallory 1100) cross_opened.
Definition loaned : CrossState := cross_dispatch (CrossBorrow mallory silver_asset 700) (signed_for mallory 1200) conjured.

(** An account that has nothing gives itself collateral, by withdrawing a
    negative amount, and borrows against it: it ends with a collateral of 1000
    and a debt of 700, and the totals and its summary count both. *)
Theorem collateral_from_nothing :
  cross_orderly loaned ∧ cs_positions cross_opened = ∅ ∧
  cs_positions loaned !! (mallory, from_option gold_asset) = Some (mkAssetPosition 1000 0 0 1100) ∧
  cs_positions loaned !! (mallory, from_option silver_asset) = Some (mkAssetPosition 0 700 0 1200) ∧
  get_total_supply loaned (from_option gold_asset) = 1000 ∧ get_total_borrow loaned (from_option silver_asset) = 700 ∧
  us_weighted_collateral_value <$> match get_user_position_summary mallory (signed_for mallory 1300) loaned with
                                   | (Ok sm, _) => Some sm | _ => None end = Some 800.
Proof.
  split; [|by vm_compute]. unfold loaned, conjured, cross_opened.
  repeat (apply orderly_step; [|reflexivity]). apply orderly_empty.
Qed.

(** A debt and a collateral in one asset, and a threshold that makes it due. *)
Definition owing_gold : CrossState :=
  cross_dispatch (UpdateCaConfig gold_asset None (Some 1000) None None None None) (signed_for ca_admin 1300)
    (cross_dispatch (CrossBorrow mallory gold_asset 500) (signed_for mallory 1200) conjured).

Lemma cross_totals_are_sums_witness :
  get_total_borrow loaned (from_option silver_asset) = lent loaned (from_option silver_asset).
Proof.
  refine (proj2 (proj2 (cross_totals_are_sums loaned (from_option silver_asset)) _)).
  unfold loaned, conjured, cross_opened. repeat (apply orderly_step; [|reflexivity]). apply orderly_empty.
Defined.

Lemma cross_loans_are_covered_witness :
  let s' := (cross_asset_borrow mallory silver_asset 700 (signed_for mallory 1200) conjured).2 in
  get_total_borrow s' (from_option silver_asset) = get_total_borrow conjured (from_option silver_asset) + 700.
Proof.
  intros s'. destruct (cross_loans_are_covered mallory silver_asset 700 (signed_for mallory 1200) conjured
    (mkAssetPosition 0 700 0 1200) s') as (_ & _ & _ & Ht & _); [vm_compute; reflexivity|]. exact Ht.
Defined.

Lemma cross_withdrawals_keep_health_witness :
  let s' := (cross_asset_withdraw mallory gold_asset 100 (signed_for mallory 1300) loaned).2 in
  get_total_supply s' (from_option gold_asset) = get_total_supply loaned (from_option gold_asset) - 100.
Proof.
  intros s'. destruct (cross_withdrawals_keep_health mallory gold_asset 100 (signed_for mallory 1300) loaned
    (mkAssetPosition 900 0 0 1300) s') as (_ & _ & _ & _ & _ & Ht & _); [vm_compute; reflexivity|]. exact Ht.
Defined.

Lemma cross_summary_is_sum_witness :
  over_assets debt_worth loaned 1300 mallory = 700.
Proof.
  destruct (cross_summary_is_sum mallory (signed_for mallory 1300) loaned
    (mkUserPositionSummary 1000 800 700 700 11428 false 100) loaned) as (_ & _ & _ & Hd & _);
    [vm_compute; reflexivity|]. exact (eq_sym Hd).
Defined.

Lemma same_asset_liquidation_keeps_debt_witness :
  let s' := (cross_asset_liquidate ca_admin mallory gold_asset gold_asset 100 100 (signed_for ca_admin 1400) owing_gold).2 in
  ∃ q, cs_positions s' !! (mallory, from_option gold_asset) = Some q ∧ xp_debt_principal q = 500 ∧
       get_total_borrow s' (from_option gold_asset) = 400.
Proof.
  intros s'. destruct (same_asset_liquidation_keeps_debt ca_admin mallory gold_asset 100 100 (signed_for ca_admin 1400)
    owing_gold 165 s') as (q & Hq & Hd & _ & _ & _ & Hb & _); [vm_compute; reflexivity|].
  exists q. split; [exact Hq|]. split; [exact Hd|exact Hb].
Defined.
