(* ===== verification/DebtToken.v ===== *)
(** * DebtToken: debt positions as tokens ([hello-world/src/debt_token.rs])

    Tokens that stand for debts: minted by anyone for any principal, moved and
    burnt by their owner.  The admin is the one of admin.rs - the keys [Admin] of
    the two modules are one entry of the storage - and an argument here, since
    this module only reads it; so is the address [Address::zero()], which the
    platform does not have. *)

From S2P Require Import Prelude.
From S2P Require Import Host.

(** ** Data *)

Abbreviation Symbol := string (only parsing).

Record DebtPosition : Type := mkDebtPosition {
  tk_borrower : Address;
  tk_principal : Z;
  tk_accrued_interest : Z;
  tk_collateral_asset : option Address;
  tk_collateral_amount : Z;
  tk_interest_rate_bps : Z;
  tk_last_accrual_time : Z;
  tk_is_liquidatable : bool;
  tk_created_at : Z;
  tk_updated_at : Z;
}.
#[export] Instance DebtPosition_upd : Updatable DebtPosition := λ p,
  mkDebtPosition (tk_borrower p) (tk_principal p) (tk_accrued_interest p) (tk_collateral_asset p)
    (tk_collateral_amount p) (tk_interest_rate_bps p) (tk_last_accrual_time p) (tk_is_liquidatable p)
    (tk_created_at p) (tk_updated_at p).

Inductive DebtTokenError : Type :=
  | TokenNotFound | Unauthorized | TransferPaused | TransferBlocked | LiquidationInProgress | InvalidTokenId
  | Undercollateralized | Overflow | ZeroAddress | AlreadyTokenized | PositionNotFound.

Inductive DebtTokenEvent : Type :=
  | DebtTokenMintedEvent (token_id : Z) (borrower : Address) (principal : Z) (collateral_asset : option Address)
      (timestamp : Z)
  | DebtTokenTransferredEvent (token_id : Z) (from to : Address) (timestamp : Z)
  | DebtTokenBurnedEvent (token_id : Z) (burner : Address) (reason : Symbol) (timestamp : Z).

(** [DebtTokenDataKey]; nothing uses [TokenUri] *)
Record DebtStore : Type := mkDebtStore {
  tkNextTokenId : option Z;
  tkTokenPosition : gmap Z DebtPosition;
  tkOwnerTokens : gmap Address (list Z);
  tkTransferPaused : option bool;
  tkBlockedAddress : gmap Address bool;
  tkTotalSupply : option Z;
  tk_events : list DebtTokenEvent;
}.
#[export] Instance DebtStore_upd : Updatable DebtStore := λ s,
  mkDebtStore (tkNextTokenId s) (tkTokenPosition s) (tkOwnerTokens s) (tkTransferPaused s) (tkBlockedAddress s)
    (tkTotalSupply s) (tk_events s).

Definition empty_debts : DebtStore := mkDebtStore None ∅ ∅ None ∅ None [].

Abbreviation DTM := (M DebtStore DebtTokenError) (only parsing).

(** ** Storage *)

Definition get_debt_position (s : DebtStore) (token_id : Z) : option DebtPosition := tkTokenPosition s !! token_id.
Definition get_user_debt_tokens (s : DebtStore) (user : Address) : list Z := default [] (tkOwnerTokens s !! user).
Definition get_total_supply (s : DebtStore) : Z := default 0 (tkTotalSupply s).
Definition get_next_token_id (s : DebtStore) : Z := default 1 (tkNextTokenId s).
Definition is_transfer_paused (s : DebtStore) : bool := default false (tkTransferPaused s).
Definition is_address_blocked (s : DebtStore) (address : Address) : bool :=
  default false (tkBlockedAddress s !! address).

Definition set_debt_position (token_id : Z) (p : DebtPosition) : DTM unit :=
  modify (λ s, s <| tkTokenPosition := <[token_id := p]> (tkTokenPosition s) |>).
Definition set_user_debt_tokens (user : Address) (l : list Z) : DTM unit :=
  modify (λ s, s <| tkOwnerTokens := <[user := l]> (tkOwnerTokens s) |>).
Definition update_next_token_id (next_id : Z) : DTM unit := modify (λ s, s <| tkNextTokenId := Some next_id |>).

Definition update_total_supply (delta : Z) : DTM unit :=
  current_supply ← gets get_total_supply;
  new_supply ← unwrap (fit in_u64 (current_supply + delta));
  modify (λ s, s <| tkTotalSupply := Some new_supply |>).

Definition publish (ev : DebtTokenEvent) : DTM unit := modify (λ s, s <| tk_events := (tk_events s ++ [ev]) |>).

(** [tokens.remove(tokens.iter().position(|&id| id == token_id)?)] *)
Fixpoint remove_first (token_id : Z) (tokens : list Z) : list Z :=
  match tokens with
  | [] => []
  | id :: rest => if id =? token_id then rest else id :: remove_first token_id rest
  end.

(** Takes a token out of the list of its owner. *)
Definition take_from (user : Address) (token_id : Z) : DTM unit :=
  tokens ← gets (λ s, get_user_debt_tokens s user);
  reject_if (bool_decide (token_id ∉ tokens)) Unauthorized ;;
  set_user_debt_tokens user (remove_first token_id tokens).

(** ** Operations *)

Section operations.
Context (zero : Address) (stored_admin : option Address).

(** Whether one of the user's tokens is for a debt of the user with this
    collateral. *)
Definition already_tokenized (s : DebtStore) (user : Address) (collateral_asset : option Address) : bool :=
  existsb (λ token_id,
    match get_debt_position s token_id with
    | Some p => bool_decide (tk_borrower p = user) && bool_decide (tk_collateral_asset p = collateral_asset)
    | None => false
    end) (get_user_debt_tokens s user).

Definition mint_debt_token (user : Address) (collateral_asset : option Address) (principal interest_rate_bps : Z) :
    DTM Z :=
  require_auth user ;;
  paused ← gets is_transfer_paused;
  reject_if paused TransferPaused ;;
  tokenized ← gets (λ s, already_tokenized s user collateral_asset);
  reject_if tokenized AlreadyTokenized ;;
  reject_if (principal <=? 0) PositionNotFound ;;
  token_id ← gets get_next_token_id;
  now ← ask timestamp;
  set_debt_position token_id
    (mkDebtPosition user principal 0 collateral_asset 0 interest_rate_bps now false now now) ;;
  owner_tokens ← gets (λ s, get_user_debt_tokens s user);
  set_user_debt_tokens user (owner_tokens ++ [token_id]) ;;
  next_id ← unwrap (fit in_u64 (token_id + 1));
  update_next_token_id next_id ;;
  update_total_supply 1 ;;
  publish (DebtTokenMintedEvent token_id user principal collateral_asset now) ;;
  mret token_id.

Definition transfer_debt_token (from to : Address) (token_id : Z) : DTM unit :=
  require_auth from ;;
  reject_if (bool_decide (to = zero)) ZeroAddress ;;
  paused ← gets is_transfer_paused;
  reject_if paused TransferPaused ;;
  blocked ← gets (λ s, is_address_blocked s to);
  reject_if blocked TransferBlocked ;;
  stored ← gets (λ s, get_debt_position s token_id);
  position ← ok_or stored TokenNotFound;
  reject_if (tk_is_liquidatable position) LiquidationInProgress ;;
  take_from from token_id ;;
  to_tokens ← gets (λ s, get_user_debt_tokens s to);
  set_user_debt_tokens to (to_tokens ++ [token_id]) ;;
  now ← ask timestamp;
  set_debt_position token_id (position <| tk_updated_at := now |>) ;;
  publish (DebtTokenTransferredEvent token_id from to now).

Definition burn_debt_token (user : Address) (token_id : Z) (reason : Symbol) : DTM unit :=
  require_auth user ;;
  stored ← gets (λ s, get_debt_position s token_id);
  position ← ok_or stored TokenNotFound;
  take_from user token_id ;;
  modify (λ s, s <| tkTokenPosition := delete token_id (tkTokenPosition s) |>) ;;
  update_total_supply (-1) ;;
  now ← ask timestamp;
  publish (DebtTokenBurnedEvent token_id user reason now).

(** The admin check of the two settings. *)
Definition debt_admin (admin : Address) : DTM unit :=
  stored ← ok_or stored_admin Unauthorized;
  reject_if (bool_decide (admin ≠ stored)) Unauthorized ;;
  require_auth admin.

Definition set_transfer_pause (admin : Address) (paused : bool) : DTM unit :=
  debt_admin admin ;;
  modify (λ s, s <| tkTransferPaused := Some paused |>).

Definition set_address_blocked (admin address : Address) (blocked : bool) : DTM unit :=
  debt_admin admin ;;
  if blocked then modify (λ s, s <| tkBlockedAddress := <[address := true]> (tkBlockedAddress s) |>)
  else modify (λ s, s <| tkBlockedAddress := delete address (tkBlockedAddress s) |>).
End operations.

Inductive DebtCall : Type :=
  | MintDebtToken (user : Address) (collateral_asset : option Address) (principal interest_rate_bps : Z)
  | TransferDebtToken (from to : Address) (token_id : Z)
  | BurnDebtToken (user : Address) (token_id : Z) (reason : Symbol)
  | SetTransferPause (admin : Address) (paused : bool)
  | SetAddressBlocked (admin address : Address) (blocked : bool).

Definition debt_dispatch (zero : Address) (stored_admin : option Address) (c : DebtCall) (env : Env) (s : DebtStore) :
    DebtStore :=
  match c with
  | MintDebtToken u a p i => (invoke (mint_debt_token u a p i) env s).2
  | TransferDebtToken f t id => (invoke (transfer_debt_token zero f t id) env s).2
  | BurnDebtToken u id r => (invoke (burn_debt_token u id r) env s).2
  | SetTransferPause a p => (invoke (set_transfer_pause stored_admin a p) env s).2
  | SetAddressBlocked a x b => (invoke (set_address_blocked stored_admin a x b) env s).2
  end.

(** The admin may be another at every invocation. *)
Inductive debt_reachable (zero : Address) : DebtStore → Prop :=
  | debts_empty : debt_reachable zero empty_debts
  | debts_step admin c env s : debt_reachable zero s → debt_reachable zero (debt_dispatch zero admin c env s).
