(* ===== verification/DebtTokenSafety.v ===== *)
(** * DebtTokenSafety: who owns the debt tokens

    Every token has one owner, the supply is the number of tokens, identifiers
    are never used twice; what minting, moving and burning do and ask for. *)

From S2P Require Import Prelude.
From S2P Require Import Host.
From S2P Require Import DebtToken.

(** ** Lists of tokens *)

Lemma remove_first_elem id x l : NoDup l → x ∈ remove_first id l ↔ x ∈ l ∧ x ≠ id.
Proof.
  induction l as [|y l IH]; cbn; intros Hl; [split; [by intros ?%elem_of_nil|by intros [?%elem_of_nil _]]|].
  apply NoDup_cons in Hl as [Hy Hl]. destruct (y =? id) eqn:E; zbool.
  - subst. rewrite elem_of_cons. naive_solver.
  - rewrite !elem_of_cons, IH by done. naive_solver.
Qed.

Lemma remove_first_NoDup id l : NoDup l → NoDup (remove_first id l).
Proof.
  induction l as [|y l IH]; cbn; intros Hl; [done|]. pose proof Hl as Hl'. apply NoDup_cons in Hl as [Hy Hl].
  destruct (y =? id); [done|]. apply NoDup_cons. split; [|by apply IH].
  rewrite remove_first_elem by done. naive_solver.
Qed.

(** ** The tokens and their owners *)

Definition owns (s : DebtStore) (u : Address) (id : Z) : Prop := id ∈ get_user_debt_tokens s u.

Record tokens_ok (s : DebtStore) : Prop := {
  to_distinct u : NoDup (get_user_debt_tokens s u);
  to_one u v id : owns s u id → owns s v id → u = v;
  to_exists u id : owns s u id → is_Some (get_debt_position s id);
  to_owned id : is_Some (get_debt_position s id) → ∃ u, owns s u id;
  to_range id : is_Some (get_debt_position s id) → 1 ≤ id < get_next_token_id s;
  to_next : 1 ≤ get_next_token_id s;
  to_supply : get_total_supply s = Z.of_nat (size (tkTokenPosition s));
}.

Lemma owns_set s u l v id :
  owns (s <| tkOwnerTokens := <[u := l]> (tkOwnerTokens s) |>) v id ↔ if decide (v = u) then id ∈ l else owns s v id.
Proof.
  unfold owns, get_user_debt_tokens. cbn. destruct (decide (v = u)) as [->|Hv].
  - by rewrite lookup_insert_eq.
  - by rewrite lookup_insert_ne.
Qed.

Lemma publish_token_Ok e env s u s' : publish e env s = (Ok u, s') → s' = s <| tk_events := (tk_events s ++ [e]) |>.
Proof. by intros [= <- <-]. Qed.
Lemma set_debt_position_Ok id p env s u s' :
  set_debt_position id p env s = (Ok u, s') → s' = s <| tkTokenPosition := <[id := p]> (tkTokenPosition s) |>.
Proof. by intros [= <- <-]. Qed.
Lemma set_tokens_Ok v l env s u s' :
  set_user_debt_tokens v l env s = (Ok u, s') → s' = s <| tkOwnerTokens := <[v := l]> (tkOwnerTokens s) |>.
Proof. by intros [= <- <-]. Qed.
Lemma token_supply_Ok d env s u s' :
  update_total_supply d env s = (Ok u, s') → s' = s <| tkTotalSupply := Some (get_total_supply s + d) |>.
Proof. unfold update_total_supply. intros Hr. run_inv Hr.
  match goal with H : fit _ _ = Some _ |- _ => by apply fit_Some in H as [_ ->] end.
Qed.

Ltac run_prim H ::=
  lazymatch type of H with
  | publish _ _ _ = _ => apply publish_token_Ok in H
  | set_debt_position _ _ _ _ = _ => apply set_debt_position_Ok in H
  | set_user_debt_tokens _ _ _ _ = _ => apply set_tokens_Ok in H
  | update_next_token_id _ _ _ = _ => unfold update_next_token_id in H; apply modify_Ok in H
  | update_total_supply _ _ _ = _ => apply token_supply_Ok in H
  | take_from _ _ _ _ = _ => unfold take_from in H; run_step H
  | _ => idtac
  end.

(** ** What the operations do *)

Ltac units := repeat match goal with v : unit |- _ => destruct v end.

Lemma mint_Ok u a x i env s id s' :
  mint_debt_token u a x i env s = (Ok id, s') →
  authorized env u = true ∧ is_transfer_paused s = false ∧ already_tokenized s u a = false ∧ 0 < x ∧
  id = get_next_token_id s ∧
  get_next_token_id s' = id + 1 ∧ get_total_supply s' = get_total_supply s + 1 ∧
  tkTokenPosition s' = <[id := mkDebtPosition u x 0 a 0 i (timestamp env) false (timestamp env) (timestamp env)]>
                         (tkTokenPosition s) ∧
  tkOwnerTokens s' = <[u := (get_user_debt_tokens s u ++ [id])]> (tkOwnerTokens s).
Proof.
  unfold mint_debt_token. intros Hr. run_inv Hr. zbool.
  match goal with H : fit _ _ = Some _ |- _ => apply fit_Some in H as [_ ->] end. by split_and!.
Qed.

Section moves.
Context (zero : Address).

Lemma transfer_Ok f t id env s r s' :
  transfer_debt_token zero f t id env s = (Ok r, s') →
  authorized env f = true ∧ t ≠ zero ∧ is_transfer_paused s = false ∧ is_address_blocked s t = false ∧ owns s f id ∧
  get_next_token_id s' = get_next_token_id s ∧ get_total_supply s' = get_total_supply s ∧
  (∃ p, get_debt_position s id = Some p ∧ tk_is_liquidatable p = false ∧
     tkTokenPosition s' = <[id := p <| tk_updated_at := timestamp env |>]> (tkTokenPosition s)) ∧
  let s1 := s <| tkOwnerTokens := <[f := remove_first id (get_user_debt_tokens s f)]> (tkOwnerTokens s) |> in
  tkOwnerTokens s' = <[t := (get_user_debt_tokens s1 t ++ [id])]> (tkOwnerTokens s1).
Proof.
  unfold transfer_debt_token. intros Hr. run_inv Hr. zbool. unfold owns.
  split_and!; try done; [by apply dec_stable|]. eexists; by split_and!.
Qed.

Lemma burn_Ok u id why env s r s' :
  burn_debt_token u id why env s = (Ok r, s') →
  authorized env u = true ∧ owns s u id ∧ is_Some (get_debt_position s id) ∧
  get_next_token_id s' = get_next_token_id s ∧ get_total_supply s' = get_total_supply s - 1 ∧
  tkTokenPosition s' = delete id (tkTokenPosition s) ∧
  tkOwnerTokens s' = <[u := remove_first id (get_user_debt_tokens s u)]> (tkOwnerTokens s).
Proof.
  unfold burn_debt_token. intros Hr. run_inv Hr. zbool. unfold owns. split_and!; try done; by apply dec_stable.
Qed.

(** ** One owner each *)

Lemma owns_by_map s s' :
  tkOwnerTokens s' = tkOwnerTokens s → ∀ u id, owns s' u id ↔ owns s u id.
Proof. intros H u id. unfold owns, get_user_debt_tokens. by rewrite H. Qed.

(** Owners and lists after one list was replaced. *)
Lemma owners_set s s' u l :
  tkOwnerTokens s' = <[u := l]> (tkOwnerTokens s) →
  (∀ v id, owns s' v id ↔ if decide (v = u) then id ∈ l else owns s v id) ∧
  (∀ v, get_user_debt_tokens s' v = if decide (v = u) then l else get_user_debt_tokens s v).
Proof.
  intros H. split.
  - intros v id. rewrite <- owns_set. apply owns_by_map. exact H.
  - intros v. unfold get_user_debt_tokens. rewrite H. destruct (decide (v = u)) as [->|Hv].
    + by rewrite lookup_insert_eq.
    + by rewrite lookup_insert_ne.
Qed.

Lemma mint_ok u a x i env s id s' :
  tokens_ok s → mint_debt_token u a x i env s = (Ok id, s') → tokens_ok s'.
Proof.
  intros [H1 H2 H3 H4 H5 H6 H7] Hr. apply mint_Ok in Hr as (_ & _ & _ & _ & Hid & Hn & Hs & Hp & Ho).
  apply owners_set in Ho as [Ho Hl].
  assert (Hnew : tkTokenPosition s !! id = None).
  { destruct (tkTokenPosition s !! id) eqn:E; [|done]. destruct (H5 id) as [_ ?]; [by eexists|lia]. }
  assert (Hfree : ∀ v, ¬ owns s v id).
  { intros v Hv. apply H3 in Hv as [p Hq]. unfold get_debt_position in Hq. congruence. }
  assert (Hpos : ∀ j, is_Some (get_debt_position s' j) ↔ j = id ∨ is_Some (get_debt_position s j)).
  { intros j. unfold get_debt_position. rewrite Hp. destruct (decide (id = j)) as [->|Hj].
    - rewrite lookup_insert_eq. split; [by left|by eexists].
    - rewrite lookup_insert_ne by done. naive_solver. }
  split.
  - intros v. rewrite Hl. destruct (decide (v = u)) as [->|]; [|done].
    apply NoDup_app. split_and!; [done|intros j Hj ->%list_elem_of_singleton; by eapply Hfree|apply NoDup_singleton].
  - intros v w j. rewrite !Ho. destruct (decide (v = u)), (decide (w = u)); rewrite ?elem_of_app, ?list_elem_of_singleton;
      subst; try done; [| |by apply H2].
    + intros [Hj| ->] Hw; [by eapply H2|by apply Hfree in Hw].
    + intros Hw [Hj| ->]; [by eapply H2|by apply Hfree in Hw].
  - intros v j. rewrite Ho, Hpos. destruct (decide (v = u)); [rewrite elem_of_app, list_elem_of_singleton|]; naive_solver.
  - intros j [->|Hj]%Hpos.
    + exists u. rewrite Ho, decide_True, elem_of_app, list_elem_of_singleton by done. by right.
    + destruct (H4 j Hj) as [v Hv]. exists v. rewrite Ho. destruct (decide (v = u)) as [->|]; [|done].
      rewrite elem_of_app. by left.
  - intros j [->|Hj]%Hpos; [lia|]. apply H5 in Hj. lia.
  - lia.
  - rewrite Hs, Hp, map_size_insert_None by done. lia.
Qed.
Lemma take_owners s id u s1 :
  tokens_ok s → owns s u id →
  tkOwnerTokens s1 = <[u := remove_first id (get_user_debt_tokens s u)]> (tkOwnerTokens s) →
  (∀ v, NoDup (get_user_debt_tokens s1 v)) ∧ ∀ v j, owns s1 v j ↔ owns s v j ∧ j ≠ id.
Proof.
  intros [H1 H2 _ _ _ _ _] Hu Ho. apply owners_set in Ho as [Ho Hl]. split.
  - intros v. rewrite Hl. destruct (decide (v = u)); [by apply remove_first_NoDup|done].
  - intros v j. rewrite Ho. destruct (decide (v = u)) as [->|Hv].
    + by apply remove_first_elem.
    + split; [|by intros [? _]]. intros Hj. split; [done|]. intros ->. by apply Hv, (H2 _ _ id).
Qed.

Lemma transfer_owners f t id env s r s' :
  tokens_ok s → transfer_debt_token zero f t id env s = (Ok r, s') →
  (∀ v, NoDup (get_user_debt_tokens s' v)) ∧
  ∀ v j, owns s' v j ↔ owns s v j ∧ j ≠ id ∨ v = t ∧ j = id.
Proof.
  intros Hok Hr. apply transfer_Ok in Hr as (_ & _ & _ & _ & Hf & _ & _ & _ & Ho). cbv zeta in Ho.
  set (s1 := s <| tkOwnerTokens := _ |>) in *.
  destruct (take_owners s id f s1 Hok Hf eq_refl) as [Hd1 Ho1].
  apply owners_set in Ho as [Ho Hl]. split.
  - intros v. rewrite Hl. destruct (decide (v = t)); [|done].
    apply NoDup_app. split_and!; [done| |apply NoDup_singleton].
    intros j Hj ->%list_elem_of_singleton. apply (Ho1 t id) in Hj as [_ []]. done.
  - intros v j. rewrite Ho, <- Ho1. destruct (decide (v = t)) as [->|Hv].
    + rewrite elem_of_app, list_elem_of_singleton. unfold owns. naive_solver.
    + naive_solver.
Qed.

Lemma transfer_ok f t id env s r s' :
  tokens_ok s → transfer_debt_token zero f t id env s = (Ok r, s') → tokens_ok s'.
Proof.
  intros Hok Hr. destruct (transfer_owners _ _ _ _ _ _ _ Hok Hr) as [Hd Ho].
  apply transfer_Ok in Hr as (_ & _ & _ & _ & Hf & Hn & Hs & (p & Hp & _ & Hp') & _).
  destruct Hok as [H1 H2 H3 H4 H5 H6 H7].
  assert (Hpos : ∀ j, is_Some (get_debt_position s' j) ↔ is_Some (get_debt_position s j)).
  { intros j. unfold get_debt_position in *. rewrite Hp'. destruct (decide (id = j)) as [->|Hj].
    - rewrite lookup_insert_eq, Hp. done.
    - by rewrite lookup_insert_ne. }
  split; [done|..].
  - intros v w j. rewrite !Ho. intros [[Hv Hj]|[-> ->]] [[Hw Hj']|[-> Hj']]; try done. by eapply H2.
  - intros v j Hj. apply Hpos. apply Ho in Hj as [[Hj _]|[_ ->]]; by eapply H3.
  - intros j Hj. destruct (decide (j = id)) as [->|Hne]; [exists t; apply Ho; by right|].
    apply Hpos, H4 in Hj as [v Hv]. exists v. apply Ho. by left.
  - intros j Hj. rewrite Hn. by apply H5, Hpos.
  - by rewrite Hn.
  - rewrite Hs, Hp', map_size_insert_Some; [done|]. by exists p.
Qed.

Lemma burn_ok u id why env s r s' :
  tokens_ok s → burn_debt_token u id why env s = (Ok r, s') → tokens_ok s'.
Proof.
  intros Hok Hr. apply burn_Ok in Hr as (_ & Hu & [p Hp] & Hn & Hs & Hp' & Ho).
  destruct (take_owners s id u s' Hok Hu Ho) as [Hd Ho']. destruct Hok as [H1 H2 H3 H4 H5 H6 H7].
  assert (Hpos : ∀ j, is_Some (get_debt_position s' j) ↔ is_Some (get_debt_position s j) ∧ j ≠ id).
  { intros j. unfold get_debt_position in *. rewrite Hp'. destruct (decide (id = j)) as [->|Hj].
    - rewrite lookup_delete_eq. split; [by intros []|by intros [_ []]].
    - rewrite lookup_delete_ne by done. naive_solver. }
  split; [done|..].
  - intros v w j. rewrite !Ho'. intros [Hv _] [Hw _]. by eapply H2.
  - intros v j [Hj Hne]%Ho'. apply Hpos. split; [by eapply H3|done].
  - intros j [Hj Hne]%Hpos. destruct (H4 j Hj) as [v Hv]. exists v. by apply Ho'.
  - intros j [Hj _]%Hpos. rewrite Hn. by apply H5.
  - by rewrite Hn.
  - rewrite Hs, Hp', map_size_delete_Some; [|by exists p].
    assert (size (tkTokenPosition s) ≠ 0%nat); [|lia]. apply map_size_non_empty_iff. intros He.
    unfold get_debt_position in Hp. by rewrite He, lookup_empty in Hp.
Qed.

Lemma setting_ok {A} (m : DTM A) env s r s' :
  (∀ o, preserves (λ t, (tkNextTokenId t, tkTokenPosition t, tkOwnerTokens t, tkTotalSupply t) = o) m) →
  m env s = (r, s') → tokens_ok s → tokens_ok s'.
Proof.
  intros Hm Hr [H1 H2 H3 H4 H5 H6 H7]. specialize (Hm _ env s r s' eq_refl Hr). injection Hm as E1 E2 E3 E4.
  split; unfold owns, get_user_debt_tokens, get_debt_position, get_next_token_id, get_total_supply in *;
    by rewrite ?E1, ?E2, ?E3, ?E4.
Qed.

Lemma step_ok admin c env s : tokens_ok s → tokens_ok (debt_dispatch zero admin c env s).
Proof.
  intros Hok. destruct c; cbn [debt_dispatch];
    match goal with |- context [invoke ?m env s] => destruct (m env s) as [[a|e|] s'] eqn:Hr end;
    unfold invoke; rewrite Hr; try done.
  - by eapply mint_ok.
  - by eapply transfer_ok.
  - by eapply burn_ok.
  - eapply setting_ok; [|exact Hr|done]. intros o. unfold set_transfer_pause, debt_admin. preserve. assumption.
  - eapply setting_ok; [|exact Hr|done]. intros o. unfold set_address_blocked, debt_admin. preserve; assumption.
Qed.

Lemma empty_ok : tokens_ok empty_debts.
Proof.
  split; try done.
  - intros u. apply NoDup_nil_2.
  - intros u v id Hu. by apply elem_of_nil in Hu.
  - intros u id Hu. by apply elem_of_nil in Hu.
  - intros id [p Hp]. done.
  - intros id [p Hp]. done.
Qed.

Lemma debts_ok s : debt_reachable zero s → tokens_ok s.
Proof. induction 1; [apply empty_ok|by apply step_ok]. Qed.
End moves.

(** C16: in every reachable state every debt token has exactly one owner, in
    whose list it is exactly once, the lists hold no other identifiers, all
    identifiers are below the next one, and the supply is the number of tokens. *)
Theorem debt_tokens_have_one_owner zero s :
  debt_reachable zero s →
  (∀ id, is_Some (get_debt_position s id) ↔ ∃ u, owns s u id) ∧
  (∀ u v id, owns s u id → owns s v id → u = v) ∧
  (∀ u, NoDup (get_user_debt_tokens s u)) ∧
  (∀ id, is_Some (get_debt_position s id) → 1 ≤ id < get_next_token_id s) ∧
  get_total_supply s = Z.of_nat (size (tkTokenPosition s)).
Proof.
  intros [H1 H2 H3 H4 H5 _ H7]%debts_ok. split_and!; try done. intros id. split; [apply H4|intros [u Hu]; by eapply H3].
Qed.

(** A transfer that goes through was signed by the token's owner, while
    transfers were not paused and the recipient not blocked; the recipient
    becomes the owner, every other token keeps its owner, and the debt the token
    stands for - borrower, principal, interest, collateral - is unchanged. *)
Theorem debt_transfer_moves_ownership zero f t id env s r s' :
  debt_reachable zero s → transfer_debt_token zero f t id env s = (Ok r, s') →
  authorized env f = true ∧ owns s f id ∧ is_transfer_paused s = false ∧ is_address_blocked s t = false ∧
  (∀ v j, owns s' v j ↔ owns s v j ∧ j ≠ id ∨ v = t ∧ j = id) ∧
  (∀ j, j ≠ id → get_debt_position s' j = get_debt_position s j) ∧
  ∃ p, get_debt_position s id = Some p ∧
       get_debt_position s' id = Some (p <| tk_updated_at := timestamp env |>).
Proof.
  intros Hs Hr. apply debts_ok in Hs. destruct (transfer_owners _ _ _ _ _ _ _ _ Hs Hr) as [_ Ho].
  apply transfer_Ok in Hr as (Ha & _ & Hp & Hb & Hf & _ & _ & (p & Hq & _ & Hp') & _). split_and!; try done.
  - intros j Hj. unfold get_debt_position. rewrite Hp'. by rewrite lookup_insert_ne.
  - exists p. split; [done|]. unfold get_debt_position. rewrite Hp'. apply lookup_insert_eq.
Qed.

(** Who holds no debt token can mint one for any positive principal and
    rate, whatever is owed in truth, and burn it again at once: afterwards the
    tokens and the supply are as before, nothing was paid, and only the
    identifier is used up. *)
Theorem debt_tokens_stand_for_nothing zero u a x i why env s :
  debt_reachable zero s → get_user_debt_tokens s u = [] → authorized env u = true → is_transfer_paused s = false →
  0 < x → get_next_token_id s < U64_MAX → get_total_supply s < U64_MAX →
  ∃ s1 s2, mint_debt_token u a x i env s = (Ok (get_next_token_id s), s1) ∧
    tk_principal <$> get_debt_position s1 (get_next_token_id s) = Some x ∧
    burn_debt_token u (get_next_token_id s) why env s1 = (Ok tt, s2) ∧
    tkTokenPosition s2 = tkTokenPosition s ∧ get_total_supply s2 = get_total_supply s ∧
    get_next_token_id s2 = get_next_token_id s + 1.
Proof.
  intros Hs Hnone Ha Hp Hx Hid Hsup. pose proof (debts_ok _ _ Hs) as Hok.
  pose proof (to_next _ Hok) as Hnext. pose proof (to_supply _ Hok) as Hsize.
  assert (Hfree : tkTokenPosition s !! get_next_token_id s = None).
  { destruct (_ !! _) as [p|] eqn:E; [|done]. destruct (to_range _ Hok (get_next_token_id s)) as [_ ?]; [by exists p|lia]. }
  assert (Hmint : ∃ s1, mint_debt_token u a x i env s = (Ok (get_next_token_id s), s1)).
  { assert (Hfirst : already_tokenized s u a = false) by (unfold already_tokenized; by rewrite Hnone).
    unfold mint_debt_token, set_debt_position, set_user_debt_tokens, update_next_token_id,
      update_total_supply, publish, require_auth.
    rewrite bind_eq, Ha. run_fwd. rewrite Hp. run_fwd. rewrite Hfirst. run_fwd.
    rewrite (proj2 (Z.leb_gt x 0)) by lia. run_fwd. rewrite fits_u64 by lia. run_fwd.
    unfold get_total_supply in *. cbn. rewrite fits_u64 by lia. run_fwd. eexists. reflexivity. }
  destruct Hmint as [s1 Hmint]. pose proof Hmint as Hm.
  apply mint_Ok in Hm as (_ & _ & _ & _ & _ & Hn1 & Hs1 & Hp1 & Ho1).
  assert (Hl1 : get_user_debt_tokens s1 u = [get_next_token_id s]).
  { destruct (owners_set _ _ _ _ Ho1) as [_ Hl]. by rewrite Hl, decide_True, Hnone. }
  assert (Hburn : ∃ s2, burn_debt_token u (get_next_token_id s) why env s1 = (Ok tt, s2)).
  { unfold burn_debt_token, take_from, set_user_debt_tokens, update_total_supply, publish, require_auth.
    rewrite bind_eq, Ha. run_fwd. unfold get_debt_position. rewrite Hp1, lookup_insert_eq. run_fwd.
    rewrite Hl1. rewrite bool_decide_eq_false_2 by (intros []; by left). run_fwd.
    unfold get_total_supply in *. cbn. rewrite fits_u64 by lia. run_fwd. eexists. reflexivity. }
  destruct Hburn as [s2 Hburn]. exists s1, s2. pose proof Hburn as Hb.
  apply burn_Ok in Hb as (_ & _ & _ & Hn2 & Hs2 & Hp2 & _). split_and!; try done.
  - unfold get_debt_position. by rewrite Hp1, lookup_insert_eq.
  - rewrite Hp2, Hp1. by rewrite delete_insert_id.
  - lia.
  - lia.
Qed.

(** ** Examples *)

Definition debtor : Address := 5%positive.
Definition buyer : Address := 6%positive.
Definition nobody : Address := 9%positive.

Definition minting : DebtCall := MintDebtToken debtor None 100 500.
Definition signs (a : Address) (t : Z) : Env := mkEnv t 0 (λ b, bool_decide (a = b)) (λ _ _, None) (λ _ _ _ _, None).
Definition minted : DebtStore := debt_dispatch nobody None minting (signs debtor 10) empty_debts.

Lemma minted_reachable : debt_reachable nobody minted.
Proof. apply debts_step, debts_empty. Qed.

Lemma debt_tokens_have_one_owner_witness : ∃ u, owns minted u 1.
Proof. apply (debt_tokens_have_one_owner nobody minted minted_reachable). vm_compute. by eexists. Defined.

Lemma debt_transfer_moves_ownership_witness :
  owns (transfer_debt_token nobody debtor buyer 1 (signs debtor 11) minted).2 buyer 1.
Proof.
  destruct (debt_transfer_moves_ownership nobody debtor buyer 1 (signs debtor 11) minted tt
    (transfer_debt_token nobody debtor buyer 1 (signs debtor 11) minted).2 minted_reachable)
    as (_ & _ & _ & _ & Ho & _); [vm_compute; reflexivity|]. apply Ho. by right.
Defined.

Lemma debt_tokens_stand_for_nothing_witness :
  ∃ s1 s2, mint_debt_token buyer None 1000000 0 (signs buyer 12) minted = (Ok 2, s1) ∧
    burn_debt_token buyer 2 "" (signs buyer 12) s1 = (Ok tt, s2) ∧ tkTokenPosition s2 = tkTokenPosition minted.
Proof.
  destruct (debt_tokens_stand_for_nothing nobody buyer None 1000000 0 "" (signs buyer 12) minted minted_reachable)
    as (s1 & s2 & H1 & _ & H2 & H3 & _); [vm_compute; reflexivity..|].
  exists s1, s2. split; [exact H1|]. split; [exact H2|exact H3].
Defined.
