(* ===== verification/LiquidationQueue.v ===== *)
(** * LiquidationQueue: the queue of liquidations ([hello-world/src/liquidation_queue.rs])

    Liquidators register their interest in unhealthy positions; entries have a
    priority, expire, and are processed or cancelled.  The queue reads the health
    of positions and the admin in the storage of the rest of the contract, an
    argument here, and writes nothing but its own. *)

From S2P Require Import Prelude.
From S2P Require Import Host.
From S2P Require Import HelloTypes.
From S2P Require Import HelloParams.
From S2P Require Import HelloCalls.
From S2P Require Import PositionTypes.
From S2P Require Import Reserves.

(** ** Data *)

Definition MAX_QUEUE_SIZE : Z := 1000.
Definition QUEUE_ENTRY_EXPIRATION : Z := 86400.
Definition LIQUIDATION_THRESHOLD_BPS : Z := 10000.
Definition SEVERE_HEALTH_MULTIPLIER : Z := 2.
Definition CRITICAL_HEALTH_MULTIPLIER : Z := 3.
Definition SEVERE_HEALTH_THRESHOLD_BPS : Z := 8000.
Definition CRITICAL_HEALTH_THRESHOLD_BPS : Z := 5000.

Inductive QueueEntryStatus : Type := Pending | Processing | Completed | Expired | Cancelled.
#[export] Instance QueueEntryStatus_eq_dec : EqDecision QueueEntryStatus.
Proof. solve_decision. Defined.

Record LiquidationQueueEntry : Type := mkLiquidationQueueEntry {
  qe_id : Z;
  qe_borrower : Address;
  qe_liquidator : Address;
  qe_health_factor : Z;
  qe_priority_score : Z;
  qe_queued_at : Z;
  qe_expires_at : Z;
  qe_status : QueueEntryStatus;
  qe_debt_value : Z;
  qe_collateral_value : Z;
}.
#[export] Instance LiquidationQueueEntry_upd : Updatable LiquidationQueueEntry := λ e,
  mkLiquidationQueueEntry (qe_id e) (qe_borrower e) (qe_liquidator e) (qe_health_factor e) (qe_priority_score e)
    (qe_queued_at e) (qe_expires_at e) (qe_status e) (qe_debt_value e) (qe_collateral_value e).

Record QueueConfig : Type := mkQueueConfig {
  qc_max_queue_size : Z;
  qc_entry_expiration : Z;
  qc_fifo_enabled : bool;
  qc_priority_enabled : bool;
}.

Record QueueStats : Type := mkQueueStats {
  qs_total_entries : Z;
  qs_pending : Z;
  qs_processing : Z;
  qs_completed : Z;
  qs_expired : Z;
  qs_cancelled : Z;
}.

(** [impl Default for QueueConfig] *)
Definition default_queue_config : QueueConfig := mkQueueConfig MAX_QUEUE_SIZE QUEUE_ENTRY_EXPIRATION true true.

Inductive QueueEvent : Type :=
  | LiquidationQueuedEvent (entry_id : Z) (borrower liquidator : Address) (health_factor priority_score timestamp : Z)
  | LiquidationProcessedEvent (entry_id : Z) (borrower liquidator executor : Address) (timestamp : Z)
  | LiquidationCancelledEvent (entry_id : Z) (caller : Address) (timestamp : Z).

(** The queue's keys of [DataKey] in storage.rs *)
Record QueueStore : Type := mkQueueStore {
  qkConfig : option QueueConfig;
  qkNextId : option Z;
  qkEntry : gmap Z LiquidationQueueEntry;
  qk_events : list QueueEvent;
}.
#[export] Instance QueueStore_upd : Updatable QueueStore := λ s,
  mkQueueStore (qkConfig s) (qkNextId s) (qkEntry s) (qk_events s).

Definition empty_queue : QueueStore := mkQueueStore None None ∅ [].

Abbreviation LQM := (M QueueStore LendingError) (only parsing).

(** ** Storage *)

Definition initialize_queue (config : QueueConfig) : LQM unit :=
  modify (λ s, s <| qkConfig := Some config |> <| qkNextId := Some 0 |>).

Definition get_queue_config (s : QueueStore) : QueueConfig := default default_queue_config (qkConfig s).
Definition next_queue_id (s : QueueStore) : Z := default 0 (qkNextId s).
Definition get_queue_entry (s : QueueStore) (entry_id : Z) : option LiquidationQueueEntry := qkEntry s !! entry_id.

Definition set_entry (entry_id : Z) (e : LiquidationQueueEntry) : LQM unit :=
  modify (λ s, s <| qkEntry := <[entry_id := e]> (qkEntry s) |>).
Definition publish (ev : QueueEvent) : LQM unit := modify (λ s, s <| qk_events := (qk_events s ++ [ev]) |>).

Definition is_pending (e : LiquidationQueueEntry) : bool := bool_decide (qe_status e = Pending).

(** The entries met by a loop [for id in 0..next_id]. *)
Definition all_entries (s : QueueStore) : list LiquidationQueueEntry :=
  omap (λ id, get_queue_entry s id) (seqZ 0 (next_queue_id s)).

Definition get_pending_queue_entries (s : QueueStore) : list LiquidationQueueEntry :=
  List.filter is_pending (all_entries s).

(** [calculate_priority_score], whose [i128] operators trap on overflow *)
Definition calculate_priority_score (health_factor debt_value : Z) : LQM Z :=
  base_score ← unwrap (checked_sub 10000 health_factor);
  let multiplier := if health_factor <=? CRITICAL_HEALTH_THRESHOLD_BPS then CRITICAL_HEALTH_MULTIPLIER
                    else if health_factor <=? SEVERE_HEALTH_THRESHOLD_BPS then SEVERE_HEALTH_MULTIPLIER
                    else 1 in
  let debt_bonus := Z.min (Z.quot debt_value 1000000) 1000 in
  p ← unwrap (checked_mul base_score multiplier);
  unwrap (checked_add p debt_bonus).

(** The body of the loop of [cleanup_expired_entries]. *)
Definition expire_entry (now id cleaned : Z) : LQM Z :=
  stored ← gets (λ s, get_queue_entry s id);
  match stored with
  | Some entry =>
      if is_pending entry && (qe_expires_at entry <? now) then
        set_entry id (entry <| qe_status := Expired |>) ;;
        unwrap (fit in_u32 (cleaned + 1))
      else mret cleaned
  | None => mret cleaned
  end.

Fixpoint expire_entries (now : Z) (ids : list Z) (cleaned : Z) : LQM Z :=
  match ids with
  | [] => mret cleaned
  | id :: rest => cleaned ← expire_entry now id cleaned; expire_entries now rest cleaned
  end.

Definition cleanup_expired_entries : LQM Z :=
  now ← ask timestamp;
  next_id ← gets next_queue_id;
  expire_entries now (seqZ 0 next_id) 0.

(** The loop that keeps the first entry with the highest score. *)
Definition best_by_score (queue : list LiquidationQueueEntry) : option LiquidationQueueEntry :=
  (foldl (λ '(best, best_score) e,
            if best_score <? qe_priority_score e then (Some e, qe_priority_score e) else (best, best_score))
         (None, I128_MIN) queue).1.

(** The loop that keeps the first entry queued earliest. *)
Definition oldest (queue : list LiquidationQueueEntry) : option LiquidationQueueEntry :=
  (foldl (λ '(old, oldest_time) e,
            if qe_queued_at e <? oldest_time then (Some e, qe_queued_at e) else (old, oldest_time))
         (None, U64_MAX) queue).1.

Definition get_next_liquidation : LQM (option LiquidationQueueEntry) :=
  config ← gets get_queue_config;
  queue ← gets get_pending_queue_entries;
  if bool_decide (queue = []) then mret None
  else
    cleanup_expired_entries ;;
    queue ← gets get_pending_queue_entries;
    if bool_decide (queue = []) then mret None
    else if qc_priority_enabled config then mret (best_by_score queue)
    else mret (oldest queue).

Definition count_status (st : QueueEntryStatus) (s : QueueStore) : Z :=
  len (List.filter (λ e, bool_decide (qe_status e = st)) (all_entries s)).

Definition get_queue_stats (s : QueueStore) : QueueStats :=
  mkQueueStats (next_queue_id s) (count_status Pending s) (count_status Processing s) (count_status Completed s)
    (count_status Expired s) (count_status Cancelled s).

(** ** Operations *)

Section operations.
Context (rest : PState).

(** An operation of another module that only reads, on the rest of the
    contract's storage. *)
Definition elsewhere {E A} (m : M PState E A) : M QueueStore E A := λ env s, ((m env rest).1, s).

Definition register_liquidation_interest (liquidator borrower : Address) : LQM Z :=
  require_auth liquidator ;;
  health_factor ← map_err (λ _, InvalidState) (elsewhere (calculate_health_factor borrower));
  reject_if (LIQUIDATION_THRESHOLD_BPS <=? health_factor) InvalidState ;;
  config ← gets get_queue_config;
  queue ← gets get_pending_queue_entries;
  reject_if (qc_max_queue_size config <=? len queue) LimitExceeded ;;
  position ← map_err (λ _, DataNotFound) (elsewhere (get_user_position_summary borrower));
  priority_score ← calculate_priority_score health_factor (pos_debt position);
  entry_id ← gets next_queue_id;
  now ← ask timestamp;
  expires_at ← unwrap (u64_checked_add now (qc_entry_expiration config));
  set_entry entry_id
    (mkLiquidationQueueEntry entry_id borrower liquidator health_factor priority_score now expires_at Pending
       (pos_debt position) (pos_collateral position)) ;;
  next ← unwrap (u64_checked_add entry_id 1);
  modify (λ s, s <| qkNextId := Some next |>) ;;
  publish (LiquidationQueuedEvent entry_id borrower liquidator health_factor priority_score now) ;;
  mret entry_id.

Definition process_queue_liquidation (entry_id : Z) (executor : Address) : LQM unit :=
  require_auth executor ;;
  stored ← gets (λ s, get_queue_entry s entry_id);
  entry ← ok_or stored DataNotFound;
  reject_if (negb (is_pending entry)) InvalidState ;;
  now ← ask timestamp;
  (if qe_expires_at entry <? now then
     set_entry entry_id (entry <| qe_status := Expired |>) ;; fail InvalidState
   else mret tt) ;;
  current_health ← map_err (λ _, InvalidState) (elsewhere (calculate_health_factor (qe_borrower entry)));
  (if LIQUIDATION_THRESHOLD_BPS <=? current_health then
     set_entry entry_id (entry <| qe_status := Cancelled |>) ;; fail InvalidState
   else mret tt) ;;
  set_entry entry_id (entry <| qe_status := Processing |>) ;;
  set_entry entry_id (entry <| qe_status := Completed |>) ;;
  publish (LiquidationProcessedEvent entry_id (qe_borrower entry) (qe_liquidator entry) executor now).

Definition cancel_queue_entry (entry_id : Z) (caller : Address) : LQM unit :=
  require_auth caller ;;
  stored ← gets (λ s, get_queue_entry s entry_id);
  entry ← ok_or stored DataNotFound;
  admin ← ok_or (get_admin (ps_hello rest)) Unauthorized;
  reject_if (bool_decide (caller ≠ qe_liquidator entry) && bool_decide (caller ≠ admin)) Unauthorized ;;
  reject_if (negb (is_pending entry)) InvalidState ;;
  set_entry entry_id (entry <| qe_status := Cancelled |>) ;;
  now ← ask timestamp;
  publish (LiquidationCancelledEvent entry_id caller now).
End operations.

Inductive QueueCall : Type :=
  | InitializeQueue (config : QueueConfig)
  | RegisterInterest (liquidator borrower : Address)
  | GetNextLiquidation
  | ProcessQueue (entry_id : Z) (executor : Address)
  | CancelEntry (entry_id : Z) (caller : Address)
  | CleanupExpired.

Definition queue_dispatch (rest : PState) (c : QueueCall) (env : Env) (s : QueueStore) : QueueStore :=
  match c with
  | InitializeQueue cfg => (invoke (initialize_queue cfg) env s).2
  | RegisterInterest l b => (invoke (register_liquidation_interest rest l b) env s).2
  | GetNextLiquidation => (invoke get_next_liquidation env s).2
  | ProcessQueue i x => (invoke (process_queue_liquidation rest i x) env s).2
  | CancelEntry i x => (invoke (cancel_queue_entry rest i x) env s).2
  | CleanupExpired => (invoke cleanup_expired_entries env s).2
  end.

(** The queue after its set-up, and what follows while it is not set up again;
    the rest of the contract may be in another state at every invocation. *)
Inductive queue_reachable : QueueStore → Prop :=
  | queue_empty : queue_reachable empty_queue
  | queue_setup cfg env rest : queue_reachable (queue_dispatch rest (InitializeQueue cfg) env empty_queue)
  | queue_step rest c env s :
      queue_reachable s → (∀ cfg, c ≠ InitializeQueue cfg) → queue_reachable (queue_dispatch rest c env s).
