(* ===== verification/QueueSafety.v ===== *)
(** * QueueSafety: the life of a queued liquidation

    The entries of the queue, their statuses and who changes them; the size of
    the queue; which entry is next; and how the priority orders positions. *)

From S2P Require Import Prelude.
From S2P Require Import Host.
From S2P Require Import HelloTypes.
From S2P Require Import HelloParams.
From S2P Require Import HelloCalls.
From S2P Require Import PositionTypes.
From S2P Require Import Reserves.
From S2P Require Import PositionRuns.
From S2P Require Import LiquidationQueue.

(** ** Reading and writing entries *)

Lemma set_entry_Ok id e env s u s' :
  set_entry id e env s = (Ok u, s') → s' = s <| qkEntry := <[id := e]> (qkEntry s) |>.
Proof. by intros [= <- <-]. Qed.
Lemma publish_queue_Ok e env s u s' : publish e env s = (Ok u, s') → s' = s <| qk_events := (qk_events s ++ [e]) |>.
Proof. by intros [= <- <-]. Qed.
Lemma elsewhere_Ok {E A} rest (m : M PState E A) env s a s' :
  elsewhere rest m env s = (Ok a, s') → (m env rest).1 = Ok a ∧ s' = s.
Proof. unfold elsewhere. by intros [= -> ->]. Qed.

(** The score, as a number. *)
Definition multiplier (health : Z) : Z := if health <=? 5000 then 3 else if health <=? 8000 then 2 else 1.
Definition priority (health debt : Z) : Z := (10000 - health) * multiplier health + Z.min (Z.quot debt 1000000) 1000.

Lemma priority_Ok h d env s x s' :
  calculate_priority_score h d env s = (Ok x, s') → x = priority h d ∧ s' = s.
Proof.
  unfold calculate_priority_score, priority, multiplier, CRITICAL_HEALTH_THRESHOLD_BPS, SEVERE_HEALTH_THRESHOLD_BPS,
    CRITICAL_HEALTH_MULTIPLIER, SEVERE_HEALTH_MULTIPLIER. intros Hr. run_inv Hr. checked_facts. by subst.
Qed.

Ltac run_prim H ::=
  lazymatch type of H with
  | set_entry _ _ _ _ = _ => apply set_entry_Ok in H
  | publish _ _ _ = _ => apply publish_queue_Ok in H
  | elsewhere _ _ _ _ = _ => apply elsewhere_Ok in H as [? ?]
  | calculate_priority_score _ _ _ _ = _ => apply priority_Ok in H as [? ?]
  | _ => idtac
  end.

(** An entry with another status. *)
Abbreviation restatus st e := (e <| qe_status := st |>).

Definition same_queue (s s' : QueueStore) : Prop :=
  qkConfig s' = qkConfig s ∧ qkNextId s' = qkNextId s.

Definition expired_at (now : Z) (e : LiquidationQueueEntry) : LiquidationQueueEntry :=
  if is_pending e && (qe_expires_at e <? now) then restatus Expired e else e.

Lemma expire_entry_Ok now id n env s m s' :
  expire_entry now id n env s = (Ok m, s') →
  same_queue s s' ∧ ∀ j, qkEntry s' !! j =
    if decide (j = id) then expired_at now <$> qkEntry s !! j else qkEntry s !! j.
Proof.
  unfold expire_entry, expired_at. intros Hr. run_inv Hr; unfold get_queue_entry in *; (split; [done|]); intros j.
  all: destruct (decide (j = id)) as [->|Hj]; cbn; rewrite ?lookup_insert_eq, ?lookup_insert_ne by done; try done.
  all: match goal with H : Some _ = _ |- _ => rewrite <- H | H : None = _ |- _ => rewrite <- H end; cbn; try done.
  all: match goal with H : (_ && _) = _ |- _ => by rewrite H end.
Qed.

Lemma expired_twice now e : expired_at now (expired_at now e) = expired_at now e.
Proof. unfold expired_at at 2 3. destruct (_ && _) eqn:E; [done|]. unfold expired_at. by rewrite E. Qed.

Lemma expire_entries_Ok now ids n env s m s' :
  expire_entries now ids n env s = (Ok m, s') →
  same_queue s s' ∧ ∀ j, qkEntry s' !! j =
    if decide (j ∈ ids) then expired_at now <$> qkEntry s !! j else qkEntry s !! j.
Proof.
  revert n s. induction ids as [|id ids IH]; intros n s Hr; cbn [expire_entries] in Hr.
  { run_inv Hr. split; [done|]. intros j. by rewrite decide_False by apply not_elem_of_nil. }
  apply bind_Ok in Hr as (n1 & s1 & H1 & Hr). apply expire_entry_Ok in H1 as [[Hc1 Hn1] H1].
  apply IH in Hr as [[Hc Hn] Hr]. split; [split; congruence|]. intros j. rewrite Hr, H1.
  destruct (decide (j ∈ ids)) as [Hj|Hj].
  - rewrite (decide_True (P := j ∈ id :: ids)) by by right. destruct (decide (j = id)); [|done].
    rewrite <- option_fmap_compose. apply option_fmap_ext. intros ?. apply expired_twice.
  - destruct (decide (j = id)) as [->|Hne].
    + by rewrite decide_True by by left.
    + rewrite decide_False; [done|]. rewrite elem_of_cons. by intros [|].
Qed.

Lemma cleanup_Ok env s n s' :
  cleanup_expired_entries env s = (Ok n, s') →
  same_queue s s' ∧ ∀ j, qkEntry s' !! j =
    if decide (0 ≤ j < next_queue_id s) then expired_at (timestamp env) <$> qkEntry s !! j else qkEntry s !! j.
Proof.
  unfold cleanup_expired_entries. intros Hr.
  apply bind_Ok in Hr as (now & s1 & Hn & Hr). apply ask_Ok in Hn as [-> ->].
  apply bind_Ok in Hr as (next & s1 & Hn & Hr). apply gets_Ok in Hn as [-> ->].
  apply expire_entries_Ok in Hr as [Hq Hr]. split; [done|]. intros j. rewrite Hr.
  destruct (decide (j ∈ seqZ 0 (next_queue_id s))) as [Hj|Hj]; rewrite elem_of_seqZ in Hj;
    [rewrite decide_True by lia|rewrite decide_False by lia]; done.
Qed.

Lemma register_Ok rest l b env s id s' :
  register_liquidation_interest rest l b env s = (Ok id, s') →
  authorized env l = true ∧ len (get_pending_queue_entries s) < qc_max_queue_size (get_queue_config s) ∧
  id = next_queue_id s ∧ next_queue_id s' = id + 1 ∧ qkConfig s' = qkConfig s ∧
  ∃ h p, (calculate_health_factor b env rest).1 = Ok h ∧ h < LIQUIDATION_THRESHOLD_BPS ∧
    (get_user_position_summary b env rest).1 = Ok p ∧
    qkEntry s' = <[id := mkLiquidationQueueEntry id b l h (priority h (pos_debt p)) (timestamp env)
                           (timestamp env + qc_entry_expiration (get_queue_config s)) Pending (pos_debt p)
                           (pos_collateral p)]> (qkEntry s).
Proof.
  unfold register_liquidation_interest. intros Hr. run_inv Hr. zbool.
  repeat match goal with H : u64_checked_add _ _ = Some _ |- _ => apply fit_Some in H as [_ ->] end.
  split_and!; try done. do 2 eexists. split_and!; done.
Qed.

Lemma process_Ok rest id x env s u s' :
  process_queue_liquidation rest id x env s = (Ok u, s') →
  authorized env x = true ∧ same_queue s s' ∧ ∃ e h, get_queue_entry s id = Some e ∧ qe_status e = Pending ∧
    timestamp env ≤ qe_expires_at e ∧ (calculate_health_factor (qe_borrower e) env rest).1 = Ok h ∧
    h < LIQUIDATION_THRESHOLD_BPS ∧ qkEntry s' = <[id := restatus Completed e]> (qkEntry s).
Proof.
  unfold process_queue_liquidation. intros Hr. run_inv Hr. zbool.
  split_and!; try done. do 2 eexists. split_and!; try done.
  - match goal with H : is_pending _ = true |- _ => by apply bool_decide_eq_true in H end.
  - cbn. by rewrite insert_insert_eq.
Qed.

Lemma cancel_Ok rest id x env s u s' :
  cancel_queue_entry rest id x env s = (Ok u, s') →
  authorized env x = true ∧ same_queue s s' ∧ ∃ e, get_queue_entry s id = Some e ∧ qe_status e = Pending ∧
    (x = qe_liquidator e ∨ get_admin (ps_hello rest) = Some x) ∧
    qkEntry s' = <[id := restatus Cancelled e]> (qkEntry s).
Proof.
  unfold cancel_queue_entry. intros Hr. run_inv Hr. zbool.
  split_and!; try done. eexists. split_and!; try done.
  - match goal with H : is_pending _ = true |- _ => by apply bool_decide_eq_true in H end.
  - match goal with H : _ ∨ _ |- _ => destruct H; zbool; [by left|by right; subst] end.
Qed.

Lemma next_Ok env s r s' :
  get_next_liquidation env s = (Ok r, s') →
  s' = s ∧ get_pending_queue_entries s = [] ∧ r = None ∨
  ∃ n, cleanup_expired_entries env s = (Ok n, s') ∧
    r = if qc_priority_enabled (get_queue_config s) then best_by_score (get_pending_queue_entries s')
        else oldest (get_pending_queue_entries s').
Proof.
  unfold get_next_liquidation. intros Hr.
  apply bind_Ok in Hr as (cfg & s1 & Hg & Hr). apply gets_Ok in Hg as [-> ->].
  apply bind_Ok in Hr as (q & s1 & Hg & Hr). apply gets_Ok in Hg as [-> ->].
  destruct (bool_decide _) eqn:E; zbool; [left; by apply ret_Ok in Hr as [-> ->]|]. right.
  apply bind_Ok in Hr as (n & s1 & Hc & Hr). exists n.
  apply bind_Ok in Hr as (q & s2 & Hg & Hr). apply gets_Ok in Hg as [-> ->].
  destruct (bool_decide _) eqn:E2; zbool.
  - apply ret_Ok in Hr as [-> ->]. split; [done|]. rewrite E2. by destruct (qc_priority_enabled _).
  - destruct (qc_priority_enabled _); apply ret_Ok in Hr as [-> ->]; done.
Qed.

(** ** The entries of reachable queues *)

Record queue_ok (s : QueueStore) : Prop := {
  qo_next : 0 ≤ next_queue_id s;
  qo_id id e : get_queue_entry s id = Some e → 0 ≤ id < next_queue_id s ∧ qe_id e = id;
  qo_status id e : get_queue_entry s id = Some e → qe_status e ≠ Processing;
}.

(** What an invocation does to an entry. *)
Inductive life (rest : PState) (env : Env) (c : QueueCall) (id : Z) (e : LiquidationQueueEntry) :
    LiquidationQueueEntry → Prop :=
  | life_same : life rest env c id e e
  | life_completed x h :
      c = ProcessQueue id x → authorized env x = true → qe_status e = Pending → timestamp env ≤ qe_expires_at e →
      (calculate_health_factor (qe_borrower e) env rest).1 = Ok h → h < LIQUIDATION_THRESHOLD_BPS →
      life rest env c id e (restatus Completed e)
  | life_cancelled x :
      c = CancelEntry id x → authorized env x = true → qe_status e = Pending →
      x = qe_liquidator e ∨ get_admin (ps_hello rest) = Some x → life rest env c id e (restatus Cancelled e)
  | life_expired :
      c = CleanupExpired ∨ c = GetNextLiquidation → qe_status e = Pending → qe_expires_at e < timestamp env →
      life rest env c id e (restatus Expired e).

Definition sets_up (c : QueueCall) : bool := match c with InitializeQueue _ => true | _ => false end.

Lemma expired_life rest env c id e :
  c = CleanupExpired ∨ c = GetNextLiquidation → life rest env c id e (expired_at (timestamp env) e).
Proof.
  intros Hc. unfold expired_at. destruct (_ && _) eqn:E; [|apply life_same]. zbool.
  apply life_expired; [done|by apply bool_decide_eq_true in H|done].
Qed.

(** Every entry lives on, and at most one is new, under the next identifier. *)
Record grows (rest : PState) (env : Env) (c : QueueCall) (s s' : QueueStore) : Prop := {
  gr_lives id e : get_queue_entry s id = Some e →
    ∃ e', get_queue_entry s' id = Some e' ∧ life rest env c id e e';
  gr_new id e' : get_queue_entry s' id = Some e' → get_queue_entry s id = None →
    id = next_queue_id s ∧ next_queue_id s' = id + 1 ∧ qe_id e' = id ∧ qe_status e' = Pending ∧
    ∃ l b, c = RegisterInterest l b;
  gr_next : next_queue_id s ≤ next_queue_id s';
  gr_config : qkConfig s' = qkConfig s;
}.

Section grows.
Context (rest : PState) (env : Env) (c : QueueCall) (s s' : QueueStore).

Lemma grows_same : s' = s → grows rest env c s s'.
Proof.
  intros ->. split; [|congruence|lia|done]. intros id e He. exists e. split; [done|apply life_same].
Qed.

Lemma grows_one id e st :
  same_queue s s' → get_queue_entry s id = Some e → qkEntry s' = <[id := restatus st e]> (qkEntry s) →
  life rest env c id e (restatus st e) → grows rest env c s s'.
Proof.
  intros [Hcfg Hnx] He Hs' Hlife. unfold get_queue_entry in He.
  split; unfold get_queue_entry, next_queue_id; rewrite ?Hs', ?Hnx; [| |lia|done].
  - intros j e0 He0. destruct (decide (id = j)) as [->|Hj].
    + rewrite lookup_insert_eq. rewrite He in He0. injection He0 as <-. eauto.
    + rewrite lookup_insert_ne by done. eexists. split; [done|apply life_same].
  - intros j e' Hj Hnone. destruct (decide (id = j)) as [->|Hne]; [congruence|].
    rewrite lookup_insert_ne in Hj by done. congruence.
Qed.

Lemma grows_clean n :
  cleanup_expired_entries env s = (Ok n, s') → c = CleanupExpired ∨ c = GetNextLiquidation → grows rest env c s s'.
Proof.
  intros [[Hcfg Hnx] Hr]%cleanup_Ok Hc. split; unfold get_queue_entry, next_queue_id; rewrite ?Hnx; [| |lia|done].
  - intros j e He. rewrite Hr. case_decide; rewrite He; eexists; (split; [reflexivity|]);
      [by apply expired_life|apply life_same].
  - intros j e' He' Hnone. rewrite Hr in He'. case_decide; rewrite Hnone in He'; done.
Qed.

Lemma grows_register l b id :
  queue_ok s → c = RegisterInterest l b → register_liquidation_interest rest l b env s = (Ok id, s') →
  grows rest env c s s'.
Proof.
  intros [_ Hid _] Hc (_ & _ & -> & Hnx & Hcfg & h & p & _ & _ & _ & Hs')%register_Ok.
  unfold get_queue_entry in *. split; unfold get_queue_entry; rewrite ?Hs', ?Hnx; [| |lia|done].
  - intros j e He. destruct (Hid j e He) as [Hj _]. rewrite lookup_insert_ne by lia.
    eexists. split; [done|apply life_same].
  - intros j e' He' Hnone. destruct (decide (next_queue_id s = j)) as [<-|Hj].
    + rewrite lookup_insert_eq in He'. injection He' as <-. split_and!; eauto.
    + rewrite lookup_insert_ne in He' by done. congruence.
Qed.
End grows.

Lemma step_grows rest c env s :
  sets_up c = false → queue_ok s → grows rest env c s (queue_dispatch rest c env s).
Proof.
  intros Hc Hok. destruct c as [cfg|l b| |i x|i x|]; try done; cbn [queue_dispatch];
    match goal with |- context [invoke ?m env s] => destruct (invoked_or_kept m env s) as [->|(r & s' & Hr & ->)] end;
    try (by apply grows_same).
  - by eapply grows_register.
  - apply next_Ok in Hr as [(-> & _)|(n & Hr & _)]; [by apply grows_same|]. eapply grows_clean; [exact Hr|by right].
  - apply process_Ok in Hr as (Ha & Hq & e & h & He & Hp & Ht & Hh & Hlt & Hs').
    eapply grows_one; [exact Hq|exact He|exact Hs'|]. by eapply life_completed.
  - apply cancel_Ok in Hr as (Ha & Hq & e & He & Hp & Hx & Hs').
    eapply grows_one; [exact Hq|exact He|exact Hs'|]. by eapply life_cancelled.
  - eapply grows_clean; [exact Hr|by left].
Qed.

Lemma life_keeps rest env c id e e' :
  life rest env c id e e' → qe_id e' = qe_id e ∧ (qe_status e ≠ Processing → qe_status e' ≠ Processing).
Proof. by intros []. Qed.

Lemma grows_ok rest env c s s' : grows rest env c s s' → queue_ok s → queue_ok s'.
Proof.
  intros [Hl Hn Hx _] [H0 H1 H2]. split; [lia|..]; intros id e' He'.
  - destruct (get_queue_entry s id) as [e|] eqn:He.
    + destruct (Hl id e He) as (e'' & He'' & Hlife). rewrite He' in He''. injection He'' as <-.
      apply life_keeps in Hlife as [-> _]. destruct (H1 id e He). split; [lia|done].
    + destruct (Hn id e' He' He) as (-> & Hnx & ? & _). split; [lia|done].
  - destruct (get_queue_entry s id) as [e|] eqn:He.
    + destruct (Hl id e He) as (e'' & He'' & Hlife). rewrite He' in He''. injection He'' as <-.
      apply life_keeps in Hlife as [_ Hst]. by apply Hst, (H2 id).
    + destruct (Hn id e' He' He) as (_ & _ & _ & -> & _). done.
Qed.

Lemma queue_is_ok s : queue_reachable s → queue_ok s.
Proof.
  induction 1 as [|cfg env rest|rest c env s _ IH Hc]; [by split|by split|].
  eapply grows_ok; [|exact IH]. apply step_grows; [|done]. destruct c; try done. by destruct (Hc config).
Qed.

(** C17: a liquidation queue that is not set up again keeps every entry for
    ever, with its borrower, liquidator, score and times; its status changes
    only from pending to completed, by a signed processing before its expiry of
    a position whose health is still below one; to cancelled, by its liquidator
    or the admin; or to expired, after its time; identifiers are never used
    again. *)
Theorem queue_entries_follow_their_life rest c env s id e :
  queue_reachable s → sets_up c = false → get_queue_entry s id = Some e →
  0 ≤ id < next_queue_id s ∧ qe_id e = id ∧ qe_status e ≠ Processing ∧
  ∃ e', get_queue_entry (queue_dispatch rest c env s) id = Some e' ∧ life rest env c id e e'.
Proof.
  intros Hs Hc He. apply queue_is_ok in Hs as Hok. pose proof (qo_id _ Hok id e He) as [Hid Hq].
  split; [done|]. split; [done|]. split; [by apply (qo_status _ Hok id)|].
  by eapply gr_lives; [apply step_grows|].
Qed.

(** ** The size of the queue *)

Definition pending_at (s : QueueStore) (id : Z) : bool :=
  match get_queue_entry s id with Some e => is_pending e | None => false end.

Lemma pending_length s :
  length (get_pending_queue_entries s) = length (List.filter (pending_at s) (seqZ 0 (next_queue_id s))).
Proof.
  unfold get_pending_queue_entries, all_entries, pending_at.
  induction (seqZ 0 (next_queue_id s)) as [|id l IH]; [done|]. cbn.
  destruct (get_queue_entry s id) as [e|]; cbn; [destruct (is_pending e); cbn|]; by rewrite IH.
Qed.

Lemma filter_shorter (f g : Z → bool) l :
  (∀ x, x ∈ l → f x = true → g x = true) → (length (List.filter f l) ≤ length (List.filter g l))%nat.
Proof.
  induction l as [|x l IH]; cbn; intros Hfg; [done|].
  assert ((length (List.filter f l) ≤ length (List.filter g l))%nat) by (apply IH; intros y Hy; apply Hfg; by right).
  pose proof (Hfg x ltac:(by left)) as Hx. destruct (f x); cbn; [rewrite Hx by done; cbn; lia|].
  destruct (g x); cbn; lia.
Qed.

Lemma grows_pending rest env c s s' id :
  grows rest env c s s' → pending_at s' id = true →
  pending_at s id = true ∨ id = next_queue_id s ∧ next_queue_id s' = id + 1 ∧ ∃ l b, c = RegisterInterest l b.
Proof.
  intros [Hl Hn _ _]. unfold pending_at. destruct (get_queue_entry s id) as [e|] eqn:He.
  - destruct (Hl id e He) as (e' & -> & Hlife). intros Hp. left.
    destruct Hlife as [| | |]; [done|..]; by unfold is_pending in Hp.
  - destruct (get_queue_entry s' id) as [e'|] eqn:He'; [|done]. intros _. right.
    destruct (Hn id e' He' He) as (? & ? & _ & _ & ?). by split_and!.
Qed.

Lemma grown_length rest env c s s' :
  queue_ok s → grows rest env c s s' → (∀ l b, c ≠ RegisterInterest l b) →
  (length (get_pending_queue_entries s') ≤ length (get_pending_queue_entries s))%nat.
Proof.
  intros [H0 Hid _] Hg Hc. rewrite !pending_length.
  assert (Hp : ∀ id, pending_at s' id = true → pending_at s id = true).
  { intros id Hp. destruct (grows_pending _ _ _ _ _ _ Hg Hp) as [?|(_ & _ & l & b & ->)]; [done|by destruct (Hc l b)]. }
  replace (next_queue_id s') with (next_queue_id s + (next_queue_id s' - next_queue_id s)) by lia.
  rewrite seqZ_app by (pose proof (gr_next _ _ _ _ _ Hg); lia). rewrite List.filter_app, length_app.
  assert (List.filter (pending_at s') (seqZ (0 + next_queue_id s) (next_queue_id s' - next_queue_id s)) = []) as ->.
  { apply elem_of_nil_inv. intros id [Hin Hpe]%list_elem_of_In%List.filter_In.
    apply list_elem_of_In, elem_of_seqZ in Hin. apply Hp in Hpe. unfold pending_at in Hpe.
    destruct (get_queue_entry s id) eqn:He; [|done]. destruct (Hid id _ He). lia. }
  cbn. rewrite Nat.add_0_r. apply filter_shorter. auto.
Qed.

(** How many entries may be pending. *)
Definition queue_bound (s : QueueStore) : Z := Z.max 0 (qc_max_queue_size (get_queue_config s)).

Lemma registered_length rest l b env s id s' :
  queue_ok s → register_liquidation_interest rest l b env s = (Ok id, s') →
  length (get_pending_queue_entries s') = S (length (get_pending_queue_entries s)).
Proof.
  intros [H0 Hid _] (_ & _ & -> & Hnx & Hcfg & h & p & _ & _ & _ & Hs')%register_Ok.
  rewrite !pending_length, Hnx, seqZ_app by lia. rewrite List.filter_app, length_app.
  assert (seqZ (0 + next_queue_id s) 1 = [next_queue_id s]) as -> by (rewrite seqZ_cons, seqZ_nil; done).
  cbn. unfold pending_at at 2, get_queue_entry. rewrite Hs', lookup_insert_eq. cbn. rewrite Nat.add_1_r. f_equal.
  f_equal. apply List.filter_ext_in. intros j Hj. apply list_elem_of_In, elem_of_seqZ in Hj.
  unfold pending_at, get_queue_entry. by rewrite Hs', lookup_insert_ne by lia.
Qed.

Lemma step_length rest c env s :
  queue_ok s → sets_up c = false → len (get_pending_queue_entries s) ≤ queue_bound s →
  len (get_pending_queue_entries (queue_dispatch rest c env s)) ≤ queue_bound s.
Proof.
  intros Hok Hc Hlen. unfold len in *.
  destruct (match c with RegisterInterest _ _ => true | _ => false end) eqn:E.
  - destruct c as [|l b| | | |]; try done. cbn [queue_dispatch].
    destruct (invoked_or_kept (register_liquidation_interest rest l b) env s) as [->|(id & s' & Hr & ->)]; [done|].
    pose proof Hr as (_ & Hroom & _)%register_Ok. rewrite (registered_length _ _ _ _ _ _ _ Hok Hr).
    unfold queue_bound, len in *. lia.
  - pose proof (grown_length rest env c s _ Hok (step_grows rest c env s Hc Hok)) as H.
    specialize (H ltac:(intros l b ->; done)). lia.
Qed.

(** A queue that is not set up again never holds more pending entries than
    its configuration allows. *)
Theorem queue_size_is_bounded s :
  queue_reachable s → len (get_pending_queue_entries s) ≤ queue_bound s.
Proof.
  induction 1 as [|cfg env rest|rest c env s Hs IH Hc].
  - done.
  - cbn. unfold queue_bound. change (len _) with 0. lia.
  - assert (Hset : sets_up c = false) by (destruct c; try done; by destruct (Hc config)).
    pose proof (queue_is_ok s Hs) as Hok.
    replace (queue_bound (queue_dispatch rest c env s)) with (queue_bound s); [by apply step_length|].
    unfold queue_bound, get_queue_config. by rewrite (gr_config _ _ _ _ _ (step_grows rest c env s Hset Hok)).
Qed.

(** ** The next entry *)

Section pick.
Context (key : LiquidationQueueEntry → Z) (better : Z → Z → bool) (R : Z → Z → Prop) `{!PreOrder R}.
Context (Hyes : ∀ x y, better y x = true → R y x) (Hno : ∀ x y, better y x = false → R x y).

(** A loop that keeps the first entry that nothing later is better than. *)
Lemma pick_fold q b x :
  (∀ e, b = Some e → key e = x) →
  let r := foldl (λ '(best, y) e, if better (key e) y then (Some e, key e) else (best, y)) (b, x) q in
  R r.2 x ∧ (∀ e, e ∈ q → R r.2 (key e)) ∧ (∀ e, r.1 = Some e → key e = r.2) ∧
  (r = (b, x) ∨ ∃ e, r.1 = Some e ∧ e ∈ q).
Proof using Type*.
  revert b x. induction q as [|e q IH]; intros b x Hb; cbn.
  { split_and!; [done|by intros e ?%elem_of_nil|done|by left]. }
  destruct (better (key e) x) eqn:E.
  - destruct (IH (Some e) (key e)) as (H1 & H2 & H3 & H4); [by intros ? [= <-]|].
    split_and!; [by etrans; [exact H1|apply Hyes]| |done|].
    + intros e' [->|He']%elem_of_cons; [done|by apply H2].
    + right. destruct H4 as [->|(e' & ? & ?)]; [exists e; split; [done|by left]|exists e'; split; [done|by right]].
  - destruct (IH b x Hb) as (H1 & H2 & H3 & H4). split_and!; [done| |done|].
    + intros e' [->|He']%elem_of_cons; [by etrans; [exact H1|apply Hno]|by apply H2].
    + destruct H4 as [H4|(e' & ? & ?)]; [by left|right; exists e'; split; [done|by right]].
Qed.
End pick.

Lemma best_by_score_Some q e :
  best_by_score q = Some e → e ∈ q ∧ ∀ e', e' ∈ q → qe_priority_score e' ≤ qe_priority_score e.
Proof.
  intros Hb. assert (PreOrder (λ x y : Z, y ≤ x)) as Hpre by (split; [intros ?; lia|intros ???; lia]).
  destruct (pick_fold qe_priority_score (λ x y, y <? x) (λ x y, y ≤ x)
              ltac:(cbn; intros ?? ?; zbool; lia) ltac:(cbn; intros ?? ?; zbool; lia) q None I128_MIN ltac:(done))
    as (_ & H2 & H3 & H4).
  unfold best_by_score in Hb. specialize (H3 e Hb). destruct H4 as [H4|(e' & He' & Hin)].
  - rewrite H4 in Hb. done.
  - rewrite Hb in He'. injection He' as <-. split; [done|]. intros e' He'. rewrite H3. by apply H2.
Qed.

Lemma oldest_Some q e :
  oldest q = Some e → e ∈ q ∧ ∀ e', e' ∈ q → qe_queued_at e ≤ qe_queued_at e'.
Proof.
  intros Hb. destruct (pick_fold qe_queued_at Z.ltb Z.le
              ltac:(cbn; intros ?? ?; zbool; lia) ltac:(cbn; intros ?? ?; zbool; lia) q None U64_MAX ltac:(done))
    as (_ & H2 & H3 & H4).
  unfold oldest in Hb. specialize (H3 e Hb). destruct H4 as [H4|(e' & He' & Hin)].
  - rewrite H4 in Hb. done.
  - rewrite Hb in He'. injection He' as <-. split; [done|]. intros e' He'. rewrite H3. by apply H2.
Qed.

Lemma pending_elem s e :
  e ∈ get_pending_queue_entries s ↔ qe_status e = Pending ∧ ∃ id, 0 ≤ id < next_queue_id s ∧ get_queue_entry s id = Some e.
Proof.
  unfold get_pending_queue_entries, all_entries. rewrite list_elem_of_In, List.filter_In, <- list_elem_of_In.
  rewrite list_elem_of_omap. unfold is_pending. rewrite bool_decide_eq_true. setoid_rewrite elem_of_seqZ.
  split; [intros [(id & ? & ?) ?]|intros [? (id & ? & ?)]]; split; try done; exists id; split; try done; lia.
Qed.

(** The queue entry that comes next is pending and not past its time -
    those that are have just been marked expired - and no pending entry has a
    higher priority or, when priorities are off, was queued earlier. *)
Theorem next_liquidation_is_most_urgent env s e s' :
  get_next_liquidation env s = (Ok (Some e), s') →
  e ∈ get_pending_queue_entries s' ∧
  (∀ e', e' ∈ get_pending_queue_entries s' →
     timestamp env ≤ qe_expires_at e' ∧
     if qc_priority_enabled (get_queue_config s) then qe_priority_score e' ≤ qe_priority_score e
     else qe_queued_at e ≤ qe_queued_at e').
Proof.
  intros [(_ & _ & ?)|(n & Hc & Hr)]%next_Ok; [done|]. apply cleanup_Ok in Hc as [[_ Hnx] Hc].
  assert (Htime : ∀ e', e' ∈ get_pending_queue_entries s' → timestamp env ≤ qe_expires_at e').
  { intros e' (Hp & id & Hid & He')%pending_elem. unfold next_queue_id, get_queue_entry in *. rewrite Hnx in Hid.
    rewrite Hc, decide_True in He' by done. destruct (qkEntry s !! id) as [e0|]; [|done]. injection He' as <-.
    unfold expired_at in *. destruct (_ && _) eqn:E; [done|]. zbool. destruct E as [E|E]; zbool; [|done].
    unfold is_pending in E. by zbool. }
  destruct (qc_priority_enabled _); symmetry in Hr; [apply best_by_score_Some in Hr as [Hin Hr]|apply oldest_Some in Hr as [Hin Hr]];
    (split; [done|]); intros e' He'; (split; [by apply Htime|by apply Hr]).
Qed.

(** Of two unhealthy positions with the same debt the less healthy one has
    the higher priority. *)
Theorem priority_orders_by_health h1 h2 debt env s x1 x2 :
  h1 < h2 → h2 < LIQUIDATION_THRESHOLD_BPS →
  calculate_priority_score h1 debt env s = (Ok x1, s) → calculate_priority_score h2 debt env s = (Ok x2, s) → x2 < x1.
Proof.
  unfold LIQUIDATION_THRESHOLD_BPS. intros H1 H2 [-> _]%priority_Ok [-> _]%priority_Ok. unfold priority, multiplier.
  repeat match goal with |- context [?a <=? ?b] => destruct (a <=? b) eqn:? end; zbool; nia.
Qed.

(** ** Examples *)

(** Alice's loan without collateral, in the queue. *)
Definition queued : QueueStore := queue_dispatch indebted.1 (RegisterInterest bob alice) (signed_at bob 2000) empty_queue.

Lemma queued_run_reachable : queue_reachable queued.
Proof. apply queue_step; [apply queue_empty|done]. Qed.

Definition queued_entry : LiquidationQueueEntry :=
  mkLiquidationQueueEntry 0 alice bob 0 30000 2000 88400 Pending 60 0.

Lemma queue_entries_follow_their_life_witness :
  ∃ e', get_queue_entry (queue_dispatch indebted.1 (ProcessQueue 0 bob) (signed_at bob 3000) queued) 0 = Some e' ∧
        life indebted.1 (signed_at bob 3000) (ProcessQueue 0 bob) 0 queued_entry e'.
Proof.
  apply (queue_entries_follow_their_life indebted.1 (ProcessQueue 0 bob) (signed_at bob 3000) queued 0 queued_entry
           queued_run_reachable eq_refl).
  vm_compute. reflexivity.
Defined.

Lemma queue_size_is_bounded_witness : len (get_pending_queue_entries queued) ≤ queue_bound queued.
Proof. exact (queue_size_is_bounded queued queued_run_reachable). Defined.

Lemma next_liquidation_is_most_urgent_witness :
  queued_entry ∈ get_pending_queue_entries (get_next_liquidation (at_time 3000) queued).2.
Proof.
  refine (proj1 (next_liquidation_is_most_urgent (at_time 3000) queued queued_entry
                   (get_next_liquidation (at_time 3000) queued).2 _)).
  vm_compute. reflexivity.
Defined.

Lemma priority_orders_by_health_witness : priority 9000 1000000 < priority 4000 1000000.
Proof.
  refine (priority_orders_by_health 4000 9000 1000000 (at_time 0) empty_queue (priority 4000 1000000)
            (priority 9000 1000000) _ _ _ _); [lia|reflexivity|vm_compute; reflexivity|vm_compute; reflexivity].
Defined.
