(* ===== verification/Rebalancing.v ===== *)
(** * Rebalancing: automatic rebalancing of collateral ([hello-world/src/rebalancing.rs])

    Users set a target range for the health of their cross-asset positions; the
    rebalancing itself is a placeholder in the code, which publishes an event.
    The storage of [CrossAsset], which it reads, and the admin of admin.rs, whose
    key it shares, are arguments. *)

From S2P Require Import Prelude.
From S2P Require Import Host.
From S2P Require Import CrossAsset.
From S2P Require Import CrossTheorems.

(** ** Data *)

Record RebalancingConfig : Type := mkRebalancingConfig {
  rc_target_health_factor_min : Z;
  rc_target_health_factor_max : Z;
  rc_max_gas_cost : Z;
  rc_auto_rebalance_enabled : bool;
  rc_min_swap_size : Z;
  rc_max_slippage_bps : Z;
  rc_last_rebalance_time : Z;
  rc_rebalance_cooldown : Z;
}.
#[export] Instance RebalancingConfig_upd : Updatable RebalancingConfig := λ c,
  mkRebalancingConfig (rc_target_health_factor_min c) (rc_target_health_factor_max c) (rc_max_gas_cost c)
    (rc_auto_rebalance_enabled c) (rc_min_swap_size c) (rc_max_slippage_bps c) (rc_last_rebalance_time c)
    (rc_rebalance_cooldown c).

Record SwapDecision : Type := mkSwapDecision {
  sd_from_asset : option Address;
  sd_to_asset : option Address;
  sd_amount : Z;
  sd_expected_amount : Z;
  sd_estimated_gas : Z;
}.

Inductive RebalancingError : Type :=
  | RB_Unauthorized | RB_InvalidConfig | RB_AlreadyHealthy | RB_GasCostTooHigh | RB_SlippageTooHigh | RB_SwapTooSmall
  | RB_CooldownActive | RB_Undercollateralized | RB_AmmFailed | RB_InsufficientLiquidity | RB_Overflow.

Inductive RebalancingEvent : Type :=
  | RebalancingConfiguredEvent (user : Address) (hf_min hf_max max_gas_cost timestamp : Z)
  | RebalancingExecutedEvent (user : Address) (from_asset to_asset : option Address)
      (amount_swapped amount_received gas_cost new_health_factor timestamp : Z)
  | RebalancingStoppedEvent (user : Address) (reason : string) (timestamp : Z).

(** [RebalancingDataKey] *)
Record RebalStore : Type := mkRebalStore {
  bkRebalancingConfig : gmap Address RebalancingConfig;
  bkEmergencyStop : option bool;
  bkRebalancingPaused : option bool;
  bk_events : list RebalancingEvent;
}.
#[export] Instance RebalStore_upd : Updatable RebalStore := λ s,
  mkRebalStore (bkRebalancingConfig s) (bkEmergencyStop s) (bkRebalancingPaused s) (bk_events s).

Definition empty_rebal : RebalStore := mkRebalStore ∅ None None [].

Abbreviation BM := (M RebalStore RebalancingError) (only parsing).

Definition publish_rebal (ev : RebalancingEvent) : BM unit := modify (λ s, s <| bk_events := (bk_events s ++ [ev]) |>).
Definition store_rebal (user : Address) (c : RebalancingConfig) : BM unit :=
  modify (λ s, s <| bkRebalancingConfig := <[user := c]> (bkRebalancingConfig s) |>).

Definition default_rebalancing : RebalancingConfig := mkRebalancingConfig 15000 25000 1000000 false 1000000 500 0 3600.

Definition get_rebalancing_config (s : RebalStore) (user : Address) : RebalancingConfig :=
  default default_rebalancing (bkRebalancingConfig s !! user).

Definition configure_rebalancing (user : Address) (hf_min hf_max max_gas_cost : Z) (enabled : bool)
    (min_swap_size max_slippage_bps cooldown : Z) : BM unit :=
  require_auth user ;;
  reject_if ((hf_min <? 10000) || (hf_max <? hf_min)) RB_InvalidConfig ;;
  reject_if ((max_gas_cost <? 0) || (min_swap_size <=? 0) || (max_slippage_bps <? 0) || (10000 <? max_slippage_bps))
    RB_InvalidConfig ;;
  store_rebal user
    (mkRebalancingConfig hf_min hf_max max_gas_cost enabled min_swap_size max_slippage_bps 0 cooldown) ;;
  now ← ask timestamp;
  publish_rebal (RebalancingConfiguredEvent user hf_min hf_max max_gas_cost now).

Definition is_emergency_stop_active (s : RebalStore) : bool := default false (bkEmergencyStop s).
Definition is_rebalancing_paused (s : RebalStore) : bool := default false (bkRebalancingPaused s).

(** [estimate_rebalancing_gas_cost] *)
Definition estimate_gas (sm : UserPositionSummary) : BM Z :=
  g ← unwrap (checked_add 100000 (Z.quot (us_total_collateral_value sm) 1000));
  unwrap (checked_add g (Z.quot (us_total_debt_value sm) 1000)).

(** The placeholder of the code. *)
Definition calculate_optimal_swap : SwapDecision := mkSwapDecision None None 1000000 950000 500000.

Definition execute_rebalancing_swap (user : Address) (swap : SwapDecision) (config : RebalancingConfig) : BM unit :=
  now ← ask timestamp;
  diff ← unwrap (checked_sub (sd_expected_amount swap) (sd_amount swap));
  scaled ← unwrap (checked_mul diff 10000);
  slippage_bps ← unwrap (checked_div scaled (sd_amount swap));
  reject_if (rc_max_slippage_bps config <? slippage_bps) RB_SlippageTooHigh ;;
  publish_rebal (RebalancingExecutedEvent user (sd_from_asset swap) (sd_to_asset swap) (sd_amount swap)
                   (sd_expected_amount swap) (sd_estimated_gas swap) 15000 now).

Definition update_last_rebalance_time (user : Address) : BM unit :=
  config ← gets (λ s, get_rebalancing_config s user);
  now ← ask timestamp;
  store_rebal user (config <| rc_last_rebalance_time := now |>).

Definition execute_collateral_optimization (user : Address) (sm : UserPositionSummary) (config : RebalancingConfig) :
    BM unit :=
  estimated_gas ← estimate_gas sm;
  reject_if (rc_max_gas_cost config <? estimated_gas) RB_GasCostTooHigh ;;
  let swap := calculate_optimal_swap in
  reject_if (sd_amount swap <? rc_min_swap_size config) RB_SwapTooSmall ;;
  execute_rebalancing_swap user swap config ;;
  update_last_rebalance_time user.

Definition execute_efficiency_optimization (user : Address) (sm : UserPositionSummary) (config : RebalancingConfig) :
    BM unit := execute_collateral_optimization user sm config.

Section operations.
Context (cross : CrossState) (stored_admin : option Address).

(** [get_user_position_summary(env, &user).map_err(|_| Undercollateralized)?] *)
Definition position_summary (user : Address) : BM UserPositionSummary := λ env s,
  match (get_user_position_summary user env cross).1 with
  | Ok sm => (Ok sm, s)
  | Err _ => (Err RB_Undercollateralized, s)
  | Trap => (Trap, s)
  end.

Definition execute_rebalancing (user : Address) : BM unit :=
  require_auth user ;;
  stopped ← gets is_emergency_stop_active;
  reject_if stopped RB_InvalidConfig ;;
  paused ← gets is_rebalancing_paused;
  reject_if paused RB_InvalidConfig ;;
  config ← gets (λ s, get_rebalancing_config s user);
  reject_if (negb (rc_auto_rebalance_enabled config)) RB_InvalidConfig ;;
  now ← ask timestamp;
  ready ← unwrap (u64_checked_add (rc_last_rebalance_time config) (rc_rebalance_cooldown config));
  reject_if (now <? ready) RB_CooldownActive ;;
  sm ← position_summary user;
  reject_if ((rc_target_health_factor_min config <=? us_health_factor sm)
             && (us_health_factor sm <=? rc_target_health_factor_max config)) RB_AlreadyHealthy ;;
  if us_health_factor sm <? rc_target_health_factor_min config then execute_collateral_optimization user sm config
  else execute_efficiency_optimization user sm config.

(** The admin check of the two switches. *)
Definition rebal_admin (admin : Address) : BM unit :=
  stored ← ok_or stored_admin RB_Unauthorized;
  reject_if (bool_decide (admin ≠ stored)) RB_Unauthorized ;;
  require_auth admin.

Definition set_emergency_stop (admin : Address) (stopped : bool) : BM unit :=
  rebal_admin admin ;;
  modify (λ s, s <| bkEmergencyStop := Some stopped |>) ;;
  now ← ask timestamp;
  publish_rebal (RebalancingStoppedEvent admin "emergency_stop" now).

Definition set_rebalancing_pause (admin : Address) (paused : bool) : BM unit :=
  rebal_admin admin ;;
  modify (λ s, s <| bkRebalancingPaused := Some paused |>) ;;
  now ← ask timestamp;
  publish_rebal (RebalancingStoppedEvent admin "admin_pause" now).
End operations.

Inductive RebalCall : Type :=
  | ConfigureRebalancing (user : Address) (hf_min hf_max max_gas_cost : Z) (enabled : bool)
      (min_swap_size max_slippage_bps cooldown : Z)
  | ExecuteRebalancing (user : Address)
  | SetEmergencyStop (admin : Address) (stopped : bool)
  | SetRebalancingPause (admin : Address) (paused : bool).

Definition rebal_dispatch (cross : CrossState) (stored_admin : option Address) (c : RebalCall) (env : Env)
    (s : RebalStore) : RebalStore :=
  match c with
  | ConfigureRebalancing u a b g e m p w => (invoke (configure_rebalancing u a b g e m p w) env s).2
  | ExecuteRebalancing u => (invoke (execute_rebalancing cross u) env s).2
  | SetEmergencyStop a b => (invoke (set_emergency_stop stored_admin a b) env s).2
  | SetRebalancingPause a b => (invoke (set_rebalancing_pause stored_admin a b) env s).2
  end.

(** ** What a rebalancing does *)

Lemma position_summary_Ok cross u env s sm s' :
  position_summary cross u env s = (Ok sm, s') → (get_user_position_summary u env cross).1 = Ok sm ∧ s' = s.
Proof. unfold position_summary. destruct (_).1; naive_solver. Qed.
Lemma store_rebal_Ok v c env s u s' :
  store_rebal v c env s = (Ok u, s') → s' = s <| bkRebalancingConfig := <[v := c]> (bkRebalancingConfig s) |>.
Proof. by intros [= <- <-]. Qed.
Lemma publish_rebal_Ok ev env s u s' :
  publish_rebal ev env s = (Ok u, s') → s' = s <| bk_events := (bk_events s ++ [ev]) |>.
Proof. by intros [= <- <-]. Qed.

Ltac run_prim H ::=
  lazymatch type of H with
  | position_summary _ _ _ _ = _ => apply position_summary_Ok in H as [? ?]
  | store_rebal _ _ _ _ = _ => apply store_rebal_Ok in H
  | publish_rebal _ _ _ = _ => apply publish_rebal_Ok in H
  | execute_efficiency_optimization _ _ _ _ _ = _ => unfold execute_efficiency_optimization in H; run_prim H
  | execute_collateral_optimization _ _ _ _ _ = _ => unfold execute_collateral_optimization in H; cbv zeta in H; run_step H
  | execute_rebalancing_swap _ _ _ _ _ = _ => unfold execute_rebalancing_swap in H; run_step H
  | update_last_rebalance_time _ _ _ = _ => unfold update_last_rebalance_time in H; run_step H
  | estimate_gas _ _ _ = _ => unfold estimate_gas in H; run_step H
  | _ => idtac
  end.

(** The estimate of the gas: [Some g] when it fits. *)
Definition gas_of (sm : UserPositionSummary) : option Z :=
  g ← checked_add 100000 (Z.quot (us_total_collateral_value sm) 1000);
  checked_add g (Z.quot (us_total_debt_value sm) 1000).

Definition outside (c : RebalancingConfig) (hf : Z) : Prop :=
  hf < rc_target_health_factor_min c ∨ rc_target_health_factor_max c < hf.

(** When a rebalancing may run, and what the store is afterwards. *)
Record may_rebalance (cross : CrossState) (u : Address) (env : Env) (s : RebalStore) : Prop := {
  mr_signed : authorized env u = true;
  mr_running : is_emergency_stop_active s = false ∧ is_rebalancing_paused s = false;
  mr_enabled : rc_auto_rebalance_enabled (get_rebalancing_config s u) = true;
  mr_cooled : rc_last_rebalance_time (get_rebalancing_config s u) + rc_rebalance_cooldown (get_rebalancing_config s u)
              ≤ timestamp env;
  mr_needed : ∃ sm g, (get_user_position_summary u env cross).1 = Ok sm ∧
    outside (get_rebalancing_config s u) (us_health_factor sm) ∧ gas_of sm = Some g ∧
    g ≤ rc_max_gas_cost (get_rebalancing_config s u);
  mr_worth : rc_min_swap_size (get_rebalancing_config s u) ≤ 1000000;
}.

Definition rebalanced (u : Address) (now : Z) (s : RebalStore) : RebalStore :=
  s <| bkRebalancingConfig :=
         <[u := (get_rebalancing_config s u) <| rc_last_rebalance_time := now |>]> (bkRebalancingConfig s) |>
    <| bk_events := (bk_events s ++ [RebalancingExecutedEvent u None None 1000000 950000 500000 15000 now]) |>.

Lemma rebalance_Ok cross u env s r s' :
  execute_rebalancing cross u env s = (Ok r, s') →
  may_rebalance cross u env s ∧ s' = rebalanced u (timestamp env) s.
Proof.
  unfold execute_rebalancing. intros Hr. run_inv Hr; zbool.
  all: match goal with H : u64_checked_add _ _ = Some _ |- _ => apply fit_Some in H as [_ ->] end.
  all: split; [|done]; split; try done; eexists _, _; unfold outside, gas_of.
  all: split; [eassumption|]; split; [|split; [|eassumption]].
  1: left; done.
  2: match goal with H : _ ∨ _ |- _ => destruct H; zbool; by auto end.
  all: apply bind_Some; by eauto.
Qed.

(** A rebalancing succeeds exactly when the user signed it, neither switch
    is set, the user enabled it, the cooldown is over, the health factor of the
    cross-asset position is outside the range, the gas estimate is within the
    user's limit and the user accepts swaps of 1000000.  It then sets the time
    of the last rebalancing and publishes a swap of no asset for no asset, the
    same for every position: no balance moves, and the slippage limit, however
    small, never matters. *)
Theorem rebalancing_outcome cross u env s :
  (∀ v, rc_last_rebalance_time (get_rebalancing_config s v) + rc_rebalance_cooldown (get_rebalancing_config s v) ≤ U64_MAX) →
  (∀ v, 0 ≤ rc_last_rebalance_time (get_rebalancing_config s v) ∧ 0 ≤ rc_rebalance_cooldown (get_rebalancing_config s v)
        ∧ 0 ≤ rc_max_slippage_bps (get_rebalancing_config s v)) →
  ∀ s', execute_rebalancing cross u env s = (Ok tt, s') ↔
        may_rebalance cross u env s ∧ s' = rebalanced u (timestamp env) s.
Proof.
  intros Hmax Hpos s'. split; [apply rebalance_Ok|].
  intros [[Hsig [Hs Hp] He Hc (sm & g & Hsm & Hout & Hg & Hlim) Hw] ->].
  specialize (Hmax u). destruct (Hpos u) as (Hl & Hcd & Hsl). unfold outside in Hout.
  assert (Hin : (rc_target_health_factor_min (get_rebalancing_config s u) <=? us_health_factor sm)
                && (us_health_factor sm <=? rc_target_health_factor_max (get_rebalancing_config s u)) = false) by
    (apply andb_false_iff; rewrite !Z.leb_gt; lia).
  assert (Hrun : execute_collateral_optimization u sm (get_rebalancing_config s u) env s
                 = (Ok tt, rebalanced u (timestamp env) s)).
  { unfold gas_of in Hg. apply bind_Some in Hg as (g0 & H0 & H1).
    unfold execute_collateral_optimization, estimate_gas. rewrite !bind_eq, H0. run_fwd. rewrite H1. run_fwd.
    rewrite (proj2 (Z.ltb_ge _ _) Hlim). cbn [calculate_optimal_swap sd_amount]. rewrite (proj2 (Z.ltb_ge _ _) Hw).
    run_fwd. unfold execute_rebalancing_swap. run_fwd.
    cbn [calculate_optimal_swap sd_amount sd_expected_amount].
    change (checked_sub 950000 1000000) with (Some (-50000)). run_fwd.
    change (checked_mul (-50000) 10000) with (Some (-500000000)). run_fwd.
    change (checked_div (-500000000) 1000000) with (Some (-500)). run_fwd.
    rewrite (proj2 (Z.ltb_ge _ _)) by lia. reflexivity. }
  unfold execute_rebalancing. rewrite bind_eq. unfold require_auth. rewrite Hsig. run_fwd.
  rewrite Hs. run_fwd. rewrite Hp. run_fwd. rewrite He. run_fwd.
  unfold u64_checked_add. rewrite fits_u64 by lia. run_fwd. rewrite (proj2 (Z.ltb_ge _ _) Hc). run_fwd.
  unfold position_summary. rewrite Hsm, Hin. run_fwd. by destruct (_ <? _).
Qed.

(** ** Sequences of invocations *)

Inductive rebal_run : RebalStore → list (Env * RebalCall) → RebalStore → Prop :=
  | rr_nil s : rebal_run s [] s
  | rr_step s env c cross stored cs s' :
      rebal_run (rebal_dispatch cross stored c env s) cs s' → rebal_run s ((env, c) :: cs) s'.

Definition configures (u : Address) (c : RebalCall) : bool :=
  match c with ConfigureRebalancing v _ _ _ _ _ _ _ => bool_decide (v = u) | _ => false end.

Lemma configure_Ok v a b g e m p w env s r s' :
  configure_rebalancing v a b g e m p w env s = (Ok r, s') →
  10000 ≤ a ≤ b ∧ 0 ≤ g ∧ 0 < m ∧ 0 ≤ p ≤ 10000 ∧ authorized env v = true ∧
  bkRebalancingConfig s' = <[v := mkRebalancingConfig a b g e m p 0 w]> (bkRebalancingConfig s).
Proof.
  unfold configure_rebalancing. intros Hr. run_inv Hr. zbool. repeat split; try done; lia.
Qed.

(** What an invocation does to the configurations: a signed new one, a new time
    of one that was stored or is the default, or nothing. *)
Lemma configs_step cross stored c env s :
  let s' := rebal_dispatch cross stored c env s in
  bkRebalancingConfig s' = bkRebalancingConfig s ∨
  (∃ u a b g e m p w, c = ConfigureRebalancing u a b g e m p w ∧ 10000 ≤ a ≤ b ∧ 0 ≤ g ∧ 0 < m ∧ 0 ≤ p ≤ 10000 ∧
     authorized env u = true ∧
     bkRebalancingConfig s' = <[u := mkRebalancingConfig a b g e m p 0 w]> (bkRebalancingConfig s)) ∨
  (∃ u, c = ExecuteRebalancing u ∧ may_rebalance cross u env s ∧
     bkRebalancingConfig s' =
       <[u := (get_rebalancing_config s u) <| rc_last_rebalance_time := timestamp env |>]> (bkRebalancingConfig s)).
Proof.
  destruct c as [u a b g e m p w|u|a b|a b]; cbn;
    [ destruct (invoked_or_kept (configure_rebalancing u a b g e m p w) env s) as [->|([] & s' & Hr & ->)]
    | destruct (invoked_or_kept (execute_rebalancing cross u) env s) as [->|([] & s' & Hr & ->)]
    | destruct (invoked_or_kept (set_emergency_stop stored a b) env s) as [->|([] & s' & Hr & ->)]
    | destruct (invoked_or_kept (set_rebalancing_pause stored a b) env s) as [->|([] & s' & Hr & ->)] ]; try by left.
  - right; left. apply configure_Ok in Hr. exists u, a, b, g, e, m, p, w. exact (conj eq_refl Hr).
  - right; right. apply rebalance_Ok in Hr as [? ->]. by eexists.
  - left. unfold set_emergency_stop, rebal_admin in Hr. by run_inv Hr.
  - left. unfold set_rebalancing_pause, rebal_admin in Hr. by run_inv Hr.
Qed.

(** The configuration of [u] keeps its cooldown and does not forget a time. *)
Lemma cooldown_kept u s cs s' t w :
  rebal_run s cs s' → Forall (λ '(env, c), configures u c = false ∧ t ≤ timestamp env) cs →
  t ≤ rc_last_rebalance_time (get_rebalancing_config s u) → rc_rebalance_cooldown (get_rebalancing_config s u) = w →
  t ≤ rc_last_rebalance_time (get_rebalancing_config s' u) ∧ rc_rebalance_cooldown (get_rebalancing_config s' u) = w.
Proof.
  induction 1 as [|s env c cross stored cs s' Hrun IH]; [done|]. intros [[Hc Ht] Hcs]%Forall_cons Hl Hw.
  apply IH; [done|..].
  all: unfold get_rebalancing_config;
    destruct (configs_step cross stored c env s) as
      [->|[(v & ? & ? & ? & ? & ? & ? & ? & -> & _ & _ & _ & _ & _ & ->)|(v & -> & _ & ->)]]; try done.
  all: try (cbn in Hc; apply bool_decide_eq_false in Hc; by rewrite lookup_insert_ne).
  all: destruct (decide (v = u)) as [->|Hv]; [by rewrite lookup_insert_eq|by rewrite lookup_insert_ne].
Qed.

(** However often others act in between, two rebalancings of one user are
    at least the configured cooldown apart, as long as the user does not
    configure the rebalancing again, which forgets the last one. *)
Theorem rebalancings_are_apart cross cross' u env env' s cs s1 s2 s3 :
  execute_rebalancing cross u env s = (Ok tt, s1) →
  rebal_run s1 cs s2 → Forall (λ '(e, c), configures u c = false ∧ timestamp env ≤ timestamp e) cs →
  execute_rebalancing cross' u env' s2 = (Ok tt, s3) →
  timestamp env + rc_rebalance_cooldown (get_rebalancing_config s u) ≤ timestamp env'.
Proof.
  intros [_ ->]%rebalance_Ok Hrun Hcs [[_ _ _ Hc _ _] _]%rebalance_Ok.
  destruct (cooldown_kept u _ cs s2 (timestamp env) (rc_rebalance_cooldown (get_rebalancing_config s u)) Hrun Hcs)
    as [Ht Hw]; [unfold get_rebalancing_config, rebalanced; cbn; by rewrite lookup_insert_eq..|]. lia.
Qed.

Definition valid_config (c : RebalancingConfig) : Prop :=
  10000 ≤ rc_target_health_factor_min c ≤ rc_target_health_factor_max c ∧ 0 ≤ rc_max_gas_cost c ∧
  0 < rc_min_swap_size c ∧ 0 ≤ rc_max_slippage_bps c ≤ 10000.

(** After any sequence of invocations every user's settings, the defaults
    included, have a range above 10000, a gas limit that is not negative, a
    positive minimum swap and a slippage limit between 0 and 10000. *)
Theorem rebalancing_settings_are_valid cs s u :
  rebal_run empty_rebal cs s → valid_config (get_rebalancing_config s u).
Proof.
  assert (Hgen : ∀ s0, rebal_run s0 cs s → (∀ v, valid_config (get_rebalancing_config s0 v)) →
                       ∀ v, valid_config (get_rebalancing_config s v)).
  { induction 1 as [|s0 env c cross stored cs s' Hrun IH]; [done|]. intros Hs0. apply IH. intros v.
    pose proof (Hs0 v) as Hv. unfold get_rebalancing_config.
    destruct (configs_step cross stored c env s0) as
      [->|[(w & ? & ? & ? & ? & ? & ? & ? & -> & ? & ? & ? & ? & _ & ->)|(w & -> & _ & ->)]]; try done.
    all: destruct (decide (w = v)) as [->|Hw]; [rewrite lookup_insert_eq|by rewrite lookup_insert_ne].
    all: by unfold valid_config; cbn. }
  intros Hrun. apply (Hgen _ Hrun). intros v. unfold get_rebalancing_config, valid_config; cbn.
  rewrite lookup_empty. cbn. lia.
Qed.

(** ** A concrete run *)

Definition watching : RebalStore :=
  rebal_dispatch loaned None (ConfigureRebalancing mallory 15000 25000 1000000 true 1 0 600) (signed_for mallory 1500)
    empty_rebal.
Definition rebalanced_once : RebalStore := rebal_dispatch loaned None (ExecuteRebalancing mallory) (signed_for mallory 1600) watching.

Lemma watching_config v : get_rebalancing_config watching v =
  if decide (v = mallory) then mkRebalancingConfig 15000 25000 1000000 true 1 0 0 600 else default_rebalancing.
Proof.
  change (bkRebalancingConfig watching) with
    (<[mallory := mkRebalancingConfig 15000 25000 1000000 true 1 0 0 600]> (∅ : gmap Address RebalancingConfig)).
  unfold get_rebalancing_config. change (bkRebalancingConfig watching) with
    (<[mallory := mkRebalancingConfig 15000 25000 1000000 true 1 0 0 600]> (∅ : gmap Address RebalancingConfig)).
  destruct (decide (v = mallory)) as [->|Hv]; [by rewrite lookup_insert_eq|].
  rewrite lookup_insert_ne, lookup_empty by congruence. done.
Qed.

Lemma rebalancing_outcome_witness :
  may_rebalance loaned mallory (signed_for mallory 1600) watching.
Proof.
  refine (proj1 (proj1 (rebalancing_outcome loaned mallory (signed_for mallory 1600) watching _ _ rebalanced_once) _)).
  - intros v. rewrite watching_config. destruct (decide _); vm_compute; discriminate.
  - intros v. rewrite watching_config. destruct (decide _); vm_compute; repeat split; discriminate.
  - vm_compute. reflexivity.
Defined.

Lemma rebalancings_are_apart_witness : 1600 + 600 ≤ 2200.
Proof.
  refine (rebalancings_are_apart loaned loaned mallory (signed_for mallory 1600) (signed_for mallory 2200) watching
            [(signed_for mallory 1700, ExecuteRebalancing mallory)] rebalanced_once rebalanced_once
            (rebal_dispatch loaned None (ExecuteRebalancing mallory) (signed_for mallory 2200) rebalanced_once) _ _ _ _).
  - vm_compute. reflexivity.
  - apply (rr_step _ _ _ loaned None). vm_compute. constructor.
  - repeat constructor; vm_compute; discriminate.
  - vm_compute. reflexivity.
Defined.

Lemma rebalancing_settings_are_valid_witness : valid_config (get_rebalancing_config rebalanced_once mallory).
Proof.
  apply (rebalancing_settings_are_valid
           [(signed_for mallory 1500, ConfigureRebalancing mallory 15000 25000 1000000 true 1 0 600);
            (signed_for mallory 1600, ExecuteRebalancing mallory)]).
  apply (rr_step _ _ _ loaned None), (rr_step _ _ _ loaned None). constructor.
Defined.
