(* ===== verification/Monitor.v ===== *)
(** * Monitor: the reporting contract ([hello-world/src/monitor.rs])

    A contract of its own: an admin and at most fifty reporters store the latest
    health, performance and security signal of each target.  A
    [panic_with_error!(e)] ends the invocation with the code [e], so it is [fail
    e] here.  A [String] is a sequence of bytes, [len] counts them. *)

From S2P Require Import Prelude.
From S2P Require Import Host.

(** ** Constants and data *)

Definition MAX_TARGET_LEN : Z := 64.
Definition MAX_MESSAGE_LEN : Z := 256.
Definition MAX_METRIC_LEN : Z := 64.
Definition MAX_UNIT_LEN : Z := 16.
Definition MAX_REPORTERS : Z := 50.

Inductive MonitorError : Type :=
  | MN_AlreadyInitialized | MN_NotAuthorized | MN_TargetTooLong | MN_MessageTooLong | MN_MetricNameTooLong
  | MN_UnitTooLong | MN_SignalNotFound | MN_NotInitialized | MN_ReporterLimitReached.

Inductive HealthStatus : Type := Up | Degraded | Down.
Inductive SecuritySeverity : Type := Info | Warn | Critical.

Record HealthSignal : Type := mkHealthSignal {
  hs_status : HealthStatus;
  hs_message : string;
  hs_timestamp : Z;
  hs_reporter : Address;
}.

Record PerformanceSignal : Type := mkPerformanceSignal {
  ps_metric_name : string;
  ps_value_scaled : Z;
  ps_scale : Z;
  ps_unit : string;
  ps_timestamp : Z;
  ps_reporter : Address;
}.

Record SecuritySignal : Type := mkSecuritySignal {
  ss_severity : SecuritySeverity;
  ss_message : string;
  ss_timestamp : Z;
  ss_reporter : Address;
}.

Inductive SignalKind : Type := HealthKind | PerformanceKind | SecurityKind.
#[export] Instance SignalKind_eq_dec : EqDecision SignalKind.
Proof. solve_decision. Defined.

Inductive MonitorSignal : Type :=
  | Health (h : HealthSignal)
  | Performance (p : PerformanceSignal)
  | Security (x : SecuritySignal).

Inductive MonitorEvent : Type :=
  | mon_init (admin : Address)
  | rep_add (caller reporter : Address)
  | rep_del (caller reporter : Address)
  | mon_hlth (caller : Address) (target : string) (status : HealthStatus)
  | mon_perf (caller : Address) (target : string) (value_scaled : Z)
  | mon_sec (caller : Address) (target : string) (severity : SecuritySeverity).

(** [MonitorKey], and the events. *)
Record MonitorStore : Type := mkMonitorStore {
  mnAdmin : option Address;
  mnReporters : option (list Address);
  mnHealth : gmap string HealthSignal;
  mnPerformance : gmap string PerformanceSignal;
  mnSecurity : gmap string SecuritySignal;
  mn_events : list MonitorEvent;
}.
#[export] Instance MonitorStore_upd : Updatable MonitorStore := λ s,
  mkMonitorStore (mnAdmin s) (mnReporters s) (mnHealth s) (mnPerformance s) (mnSecurity s) (mn_events s).

Definition empty_monitor : MonitorStore := mkMonitorStore None None ∅ ∅ ∅ [].

Abbreviation MM := (M MonitorStore MonitorError) (only parsing).

Definition len (x : string) : Z := Z.of_nat (String.length x).
Definition publish_signal (e : MonitorEvent) : MM unit := modify (λ s, s <| mn_events := (mn_events s ++ [e]) |>).

(** [env.storage().persistent().get(&MonitorKey::Reporters).unwrap_or_else(|| Vec::new(&env))] *)
Definition reporters (s : MonitorStore) : list Address := default [] (mnReporters s).

(** ** Guards *)

Definition assert_initialized : MM unit :=
  admin ← gets mnAdmin;
  reject_if (bool_decide (admin = None)) MN_NotInitialized.

Definition assert_admin (caller : Address) : MM unit :=
  stored ← gets mnAdmin;
  admin ← ok_or stored MN_NotInitialized;
  reject_if (bool_decide (caller ≠ admin)) MN_NotAuthorized.

Definition assert_can_report (caller : Address) : MM unit :=
  stored ← gets mnAdmin;
  admin ← ok_or stored MN_NotInitialized;
  if bool_decide (caller = admin) then mret tt else
  rs ← gets reporters;
  reject_if (bool_decide (caller ∉ rs)) MN_NotAuthorized.

Definition assert_target_len (target : string) : MM unit :=
  reject_if (MAX_TARGET_LEN <? len target) MN_TargetTooLong.

(** ** Operations *)

Definition init (admin : Address) : MM unit :=
  require_auth admin ;;
  stored ← gets mnAdmin;
  reject_if (bool_decide (stored ≠ None)) MN_AlreadyInitialized ;;
  modify (λ s, s <| mnAdmin := Some admin |>) ;;
  modify (λ s, s <| mnReporters := Some [] |>) ;;
  publish_signal (mon_init admin).

Definition grant_reporter (caller reporter : Address) : MM unit :=
  require_auth caller ;;
  assert_admin caller ;;
  rs ← gets reporters;
  if bool_decide (reporter ∈ rs) then mret tt else
  reject_if (MAX_REPORTERS <=? Z.of_nat (length rs)) MN_ReporterLimitReached ;;
  modify (λ s, s <| mnReporters := Some (rs ++ [reporter]) |>) ;;
  publish_signal (rep_add caller reporter).

(** [for r in reporters.iter() { if r != reporter { new_reporters.push_back(r) } }] *)
Definition without (reporter : Address) (rs : list Address) : list Address := filter (λ r, r ≠ reporter) rs.

Definition revoke_reporter (caller reporter : Address) : MM unit :=
  require_auth caller ;;
  assert_admin caller ;;
  rs ← gets reporters;
  modify (λ s, s <| mnReporters := Some (without reporter rs) |>) ;;
  publish_signal (rep_del caller reporter).

Definition monitor_report_health (caller : Address) (target : string) (status : HealthStatus) (message : string) :
    MM unit :=
  require_auth caller ;;
  assert_initialized ;;
  assert_can_report caller ;;
  assert_target_len target ;;
  reject_if (MAX_MESSAGE_LEN <? len message) MN_MessageTooLong ;;
  now ← ask timestamp;
  modify (λ s, s <| mnHealth := <[target := mkHealthSignal status message now caller]> (mnHealth s) |>) ;;
  publish_signal (mon_hlth caller target status).

Definition monitor_report_performance (caller : Address) (target metric_name : string) (value_scaled scale : Z)
    (unit_label : string) : MM unit :=
  require_auth caller ;;
  assert_initialized ;;
  assert_can_report caller ;;
  assert_target_len target ;;
  reject_if (MAX_METRIC_LEN <? len metric_name) MN_MetricNameTooLong ;;
  reject_if (MAX_UNIT_LEN <? len unit_label) MN_UnitTooLong ;;
  now ← ask timestamp;
  modify (λ s, s <| mnPerformance :=
    <[target := mkPerformanceSignal metric_name value_scaled scale unit_label now caller]> (mnPerformance s) |>) ;;
  publish_signal (mon_perf caller target value_scaled).

Definition monitor_report_security (caller : Address) (target : string) (severity : SecuritySeverity)
    (message : string) : MM unit :=
  require_auth caller ;;
  assert_initialized ;;
  assert_can_report caller ;;
  assert_target_len target ;;
  reject_if (MAX_MESSAGE_LEN <? len message) MN_MessageTooLong ;;
  now ← ask timestamp;
  modify (λ s, s <| mnSecurity := <[target := mkSecuritySignal severity message now caller]> (mnSecurity s) |>) ;;
  publish_signal (mon_sec caller target severity).

(** ** Views *)

Definition monitor_get (target : string) (kind : SignalKind) : MM MonitorSignal :=
  assert_initialized ;;
  match kind with
  | HealthKind =>
      stored ← gets (λ s, mnHealth s !! target);
      signal ← ok_or stored MN_SignalNotFound;
      mret (Health signal)
  | PerformanceKind =>
      stored ← gets (λ s, mnPerformance s !! target);
      signal ← ok_or stored MN_SignalNotFound;
      mret (Performance signal)
  | SecurityKind =>
      stored ← gets (λ s, mnSecurity s !! target);
      signal ← ok_or stored MN_SignalNotFound;
      mret (Security signal)
  end.

Definition get_admin : MM Address :=
  assert_initialized ;;
  stored ← gets mnAdmin;
  ok_or stored MN_NotInitialized.

Definition is_reporter (s : MonitorStore) (address : Address) : bool :=
  match mnAdmin s with
  | None => false
  | Some admin => bool_decide (address = admin) || bool_decide (address ∈ reporters s)
  end.

Definition signal_exists (target : string) (kind : SignalKind) : MM bool :=
  assert_initialized ;;
  match kind with
  | HealthKind => gets (λ s, bool_decide (is_Some (mnHealth s !! target)))
  | PerformanceKind => gets (λ s, bool_decide (is_Some (mnPerformance s !! target)))
  | SecurityKind => gets (λ s, bool_decide (is_Some (mnSecurity s !! target)))
  end.

(** ** Invocations *)

Inductive MonitorCall : Type :=
  | Init (admin : Address)
  | GrantReporter (caller reporter : Address)
  | RevokeReporter (caller reporter : Address)
  | ReportHealth (caller : Address) (target : string) (status : HealthStatus) (message : string)
  | ReportPerformance (caller : Address) (target metric_name : string) (value_scaled scale : Z) (unit_label : string)
  | ReportSecurity (caller : Address) (target : string) (severity : SecuritySeverity) (message : string).

Definition monitor_perform (c : MonitorCall) : MM unit :=
  match c with
  | Init a => init a
  | GrantReporter a r => grant_reporter a r
  | RevokeReporter a r => revoke_reporter a r
  | ReportHealth a t x m => monitor_report_health a t x m
  | ReportPerformance a t n v x u => monitor_report_performance a t n v x u
  | ReportSecurity a t x m => monitor_report_security a t x m
  end.

Definition monitor_dispatch (c : MonitorCall) (env : Env) (s : MonitorStore) : res MonitorError unit * MonitorStore :=
  invoke (monitor_perform c) env s.

(** The state after the invocations of [l], in this order. *)
Definition monitor_after (l : list (Env * MonitorCall)) : MonitorStore :=
  fold_left (λ s '(env, c), (monitor_dispatch c env s).2) l empty_monitor.
