(* ===== verification/MonitorSafety.v ===== *)
(** * MonitorSafety: what the reporting contract promises

    A [Board] is the contract as its documentation describes it: an admin, a set
    of reporters, the latest signal of each kind and target.  The contract
    refines it; every signal that is read was reported by somebody entitled, and
    is the latest; there are at most fifty reporters. *)

From S2P Require Import Prelude.
From S2P Require Import Host.
From S2P Require Import Monitor.

(** ** The board *)

Record Board : Type := mkBoard {
  bd_admin : option Address;
  bd_reporters : gset Address;
  bd_latest : SignalKind → string → option MonitorSignal;
}.

Definition empty_board : Board := mkBoard None ∅ (λ _ _, None).

(** A report: who, about what, of which kind, with which signal, and whether its
    texts are short enough. *)
Record Report : Type := mkReport {
  rp_caller : Address;
  rp_target : string;
  rp_kind : SignalKind;
  rp_signal : MonitorSignal;
  rp_short : bool;
}.

Definition report_of (env : Env) (c : MonitorCall) : option Report :=
  let now := timestamp env in
  match c with
  | ReportHealth a t x m =>
      Some (mkReport a t HealthKind (Health (mkHealthSignal x m now a)) ((len t <=? 64) && (len m <=? 256)))
  | ReportPerformance a t n v x u =>
      Some (mkReport a t PerformanceKind (Performance (mkPerformanceSignal n v x u now a))
              ((len t <=? 64) && (len n <=? 64) && (len u <=? 16)))
  | ReportSecurity a t x m =>
      Some (mkReport a t SecurityKind (Security (mkSecuritySignal x m now a)) ((len t <=? 64) && (len m <=? 256)))
  | _ => None
  end.

Definition entitled (b : Board) (a : Address) : bool :=
  match bd_admin b with None => false | Some x => bool_decide (a = x) || bool_decide (a ∈ bd_reporters b) end.

Definition post (p : Report) (b : Board) : Board :=
  mkBoard (bd_admin b) (bd_reporters b) (λ k t,
    if decide (k = rp_kind p ∧ t = rp_target p) then Some (rp_signal p) else bd_latest b k t).

(** What the board does with an invocation; [None] refuses it. *)
Definition board_step (env : Env) (c : MonitorCall) (b : Board) : option Board :=
  match c with
  | Init a =>
      if authorized env a && bool_decide (bd_admin b = None) then Some (mkBoard (Some a) ∅ (bd_latest b)) else None
  | GrantReporter a r =>
      if authorized env a && bool_decide (bd_admin b = Some a)
         && (bool_decide (r ∈ bd_reporters b) || (Z.of_nat (size (bd_reporters b)) <? 50))
      then Some (mkBoard (bd_admin b) (bd_reporters b ∪ {[r]}) (bd_latest b)) else None
  | RevokeReporter a r =>
      if authorized env a && bool_decide (bd_admin b = Some a)
      then Some (mkBoard (bd_admin b) (bd_reporters b ∖ {[r]}) (bd_latest b)) else None
  | _ =>
      p ← report_of env c;
      if authorized env (rp_caller p) && entitled b (rp_caller p) && rp_short p then Some (post p b) else None
  end.

(** ** The contract shows a board *)

Definition stored_signal (s : MonitorStore) (k : SignalKind) (t : string) : option MonitorSignal :=
  match k with
  | HealthKind => Health <$> mnHealth s !! t
  | PerformanceKind => Performance <$> mnPerformance s !! t
  | SecurityKind => Security <$> mnSecurity s !! t
  end.

Record shows (s : MonitorStore) (b : Board) : Prop := {
  sh_admin : mnAdmin s = bd_admin b;
  sh_distinct : NoDup (reporters s);
  sh_reporters a : a ∈ reporters s ↔ a ∈ bd_reporters b;
  sh_latest k t : stored_signal s k t = bd_latest b k t;
}.

Lemma shows_size s b : shows s b → Z.of_nat (length (reporters s)) = Z.of_nat (size (bd_reporters b)).
Proof.
  intros [_ Hd Hr _]. f_equal. rewrite <- (size_list_to_set (C := gset Address) _ Hd). apply set_size_proper.
  intros a. rewrite elem_of_list_to_set. apply Hr.
Qed.

Lemma is_reporter_shows s b a : shows s b → is_reporter s a = entitled b a.
Proof.
  intros [Ha _ Hr _]. unfold is_reporter, entitled. rewrite Ha. destruct (bd_admin b); [|done].
  f_equal. apply bool_decide_ext, Hr.
Qed.

(** ** The guards *)

Lemma monitor_initialized env s :
  assert_initialized env s = (if bool_decide (mnAdmin s = None) then Err MN_NotInitialized else Ok tt, s).
Proof. unfold assert_initialized. run_fwd. by case_bool_decide. Qed.

Lemma admin_run a env s :
  assert_admin a env s = (Ok tt, s) ∧ mnAdmin s = Some a ∨
  (∃ e, assert_admin a env s = (Err e, s)) ∧ mnAdmin s ≠ Some a.
Proof.
  unfold assert_admin. run_fwd. destruct (mnAdmin s) as [x|]; run_fwd; [|right; naive_solver].
  case_bool_decide as Hx; run_fwd; [right|left]; naive_solver.
Qed.

(** Who may report, all guards together. *)
Definition reporting (a : Address) (t : string) : M MonitorStore MonitorError unit :=
  require_auth a ;; assert_initialized ;; assert_can_report a ;; assert_target_len t.

Lemma can_report_run a env s :
  mnAdmin s ≠ None → (∃ e, assert_can_report a env s = (if is_reporter s a then Ok tt else Err e, s)).
Proof.
  intros Hs. unfold assert_can_report, is_reporter. run_fwd. destruct (mnAdmin s) as [x|]; [|done]. run_fwd.
  exists MN_NotAuthorized. case_bool_decide; [done|]. run_fwd. by repeat case_bool_decide.
Qed.

(** An invocation that fails, with an error or a trap. *)
Definition refused {A} (r : res MonitorError A * MonitorStore) : Prop := ∀ a, r.1 ≠ Ok a.

(** The common shape of the three reports. *)
Lemma reporting_run a t (k : M MonitorStore MonitorError unit) env s :
  let m := require_auth a ;; assert_initialized ;; assert_can_report a ;; assert_target_len t ;; k in
  if authorized env a && is_reporter s a && (len t <=? 64) then m env s = k env s else refused (m env s).
Proof.
  cbv zeta. rewrite bind_eq. unfold require_auth. destruct (authorized env a); cbn [andb]; [|done].
  rewrite bind_eq, monitor_initialized. case_bool_decide as Hs.
  { unfold is_reporter. rewrite Hs. done. }
  destruct (can_report_run a env s Hs) as [e He]. rewrite bind_eq, He. destruct (is_reporter s a); cbn [andb]; [|done].
  rewrite bind_eq. unfold assert_target_len, MAX_TARGET_LEN. rewrite Z.ltb_antisym.
  destruct (len t <=? 64); [|done]. run_fwd. done.
Qed.

Lemma refused_if (c : bool) e (k : M MonitorStore MonitorError unit) env s :
  (reject_if c e ;; k) env s = if c then (Err e, s) else k env s.
Proof. by destruct c. Qed.

(** ** Each step *)

(** What the operation does, against what the board does. *)
Definition matches (r : res MonitorError unit * MonitorStore) (b : option Board) : Prop :=
  match b with Some b' => ∃ s', r = (Ok tt, s') ∧ shows s' b' | None => refused r end.

Lemma shows_posted s b s' p :
  shows s b → mnAdmin s' = mnAdmin s → mnReporters s' = mnReporters s →
  (∀ k t, stored_signal s' k t =
          if decide (k = rp_kind p ∧ t = rp_target p) then Some (rp_signal p) else stored_signal s k t) →
  shows s' (post p b).
Proof.
  intros [Ha Hd Hr Hl] Ha' Hr' Hl'. split; cbn; [congruence|unfold reporters in *; by rewrite Hr'..|].
  intros k t. rewrite Hl'. by case_decide.
Qed.

(** Closes a goal about the one stored signal that changed. *)
Ltac one_signal :=
  intros [] ?; cbn; destruct (decide _) as [[? ->]|?]; try discriminate; try done;
  [by rewrite lookup_insert_eq|rewrite lookup_insert_ne; [done|intros ->; naive_solver]].

Lemma report_matches env c p s b :
  report_of env c = Some p → shows s b → matches (monitor_perform c env s) (board_step env c b).
Proof.
  intros Hp Hs. destruct c; try discriminate Hp; cbn in Hp; injection Hp as <-; cbn;
    unfold monitor_report_health, monitor_report_performance, monitor_report_security;
    match goal with |- context [authorized env ?a] =>
      match goal with |- matches ((_ ;; _ ;; _ ;; assert_target_len ?t ;; ?k) env s) _ =>
        pose proof (reporting_run a t k env s) as Hrun end end;
    cbv zeta in Hrun; rewrite <- (is_reporter_shows s b) by done;
    destruct (authorized env _ && is_reporter s _) eqn:E; cbn [andb] in Hrun |- *; try exact Hrun.
  all: destruct (len target <=? 64); cbn [andb] in Hrun |- *; [rewrite Hrun|exact Hrun].
  all: unfold MAX_MESSAGE_LEN, MAX_METRIC_LEN, MAX_UNIT_LEN; rewrite !refused_if, ?Z.ltb_antisym.
  1,3: destruct (len message <=? 256); [|done].
  3: destruct (len metric_name <=? 64); [|done]; cbn [negb andb];
     destruct (len unit_label <=? 16); [|done].
  all: eexists; split; [reflexivity|]; eapply shows_posted; [exact Hs|done..|one_signal].
Qed.

Lemma init_matches env a s b : shows s b → matches (init a env s) (board_step env (Init a) b).
Proof.
  intros [Ha Hd Hr Hl]. cbn. rewrite <- Ha. unfold init. rewrite bind_eq. unfold require_auth.
  destruct (authorized env a); [|done]. run_fwd. case_bool_decide as Hs; case_bool_decide; run_fwd; try done.
  eexists. split; [reflexivity|]. split; cbn; [done|constructor| |exact Hl]. set_solver.
Qed.

Lemma grant_matches env a r s b :
  shows s b → matches (grant_reporter a r env s) (board_step env (GrantReporter a r) b).
Proof.
  intros Hs. pose proof (shows_size s b Hs) as Hn. destruct Hs as [Ha Hd Hr Hl]. cbn.
  unfold grant_reporter. rewrite bind_eq. unfold require_auth. destruct (authorized env a); [|done]. rewrite bind_eq.
  rewrite <- Ha. destruct (admin_run a env s) as [[-> Had]|[[e ->] Had]]; cbn;
    [rewrite Had, bool_decide_eq_true_2 by done|by rewrite bool_decide_eq_false_2].
  rewrite <- Hn, <- (bool_decide_ext _ _ (Hr r)). run_fwd. case_bool_decide as Hin; cbn [orb]; run_fwd.
  { eexists. split; [reflexivity|]. split; cbn; try done. intros x. rewrite Hr. set_solver. }
  unfold MAX_REPORTERS. rewrite Z.leb_antisym. destruct (_ <? 50); [|done]. run_fwd.
  eexists. split; [reflexivity|]. split; cbn; try done.
  - apply NoDup_app. split_and!; [done|set_solver|apply NoDup_singleton].
  - intros x. rewrite elem_of_app, Hr. set_solver.
Qed.

Lemma revoke_matches env a r s b :
  shows s b → matches (revoke_reporter a r env s) (board_step env (RevokeReporter a r) b).
Proof.
  intros [Ha Hd Hr Hl]. cbn. unfold revoke_reporter. rewrite bind_eq. unfold require_auth.
  destruct (authorized env a); [|done]. rewrite bind_eq, <- Ha.
  destruct (admin_run a env s) as [[-> Had]|[[e ->] Had]]; cbn;
    [rewrite Had, bool_decide_eq_true_2 by done|by rewrite bool_decide_eq_false_2].
  eexists. split; [reflexivity|]. split; cbn; try done; [by apply NoDup_filter|].
  intros x. unfold without. rewrite list_elem_of_filter, Hr. set_solver.
Qed.

Lemma perform_matches env c s b :
  shows s b → matches (monitor_perform c env s) (board_step env c b).
Proof.
  intros Hs. destruct (report_of env c) eqn:Hp; [by eapply report_matches|]. destruct c; try discriminate Hp; cbn [monitor_perform].
  - by apply init_matches.
  - by apply grant_matches.
  - by apply revoke_matches.
Qed.

(** ** Histories *)

Definition board_after (l : list (Env * MonitorCall)) : Board :=
  fold_left (λ b '(env, c), default b (board_step env c b)) l empty_board.

Lemma dispatch_shows env c s b :
  shows s b → shows (monitor_dispatch c env s).2 (default b (board_step env c b)) ∧
              ((monitor_dispatch c env s).1 = Ok tt ↔ is_Some (board_step env c b)).
Proof.
  intros Hs. pose proof (perform_matches env c s b Hs) as Hm. unfold monitor_dispatch, invoke.
  destruct (board_step env c b) as [b'|]; cbn in *.
  - destruct Hm as (s' & -> & Hs'). by split.
  - unfold refused in Hm. destruct (monitor_perform c env s) as [[[]|e|] s']; cbn in *; [by destruct (Hm tt)|..].
    all: split; [exact Hs|split; [done|intros [? [=]]]].
Qed.

Lemma empty_shows : shows empty_monitor empty_board.
Proof. split; [done|constructor|set_solver|by intros [] t]. Qed.

Lemma after_shows l : shows (monitor_after l) (board_after l).
Proof.
  induction l as [|[env c] l IH] using rev_ind; [exact empty_shows|].
  unfold monitor_after, board_after in *. rewrite !fold_left_app. cbn. by apply dispatch_shows.
Qed.

Lemma get_run target kind env s :
  monitor_get target kind env s =
  (if bool_decide (mnAdmin s = None) then Err MN_NotInitialized
   else from_option Ok (Err MN_SignalNotFound) (stored_signal s kind target), s).
Proof.
  unfold monitor_get. rewrite bind_eq, monitor_initialized. case_bool_decide; [done|].
  destruct kind; run_fwd; cbn; by destruct (_ !! target).
Qed.

(** C15: the monitoring contract is the board of its documentation: after any
    sequence of invocations it has the board's admin, reporters and latest
    signals, a further invocation succeeds exactly when the board accepts it,
    and a read returns what the board shows. *)
Theorem monitor_refines_board l :
  let s := monitor_after l in let b := board_after l in
  shows s b ∧
  (∀ env c, (monitor_dispatch c env s).1 = Ok tt ↔ is_Some (board_step env c b)) ∧
  (∀ env target kind, (monitor_get target kind env s).1 =
     match bd_admin b with
     | None => Err MN_NotInitialized
     | Some _ => from_option Ok (Err MN_SignalNotFound) (bd_latest b kind target)
     end) ∧
  (∀ a, is_reporter s a = entitled b a).
Proof.
  intros s b. pose proof (after_shows l) as Hs. split_and!; [done|intros env c; by apply dispatch_shows| |].
  - intros env t k. rewrite get_run. cbn. fold s b in Hs. rewrite (sh_admin _ _ Hs), (sh_latest _ _ Hs).
    by destruct (bd_admin b).
  - intros a. by apply is_reporter_shows.
Qed.

(** ** Where a signal comes from *)

(** [p] was accepted in the state [s] of an invocation. *)
Definition accepted (s : MonitorStore) (env : Env) (c : MonitorCall) (p : Report) : Prop :=
  report_of env c = Some p ∧ (monitor_dispatch c env s).1 = Ok tt.

Lemma board_report env c b b' p :
  board_step env c b = Some b' → report_of env c = Some p →
  authorized env (rp_caller p) = true ∧ entitled b (rp_caller p) = true ∧ rp_short p = true ∧ b' = post p b.
Proof.
  intros Hb Hp. unfold board_step in Hb. destruct c; try discriminate Hp; rewrite Hp in Hb; cbn [mbind option_bind] in Hb.
  all: destruct (_ && _) eqn:E in Hb; [|done]; injection Hb as <-.
  all: apply andb_true_iff in E as [E Hx]; apply andb_true_iff in E as [E1 E2]; done.
Qed.

Lemma board_keeps env c b b' k t :
  board_step env c b = Some b' → (∀ p, report_of env c = Some p → rp_kind p ≠ k ∨ rp_target p ≠ t) →
  bd_latest b' k t = bd_latest b k t.
Proof.
  intros Hb Hp. destruct (report_of env c) as [p|] eqn:E.
  - destruct (board_report _ _ _ _ _ Hb E) as (_ & _ & _ & ->). cbn. rewrite decide_False; [done|].
    destruct (Hp p eq_refl); naive_solver.
  - destruct c; try discriminate E; cbn in Hb; destruct (_ && _) in Hb; simplify_eq; done.
Qed.

Lemma after_snoc l env c : monitor_after (l ++ [(env, c)]) = (monitor_dispatch c env (monitor_after l)).2.
Proof. unfold monitor_after. by rewrite fold_left_app. Qed.

(** The invocations [l2] after [l1] report nothing of the kind for the target. *)
Definition silent (l1 l2 : list (Env * MonitorCall)) (k : SignalKind) (t : string) : Prop :=
  ∀ m1 env c m2 p, l2 = m1 ++ (env, c) :: m2 → accepted (monitor_after (l1 ++ m1)) env c p →
    rp_kind p ≠ k ∨ rp_target p ≠ t.

Lemma silent_snoc l1 l2 env c k t :
  silent l1 l2 k t → (∀ p, accepted (monitor_after (l1 ++ l2)) env c p → rp_kind p ≠ k ∨ rp_target p ≠ t) →
  silent l1 (l2 ++ [(env, c)]) k t.
Proof.
  intros Hs Hp m1 env' c' m2 p Heq Ha. destruct m2 as [|x m2 _] using rev_ind.
  - apply app_inj_tail in Heq as [<- [= <- <-]]. by apply Hp.
  - rewrite app_comm_cons, app_assoc in Heq. apply app_inj_tail in Heq as [-> _]. by eapply Hs.
Qed.

(** Whatever [monitor_get] returns was reported, for this target and kind,
    by an invocation the named reporter signed while being the admin or a
    reporter, at the time the signal names, with texts within the limits, and
    no later report of the kind for the target was accepted. *)
Theorem reads_are_latest_reports l target kind env x :
  (monitor_get target kind env (monitor_after l)).1 = Ok x →
  ∃ l1 env1 c p l2, l = l1 ++ (env1, c) :: l2 ∧ accepted (monitor_after l1) env1 c p ∧
    rp_target p = target ∧ rp_kind p = kind ∧ rp_signal p = x ∧
    authorized env1 (rp_caller p) = true ∧ is_reporter (monitor_after l1) (rp_caller p) = true ∧ rp_short p = true ∧
    silent (l1 ++ [(env1, c)]) l2 kind target.
Proof.
  intros Hg. assert (Hx : bd_latest (board_after l) kind target = Some x).
  { rewrite get_run in Hg. cbn in Hg. rewrite <- (sh_latest _ _ (after_shows l)). case_bool_decide; [done|].
    destruct (stored_signal _ _ _); cbn in Hg; by simplify_eq. }
  clear Hg. revert x Hx. induction l as [|[env1 c] l IH] using rev_ind; intros x Hx; [done|].
  pose proof (after_shows l) as Hs. destruct (dispatch_shows env1 c _ _ Hs) as [_ Hok].
  unfold board_after in Hx. rewrite fold_left_app in Hx. cbn in Hx. fold (board_after l) in Hx.
  (* unless this invocation reports the signal, an earlier one did and this one is silent *)
  assert (Hearlier : bd_latest (board_after l) kind target = Some x →
    (∀ p, accepted (monitor_after l) env1 c p → rp_kind p ≠ kind ∨ rp_target p ≠ target) →
    ∃ l1 env2 c' p l2, l ++ [(env1, c)] = l1 ++ (env2, c') :: l2 ∧ accepted (monitor_after l1) env2 c' p ∧
      rp_target p = target ∧ rp_kind p = kind ∧ rp_signal p = x ∧
      authorized env2 (rp_caller p) = true ∧ is_reporter (monitor_after l1) (rp_caller p) = true ∧ rp_short p = true ∧
      silent (l1 ++ [(env2, c')]) l2 kind target).
  { intros Hx' Hno. destruct (IH x Hx') as (l1 & env2 & c' & p & l2 & -> & Ha & Ht & Hk & Hsig & Hau & Hrp & Hsh & Hsil).
    exists l1, env2, c', p, (l2 ++ [(env1, c)]). split_and!; try done; [by rewrite <- app_assoc|].
    apply silent_snoc; [done|]. by rewrite <- app_assoc. }
  destruct (board_step env1 c (board_after l)) as [b'|] eqn:Hb; cbn in Hx.
  - destruct (report_of env1 c) as [p|] eqn:Hp.
    + destruct (board_report _ _ _ _ _ Hb Hp) as (Hau & Hen & Hsh & ->). cbn in Hx.
      destruct (decide _) as [[-> ->]|Hno].
      * injection Hx as Hx. exists l, env1, c, p, []. split_and!; try done; [split; [done|by apply Hok; eexists]| |].
        -- by rewrite (is_reporter_shows _ _ _ Hs).
        -- intros m1 ? ? m2 ? Heq. by destruct m1.
      * apply Hearlier; [done|]. intros q [Hq _]. rewrite Hp in Hq. injection Hq as <-.
        destruct (decide (rp_kind p = kind)); [right|by left]. naive_solver.
    + apply Hearlier; [|intros q [Hq _]; congruence].
      rewrite <- Hx. symmetry. eapply board_keeps; [exact Hb|]. intros q Hq. congruence.
  - apply Hearlier; [done|]. intros q [_ Hq]. apply Hok in Hq as [? [=]].
Qed.

(** There are never more than fifty reporters, no one twice, and once an
    admin is set no invocation changes it. *)
Theorem reporters_are_limited l env c :
  let s := monitor_after l in
  NoDup (reporters s) ∧ Z.of_nat (length (reporters s)) ≤ MAX_REPORTERS ∧
  (mnAdmin s ≠ None → mnAdmin (monitor_dispatch c env s).2 = mnAdmin s).
Proof.
  cbv zeta. split_and!; [apply (sh_distinct _ _ (after_shows l))|..].
  - rewrite (shows_size _ _ (after_shows l)). unfold MAX_REPORTERS.
    induction l as [|[env1 c1] l IH] using rev_ind; [cbn; by rewrite size_empty|].
    unfold board_after in *. rewrite fold_left_app. cbn. set (b := fold_left _ l empty_board) in *.
    destruct (board_step env1 c1 b) as [b'|] eqn:Hb; cbn; [|done].
    destruct (report_of env1 c1) eqn:Hp.
    { by destruct (board_report _ _ _ _ _ Hb Hp) as (_ & _ & _ & ->). }
    destruct c1; try discriminate Hp; cbn in Hb; destruct (_ && _) eqn:E in Hb; simplify_eq; cbn.
    + by rewrite size_empty.
    + apply andb_true_iff in E as [_ [Hin|Hlt]%orb_true_iff]; zbool.
      * replace (bd_reporters b ∪ {[reporter]}) with (bd_reporters b); [done|].
        apply leibniz_equiv. set_solver.
      * pose proof (size_union_alt (bd_reporters b) {[reporter]}) as Hu.
        pose proof (subseteq_size ({[reporter]} ∖ bd_reporters b) {[reporter]} ltac:(set_solver)) as Hle.
        rewrite size_singleton in Hle. lia.
    + pose proof (subseteq_size (bd_reporters b ∖ {[reporter]}) (bd_reporters b) ltac:(set_solver)). lia.
  - intros Had. pose proof (after_shows l) as Hs. destruct (dispatch_shows env c _ _ Hs) as [Hs' _].
    rewrite (sh_admin _ _ Hs'), (sh_admin _ _ Hs) in *. destruct (board_step env c _) as [b'|] eqn:Hb; cbn; [|done].
    destruct (report_of env c) eqn:Hp; [by destruct (board_report _ _ _ _ _ Hb Hp) as (_ & _ & _ & ->)|].
    destruct c; try discriminate Hp; cbn in Hb; destruct (_ && _) eqn:E in Hb; simplify_eq; cbn; try done.
    apply andb_true_iff in E as [_ E]. by apply bool_decide_eq_true in E.
Qed.

(** ** A concrete history *)

Definition ops : Address := 1%positive.
Definition probe : Address := 2%positive.
Definition by_whom (a : Address) (now : Z) : Env :=
  mkEnv now 0 (λ b, bool_decide (b = a)) (λ _ _, None) (λ _ _ _ _, None).

Definition watch : list (Env * MonitorCall) :=
  [(by_whom ops 100, Init ops); (by_whom ops 110, GrantReporter ops probe);
   (by_whom probe 120, ReportHealth probe "lending" Up "fine"); (by_whom probe 130, ReportHealth probe "lending" Down "no reply");
   (by_whom ops 140, RevokeReporter ops probe); (by_whom probe 150, ReportHealth probe "lending" Up "back")].

Lemma reads_are_latest_reports_witness :
  ∃ l1 env1 c p l2, watch = l1 ++ (env1, c) :: l2 ∧ accepted (monitor_after l1) env1 c p ∧
    rp_signal p = Health (mkHealthSignal Down "no reply" 130 probe) ∧
    silent (l1 ++ [(env1, c)]) l2 HealthKind "lending".
Proof.
  destruct (reads_are_latest_reports watch "lending" HealthKind (by_whom ops 200) (Health (mkHealthSignal Down "no reply" 130 probe)))
    as (l1 & env1 & c & p & l2 & H1 & H2 & _ & _ & H3 & _ & _ & _ & H4); [vm_compute; reflexivity|].
  exists l1, env1, c, p, l2. exact (conj H1 (conj H2 (conj H3 H4))).
Defined.
