(* ===== verification/OracleMath.v ===== *)
(** * OracleMath: what the oracle of the hello-world contract computes (oracle.rs)

    The insertion sort of the median is a sort, so the median is the middle of
    the sorted prices; the time-weighted average lies between the prices it
    averages.  Both hold in every state, also where no contract call leads. *)

From stdpp Require Import sorting.
From S2P Require Import Prelude.
From S2P Require Import Host.
From S2P Require Import HelloTypes.
From S2P Require Import HelloParams.
From S2P Require Import PositionTypes.
From S2P Require Import Oracle.

(** ** The insertion sort *)

(** The inner loop, from a hole between the sorted part and the rest: it moves
    the entries above [key] up and fills the hole. *)
Lemma shift_down_spec pre hole post key :
  ∃ low high, pre = low ++ high ∧ shift_down (pre ++ hole :: post) key (length pre) = low ++ key :: high ++ post ∧
    Forall (λ x, key < x) high ∧ (low = [] ∨ ∃ l x, low = l ++ [x] ∧ x ≤ key).
Proof.
  revert hole post. induction pre as [|prev pre IH] using rev_ind; intros hole post.
  - exists [], []. split_and!; [done|done|constructor|by left].
  - rewrite length_app, Nat.add_1_r. cbn [shift_down].
    assert (Hprev : ((pre ++ [prev]) ++ hole :: post) !!! length pre = prev).
    { rewrite <- app_assoc. apply list_lookup_total_middle. done. }
    rewrite Hprev. destruct (prev <=? key) eqn:Hle; zbool.
    + exists (pre ++ [prev]), []. split_and!; [by rewrite app_nil_r| |constructor|right; by exists pre, prev].
      replace (S (length pre)) with (length (pre ++ [prev])) by (rewrite length_app; cbn; lia).
      by rewrite insert_app_r_alt, Nat.sub_diag by lia.
    + destruct (IH prev (prev :: post)) as (low & high & -> & Hs & Hh & Hl).
      exists low, (high ++ [prev]). split_and!; [by rewrite app_assoc| |apply Forall_app; split; [done|by apply Forall_singleton]|done].
      replace (<[S (length (low ++ high)) := prev]> (((low ++ high) ++ [prev]) ++ hole :: post))
        with ((low ++ high) ++ prev :: prev :: post).
      * rewrite Hs. by rewrite <- app_assoc.
      * replace (S (length (low ++ high))) with (length ((low ++ high) ++ [prev])) by (rewrite length_app; cbn; lia).
        rewrite insert_app_r_alt, Nat.sub_diag by lia. cbn. by rewrite <- !app_assoc.
Qed.

Lemma insert_sorted low key high :
  StronglySorted Z.le (low ++ high) → Forall (λ x, key < x) high → (low = [] ∨ ∃ l x, low = l ++ [x] ∧ x ≤ key) →
  StronglySorted Z.le (low ++ key :: high).
Proof.
  intros Hs Hh Hl. apply StronglySorted_app in Hs as (Hall & Hlow & Hhigh). apply StronglySorted_app. split_and!.
  - intros x y Hx Hy. apply elem_of_cons in Hy as [->|Hy]; [|by apply Hall].
    destruct Hl as [->|(l & z & -> & Hz)]; [by apply elem_of_nil in Hx|].
    apply elem_of_app in Hx as [Hx| ->%list_elem_of_singleton]; [|done].
    apply StronglySorted_app in Hlow as (Hl & _ & _). transitivity z; [|done]. apply Hl; [done|by apply list_elem_of_singleton].
  - done.
  - constructor; [done|]. eapply Forall_impl; [exact Hh|]. cbn. lia.
Qed.

Lemma sort_from_spec left pre post :
  length post = left → StronglySorted Z.le pre →
  sort_from (pre ++ post) (length pre) left ≡ₚ pre ++ post ∧ StronglySorted Z.le (sort_from (pre ++ post) (length pre) left).
Proof.
  revert pre post. induction left as [|left IH]; intros pre post Hlen Hs; cbn [sort_from].
  - apply nil_length_inv in Hlen as ->. by rewrite app_nil_r.
  - destruct post as [|key post]; [done|]. injection Hlen as Hlen.
    rewrite (list_lookup_total_middle pre post key (length pre)) by done.
    destruct (shift_down_spec pre key post key) as (low & high & -> & -> & Hh & Hl).
    replace (S (length (low ++ high))) with (length (low ++ key :: high)) by (rewrite !length_app; cbn; lia).
    replace (low ++ key :: high ++ post) with ((low ++ key :: high) ++ post) by (by rewrite <- app_assoc).
    destruct (IH (low ++ key :: high) post Hlen) as [Hp Hss]; [by apply insert_sorted|].
    split; [|done]. rewrite Hp. rewrite <- !app_assoc. cbn. apply Permutation_app_head, Permutation_middle.
Qed.

Lemma sorted_prices values : sort_from values 1 (length values - 1) = merge_sort Z.le values.
Proof.
  assert (H : sort_from values 1 (length values - 1) ≡ₚ values ∧ StronglySorted Z.le (sort_from values 1 (length values - 1))).
  { destruct values as [|x values]; [split; [done|constructor]|].
    apply (sort_from_spec _ [x] values); [cbn; lia|]. repeat constructor. }
  destruct H as [Hp Hs]. apply (StronglySorted_unique Z.le); [done|apply StronglySorted_merge_sort; apply _|].
  by rewrite Hp, merge_sort_Permutation.
Qed.

(** The median of the oracle, computed by an insertion sort in place, is
    the middle entry of the prices sorted by a reference sort; without prices it
    fails, and it fails in no other case. *)
Theorem median_is_the_middle values env s :
  median_i128 values env s =
  (match values with
   | [] => Err OE_NotEnoughSources
   | _ => Ok (merge_sort Z.le values !!! (length values / 2)%nat)
   end, s).
Proof.
  unfold median_i128, len. destruct values as [|x values]; [done|].
  assert (Hn : (Z.of_nat (length (x :: values)) =? 0) = false) by (apply Z.eqb_neq; cbn; lia). rewrite Hn.
  rewrite sorted_prices. unfold mret, M_ret. do 3 f_equal.
  rewrite <- (Nat2Z.id (length (x :: values) / 2)). f_equal. by rewrite Nat2Z.inj_div.
Qed.

(** ** The time-weighted average *)

Section twap.
Context (lo hi : Z) (Hlo : 0 ≤ lo).
Implicit Types (rest : list PriceObservation).

(** The sum so far is between the bounds, for the time so far. *)
Definition weighted (sum total : Z) : Prop := lo * total ≤ sum ≤ hi * total.

Lemma add_segment_weighted sum total price dt env s v s' :
  weighted sum total → lo ≤ price ≤ hi → 0 ≤ dt →
  add_segment sum price dt env s = (Ok v, s') → weighted v (total + dt) ∧ s' = s.
Proof.
  unfold add_segment, weighted. intros Hw Hp Hd Hr. run_inv Hr. checked_facts. subst. split; [nia|done].
Qed.

(** Observations in the order of their times, up to [now]. *)
Fixpoint in_order (t : Z) (rest : list PriceObservation) : Prop :=
  match rest with
  | [] => True
  | o :: rest => t ≤ ob_timestamp o ∧ lo ≤ ob_price o ≤ hi ∧ in_order (ob_timestamp o) rest
  end.

Lemma add_segments_weighted ws now rest prev prev_t sum total start env s r s' :
  0 ≤ start → start ≤ prev_t ≤ U64_MAX → now ≤ U64_MAX → total = prev_t - start →
  in_order (ob_timestamp prev) rest → lo ≤ ob_price prev ≤ hi → weighted sum total →
  (prev_t = ob_timestamp prev ∨ prev_t = ws ∧ ob_timestamp prev ≤ ws) →
  add_segments ws now rest prev prev_t sum total env s = (Ok r, s') →
  let '(prev', prev_t', sum', total') := r in
  total' = prev_t' - start ∧ start ≤ prev_t' ≤ U64_MAX ∧ weighted sum' total' ∧ lo ≤ ob_price prev' ≤ hi.
Proof.
  intros Hst. revert prev prev_t sum total s. induction rest as [|cur rest IH]; intros prev prev_t sum total s Hpt Hnow Ht Ho Hp Hw Hor Hr.
  { cbn in Hr. injection Hr as <- <-. done. }
  cbn [add_segments] in Hr. cbv zeta in Hr. destruct Ho as (Hle & Hcp & Ho).
  destruct (ob_timestamp cur <=? ws) eqn:E1; zbool.
  { apply (IH prev prev_t sum total s); try done. clear -Hle Ho. destruct rest as [|o rest]; [done|]. cbn in *. intuition lia. }
  destruct (now <? ob_timestamp cur) eqn:E2; zbool; [injection Hr as <- <-; done|].
  destruct (prev_t <? ob_timestamp cur) eqn:E3; zbool.
  - apply bind_Ok in Hr as (v & s1 & Hv & Hr). apply add_segment_weighted with (total := total) in Hv as [Hv ->]; [|done..|lia].
    assert (Hsat : u64_saturating_add total (ob_timestamp cur - prev_t) = ob_timestamp cur - start)
      by (unfold u64_saturating_add; lia).
    rewrite Hsat in Hr. apply (IH cur (ob_timestamp cur) v (ob_timestamp cur - start) s); try done; [lia| |by left].
    by replace (ob_timestamp cur - start) with (total + (ob_timestamp cur - prev_t)) by lia.
  - assert (prev_t = ob_timestamp cur) as Heq by lia.
    apply (IH cur (ob_timestamp cur) sum total s); try done; [lia|lia|by left].
Qed.

Lemma in_order_at t history k o :
  0 ≤ t → in_order t history → history !! k = Some o →
  0 ≤ ob_timestamp o ∧ lo ≤ ob_price o ≤ hi ∧ in_order (ob_timestamp o) (drop (S k) history).
Proof.
  revert t k. induction history as [|x history IH]; intros t k Ht Ho Hk; [done|]. destruct Ho as (Hle & Hp & Ho).
  destruct k as [|k]; cbn in Hk.
  - injection Hk as ->. split_and!; [lia|lia|lia|]. by rewrite drop_0 || exact Ho.
  - by apply (IH (ob_timestamp x) k); [lia|..].
Qed.

Lemma weighted_quotient sum total : weighted sum total → 0 < total → lo ≤ Z.quot sum total ≤ hi.
Proof.
  unfold weighted. intros [H1 H2] Ht. rewrite Z.quot_div_nonneg by nia.
  split; [apply Z.div_le_lower_bound; nia|]. apply Z.lt_succ_r, Z.div_lt_upper_bound; nia.
Qed.

(** When the time-weighted average succeeds it lies between any bounds, the
    lower one not negative, that hold for the spot price and for the recorded
    prices, whose times must be in order, as they are recorded: the average
    never leaves the range of the prices it averages. *)
Theorem twap_is_within_the_prices asset spot env s v s' :
  in_order 0 (load_history s asset) → (∀ o, o ∈ load_history s asset → ob_timestamp o ≤ U64_MAX) →
  0 ≤ timestamp env ≤ U64_MAX → 0 ≤ oc_twap_window_seconds (get_oracle_config s) → lo ≤ spot ≤ hi →
  compute_twap asset spot env s = (Ok v, s') → lo ≤ v ≤ hi.
Proof.
  intros Hin Hmax Hnow Hwin Hspot. unfold compute_twap. run_fwd.
  destruct (oc_twap_window_seconds _ =? 0); [by intros [= <- _]|]. run_fwd.
  set (history := load_history s asset) in *. set (ws := u64_saturating_sub _ _).
  assert (Hws : 0 ≤ ws ≤ timestamp env) by (unfold ws, u64_saturating_sub; lia).
  destruct (len history =? 0); [by intros [= <- _]|]. cbv zeta. rewrite bind_eq. unfold unwrap.
  destruct (history !! start_index ws 0 history) as [prev|] eqn:Hprev; [|done]. cbn [mret M_ret].
  destruct (in_order_at 0 history _ prev ltac:(lia) Hin Hprev) as (Hts & Hp & Ho).
  pose proof (Hmax prev (list_elem_of_lookup_2 _ _ _ Hprev)) as Hu.
  set (prev_t := if ob_timestamp prev <? ws then ws else ob_timestamp prev).
  assert (Hpt : 0 ≤ prev_t ≤ U64_MAX ∧ (prev_t = ob_timestamp prev ∨ prev_t = ws ∧ ob_timestamp prev ≤ ws)).
  { unfold prev_t. destruct (_ <? ws) eqn:E; zbool; [split; [lia|by right; split; [|lia]]|split; [lia|by left]]. }
  intros Hr. apply bind_Ok in Hr as ([[[prev' prev_t'] sum] total] & s1 & Hseg & Hr).
  apply (add_segments_weighted ws (timestamp env) _ prev prev_t 0 0 prev_t) in Hseg as (Ht & Hpt' & Hw & Hp');
    [|unfold weighted; try lia; try done..].
  apply bind_Ok in Hr as ([sum2 total2] & s2 & Hlast & Hr).
  assert (Hw2 : weighted sum2 total2 ∧ 0 ≤ total2).
  { destruct (prev_t' <? timestamp env) eqn:E; zbool.
    - apply bind_Ok in Hlast as (v2 & s3 & Hadd & Hlast). injection Hlast as <- <- _.
      apply add_segment_weighted with (total := total) in Hadd as [Hadd _]; [|done|destruct (_ =? 0); lia|lia].
      assert (Hsat : u64_saturating_add total (timestamp env - prev_t') = total + (timestamp env - prev_t'))
        by (unfold u64_saturating_add; lia).
      rewrite Hsat. split; [done|lia].
    - injection Hlast as <- <- _. split; [done|lia]. }
  destruct (total2 =? 0) eqn:Hz; [by injection Hr as <- _|]. zbool.
  apply ok_or_Ok in Hr as [Hr _]. checked_facts. subst v. apply weighted_quotient; [by destruct Hw2|lia].
Qed.
End twap.

(** ** A concrete average *)

Definition gold_asset : Address := 20%positive.
Definition observed : PState :=
  empty_protocol <| ps_oracle := (ps_oracle empty_protocol)
    <| okPriceHistory := {[ gold_asset := [mkPriceObservation 100 1000; mkPriceObservation 200 1600] ]} |> |>.

Lemma twap_is_within_the_prices_witness :
  (compute_twap gold_asset 150 (mkEnv 2000 0 (λ _, false) (λ _ _, None) (λ _ _ _ _, None)) observed).1 = Ok 144 ∧ 100 ≤ 144 ≤ 200.
Proof.
  split; [vm_compute; reflexivity|].
  refine (twap_is_within_the_prices 100 200 _ gold_asset 150 (mkEnv 2000 0 (λ _, false) (λ _ _, None) (λ _ _ _ _, None)) observed
    144 observed _ _ _ _ _ _); [lia|..].
  - vm_compute. repeat split; discriminate.
  - intros o Ho. assert (Hl : load_history observed gold_asset = [mkPriceObservation 100 1000; mkPriceObservation 200 1600])
      by (vm_compute; reflexivity). rewrite Hl in Ho.
    apply elem_of_cons in Ho as [->|Ho]; [vm_compute; discriminate|].
    apply list_elem_of_singleton in Ho as ->. vm_compute. discriminate.
  - vm_compute. split; discriminate.
  - vm_compute. discriminate.
  - lia.
  - vm_compute. reflexivity.
Defined.
