(* ===== verification/Cache.v ===== *)
(** * Cache: the cache of the contracts (common/src/cache.rs)

    A bounded map of values that expire, with a list of its keys in the order of
    their last use.  It keeps at most 64 entries; what can be read back; and a
    run in which a value that was just stored is already gone. *)

From S2P Require Import Prelude.
From S2P Require Import Host.

Abbreviation Key := string (only parsing).

Definition CACHE_TTL_SECS : Z := 30.
Definition CACHE_MAX_ENTRIES : Z := 64.

Inductive CacheError : Type := CA_InvalidTtl.

Record CacheEntry : Type := mkCacheEntry {
  ce_value : Z;
  ce_expires_at : Z;
}.

Record CacheStats : Type := mkCacheStats {
  ct_hits : Z;
  ct_misses : Z;
  ct_size : Z;
}.

(** The four keys of storage. *)
Record CacheStore : Type := mkCacheStore {
  cachevals : option (gmap Key CacheEntry);
  cacheordr : option (list Key);
  cachehits : option Z;
  cachemiss : option Z;
}.
#[export] Instance CacheStore_upd : Updatable CacheStore := λ s,
  mkCacheStore (cachevals s) (cacheordr s) (cachehits s) (cachemiss s).

Definition empty_cache : CacheStore := mkCacheStore None None None None.

Abbreviation CM := (M CacheStore CacheError) (only parsing).

Definition cached_values (s : CacheStore) : gmap Key CacheEntry := default ∅ (cachevals s).
Definition cache_order (s : CacheStore) : list Key := default [] (cacheordr s).

Definition set_values (v : gmap Key CacheEntry) : CM unit := modify (λ s, s <| cachevals := Some v |>).
Definition set_order (l : list Key) : CM unit := modify (λ s, s <| cacheordr := Some l |>).

(** The loop that finds a key and removes its first entry. *)
Fixpoint forget (key : Key) (order : list Key) : list Key :=
  match order with
  | [] => []
  | k :: rest => if bool_decide (k = key) then rest else k :: forget key rest
  end.

Definition touch_key (key : Key) : CM unit :=
  order ← gets cache_order;
  set_order (forget key order ++ [key]).

(** [while values.len() > CACHE_MAX_ENTRIES]; it ends at the latest when the
    order is used up *)
Fixpoint evict_loop (order : list Key) (values : gmap Key CacheEntry) : list Key * gmap Key CacheEntry :=
  match order with
  | [] => ([], values)
  | lru_key :: rest =>
      if CACHE_MAX_ENTRIES <? Z.of_nat (size values) then evict_loop rest (delete lru_key values)
      else (order, values)
  end.

Definition evict_lru_if_needed (values : gmap Key CacheEntry) : CM (gmap Key CacheEntry) :=
  order ← gets cache_order;
  let '(order, values) := evict_loop order values in
  set_order order ;;
  mret values.

Definition invalidate (key : Key) : CM unit :=
  values ← gets cached_values;
  set_values (delete key values) ;;
  order ← gets cache_order;
  set_order (forget key order).

Definition set_cached (key : Key) (value : Z) (ttl_secs : option Z) : CM unit :=
  let ttl := default CACHE_TTL_SECS ttl_secs in
  reject_if (ttl =? 0) CA_InvalidTtl ;;
  values ← gets cached_values;
  now ← ask timestamp;
  expires_at ← unwrap (u64_checked_add now ttl);
  values ← evict_lru_if_needed (<[key := mkCacheEntry value expires_at]> values);
  set_values values ;;
  touch_key key.

Definition count_miss : CM (option Z) :=
  misses ← gets (λ s, default 0 (cachemiss s));
  more ← unwrap (u64_checked_add misses 1);
  modify (λ s, s <| cachemiss := Some more |>) ;;
  mret None.

Definition get_cached (key : Key) : CM (option Z) :=
  values ← gets cached_values;
  match values !! key with
  | Some entry =>
      now ← ask timestamp;
      if now <=? ce_expires_at entry then
        hits ← gets (λ s, default 0 (cachehits s));
        more ← unwrap (u64_checked_add hits 1);
        modify (λ s, s <| cachehits := Some more |>) ;;
        touch_key key ;;
        mret (Some (ce_value entry))
      else
        set_values (delete key values) ;;
        count_miss
  | None => count_miss
  end.

Definition cache_stats (s : CacheStore) : CacheStats :=
  mkCacheStats (default 0 (cachehits s)) (default 0 (cachemiss s)) (Z.of_nat (size (cached_values s))).

(** ** What the operations keep *)

(** Keys without a value are dropped first. *)
Lemma evict_loop_unused before rest (values : gmap Key CacheEntry) :
  CACHE_MAX_ENTRIES < Z.of_nat (size values) → (∀ k, k ∈ before → values !! k = None) →
  evict_loop (before ++ rest) values = evict_loop rest values.
Proof.
  intros Hs. induction before as [|x before IH]; [done|]. intros Hb. cbn. rewrite (proj2 (Z.ltb_lt _ _) Hs).
  rewrite delete_id by (apply Hb, elem_of_cons; by left). apply IH. intros k Hk. apply Hb, elem_of_cons. by right.
Qed.

Lemma evict_loop_enough rest (values : gmap Key CacheEntry) :
  Z.of_nat (size values) ≤ CACHE_MAX_ENTRIES → evict_loop rest values = (rest, values).
Proof. intros Hs. destruct rest; [done|]. cbn. by rewrite (proj2 (Z.ltb_ge _ _) Hs). Qed.

Record cache_ok (s : CacheStore) : Prop := {
  ca_order : NoDup (cache_order s);
  ca_listed k : is_Some (cached_values s !! k) → k ∈ cache_order s;
  ca_bound : Z.of_nat (size (cached_values s)) ≤ CACHE_MAX_ENTRIES;
}.

Lemma forget_elem key l k : NoDup l → k ∈ forget key l ↔ k ∈ l ∧ k ≠ key.
Proof.
  induction l as [|x l IH]; cbn; intros Hl; [split; [by intros ?%elem_of_nil|by intros [?%elem_of_nil _]]|].
  apply NoDup_cons in Hl as [Hx Hl]. case_bool_decide as Hk; rewrite ?elem_of_cons, ?IH by done; naive_solver.
Qed.

Lemma forget_NoDup key l : NoDup l → NoDup (forget key l).
Proof.
  induction l as [|x l IH]; cbn; intros Hl; [done|]. pose proof Hl as Hl'. apply NoDup_cons in Hl as [Hx Hl].
  case_bool_decide; [done|]. apply NoDup_cons. split; [|by apply IH]. rewrite forget_elem by done. naive_solver.
Qed.

Lemma keeps_nothing (values : gmap Key CacheEntry) k :
  values !! k = if decide (k ∈ []) then None else values !! k.
Proof. rewrite decide_False; [done|]. by intros ?%elem_of_nil. Qed.

(** The eviction drops a first part of the order, with the values under it. *)
Lemma evict_loop_spec order values order' values' :
  evict_loop order values = (order', values') →
  ∃ gone, order = gone ++ order' ∧ (∀ k, values' !! k = if decide (k ∈ gone) then None else values !! k) ∧
    (Z.of_nat (size values') ≤ CACHE_MAX_ENTRIES ∨ order' = []) ∧
    (Z.of_nat (size values) ≤ CACHE_MAX_ENTRIES → gone = []).
Proof.
  revert values. induction order as [|x order IH]; intros values; cbn [evict_loop].
  - intros [= <- <-]. exists []. split_and!; [done|by apply keeps_nothing|by right|done].
  - destruct (_ <? _) eqn:Hs; zbool.
    + intros Hr. destruct (IH _ Hr) as (gone & -> & Hv & Hb & _). exists (x :: gone). split_and!; [done| |done|lia].
      intros k. rewrite Hv. destruct (decide (k ∈ gone)) as [Hk|Hk].
      * by rewrite decide_True by (by apply elem_of_cons; right).
      * destruct (decide (k = x)) as [->|Hkx]; [by rewrite lookup_delete_eq, decide_True by (by apply elem_of_cons; left)|].
        rewrite lookup_delete_ne by done. rewrite decide_False; [done|]. by intros [?|?]%elem_of_cons.
    + intros [= <- <-]. exists []. split_and!; [done|by apply keeps_nothing|by left|done].
Qed.

Lemma evict_Ok values env s v s' :
  evict_lru_if_needed values env s = (Ok v, s') →
  ∃ order', evict_loop (cache_order s) values = (order', v) ∧ s' = s <| cacheordr := Some order' |>.
Proof.
  unfold evict_lru_if_needed, set_order. rewrite bind_eq. cbn. destruct (evict_loop _ _) as [o v'].
  cbn. intros [= <- <-]. by exists o.
Qed.

Ltac run_prim H ::=
  lazymatch type of H with
  | evict_lru_if_needed _ _ _ = _ => apply evict_Ok in H as (? & ? & ?)
  | _ => idtac
  end.

(** A store of a value: the eviction, then the key becomes the last used. *)
Lemma set_cached_Ok key v ttl env s u s' :
  set_cached key v ttl env s = (Ok u, s') →
  let t := default CACHE_TTL_SECS ttl in
  let e := mkCacheEntry v (timestamp env + t) in
  t ≠ 0 ∧ ∃ gone rest, cache_order s = gone ++ rest ∧
    (∀ k, cached_values s' !! k = if decide (k ∈ gone) then None else <[key := e]> (cached_values s) !! k) ∧
    (Z.of_nat (size (cached_values s')) ≤ CACHE_MAX_ENTRIES ∨ rest = []) ∧
    (Z.of_nat (size (<[key := e]> (cached_values s))) ≤ CACHE_MAX_ENTRIES → gone = []) ∧
    cache_order s' = forget key rest ++ [key].
Proof.
  unfold set_cached, set_values, touch_key, set_order. intros Hr. cbv zeta in Hr.
  run_inv Hr. zbool. match goal with H : u64_checked_add _ _ = Some _ |- _ => apply fit_Some in H as [_ ->] end.
  split; [done|]. match goal with H : evict_loop _ _ = _ |- _ => apply evict_loop_spec in H as (gone & Ho & Hv & Hb & Hn) end.
  exists gone. eexists. by split_and!.
Qed.

Inductive CacheCall : Type :=
  | Invalidate (key : Key)
  | SetCached (key : Key) (value : Z) (ttl_secs : option Z)
  | GetCached (key : Key).

Definition cache_perform (c : CacheCall) : CM unit :=
  match c with
  | Invalidate k => invalidate k
  | SetCached k v t => set_cached k v t
  | GetCached k => get_cached k ;; mret tt
  end.

Definition cache_step (c : CacheCall) (env : Env) (s : CacheStore) : CacheStore := (invoke (cache_perform c) env s).2.

Definition cache_run (l : list (Env * CacheCall)) (s : CacheStore) : CacheStore :=
  fold_left (λ s '(env, c), cache_step c env s) l s.
Definition cache_after (l : list (Env * CacheCall)) : CacheStore := cache_run l empty_cache.

(** A touched key moves to the end. *)
Lemma touched_ok order key (P : Key → Prop) :
  NoDup order → (∀ k, P k → k ∈ order ∨ k = key) →
  NoDup (forget key order ++ [key]) ∧ ∀ k, P k → k ∈ forget key order ++ [key].
Proof.
  intros Hn HP. split.
  - apply NoDup_app. split_and!; [by apply forget_NoDup| |apply NoDup_singleton].
    intros k Hk ->%list_elem_of_singleton. by apply forget_elem in Hk as [_ ?].
  - intros k Hk. rewrite elem_of_app, forget_elem, list_elem_of_singleton by done.
    destruct (decide (k = key)) as [->|]; [by right|]. destruct (HP k Hk); [by left|done].
Qed.

Lemma delete_ok s k order : cache_ok s → NoDup order →
  (∀ j, j ∈ cache_order s → j ≠ k → j ∈ order) →
  ∀ s', cached_values s' = delete k (cached_values s) → cache_order s' = order → cache_ok s'.
Proof.
  intros [H1 H2 H3] Hn Ho s' Hv Hord. split; rewrite ?Hv, ?Hord; [done| |].
  - intros j. destruct (decide (j = k)) as [->|Hj]; [by rewrite lookup_delete_eq; intros [? ?]|].
    rewrite lookup_delete_ne by done. intros Hs. by apply Ho; [apply H2|].
  - etransitivity; [apply inj_le, map_subseteq_size, delete_subseteq|done].
Qed.

Lemma set_cached_ok key v ttl env s u s' : cache_ok s → set_cached key v ttl env s = (Ok u, s') → cache_ok s'.
Proof.
  intros [H1 H2 H3] Hr. destruct (set_cached_Ok _ _ _ _ _ _ _ Hr) as (_ & gone & rest & Ho & Hv & Hb & _ & Ho').
  assert (Hrest : NoDup rest) by (rewrite Ho in H1; by apply NoDup_app in H1 as (_ & _ & ?)).
  destruct (touched_ok rest key (λ k, is_Some (cached_values s' !! k)) Hrest) as [Hn Hl].
  { intros k. rewrite Hv. case_decide as Hg; [by intros [? ?]|]. destruct (decide (k = key)) as [->|Hk]; [by right|].
    rewrite lookup_insert_ne by done. intros Hs. left. apply H2 in Hs. rewrite Ho in Hs. by apply elem_of_app in Hs as [?|?]. }
  split; rewrite ?Ho'; [done..|]. destruct Hb as [Hb| ->]; [done|].
  assert (Hsub : cached_values s' ⊆ {[ key := mkCacheEntry v (timestamp env + default CACHE_TTL_SECS ttl) ]}).
  { apply map_subseteq_spec. intros k x Hx. pose proof (Hl k (mk_is_Some _ _ Hx)) as Hk. cbn in Hk.
    apply list_elem_of_singleton in Hk as ->. rewrite Hv in Hx. case_decide; [done|].
    rewrite lookup_insert_eq in Hx. by rewrite lookup_singleton_eq. }
  apply map_subseteq_size in Hsub. rewrite map_size_singleton in Hsub. unfold CACHE_MAX_ENTRIES. lia.
Qed.

Lemma cache_step_ok c env s : cache_ok s → cache_ok (cache_step c env s).
Proof.
  intros Hs. unfold cache_step. destruct (invoked_or_kept (cache_perform c) env s) as [->|([] & s' & Hr & ->)]; [done|].
  destruct c as [k|k v t|k]; cbn in Hr.
  - unfold invalidate, set_values, set_order in Hr. run_inv Hr.
    apply (delete_ok s k (forget k (cache_order s))); [done|apply forget_NoDup, ca_order, Hs| |done..].
    intros j Hj Hk. apply forget_elem; [apply ca_order, Hs|done].
  - by eapply set_cached_ok.
  - unfold get_cached, count_miss, set_values, touch_key, set_order in Hr. run_inv Hr; try done.
    + destruct Hs as [H1 H2 H3]. destruct (touched_ok (cache_order s) k (λ j, is_Some (cached_values s !! j)) H1) as [Hn Hl];
        [by auto|]. by split.
    + by apply (delete_ok s k (cache_order s)); [|apply ca_order, Hs|..].
    + by destruct Hs.
Qed.

Lemma cache_after_ok l : cache_ok (cache_after l).
Proof.
  induction l as [|[env c] l IH] using rev_ind.
  - split; [constructor|by intros k [x Hx]|done].
  - unfold cache_after, cache_run in *. rewrite fold_left_app. cbn. by apply cache_step_ok.
Qed.

(** After any sequence of calls the cache has at most 64 entries, every key
    with a value is in the order of use, and no key is there twice; each call of
    the eviction ends, since it uses up the order. *)
Theorem cache_is_bounded l :
  let s := cache_after l in
  ct_size (cache_stats s) ≤ CACHE_MAX_ENTRIES ∧ NoDup (cache_order s) ∧
  ∀ k, is_Some (cached_values s !! k) → k ∈ cache_order s.
Proof. cbv zeta. destruct (cache_after_ok l). by split_and!. Qed.

(** Reading a value that is there, and has not expired. *)
Lemma get_cached_hit key env s e :
  cached_values s !! key = Some e → timestamp env ≤ ce_expires_at e → 0 ≤ default 0 (cachehits s) < U64_MAX →
  ∃ s', get_cached key env s = (Ok (Some (ce_value e)), s') ∧ cached_values s' = cached_values s ∧
        cache_order s' = forget key (cache_order s) ++ [key].
Proof.
  intros Hv Ht Hh. unfold get_cached. run_fwd. rewrite Hv. run_fwd. rewrite (proj2 (Z.leb_le _ _) Ht). run_fwd.
  unfold u64_checked_add. rewrite fits_u64 by lia. eexists. by split_and!.
Qed.

(** ** A value that is kept *)

(** The key a call names, and the calls that leave the value under [key]. *)
Definition call_key (c : CacheCall) : Key :=
  match c with Invalidate k | SetCached k _ _ | GetCached k => k end.
Definition leaves (key : Key) (c : CacheCall) : Prop :=
  match c with Invalidate k | SetCached k _ _ => k ≠ key | GetCached _ => True end.

Lemma forget_sub k order : forget k order ⊆ order.
Proof.
  induction order as [|x order IH]; cbn; [done|]. case_bool_decide; intros y Hy; [by apply elem_of_cons; right|].
  apply elem_of_cons in Hy as [->|Hy]; apply elem_of_cons; [by left|right; by apply IH].
Qed.

(** Removing another key keeps what is before and after [key] apart. *)
Lemma forget_around k key front back :
  k ≠ key → ∃ front' back', forget k (front ++ key :: back) = front' ++ key :: back' ∧ back' ⊆ back.
Proof.
  intros Hk. induction front as [|x front IH]; cbn.
  - rewrite bool_decide_eq_false_2 by done. exists [], (forget k back). split; [done|apply forget_sub].
  - case_bool_decide; [by exists front, back|]. destruct IH as (f & b & -> & Hb). by exists (x :: f), b.
Qed.

Lemma size_listed (values : gmap Key CacheEntry) l :
  (∀ k, is_Some (values !! k) → k ∈ l) → (size values ≤ length l)%nat.
Proof.
  intros Hl. rewrite <-size_dom. apply submseteq_length, NoDup_submseteq; [apply NoDup_elements|].
  intros k Hk. by apply Hl, elem_of_dom, elem_of_elements.
Qed.

(** The eviction stops before [key], when the other values that are not older
    are fewer than 64. *)
Lemma evict_loop_spares key used front back values order' values' :
  (length used < 64)%nat → key ∉ front →
  (∀ k, is_Some (values !! k) → k ∈ front ∨ k ∈ key :: used) →
  evict_loop (front ++ key :: back) values = (order', values') →
  values' !! key = values !! key ∧ ∃ front', order' = front' ++ key :: back.
Proof.
  intros Hu. revert values. induction front as [|x front IH]; intros values Hf Hv Hr.
  - rewrite app_nil_l, evict_loop_enough in Hr; [injection Hr as <- <-; split; [done|by exists []]|].
    assert (Hs : (size values ≤ length (key :: used))%nat).
    { apply size_listed. intros k Hk. by destruct (Hv k Hk) as [?%elem_of_nil|]. }
    cbn in Hs. unfold CACHE_MAX_ENTRIES. lia.
  - cbn [evict_loop app] in Hr. apply not_elem_of_cons in Hf as [Hx Hf]. destruct (_ <? _).
    + destruct (IH (delete x values) Hf) as [Hk Ho]; [|exact Hr|by rewrite Hk, lookup_delete_ne].
      intros k [y Hk]. apply lookup_delete_Some in Hk as [Hkx Hk].
      destruct (Hv k (mk_is_Some _ _ Hk)) as [[->|?]%elem_of_cons|?]; [done|by left|by right].
    + injection Hr as <- <-. split; [done|by exists (x :: front)].
Qed.

Section held.
Context (key : Key) (e : CacheEntry) (used : list Key).

(** The value is there, and every key used since is one of [used]. *)
Record held (s : CacheStore) : Prop := {
  he_ok : cache_ok s;
  he_value : cached_values s !! key = Some e;
  he_order : ∃ front back, cache_order s = front ++ key :: back ∧ back ⊆ used;
}.

Lemma held_value s : held s → key ∉ used → ∃ front back, cache_order s = front ++ key :: back ∧ back ⊆ used ∧ key ∉ front.
Proof.
  intros [[Hn _ _] _ (front & back & Ho & Hb)] Hu. exists front, back. split_and!; [done..|].
  rewrite Ho in Hn. apply NoDup_app in Hn as (_ & Hn & _). intros Hk. apply (Hn _ Hk). apply elem_of_cons. by left.
Qed.

(** The key stays where it is, or moves to the end, when [k] is used. *)
Lemma touched_order k order front back :
  order = front ++ key :: back → back ⊆ used → k = key ∨ k ∈ used →
  ∃ front' back', forget k order ++ [k] = front' ++ key :: back' ∧ back' ⊆ used.
Proof.
  intros -> Hb Hk. destruct (decide (k = key)) as [->|Hne]; [exists (forget key (front ++ key :: back)), []; split; [done|set_solver]|].
  destruct (forget_around k key front back Hne) as (f & b & -> & Hb'). exists f, (b ++ [k]). rewrite <-app_assoc. set_solver.
Qed.

Lemma set_cached_spares k v ttl env s s' :
  (length used < 64)%nat → key ∉ used → k ≠ key → k ∈ used → held s →
  set_cached k v ttl env s = (Ok tt, s') → held s'.
Proof.
  intros Hlen Hu Hk Hin Hh Hr. pose proof (set_cached_ok _ _ _ _ _ _ _ (he_ok _ Hh) Hr) as Hok.
  destruct (held_value s Hh Hu) as (front & back & Ho & Hb & Hf).
  unfold set_cached, set_values, touch_key, set_order in Hr. cbv zeta in Hr. run_inv Hr.
  match goal with H : evict_loop _ _ = _ |- _ => rewrite Ho in H;
    apply (evict_loop_spares key used) in H as [Hv (front' & ->)]; [|done|done|] end.
  - split; [done|etransitivity; [exact Hv|rewrite lookup_insert_ne by done; apply (he_value _ Hh)]|].
    by eapply touched_order; [|exact Hb|right].
  - intros j [? [[<- _]|[_ Hj]]%lookup_insert_Some]; [right; by apply elem_of_cons; right|].
    pose proof (ca_listed _ (he_ok _ Hh) j (mk_is_Some _ _ Hj)) as Hl. rewrite Ho in Hl. set_solver.
Qed.

Lemma held_step c env s :
  (length used < 64)%nat → key ∉ used → leaves key c → call_key c = key ∨ call_key c ∈ used →
  timestamp env ≤ ce_expires_at e → held s → held (cache_step c env s).
Proof.
  intros Hlen Hu Hc Hkey Ht Hh. pose proof (cache_step_ok c env s (he_ok _ Hh)) as Hok. unfold cache_step in *.
  destruct (invoked_or_kept (cache_perform c) env s) as [->|([] & s' & Hr & Hs)]; [done|]. rewrite Hs in *. cbn in Hok.
  destruct Hh as [Hold Hv (front & back & Ho & Hb)].
  destruct c as [k|k v t|k]; cbn in *.
  - unfold invalidate, set_values, set_order in Hr. run_inv Hr. split; [done|cbn; by rewrite lookup_delete_ne|].
    destruct (forget_around k key front back Hc) as (f & b & Hf & Hb'). exists f, b. rewrite <-Hf, <-Ho. set_solver.
  - destruct Hkey as [?|Hin]; [done|]. apply (set_cached_spares k v t env s s'); [done..| |done]. split; [done..|]. by exists front, back.
  - unfold get_cached, count_miss, set_values, touch_key, set_order in Hr. run_inv Hr; zbool; (split; [done| |]).
    all: try (by cbn; apply Hv).
    all: try (by exists front, back).
    + by eapply touched_order.
    + cbn. rewrite lookup_delete_ne; [done|]. intros ->. simplify_eq. lia.
Qed.

Lemma held_run later s :
  (length used < 64)%nat → key ∉ used →
  Forall (λ '(env, c), leaves key c ∧ (call_key c = key ∨ call_key c ∈ used) ∧ timestamp env ≤ ce_expires_at e) later →
  held s → held (cache_run later s).
Proof.
  intros Hlen Hu Hall. revert s. induction Hall as [|[env c] later (H1 & H2 & H3) _ IH]; intros s Hh; [done|].
  cbn. by apply IH, held_step.
Qed.
End held.

(** C36: what was stored in the cache is read back after any later calls up to
    its expiry time that neither store under its key nor invalidate it, and that
    name fewer than 64 other keys, however many reads, stores and invalidations
    they are: the eviction drops older values first; the store itself must not
    be one that evicts its own value: its key is not in the order of use, or has
    a value, or the cache is not full; and the counter of hits is not at its
    end. *)
Theorem stored_values_are_read_back l key v ttl env s later used env' :
  let e := timestamp env + default CACHE_TTL_SECS ttl in
  set_cached key v ttl env (cache_after l) = (Ok tt, s) →
  key ∉ cache_order (cache_after l) ∨ is_Some (cached_values (cache_after l) !! key) ∨
  Z.of_nat (size (cached_values (cache_after l))) < CACHE_MAX_ENTRIES →
  Z.of_nat (length used) < CACHE_MAX_ENTRIES → key ∉ used →
  Forall (λ '(env, c), leaves key c ∧ (call_key c = key ∨ call_key c ∈ used) ∧ timestamp env ≤ e) later →
  timestamp env' ≤ e → 0 ≤ default 0 (cachehits (cache_run later s)) < U64_MAX →
  ∃ s', get_cached key env' (cache_run later s) = (Ok (Some v), s') ∧
        cached_values s' = cached_values (cache_run later s).
Proof.
  intros e Hr Hcase Hlen Hu Hall Ht Hh. pose proof (cache_after_ok l) as Hok0. pose proof Hok0 as [_ _ Hb]. set (s0 := cache_after l) in *.
  destruct (set_cached_Ok _ _ _ _ _ _ _ Hr) as (_ & gone & rest & Ho & Hv & _ & Hn & Ho').
  assert (Hkey : key ∉ gone).
  { destruct Hcase as [Hk|Hcase]; [rewrite Ho, elem_of_app in Hk; by intros ?; apply Hk; left|].
    rewrite Hn; [by intros ?%elem_of_nil|].
    destruct (cached_values s0 !! key) as [x|] eqn:E.
    - rewrite map_size_insert_Some by (by eexists). done.
    - destruct Hcase as [[? ?]|Hcase]; [done|]. rewrite map_size_insert_None by done. unfold CACHE_MAX_ENTRIES in *. lia. }
  pose proof (Hv key) as Hl. rewrite decide_False, lookup_insert_eq in Hl by done.
  assert (Hheld : held key (mkCacheEntry v e) used (cache_run later s)).
  { apply held_run; [unfold CACHE_MAX_ENTRIES in Hlen; lia|done|exact Hall|]. split; [by eapply set_cached_ok|exact Hl|].
    exists (forget key rest), []. split; [done|set_solver]. }
  destruct (get_cached_hit key env' _ _ (he_value _ _ _ _ Hheld) Ht Hh) as (s' & Hg & Hvs & _). by exists s'.
Qed.

(** Storing a new key in a full cache drops exactly the entry that was
    used least recently, the first of the order that has a value, and keeps all
    the others. *)
Theorem eviction_drops_the_least_recently_used l key v ttl env s old before after :
  let s0 := cache_after l in
  set_cached key v ttl env s0 = (Ok tt, s) → key ∉ cache_order s0 →
  Z.of_nat (size (cached_values s0)) = CACHE_MAX_ENTRIES →
  cache_order s0 = before ++ old :: after → is_Some (cached_values s0 !! old) →
  (∀ k, k ∈ before → cached_values s0 !! k = None) →
  cached_values s =
    <[key := mkCacheEntry v (timestamp env + default CACHE_TTL_SECS ttl)]> (delete old (cached_values s0)).
Proof.
  intros s0 Hr Hnew Hfull Ho Hold Hbefore. unfold set_cached, set_values, touch_key, set_order in Hr. cbv zeta in Hr.
  run_inv Hr. match goal with H : u64_checked_add _ _ = Some _ |- _ => apply fit_Some in H as [_ ->] end.
  match goal with H : evict_loop _ (<[_ := ?y]> _) = (_, ?w) |- _ => set (e := y) in *; set (values := w) in *;
    rename H into He end.
  change (values = <[key := e]> (delete old (cached_values s0))).
  assert (Hkey : old ≠ key) by (intros ->; apply Hnew; rewrite Ho, elem_of_app, elem_of_cons; auto).
  assert (Hsize : Z.of_nat (size (<[key := e]> (cached_values s0))) = 65).
  { rewrite map_size_insert_None; [unfold CACHE_MAX_ENTRIES in Hfull; lia|].
    destruct (_ !! key) eqn:E; [|done]. destruct Hnew. apply (ca_listed _ (cache_after_ok l)). by eexists. }
  rewrite Ho, evict_loop_unused in He; [|unfold CACHE_MAX_ENTRIES; lia|].
  2: { intros k Hk. rewrite lookup_insert_ne; [by apply Hbefore|]. intros <-. apply Hnew. rewrite Ho, elem_of_app. by left. }
  cbn [evict_loop] in He. unfold CACHE_MAX_ENTRIES in He at 1. rewrite Hsize in He. cbn in He.
  rewrite evict_loop_enough in He.
  - injection He as _ <-. by rewrite delete_insert_ne.
  - destruct Hold as [y Hy]. rewrite map_size_delete, lookup_insert_ne, Hy by done. unfold CACHE_MAX_ENTRIES. lia.
Qed.

(** ** Concrete histories *)

Definition at_second (t : Z) : Env := mkEnv t 0 (λ _, false) (λ _ _, None) (λ _ _ _ _, None).

(** 64 names *)
Definition names : list Key := map (λ n, String (Ascii.ascii_of_nat (n + 40)) EmptyString) (seq 0 64).

Definition expired_then_filled : list (Env * CacheCall) :=
  [(at_second 0, SetCached "price" 7 (Some 1)); (at_second 10, GetCached "price")] ++
  map (λ k, (at_second 11, SetCached k 1 None)) names.

(** A value can be gone as soon as it is stored: when a key's value has
    expired and been read, the key stays at the front of the order of use; in a
    cache that has filled up since, storing the key again evicts the very value
    that is being stored, and still succeeds. *)
Theorem stored_value_may_be_lost :
  let '(r, s) := set_cached "price" 8 None (at_second 12) (cache_after expired_then_filled) in
  r = Ok tt ∧ cached_values s !! "price" = None ∧ (get_cached "price" (at_second 12) s).1 = Ok None ∧
  ct_size (cache_stats s) = 64.
Proof. vm_compute. repeat split. Qed.

(** 63 later stores, under other keys. *)
Definition many_later : list (Env * CacheCall) := map (λ k, (at_second 20, SetCached k 2 None)) (tail names).

Lemma stored_values_are_read_back_witness :
  ∃ s', get_cached "fee" (at_second 32)
          (cache_run many_later (cache_step (SetCached "fee" 9 (Some 20)) (at_second 12) (cache_after expired_then_filled)))
        = (Ok (Some 9), s').
Proof.
  destruct (stored_values_are_read_back expired_then_filled "fee" 9 (Some 20) (at_second 12)
    (cache_step (SetCached "fee" 9 (Some 20)) (at_second 12) (cache_after expired_then_filled))
    many_later (tail names) (at_second 32)) as (s' & H & _).
  - vm_compute. reflexivity.
  - left. apply (bool_decide_unpack _). vm_compute. exact I.
  - vm_compute. reflexivity.
  - apply (bool_decide_unpack _). vm_compute. exact I.
  - apply Forall_map, Forall_forall. intros k Hk. cbn. split_and!; [|right; exact Hk|vm_compute; discriminate].
    intros ->. revert Hk. apply (bool_decide_unpack _). vm_compute. exact I.
  - vm_compute. discriminate.
  - vm_compute. split; [discriminate|reflexivity].
  - exists s'. exact H.
Defined.

Lemma eviction_drops_the_least_recently_used_witness :
  let s0 := cache_after expired_then_filled in
  cached_values (cache_step (SetCached "fee" 9 (Some 20)) (at_second 12) s0) =
  <[ "fee" := mkCacheEntry 9 32 ]> (delete "(" (cached_values s0)).
Proof.
  intros s0. refine (eviction_drops_the_least_recently_used expired_then_filled "fee" 9 (Some 20) (at_second 12) _ "("
    ["price"] (tail names) _ _ _ _ _ _).
  - vm_compute. reflexivity.
  - apply (bool_decide_unpack _). vm_compute. exact I.
  - vm_compute. reflexivity.
  - vm_compute. reflexivity.
  - apply (bool_decide_unpack _). vm_compute. exact I.
  - intros k Hk. apply list_elem_of_singleton in Hk as ->. vm_compute. reflexivity.
Defined.
