(* ===== verification/MessageBus.v ===== *)
(** * MessageBus: messages between contracts (common/src/message_bus.rs)

    A queue of message identifiers over a map of messages.  Who may publish is
    checked; the other operations ask nobody.  A message's content never
    changes, its delivery is confirmed once - and neither the limit of retries
    nor the confirmation keeps it from being handed out again. *)

From S2P Require Import Prelude.
From S2P Require Import Host.

Abbreviation Symbol := string (only parsing).

Definition MAX_RETRIES : Z := 3.

Inductive MessageBusError : Type := MB_MessageNotFound | MB_AlreadyDelivered | MB_RetryLimitExceeded.

Inductive MessageState : Type := Queued | InFlight | Delivered | Failed.

Record BusMessage : Type := mkBusMessage {
  bm_id : Z;
  bm_version : Z;
  bm_source : Address;
  bm_target : Address;
  bm_kind : Symbol;
  bm_payload_hash : Symbol;
  bm_created_at : Z;
  bm_attempts : Z;
  bm_state : MessageState;
}.
#[export] Instance BusMessage_upd : Updatable BusMessage := λ m,
  mkBusMessage (bm_id m) (bm_version m) (bm_source m) (bm_target m) (bm_kind m) (bm_payload_hash m)
    (bm_created_at m) (bm_attempts m) (bm_state m).

(** The four keys of storage. *)
Record BusStore : Type := mkBusStore {
  mb_nextid : option Z;
  mb_queue : option (list Z);
  mb_msgs : option (gmap Z BusMessage);
  mb_done : option (gmap Z bool);
}.
#[export] Instance BusStore_upd : Updatable BusStore := λ s,
  mkBusStore (mb_nextid s) (mb_queue s) (mb_msgs s) (mb_done s).

Definition empty_bus : BusStore := mkBusStore None None None None.

Abbreviation UM := (M BusStore MessageBusError) (only parsing).

Definition next_number (s : BusStore) : Z := default 1 (mb_nextid s).
Definition queue (s : BusStore) : list Z := default [] (mb_queue s).
Definition messages (s : BusStore) : gmap Z BusMessage := default ∅ (mb_msgs s).
Definition delivered (s : BusStore) : gmap Z bool := default ∅ (mb_done s).

Definition set_queue (l : list Z) : UM unit := modify (λ s, s <| mb_queue := Some l |>).
Definition set_messages (m : gmap Z BusMessage) : UM unit := modify (λ s, s <| mb_msgs := Some m |>).

Definition next_id : UM Z :=
  number ← gets next_number;
  next ← unwrap (u64_checked_add number 1);
  modify (λ s, s <| mb_nextid := Some next |>) ;;
  mret number.

Definition publish (source target : Address) (kind payload_hash : Symbol) (version : Z) : UM Z :=
  require_auth source ;;
  number ← next_id;
  now ← ask timestamp;
  msgs ← gets messages;
  set_messages (<[number := mkBusMessage number version source target kind payload_hash now 0 Queued]> msgs) ;;
  q ← gets queue;
  set_queue (q ++ [number]) ;;
  mret number.

Definition dequeue_next : UM (option BusMessage) :=
  q ← gets queue;
  match q with
  | [] => mret None
  | number :: rest =>
      set_queue rest ;;
      msgs ← gets messages;
      match msgs !! number with
      | Some msg =>
          attempts ← unwrap (fit in_u32 (bm_attempts msg + 1));
          let msg := msg <| bm_state := InFlight |> <| bm_attempts := attempts |> in
          set_messages (<[number := msg]> msgs) ;;
          mret (Some msg)
      | None => mret None
      end
  end.

Definition confirm_delivery (number : Z) : UM unit :=
  msgs ← gets messages;
  done ← gets delivered;
  reject_if (default false (done !! number)) MB_AlreadyDelivered ;;
  msg ← ok_or (msgs !! number) MB_MessageNotFound;
  set_messages (<[number := msg <| bm_state := Delivered |>]> msgs) ;;
  modify (λ s, s <| mb_done := Some (<[number := true]> done) |>).

Definition mark_failed (number : Z) : UM unit :=
  msgs ← gets messages;
  msg ← ok_or (msgs !! number) MB_MessageNotFound;
  reject_if (MAX_RETRIES <=? bm_attempts msg) MB_RetryLimitExceeded ;;
  set_messages (<[number := msg <| bm_state := Failed |>]> msgs).

Definition retry_failed (number : Z) : UM unit :=
  msgs ← gets messages;
  msg ← ok_or (msgs !! number) MB_MessageNotFound;
  reject_if (MAX_RETRIES <=? bm_attempts msg) MB_RetryLimitExceeded ;;
  q ← gets queue;
  set_queue (q ++ [number]).

Definition get_message (s : BusStore) (number : Z) : option BusMessage := messages s !! number.

(** ** Calls *)

Inductive BusCall : Type :=
  | Publish (source target : Address) (kind payload_hash : Symbol) (version : Z)
  | DequeueNext
  | ConfirmDelivery (number : Z)
  | MarkFailed (number : Z)
  | RetryFailed (number : Z).

Definition bus_perform (c : BusCall) : UM unit :=
  match c with
  | Publish a b k h v => publish a b k h v ;; mret tt
  | DequeueNext => dequeue_next ;; mret tt
  | ConfirmDelivery i => confirm_delivery i
  | MarkFailed i => mark_failed i
  | RetryFailed i => retry_failed i
  end.

Definition bus_step (c : BusCall) (env : Env) (s : BusStore) : BusStore := (invoke (bus_perform c) env s).2.

Inductive bus_run : BusStore → list (Env * BusCall) → BusStore → Prop :=
  | bus_nil s : bus_run s [] s
  | bus_cons s env c l s' : bus_run (bus_step c env s) l s' → bus_run s ((env, c) :: l) s'.

(** ** What a call does to the messages *)

(** A message's life in the call [c] that leads from [s] to [s']: its content
    stays; attempts are counted by taking it from the head of the queue; its
    delivery is confirmed by the call that names it, when no confirmation was
    recorded, and is recorded then; a failure is marked by the call that names
    it, below the limit of attempts. *)
Inductive message_step (c : BusCall) (s s' : BusStore) (i : Z) (m : BusMessage) : BusMessage → Prop :=
  | msg_same : message_step c s s' i m m
  | msg_dequeued : c = DequeueNext → queue s = i :: queue s' →
      message_step c s s' i m (m <| bm_state := InFlight |> <| bm_attempts := bm_attempts m + 1 |>)
  | msg_confirmed : c = ConfirmDelivery i → default false (delivered s !! i) = false → delivered s' !! i = Some true →
      message_step c s s' i m (m <| bm_state := Delivered |>)
  | msg_failed : c = MarkFailed i → bm_attempts m < MAX_RETRIES →
      message_step c s s' i m (m <| bm_state := Failed |>).

Record bus_ok (s : BusStore) : Prop := {
  bo_number : 1 ≤ next_number s;
  bo_messages : ∀ i m, messages s !! i = Some m → bm_id m = i ∧ 1 ≤ i < next_number s ∧ 0 ≤ bm_attempts m;
  bo_queue : ∀ i, i ∈ queue s → is_Some (messages s !! i);
  bo_delivered : ∀ i, delivered s !! i = Some true → is_Some (messages s !! i);
}.

Lemma publish_bus_Ok a b k h v env s n s' :
  publish a b k h v env s = (Ok n, s') →
  authorized env a = true ∧ n = next_number s ∧ next_number s' = n + 1 ∧ queue s' = queue s ++ [n] ∧
  messages s' = <[n := mkBusMessage n v a b k h (timestamp env) 0 Queued]> (messages s) ∧ delivered s' = delivered s.
Proof.
  unfold publish, next_id, set_messages, set_queue. intros Hr. run_inv Hr.
  match goal with H : u64_checked_add _ _ = Some _ |- _ => apply fit_Some in H as [_ ->] end. by split_and!.
Qed.

Lemma dequeue_Ok env s r s' :
  dequeue_next env s = (Ok r, s') →
  next_number s' = next_number s ∧ delivered s' = delivered s ∧
  match queue s with
  | [] => r = None ∧ s' = s
  | i :: rest => queue s' = rest ∧
      match messages s !! i with
      | Some m => let m' := m <| bm_state := InFlight |> <| bm_attempts := bm_attempts m + 1 |> in
                  r = Some m' ∧ messages s' = <[i := m']> (messages s)
      | None => r = None ∧ messages s' = messages s
      end
  end.
Proof.
  unfold dequeue_next. rewrite bind_eq. cbn [gets]. destruct (queue s) as [|i rest] eqn:Hq; [by intros [= <- <-]|].
  rewrite bind_eq. cbn [set_queue modify]. rewrite bind_eq. cbn [gets].
  change (messages (s <| mb_queue := Some rest |>)) with (messages s).
  destruct (messages s !! i) as [m|]; [|by intros [= <- <-]].
  intros Hr. unfold set_messages in Hr. run_inv Hr.
  match goal with H : fit _ _ = Some _ |- _ => apply fit_Some in H as [_ ->] end. by split_and!.
Qed.

Lemma confirm_Ok i env s r s' :
  confirm_delivery i env s = (Ok r, s') →
  default false (delivered s !! i) = false ∧ ∃ m, messages s !! i = Some m ∧
    messages s' = <[i := m <| bm_state := Delivered |>]> (messages s) ∧ delivered s' = <[i := true]> (delivered s) ∧
    queue s' = queue s ∧ next_number s' = next_number s.
Proof.
  unfold confirm_delivery, set_messages. intros Hr. run_inv Hr. split; [done|]. eexists. by split_and!.
Qed.

Lemma mark_failed_Ok i env s r s' :
  mark_failed i env s = (Ok r, s') →
  ∃ m, messages s !! i = Some m ∧ bm_attempts m < MAX_RETRIES ∧
    messages s' = <[i := m <| bm_state := Failed |>]> (messages s) ∧ delivered s' = delivered s ∧
    queue s' = queue s ∧ next_number s' = next_number s.
Proof. unfold mark_failed, set_messages. intros Hr. run_inv Hr. zbool. eexists. by split_and!. Qed.

Lemma retry_failed_Ok i env s r s' :
  retry_failed i env s = (Ok r, s') →
  ∃ m, messages s !! i = Some m ∧ bm_attempts m < MAX_RETRIES ∧ messages s' = messages s ∧
    delivered s' = delivered s ∧ queue s' = queue s ++ [i] ∧ next_number s' = next_number s.
Proof. unfold retry_failed, set_queue. intros Hr. run_inv Hr. zbool. eexists. by split_and!. Qed.

(** What a call keeps and does. *)
Record bus_moves (c : BusCall) (s s' : BusStore) : Prop := {
  bv_ok : bus_ok s';
  bv_messages : ∀ i m, messages s !! i = Some m → ∃ m', messages s' !! i = Some m' ∧ message_step c s s' i m m';
  bv_delivered : ∀ i, delivered s !! i = Some true → delivered s' !! i = Some true;
  bv_confirmed : ∀ i, delivered s' !! i = Some true → delivered s !! i = Some true ∨ c = ConfirmDelivery i;
}.

Lemma bus_moves_refl c s : bus_ok s → bus_moves c s s.
Proof. intros Hs. split; [done| |done|by left]. intros i m Hm. exists m. split; [done|apply msg_same]. Qed.

(** One message changes. *)
Lemma one_message c s s' i m m' :
  bus_ok s → messages s !! i = Some m → messages s' = <[i := m']> (messages s) → next_number s' = next_number s →
  (∀ j, j ∈ queue s' → j ∈ queue s) → message_step c s s' i m m' → bm_id m' = bm_id m → 0 ≤ bm_attempts m' →
  (∀ j, delivered s' !! j = Some true → delivered s !! j = Some true ∨ j = i ∧ c = ConfirmDelivery i) →
  (∀ j, delivered s !! j = Some true → delivered s' !! j = Some true) → bus_moves c s s'.
Proof.
  intros [H1 H2 H3 H4] Hm Hms Hn Hq Hstep Hid Hat Hd Hd'.
  assert (Hthere : ∀ j, is_Some (messages s !! j) → is_Some (messages s' !! j)).
  { intros j Hj. rewrite Hms. destruct (decide (j = i)) as [->|Hji]; [rewrite lookup_insert_eq; by eexists|].
    by rewrite lookup_insert_ne. }
  split; [split|..]; rewrite ?Hn; try done.
  - intros j x. rewrite Hms. destruct (decide (j = i)) as [->|Hji].
    + rewrite lookup_insert_eq. intros [= <-]. destruct (H2 i m Hm) as (? & ? & ?). split; [congruence|done].
    + rewrite lookup_insert_ne by done. apply H2.
  - intros j Hj. by apply Hthere, H3, Hq.
  - intros j Hj. apply Hthere. destruct (Hd j Hj) as [?|[-> _]]; [by apply H4|by eexists].
  - intros j x Hx. rewrite Hms. destruct (decide (j = i)) as [->|Hji].
    + rewrite lookup_insert_eq. exists m'. rewrite Hm in Hx. injection Hx as <-. done.
    + rewrite lookup_insert_ne by done. exists x. split; [done|apply msg_same].
  - intros j Hj. destruct (Hd j Hj) as [?|[-> ?]]; [by left|by right].
Qed.

Lemma bus_step_moves c env s : bus_ok s → bus_moves c s (bus_step c env s).
Proof.
  intros Hs. unfold bus_step. destruct (invoked_or_kept (bus_perform c) env s) as [->|([] & s' & Hr & ->)];
    [by apply bus_moves_refl|]. pose proof Hs as [H1 H2 H3 H4].
  destruct c as [a b k h v| |i|i|i]; cbn in Hr.
  - apply bind_Ok in Hr as (n & s1 & Hr & [= ->]). apply publish_bus_Ok in Hr as (_ & Hnum & Hn & Hq & Hms & Hd).
    assert (Hnew : messages s !! n = None).
    { destruct (_ !! n) eqn:E; [|done]. destruct (H2 _ _ E) as (_ & ? & _). lia. }
    assert (Hkept : ∀ j x, messages s !! j = Some x → messages s' !! j = Some x).
    { intros j x Hx. rewrite Hms, lookup_insert_ne; [done|]. intros ->. congruence. }
    split; [split|..]; rewrite ?Hn, ?Hd; try done.
    + lia.
    + intros j x. rewrite Hms. destruct (decide (j = n)) as [->|Hj].
      * rewrite lookup_insert_eq. intros [= <-]. cbn. split; [done|lia].
      * rewrite lookup_insert_ne by done. intros Hx. destruct (H2 _ _ Hx) as (? & ? & ?). split; [done|lia].
    + intros j. rewrite Hq, elem_of_app, list_elem_of_singleton. intros [Hj| ->].
      * destruct (H3 j Hj) as [x Hx]. exists x. by apply Hkept.
      * rewrite Hms, lookup_insert_eq. by eexists.
    + intros j Hj. destruct (H4 j Hj) as [x Hx]. exists x. by apply Hkept.
    + intros j x Hx. exists x. split; [by apply Hkept|apply msg_same].
    + by left.
  - apply bind_Ok in Hr as (r & s1 & Hr & [= ->]). apply dequeue_Ok in Hr as (Hn & Hd & Hq). destruct (queue s) as [|i rest] eqn:E.
    + destruct Hq as [_ ->]. by apply bus_moves_refl.
    + destruct Hq as [Hq Hms]. destruct (H3 i) as [m Hm]; [apply elem_of_cons; by left|].
      rewrite Hm in Hms. destruct Hms as [_ Hms].
      eapply (one_message _ s _ i m); try done; rewrite ?Hd; try by auto.
      * rewrite Hq, E. intros j Hj. apply elem_of_cons. by right.
      * apply msg_dequeued; [done|by rewrite Hq].
      * cbn. destruct (H2 _ _ Hm) as (_ & _ & ?). lia.
  - apply confirm_Ok in Hr as (Hnot & m & Hm & Hms & Hd & Hq & Hn). destruct (H2 _ _ Hm) as (_ & _ & Hat).
    eapply (one_message _ s _ i m); try done; rewrite ?Hd, ?Hq; try done.
    + apply msg_confirmed; [done|done|]. by rewrite Hd, lookup_insert_eq.
    + intros j. destruct (decide (j = i)) as [->|Hj]; [by right|]. rewrite lookup_insert_ne by done. by left.
    + intros j Hj. destruct (decide (j = i)) as [->|Hji]; [by rewrite lookup_insert_eq|by rewrite lookup_insert_ne].
  - apply mark_failed_Ok in Hr as (m & Hm & Hlim & Hms & Hd & Hq & Hn). destruct (H2 _ _ Hm) as (_ & _ & Hat).
    eapply (one_message _ s _ i m); try done; rewrite ?Hd, ?Hq; try by auto. by apply msg_failed.
  - apply retry_failed_Ok in Hr as (m & Hm & _ & Hms & Hd & Hq & Hn).
    split; [split|..]; rewrite ?Hn, ?Hms, ?Hd; try done.
    + intros j. rewrite Hq, elem_of_app, list_elem_of_singleton. intros [Hj| ->]; [by apply H3|by eexists].
    + intros j x Hx. exists x. split; [done|apply msg_same].
    + by left.
Qed.

Lemma empty_bus_ok : bus_ok empty_bus.
Proof. split; [done|done|by intros i ?%elem_of_nil|done]. Qed.

Lemma bus_run_ok s l s' : bus_ok s → bus_run s l s' → bus_ok s'.
Proof. intros Hs. induction 1 as [|s env c l s' _ IH]; [done|]. apply IH. by destruct (bus_step_moves c env s Hs). Qed.

(** C26: whatever is called after any history, the message bus stays well formed
    - every queued or confirmed identifier has a message, every message is
    stored under its own identifier, identifiers are used once - and every
    message lives on: its content never changes; it is handed out only from the
    head of the queue, which counts an attempt; it becomes delivered only by a
    confirmation that names it, when none was recorded, and that one is
    recorded; it fails only by a call that names it, after fewer than three
    attempts; a recorded confirmation stays, is recorded only by a confirmation,
    and makes every further one be refused. *)
Theorem messages_follow_their_life l s c env :
  bus_run empty_bus l s →
  bus_moves c s (bus_step c env s) ∧
  ∀ i env', delivered s !! i = Some true → confirm_delivery i env' s = (Err MB_AlreadyDelivered, s).
Proof.
  intros Hl. split; [apply bus_step_moves; eapply bus_run_ok; [apply empty_bus_ok|exact Hl]|].
  intros i env' Hdone. unfold confirm_delivery. run_fwd. by rewrite Hdone.
Qed.

(** A delivery is confirmed at most once: once it was, every further
    confirmation, whatever happens in between, is refused. *)
Theorem deliveries_are_confirmed_once l s env i s1 l' s2 env' :
  bus_run empty_bus l s → confirm_delivery i env s = (Ok tt, s1) → bus_run s1 l' s2 →
  confirm_delivery i env' s2 = (Err MB_AlreadyDelivered, s2).
Proof.
  intros Hl Hc Hl'. pose proof (bus_run_ok _ _ _ empty_bus_ok Hl) as Hs.
  assert (Hs1 : bus_ok s1).
  { destruct (bus_step_moves (ConfirmDelivery i) env s Hs) as [H _ _ _]. unfold bus_step, invoke in H. cbn in H.
    by rewrite Hc in H. }
  apply confirm_Ok in Hc as (_ & m & _ & _ & Hd & _).
  assert (Hdone : delivered s1 !! i = Some true) by (by rewrite Hd, lookup_insert_eq).
  clear Hl Hs Hd. induction Hl' as [x|x env2 c l' x' _ IH].
  - unfold confirm_delivery. run_fwd. by rewrite Hdone.
  - destruct (bus_step_moves c env2 x Hs1) as [Ho _ Hk _]. by apply IH; [|apply Hk].
Qed.

(** ** What does not hold *)

Definition bus_at (a : Address) (t : Z) : Env := mkEnv t 0 (λ b, bool_decide (b = a)) (λ _ _, None) (λ _ _ _ _, None).

Lemma requeue_many i m env n s :
  messages s !! i = Some m → bm_attempts m < MAX_RETRIES →
  ∃ s', bus_run s (repeat (env, RetryFailed i) n) s' ∧ messages s' = messages s ∧ queue s' = queue s ++ repeat i n.
Proof.
  revert s. induction n as [|n IH]; intros s Hm Hat; [exists s; cbn; rewrite app_nil_r; by split_and!; [constructor|..]|].
  assert (Hr : bus_step (RetryFailed i) env s = s <| mb_queue := Some (queue s ++ [i]) |>).
  { unfold bus_step, invoke. cbn [bus_perform]. unfold retry_failed. run_fwd. rewrite Hm. run_fwd.
    by rewrite (proj2 (Z.leb_gt _ _) Hat). }
  destruct (IH (s <| mb_queue := Some (queue s ++ [i]) |>)) as (s' & Hrun & Hms & Hq); [done..|].
  exists s'. split_and!; [|done|].
  - apply bus_cons. by rewrite Hr.
  - rewrite Hq. cbn. by rewrite <- app_assoc.
Qed.

Lemma dequeue_many i env n s m :
  messages s !! i = Some m → queue s = repeat i n → 0 ≤ bm_attempts m → bm_attempts m + Z.of_nat n ≤ U32_MAX →
  ∃ s' m', bus_run s (repeat (env, DequeueNext) n) s' ∧ messages s' !! i = Some m' ∧
    bm_attempts m' = bm_attempts m + Z.of_nat n.
Proof.
  revert s m. induction n as [|n IH]; intros s m Hm Hq Hat Hb.
  { exists s, m. split_and!; [constructor|done|lia]. }
  set (m1 := m <| bm_state := InFlight |> <| bm_attempts := bm_attempts m + 1 |>).
  assert (Hr : bus_step DequeueNext env s =
               s <| mb_queue := Some (repeat i n) |> <| mb_msgs := Some (<[i := m1]> (messages s)) |>).
  { unfold bus_step, invoke. cbn [bus_perform]. unfold dequeue_next. run_fwd. rewrite Hq. cbn [repeat]. unfold set_queue. run_fwd.
    change (messages (s <| mb_queue := Some (repeat i n) |>)) with (messages s). rewrite Hm. run_fwd.
    rewrite (fit_in in_u32) by (apply in_range_spec; lia). done. }
  destruct (IH (bus_step DequeueNext env s) m1) as (s' & m' & Hrun & Hm' & Ha).
  - rewrite Hr. cbn. apply lookup_insert_eq.
  - by rewrite Hr.
  - cbn. lia.
  - cbn. lia.
  - exists s', m'. split_and!; [by apply bus_cons|done|]. rewrite Ha. cbn. lia.
Qed.

Lemma bus_run_app s1 l1 s2 l2 s3 : bus_run s1 l1 s2 → bus_run s2 l2 s3 → bus_run s1 (l1 ++ l2) s3.
Proof. induction 1 as [|s env c l s2 _ IH]; [done|]. intros Hr. apply bus_cons, IH, Hr. Qed.

(** The limit of three retries does not limit the attempts: retries are
    checked against the attempts made so far, so a message that is put back into
    the queue any number of times before it is handed out is then handed out
    that often. *)
Theorem attempts_are_not_limited n :
  Z.of_nat (S n) ≤ U32_MAX →
  ∃ l s m, bus_run empty_bus l s ∧ get_message s 1 = Some m ∧ bm_attempts m = Z.of_nat (S n).
Proof.
  intros Hn. set (env := bus_at 1%positive 5). set (s0 := bus_step (Publish 1%positive 2%positive "call" "hash" 1) env empty_bus).
  destruct (requeue_many 1 (mkBusMessage 1 1 1%positive 2%positive "call" "hash" 5 0 Queued) env n s0)
    as (s1 & Hr1 & Hm1 & Hq1); [done..|].
  destruct (dequeue_many 1 env (S n) s1 (mkBusMessage 1 1 1%positive 2%positive "call" "hash" 5 0 Queued))
    as (s2 & m & Hr2 & Hm2 & Ha); [by rewrite Hm1|by rewrite Hq1|done|done|].
  eexists _, s2, m. split; [|by split].
  apply bus_cons. eapply bus_run_app; [exact Hr1|exact Hr2].
Qed.

(** A message that is retried after its delivery was confirmed. *)
Definition confirmed_and_retried : list (Env * BusCall) :=
  [(bus_at 1%positive 5, Publish 1%positive 2%positive "call" "hash" 1); (bus_at 3%positive 6, DequeueNext);
   (bus_at 3%positive 7, ConfirmDelivery 1); (bus_at 3%positive 8, RetryFailed 1)].
Definition retried_bus : BusStore := fold_left (λ s '(env, c), bus_step c env s) confirmed_and_retried empty_bus.

Lemma retried_run : bus_run empty_bus confirmed_and_retried retried_bus.
Proof. do 4 apply bus_cons. constructor. Qed.

(** A confirmed message can be handed out again: it is then in flight, its
    delivery cannot be confirmed any more, and nobody had to sign any of these
    calls. *)
Theorem confirmed_messages_are_handed_out_again :
  bus_run empty_bus confirmed_and_retried retried_bus ∧ delivered retried_bus !! 1 = Some true ∧
  let '(r, s) := dequeue_next (bus_at 3%positive 9) retried_bus in
  (∃ m, r = Ok (Some m) ∧ bm_id m = 1 ∧ bm_state m = InFlight ∧ bm_attempts m = 2) ∧
  confirm_delivery 1 (bus_at 3%positive 9) s = (Err MB_AlreadyDelivered, s).
Proof. split; [apply retried_run|]. vm_compute. split; [done|]. split; [by eexists|done]. Qed.

Lemma messages_follow_their_life_witness :
  bus_moves DequeueNext retried_bus (bus_step DequeueNext (bus_at 3%positive 9) retried_bus) ∧
  confirm_delivery 1 (bus_at 3%positive 9) retried_bus = (Err MB_AlreadyDelivered, retried_bus).
Proof.
  destruct (messages_follow_their_life _ _ DequeueNext (bus_at 3%positive 9) retried_run) as [Hm Hc].
  split; [exact Hm|]. apply Hc. vm_compute. reflexivity.
Defined.

Definition handed_out : BusStore :=
  fold_left (λ s '(env, c), bus_step c env s) (take 2 confirmed_and_retried) empty_bus.

Lemma deliveries_are_confirmed_once_witness :
  confirm_delivery 1 (bus_at 3%positive 9) retried_bus = (Err MB_AlreadyDelivered, retried_bus).
Proof.
  refine (deliveries_are_confirmed_once (take 2 confirmed_and_retried) handed_out (bus_at 3%positive 7) 1
    (bus_step (ConfirmDelivery 1) (bus_at 3%positive 7) handed_out) (drop 3 confirmed_and_retried) retried_bus
    (bus_at 3%positive 9) _ _ _).
  - do 2 apply bus_cons. constructor.
  - vm_compute. reflexivity.
  - apply bus_cons. constructor.
Defined.

Lemma attempts_are_not_limited_witness :
  ∃ l s m, bus_run empty_bus l s ∧ get_message s 1 = Some m ∧ bm_attempts m = 7.
Proof. apply (attempts_are_not_limited 6). vm_compute. discriminate. Defined.
