(* ===== verification/ClientRetry.v ===== *)
(** * ClientRetry: the loops of the client (client/src: config.rs, error.rs, retry.rs, monitor.rs)

    The client calls the network from two kinds of loop: retrying a failed
    operation, and polling for a transaction.  The network, the clock and the
    sleeping are a world [W] with operations that are arguments; floating-point
    numbers, and the errors of other packages that an error wraps, are types
    that are arguments.  A loop has fuel; [None] is running out of it. *)

From S2P Require Import Prelude.

(** ** error.rs *)

Inductive BlockchainError (F : Type) : Type :=
  | HorizonError (message : string)
  | SorobanRpcError (message : string)
  | NetworkError (cause : F)
  | TransactionSubmissionError (message : string)
  | TransactionFailedError (code message : string)
  | TransactionNotFound (message : string)
  | TransactionTimeout (seconds : Z)
  | InvalidTransaction (message : string)
  | SerializationError (cause : F)
  | ConfigError (message : string)
  | InvalidNetwork (message : string)
  | RateLimitExceeded (seconds : Z)
  | MaxRetriesExceeded (retries : nat)
  | InvalidResponse (message : string)
  | AccountNotFound (message : string)
  | InsufficientFunds
  | Base64DecodeError (cause : F)
  | UrlParseError (cause : F)
  | Generic (message : string).
Arguments HorizonError {F} message.
Arguments SorobanRpcError {F} message.
Arguments NetworkError {F} cause.
Arguments TransactionSubmissionError {F} message.
Arguments TransactionFailedError {F} code message.
Arguments TransactionNotFound {F} message.
Arguments TransactionTimeout {F} seconds.
Arguments InvalidTransaction {F} message.
Arguments SerializationError {F} cause.
Arguments ConfigError {F} message.
Arguments InvalidNetwork {F} message.
Arguments RateLimitExceeded {F} seconds.
Arguments MaxRetriesExceeded {F} retries.
Arguments InvalidResponse {F} message.
Arguments AccountNotFound {F} message.
Arguments InsufficientFunds {F}.
Arguments Base64DecodeError {F} cause.
Arguments UrlParseError {F} cause.
Arguments Generic {F} message.

(** [Result<T>] *)
Definition Result (F T : Type) : Type := (BlockchainError F + T)%type.

(** ** config.rs *)

Inductive Network : Type := Testnet | Mainnet | Futurenet | Custom.

Definition passphrase (n : Network) : string :=
  match n with
  | Testnet => "Test SDF Network ; September 2015"
  | Mainnet => "Public Global Stellar Network ; September 2015"
  | Futurenet => "Test SDF Future Network ; October 2022"
  | Custom => "Custom Network"
  end.
Definition default_horizon_url (n : Network) : string :=
  match n with
  | Testnet => "https://horizon-testnet.stellar.org"
  | Mainnet => "https://horizon.stellar.org"
  | Futurenet => "https://horizon-futurenet.stellar.org"
  | Custom => ""
  end.
Definition default_soroban_rpc_url (n : Network) : string :=
  match n with
  | Testnet => "https://soroban-testnet.stellar.org"
  | Mainnet => "https://soroban-mainnet.stellar.org"
  | Futurenet => "https://rpc-futurenet.stellar.org"
  | Custom => ""
  end.

Record BlockchainConfig (R : Type) : Type := mkBlockchainConfig {
  network : Network;
  horizon_url : string;
  soroban_rpc_url : string;
  network_passphrase : string;
  request_timeout_ms : Z;
  max_retries : nat;
  retry_initial_delay_ms : Z;
  retry_max_delay_ms : Z;
  retry_multiplier : R;
  tx_poll_interval_ms : Z;
  tx_timeout_secs : Z;
}.
Arguments mkBlockchainConfig {R}.
Arguments network {R}.
Arguments horizon_url {R}.
Arguments soroban_rpc_url {R}.
Arguments network_passphrase {R}.
Arguments request_timeout_ms {R}.
Arguments max_retries {R}.
Arguments retry_initial_delay_ms {R}.
Arguments retry_max_delay_ms {R}.
Arguments retry_multiplier {R}.
Arguments tx_poll_interval_ms {R}.
Arguments tx_timeout_secs {R}.

Section config.
Context {F R : Type} (two : R) (at_most_one : R → bool).

(** [BlockchainConfig::new]; [two] is the literal [2.0] *)
Definition new_config (n : Network) : BlockchainConfig R :=
  mkBlockchainConfig n (default_horizon_url n) (default_soroban_rpc_url n) (passphrase n) 30000 3 100 5000 two 1000 60.

Definition custom (horizon soroban phrase : string) : Result F (BlockchainConfig R) :=
  if bool_decide (horizon = "") then inl (ConfigError "Horizon URL cannot be empty")
  else if bool_decide (soroban = "") then inl (ConfigError "Soroban RPC URL cannot be empty")
  else if bool_decide (phrase = "") then inl (ConfigError "Network passphrase cannot be empty")
  else inr (mkBlockchainConfig Custom horizon soroban phrase 30000 3 100 5000 two 1000 60).

(** [at_most_one x] is [x <= 1.0] *)
Definition validate (c : BlockchainConfig R) : Result F unit :=
  if bool_decide (horizon_url c = "") then inl (ConfigError "Horizon URL cannot be empty")
  else if bool_decide (soroban_rpc_url c = "") then inl (ConfigError "Soroban RPC URL cannot be empty")
  else if bool_decide (network_passphrase c = "") then inl (ConfigError "Network passphrase cannot be empty")
  else if bool_decide (max_retries c = 0%nat) then inl (ConfigError "Max retries must be greater than 0")
  else if retry_initial_delay_ms c =? 0 then inl (ConfigError "Retry initial delay must be greater than 0")
  else if at_most_one (retry_multiplier c) then inl (ConfigError "Retry multiplier must be greater than 1.0")
  else if tx_poll_interval_ms c =? 0 then inl (ConfigError "Transaction poll interval must be greater than 0")
  else if tx_timeout_secs c =? 0 then inl (ConfigError "Transaction timeout must be greater than 0")
  else inr tt.
End config.

(** ** retry.rs *)

(** [str::contains] *)
Fixpoint contains (s pattern : string) : bool :=
  String.prefix pattern s || match s with EmptyString => false | String _ s' => contains s' pattern end.

Definition server_error (msg : string) : bool := contains msg "500" || contains msg "502" || contains msg "503".

Definition is_retryable {F} (e : BlockchainError F) : bool :=
  match e with
  | NetworkError _ => true
  | RateLimitExceeded _ => true
  | HorizonError msg => server_error msg
  | SorobanRpcError msg => server_error msg
  | TransactionNotFound _ => true
  | InvalidResponse _ => true
  | _ => false
  end.

(** The operations on [f64] that a delay is computed with; [f64_as_u64] is
    [as u64] of a value that is not negative. *)
Class F64 (R : Type) : Type := {
  f64_of : Z → R;
  f64_mul : R → R → R;
  f64_min : R → R → R;
  f64_max : R → R → R;
  f64_as_u64 : R → Z;
}.

Record RetryStrategy (R : Type) : Type := mkRetryStrategy {
  rs_max_retries : nat;
  rs_initial_delay : Z;
  rs_max_delay : Z;
  rs_multiplier : R;
}.
Arguments mkRetryStrategy {R}.
Arguments rs_max_retries {R}.
Arguments rs_initial_delay {R}.
Arguments rs_max_delay {R}.
Arguments rs_multiplier {R}.

(** [RetryStrategy::from_config]; durations are in milliseconds. *)
Definition strategy_from_config {R} (c : BlockchainConfig R) : RetryStrategy R :=
  mkRetryStrategy (max_retries c) (retry_initial_delay_ms c) (retry_max_delay_ms c) (retry_multiplier c).

Definition delay_for_retry {R} `{F64 R} (rs : RetryStrategy R) (retry_number : nat) : Z :=
  let max_delay_ms := f64_of (rs_max_delay rs) in
  let delay_ms := Nat.iter (retry_number - 1) (λ d, f64_min (f64_mul d (rs_multiplier rs)) max_delay_ms)
                    (f64_of (rs_initial_delay rs)) in
  f64_as_u64 (f64_max (f64_min delay_ms max_delay_ms) (f64_of 0)).

(** The delays of whole numbers stay between zero and the maximum. *)
#[export] Instance F64_of_Z : F64 Z := {
  f64_of z := z; f64_mul := Z.mul; f64_min := Z.min; f64_max := Z.max; f64_as_u64 z := z;
}.
Example default_delays : map (delay_for_retry (strategy_from_config (new_config 2 Testnet))) (seq 1 8) =
  [100; 200; 400; 800; 1600; 3200; 5000; 5000].
Proof. reflexivity. Qed.

Section retry.
Context {F T W : Type} (operation : W → Result F T * W) (delay : nat → Z) (sleep : Z → W → W) (retries : nat).

(** The loop of [retry_with_predicate], from its [attempts]: the result, the
    attempts made, and the world.  [delay n] is [delay_for_retry(n)]. *)
Fixpoint retry_loop (should_retry : BlockchainError F → bool) (fuel attempts : nat) (w : W) :
    option (Result F T * nat * W) :=
  match fuel with
  | O => None
  | S fuel =>
      let attempts := S attempts in
      match operation w with
      | (inr t, w) => Some (inr t, attempts, w)
      | (inl e, w) =>
          if negb (should_retry e) then Some (inl e, attempts, w)
          else if (retries <? attempts)%nat then Some (inl (MaxRetriesExceeded retries), attempts, w)
          else retry_loop should_retry fuel attempts (sleep (delay attempts) w)
      end
  end.

Definition retry_with_predicate (should_retry : BlockchainError F → bool) (fuel : nat) (w : W) :=
  retry_loop should_retry fuel 0 w.

Definition retry (fuel : nat) (w : W) := retry_with_predicate is_retryable fuel w.

(** *** What the loop does *)

(** The world before attempt [n + 1], when all attempts before it are followed
    by a sleep. *)
Fixpoint after_attempts (n : nat) (w : W) : W :=
  match n with
  | O => w
  | S n => sleep (delay (S n)) (operation (after_attempts n w)).2
  end.

Definition attempt_result (n : nat) (w : W) : Result F T := (operation (after_attempts (n - 1) w)).1.

(** Attempt [n] ends the loop with [r]. *)
Inductive ends (should_retry : BlockchainError F → bool) (n : nat) (w : W) : Result F T → Prop :=
  | ends_success t : attempt_result n w = inr t → ends should_retry n w (inr t)
  | ends_refused e : attempt_result n w = inl e → should_retry e = false → ends should_retry n w (inl e)
  | ends_exceeded e : attempt_result n w = inl e → should_retry e = true → n = S retries →
      ends should_retry n w (inl (MaxRetriesExceeded retries)).

Lemma retry_loop_ends should_retry w fuel k :
  (k + fuel = S retries)%nat → (0 < fuel)%nat →
  (∀ i, (1 ≤ i ≤ k)%nat → ∃ e, attempt_result i w = inl e ∧ should_retry e = true) →
  ∃ n r w', retry_loop should_retry fuel k (after_attempts k w) = Some (r, n, w') ∧ (1 ≤ n ≤ S retries)%nat ∧
    ends should_retry n w r ∧ ∀ i, (1 ≤ i < n)%nat → ∃ e, attempt_result i w = inl e ∧ should_retry e = true.
Proof.
  revert k. induction fuel as [|fuel IH]; intros k Hk Hf Hpast; [lia|]. cbn [retry_loop].
  assert (Hres : attempt_result (S k) w = (operation (after_attempts k w)).1).
  { unfold attempt_result. by replace (S k - 1)%nat with k by lia. }
  assert (Hbefore : ∀ i, (1 ≤ i < S k)%nat → ∃ e, attempt_result i w = inl e ∧ should_retry e = true)
    by (intros i Hi; apply Hpast; lia).
  destruct (operation (after_attempts k w)) as [[e|t] w1] eqn:Ho; cbn in Hres;
    [|by eexists _, _, _; split; [reflexivity|split; [lia|split; [by apply ends_success|]]]].
  destruct (should_retry e) eqn:Hs; cbn [negb];
    [|by eexists _, _, _; split; [reflexivity|split; [lia|split; [by apply (ends_refused _ _ _ e)|]]]].
  destruct (retries <? S k)%nat eqn:Hm.
  - apply Nat.ltb_lt in Hm. eexists _, _, _. split; [reflexivity|]. split; [lia|]. split; [|done].
    apply (ends_exceeded _ _ _ e); [done..|lia].
  - apply Nat.ltb_ge in Hm. replace (sleep (delay (S k)) w1) with (after_attempts (S k) w) by (cbn; by rewrite Ho).
    apply IH; [lia|lia|]. intros i Hi. destruct (decide (i = S k)) as [->|]; [by eexists|]. apply Hpast. lia.
Qed.

(** More fuel changes nothing. *)
Lemma retry_loop_fuel should_retry fuel fuel' k w x :
  (fuel ≤ fuel')%nat → retry_loop should_retry fuel k w = Some x → retry_loop should_retry fuel' k w = Some x.
Proof.
  revert fuel' k w. induction fuel as [|fuel IH]; intros fuel' k w Hle; [done|]. destruct fuel' as [|fuel']; [lia|].
  cbn [retry_loop]. destruct (operation w) as [[e|t] w1]; [|done]. destruct (negb _); [done|].
  destruct (_ <? _)%nat; [done|]. apply IH. lia.
Qed.

Lemma retry_ends w :
  ∃ n r w', retry (S retries) w = Some (r, n, w') ∧ ends is_retryable n w r.
Proof.
  destruct (retry_loop_ends is_retryable w (S retries) 0) as (n & r & w' & Hr & _ & He & _); [lia..|].
  exists n, r, w'. exact (conj Hr He).
Qed.

(** What all attempts and sleeps keep is kept. *)
Lemma retry_loop_keeps (I : W → Prop) should_retry fuel k w x :
  (∀ w, I w → I (operation w).2) → (∀ d w, I w → I (sleep d w)) →
  I w → retry_loop should_retry fuel k w = Some x → I x.2.
Proof.
  intros Ho Hs. revert k w. induction fuel as [|fuel IH]; intros k w Hw; [done|]. cbn [retry_loop].
  specialize (Ho w Hw). destruct (operation w) as [[e|t] w1]; cbn in Ho; [|by intros [= <-]].
  destruct (negb _); [by intros [= <-]|]. destruct (_ <? _)%nat; [by intros [= <-]|]. apply IH. auto.
Qed.

(** C35: the client's retrying ends, whatever the operation does: after at most
    [max_retries] retries, with the first success or the first error that is not
    to be retried, or with [MaxRetriesExceeded] when all the [max_retries + 1]
    attempts failed with errors to be retried; nothing depends on how long the
    loop is allowed to run beyond that. *)
Theorem retry_terminates should_retry w fuel :
  (S retries ≤ fuel)%nat →
  ∃ n r w', retry_with_predicate should_retry fuel w = Some (r, n, w') ∧ (1 ≤ n ≤ S retries)%nat ∧
    ends should_retry n w r ∧ ∀ i, (1 ≤ i < n)%nat → ∃ e, attempt_result i w = inl e ∧ should_retry e = true.
Proof.
  intros Hfuel. destruct (retry_loop_ends should_retry w (S retries) 0) as (n & r & w' & Hr & Hrest); [lia|lia|lia|].
  exists n, r, w'. split; [|done]. by eapply retry_loop_fuel.
Qed.
End retry.

(** ** A concrete network *)

(** It answers with the clock once it is past 350, and is busy before. *)
Definition busy_until_350 (w : Z) : Result Empty_set Z * Z := if w <? 350 then (inl (RateLimitExceeded 1), w + 20) else (inr w, w + 20).
Definition patient (d w : Z) : Z := w + d.

Lemma retry_terminates_witness :
  retry_with_predicate busy_until_350 (λ n, 100 * Z.of_nat n) patient 3 is_retryable 4 0 = Some (inr 660, 4%nat, 680) ∧
  ∃ n r w', retry_with_predicate busy_until_350 (λ n, 100 * Z.of_nat n) patient 3 is_retryable 4 0 = Some (r, n, w') ∧
    (1 ≤ n ≤ 4)%nat.
Proof.
  split; [vm_compute; reflexivity|].
  destruct (retry_terminates busy_until_350 (λ n, 100 * Z.of_nat n) patient 3 is_retryable 0 4) as (n & r & w' & H1 & H2 & _);
    [lia|]. exists n, r, w'. exact (conj H1 H2).
Defined.
