(* ===== verification/ClientMonitor.v ===== *)
(** * ClientMonitor: waiting for a transaction (client/src/monitor.rs, types.rs)

    Two polling loops that differ in the service they ask.  The clock is
    [now : W → Z], in milliseconds; a loop has fuel, [None] is running out. *)

From S2P Require Import Prelude.
From S2P Require Import ClientRetry.

(** ** types.rs *)

Inductive TransactionStatus : Type := Pending | Success | Failed | NotFound.

Record TransactionDetails : Type := mkTransactionDetails {
  td_hash : string;
  td_status : TransactionStatus;
  td_source_account : string;
  td_fee_charged : option Z;
  td_ledger : option Z;
  td_created_at : option string;
  td_result_xdr : option string;
  td_envelope_xdr : option string;
  td_error : option string;
  td_operation_count : option Z;
}.

Record SorobanInvocationResult : Type := mkSorobanInvocationResult {
  si_result_xdr : string;
  si_transaction_hash : string;
  si_ledger : Z;
  si_status : TransactionStatus;
}.

(** ** monitor.rs *)

Record MonitorOptions : Type := mkMonitorOptions {
  poll_interval_ms : Z;
  timeout_secs : Z;
  use_soroban_rpc : bool;
}.

Definition from_config {R} (c : BlockchainConfig R) : MonitorOptions :=
  mkMonitorOptions (tx_poll_interval_ms c) (tx_timeout_secs c) false.
Definition with_soroban_rpc (o : MonitorOptions) : MonitorOptions :=
  mkMonitorOptions (poll_interval_ms o) (timeout_secs o) true.
Definition with_poll_interval (o : MonitorOptions) (interval : Z) : MonitorOptions :=
  mkMonitorOptions interval (timeout_secs o) (use_soroban_rpc o).
Definition with_timeout (o : MonitorOptions) (timeout : Z) : MonitorOptions :=
  mkMonitorOptions (poll_interval_ms o) timeout (use_soroban_rpc o).

Inductive MonitorResult : Type :=
  | MSuccess (details : TransactionDetails)
  | MSorobanSuccess (result : SorobanInvocationResult)
  | MFailed (message : string)
  | MTimeout.

Section monitor.
Context {F W : Type} (now : W → Z) (sleep : Z → W → W)
        (horizon_get : string → W → Result F TransactionDetails * W)
        (soroban_get : string → W → Result F SorobanInvocationResult * W).

(** What the answer of a service makes of a poll; [None] polls again. *)
Definition horizon_verdict (r : Result F TransactionDetails) : option MonitorResult :=
  match r with
  | inr details =>
      match td_status details with
      | Success => Some (MSuccess details)
      | Failed => Some (MFailed (default "Unknown error" (td_error details)))
      | Pending => None
      | NotFound => None
      end
  | inl (TransactionNotFound _) => None
  | inl _ => None
  end.

Definition soroban_verdict (r : Result F SorobanInvocationResult) : option MonitorResult :=
  match r with
  | inr result =>
      match si_status result with
      | Success => Some (MSorobanSuccess result)
      | Failed => Some (MFailed "Transaction failed")
      | Pending => None
      | NotFound => None
      end
  | inl (TransactionNotFound _) => None
  | inl _ => None
  end.

Section loop.
Context {D : Type} (get : W → Result F D * W) (verdict : Result F D → option MonitorResult) (interval timeout start : Z).

(** The loop of both functions; the elapsed time saturates at zero. *)
Fixpoint poll_loop (fuel : nat) (w : W) : option (MonitorResult * W) :=
  match fuel with
  | O => None
  | S fuel =>
      if timeout <=? Z.max 0 (now w - start) then Some (MTimeout, w)
      else
        match get w with
        | (r, w) =>
            match verdict r with
            | Some v => Some (v, w)
            | None => poll_loop fuel (sleep interval w)
            end
        end
  end.

(** The worlds in which the loop asks. *)
Inductive polled (w : W) : W → Prop :=
  | polled_first : polled w w
  | polled_again w' : polled w w' → Z.max 0 (now w' - start) < timeout → verdict (get w').1 = None →
      polled w (sleep interval (get w').2).

Lemma poll_loop_result fuel w w0 v w' :
  polled w0 w → poll_loop fuel w = Some (v, w') →
  v = MTimeout ∧ polled w0 w' ∧ timeout ≤ Z.max 0 (now w' - start) ∨
  ∃ w1, polled w0 w1 ∧ Z.max 0 (now w1 - start) < timeout ∧ verdict (get w1).1 = Some v ∧ w' = (get w1).2.
Proof.
  revert w. induction fuel as [|fuel IH]; intros w Hw; [done|]. cbn [poll_loop].
  destruct (timeout <=? _) eqn:Ht; zbool.
  - intros [= <- <-]. by left.
  - destruct (get w) as [r w1] eqn:Hg. destruct (verdict r) as [x|] eqn:Hv.
    + intros [= <- <-]. right. exists w. by rewrite Hg.
    + apply IH. replace w1 with (get w).2 by by rewrite Hg. apply polled_again; [done..|by rewrite Hg].
Qed.

Lemma poll_loop_fuel fuel fuel' w x : (fuel ≤ fuel')%nat → poll_loop fuel w = Some x → poll_loop fuel' w = Some x.
Proof.
  revert fuel' w. induction fuel as [|fuel IH]; intros fuel' w Hle; [done|]. destruct fuel' as [|fuel']; [lia|].
  cbn [poll_loop]. destruct (_ <=? _); [done|]. destruct (get w) as [r w1]. destruct (verdict r); [done|]. apply IH. lia.
Qed.

(** While time passes, the loop ends. *)
Lemma poll_loop_ends (Hget : ∀ w, now w ≤ now (get w).2) (Hsleep : ∀ w, now w + interval ≤ now (sleep interval w)) :
  0 < interval → ∀ fuel w, timeout - (now w - start) ≤ (Z.of_nat fuel - 1) * interval → 0 ≤ now w - start → (0 < fuel)%nat →
  is_Some (poll_loop fuel w).
Proof.
  intros Hi. induction fuel as [|fuel IH]; intros w Hf Hw Hpos; [lia|]. cbn [poll_loop].
  destruct (timeout <=? _) eqn:Ht; zbool; [by eexists|]. destruct (get w) as [r w1] eqn:Hg.
  destruct (verdict r); [by eexists|]. pose proof (Hget w) as H1. rewrite Hg in H1. cbn in H1.
  pose proof (Hsleep w1) as H2. apply IH; nia.
Qed.
End loop.

Definition monitor_horizon_transaction (tx_hash : string) (o : MonitorOptions) (fuel : nat) (w : W) :=
  poll_loop (horizon_get tx_hash) horizon_verdict (poll_interval_ms o) (timeout_secs o * 1000) (now w) fuel w.

Definition monitor_soroban_transaction (tx_hash : string) (o : MonitorOptions) (fuel : nat) (w : W) :=
  poll_loop (soroban_get tx_hash) soroban_verdict (poll_interval_ms o) (timeout_secs o * 1000) (now w) fuel w.

Definition monitor (tx_hash : string) (o : MonitorOptions) (fuel : nat) (w : W) : option (MonitorResult * W) :=
  if use_soroban_rpc o then monitor_soroban_transaction tx_hash o fuel w
  else monitor_horizon_transaction tx_hash o fuel w.

Definition wait_for_confirmation {R} (c : BlockchainConfig R) (tx_hash : string) (is_soroban : bool) (fuel : nat) (w : W) :
    option (bool * W) :=
  let options := from_config c in
  let options := if is_soroban then with_soroban_rpc options else options in
  '(result, w) ← monitor tx_hash options fuel w;
  match result with
  | MSuccess _ | MSorobanSuccess _ => Some (true, w)
  | MFailed _ | MTimeout => Some (false, w)
  end.

Definition get_status (tx_hash : string) (is_soroban : bool) (w : W) : Result F TransactionStatus * W :=
  if is_soroban then
    match soroban_get tx_hash w with
    | (inr result, w) => (inr (si_status result), w)
    | (inl (TransactionNotFound _), w) => (inr NotFound, w)
    | (inl e, w) => (inl e, w)
    end
  else
    match horizon_get tx_hash w with
    | (inr details, w) => (inr (td_status details), w)
    | (inl (TransactionNotFound _), w) => (inr NotFound, w)
    | (inl e, w) => (inl e, w)
    end.

(** ** What waiting guarantees *)

(** Time does not go backwards, and a sleep lasts at least as long as asked. *)
Context (horizon_time : ∀ h w, now w ≤ now (horizon_get h w).2) (soroban_time : ∀ h w, now w ≤ now (soroban_get h w).2)
        (sleep_time : ∀ d w, now w + d ≤ now (sleep d w)).

(** The polls that can be needed. *)
Definition enough_polls (o : MonitorOptions) : nat := Z.to_nat (timeout_secs o * 1000 / poll_interval_ms o + 2).

Lemma enough_polls_spec o : 0 < poll_interval_ms o → 0 ≤ timeout_secs o →
  timeout_secs o * 1000 ≤ (Z.of_nat (enough_polls o) - 1) * poll_interval_ms o ∧ (0 < enough_polls o)%nat.
Proof.
  intros Hi Ht. unfold enough_polls. pose proof (Z.div_pos (timeout_secs o * 1000) (poll_interval_ms o) ltac:(lia) Hi).
  pose proof (Z.mul_succ_div_gt (timeout_secs o * 1000) (poll_interval_ms o) Hi). split; nia.
Qed.

(** What each answer means. *)
Definition reports_success (tx_hash : string) (is_soroban : bool) (w : W) : Prop :=
  if is_soroban then ∃ r, (soroban_get tx_hash w).1 = inr r ∧ si_status r = Success
  else ∃ r, (horizon_get tx_hash w).1 = inr r ∧ td_status r = Success.
Definition reports_failure (tx_hash : string) (is_soroban : bool) (w : W) : Prop :=
  if is_soroban then ∃ r, (soroban_get tx_hash w).1 = inr r ∧ si_status r = Failed
  else ∃ r, (horizon_get tx_hash w).1 = inr r ∧ td_status r = Failed.

Lemma horizon_verdict_spec r v : horizon_verdict r = Some v →
  ∃ d, r = inr d ∧ (td_status d = Success ∧ v = MSuccess d ∨
                    td_status d = Failed ∧ v = MFailed (default "Unknown error" (td_error d))).
Proof. destruct r as [[]|d]; try done. cbn. destruct (td_status d) eqn:?; intros [= <-]; eauto. Qed.
Lemma soroban_verdict_spec r v : soroban_verdict r = Some v →
  ∃ d, r = inr d ∧ (si_status d = Success ∧ v = MSorobanSuccess d ∨ si_status d = Failed ∧ v = MFailed "Transaction failed").
Proof. destruct r as [[]|d]; try done. cbn. destruct (si_status d) eqn:?; intros [= <-]; eauto. Qed.

(** A poll that ends the loop reports a success or a failure. *)
Definition verdict_of (o : MonitorOptions) (tx_hash : string) (w : W) (v : MonitorResult) : Prop :=
  match v with
  | MTimeout => True
  | MFailed _ => reports_failure tx_hash (use_soroban_rpc o) w
  | MSuccess d => use_soroban_rpc o = false ∧ (horizon_get tx_hash w).1 = inr d ∧ td_status d = Success
  | MSorobanSuccess d => use_soroban_rpc o = true ∧ (soroban_get tx_hash w).1 = inr d ∧ si_status d = Success
  end.

Lemma monitor_result tx_hash o fuel w v w' :
  monitor tx_hash o fuel w = Some (v, w') →
  v = MTimeout ∧ timeout_secs o * 1000 ≤ Z.max 0 (now w' - now w) ∨
  ∃ w1, Z.max 0 (now w1 - now w) < timeout_secs o * 1000 ∧ verdict_of o tx_hash w1 v ∧ v ≠ MTimeout.
Proof.
  unfold monitor, monitor_soroban_transaction, monitor_horizon_transaction, verdict_of, reports_failure.
  destruct (use_soroban_rpc o); intros Hp; eapply poll_loop_result in Hp as [(-> & _ & Ht)|(w1 & _ & Ht & Hv & _)];
    try apply polled_first; try (by left); right; exists w1; (split; [done|]).
  - apply soroban_verdict_spec in Hv as (d & Hd & [[Hs ->]|[Hs ->]]); eauto.
  - apply horizon_verdict_spec in Hv as (d & Hd & [[Hs ->]|[Hs ->]]); eauto.
Qed.

(** With a positive polling interval, which a validated configuration has,
    waiting for a transaction ends, however the network behaves, after at most
    [timeout / interval + 2] polls; [true] is only returned when the service
    reported success before the timeout, [false] when it reported failure before
    the timeout, or the timeout has passed; no error of the network is ever
    passed on. *)
Theorem waiting_terminates {R} (at_most_one : R → bool) (c : BlockchainConfig R) tx_hash is_soroban w fuel :
  0 ≤ tx_poll_interval_ms c → 0 ≤ tx_timeout_secs c → validate (F := F) at_most_one c = inr tt →
  (enough_polls (from_config c) ≤ fuel)%nat →
  ∃ b w', wait_for_confirmation c tx_hash is_soroban fuel w = Some (b, w') ∧
    if b then ∃ w1, Z.max 0 (now w1 - now w) < tx_timeout_secs c * 1000 ∧ reports_success tx_hash is_soroban w1
    else (∃ w1, Z.max 0 (now w1 - now w) < tx_timeout_secs c * 1000 ∧ reports_failure tx_hash is_soroban w1) ∨
         tx_timeout_secs c * 1000 ≤ Z.max 0 (now w' - now w).
Proof.
  intros Hi Ht Hval Hfuel. unfold validate in Hval. repeat case_bool_decide; try discriminate.
  destruct (retry_initial_delay_ms c =? 0); [discriminate|]. destruct (at_most_one _); [discriminate|].
  destruct (tx_poll_interval_ms c =? 0) eqn:Hz; [discriminate|]. zbool.
  set (o := if is_soroban then with_soroban_rpc (from_config c) else from_config c).
  assert (Ho : use_soroban_rpc o = is_soroban ∧ poll_interval_ms o = tx_poll_interval_ms c ∧ timeout_secs o = tx_timeout_secs c)
    by (by destruct is_soroban).
  destruct Ho as (Hso & Hint & Hto).
  destruct (enough_polls_spec (from_config c)) as [Hle Hpos]; [cbn; lia|done|]. cbn in Hle.
  assert (Hend : is_Some (monitor tx_hash o fuel w)).
  { unfold monitor, monitor_soroban_transaction, monitor_horizon_transaction. rewrite Hint, Hto.
    destruct (use_soroban_rpc o); (eapply poll_loop_ends; [intros; by auto|intros; by auto|lia|nia|lia|lia]). }
  destruct Hend as [[v w'] Hm]. unfold wait_for_confirmation. fold o. rewrite Hm. cbn.
  pose proof (monitor_result _ _ _ _ _ _ Hm) as Hres. rewrite Hto in Hres. unfold verdict_of, reports_success, reports_failure in *.
  rewrite Hso in Hres. destruct v as [d|d|m|]; (eexists _, _; split; [reflexivity|]).
  - destruct Hres as [[? _]|(w1 & Hw1 & (-> & Hd & Hs) & _)]; [done|]. eauto.
  - destruct Hres as [[? _]|(w1 & Hw1 & (-> & Hd & Hs) & _)]; [done|]. eauto.
  - destruct Hres as [[? _]|(w1 & Hw1 & Hd & _)]; [done|]. eauto.
  - destruct Hres as [[_ Hx]|(w1 & _ & _ & ?)]; [by right|done].
Qed.
End monitor.

(** ** A concrete network *)

(** The world is the clock: the transaction is in a ledger from 2500 on. *)
Definition found_at (h : string) (w : Z) : Result Empty_set TransactionDetails * Z :=
  (if w <? 1000 then inl (RateLimitExceeded 1)
   else inr (mkTransactionDetails h (if w <? 2500 then Pending else Success) "alice" None None None None None None None), w + 30).
Definition no_soroban (h : string) (w : Z) : Result Empty_set SorobanInvocationResult * Z := (inl (TransactionNotFound h), w + 30).

Lemma waiting_terminates_witness :
  wait_for_confirmation (λ w, w) patient found_at no_soroban (new_config 2 Testnet) "tx" false 62 0 = Some (true, 3120) ∧
  ∃ b w', wait_for_confirmation (λ w, w) patient found_at no_soroban (new_config 2 Testnet) "tx" false 62 0 = Some (b, w').
Proof.
  split; [vm_compute; reflexivity|].
  destruct (waiting_terminates (λ w, w) patient found_at no_soroban
    ltac:(intros h w; cbn; lia) ltac:(intros h w; cbn; lia) ltac:(intros d w; unfold patient; lia)
    (λ m, m <=? 1) (new_config 2 Testnet) "tx" false 0 62) as (b & w' & H & _);
    [cbn; lia|cbn; lia|vm_compute; reflexivity|vm_compute; lia|]. exists b, w'. exact H.
Defined.
