(* ===== verification/ClientHttp.v ===== *)
(** * ClientHttp: the client's services and their use (client/src: horizon.rs, soroban_rpc.rs, transaction.rs, lib.rs)

    An operation asks a service over HTTP in the retry loop of [ClientRetry] and
    decodes the answer.  The crates reqwest, http and serde_json are interfaces:
    the class [Http] sends requests and reads bodies in a world [W] of the
    network, the class [Json] is [serde_json::Value].  The request numbers of
    the RPC clients are shared counters, kept in the [Session] with the world.
    Then what the client may report, what it sends and when. *)

From Stdlib Require Import Ascii.
From stdpp Require Import pretty functions.
From S2P Require Import Prelude.
From S2P Require Import ClientRetry.
From S2P Require Import ClientMonitor.

(** ** types.rs *)

Record TransactionSubmitResponse : Type := mkTransactionSubmitResponse {
  ts_hash : string;
  ts_status : TransactionStatus;
  ts_ledger : option Z;
  ts_error : option string;
  ts_result_xdr : option string;
}.

Record Balance : Type := mkBalance {
  bl_asset_type : string;
  bl_asset_code : option string;
  bl_asset_issuer : option string;
  bl_balance : string;
}.

Record AccountResponse : Type := mkAccountResponse {
  ac_id : string;
  ac_sequence : string;
  ac_balances : list Balance;
}.

Record NetworkInfo : Type := mkNetworkInfo {
  ni_network_passphrase : string;
  ni_current_ledger : Z;
  ni_horizon_version : option string;
  ni_core_version : option string;
}.

(** ** The requests (soroban_rpc.rs) *)

Record JsonRpcRequest (V : Type) : Type := mkJsonRpcRequest {
  rq_jsonrpc : string;
  rq_id : Z;
  rq_method : string;
  rq_params : V;
}.
Arguments mkJsonRpcRequest {V}.
Arguments rq_jsonrpc {V}.
Arguments rq_id {V}.
Arguments rq_method {V}.
Arguments rq_params {V}.

Record JsonRpcError (V : Type) : Type := mkJsonRpcError {
  je_code : Z;
  je_message : string;
  je_data : option V;
}.
Arguments mkJsonRpcError {V}.
Arguments je_code {V}.
Arguments je_message {V}.
Arguments je_data {V}.

Record JsonRpcResponse (V : Type) : Type := mkJsonRpcResponse {
  rr_jsonrpc : string;
  rr_id : Z;
  rr_result : option V;
  rr_error : option (JsonRpcError V);
}.
Arguments mkJsonRpcResponse {V}.
Arguments rr_jsonrpc {V}.
Arguments rr_id {V}.
Arguments rr_result {V}.
Arguments rr_error {V}.

Record SimulateTransactionResult : Type := mkSimulateTransactionResult {
  sm_result_xdr : option string;
  sm_transaction_data : string;
  sm_min_resource_fee : string;
  sm_events : option (list string);
  sm_success : bool;
  sm_error : option string;
}.

(** A request of reqwest, as far as the client makes one *)
Inductive Request (V : Type) : Type :=
  | Get (url : string)
  | PostForm (url : string) (form : list (string * string))
  | PostJson (url : string) (body : JsonRpcRequest V).
Arguments Get {V} url.
Arguments PostForm {V} url form.
Arguments PostJson {V} url body.

(** ** The interfaces *)

(** [serde_json::Value]: [field] and [item] are indexing by a key and by a
    position, [set_field] assigns to a key, and the last four are [json!]. *)
Class Json (V : Type) : Type := {
  field : V → string → V;
  item : V → nat → V;
  is_null : V → bool;
  as_str : V → option string;
  as_u64 : V → option Z;
  as_bool : V → option bool;
  as_array : V → option (list V);
  set_field : string → V → V → V;
  json_string : string → V;
  json_u64 : Z → V;
  json_array : list V → V;
  json_object : list (string * V) → V;
}.

(** reqwest: the answer's status, and its body, read as a text, a JSON value or
    one of the types that derive [Deserialize]; [build] is the builder of a
    client with a timeout. *)
Class Http (F W V : Type) : Type := {
  Response : Type;
  build : Z → F + unit;
  send : Request V → W → (F + Response) * W;
  status : Response → Z;
  is_success : Z → bool;
  status_text : Z → string;
  read_text : Response → W → option string * W;
  read_value : Response → W → (string + V) * W;
  read_account : Response → W → (string + AccountResponse) * W;
  read_rpc : Response → W → (string + JsonRpcResponse V) * W;
}.

(** ** [str::parse::<i64>] *)

Definition digit_value (c : ascii) : option Z :=
  let n := Z.of_nat (nat_of_ascii c) in
  if (48 <=? n) && (n <=? 57) then Some (n - 48) else None.

Fixpoint parse_digits (s : string) (acc : Z) : option Z :=
  match s with
  | EmptyString => Some acc
  | String c s => d ← digit_value c; parse_digits s (10 * acc + d)
  end.

Definition parse_i64 (s : string) : option Z :=
  n ← match s with
      | EmptyString | "-" | "+" => None
      | String "-" rest => n ← parse_digits rest 0; Some (- n)
      | String "+" rest => parse_digits rest 0
      | _ => parse_digits s 0
      end;
  if (- 2 ^ 63 <=? n) && (n <? 2 ^ 63) then Some n else None.

(** ** Operations with errors in a world *)

Definition Op (F X A : Type) : Type := X → Result F A * X.

#[export] Instance Op_ret {F X} : MRet (Op F X) := λ A a x, (inr a, x).
#[export] Instance Op_bind {F X} : MBind (Op F X) := λ A B k m x,
  match m x with
  | (inr a, x) => k a x
  | (inl e, x) => (inl e, x)
  end.
Definition raise {F X A} (e : BlockchainError F) : Op F X A := λ x, (inl e, x).

(** [o.ok_or_else(|| e)] *)
Definition ok_or_else {F A} (o : option A) (e : BlockchainError F) : Result F A :=
  match o with Some a => inr a | None => inl e end.
(** [r?] *)
Definition pass {F X A} (r : Result F A) : Op F X A := λ x, (r, x).

(** The network with the shared counters, one for each RPC client made so far *)
Record Session (W : Type) : Type := mkSession {
  allocated : nat;
  counters : nat → Z;
  network_world : W;
}.
Arguments mkSession {W}.
Arguments allocated {W}.
Arguments counters {W}.
Arguments network_world {W}.

Record HorizonClient (R : Type) : Type := mkHorizonClient {
  hc_base_url : string;
  hc_retry_strategy : RetryStrategy R;
  hc_config : BlockchainConfig R;
}.
Arguments mkHorizonClient {R}.
Arguments hc_base_url {R}.
Arguments hc_retry_strategy {R}.
Arguments hc_config {R}.

(** [sc_request_id] says which counter is the client's. *)
Record SorobanRpcClient (R : Type) : Type := mkSorobanRpcClient {
  sc_base_url : string;
  sc_retry_strategy : RetryStrategy R;
  sc_config : BlockchainConfig R;
  sc_request_id : nat;
}.
Arguments mkSorobanRpcClient {R}.
Arguments sc_base_url {R}.
Arguments sc_retry_strategy {R}.
Arguments sc_config {R}.
Arguments sc_request_id {R}.

Record TransactionManager (R : Type) : Type := mkTransactionManager {
  tm_horizon : HorizonClient R;
  tm_soroban_rpc : SorobanRpcClient R;
  tm_config : BlockchainConfig R;
}.
Arguments mkTransactionManager {R}.
Arguments tm_horizon {R}.
Arguments tm_soroban_rpc {R}.
Arguments tm_config {R}.

Record SubmitOptions : Type := mkSubmitOptions {
  so_simulate_first : bool;
  so_use_soroban_rpc : bool;
}.
Definition default_submit_options : SubmitOptions := mkSubmitOptions true false.

(** monitor.rs *)
Record TransactionMonitor (R : Type) : Type := mkTransactionMonitor {
  mo_horizon : HorizonClient R;
  mo_soroban_rpc : SorobanRpcClient R;
  mo_config : BlockchainConfig R;
}.
Arguments mkTransactionMonitor {R}.
Arguments mo_horizon {R}.
Arguments mo_soroban_rpc {R}.
Arguments mo_config {R}.

Record BlockchainClient (R : Type) : Type := mkBlockchainClient {
  bc_transaction_manager : TransactionManager R;
  bc_transaction_monitor : TransactionMonitor R;
  bc_config : BlockchainConfig R;
}.
Arguments mkBlockchainClient {R}.
Arguments bc_transaction_manager {R}.
Arguments bc_transaction_monitor {R}.
Arguments bc_config {R}.

Section client.
Context {F W V R : Type} `{Http F W V} `{Json V} `{F64 R} (sleep : Z → W → W) (now : W → Z) (at_most_one : R → bool).

(** ** Sending and reading *)

Definition http_send (request : Request V) : Op F W Response := λ w,
  match send request w with
  | (inl e, w) => (inl (NetworkError e), w)
  | (inr response, w) => (inr response, w)
  end.

(** [.map_err(|e| InvalidResponse(e.to_string()))?] on a body *)
Definition decoded {A} (read : Response → W → (string + A) * W) (response : Response) : Op F W A := λ w,
  match read response w with
  | (inl message, w) => (inl (InvalidResponse message), w)
  | (inr a, w) => (inr a, w)
  end.

(** [response.text().await.unwrap_or_else(..)] *)
Definition error_text (response : Response) : Op F W string := λ w,
  match read_text response w with (text, w) => (inr (default "Unknown error" text), w) end.

(** [RetryStrategy::retry]: as many attempts as the strategy has. *)
Lemma retry_is_Some {A} (operation : Op F W A) delay retries w :
  is_Some (retry operation delay sleep retries (S retries) w).
Proof. destruct (retry_ends operation delay sleep retries w) as (n & r & w' & -> & _). by eexists. Qed.

Definition retried {A} (rs : RetryStrategy R) (operation : Op F W A) : Op F (Session W) A := λ s,
  match is_Some_proj (retry_is_Some operation (delay_for_retry rs) (rs_max_retries rs) (network_world s)) with
  | (r, _, w) => (r, mkSession (allocated s) (counters s) w)
  end.

(** ** horizon.rs *)

Definition new_horizon (c : BlockchainConfig R) : Result F (HorizonClient R) :=
  match build (request_timeout_ms c) with
  | inl e => inl (NetworkError e)
  | inr _ => inr (mkHorizonClient (horizon_url c) (strategy_from_config c) c)
  end.

Definition horizon_failure {A} (response : Response) : Op F W A :=
  text ← error_text response;
  raise (HorizonError ("Status " +:+ status_text (status response) +:+ ": " +:+ text)).

Definition get_account (c : HorizonClient R) (account_id : string) : Op F (Session W) AccountResponse :=
  let url := hc_base_url c +:+ "/accounts/" +:+ account_id in
  retried (hc_retry_strategy c)
    (response ← http_send (Get url);
     if is_success (status response) then decoded read_account response
     else if status response =? 404 then raise (AccountNotFound account_id)
     else horizon_failure response).

Definition submitted (success : bool) (body : V) : Result F TransactionSubmitResponse :=
  if success then
    match ok_or_else (as_str (field body "hash")) (InvalidResponse "Missing hash field") with
    | inl e => inl e
    | inr hash =>
        inr (mkTransactionSubmitResponse hash Success (as_u64 (field body "ledger")) None
               (as_str (field body "result_xdr")))
    end
  else
    inl (TransactionSubmissionError
           (default "Unknown error" (as_str (field (field (field body "extras") "result_codes") "transaction")))).

Definition submit_transaction (c : HorizonClient R) (transaction_envelope_xdr : string) :
    Op F (Session W) TransactionSubmitResponse :=
  let url := hc_base_url c +:+ "/transactions" in
  retried (hc_retry_strategy c)
    (response ← http_send (PostForm url [("tx", transaction_envelope_xdr)]);
     body ← decoded read_value response;
     pass (submitted (is_success (status response)) body)).

Definition parse_transaction_details (body : V) : Result F TransactionDetails :=
  match ok_or_else (as_str (field body "hash")) (InvalidResponse "Missing hash field") with
  | inl e => inl e
  | inr hash =>
      match ok_or_else (as_str (field body "source_account")) (InvalidResponse "Missing source_account field") with
      | inl e => inl e
      | inr source_account =>
          let successful := default false (as_bool (field body "successful")) in
          inr {| td_hash := hash;
                 td_status := if successful then Success else Failed;
                 td_source_account := source_account;
                 td_fee_charged := s ← as_str (field body "fee_charged"); parse_i64 s;
                 td_ledger := as_u64 (field body "ledger");
                 td_created_at := as_str (field body "created_at");
                 td_result_xdr := as_str (field body "result_xdr");
                 td_envelope_xdr := as_str (field body "envelope_xdr");
                 td_error :=
                   if negb successful then as_str (field (field body "result_codes") "transaction") else None;
                 td_operation_count := (λ n, n mod 2 ^ 32) <$> as_u64 (field body "operation_count") |}
      end
  end.

Definition get_transaction (c : HorizonClient R) (tx_hash : string) : Op F (Session W) TransactionDetails :=
  let url := hc_base_url c +:+ "/transactions/" +:+ tx_hash in
  retried (hc_retry_strategy c)
    (response ← http_send (Get url);
     if is_success (status response) then
       body ← decoded read_value response;
       pass (parse_transaction_details body)
     else if status response =? 404 then raise (TransactionNotFound tx_hash)
     else horizon_failure response).

Definition network_info (body : V) : NetworkInfo :=
  mkNetworkInfo (default "" (as_str (field body "network_passphrase")))
    (default 0 (as_u64 (field body "history_latest_ledger")))
    (as_str (field body "horizon_version")) (as_str (field body "core_version")).

Definition get_network_info (c : HorizonClient R) : Op F (Session W) NetworkInfo :=
  let url := hc_base_url c +:+ "/" in
  retried (hc_retry_strategy c)
    (response ← http_send (Get url);
     if is_success (status response) then
       body ← decoded read_value response;
       mret (network_info body)
     else horizon_failure response).

Definition get_ledger (c : HorizonClient R) (sequence : Z) : Op F (Session W) V :=
  let url := hc_base_url c +:+ "/ledgers/" +:+ pretty sequence in
  retried (hc_retry_strategy c)
    (response ← http_send (Get url);
     if is_success (status response) then decoded read_value response
     else horizon_failure response).

Definition horizon_health_check (c : HorizonClient R) : Op F (Session W) bool :=
  _ ← get_network_info c;
  mret true.

(** ** soroban_rpc.rs *)

(** A new client has a counter of its own, which starts at 1. *)
Definition new_soroban (c : BlockchainConfig R) : Op F (Session W) (SorobanRpcClient R) := λ s,
  match build (request_timeout_ms c) with
  | inl e => (inl (NetworkError e), s)
  | inr _ =>
      (inr (mkSorobanRpcClient (soroban_rpc_url c) (strategy_from_config c) c (allocated s)),
       mkSession (S (allocated s)) (<[allocated s := 1]> (counters s)) (network_world s))
  end.

(** [fetch_add] wraps around. *)
Definition next_request_id (c : SorobanRpcClient R) : Op F (Session W) Z := λ s,
  let id := counters s (sc_request_id c) in
  (inr id, mkSession (allocated s) (<[sc_request_id c := (id + 1) mod 2 ^ 64]> (counters s)) (network_world s)).

Definition rpc_verdict (response : JsonRpcResponse V) : Result F V :=
  match rr_error response with
  | Some error => inl (SorobanRpcError (je_message error +:+ " (code: " +:+ pretty (je_code error) +:+ ")"))
  | None => ok_or_else (rr_result response) (SorobanRpcError "Missing result in response")
  end.

Definition call_rpc (c : SorobanRpcClient R) (method : string) (params : V) : Op F (Session W) V :=
  request_id ← next_request_id c;
  let request := mkJsonRpcRequest "2.0" request_id method params in
  retried (sc_retry_strategy c)
    (response ← http_send (PostJson (sc_base_url c) request);
     if negb (is_success (status response)) then
       text ← error_text response;
       raise (SorobanRpcError ("HTTP " +:+ status_text (status response) +:+ ": " +:+ text))
     else
       rpc_response ← decoded read_rpc response;
       pass (rpc_verdict rpc_response)).

Definition get_latest_ledger (c : SorobanRpcClient R) : Op F (Session W) Z :=
  result ← call_rpc c "getLatestLedger" (json_object []);
  pass (ok_or_else (as_u64 (field result "sequence")) (InvalidResponse "Missing sequence in ledger response")).

Definition simulated (result : V) : Result F SimulateTransactionResult :=
  match ok_or_else (as_str (field result "transactionData")) (InvalidResponse "Missing transactionData in simulation") with
  | inl e => inl e
  | inr transaction_data =>
      inr {| sm_result_xdr := as_str (field (item (field result "results") 0) "xdr");
             sm_transaction_data := transaction_data;
             sm_min_resource_fee := default "0" (as_str (field result "minResourceFee"));
             sm_events := option_map (omap (M := list) as_str) (as_array (field result "events"));
             sm_success := is_null (field result "error");
             sm_error := as_str (field result "error") |}
  end.

Definition simulate_transaction (c : SorobanRpcClient R) (transaction_xdr : string) :
    Op F (Session W) SimulateTransactionResult :=
  result ← call_rpc c "simulateTransaction" (json_object [("transaction", json_string transaction_xdr)]);
  pass (simulated result).

Definition send_transaction (c : SorobanRpcClient R) (transaction_xdr : string) : Op F (Session W) string :=
  result ← call_rpc c "sendTransaction" (json_object [("transaction", json_string transaction_xdr)]);
  pass (ok_or_else (as_str (field result "hash")) (InvalidResponse "Missing hash in send response")).

Definition invocation_result (tx_hash : string) (result : V) : Result F SorobanInvocationResult :=
  match ok_or_else (as_str (field result "status")) (InvalidResponse "Missing status in transaction response") with
  | inl e => inl e
  | inr status_str =>
      let found st :=
        inr (mkSorobanInvocationResult (default "" (as_str (field result "resultXdr"))) tx_hash
               (default 0 (as_u64 (field result "ledger"))) st) in
      if String.eqb status_str "SUCCESS" then found Success
      else if String.eqb status_str "FAILED" then found Failed
      else if String.eqb status_str "NOT_FOUND" then inl (TransactionNotFound tx_hash)
      else found Pending
  end.

Definition soroban_get_transaction (c : SorobanRpcClient R) (tx_hash : string) :
    Op F (Session W) SorobanInvocationResult :=
  result ← call_rpc c "getTransaction" (json_object [("hash", json_string tx_hash)]);
  pass (invocation_result tx_hash result).

Definition get_network (c : SorobanRpcClient R) : Op F (Session W) V := call_rpc c "getNetwork" (json_object []).

Definition get_ledger_entries (c : SorobanRpcClient R) (keys : list string) : Op F (Session W) V :=
  call_rpc c "getLedgerEntries" (json_object [("keys", json_array (map json_string keys))]).

Definition get_events (c : SorobanRpcClient R) (start_ledger : Z) (end_ledger : option Z)
    (contract_ids : option (list string)) (topics : option (list (list string))) : Op F (Session W) V :=
  let filters := json_object [("type", json_string "contract")] in
  let filters :=
    match contract_ids with
    | Some ids => set_field "contractIds" (json_array (map json_string ids)) filters
    | None => filters
    end in
  let filters :=
    match topics with
    | Some topic_filters =>
        set_field "topics" (json_array (map (λ topic, json_array (map json_string topic)) topic_filters)) filters
    | None => filters
    end in
  call_rpc c "getEvents"
    (json_object [("startLedger", json_u64 start_ledger); ("filters", json_array [filters]);
                  ("pagination", json_object [("limit", json_u64 100)])]).

Definition soroban_health_check (c : SorobanRpcClient R) : Op F (Session W) bool :=
  _ ← get_latest_ledger c;
  mret true.

(** ** transaction.rs *)

Definition new_manager (c : BlockchainConfig R) : Op F (Session W) (TransactionManager R) :=
  horizon ← pass (new_horizon c);
  soroban_rpc ← new_soroban c;
  mret (mkTransactionManager horizon soroban_rpc c).

Definition manager_submit_transaction (m : TransactionManager R) (transaction_xdr : string) :
    Op F (Session W) TransactionSubmitResponse :=
  submit_transaction (tm_horizon m) transaction_xdr.

Definition simulate_soroban_transaction (m : TransactionManager R) (transaction_xdr : string) :
    Op F (Session W) SimulateTransactionResult :=
  simulate_transaction (tm_soroban_rpc m) transaction_xdr.

Definition submit_soroban_transaction (m : TransactionManager R) (transaction_xdr : string) (options : SubmitOptions) :
    Op F (Session W) string :=
  _ ← (if so_simulate_first options then
         simulation ← simulate_soroban_transaction m transaction_xdr;
         if negb (sm_success simulation) then
           raise (TransactionSubmissionError
                    ("Simulation failed: " +:+ default "Unknown simulation error" (sm_error simulation)))
         else mret tt
       else mret tt);
  if so_use_soroban_rpc options then send_transaction (tm_soroban_rpc m) transaction_xdr
  else
    response ← submit_transaction (tm_horizon m) transaction_xdr;
    mret (ts_hash response).

Definition submit_auto (m : TransactionManager R) (transaction_xdr : string) (is_soroban : bool) :
    Op F (Session W) string :=
  if is_soroban then submit_soroban_transaction m transaction_xdr default_submit_options
  else
    response ← manager_submit_transaction m transaction_xdr;
    mret (ts_hash response).

Definition manager_health_check (m : TransactionManager R) : Op F (Session W) bool :=
  _ ← horizon_health_check (tm_horizon m);
  _ ← soroban_health_check (tm_soroban_rpc m);
  mret true.

(** ** The client (lib.rs, monitor.rs) *)

Definition new_monitor (c : BlockchainConfig R) : Op F (Session W) (TransactionMonitor R) :=
  horizon ← pass (new_horizon c);
  soroban_rpc ← new_soroban c;
  mret (mkTransactionMonitor horizon soroban_rpc c).

Definition new_client (c : BlockchainConfig R) : Op F (Session W) (BlockchainClient R) :=
  _ ← pass (validate at_most_one c);
  transaction_manager ← new_manager c;
  transaction_monitor ← new_monitor c;
  mret (mkBlockchainClient transaction_manager transaction_monitor c).

Definition client_horizon (c : BlockchainClient R) : HorizonClient R := tm_horizon (bc_transaction_manager c).
Definition client_soroban_rpc (c : BlockchainClient R) : SorobanRpcClient R := tm_soroban_rpc (bc_transaction_manager c).

Definition client_submit_transaction (c : BlockchainClient R) (transaction_xdr : string) :=
  manager_submit_transaction (bc_transaction_manager c) transaction_xdr.
Definition client_simulate (c : BlockchainClient R) (transaction_xdr : string) :=
  simulate_soroban_transaction (bc_transaction_manager c) transaction_xdr.
Definition client_submit_soroban (c : BlockchainClient R) (transaction_xdr : string) (options : SubmitOptions) :=
  submit_soroban_transaction (bc_transaction_manager c) transaction_xdr options.
Definition client_get_account (c : BlockchainClient R) (account_id : string) := get_account (client_horizon c) account_id.
Definition client_get_transaction (c : BlockchainClient R) (tx_hash : string) := get_transaction (client_horizon c) tx_hash.
Definition client_get_network_info (c : BlockchainClient R) := get_network_info (client_horizon c).
Definition client_get_latest_ledger (c : BlockchainClient R) := get_latest_ledger (client_soroban_rpc c).
Definition client_health_check (c : BlockchainClient R) := manager_health_check (bc_transaction_manager c).

(** The loops of [ClientMonitor], over the monitor's own clients *)
Definition session_now (s : Session W) : Z := now (network_world s).
Definition session_sleep (d : Z) (s : Session W) : Session W :=
  mkSession (allocated s) (counters s) (sleep d (network_world s)).

Definition client_monitor (c : BlockchainClient R) (tx_hash : string) (options : MonitorOptions) (fuel : nat) :
    Session W → option (MonitorResult * Session W) :=
  let m := bc_transaction_monitor c in
  monitor session_now session_sleep (get_transaction (mo_horizon m)) (soroban_get_transaction (mo_soroban_rpc m))
    tx_hash options fuel.

Definition client_wait_for_confirmation (c : BlockchainClient R) (tx_hash : string) (is_soroban : bool) (fuel : nat) :
    Session W → option (bool * Session W) :=
  let m := bc_transaction_monitor c in
  wait_for_confirmation session_now session_sleep (get_transaction (mo_horizon m))
    (soroban_get_transaction (mo_soroban_rpc m)) (mo_config m) tx_hash is_soroban fuel.

Definition monitor_get_status (m : TransactionMonitor R) (tx_hash : string) (is_soroban : bool) :
    Op F (Session W) TransactionStatus :=
  get_status (get_transaction (mo_horizon m)) (soroban_get_transaction (mo_soroban_rpc m)) tx_hash is_soroban.
End client.

(** ** What an operation keeps, and what it may report *)

(** [Keeps I m]: the world stays in [I]. *)
Class Keeps {F X A} (I : X → Prop) (m : Op F X A) : Prop := keeps x : I x → I (m x).2.
(** [Reports P m]: the errors of [m] satisfy [P]. *)
Class Reports {F X A} (P : BlockchainError F → Prop) (m : Op F X A) : Prop := reports x e : (m x).1 = inl e → P e.

Section rules.
Context {F X A B : Type} (I : X → Prop) (P : BlockchainError F → Prop).

#[export] Instance keeps_ret (a : A) : Keeps I (mret a : Op F X A).
Proof. by intros x. Qed.
#[export] Instance keeps_raise (e : BlockchainError F) : Keeps I (raise e : Op F X A).
Proof. by intros x. Qed.
#[export] Instance keeps_pass (r : Result F A) : Keeps I (pass r : Op F X A).
Proof. by intros x. Qed.
#[export] Instance keeps_bind (m : Op F X A) (k : A → Op F X B) : Keeps I m → (∀ a, Keeps I (k a)) → Keeps I (m ≫= k).
Proof.
  intros Hm Hk x Hx. unfold mbind, Op_bind. specialize (Hm x Hx). destruct (m x) as [[e|a] y]; cbn in *; [done|]. by apply Hk.
Qed.
#[export] Instance keeps_if (b : bool) (m n : Op F X A) : Keeps I m → Keeps I n → Keeps I (if b then m else n).
Proof. by destruct b. Qed.

#[export] Instance reports_ret (a : A) : Reports P (mret a : Op F X A).
Proof. by intros x e. Qed.
#[export] Instance reports_bind (m : Op F X A) (k : A → Op F X B) :
  Reports P m → (∀ a, Reports P (k a)) → Reports P (m ≫= k).
Proof.
  intros Hm Hk x e. unfold mbind, Op_bind. specialize (Hm x). destruct (m x) as [[e'|a] y]; cbn in *.
  - intros [= <-]. by apply Hm.
  - apply Hk.
Qed.
End rules.

(** A computation that succeeds does so through both its parts. *)
Lemma bind_inr {F X A B} (m : Op F X A) (k : A → Op F X B) x b y :
  (m ≫= k) x = (inr b, y) → ∃ a x', m x = (inr a, x') ∧ k a x' = (inr b, y).
Proof. unfold mbind, Op_bind. destruct (m x) as [[e|a] x']; [done|]. eauto. Qed.

Section theorems.
Context {F W V R : Type} `{Http F W V} `{Json V} `{F64 R} (sleep : Z → W → W) (now : W → Z) (at_most_one : R → bool).
Implicit Types (s : Session W) (h : HorizonClient R) (c : SorobanRpcClient R) (m : TransactionManager R).

(** *** Retrying *)

Lemma retried_outcome {A} rs (operation : Op F W A) s :
  ∃ n r w, retry operation (delay_for_retry rs) sleep (rs_max_retries rs) (S (rs_max_retries rs)) (network_world s) =
      Some (r, n, w) ∧
    ends operation (delay_for_retry rs) sleep (rs_max_retries rs) is_retryable n (network_world s) r ∧
    retried sleep rs operation s = (r, mkSession (allocated s) (counters s) w).
Proof.
  unfold retried. generalize (retry_is_Some sleep operation (delay_for_retry rs) (rs_max_retries rs) (network_world s)).
  destruct (retry_ends operation (delay_for_retry rs) sleep (rs_max_retries rs) (network_world s)) as (n & r & w' & -> & He).
  intros Hs. by exists n, r, w'.
Qed.

(** A retried operation reports what its last attempt reported, or that the
    retries are used up. *)
Lemma retried_result {A} rs (operation : Op F W A) s :
  (∃ n, (retried sleep rs operation s).1 = attempt_result operation (delay_for_retry rs) sleep n (network_world s) ∧
        ∀ e, (retried sleep rs operation s).1 = inl e → is_retryable e = false) ∨
  (retried sleep rs operation s).1 = inl (MaxRetriesExceeded (rs_max_retries rs)) ∧
  ∃ n e, attempt_result operation (delay_for_retry rs) sleep n (network_world s) = inl e ∧ is_retryable e = true.
Proof.
  destruct (retried_outcome rs operation s) as (n & r & w' & _ & He & ->). destruct He as [t Ht|e He Hr|e He Hr Hn]; cbn.
  - left. exists n. by split.
  - left. exists n. split; [done|]. by intros e' [= <-].
  - right. eauto.
Qed.

(** Nothing that is to be retried comes out of the loop. *)
Lemma retried_final {A} rs (operation : Op F W A) s e :
  (retried sleep rs operation s).1 = inl e → is_retryable e = false.
Proof. destruct (retried_result rs operation s) as [(n & _ & Hf)|[-> _]]; [apply Hf|by intros [= <-]]. Qed.

(** A success is the answer of an attempt. *)
Lemma retried_success {A} rs (operation : Op F W A) s a :
  (retried sleep rs operation s).1 = inr a → ∃ w w', operation w = (inr a, w').
Proof.
  destruct (retried_result rs operation s) as [(n & -> & _)|[-> _]]; [|done]. unfold attempt_result.
  set (w := after_attempts _ _ _ _ _). intros Ha. exists w. destruct (operation w) as [r w']. cbn in Ha. subst. eauto.
Qed.

(** So is an error, other than the one about the retries. *)
Lemma retried_error {A} rs (operation : Op F W A) s e :
  (retried sleep rs operation s).1 = inl e → e = MaxRetriesExceeded (rs_max_retries rs) ∨ ∃ w w', operation w = (inl e, w').
Proof.
  destruct (retried_result rs operation s) as [(n & -> & _)|[-> _]]; [|intros [= <-]; by left]. unfold attempt_result.
  set (w := after_attempts _ _ _ _ _). intros He. right. exists w. destruct (operation w) as [r w']. cbn in He. subst. eauto.
Qed.

(** An operation whose errors are always to be retried and that never succeeds
    uses up the retries. *)
Lemma retried_hopeless {A} rs (operation : Op F W A) s :
  (∀ w, ∃ e, (operation w).1 = inl e ∧ is_retryable e = true) →
  (retried sleep rs operation s).1 = inl (MaxRetriesExceeded (rs_max_retries rs)).
Proof.
  intros Ho. destruct (retried_result rs operation s) as [(n & Hr & Hf)|[-> _]]; [|done].
  unfold attempt_result in Hr. destruct (Ho (after_attempts operation (delay_for_retry rs) sleep (n - 1) (network_world s)))
    as (e & He & Hretry). rewrite He in Hr. specialize (Hf e Hr). congruence.
Qed.

Lemma retried_keeps {A} (I : W → Prop) rs (operation : Op F W A) :
  (∀ d w, I w → I (sleep d w)) → Keeps I operation → Keeps (I ∘ network_world) (retried sleep rs operation).
Proof.
  intros Hsleep Ho s Hs. destruct (retried_outcome rs operation s) as (n & r & w & Hr & _ & ->).
  by apply (retry_loop_keeps operation (delay_for_retry rs) sleep (rs_max_retries rs) I _ _ _ _ _ Ho Hsleep Hs Hr).
Qed.

(** *** What is sent *)

(** Reading, sleeping and the requests that are [allowed] leave [I] alone. *)
Record undisturbed (allowed : Request V → Prop) (I : W → Prop) : Prop := mkUndisturbed {
  un_send : ∀ request w, allowed request → I w → I (send request w).2;
  un_text : ∀ response w, I w → I (read_text response w).2;
  un_value : ∀ response w, I w → I (read_value response w).2;
  un_rpc : ∀ response w, I w → I (read_rpc response w).2;
  un_sleep : ∀ d w, I w → I (sleep d w);
}.

Section sending.
Context (allowed : Request V → Prop) (I : W → Prop) (un : undisturbed allowed I).

Lemma http_send_keeps request : allowed request → Keeps I (http_send request).
Proof.
  intros Ha w Hw. pose proof (un_send _ _ un request w Ha Hw). unfold http_send. by destruct (send request w) as [[]].
Qed.
Lemma decoded_keeps {A} (read : Response → W → (string + A) * W) response :
  (∀ w, I w → I (read response w).2) → Keeps I (decoded read response).
Proof. intros Hread w Hw. specialize (Hread w Hw). unfold decoded. by destruct (read response w) as [[]]. Qed.
Lemma error_text_keeps response : Keeps I (error_text response).
Proof.
  intros w Hw. pose proof (un_text _ _ un response w Hw). unfold error_text. by destruct (read_text response w).
Qed.

Lemma call_rpc_keeps c method params :
  (∀ id, allowed (PostJson (sc_base_url c) (mkJsonRpcRequest "2.0" id method params))) →
  Keeps (I ∘ network_world) (call_rpc sleep c method params).
Proof.
  intros Ha. unfold call_rpc. apply keeps_bind; [by intros s|]. intros id.
  apply retried_keeps; [apply (un_sleep _ _ un)|]. apply keeps_bind; [by apply http_send_keeps|]. intros response.
  apply keeps_if; apply keeps_bind; try apply _.
  - apply error_text_keeps.
  - apply decoded_keeps. intros w. apply (un_rpc _ _ un).
Qed.

Lemma submit_transaction_keeps h tx :
  allowed (PostForm (hc_base_url h +:+ "/transactions") [("tx", tx)]) →
  Keeps (I ∘ network_world) (submit_transaction sleep h tx).
Proof.
  intros Ha. apply retried_keeps; [apply (un_sleep _ _ un)|]. apply keeps_bind; [by apply http_send_keeps|].
  intros response. apply keeps_bind; [|apply _]. apply decoded_keeps. intros w. apply (un_value _ _ un).
Qed.

Lemma simulation_keeps m tx :
  (∀ id, allowed (PostJson (sc_base_url (tm_soroban_rpc m))
            (mkJsonRpcRequest "2.0" id "simulateTransaction" (json_object [("transaction", json_string tx)])))) →
  Keeps (I ∘ network_world) (simulate_soroban_transaction sleep m tx).
Proof. intros Ha. apply keeps_bind; [by apply call_rpc_keeps|apply _]. Qed.
End sending.

(** The requests that hand a transaction to a service *)
Definition submits (request : Request V) : bool :=
  match request with
  | Get _ => false
  | PostForm _ _ => true
  | PostJson _ body => String.eqb (rq_method body) "sendTransaction"
  end.

(** A transaction that is to be simulated first is handed to a service only
    after a simulation that succeeded: otherwise the client returns an error,
    and whatever requests that submit nothing leave alone is as it was. *)
Theorem unsimulated_transactions_are_not_submitted m tx options s I :
  undisturbed (λ request, submits request = false) I → so_simulate_first options = true → I (network_world s) →
  (∃ simulation s1, simulate_soroban_transaction sleep m tx s = (inr simulation, s1) ∧ sm_success simulation = true ∧
     I (network_world s1)) ∨
  ∃ e s1, submit_soroban_transaction sleep m tx options s = (inl e, s1) ∧ I (network_world s1).
Proof.
  intros un Hfirst Hs. pose proof (simulation_keeps _ I un m tx (λ id, eq_refl) s Hs) as Hk.
  unfold submit_soroban_transaction. rewrite Hfirst. unfold mbind, Op_bind.
  destruct (simulate_soroban_transaction sleep m tx s) as [[e|simulation] s1]; cbn in Hk; [right; eauto|].
  destruct (sm_success simulation) eqn:Hsucc; cbn [negb]; [left; eauto|right]. unfold raise. eauto.
Qed.

(** Although it is meant to choose between the two services, [submit_auto] never
    asks the RPC service to send a transaction: what only such requests change
    is as it was. *)
Theorem submit_auto_never_sends m tx is_soroban s I :
  undisturbed (λ request, match request with PostJson _ body => rq_method body ≠ "sendTransaction" | _ => True end) I →
  I (network_world s) → I (network_world (submit_auto sleep m tx is_soroban s).2).
Proof.
  intros un Hs.
  assert (Hsubmit : ∀ h, Keeps (I ∘ network_world)
            (response ← submit_transaction sleep h tx; mret (ts_hash response) : Op F (Session W) string))
    by (intros h; apply keeps_bind; [by eapply submit_transaction_keeps|apply _]).
  revert s Hs. change (Keeps (I ∘ network_world) (submit_auto sleep m tx is_soroban)).
  unfold submit_auto. destruct is_soroban; [|by apply Hsubmit].
  unfold submit_soroban_transaction. cbn [so_simulate_first so_use_soroban_rpc default_submit_options].
  apply keeps_bind; [|intros _; apply Hsubmit]. apply keeps_bind; [by eapply simulation_keeps|]. intros simulation. apply keeps_if; apply _.
Qed.

(** *** What is reported *)

(** The errors of [get_transaction] *)
Lemma get_transaction_final h tx s e : (get_transaction sleep h tx s).1 = inl e → is_retryable e = false.
Proof. apply retried_final. Qed.

Lemma get_transaction_missing h tx s :
  (∀ w, ∃ response w', send (Get (hc_base_url h +:+ "/transactions/" +:+ tx)) w = (inr response, w') ∧
     status response = 404) → is_success 404 = false →
  (get_transaction sleep h tx s).1 = inl (MaxRetriesExceeded (rs_max_retries (hc_retry_strategy h))).
Proof.
  intros Hmissing Hsucc. apply retried_hopeless. intros w. destruct (Hmissing w) as (response & w' & Hsend & Hst).
  exists (TransactionNotFound tx). split; [|done]. unfold mbind, Op_bind, http_send. by rewrite Hsend, Hst, Hsucc.
Qed.

(** What [get_transaction] returns was decoded from an answer. *)
Lemma get_transaction_found h tx s d : (get_transaction sleep h tx s).1 = inr d →
  ∃ response w w' w2 body, send (Get (hc_base_url h +:+ "/transactions/" +:+ tx)) w = (inr response, w') ∧
    is_success (status response) = true ∧ read_value response w' = (inr body, w2) ∧
    parse_transaction_details (F := F) body = inr d.
Proof.
  intros Hg. apply retried_success in Hg as (w & w' & Hw). apply bind_inr in Hw as (response & w1 & Hsend & Hw).
  unfold http_send in Hsend. destruct (send _ w) as [[e|r] w0] eqn:Hs; [done|]. injection Hsend as -> ->.
  destruct (is_success _) eqn:Hok.
  - apply bind_inr in Hw as (body & w2 & Hbody & Hw). unfold decoded in Hbody.
    destruct (read_value response w1) as [[m|b] w3] eqn:Hr; [done|]. injection Hbody as -> ->. injection Hw as Hw _. eauto 10.
  - destruct (_ =? _); [done|]. unfold horizon_failure in Hw. by apply bind_inr in Hw as (? & ? & _ & ?).
Qed.

(** Only two statuses are parsed. *)
Lemma parsed_status body d : parse_transaction_details (F := F) body = inr d →
  td_status d = if default false (as_bool (field body "successful")) then Success else Failed.
Proof. unfold parse_transaction_details. do 2 (destruct (ok_or_else _ _); [done|]). by intros [= <-]. Qed.

(** Horizon's answer that it does not know a transaction is retried, so
    [get_status] never says [NotFound]: after the last attempt it reports that
    the retries are used up, as for a service that is down. *)
Theorem missing_transactions_are_not_reported (mo : TransactionMonitor R) tx s :
  (monitor_get_status sleep mo tx false s).1 ≠ inr NotFound ∧
  ((∀ w, ∃ response w', send (Get (hc_base_url (mo_horizon mo) +:+ "/transactions/" +:+ tx)) w = (inr response, w') ∧
      status response = 404) → is_success 404 = false →
   (monitor_get_status sleep mo tx false s).1 = inl (MaxRetriesExceeded (rs_max_retries (hc_retry_strategy (mo_horizon mo))))).
Proof.
  unfold monitor_get_status, get_status. split.
  - pose proof (get_transaction_final (mo_horizon mo) tx s) as Hf.
    pose proof (get_transaction_found (mo_horizon mo) tx s) as Hd.
    destruct (get_transaction sleep (mo_horizon mo) tx s) as [[e|d] s1].
    + specialize (Hf e eq_refl). by destruct e.
    + destruct (Hd d eq_refl) as (? & ? & ? & ? & body & _ & _ & _ & Hp). apply parsed_status in Hp. cbn.
      intros [= Hst]. rewrite Hst in Hp. by destruct (default _ _).
  - intros Hmissing Hsucc. pose proof (get_transaction_missing (mo_horizon mo) tx s Hmissing Hsucc) as Hg.
    destruct (get_transaction sleep (mo_horizon mo) tx s) as [r s1]. cbn in Hg. by subst r.
Qed.

(** The transaction that Horizon accepted is the one its answer names; an error
    is the code in the answer, or the service could not be read. *)
Theorem submission_is_what_horizon_says h tx s :
  let request := PostForm (hc_base_url h +:+ "/transactions") [("tx", tx)] in
  match (submit_transaction sleep h tx s).1 with
  | inr r => ts_status r = Success ∧ ∃ w response w1 body w2, send request w = (inr response, w1) ∧
      is_success (status response) = true ∧ read_value response w1 = (inr body, w2) ∧
      as_str (field body "hash") = Some (ts_hash r)
  | inl e => e = MaxRetriesExceeded (rs_max_retries (hc_retry_strategy h)) ∨
      ∃ w response w1 body w2, send request w = (inr response, w1) ∧ is_success (status response) = false ∧
        read_value response w1 = (inr body, w2) ∧
        e = TransactionSubmissionError
              (default "Unknown error" (as_str (field (field (field body "extras") "result_codes") "transaction")))
  end.
Proof.
  cbv zeta. destruct (submit_transaction sleep h tx s).1 as [e|r] eqn:Hr.
  - pose proof (retried_final _ _ _ _ Hr) as Hf. apply retried_error in Hr as [->|(w & w' & Hw)]; [by left|right].
    unfold mbind, Op_bind, http_send, decoded, pass in Hw. destruct (send _ w) as [[f|response] w1] eqn:Hsend; [by injection Hw as <- _|].
    destruct (read_value response w1) as [[msg|body] w2] eqn:Hread; [by injection Hw as <- _|].
    exists w, response, w1, body, w2. unfold submitted in Hw. destruct (is_success _).
    + destruct (as_str (field body "hash")); cbn in Hw; [done|by injection Hw as <- _].
    + by injection Hw as <- _.
  - apply retried_success in Hr as (w & w' & Hw). unfold mbind, Op_bind, http_send, decoded, pass in Hw.
    destruct (send _ w) as [[f|response] w1] eqn:Hsend; [done|].
    destruct (read_value response w1) as [[msg|body] w2] eqn:Hread; [done|]. unfold submitted in Hw.
    destruct (is_success _) eqn:Hok; [|done]. destruct (as_str (field body "hash")) eqn:Hh; [|done]. injection Hw as <- _.
    split; [done|]. by exists w, response, w1, body, w2.
Qed.

(** A simulation whose answer has no transaction data - the node gives none when
    the transaction would fail - is reported as a malformed answer, and its error
    is lost. *)
Theorem failed_simulations_lose_their_error m tx options s result s1 :
  call_rpc sleep (tm_soroban_rpc m) "simulateTransaction" (json_object [("transaction", json_string tx)]) s = (inr result, s1) →
  as_str (field result "transactionData") = None → so_simulate_first options = true →
  submit_soroban_transaction sleep m tx options s = (inl (InvalidResponse "Missing transactionData in simulation"), s1).
Proof.
  intros Hcall Hdata Hfirst. unfold submit_soroban_transaction. rewrite Hfirst.
  unfold simulate_soroban_transaction, simulate_transaction, mbind, Op_bind, pass, simulated. by rewrite Hcall, Hdata.
Qed.

(** The last ledger of a query for events has no influence on it. *)
Theorem end_of_events_is_ignored c start end1 end2 ids topics :
  get_events sleep c start end1 ids topics = get_events sleep c start end2 ids topics.
Proof. reflexivity. Qed.

(** A health check says [true] or fails. *)
Lemma manager_health m s : (manager_health_check sleep m s).1 ≠ inr false.
Proof.
  destruct (manager_health_check sleep m s) as [r s'] eqn:Hr. cbn. intros ->.
  apply bind_inr in Hr as (a & s1 & _ & Hr). by apply bind_inr in Hr as (b & s2 & _ & Hr).
Qed.

(** The calls of a client are numbered one after the other; the attempts of a
    call share its number. *)
Lemma call_rpc_numbers c method params s :
  counters (call_rpc sleep c method params s).2 =
  <[sc_request_id c := (counters s (sc_request_id c) + 1) mod 2 ^ 64]> (counters s).
Proof.
  unfold call_rpc, mbind, Op_bind, next_request_id. match goal with |- counters (retried _ ?rs ?o ?s0).2 = _ =>
    destruct (retried_outcome rs o s0) as (n & r & w & _ & _ & ->) end. reflexivity.
Qed.

(** A client that was made has a valid configuration, and its two RPC clients
    number their calls apart. *)
Theorem clients_are_valid cfg s (bc : BlockchainClient R) s1 :
  new_client at_most_one cfg s = (inr bc, s1) →
  validate (F := F) at_most_one cfg = inr tt ∧ bc_config bc = cfg ∧ (0 < rs_max_retries (hc_retry_strategy (client_horizon bc)))%nat ∧
  sc_request_id (client_soroban_rpc bc) ≠ sc_request_id (mo_soroban_rpc (bc_transaction_monitor bc)) ∧
  counters s1 (sc_request_id (client_soroban_rpc bc)) = 1 ∧
  counters s1 (sc_request_id (mo_soroban_rpc (bc_transaction_monitor bc))) = 1.
Proof.
  unfold new_client, new_manager, new_monitor, new_horizon, new_soroban, mbind, Op_bind, mret, Op_ret, pass.
  destruct (validate at_most_one cfg) as [e|[]] eqn:Hval; [done|]. destruct (build _) as [e|u]; [done|].
  intros [= <- <-]. unfold validate in Hval. repeat case_bool_decide; try discriminate. cbn.
  split; [done|]. split; [done|]. split; [lia|]. split; [lia|].
  split; [rewrite fn_lookup_insert_ne by lia|]; apply fn_lookup_insert.
Qed.

(** *** Waiting *)

(** Time does not go backwards. *)
Definition time_passes : Prop := ∀ t, undisturbed (λ _, True) (λ w, t ≤ now w).

Lemma get_transaction_keeps (I : W → Prop) h tx : undisturbed (λ _, True) I →
  Keeps (I ∘ network_world) (get_transaction sleep h tx).
Proof.
  intros un. apply retried_keeps; [apply (un_sleep _ _ un)|]. apply keeps_bind; [by eapply http_send_keeps|].
  intros response. apply keeps_if.
  - apply keeps_bind; [|apply _]. apply decoded_keeps. intros w. apply (un_value _ _ un).
  - apply keeps_if; [apply _|]. apply keeps_bind; [by eapply error_text_keeps|apply _].
Qed.

Lemma soroban_get_transaction_keeps (I : W → Prop) c tx : undisturbed (λ _, True) I →
  Keeps (I ∘ network_world) (soroban_get_transaction sleep c tx).
Proof. intros un. apply keeps_bind; [by eapply call_rpc_keeps|apply _]. Qed.

(** The client's waiting for a transaction, with all the requests and retries it
    makes, ends with the fuel of [ClientMonitor.enough_polls]; it answers [true]
    only when the service reported success before the timeout, and otherwise the
    service reported a failure or the timeout has passed. *)
Theorem client_waiting_terminates (bc : BlockchainClient R) tx is_soroban s fuel :
  let mo := bc_transaction_monitor bc in
  let horizon := get_transaction sleep (mo_horizon mo) in
  let soroban := soroban_get_transaction sleep (mo_soroban_rpc mo) in
  let cfg := mo_config mo in
  time_passes → (∀ d w, now w + d ≤ now (sleep d w)) →
  0 ≤ tx_poll_interval_ms cfg → 0 ≤ tx_timeout_secs cfg → validate (F := F) at_most_one cfg = inr tt →
  (enough_polls (from_config cfg) ≤ fuel)%nat →
  ∃ b s', client_wait_for_confirmation sleep now bc tx is_soroban fuel s = Some (b, s') ∧
    if b then ∃ s1, Z.max 0 (session_now now s1 - session_now now s) < tx_timeout_secs cfg * 1000 ∧
                    reports_success horizon soroban tx is_soroban s1
    else (∃ s1, Z.max 0 (session_now now s1 - session_now now s) < tx_timeout_secs cfg * 1000 ∧
                reports_failure horizon soroban tx is_soroban s1) ∨
         tx_timeout_secs cfg * 1000 ≤ Z.max 0 (session_now now s' - session_now now s).
Proof.
  intros mo horizon soroban cfg Htime Hsleep Hi Ht Hval Hfuel.
  apply (waiting_terminates (session_now now) (session_sleep sleep) horizon soroban) with (at_most_one := at_most_one); try done.
  - intros h0 s0. apply (get_transaction_keeps (λ w, session_now now s0 ≤ now w) (mo_horizon mo) h0 (Htime _) s0), Z.le_refl.
  - intros h0 s0. apply (soroban_get_transaction_keeps (λ w, session_now now s0 ≤ now w) (mo_soroban_rpc mo) h0 (Htime _) s0), Z.le_refl.
  - intros d s0. apply Hsleep.
Qed.
End theorems.

(** ** A concrete network *)

Module Example.

(** JSON with whole numbers *)
Inductive JValue : Type :=
  | JNull | JBool (b : bool) | JNumber (z : Z) | JString (s : string)
  | JArray (l : list JValue) | JObject (l : list (string * JValue)).

Fixpoint find (key : string) (l : list (string * JValue)) : JValue :=
  match l with
  | [] => JNull
  | (k, v) :: rest => if String.eqb k key then v else find key rest
  end.

#[export] Instance JValue_json : Json JValue := {
  field v key := match v with JObject l => find key l | _ => JNull end;
  item v n := match v with JArray l => nth n l JNull | _ => JNull end;
  is_null v := match v with JNull => true | _ => false end;
  as_str v := match v with JString s => Some s | _ => None end;
  as_u64 v := match v with JNumber z => if 0 <=? z then Some z else None | _ => None end;
  as_bool v := match v with JBool b => Some b | _ => None end;
  as_array v := match v with JArray l => Some l | _ => None end;
  set_field key x v := match v with JObject l => JObject ((key, x) :: l) | _ => v end;
  json_string := JString;
  json_u64 := JNumber;
  json_array := JArray;
  json_object := JObject;
}.

(** The clock, and the requests that arrived, the last one first *)
Record Net : Type := mkNet { clock : Z; log : list (Request JValue) }.

Definition wait (d : Z) (w : Net) : Net := mkNet (clock w + Z.max 0 d) (log w).

(** The services: Horizon is busy until 150, and knows the transaction ["tx1"]
    only; a simulation of ["bad"] fails. *)
Definition answer (clock : Z) (request : Request JValue) : Z * JValue :=
  match request with
  | Get "h/transactions/tx1" =>
      (200, JObject [("hash", JString "tx1"); ("source_account", JString "alice"); ("successful", JBool true);
                     ("fee_charged", JString "-100"); ("operation_count", JNumber (2 ^ 32 + 1))])
  | Get _ => (404, JNull)
  | PostForm _ _ => if clock <? 150 then (503, JString "busy") else (200, JObject [("hash", JString "tx1")])
  | PostJson _ body =>
      if String.eqb (rq_method body) "simulateTransaction" then
        if String.eqb (match as_str (field (rq_params body) "transaction") with Some x => x | None => "" end) "bad"
        then (200, JObject [("error", JString "trap")])
        else (200, JObject [("transactionData", JString "data")])
      else if String.eqb (rq_method body) "getTransaction" then (200, JObject [("status", JString "NOT_FOUND")])
      else (200, JObject [("hash", JString "tx2")])
  end.

#[export] Instance example_http : Http Empty_set Net JValue := {
  Response := Z * JValue;
  build _ := inr tt;
  send request w := (inr (answer (clock w) request), mkNet (clock w + 10) (request :: log w));
  status r := r.1;
  is_success z := (200 <=? z) && (z <? 300);
  status_text z := pretty z;
  read_text r w := (None, w);
  read_value r w := (inr r.2, w);
  read_account r w := (inl "not an account", w);
  read_rpc r w := (inr (mkJsonRpcResponse "2.0" 1 (Some r.2) None), w);
}.

Definition config : BlockchainConfig Z := mkBlockchainConfig Custom "h" "r" "p" 30000 3 100 5000 2 1000 60.

(** The client, and the session it starts in *)
Definition client : BlockchainClient Z :=
  let strategy := strategy_from_config config in
  let horizon := mkHorizonClient "h" strategy config in
  mkBlockchainClient (mkTransactionManager horizon (mkSorobanRpcClient "r" strategy config 0) config)
    (mkTransactionMonitor horizon (mkSorobanRpcClient "r" strategy config 1) config) config.
Definition start : Session Net := mkSession 2 (λ _, 1) (mkNet 0 []).

(** The result, the clock and the number of requests *)
Definition outcome {A} (x : Result Empty_set A * Session Net) : Result Empty_set A * Z * nat :=
  (x.1, clock (network_world x.2), length (log (network_world x.2))).

Example new_example :
  (new_client (λ r, r <=? 1) config (mkSession 0 (λ _, 0) (mkNet 0 []))).1 = inr client.
Proof. reflexivity. Qed.

(** A busy Horizon answers 503 without a transaction code: this is no error that
    is retried. *)
Example busy_submission : outcome (client_submit_transaction wait client "xdr" start) =
  (inl (TransactionSubmissionError "Unknown error"), 10, 1%nat).
Proof. reflexivity. Qed.

Example found_transaction : ∃ d s, client_get_transaction wait client "tx1" start = (inr d, s) ∧
  td_status d = Success ∧ td_fee_charged d = Some (-100) ∧ td_operation_count d = Some 1.
Proof. eexists _, _. by vm_compute. Qed.

(** A transaction that Horizon does not know costs four requests and the delays
    between them; the RPC service says so at once. *)
Example missing_transaction :
  outcome (monitor_get_status wait (bc_transaction_monitor client) "tx9" false start) = (inl (MaxRetriesExceeded 3), 740, 4%nat) ∧
  outcome (monitor_get_status wait (bc_transaction_monitor client) "tx9" true start) = (inr NotFound, 10, 1%nat).
Proof. split; reflexivity. Qed.

(** What a failed simulation says is lost; a successful one is followed by
    Horizon under [submit_auto]. *)
Example failed_simulation :
  outcome (client_submit_soroban wait client "bad" default_submit_options start) =
    (inl (InvalidResponse "Missing transactionData in simulation"), 10, 1%nat).
Proof. reflexivity. Qed.

Example automatic_submission :
  let late := mkSession 2 (λ _, 1) (mkNet 200 []) in
  outcome (submit_auto wait (bc_transaction_manager client) "good" true late) = (inr "tx1", 220, 2%nat) ∧
  map submits (log (network_world (submit_auto wait (bc_transaction_manager client) "good" true late).2)) = [true; false].
Proof. split; reflexivity. Qed.

(** Numbers that [parse::<i64>] refuses, and those at its bounds *)
Example parsed_numbers :
  map parse_i64 [""; "+"; "-"; "+-1"; "12a"; "007"; "+5"; "9223372036854775807"; "9223372036854775808"; "-9223372036854775808"] =
  [None; None; None; None; None; Some 7; Some 5; Some (2 ^ 63 - 1); None; Some (- 2 ^ 63)].
Proof. reflexivity. Qed.

(** The hypotheses of the theorems on waiting and on missing transactions hold
    here. *)
Lemma net_time_passes : time_passes (F := Empty_set) (V := JValue) wait clock.
Proof. intros t. split; intros; unfold wait in *; cbn in *; lia. Qed.

Example waiting_for_tx1 :
  option_map fst (client_wait_for_confirmation wait clock client "tx1" false 62 start) = Some true ∧
  ∃ b s', client_wait_for_confirmation wait clock client "tx1" false 62 start = Some (b, s').
Proof.
  split; [reflexivity|].
  destruct (client_waiting_terminates wait clock (λ r, r <=? 1) client "tx1" false start 62 net_time_passes) as (b & s' & Hr & _);
    [intros d w; unfold wait; cbn; lia|cbn; lia|cbn; lia|reflexivity|vm_compute; lia|]. by exists b, s'.
Qed.

Example tx9_is_missing (s : Session Net) :
  (monitor_get_status wait (bc_transaction_monitor client) "tx9" false s).1 = inl (MaxRetriesExceeded 3).
Proof.
  apply (missing_transactions_are_not_reported wait (bc_transaction_monitor client) "tx9" s); [|reflexivity].
  intros w. by eexists _, _.
Qed.
End Example.
