(* ===== verification/Indexer.v ===== *)
(** * Indexer: the parallel event indexer (indexing_system/src/parallel_indexer.rs, with its queries of repository.rs)

    A dispatcher cuts the blocks that are not indexed yet into ranges, workers
    fetch their events in any order, and a commit loop writes them to the
    database, in the order of the blocks: the [StateManager] holds back what
    comes too early.  The tasks run concurrently; [pipeline_step] is their
    interleaving, one step between two points at which a task waits for another
    one.  A release build of this crate wraps on overflow. *)

From S2P Require Import Prelude.

(** ** Data *)

Definition wrap64 (z : Z) : Z := z mod 2 ^ 64.
(** [z as i64] and [z as i32] *)
Definition as_i64 (z : Z) : Z := (z + 2 ^ 63) mod 2 ^ 64 - 2 ^ 63.
Definition as_i32 (z : Z) : Z := (z + 2 ^ 31) mod 2 ^ 32 - 2 ^ 31.

(** [serde_json::Value], as far as the parser makes one *)
Inductive Value : Type :=
  | VBool (b : bool) | VString (s : string) | VArray (l : list Value) | VObject (l : list (string * Value)).

Record CreateEvent : Type := mkCreateEvent {
  ev_contract_address : string;
  ev_event_name : string;
  ev_block_number : Z;
  ev_transaction_hash : string;
  ev_log_index : Z;
  ev_event_data : Value;
}.

(** [F] are the errors of other crates. *)
Inductive IndexerError (F : Type) : Type :=
  | IE_Database (e : F) | IE_Cache (e : F) | IE_Rpc (msg : string) | IE_EventParsing (msg : string)
  | IE_Config (msg : string) | IE_Serialization (e : F) | IE_InvalidBlockRange (from to : Z)
  | IE_ContractNotFound (msg : string) | IE_EventNotFound (msg : string) | IE_Generic (msg : string).

Record IndexerConfig : Type := mkIndexerConfig {
  confirmations : Z;
  batch_size : Z;
  poll_interval : Z;
  max_retries : nat;
  retry_delay_ms : Z;
  enable_realtime : bool;
  worker_count : nat;
  backlog_alert_threshold : Z;
}.
Definition default_indexer_config : IndexerConfig := mkIndexerConfig 12 1000 12 3 1000 true 4 1000.

Record BlockRangeTask : Type := mkBlockRangeTask {
  bt_contract_address : string;
  bt_from_block : Z;
  bt_to_block : Z;
  bt_attempt : Z;
}.

Record BlockRangeResult : Type := mkBlockRangeResult {
  br_task : BlockRangeTask;
  br_events : list CreateEvent;
  br_elapsed_ms : Z;
}.

(** The contract, the first and the last block of a result *)
Definition br_contract (r : BlockRangeResult) : string := bt_contract_address (br_task r).
Definition br_from (r : BlockRangeResult) : Z := bt_from_block (br_task r).
Definition br_to (r : BlockRangeResult) : Z := bt_to_block (br_task r).

(** ** The state manager *)

Record StateManager : Type := mkStateManager {
  commit_frontier : gmap string Z;
  pending : gmap (string * Z) BlockRangeResult;
  reorg_signal : option Z;
}.
#[export] Instance StateManager_upd : Updatable StateManager := λ s,
  mkStateManager (commit_frontier s) (pending s) (reorg_signal s).

(** [StateManager::new] *)
Definition new_manager (initial_frontiers : list (string * Z)) : StateManager :=
  mkStateManager (foldl (λ m '(addr, block), <[addr := block]> m) ∅ initial_frontiers) ∅ None.

(** The loop of [register_result]: it takes one entry out of the map in each
    round, so it ends after at most as many rounds as there are entries. *)
Fixpoint drain (fuel : nat) (contract : string) (next : Z) (p : gmap (string * Z) BlockRangeResult) :
    list BlockRangeResult * Z * gmap (string * Z) BlockRangeResult :=
  match fuel with
  | O => ([], next, p)
  | S fuel =>
      match p !! (contract, next) with
      | Some r =>
          let '(ready, last, p) := drain fuel contract (wrap64 (br_to r + 1)) (delete (contract, next) p) in
          (r :: ready, last, p)
      | None => ([], next, p)
      end
  end.

(** Both locks are held from the insertion to the end. *)
Definition register_result (result : BlockRangeResult) (s : StateManager) : list BlockRangeResult * StateManager :=
  let contract := br_contract result in
  let p := <[(contract, br_from result) := result]> (pending s) in
  match commit_frontier s !! contract with
  | None => ([], s <| pending := p |>)
  | Some frontier =>
      let '(ready, next, p) := drain (size p) contract frontier p in
      (ready, mkStateManager (if next =? frontier then commit_frontier s else <[contract := next]> (commit_frontier s))
                p (reorg_signal s))
  end.

Definition signal_reorg (block : Z) (s : StateManager) : StateManager := s <| reorg_signal := Some block |>.
Definition clear_reorg (s : StateManager) : StateManager := s <| reorg_signal := None |>.

Definition rollback_to (reorg_block : Z) (s : StateManager) : StateManager :=
  mkStateManager ((λ frontier, if reorg_block <? frontier then reorg_block else frontier) <$> commit_frontier s)
    (filter (λ e : (string * Z) * BlockRangeResult, e.1.2 < reorg_block) (pending s)) (reorg_signal s).

(** ** The dispatcher *)

(** The loop that cuts a contract's blocks into ranges; [None] is running out
    of fuel. *)
Fixpoint batches (fuel : nat) (contract : string) (size tip batch_start : Z) : option (list BlockRangeTask) :=
  match fuel with
  | O => None
  | S fuel =>
      if batch_start <=? tip then
        let batch_end := Z.min (wrap64 (wrap64 (batch_start + size) - 1)) tip in
        rest ← batches fuel contract size tip (wrap64 (batch_end + 1));
        Some (mkBlockRangeTask contract batch_start batch_end 0 :: rest)
      else Some []
  end.

(** [(metadata.last_indexed_block + 1) as u64] *)
Definition next_block (last_indexed_block : Z) : Z := wrap64 (last_indexed_block + 1).

Definition confirmed_tip (c : IndexerConfig) (current_block : Z) : Z := Z.max 0 (current_block - confirmations c).

(** The tasks of one round, in the order in which they are sent *)
Fixpoint dispatch_tasks (fuel : nat) (c : IndexerConfig) (tip : Z) (metadata_list : list (string * Z)) :
    option (list BlockRangeTask) :=
  match metadata_list with
  | [] => Some []
  | (contract, last_indexed_block) :: rest =>
      tasks ← batches fuel contract (batch_size c) tip (next_block last_indexed_block);
      others ← dispatch_tasks fuel c tip rest;
      Some (tasks ++ others)
  end.

Definition total_backlog (tip : Z) (metadata_list : list (string * Z)) : Z :=
  foldr (λ '(_, last_indexed_block) total,
    let from := next_block last_indexed_block in
    wrap64 (total + (if from <=? tip then tip - from + 1 else 0))) 0 metadata_list.

(** ** The tables (repository.rs) *)

(** A row of [indexing_metadata]; its identifier and times are left out. *)
Record IndexingMetadata : Type := mkIndexingMetadata {
  im_last_indexed_block : Z;
  im_is_active : bool;
}.

(** The tables by their unique keys: [contract_address], and
    [(transaction_hash, log_index)]. *)
Record Database : Type := mkDatabase {
  db_metadata : gmap string IndexingMetadata;
  db_events : gmap (string * Z) CreateEvent;
}.
#[export] Instance Database_upd : Updatable Database := λ d, mkDatabase (db_metadata d) (db_events d).

Definition event_key (e : CreateEvent) : string * Z := (ev_transaction_hash e, as_i32 (ev_log_index e)).

(** [ON CONFLICT DO NOTHING] *)
Definition insert_event (e : CreateEvent) (events : gmap (string * Z) CreateEvent) : gmap (string * Z) CreateEvent :=
  match events !! event_key e with Some _ => events | None => <[event_key e := e]> events end.
Definition insert_events (es : list CreateEvent) (events : gmap (string * Z) CreateEvent) :
    gmap (string * Z) CreateEvent :=
  foldl (λ m e, insert_event e m) events es.

(** [events.chunks(1000)] *)
Fixpoint chunks (fuel : nat) (es : list CreateEvent) : list (list CreateEvent) :=
  match fuel, es with
  | S fuel, _ :: _ => take 1000 es :: chunks fuel (drop 1000 es)
  | _, _ => []
  end.

(** The statements of [create_events_batch]; the database may fail at one. *)
Fixpoint insert_chunks (fault : option nat) (cs : list (list CreateEvent)) (d : Database) : bool * Database :=
  match cs with
  | [] => (true, d)
  | c :: rest =>
      match fault with
      | Some O => (false, d)
      | _ => insert_chunks (Nat.pred <$> fault) rest (d <| db_events := insert_events c (db_events d) |>)
      end
  end.

Definition create_events_batch (fault : option nat) (es : list CreateEvent) (d : Database) : bool * Database :=
  insert_chunks fault (chunks (length es) es) d.

Definition update_metadata (contract : string) (last_block : Z) (d : Database) : Database :=
  match db_metadata d !! contract with
  | Some m => d <| db_metadata := <[contract := mkIndexingMetadata (as_i64 last_block) (im_is_active m)]> (db_metadata d) |>
  | None => d
  end.

Definition get_or_create_metadata (contract : string) (start_block : Z) (d : Database) : Database :=
  match db_metadata d !! contract with
  | Some _ => d
  | None => d <| db_metadata := <[contract := mkIndexingMetadata (as_i64 start_block) true]> (db_metadata d) |>
  end.

Definition delete_events_from_block (block : Z) (d : Database) : Database :=
  d <| db_events := filter (λ e : (string * Z) * CreateEvent, as_i64 (ev_block_number e.2) < as_i64 block) (db_events d) |>.

(** The rows of [get_active_metadata]; the query orders them by contract, which
    nothing depends on. *)
Definition active_metadata (d : Database) : list (string * Z) :=
  omap (λ e : string * IndexingMetadata, if im_is_active e.2 then Some (e.1, im_last_indexed_block e.2) else None)
    (map_to_list (db_metadata d)).

(** ** The indexer *)

(** The state manager of [ParallelIndexer::new] *)
Definition resume (d : Database) : StateManager :=
  new_manager (map (λ '(contract, last_indexed_block), (contract, next_block last_indexed_block)) (active_metadata d)).

(** [frontier_map.entry(contract).or_insert(start_block)] *)
Definition add_frontier (contract : string) (start_block : Z) (s : StateManager) : StateManager :=
  match commit_frontier s !! contract with
  | Some _ => s
  | None => s <| commit_frontier := <[contract := start_block]> (commit_frontier s) |>
  end.

(** What the database does with a batch: the insertion that fails, if one does,
    and whether the update fails. *)
Record Faults : Type := mkFaults {
  ft_insert : option nat;
  ft_update : bool;
}.
Definition no_faults : Faults := mkFaults None false.

(** The body of the commit loop's inner loop; the calls of the cache, whose
    results are ignored, are left out. *)
Definition commit_batch (f : Faults) (batch : BlockRangeResult) (d : Database) : Database :=
  let advance d := if ft_update f then d else update_metadata (br_contract batch) (br_to batch) d in
  match br_events batch with
  | [] => advance d
  | es => let '(ok, d) := create_events_batch (ft_insert f) es d in if ok then advance d else d
  end.

(** [handle_reorg], when the database does not fail *)
Definition handle_reorg (reorg_block : Z) (s : StateManager) (d : Database) : StateManager * Database :=
  let s := rollback_to reorg_block (signal_reorg reorg_block s) in
  let d := delete_events_from_block reorg_block d in
  let d := foldl (λ d '(contract, last_indexed_block),
             if as_i64 reorg_block <=? last_indexed_block then update_metadata contract (Z.max 0 (reorg_block - 1)) d
             else d) d (active_metadata d) in
  (clear_reorg s, d).

Section pipeline.
Context {F W : Type} (config : IndexerConfig)
        (process : BlockRangeTask → W → (IndexerError F + list CreateEvent) * W)
        (sleep : Z → W → W) (elapsed : W → W → Z) (max_block : Z).

(** A worker's attempts: [more] after this one *)
Fixpoint attempt_task (more attempt : nat) (task : BlockRangeTask) (w : W) :
    (IndexerError F + list CreateEvent) * W :=
  let w := match attempt with
           | O => w
           | S n => sleep (wrap64 (retry_delay_ms config * wrap64 (2 ^ Z.of_nat n))) w
           end in
  match process task w with
  | (inr events, w) => (inr events, w)
  | (inl e, w) => match more with O => (inl e, w) | S more => attempt_task more (S attempt) task w end
  end.

Definition work (task : BlockRangeTask) (w : W) : (IndexerError F + BlockRangeResult) * W :=
  match attempt_task (max_retries config) 0 task w with
  | (inr events, w') => (inr (mkBlockRangeResult task events (elapsed w w')), w')
  | (inl e, w') => (inl e, w')
  end.

Inductive Dispatcher : Type :=
  | Idle | Polled (metadata_list : list (string * Z)) | Sending (tasks : list BlockRangeTask).

Record Pipeline : Type := mkPipeline {
  pl_manager : StateManager;
  pl_database : Database;
  pl_dispatcher : Dispatcher;
  pl_tasks : list BlockRangeTask;                              (* the channel of tasks *)
  pl_working : list BlockRangeTask;                            (* one for each busy worker *)
  pl_results : list (IndexerError F + BlockRangeResult);       (* the channel of results *)
  pl_ready : list BlockRangeResult;                            (* what the commit loop is writing *)
  pl_registering : list (string * Z);                          (* calls of [register_contract] half done *)
}.
#[local] Instance Pipeline_upd : Updatable Pipeline := λ p,
  mkPipeline (pl_manager p) (pl_database p) (pl_dispatcher p) (pl_tasks p) (pl_working p) (pl_results p) (pl_ready p)
    (pl_registering p).

(** [new] and [start]; the chain never has more than [max_block] blocks *)
Definition started (d : Database) : Pipeline := mkPipeline (resume d) d Idle [] [] [] [] [].

Inductive pipeline_step : Faults → Pipeline → Pipeline → Prop :=
  | step_poll f p ms :
      pl_dispatcher p = Idle → ms ≡ₚ active_metadata (pl_database p) →
      pipeline_step f p (p <| pl_dispatcher := Polled ms |>)
  | step_plan f p ms fuel current_block tasks :
      pl_dispatcher p = Polled ms → 0 ≤ current_block ≤ max_block →
      dispatch_tasks fuel config (confirmed_tip config current_block) ms = Some tasks →
      pipeline_step f p (p <| pl_dispatcher := Sending tasks |>)
  | step_send f p task rest :
      pl_dispatcher p = Sending (task :: rest) → (length (pl_tasks p) < 2 * worker_count config)%nat →
      pipeline_step f p (p <| pl_dispatcher := Sending rest |> <| pl_tasks := (pl_tasks p ++ [task]) |>)
  | step_round f p :
      pl_dispatcher p = Sending [] → pipeline_step f p (p <| pl_dispatcher := Idle |>)
  | step_take f p task rest :
      pl_tasks p = task :: rest → (length (pl_working p) < worker_count config)%nat →
      reorg_signal (pl_manager p) = None →
      pipeline_step f p (p <| pl_tasks := rest |> <| pl_working := (task :: pl_working p) |>)
  | step_work f p before task after w r w' :
      pl_working p = before ++ task :: after → (length (pl_results p) < 4 * worker_count config)%nat →
      work task w = (r, w') →
      pipeline_step f p (p <| pl_working := (before ++ after) |> <| pl_results := (pl_results p ++ [r]) |>)
  | step_failed f p e rest :
      pl_results p = inl e :: rest → pl_ready p = [] →
      pipeline_step f p (p <| pl_results := rest |>)
  | step_result f p r rest ready s :
      pl_results p = inr r :: rest → pl_ready p = [] → register_result r (pl_manager p) = (ready, s) →
      pipeline_step f p (p <| pl_results := rest |> <| pl_manager := s |> <| pl_ready := ready |>)
  | step_commit f p batch rest :
      pl_ready p = batch :: rest →
      pipeline_step f p (p <| pl_ready := rest |> <| pl_database := (commit_batch f batch (pl_database p)) |>)
  | step_register f p contract start :
      pipeline_step f p (p <| pl_database := (get_or_create_metadata contract start (pl_database p)) |>
                           <| pl_registering := ((contract, start) :: pl_registering p) |>)
  | step_registered f p before contract start after :
      pl_registering p = before ++ (contract, start) :: after →
      pipeline_step f p (p <| pl_manager := (add_frontier contract start (pl_manager p)) |>
                           <| pl_registering := (before ++ after) |>).

(** Runs whose steps satisfy [ok] *)
Inductive pipeline_run (ok : Faults → Pipeline → Prop) : Pipeline → Pipeline → Prop :=
  | run_refl p : pipeline_run ok p p
  | run_step f p q r : pipeline_run ok p q → pipeline_step f q r → ok f r → pipeline_run ok p r.
Definition faultless (f : Faults) (p : Pipeline) : Prop := f = no_faults.
End pipeline.
