(* ===== verification/IndexerSafety.v ===== *)
(** * IndexerSafety: what the parallel event indexer promises

    Whatever the workers do, results are committed in the order of the blocks;
    the database holds exactly the events of the blocks that count as indexed,
    as long as it does not fail; what happens when it does, to contracts
    registered while the indexer runs, and in a reorganisation. *)

From S2P Require Import Prelude.
From S2P Require Import Indexer.

(** ** Consecutive ranges *)

(** The ranges of [l] are not empty and fill the blocks from [a] to before [b]. *)
Inductive tiles : Z → Z → list (Z * Z) → Prop :=
  | tiles_nil a : tiles a a []
  | tiles_cons a t b l : a ≤ t → tiles (t + 1) b l → tiles a b ((a, t) :: l).

Definition task_range (t : BlockRangeTask) : Z * Z := (bt_from_block t, bt_to_block t).
Definition ranges (l : list BlockRangeResult) : list (Z * Z) := map (λ r, task_range (br_task r)) l.

Lemma tiles_le a b l : tiles a b l → a ≤ b.
Proof. induction 1; lia. Qed.

Lemma tiles_head a b r l :
  tiles a b (ranges (r :: l)) → br_from r = a ∧ a ≤ br_to r ∧ tiles (br_to r + 1) b (ranges l).
Proof. intros H. by inversion H. Qed.

Lemma tiles_app a b l1 l2 : tiles a b (l1 ++ l2) ↔ ∃ m, tiles a m l1 ∧ tiles m b l2.
Proof.
  split.
  - revert a. induction l1 as [|x l1 IH]; intros a H; cbn in H; [by exists a; split; [constructor|]|].
    inversion H as [|? t ? ? Ha Hl]; subst. apply IH in Hl as (m & H1 & H2). exists m. by split; [constructor|].
  - intros (m & H1 & H2). induction H1; [done|]. cbn. constructor; [done|auto].
Qed.

Lemma tiles_elem a b l f t : tiles a b l → (f, t) ∈ l → a ≤ f ∧ f ≤ t ∧ t < b.
Proof.
  induction 1 as [|a t' b l Ha Hl IH]; [by intros ?%elem_of_nil|]. apply tiles_le in Hl as Hb.
  intros [[= -> ->]|Hin]%elem_of_cons; [lia|]. specialize (IH Hin). lia.
Qed.

Lemma range_elem r l : r ∈ l → (br_from r, br_to r) ∈ ranges l.
Proof. intros H. apply list_elem_of_fmap. by exists r. Qed.

(** In consecutive ranges a result is known by its first block. *)
Lemma tiles_same_from a b l r r' : tiles a b (ranges l) → r ∈ l → r' ∈ l → br_from r = br_from r' → r = r'.
Proof.
  revert a. induction l as [|x l IH]; intros a H Hr Hr' Hf; [by apply elem_of_nil in Hr|].
  inversion H as [|? t ? ? Ha Hl]; subst. change (br_from x) with (bt_from_block (br_task x)) in *.
  assert (Hpast : ∀ y, y ∈ l → bt_from_block (br_task x) < br_from y).
  { intros y Hy. apply range_elem in Hy. pose proof (tiles_elem _ _ _ _ _ Hl Hy). lia. }
  apply elem_of_cons in Hr as [->|Hr]; apply elem_of_cons in Hr' as [->|Hr']; [done|..|by eapply IH];
    match goal with Hy : _ ∈ l |- _ => specialize (Hpast _ Hy) end; unfold br_from in *; lia.
Qed.

Lemma tiles_NoDup a b l : tiles a b (ranges l) → NoDup l.
Proof.
  revert a. induction l as [|x l IH]; intros a Ht; [constructor|].
  inversion Ht as [|? ? ? ? Ha Hl]; subst. constructor; [|by eapply IH]. intros Hx%range_elem.
  pose proof (tiles_elem _ _ _ _ _ Hl Hx). unfold br_from, br_to in *. lia.
Qed.

(** ** Cutting blocks into ranges *)

Lemma wrap64_small z : 0 ≤ z < 2 ^ 64 → wrap64 z = z.
Proof. apply Z.mod_small. Qed.

Lemma as_i64_small z : - 2 ^ 63 ≤ z < 2 ^ 63 → as_i64 z = z.
Proof. intros H. unfold as_i64. rewrite Z.mod_small; lia. Qed.

Section batches.
Context (contract : string) (size tip : Z) (Hsize : 1 ≤ size) (Htip : tip + size < 2 ^ 64).

(** The ranges of a contract are consecutive, of at most the configured size,
    and reach from its first block to the tip. *)
Lemma batches_tile fuel start ts :
  0 ≤ start → batches fuel contract size tip start = Some ts →
  tiles start (Z.max start (tip + 1)) (map task_range ts) ∧
  Forall (λ t, bt_contract_address t = contract ∧ bt_to_block t - bt_from_block t < size) ts.
Proof using Hsize Htip.
  revert start ts. induction fuel as [|fuel IH]; intros start ts Hs H; [done|]. cbn [batches] in H.
  destruct (Z.leb_spec start tip) as [Hle|Hgt];
    [|injection H as <-; rewrite Z.max_l by lia; by split; [constructor|]].
  rewrite (wrap64_small (start + size)), (wrap64_small (start + size - 1)) in H by lia.
  rewrite wrap64_small in H by lia. destruct (batches fuel _ _ _ _) as [rest|] eqn:Hr; [|done]. injection H as <-.
  apply IH in Hr as [Ht Hf]; [|lia]. rewrite fmap_cons. split.
  - apply tiles_cons; [cbn [bt_to_block bt_from_block]; lia|]. by replace (Z.max start (tip + 1)) with
      (Z.max (Z.min (start + size - 1) tip + 1) (tip + 1)) by lia.
  - constructor; [|done]. cbn. split; [done|lia].
Qed.

(** The loop ends. *)
Lemma batches_total fuel start :
  0 ≤ start → Z.max 0 (tip + 1 - start) < Z.of_nat fuel → is_Some (batches fuel contract size tip start).
Proof using Hsize Htip.
  revert start. induction fuel as [|fuel IH]; intros start Hs Hf; [lia|]. cbn [batches].
  destruct (Z.leb_spec start tip) as [Hle|]; [|by eexists].
  rewrite (wrap64_small (start + size)), (wrap64_small (start + size - 1)), wrap64_small by lia.
  destruct (IH (Z.min (start + size - 1) tip + 1)) as [rest ->]; [lia..|]. by eexists.
Qed.
End batches.

(** ** The state manager *)

(** Pending results are stored under their contract and first block. *)
Definition keyed (p : gmap (string * Z) BlockRangeResult) : Prop :=
  ∀ k r, p !! k = Some r → k = (br_contract r, br_from r).

(** What [p] holds of [contract]: the results of [l] that satisfy [D]. *)
Definition holds_of (contract : string) (p : gmap (string * Z) BlockRangeResult) (D : BlockRangeResult → Prop)
    (l : list BlockRangeResult) : Prop :=
  ∀ f r, p !! (contract, f) = Some r ↔ D r ∧ r ∈ l ∧ br_from r = f.

(** The loop takes the results that are there, up to the first that is not. *)
Lemma drain_prefix contract D rest : ∀ fuel a b p,
  tiles a b (ranges rest) → b ≤ U64_MAX → 0 ≤ a → holds_of contract p D rest → (size p ≤ fuel)%nat →
  ∃ l1 l2 m p', rest = l1 ++ l2 ∧ drain fuel contract a p = (l1, m, p') ∧
    tiles a m (ranges l1) ∧ tiles m b (ranges l2) ∧ holds_of contract p' D l2 ∧
    Forall D l1 ∧ (∀ r, head l2 = Some r → ¬ D r).
Proof.
  assert (Hstop : ∀ rest fuel a b p, tiles a b (ranges rest) → holds_of contract p D rest → (size p ≤ fuel)%nat →
    p !! (contract, a) = None → drain fuel contract a p = ([], a, p) ∧ ∀ r, head rest = Some r → ¬ D r).
  { intros l fuel a b p Ht Hp Hf Hl. split; [destruct fuel; cbn; by rewrite ?Hl|]. intros r Hr HD.
    destruct l as [|x l]; [done|]. injection Hr as ->. inversion Ht; subst.
    enough (p !! (contract, br_from r) = Some r) by (unfold br_from in *; congruence).
    apply Hp. by split; [|split; [left|]]. }
  induction rest as [|x rest IH]; intros fuel a b p Ht Hb Ha Hp Hf; destruct (p !! (contract, a)) as [r|] eqn:Hr.
  - apply Hp in Hr as (_ & Hr & _). by apply elem_of_nil in Hr.
  - exists [], [], a, p. destruct (Hstop [] fuel a b p) as [-> Hn]; [done..|]. split_and!; try done. constructor.
  - destruct fuel as [|fuel]; [assert (size p = 0%nat) as ->%map_size_empty_inv by lia; by rewrite lookup_empty in Hr|].
    apply Hp in Hr as Hx. destruct Hx as (HD & Hin & Hfr). unfold br_from in Hfr.
    inversion Ht as [|? t ? ? Hat Hl]; subst. apply tiles_le in Hl as Hle.
    assert (r = x) as -> by (eapply (tiles_same_from _ _ (x :: rest)); [exact Ht|done|left|done]).
    cbn [drain]. unfold br_to. rewrite Hr, wrap64_small by (change U64_MAX with (2 ^ 64 - 1) in Hb; lia).
    destruct (IH fuel (bt_to_block (br_task x) + 1) b (delete (contract, bt_from_block (br_task x)) p))
      as (l1 & l2 & m & p' & -> & -> & Ht1 & Ht2 & Hh & HD1 & Hn); [done|done|lia|..].
    + intros f r. rewrite lookup_delete_Some, (Hp f r), elem_of_cons. split.
      * intros (Hne & HDr & [->|Hinr] & Hfrr); [|done]. by destruct Hne; rewrite <- Hfrr.
      * intros (HDr & Hinr & Hfrr). split_and!; [|done|by right|done]. intros [= Heq].
        apply range_elem in Hinr. pose proof (tiles_elem _ _ _ _ _ Hl Hinr). lia.
    + erewrite map_size_delete_Some by done. lia.
    + exists (x :: l1), l2, m, p'. by split_and!; try done; constructor.
  - exists [], (x :: rest), a, p. destruct (Hstop (x :: rest) fuel a b p) as [-> Hn]; [done..|].
    split_and!; try done. constructor.
Qed.

Lemma drain_keyed contract fuel : ∀ a p l m p',
  keyed p → drain fuel contract a p = (l, m, p') →
  Forall (λ r, br_contract r = contract ∧ p !! (contract, br_from r) = Some r) l ∧ p' ⊆ p ∧
  ∀ x f, x ≠ contract → p' !! (x, f) = p !! (x, f).
Proof.
  induction fuel as [|fuel IH]; intros a p l m p' Hp H; cbn [drain] in H; [by injection H as <- <- <-|].
  destruct (p !! (contract, a)) as [r|] eqn:Hr; [|by injection H as <- <- <-].
  destruct (drain fuel _ _ _) as [[l' m'] q] eqn:Hd. injection H as <- <- <-.
  apply IH in Hd as (Hl & Hq & Ho); [|by intros k x [_ Hx]%lookup_delete_Some; apply Hp].
  pose proof (Hp _ _ Hr) as [= -> ->].
  split_and!; [|etrans; [exact Hq|apply delete_subseteq]|by intros x f Hx; rewrite Ho, lookup_delete_ne by congruence].
  constructor; [done|]. eapply Forall_impl; [exact Hl|]. intros x [Hc Hx]. split; [done|].
  by apply lookup_delete_Some in Hx as [_ Hx].
Qed.

Lemma keyed_sub p p' : keyed p → p' ⊆ p → keyed p'.
Proof. intros Hp Hs k r Hr. apply Hp. by eapply lookup_weaken. Qed.

Lemma keyed_insert p r : keyed p → keyed (<[(br_contract r, br_from r) := r]> p).
Proof. intros Hp k x [[<- <-]|[_ Hx]]%lookup_insert_Some; [done|]. by apply Hp. Qed.

(** The loop of the commits, without the database *)
Fixpoint register_all (rs : list BlockRangeResult) (s : StateManager) : list BlockRangeResult * StateManager :=
  match rs with
  | [] => ([], s)
  | r :: rest =>
      let '(ready, s) := register_result r s in
      let '(more, s) := register_all rest s in
      (ready ++ more, s)
  end.

Section order.
Context (contract : string) (first last : Z) (l : list BlockRangeResult).
Context (Hfirst : 0 ≤ first) (Hlast : last ≤ U64_MAX) (Htiles : tiles first last (ranges l))
        (Hown : Forall (λ r, br_contract r = contract) l).

Abbreviation mine := (λ r : BlockRangeResult, br_contract r = contract).

(** The results [registered] have come in; [committed] are those that were
    handed on, [left] the others. *)
Record progress (registered committed left : list BlockRangeResult) (s : StateManager) : Prop := {
  pr_all : l = committed ++ left;
  pr_frontier : ∃ a, commit_frontier s !! contract = Some a ∧ tiles first a (ranges committed) ∧
                     tiles a last (ranges left);
  pr_pending : holds_of contract (pending s) (λ r, r ∈ registered) left;
  pr_committed : ∀ r, r ∈ committed → r ∈ registered;
  pr_next : ∀ r, head left = Some r → r ∉ registered;
  pr_keyed : keyed (pending s);
}.

Lemma register_own r registered committed left s ready s' :
  progress registered committed left s → r ∈ l → r ∉ registered → register_result r s = (ready, s') →
  ∃ left', left = ready ++ left' ∧ progress (r :: registered) (committed ++ ready) left' s'.
Proof using Hfirst Hlast Htiles Hown.
  intros [Hall (a & Ha & H1 & H2) Hp Hc Hn Hk] Hin Hnew H.
  assert (br_contract r = contract) as Hr by (by eapply (proj1 (Forall_forall _ _)) in Hown).
  assert (r ∈ left) as Hleft.
  { rewrite Hall in Hin. apply elem_of_app in Hin as [Hin|Hin]; [by apply Hc in Hin|done]. }
  unfold register_result in H. rewrite Hr, Ha in H. apply tiles_le in H1 as Hle.
  pose proof (keyed_insert _ r Hk) as Hk'. rewrite Hr in Hk'.
  destruct (drain_prefix contract (λ x, x ∈ r :: registered) left
              (size (<[(contract, br_from r) := r]> (pending s))) a last (<[(contract, br_from r) := r]> (pending s))) as
    (l1 & l2 & m & p' & Hl & Hd & Ht1 & Ht2 & Hh & HD & Hne); [exact H2|done|lia| |reflexivity|].
  { intros f x. rewrite lookup_insert_Some, (Hp f x), elem_of_cons. split.
    - intros [[[= <-] <-]|(Hne & Hx & Hxl & Hf)]; [by split; [left|]|by split; [right|]].
    - intros ([->|Hx] & Hxl & <-); [by left|]. destruct (decide (br_from r = br_from x)) as [He|He].
      + left. split; [by rewrite He|]. by eapply tiles_same_from.
      + right. split; [congruence|by split]. }
  rewrite Hd in H. injection H as <- <-. exists l2. split; [done|]. apply drain_keyed in Hd as (_ & Hsub & _); [|done].
  rewrite Hl in Hall. split; cbn.
  - by rewrite <- app_assoc.
  - exists m. split.
    + destruct (Z.eqb_spec m a) as [->|]; [done|]. by rewrite lookup_insert_eq.
    + split; [|done]. unfold ranges. rewrite fmap_app. apply tiles_app. by exists a.
  - done.
  - intros x [Hx|Hx]%elem_of_app; [right; by apply Hc|]. rewrite Forall_forall in HD. by apply HD.
  - done.
  - by eapply keyed_sub.
Qed.

Lemma register_other r registered committed left s ready s' :
  progress registered committed left s → br_contract r ≠ contract → register_result r s = (ready, s') →
  filter mine ready = [] ∧ progress registered committed left s'.
Proof.
  intros [Hall (a & Ha & H1 & H2) Hp Hc Hn Hk] Hr H. unfold register_result in H.
  pose proof (keyed_insert _ r Hk) as Hk'.
  assert (Hsame : ∀ p' f', keyed p' → (∀ f, p' !! (contract, f) = pending s !! (contract, f)) →
    f' !! contract = Some a → progress registered committed left (mkStateManager f' p' (reorg_signal s))).
  { intros p' f' Hkp He Hf. split; cbn; try done; [by exists a|]. intros f x. rewrite He. apply Hp. }
  assert (Hins : ∀ f, <[(br_contract r, br_from r) := r]> (pending s) !! (contract, f) = pending s !! (contract, f))
    by (intros f; apply lookup_insert_ne; congruence).
  destruct (commit_frontier s !! br_contract r) as [b|]; [|injection H as <- <-; split; [done|by apply Hsame]].
  destruct (drain _ _ _ _) as [[l' m] p'] eqn:Hd. injection H as <- <-.
  apply drain_keyed in Hd as (Hl & Hsub & Ho); [|done]. split.
  - clear -Hl Hr. induction Hl as [|x l' [Hx _] Hl IH]; [done|]. rewrite filter_cons_False by congruence. exact IH.
  - apply Hsame; [by eapply keyed_sub| |].
    + intros f. rewrite Ho by congruence. apply Hins.
    + destruct (_ =? _); [done|]. rewrite lookup_insert_ne by congruence. done.
Qed.

Lemma register_all_progress rs : ∀ s registered committed left handed s',
  progress registered committed left s → NoDup l → filter mine rs ++ registered ≡ₚ l →
  register_all rs s = (handed, s') →
  ∃ left' registered', left = filter mine handed ++ left' ∧ registered' ≡ₚ l ∧
    progress registered' (committed ++ filter mine handed) left' s'.
Proof using Hfirst Hlast Htiles Hown.
  induction rs as [|r rs IH]; intros s registered committed left handed s' Hs Hn Hrs H; cbn [register_all] in H.
  - injection H as <- <-. exists left, registered. rewrite filter_nil, app_nil_r. by split_and!.
  - destruct (register_result r s) as [ready s1] eqn:H1. destruct (register_all rs s1) as [more s2] eqn:H2.
    injection H as <- <-. rewrite filter_app. destruct (decide (br_contract r = contract)) as [Hr|Hr].
    + rewrite filter_cons_True in Hrs by done.
      assert (Hin : r ∈ l) by (rewrite <- Hrs; left).
      assert (Hnew : r ∉ registered).
      { rewrite <- Hrs in Hn. cbn in Hn. apply NoDup_cons in Hn as [Hn _]. intros Hx. apply Hn, elem_of_app. by right. }
      destruct (register_own _ _ _ _ _ _ _ Hs Hin Hnew H1) as (left' & Hl & Hp).
      apply (IH _ _ _ _ _ _ Hp Hn) in H2 as (left2 & reg2 & -> & Hreg & Hp2);
        [|by rewrite <- Hrs; cbn; rewrite Permutation_middle].
      assert (filter mine ready = ready) as Hready.
      { apply pr_all in Hs. rewrite Hs, Hl in Hown. apply Forall_app in Hown as [_ Ho].
        apply Forall_app in Ho as [Ho _]. clear -Ho. induction Ho as [|x y Hx Ho IH]; [done|].
        by rewrite filter_cons_True, IH by done. }
      exists left2, reg2. rewrite Hready. rewrite <- app_assoc in Hp2. split_and!; [by rewrite Hl, <- app_assoc|done|done].
    + rewrite filter_cons_False in Hrs by done. destruct (register_other _ _ _ _ _ _ _ Hs Hr H1) as [-> Hp].
      cbn. by eapply IH.
Qed.
End order.

(** A result that does not start at the frontier releases nothing of its
    contract while nothing is pending there. *)
Lemma register_waits contract front r s ready s' :
  keyed (pending s) → commit_frontier s !! contract = Some front → pending s !! (contract, front) = None →
  (br_contract r = contract → br_from r ≠ front) → register_result r s = (ready, s') →
  filter (λ r, br_contract r = contract) ready = [] ∧ keyed (pending s') ∧
  commit_frontier s' !! contract = Some front ∧ pending s' !! (contract, front) = None.
Proof.
  intros Hk Hf Hp Hr H. unfold register_result in H. pose proof (keyed_insert _ r Hk) as Hk'.
  assert (Hne : <[(br_contract r, br_from r) := r]> (pending s) !! (contract, front) = None).
  { rewrite lookup_insert_ne; [done|]. intros [= Hc Hfr]. by apply Hr. }
  destruct (decide (br_contract r = contract)) as [Hc|Hc].
  - rewrite Hc, Hf in H. rewrite Hc in *. destruct (size _) as [|fuel]; cbn [drain] in H; rewrite ?Hne, Z.eqb_refl in H;
      injection H as <- <-; by split_and!.
  - destruct (commit_frontier s !! br_contract r) as [a|] eqn:Ha; [|injection H as <- <-; by split_and!].
    destruct (drain _ _ _ _) as [[out m] p'] eqn:Hd. injection H as <- <-.
    apply drain_keyed in Hd as (Hl & Hsub & Ho); [|done]. split_and!; cbn.
    + rewrite Forall_forall in Hl. clear -Hl Hc. induction out as [|x out IH]; [done|].
      destruct (Hl x) as [Hx _]; [left|]. rewrite filter_cons_False by congruence. apply IH. intros y Hy. apply Hl. by right.
    + by eapply keyed_sub.
    + destruct (_ =? _); [done|]. by rewrite lookup_insert_ne.
    + by rewrite Ho by congruence.
Qed.

Lemma register_all_waits contract front rs : ∀ s handed s',
  keyed (pending s) → commit_frontier s !! contract = Some front → pending s !! (contract, front) = None →
  (∀ r, r ∈ rs → br_contract r = contract → br_from r ≠ front) → register_all rs s = (handed, s') →
  filter (λ r, br_contract r = contract) handed = [] ∧ commit_frontier s' !! contract = Some front.
Proof.
  induction rs as [|r rs IH]; intros s handed s' Hk Hf Hp Hrs H; cbn [register_all] in H; [by injection H as <- <-|].
  destruct (register_result r s) as [ready s1] eqn:H1. destruct (register_all rs s1) as [more s2] eqn:H2. injection H as <- <-.
  apply (register_waits contract front) in H1 as (Hready & Hk1 & Hf1 & Hp1); [|done..|apply Hrs; left].
  destruct (IH _ _ _ Hk1 Hf1 Hp1 (λ x Hx, Hrs x (list_elem_of_further _ _ _ Hx)) H2) as [Hmore Hf2].
  by rewrite filter_app, Hready, Hmore.
Qed.

(** C20: results that cover consecutive ranges of a contract's blocks, with
    nothing pending before, are registered in any order and mixed with those of
    other contracts; when the first range starts at the contract's frontier,
    they are handed to the commit loop in the order of the blocks, each once,
    the frontier ends after the last of them and nothing stays behind; when it
    starts after the frontier, as for a contract that was just registered, none
    of them is handed over and the frontier stays. *)
Theorem results_are_committed_in_order contract front first last l rs s handed s' :
  keyed (pending s) → commit_frontier s !! contract = Some front → (∀ f, pending s !! (contract, f) = None) →
  0 ≤ first → last ≤ U64_MAX → tiles first last (ranges l) →
  filter (λ r, br_contract r = contract) rs ≡ₚ l → register_all rs s = (handed, s') →
  (front = first →
   filter (λ r, br_contract r = contract) handed = l ∧ commit_frontier s' !! contract = Some last ∧
   ∀ f, pending s' !! (contract, f) = None) ∧
  (front < first →
   filter (λ r, br_contract r = contract) handed = [] ∧ commit_frontier s' !! contract = Some front).
Proof.
  intros Hk Hf Hp Hfirst Hlast Ht Hrs H. split.
  - intros ->. assert (Forall (λ r, br_contract r = contract) l) as Hown.
    { apply Forall_forall. intros r Hr. rewrite <- Hrs in Hr. by apply list_elem_of_filter in Hr as [? _]. }
    destruct (register_all_progress contract first last l Hfirst Hlast Ht Hown rs s [] [] l handed s')
      as (left & registered & Hl & Hreg & Hpr); [|by eapply tiles_NoDup|by rewrite app_nil_r|done|].
    { split; cbn; try done; [exists first; by split_and!; try done; constructor| |].
      - intros f r. rewrite Hp. split; [done|]. by intros (?%elem_of_nil & _).
      - intros r _. apply not_elem_of_nil. }
    destruct Hpr as [Hall (a & Ha & _ & H2) Hh _ Hne _]. cbn in *. destruct left as [|x left].
    + rewrite app_nil_r in Hl. inversion H2; subst. split_and!; [done|done|]. intros f.
      destruct (pending s' !! (contract, f)) as [r|] eqn:Hr; [|done]. apply Hh in Hr as (_ & Hr & _).
      by apply elem_of_nil in Hr.
    + destruct (Hne x eq_refl). rewrite Hreg, Hl. apply elem_of_app. right. left.
  - intros Hlt. apply (register_all_waits contract front rs s); try done. intros r Hin Hc.
    assert (Hr : r ∈ l) by (rewrite <- Hrs; by apply list_elem_of_filter).
    apply range_elem in Hr. pose proof (tiles_elem _ _ _ _ _ Ht Hr). lia.
Qed.

(** ** The dispatcher's loop *)

(** C21: within the range of 64 bits the loop that cuts a contract's backlog,
    from a block after the first one, ends and its ranges are consecutive, cover
    exactly the blocks from the next one to the tip, and none is longer than the
    batch size, which is at least 1; with a batch size of 0 it never ends. *)
Theorem dispatcher_cuts_the_backlog contract size tip start fuel :
  (1 ≤ size → tip + size < 2 ^ 64 → 0 ≤ start ≤ tip + 1 → tip + 1 - start < Z.of_nat fuel →
   ∃ ts, batches fuel contract size tip start = Some ts ∧ tiles start (tip + 1) (map task_range ts) ∧
         Forall (λ t, bt_contract_address t = contract ∧ bt_to_block t - bt_from_block t < size) ts) ∧
  (0 < start ≤ tip → tip < 2 ^ 64 → batches fuel contract 0 tip start = None).
Proof.
  split.
  - intros Hs Ht Hstart Hf. destruct (batches_total contract size tip Hs Ht fuel start) as [ts Hts]; [lia..|].
    exists ts. split; [done|]. apply batches_tile in Hts as [H1 H2]; [|done|done|lia].
    by rewrite Z.max_r in H1 by lia.
  - intros Hs Ht. induction fuel as [|fuel IH]; [done|]. cbn [batches].
    destruct (Z.leb_spec start tip) as [_|]; [|lia].
    rewrite (wrap64_small (start + 0)), (wrap64_small (start + 0 - 1)) by lia.
    rewrite Z.min_l, wrap64_small by lia. replace (start + 0 - 1 + 1) with start by lia. by rewrite IH.
Qed.

Lemma dispatcher_cuts_the_backlog_witness :
  ∃ ts, batches 30 "pool" 10 25 1 = Some ts ∧ length ts = 3%nat ∧ tiles 1 26 (map task_range ts).
Proof.
  destruct (proj1 (dispatcher_cuts_the_backlog "pool" 10 25 1 30)) as (ts & Hts & Ht & _); [lia..|].
  exists ts. split; [exact Hts|]. split; [vm_compute in Hts; by injection Hts as <-|exact Ht].
Defined.
