(* ===== verification/IndexerTheorems.v ===== *)
(** * IndexerTheorems: the parallel event indexer in every run

    What holds of tables, frontiers and tasks however dispatcher, workers,
    commit loop and registrations interleave. *)

From S2P Require Import Prelude.
From S2P Require Import Indexer.
From S2P Require Import IndexerSafety.

(** ** The tables *)

Lemma active_elem d c n :
  (c, n) ∈ active_metadata d ↔ db_metadata d !! c = Some (mkIndexingMetadata n true).
Proof.
  unfold active_metadata. rewrite list_elem_of_omap. split.
  - intros ([c' [n' a]] & Hin%elem_of_map_to_list & H). cbn in H. destruct a; [|done]. by injection H as <- <-.
  - intros H. exists (c, mkIndexingMetadata n true). by rewrite elem_of_map_to_list.
Qed.

Lemma active_NoDup d : NoDup (active_metadata d).*1.
Proof.
  unfold active_metadata. pose proof (NoDup_fst_map_to_list (db_metadata d)) as H.
  induction (map_to_list (db_metadata d)) as [|[c [n []]] l IH]; cbn in *; [constructor|..];
    apply NoDup_cons in H as [H1 H2]; [|by apply IH].
  apply NoDup_cons. split; [|by apply IH]. intros ([c' n'] & -> & Hin)%list_elem_of_fmap. cbn in H1. apply H1.
  apply list_elem_of_omap in Hin as ([c'' [n'' a]] & Hin & Hx). cbn in Hx. destruct a; [|done]. injection Hx as -> ->.
  apply list_elem_of_fmap. by exists (c', mkIndexingMetadata n' true).
Qed.

(** The frontiers of [new] *)
Lemma frontiers_of (l : list (string * Z)) c n :
  NoDup l.*1 → commit_frontier (new_manager l) !! c = Some n ↔ (c, n) ∈ l.
Proof.
  unfold new_manager. cbn. induction l as [|[a b] l IH] using rev_ind; intros H.
  - cbn. rewrite lookup_empty. split; [done|]. by intros ?%elem_of_nil.
  - rewrite foldl_app. cbn. rewrite fmap_app in H. cbn in H. apply NoDup_app in H as (H1 & H2 & _).
    rewrite lookup_insert_Some, (IH H1), elem_of_app, list_elem_of_singleton. split.
    + intros [[-> ->]|[Hne Hin]]; [by right|by left].
    + intros [Hin|[= -> ->]]; [right|by left]. split; [|done]. intros ->. apply (H2 c); [|left].
      apply list_elem_of_fmap. by exists (c, n).
Qed.

Lemma resume_frontier d c n :
  commit_frontier (resume d) !! c = Some n ↔ ∃ k, n = next_block k ∧ db_metadata d !! c = Some (mkIndexingMetadata k true).
Proof.
  unfold resume. rewrite frontiers_of.
  - rewrite list_elem_of_fmap. setoid_rewrite <- active_elem. split.
    + intros ([c' k] & [= -> ->] & H). by exists k.
    + intros (k & -> & H). by exists (c, k).
  - assert ((map (λ '(c, k), (c, next_block k)) (active_metadata d)).*1 = (active_metadata d).*1) as ->;
      [|apply active_NoDup]. rewrite <- list_fmap_compose. apply list_fmap_ext. by intros i [c' k] _.
Qed.

(** *** Inserting events *)

Lemma chunks_concat fuel es : (length es ≤ fuel)%nat → concat (chunks fuel es) = es.
Proof.
  revert es. induction fuel as [|fuel IH]; intros [|e es] H; cbn [chunks concat]; [done|cbn in H; lia|done|].
  rewrite IH; [by rewrite take_drop|]. rewrite length_drop. cbn in H |- *. lia.
Qed.

Lemma insert_events_app l1 l2 m : insert_events (l1 ++ l2) m = insert_events l2 (insert_events l1 m).
Proof. apply foldl_app. Qed.

(** The statements before the failing one are done; without a fault all are. *)
Lemma insert_chunks_spec cs : ∀ fault d ok d',
  insert_chunks fault cs d = (ok, d') →
  ∃ l, l `prefix_of` concat cs ∧ d' = d <| db_events := (insert_events l (db_events d)) |> ∧
       (ok = true → l = concat cs) ∧ (fault = None → ok = true).
Proof.
  induction cs as [|c cs IH]; intros fault d ok d' H; cbn [insert_chunks concat] in *.
  - injection H as <- <-. exists []. by destruct d.
  - destruct fault as [[|n]|].
    + injection H as <- <-. exists []. split_and!; [apply prefix_nil|by destruct d|done|done].
    + apply IH in H as (l & Hl & -> & Hok & Hf). exists (c ++ l). split_and!; [by apply prefix_app| |by intros ->%Hok|done].
      cbn. by rewrite insert_events_app.
    + apply IH in H as (l & Hl & -> & Hok & Hf). exists (c ++ l).
      split_and!; [by apply prefix_app|cbn; by rewrite insert_events_app|by intros ->%Hok|by auto].
Qed.

(** What committing a batch does: some of its events, and perhaps the block up
    to which the contract is indexed; without faults all of them and that. *)
Lemma commit_batch_spec f b d :
  ∃ l, l `prefix_of` br_events b ∧ db_events (commit_batch f b d) = insert_events l (db_events d) ∧
    (db_metadata (commit_batch f b d) = db_metadata d ∨
     db_metadata (commit_batch f b d) = db_metadata (update_metadata (br_contract b) (br_to b) d)) ∧
    (f = no_faults → l = br_events b ∧
       db_metadata (commit_batch f b d) = db_metadata (update_metadata (br_contract b) (br_to b) d)).
Proof.
  assert (Hadv : ∀ d0, let d1 := if ft_update f then d0 else update_metadata (br_contract b) (br_to b) d0 in
    db_events d1 = db_events d0 ∧ (db_metadata d1 = db_metadata d0 ∨
      db_metadata d1 = db_metadata (update_metadata (br_contract b) (br_to b) d0)) ∧
    (f = no_faults → d1 = update_metadata (br_contract b) (br_to b) d0)).
  { intros d0. cbn. destruct (ft_update f) eqn:Hf; split_and!; try by auto; try (by intros ->).
    unfold update_metadata. by destruct (db_metadata d0 !! _). }
  unfold commit_batch. destruct (br_events b) as [|e es].
  - exists []. destruct (Hadv d) as (H1 & H2 & H3). split_and!; [done|done|done|]. intros Hf. by rewrite H3.
  - destruct (create_events_batch _ _ _) as [ok d'] eqn:Hc. unfold create_events_batch in Hc.
    apply insert_chunks_spec in Hc as (l & Hl & -> & Hok & Hn). rewrite chunks_concat in Hl, Hok by done.
    set (d1 := d <| db_events := insert_events l (db_events d) |>).
    destruct (Hadv d1) as (H1 & H2 & H3). cbn in H1, H2.
    assert (Hup : db_metadata (update_metadata (br_contract b) (br_to b) d1) =
                  db_metadata (update_metadata (br_contract b) (br_to b) d))
      by (unfold update_metadata; cbn; by destruct (db_metadata d !! _)).
    exists l. destruct ok; split_and!; try done; try (by left).
    + rewrite Hup in H2. exact H2.
    + intros Hf. split; [by apply Hok|]. by rewrite H3, Hup.
    + intros ->. by specialize (Hn eq_refl).
Qed.

(** ** What registering a result does *)

Lemma drain_tiles contract hi fuel : ∀ a p l m p',
  keyed p → (∀ f r, p !! (contract, f) = Some r → br_from r ≤ br_to r ∧ br_to r ≤ hi) → 0 ≤ a → a ≤ hi + 1 → hi < U64_MAX →
  drain fuel contract a p = (l, m, p') → tiles a m (ranges l) ∧ m ≤ hi + 1.
Proof.
  induction fuel as [|fuel IH]; intros a p l m p' Hk Hp Ha Hm Hhi H; cbn [drain] in H;
    [injection H as <- <- <-; by split; [constructor|]|].
  destruct (p !! (contract, a)) as [r|] eqn:Hr; [|injection H as <- <- <-; by split; [constructor|]].
  destruct (drain fuel _ _ _) as [[l' m'] q] eqn:Hd. injection H as <- <- <-.
  pose proof (Hp _ _ Hr) as [Hft Hto]. pose proof (Hk _ _ Hr) as [= -> ->].
  rewrite wrap64_small in Hd by (change U64_MAX with (2 ^ 64 - 1) in Hhi; lia).
  apply IH in Hd as [Ht Hle]; [| | |lia..|done].
  - split; [|done]. by apply tiles_cons.
  - intros k x [_ Hx]%lookup_delete_Some. by apply Hk.
  - intros f x [_ Hx]%lookup_delete_Some. by eapply Hp.
Qed.

Lemma register_result_Ok r s ready s' :
  keyed (pending s) → register_result r s = (ready, s') →
  keyed (pending s') ∧
  (∀ k x, pending s' !! k = Some x → x = r ∨ pending s !! k = Some x) ∧
  (∀ x, x ∈ ready → br_contract x = br_contract r ∧ (x = r ∨ ∃ k, pending s !! k = Some x)) ∧
  (∀ c, c ≠ br_contract r → commit_frontier s' !! c = commit_frontier s !! c) ∧
  (commit_frontier s !! br_contract r = None → commit_frontier s' !! br_contract r = None ∧ ready = []).
Proof.
  intros Hk H. unfold register_result in H. pose proof (keyed_insert _ r Hk) as Hk'.
  assert (Hin : ∀ k x, <[(br_contract r, br_from r) := r]> (pending s) !! k = Some x → x = r ∨ pending s !! k = Some x)
    by (intros k x [[_ <-]|[_ Hx]]%lookup_insert_Some; auto).
  destruct (commit_frontier s !! br_contract r) as [a|] eqn:Hf.
  - destruct (drain _ _ _ _) as [[l m] p'] eqn:Hd. injection H as <- <-.
    apply drain_keyed in Hd as (Hl & Hsub & _); [|done]. cbn. split_and!; [by eapply keyed_sub| | | |done].
    + intros k x Hx. apply Hin. by eapply lookup_weaken.
    + intros x Hx. rewrite Forall_forall in Hl. apply Hl in Hx as [Hc Hx]. split; [done|].
      apply Hin in Hx as [->|Hx]; [by left|right; by eexists].
    + intros c Hc. destruct (_ =? _); [done|]. by apply lookup_insert_ne.
  - injection H as <- <-. cbn. split_and!; [done|done| |done|done]. by intros x ?%elem_of_nil.
Qed.

Lemma register_tiles r s ready s' a hi :
  keyed (pending s) → (∀ x k, pending s !! k = Some x → br_contract x = br_contract r → br_from x ≤ br_to x ∧ br_to x ≤ hi) →
  br_from r ≤ br_to r ∧ br_to r ≤ hi → hi < U64_MAX → 0 ≤ a → a ≤ hi + 1 →
  commit_frontier s !! br_contract r = Some a → register_result r s = (ready, s') →
  ∃ m, tiles a m (ranges ready) ∧ commit_frontier s' !! br_contract r = Some m ∧ m ≤ hi + 1.
Proof.
  intros Hk Hp Hr Hhi Ha Hah Hf H. unfold register_result in H. rewrite Hf in H.
  pose proof (keyed_insert _ r Hk) as Hk'. destruct (drain _ _ _ _) as [[l m] p'] eqn:Hd. injection H as <- <-.
  apply (drain_tiles _ hi) in Hd as [Ht Hm]; [|done| |done..].
  - exists m. split_and!; [done| |done]. cbn. destruct (Z.eqb_spec m a) as [->|]; [done|]. by rewrite lookup_insert_eq.
  - intros f x Hx. pose proof (Hk' _ _ Hx) as [= Hc _].
    apply lookup_insert_Some in Hx as [[_ <-]|[_ Hx]]; [done|]. by eapply Hp.
Qed.

(** ** The runs *)

(** The events of a contract in the blocks from [a] to [b] *)
Definition range_events (chain : string → Z → list CreateEvent) (c : string) (a b : Z) : list CreateEvent :=
  concat (map (chain c) (seqZ a (b - a + 1))).

Lemma range_events_elem chain c a b e : e ∈ range_events chain c a b ↔ ∃ n, a ≤ n ≤ b ∧ e ∈ chain c n.
Proof.
  unfold range_events. rewrite list_elem_of_In, in_concat. split.
  - intros (l & Hl & He). apply in_map_iff in Hl as (n & <- & Hn). apply list_elem_of_In, elem_of_seqZ in Hn.
    exists n. split; [lia|by apply list_elem_of_In].
  - intros (n & Hn & He). exists (chain c n). split; [|by apply list_elem_of_In]. apply in_map, list_elem_of_In, elem_of_seqZ.
    lia.
Qed.

Section runs.
Context {F W : Type} (config : IndexerConfig)
        (process : BlockRangeTask → W → (IndexerError F + list CreateEvent) * W)
        (sleep : Z → W → W) (elapsed : W → W → Z) (max_block : Z) (chain : string → Z → list CreateEvent).

Abbreviation step := (pipeline_step config process sleep elapsed max_block).
Abbreviation run := (pipeline_run config process sleep elapsed max_block).

(** What is assumed: the node answers with the events of the blocks it is asked
    about, a transaction and an index name one event, and the configuration and
    the chain are of a sensible size. *)
Record sensible : Prop := {
  sn_process : ∀ t w es w', process t w = (inr es, w') →
    es = range_events chain (bt_contract_address t) (bt_from_block t) (bt_to_block t);
  sn_unique : ∀ c n e c' n' e', e ∈ chain c n → e' ∈ chain c' n' → event_key e = event_key e' →
    e = e' ∧ c = c' ∧ n = n';
  sn_size : 1 ≤ batch_size config;
  sn_confirmations : 0 ≤ confirmations config;
  sn_chain : 0 ≤ max_block ∧ max_block + batch_size config < 2 ^ 63;
}.
Context (Hsensible : sensible).

Lemma attempt_events more : ∀ attempt t w es w',
  attempt_task config process sleep more attempt t w = (inr es, w') →
  es = range_events chain (bt_contract_address t) (bt_from_block t) (bt_to_block t).
Proof using Hsensible.
  induction more as [|more IH]; intros attempt t w es w' H; cbn [attempt_task] in H;
    destruct (process t _) as [[e|es'] w1] eqn:Hp; try done.
  - injection H as <- <-. by eapply sn_process.
  - by eapply IH.
  - injection H as <- <-. by eapply sn_process.
Qed.

Lemma work_events t w r w' :
  work config process sleep elapsed t w = (inr r, w') →
  br_task r = t ∧ br_events r = range_events chain (br_contract r) (br_from r) (br_to r).
Proof using Hsensible.
  unfold work. destruct (attempt_task _ _ _ _ _ _ _) as [[e|es] w1] eqn:Ha; intros H; [done|].
  injection H as <- <-. apply attempt_events in Ha. by split.
Qed.

Lemma dispatch_tasks_elem fuel tip ms ts t :
  0 ≤ tip ≤ max_block → dispatch_tasks fuel config tip ms = Some ts → t ∈ ts →
  ∃ n, (bt_contract_address t, n) ∈ ms ∧ next_block n ≤ bt_from_block t ∧ bt_from_block t ≤ bt_to_block t ∧
       bt_to_block t ≤ tip.
Proof using Hsensible.
  intros Htip. revert ts. induction ms as [|[c n] ms IH]; intros ts H Hin; cbn [dispatch_tasks] in H.
  - injection H as <-. by apply elem_of_nil in Hin.
  - destruct (batches _ _ _ _ _) as [ts1|] eqn:Hb; [|done]. cbn in H.
    destruct (dispatch_tasks _ _ _ _) as [ts2|] eqn:Hd; [|done]. injection H as <-.
    destruct (sn_chain Hsensible). apply elem_of_app in Hin as [Hin|Hin].
    + assert (Hn : 0 ≤ next_block n) by (unfold next_block, wrap64; apply Z.mod_pos_bound; lia).
      apply batches_tile in Hb as [Ht Hf]; [|apply Hsensible|lia|done]. rewrite Forall_forall in Hf.
      destruct (Hf _ Hin) as [Hc _]. exists n. split; [rewrite Hc; left|].
      assert (Hr : task_range t ∈ map task_range ts1) by (apply list_elem_of_fmap; by exists t).
      pose proof (tiles_elem _ _ _ _ _ Ht Hr). lia.
    + destruct (IH _ eq_refl Hin) as (n' & Hn' & Hr). exists n'. split; [by right|done].
Qed.

(** *** Which tasks there are of a contract *)

Abbreviation State := (Pipeline (F := F)).

Section flow.
Context (contract : string) (low : Z).

(** Blocks of [contract] after [low], and of the chain *)
Definition above (t : BlockRangeTask) : Prop :=
  bt_contract_address t = contract → low < bt_from_block t ∧ bt_from_block t ≤ bt_to_block t ∧ bt_to_block t ≤ max_block.

Definition polls_above (d : Dispatcher) : Prop :=
  match d with
  | Idle => True
  | Polled ms => ∀ n, (contract, n) ∈ ms → low ≤ n ≤ max_block
  | Sending ts => Forall above ts
  end.

Record flow (p : State) : Prop := {
  fl_dispatcher : polls_above (pl_dispatcher p);
  fl_tasks : Forall above (pl_tasks p);
  fl_working : Forall above (pl_working p);
  fl_results : ∀ r, inr r ∈ pl_results p → above (br_task r);
  fl_pending : ∀ k r, pending (pl_manager p) !! k = Some r → above (br_task r);
  fl_keyed : keyed (pending (pl_manager p));
}.

(** The contract is indexed at least up to [low]. *)
Definition indexed_above (d : Database) : Prop :=
  ∀ m, db_metadata d !! contract = Some m → low ≤ im_last_indexed_block m ≤ max_block.

Lemma flow_step f p q : -1 ≤ low → flow p → indexed_above (pl_database p) → step f p q → flow q.
Proof using Hsensible.
  intros Hlow [Hd Ht Hw Hr Hp Hk] Hi H.
  destruct H as [? p ms Hdp Hms|? p ms fuel cb tasks Hdp Hcb Hdt|? p t rest Hdp _|? p Hdp|? p t rest Htp _ _
    |? p before t after w r w' Hwp _ Hwork|? p e rest Hrp _|? p r rest ready s Hrp _ Hreg|? p b rest _|? p c st|? p l1 c st l2 _];
    cbn in *.
  - split; cbn; try done. intros n Hn. rewrite Hms in Hn. apply active_elem in Hn. exact (Hi _ Hn).
  - split; cbn; try done. rewrite Hdp in Hd. apply Forall_forall. intros t Hin Hc.
    destruct (sn_chain Hsensible). pose proof (sn_confirmations Hsensible). pose proof (sn_size Hsensible).
    eapply dispatch_tasks_elem in Hdt as (n & Hn & Hn1 & Hn2 & Hn3); [|unfold confirmed_tip; lia|exact Hin].
    rewrite Hc in Hn. apply Hd in Hn. unfold next_block in Hn1. rewrite wrap64_small in Hn1 by lia.
    unfold confirmed_tip in Hn3. lia.
  - rewrite Hdp in Hd. apply Forall_cons in Hd as [Hn1 Hn2]. split; cbn; try done. apply Forall_app. split; [done|]. by apply Forall_singleton.
  - by split.
  - rewrite Htp in Ht. apply Forall_cons in Ht as [Hn1 Hn2]. split; cbn; try done. by constructor.
  - rewrite Hwp in Hw. apply Forall_app in Hw as [Hn1 [Hn2 Hn3]%Forall_cons]. split; cbn; try done; [by apply Forall_app|].
    intros r' [Hin|Hin]%elem_of_app; [by apply Hr|]. apply list_elem_of_singleton in Hin as <-.
    apply work_events in Hwork as [-> _]; done.
  - split; cbn; try done. intros r Hin. apply Hr. rewrite Hrp. by right.
  - apply register_result_Ok in Hreg as (Hk' & Hp' & _); [|done]. split; cbn; try done.
    + intros r' Hin. apply Hr. rewrite Hrp. by right.
    + intros k x [->|Hx]%Hp'; [apply Hr; rewrite Hrp; by left|by eapply Hp].
  - by split.
  - by split.
  - unfold add_frontier. by destruct (commit_frontier (pl_manager p) !! c).
Qed.

Lemma flow_started d : flow (started d).
Proof.
  assert (Hp : pending (resume d) = ∅) by done. split; cbn; rewrite ?Hp; try done; try (by constructor).
  by intros r ?%elem_of_nil.
Qed.
End flow.

(** *** Which events there are *)

Definition result_ok (r : BlockRangeResult) : Prop :=
  br_events r = range_events chain (br_contract r) (br_from r) (br_to r).

Record sound (p : State) : Prop := {
  so_results : ∀ r, inr r ∈ pl_results p → result_ok r;
  so_pending : ∀ k r, pending (pl_manager p) !! k = Some r → result_ok r;
  so_ready : Forall result_ok (pl_ready p);
  so_keyed : keyed (pending (pl_manager p));
  so_events : ∀ k e, db_events (pl_database p) !! k = Some e → k = event_key e ∧ ∃ c n, e ∈ chain c n;
}.

(** Events of the chain that are inserted into a table of such events are there. *)
Lemma insert_events_lookup l : ∀ m,
  (∀ k e, m !! k = Some e → k = event_key e ∧ ∃ c n, e ∈ chain c n) → (∀ e, e ∈ l → ∃ c n, e ∈ chain c n) →
  ∀ k e, insert_events l m !! k = Some e ↔ m !! k = Some e ∨ k = event_key e ∧ e ∈ l.
Proof using Hsensible.
  induction l as [|x l IH]; intros m Hm Hl k e; cbn.
  - split; [by left|]. intros [?|[_ ?%elem_of_nil]]; done.
  - assert (Hx : insert_event x m = <[event_key x := x]> m).
    { unfold insert_event. destruct (m !! event_key x) as [y|] eqn:Hy; [|done].
      destruct (Hm _ _ Hy) as [Hk (c & n & Hc)]. destruct (Hl x) as (c' & n' & Hc'); [left|].
      destruct (sn_unique Hsensible _ _ _ _ _ _ Hc' Hc Hk) as (-> & _). by rewrite insert_id. }
    change (foldl _ (insert_event x m) l) with (insert_events l (insert_event x m)).
    rewrite Hx, IH; [|intros k' e' [[<- <-]|[_ He]]%lookup_insert_Some; [split; [done|apply Hl; left]|by apply Hm]|
      by intros e' He'; apply Hl; right].
    rewrite lookup_insert_Some, elem_of_cons. split.
    + intros [[[<- <-]|[_ He]]|[-> He]]; auto.
    + intros [He|[-> [->|He]]]; auto. destruct (decide (event_key x = k)) as [<-|]; [|by left; right].
      left. left. split; [done|]. destruct (Hm _ _ He) as [Hk (c & n & Hc)]. destruct (Hl x) as (c' & n' & Hc'); [left|].
      by destruct (sn_unique Hsensible _ _ _ _ _ _ Hc' Hc Hk).
Qed.

Lemma result_events r e : result_ok r → e ∈ br_events r → ∃ n, br_from r ≤ n ≤ br_to r ∧ e ∈ chain (br_contract r) n.
Proof. intros -> He. by apply range_events_elem in He. Qed.

(** The events after a batch was committed *)
Lemma commit_events f b d :
  result_ok b → (∀ k e, db_events d !! k = Some e → k = event_key e ∧ ∃ c n, e ∈ chain c n) →
  ∃ l, l `prefix_of` br_events b ∧ (f = no_faults → l = br_events b) ∧
  ∀ k e, db_events (commit_batch f b d) !! k = Some e ↔ db_events d !! k = Some e ∨ k = event_key e ∧ e ∈ l.
Proof using Hsensible.
  intros Hb Hd. destruct (commit_batch_spec f b d) as (l & Hl & He & _ & Hf). exists l. split_and!; [done|by intros []%Hf|].
  intros k e. rewrite He. apply insert_events_lookup; [done|]. intros x Hx.
  destruct (result_events b x) as (n & _ & Hn); [done| |by do 2 eexists]. destruct Hl as [l' ->]. apply elem_of_app. by left.
Qed.

Lemma pipeline_sound_step f p q : sound p → step f p q → sound q.
Proof using Hsensible.
  intros [Hr Hp Hy Hk He] H.
  destruct H as [? p ms Hdp Hms|? p ms fuel cb tasks Hdp Hcb Hdt|? p t rest Hdp _|? p Hdp|? p t rest Htp _ _
    |? p before t after w r w' Hwp _ Hwork|? p e rest Hrp _|? p r rest ready s Hrp _ Hreg|? p b rest Hb|? p c st|? p l1 c st l2 _];
    cbn in *; try by split.
  - split; cbn; try done. intros r' [Hin|Hin]%elem_of_app; [by apply Hr|]. apply list_elem_of_singleton in Hin as <-.
    by apply work_events in Hwork as [_ Hw].
  - split; cbn; try done. intros r Hin. apply Hr. rewrite Hrp. by right.
  - apply register_result_Ok in Hreg as (Hk' & Hp' & Hin & _); [|done].
    assert (Hrok : result_ok r) by (apply Hr; rewrite Hrp; by left). split; cbn; try done.
    + intros r' Hr'. apply Hr. rewrite Hrp. by right.
    + intros k x [->|Hx]%Hp'; [done|by eapply Hp].
    + apply Forall_forall. intros x Hx. apply Hin in Hx as [_ [->|[k Hx]]]; [done|by eapply Hp].
  - rewrite Hb in Hy. apply Forall_cons in Hy as [Hbok Hy]. split; cbn; try done. intros k e Hin.
    destruct (commit_events f b (pl_database p) Hbok He) as (l & Hl & _ & Hc). destruct (proj1 (Hc k e) Hin) as [Hold|[Hkey Hnew]]; [by apply He|].
    split; [done|]. destruct (result_events b e) as (n & _ & Hn); [done| |by do 2 eexists].
    destruct Hl as [l' ->]. apply elem_of_app. by left.
  - split; cbn; try done. unfold get_or_create_metadata. by destruct (db_metadata (pl_database p) !! c).
  - unfold add_frontier. by destruct (commit_frontier (pl_manager p) !! c).
Qed.

Lemma started_sound d :
  (∀ k e, db_events d !! k = Some e → k = event_key e ∧ ∃ c n, e ∈ chain c n) → sound (started d).
Proof.
  assert (Hp : pending (resume d) = ∅) by done. intros Hd. split; cbn; rewrite ?Hp; try done.
  by intros r ?%elem_of_nil.
Qed.

Abbreviation of_contract c := (λ r : BlockRangeResult, br_contract r = c).

Lemma all_of_contract c (l : list BlockRangeResult) : (∀ r, r ∈ l → br_contract r = c) → filter (of_contract c) l = l.
Proof.
  intros H. induction l as [|x l IH]; [done|]. rewrite filter_cons_True by (apply H; left).
  rewrite IH; [done|]. intros r Hr. apply H. by right.
Qed.
Lemma none_of_contract c (l : list BlockRangeResult) : (∀ r, r ∈ l → br_contract r ≠ c) → filter (of_contract c) l = [].
Proof.
  intros H. induction l as [|x l IH]; [done|]. rewrite filter_cons_False by (apply H; left).
  apply IH. intros r Hr. apply H. by right.
Qed.

Lemma update_metadata_lookup c c' n d :
  db_metadata (update_metadata c n d) !! c' =
  if decide (c = c') then (λ m, mkIndexingMetadata (as_i64 n) (im_is_active m)) <$> db_metadata d !! c'
  else db_metadata d !! c'.
Proof.
  unfold update_metadata. destruct (decide (c = c')) as [->|Hc].
  - destruct (db_metadata d !! c') eqn:Hm; cbn; [by rewrite lookup_insert_eq|done].
  - destruct (db_metadata d !! c); cbn; [by rewrite lookup_insert_ne|done].
Qed.

Lemma get_or_create_lookup c c' n d m :
  db_metadata (get_or_create_metadata c n d) !! c' = Some m →
  db_metadata d !! c' = Some m ∨ c = c' ∧ db_metadata d !! c' = None ∧ m = mkIndexingMetadata (as_i64 n) true.
Proof.
  unfold get_or_create_metadata. destruct (db_metadata d !! c) eqn:Hc; cbn; [by left|].
  intros [[<- <-]|[_ ?]]%lookup_insert_Some; auto.
Qed.

Lemma get_or_create_keeps c c' n d m :
  db_metadata d !! c' = Some m → db_metadata (get_or_create_metadata c n d) !! c' = Some m.
Proof.
  intros Hm. unfold get_or_create_metadata. destruct (db_metadata d !! c) eqn:Hc; cbn; [done|].
  by rewrite lookup_insert_ne by congruence.
Qed.

(** *** A contract that is there from the start *)

Section indexed.
Context (contract : string) (low : Z) (Hlow : -1 ≤ low) (d0 : Database).

Record indexed (p : State) (last front : Z) : Prop := {
  ix_metadata : db_metadata (pl_database p) !! contract = Some (mkIndexingMetadata last true);
  ix_frontier : commit_frontier (pl_manager p) !! contract = Some front;
  ix_bounds : low ≤ last ∧ front ≤ max_block + 1;
  ix_ready : tiles (last + 1) front (ranges (filter (of_contract contract) (pl_ready p)));
  ix_events : ∀ n e, e ∈ chain contract n →
    (db_events (pl_database p) !! event_key e = Some e ↔ db_events d0 !! event_key e = Some e ∨ low < n ≤ last);
}.

Lemma indexed_is_above p last front : indexed p last front → indexed_above contract low (pl_database p).
Proof.
  intros [Hm _ [H1 H2] Ht _] m Hm'. rewrite Hm in Hm'. injection Hm' as <-. cbn. apply tiles_le in Ht. lia.
Qed.

Lemma indexed_result p r rest ready s last front :
  flow contract low p → indexed p last front → pl_results p = inr r :: rest → pl_ready p = [] →
  register_result r (pl_manager p) = (ready, s) →
  ∃ front', commit_frontier s !! contract = Some front' ∧ front' ≤ max_block + 1 ∧
            tiles (last + 1) front' (ranges (filter (of_contract contract) ready)).
Proof using Hsensible Hlow.
  intros [_ _ _ Hr Hp Hk] [Hm Hf [Hl Hb] Ht _] Hres Hy Hreg. rewrite Hy in Ht. inversion Ht; subst.
  assert (Habove : above contract low (br_task r)) by (apply Hr; rewrite Hres; left).
  pose proof (sn_chain Hsensible). pose proof (sn_size Hsensible).
  pose proof Hreg as Hreg'. apply register_result_Ok in Hreg' as (_ & _ & Hin & Hother & _); [|done].
  destruct (decide (br_contract r = contract)) as [Hc|Hc].
  - rewrite all_of_contract by (intros x Hx; apply Hin in Hx as [? _]; congruence).
    destruct (register_tiles r (pl_manager p) ready s (last + 1) max_block) as (m & ? & ? & ?);
      rewrite ?Hc; try done; try lia.
    + intros x k Hx Hxc. destruct (Hp _ _ Hx) as (_ & ? & ?); [unfold br_contract in *; congruence|done].
    + destruct Habove as (_ & ? & ?); done.
    + change U64_MAX with (2 ^ 64 - 1). lia.
    + exists m. by rewrite <- Hc.
  - rewrite none_of_contract by (intros x Hx; apply Hin in Hx as [? _]; congruence).
    exists (last + 1). rewrite Hother by congruence. split_and!; [done|done|constructor].
Qed.

Lemma indexed_commit p b rest last front :
  sound p → indexed p last front → pl_ready p = b :: rest →
  ∃ last', indexed (mkPipeline (pl_manager p) (commit_batch no_faults b (pl_database p)) (pl_dispatcher p) (pl_tasks p)
                      (pl_working p) (pl_results p) rest (pl_registering p)) last' front.
Proof using Hsensible Hlow.
  intros [_ _ Hy _ He] [Hm Hf [Hl Hb] Ht Hev] Hready. rewrite Hready in Ht, Hy. apply Forall_cons in Hy as [Hbok _].
  destruct (commit_events no_faults b (pl_database p) Hbok He) as (l & _ & Hall & Hc). rewrite (Hall eq_refl) in Hc. clear l Hall.
  destruct (commit_batch_spec no_faults b (pl_database p)) as (l & _ & _ & _ & Hmeta). destruct (Hmeta eq_refl) as [_ Hmeta'].
  pose proof (update_metadata_lookup (br_contract b) contract (br_to b) (pl_database p)) as Hup.
  rewrite <- Hmeta', Hm in Hup. clear Hmeta Hmeta' l. cbn in Hup.
  pose proof (sn_chain Hsensible). pose proof (sn_size Hsensible).
  destruct (decide (br_contract b = contract)) as [Hbc|Hbc].
  - rewrite filter_cons_True in Ht by done. apply tiles_head in Ht as (Heq & Hat & Hrest). apply tiles_le in Hrest as Hle. rewrite as_i64_small in Hup by lia.
    exists (br_to b). split; cbn; [done|done|lia|done|]. intros n e Hin. rewrite Hc, (Hev _ _ Hin). split.
    + intros [[?|?]|[_ Hx]]; [by left|right; lia|]. apply (result_events b) in Hx as (n' & Hn' & Hx); [|done].
      destruct (sn_unique Hsensible _ _ _ _ _ _ Hin Hx eq_refl) as (_ & _ & ->). right. lia.
    + intros [?|Hn]; [by left; left|]. destruct (decide (n ≤ last)) as [|Hgt]; [left; right; lia|]. right. split; [done|]. rewrite Hbok.
      apply range_events_elem. exists n. split; [lia|by rewrite Hbc].
  - rewrite filter_cons_False in Ht by done. exists last. split; cbn; try done. intros n e Hin. rewrite Hc, (Hev _ _ Hin).
    split; [intros [?|[_ Hx]]; [done|]|by left]. apply (result_events b) in Hx as (n' & _ & Hx); [|done].
    by destruct (sn_unique Hsensible _ _ _ _ _ _ Hin Hx eq_refl) as (_ & ? & _).
Qed.

Lemma indexed_step p q last front :
  sound p → flow contract low p → indexed p last front → step no_faults p q → ∃ last' front', indexed q last' front'.
Proof using Hsensible Hlow.
  intros Hs Hfl Hix H. pose proof Hix as [Hm Hf Hb Ht Hev].
  inversion H as [? ? ms Hdp Hms|? ? ms fuel cb tasks Hdp Hcb Hdt|? ? t rest Hdp _|? ? Hdp|? ? t rest Htp _ _
    |? ? before t after w r w' Hwp _ Hwork|? ? e rest Hrp _|? ? r rest ready s Hrp Hry Hreg|? ? b rest Hb'|? ? c st|? ? l1 c st l2 Hl];
    subst; cbn; try (by exists last, front; split).
  - destruct (indexed_result _ _ _ _ _ _ _ Hfl Hix Hrp Hry Hreg) as (front' & H1 & H2 & H3).
    exists last, front'. split; cbn; try done. split; [apply Hb|done].
  - destruct (indexed_commit _ _ _ _ _ Hs Hix Hb') as (last' & Hix'). by exists last', front.
  - exists last, front. split; cbn; try done; [by apply get_or_create_keeps|].
    intros n e He. rewrite <- (Hev n e He). unfold get_or_create_metadata. by destruct (db_metadata (pl_database p) !! c).
  - exists last, front. split; cbn; try done. unfold add_frontier.
    destruct (commit_frontier (pl_manager p) !! c) eqn:Hc; [done|]. cbn. by rewrite lookup_insert_ne by congruence.
Qed.
End indexed.

Lemma indexed_run d contract last0 p :
  db_metadata d !! contract = Some (mkIndexingMetadata last0 true) → -1 ≤ last0 ≤ max_block →
  (∀ k e, db_events d !! k = Some e → k = event_key e ∧ ∃ c n, e ∈ chain c n) →
  run faultless (started d) p →
  ∃ last, db_metadata (pl_database p) !! contract = Some (mkIndexingMetadata last true) ∧ last0 ≤ last ≤ max_block ∧
    ∀ n e, e ∈ chain contract n →
      (db_events (pl_database p) !! event_key e = Some e ↔ db_events d !! event_key e = Some e ∨ last0 < n ≤ last).
Proof using Hsensible.
  intros Hm Hl Hd Hrun. pose proof (sn_chain Hsensible). pose proof (sn_size Hsensible).
  assert (sound p ∧ flow contract last0 p ∧ ∃ last front, indexed contract last0 d p last front)
    as (_ & _ & last & front & [H1 _ H2 H3 H4]).
  - remember (started d) as p0 eqn:Hp0. induction Hrun as [p|f p q r Hrun IH Hst Hok].
    + subst p. split; [by apply started_sound|]. split; [by apply flow_started|]. exists last0, (last0 + 1). split; cbn.
      * done.
      * apply resume_frontier. exists last0. split; [|done]. unfold next_block. by rewrite wrap64_small by lia.
      * lia.
      * constructor.
      * intros n e _. split; [by left|]. intros [?|?]; [done|lia].
    + destruct (IH Hp0) as (Hs & Hf & last & front & Hix). rewrite Hok in Hst. split; [by eapply pipeline_sound_step|].
      split; [eapply flow_step; [apply Hl|exact Hf|by eapply indexed_is_above|exact Hst]|].
      eapply indexed_step; [apply Hl|exact Hs|exact Hf|exact Hix|exact Hst].
  - exists last. apply tiles_le in H3. split; [done|]. split; [lia|done].
Qed.

(** C19: for a contract that is active when the parallel indexer starts, as long
    as the node answers truthfully or not at all and the database does not fail,
    whatever the order in which dispatcher, workers, commit loop and
    registrations of other contracts take their steps: the last indexed block is
    never below where it started nor beyond the chain, and the events of the
    contract that entered the tables are exactly those of the blocks after the
    one it started from, up to the last indexed one; so if the tables were
    complete when it started, they are complete up to the last indexed block. *)
Theorem indexed_blocks_are_in_the_tables d contract last0 p :
  db_metadata d !! contract = Some (mkIndexingMetadata last0 true) → -1 ≤ last0 ≤ max_block →
  (∀ k e, db_events d !! k = Some e → k = event_key e ∧ ∃ c n, e ∈ chain c n) →
  run faultless (started d) p →
  ∃ last, db_metadata (pl_database p) !! contract = Some (mkIndexingMetadata last true) ∧ last0 ≤ last ≤ max_block ∧
    (∀ n e, e ∈ chain contract n →
      (db_events (pl_database p) !! event_key e = Some e ↔ db_events d !! event_key e = Some e ∨ last0 < n ≤ last)) ∧
    ((∀ n e, e ∈ chain contract n → (db_events d !! event_key e = Some e ↔ n ≤ last0)) →
     ∀ n e, e ∈ chain contract n → (db_events (pl_database p) !! event_key e = Some e ↔ n ≤ last)).
Proof using Hsensible.
  intros Hm Hl Hd Hrun. destruct (indexed_run d contract last0 p Hm Hl Hd Hrun) as (last & H1 & H2 & H3).
  exists last. split_and!; try done; try lia. intros Hev n e He. rewrite (H3 n e He), (Hev n e He). lia.
Qed.

(** *** A contract that is registered while the indexer runs *)

Section registered.
Context (contract : string) (start : Z) (Hstart : 0 ≤ start ≤ max_block) (d : Database).

(** Whoever registers the contract does so from block [start]. *)
Definition registers_from (f : Faults) (p : State) : Prop := ∀ n, (contract, n) ∈ pl_registering p → n = start.

Record stuck (p : State) : Prop := {
  sk_metadata : ∀ m, db_metadata (pl_database p) !! contract = Some m → m = mkIndexingMetadata start true;
  sk_frontier : ∀ a, commit_frontier (pl_manager p) !! contract = Some a → a = start;
  sk_registering : registers_from no_faults p;
  sk_ready : ∀ r, r ∈ pl_ready p → br_contract r ≠ contract;
  sk_events : ∀ n e, e ∈ chain contract n → db_events (pl_database p) !! event_key e = Some e →
    db_events d !! event_key e = Some e;
}.

Lemma stuck_result p r rest ready s :
  flow contract start p → stuck p → pl_results p = inr r :: rest → register_result r (pl_manager p) = (ready, s) →
  (∀ a, commit_frontier s !! contract = Some a → a = start) ∧ ∀ x, x ∈ ready → br_contract x ≠ contract.
Proof using Hsensible Hstart.
  intros [_ _ _ Hr Hp Hk] [_ Hf _ _ _] Hres Hreg. pose proof (sn_chain Hsensible). pose proof (sn_size Hsensible).
  assert (Habove : above contract start (br_task r)) by (apply Hr; rewrite Hres; left).
  pose proof Hreg as Hreg'. apply register_result_Ok in Hreg' as (_ & _ & Hin & Hother & Hnone); [|done].
  destruct (decide (br_contract r = contract)) as [Hc|Hc].
  - rewrite Hc in *. destruct (commit_frontier (pl_manager p) !! contract) as [a|] eqn:Ha.
    + rewrite (Hf a eq_refl) in Ha. destruct Habove as (Hlow & Hft & Hto); [done|].
      destruct (register_tiles r (pl_manager p) ready s start max_block) as (m & Ht & Hm & _);
        rewrite ?Hc; try done; try lia.
      * intros x k Hx Hxc. destruct (Hp _ _ Hx) as (_ & ? & ?); [done|done].
      * change U64_MAX with (2 ^ 64 - 1). lia.
      * rewrite Hc in Hm. assert (ready = []) as ->.
        { destruct ready as [|x ready]; [done|]. apply tiles_head in Ht as (Hx & _ & _).
          destruct (Hin x) as [Hxc [->|[k Hxp]]]; [left|unfold br_from in Hx; lia|].
          destruct (Hp _ _ Hxp) as (? & _); [done|]. unfold br_from in Hx. lia. }
        inversion Ht; subst. rewrite Hm. split; [by intros ? [= <-]|]. by intros x ?%elem_of_nil.
    + destruct (Hnone eq_refl) as [-> ->]. split; [done|]. by intros x ?%elem_of_nil.
  - rewrite Hother by congruence. split; [done|]. intros x Hx. apply Hin in Hx as [-> _]. done.
Qed.

Lemma stuck_step f p q :
  sound p → flow contract start p → stuck p → registers_from f q → step f p q → stuck q.
Proof using Hsensible Hstart.
  intros Hs Hfl Hst Hreg' H. pose proof (sn_chain Hsensible). pose proof (sn_size Hsensible).
  pose proof Hst as [Hm Hf Hg Hr He].
  inversion H as [? ? ms Hdp Hms|? ? ms fuel cb tasks Hdp Hcb Hdt|? ? t rest Hdp _|? ? Hdp|? ? t rest Htp _ _
    |? ? before t after w r w' Hwp _ Hwork|? ? e rest Hrp _|? ? r rest ready s Hrp Hry Hreg|? ? b rest Hb|? ? c n|? ? l1 c n l2 Hl];
    subst; try (by split).
  - destruct (stuck_result _ _ _ _ _ Hfl Hst Hrp Hreg) as [Hn1 Hn2]. by split.
  - destruct (commit_batch_spec f b (pl_database p)) as (_ & _ & _ & Hmeta & _).
    destruct (commit_events f b (pl_database p)) as (l & Hl & _ & Hc);
      [eapply Forall_forall; [apply Hs|rewrite Hb; left]|apply Hs|].
    assert (Hbc : br_contract b ≠ contract) by (apply Hr; rewrite Hb; left). split; cbn; [|done|done| |].
    + intros m Hin. apply Hm. destruct Hmeta as [Hmeta|Hmeta]; rewrite Hmeta in Hin; [done|].
      rewrite update_metadata_lookup in Hin. by destruct (decide _).
    + intros x Hx. apply Hr. rewrite Hb. by right.
    + intros n e Hin Hx. destruct (proj1 (Hc _ _) Hx) as [Hold|[_ Hnew]]; [by eapply He|].
      destruct (result_events b e) as (n' & _ & Hn');
        [eapply Forall_forall; [apply Hs|rewrite Hb; left]|destruct Hl as [l' Hl]; rewrite Hl; apply elem_of_app; by left|].
      by destruct (sn_unique Hsensible _ _ _ _ _ _ Hin Hn' eq_refl) as (_ & ? & _).
  - split; cbn; [|done|done|done|].
    + intros m [Hin|(-> & _ & ->)]%get_or_create_lookup; [by apply Hm|].
      rewrite (Hreg' n) by (cbn; left). by rewrite as_i64_small by lia.
    + intros n' e Hin Hx. apply (He n' e Hin). unfold get_or_create_metadata in Hx.
      by destruct (db_metadata (pl_database p) !! c).
  - split; cbn; [done| |done|done|done]. unfold add_frontier.
    destruct (commit_frontier (pl_manager p) !! c) eqn:Hc; [done|]. cbn.
    intros a [[-> ->]|[_ Ha]]%lookup_insert_Some; [|by apply Hf]. apply Hg. rewrite Hl. apply elem_of_app. right. left.
Qed.
End registered.

(** A contract that is registered while the indexer runs is never indexed
    before the next start, whatever happens: the dispatcher asks for the blocks
    after the first one, and the state manager waits for the first one.  None of
    its events enters the tables, even when the database never fails. *)
Theorem new_contracts_are_not_indexed d contract start p :
  db_metadata d !! contract = None → 0 ≤ start ≤ max_block →
  (∀ k e, db_events d !! k = Some e → k = event_key e ∧ ∃ c n, e ∈ chain c n) →
  run (registers_from contract start) (started d) p →
  (∀ m, db_metadata (pl_database p) !! contract = Some m → m = mkIndexingMetadata start true) ∧
  ∀ n e, e ∈ chain contract n → db_events (pl_database p) !! event_key e = Some e → db_events d !! event_key e = Some e.
Proof using Hsensible.
  intros Hm Hstart Hd Hrun.
  enough (sound p ∧ flow contract start p ∧ stuck contract start d p) as (_ & _ & [H1 _ _ _ H5]) by done.
  remember (started d) as p0 eqn:Hp0. induction Hrun as [p|f p q r Hrun IH Hst Hok].
  - subst p. split; [by apply started_sound|]. split; [by apply flow_started|]. split; cbn.
    + congruence.
    + intros a (k & _ & Hk)%resume_frontier. congruence.
    + by intros n ?%elem_of_nil.
    + by intros n ?%elem_of_nil.
    + done.
  - destruct (IH Hp0) as (Hs & Hf & Hk). split; [by eapply pipeline_sound_step|]. split; [|by eapply stuck_step].
    eapply flow_step; [lia|exact Hf| |exact Hst]. intros m Hin. apply Hk in Hin as ->. cbn. lia.
Qed.
End runs.
