(* ===== verification/IndexerParser.v ===== *)
(** * IndexerParser: decoding logs (indexing_system/src/parser.rs, and the block processor of parallel_indexer.rs)

    The parser keeps the event definitions of the registered contracts and turns
    a log of the chain into an event.  Ethereum's addresses and hashes are
    numbers; what the crates ethers, serde_json and hex do is an interface,
    [Ethers]. *)

From Stdlib Require Import Ascii.
From S2P Require Import Prelude.
From S2P Require Import Indexer.

(** ** Data of ethers *)

(** [ethers::abi::Token]; bytes are numbers below 256. *)
Inductive Token : Type :=
  | TkAddress (addr : Z) | TkUint (val : Z) | TkInt (val : Z) | TkBool (b : bool) | TkString (s : string)
  | TkBytes (b : list Z) | TkFixedBytes (b : list Z) | TkArray (tokens : list Token) | TkFixedArray (tokens : list Token)
  | TkTuple (tokens : list Token).

(** [ethers::types::Log]; a log index fits 32 bits, so [as_u32] keeps it. *)
Record Log : Type := mkLog {
  lg_address : Z;
  lg_topics : list Z;
  lg_data : list Z;
  lg_block_number : option Z;
  lg_transaction_hash : option Z;
  lg_log_index : option Z;
}.

Class Ethers (E : Type) : Type := {
  parse_address : string → string + Z;                     (* [str::parse::<Address>] *)
  format_address : Z → string;                             (* [{:?}] of an address *)
  format_hash : Z → string;                                (* [{:?}] of a hash *)
  format_uint : Z → string;                                (* [U256::to_string] *)
  hex_encode : list Z → string;
  abi_events : string → string + list E;                   (* the events of an ABI, from its text *)
  event_def_name : E → string;
  event_def_signature : E → Z;
  decode_log : E → list Z → list Z → string + list (string * Token);  (* [Event::parse_log] *)
}.

(** ** Strings and objects *)

Definition lower_ascii (c : ascii) : ascii :=
  let n := nat_of_ascii c in if (65 <=? n)%nat && (n <=? 90)%nat then ascii_of_nat (n + 32) else c.

(** [str::to_lowercase] on the characters of addresses *)
Fixpoint to_lowercase (s : string) : string :=
  match s with
  | EmptyString => EmptyString
  | String c s => String (lower_ascii c) (to_lowercase s)
  end.

(** [serde_json::Map::insert]: the map is sorted by its keys. *)
Fixpoint object_insert (key : string) (v : Value) (l : list (string * Value)) : list (string * Value) :=
  match l with
  | [] => [(key, v)]
  | (k, x) :: rest =>
      if String.eqb k key then (key, v) :: rest
      else if String.ltb key k then (key, v) :: l
      else (k, x) :: object_insert key v rest
  end.

(** ** The parser *)

Record EventParser (E : Type) : Type := mkEventParser {
  contract_abis : gmap string (list E);
  event_signatures : gmap Z (string * E);
}.
Arguments mkEventParser {E}.
Arguments contract_abis {E}.
Arguments event_signatures {E}.

Section parser.
Context {E : Type} `{Ethers E} {F : Type}.

Definition new_parser : EventParser E := mkEventParser ∅ ∅.

Definition index_signatures (contract_address : string) (events : list E) (m : gmap Z (string * E)) : gmap Z (string * E) :=
  foldl (λ m event, <[event_def_signature event := (contract_address, event)]> m) m events.

Definition register_contract (contract_address abi_json : string) (p : EventParser E) : IndexerError F + EventParser E :=
  match abi_events abi_json with
  | inl e => inl (IE_EventParsing F ("Invalid ABI: " +:+ e))
  | inr events =>
      inr (mkEventParser (<[to_lowercase contract_address := events]> (contract_abis p))
             (index_signatures contract_address events (event_signatures p)))
  end.

(** [collect] of results: the first error ends it. *)
Definition collect {A B X} (f : A → X + B) : list A → X + list B :=
  fix go l :=
    match l with
    | [] => inr []
    | a :: l => match f a with
                | inl e => inl e
                | inr b => match go l with inl e => inl e | inr bs => inr (b :: bs) end
                end
    end.

Fixpoint token_to_json (token : Token) : IndexerError F + Value :=
  match token with
  | TkAddress addr => inr (VString (format_address addr))
  | TkUint val | TkInt val => inr (VString (format_uint val))
  | TkBool b => inr (VBool b)
  | TkString s => inr (VString s)
  | TkBytes b | TkFixedBytes b => inr (VString ("0x" +:+ hex_encode b))
  | TkArray tokens | TkFixedArray tokens | TkTuple tokens =>
      match collect token_to_json tokens with
      | inl e => inl e
      | inr values => inr (VArray values)
      end
  end.

(** The loop over the decoded parameters *)
Fixpoint params_to_json (params : list (string * Token)) (object : list (string * Value)) :
    IndexerError F + list (string * Value) :=
  match params with
  | [] => inr object
  | (name, token) :: rest =>
      match token_to_json token with
      | inl e => inl e
      | inr value => params_to_json rest (object_insert name value object)
      end
  end.

Definition or_missing {A} (what : string) (o : option A) : IndexerError F + A :=
  match o with None => inl (IE_EventParsing F ("Missing " +:+ what)) | Some a => inr a end.

(** The event of a log that was decoded; its fields are evaluated in order. *)
Definition event_of_log (contract_address name : string) (log : Log) (object : list (string * Value)) :
    IndexerError F + CreateEvent :=
  match or_missing "block number" (lg_block_number log) with
  | inl e => inl e
  | inr block =>
      match or_missing "transaction hash" (lg_transaction_hash log) with
      | inl e => inl e
      | inr hash =>
          match or_missing "log index" (lg_log_index log) with
          | inl e => inl e
          | inr index => inr (mkCreateEvent contract_address name block (format_hash hash) index (VObject object))
          end
      end
  end.

Definition parse_log (p : EventParser E) (log : Log) : IndexerError F + option CreateEvent :=
  let contract_address := to_lowercase (format_address (lg_address log)) in
  match contract_abis p !! contract_address with
  | None => inr None
  | Some _ =>
      match lg_topics log with
      | [] => inr None
      | event_signature :: _ =>
          match event_signatures p !! event_signature with
          | None => inr None
          | Some (_, event_def) =>
              match decode_log event_def (lg_topics log) (lg_data log) with
              | inl e => inl (IE_EventParsing F ("Failed to decode event: " +:+ e))
              | inr params =>
                  match params_to_json params [] with
                  | inl e => inl e
                  | inr object =>
                      match event_of_log contract_address (event_def_name event_def) log object with
                      | inl e => inl e
                      | inr event => inr (Some event)
                      end
                  end
              end
          end
      end
  end.

(** The loop over the fetched logs *)
Fixpoint parse_logs (p : EventParser E) (logs : list Log) : IndexerError F + list CreateEvent :=
  match logs with
  | [] => inr []
  | log :: rest =>
      match parse_log p log with
      | inl e => inl e
      | inr event =>
          match parse_logs p rest with
          | inl e => inl e
          | inr events => inr (match event with Some event => event :: events | None => events end)
          end
      end
  end.

Definition get_registered_contracts (p : EventParser E) : list string := (map_to_list (contract_abis p)).*1.
Definition is_contract_registered (p : EventParser E) (address : string) : bool :=
  bool_decide (is_Some (contract_abis p !! to_lowercase address)).

(** ** Fetching a range *)

Section fetch.
Context {W : Type} (get_logs : Z → Z → Z → W → (string + list Log) * W).

(** The logs of the address in the range, parsed: [BlockProcessor::process],
    and the first half of [index_block_range]. *)
Definition fetch_events (p : EventParser E) (contract_address : string) (from_block to_block : Z) (w : W) :
    (IndexerError F + list CreateEvent) * W :=
  match parse_address contract_address with
  | inl e => (inl (IE_EventParsing F ("Invalid address: " +:+ e)), w)
  | inr address =>
      match get_logs address from_block to_block w with
      | (inl e, w) => (inl (IE_Rpc F ("Failed to fetch logs: " +:+ e)), w)
      | (inr [], w) => (inr [], w)
      | (inr logs, w) => (parse_logs p logs, w)
      end
  end.

Definition process (p : EventParser E) (task : BlockRangeTask) (w : W) : (IndexerError F + list CreateEvent) * W :=
  fetch_events p (bt_contract_address task) (bt_from_block task) (bt_to_block task) w.
End fetch.
End parser.

(** ** What the parser guarantees *)

Section facts.
Context {E : Type} `{Ethers E} {F : Type}.
Implicit Types p : EventParser E.

Lemma collect_Forall {A B X} (f : A → X + B) l : Forall (λ a, ∃ b, f a = inr b) l → ∃ bs, collect f l = inr bs.
Proof. induction 1 as [|a l [b Hb] _ [bs IH]]; cbn; [by eexists|]. rewrite Hb. fold (collect f). rewrite IH. by eexists. Qed.

(** Every token has a value: the conversion never fails. *)
Lemma token_to_json_total : ∀ t : Token, ∃ v, token_to_json (F := F) t = inr v.
Proof.
  fix IH 1. intros t.
  assert (Hl : ∀ l, Forall (λ t, ∃ v, token_to_json (F := F) t = inr v) l) by (fix IHl 1; intros [|a l]; constructor; auto).
  destruct t; cbn; try (by eexists);
    match goal with l : list Token |- _ => destruct (collect_Forall _ l (Hl l)) as [bs ->] end; by eexists.
Qed.

Lemma params_to_json_total params : ∀ object, ∃ object', params_to_json (F := F) params object = inr object'.
Proof.
  induction params as [|[name t] params IH]; intros object; cbn; [by eexists|].
  destruct (token_to_json_total t) as [v ->]. apply IH.
Qed.

(** Lower-casing is done once. *)
Lemma lower_ascii_idem c : lower_ascii (lower_ascii c) = lower_ascii c.
Proof. destruct c as [[] [] [] [] [] [] [] []]; reflexivity. Qed.
Lemma to_lowercase_idem s : to_lowercase (to_lowercase s) = to_lowercase s.
Proof. induction s as [|c s IH]; cbn; [done|]. by rewrite lower_ascii_idem, IH. Qed.

Lemma index_signatures_spec a events : ∀ m t c e,
  index_signatures a events m !! t = Some (c, e) →
  (c = a ∧ e ∈ events ∧ event_def_signature e = t) ∨ m !! t = Some (c, e) ∧ ∀ x, x ∈ events → event_def_signature x ≠ t.
Proof.
  unfold index_signatures. induction events as [|x events IH] using rev_ind; intros m t c e Hl;
    [right; split; [done|]; by intros ? ?%elem_of_nil|].
  rewrite foldl_app in Hl. cbn in Hl. apply lookup_insert_Some in Hl as [[<- [= <- <-]]|[Hne Hl]].
  - left. split_and!; [done| |done]. apply elem_of_app. right. left.
  - apply IH in Hl as [(-> & Hin & Hs)|[Hl Hx]].
    + left. split_and!; [done| |done]. apply elem_of_app. by left.
    + right. split; [done|]. intros y [Hy|Hy%list_elem_of_singleton]%elem_of_app; [by apply Hx|congruence].
Qed.

(** An event comes out of a log exactly when the log's contract is registered,
    its first topic is a known signature, the definition stored for it decodes
    the log, and the log has been mined. *)
Lemma parse_log_event p log e :
  parse_log (F := F) p log = inr (Some e) ↔
  ∃ t ts c def params object n h i,
    is_contract_registered p (format_address (lg_address log)) = true ∧
    lg_topics log = t :: ts ∧ event_signatures p !! t = Some (c, def) ∧
    decode_log def (lg_topics log) (lg_data log) = inr params ∧ params_to_json (F := F) params [] = inr object ∧
    lg_block_number log = Some n ∧ lg_transaction_hash log = Some h ∧ lg_log_index log = Some i ∧
    e = mkCreateEvent (to_lowercase (format_address (lg_address log))) (event_def_name def) n (format_hash h) i (VObject object).
Proof.
  unfold parse_log, is_contract_registered, event_of_log. split.
  - destruct (contract_abis p !! _) eqn:Ha; [|done]. destruct (lg_topics log) as [|t ts] eqn:Ht; [done|].
    destruct (event_signatures p !! t) as [[c def]|] eqn:Hs; [|done].
    destruct (decode_log def (t :: ts) _) as [|params] eqn:Hd; [done|].
    destruct (params_to_json params []) as [|object] eqn:Hp; [done|].
    destruct (lg_block_number log) as [n|] eqn:Hn; [|done]. destruct (lg_transaction_hash log) as [h|] eqn:Hh; [|done].
    destruct (lg_log_index log) as [i|] eqn:Hi; [|done]. cbn. intros [= <-].
    exists t, ts, c, def, params, object, n, h, i. split_and!; try done; by rewrite bool_decide_true.
  - intros (t & ts & c & def & params & object & n & h & i & Hr & Ht & Hs & Hd & Hp & Hn & Hh & Hi & ->).
    apply bool_decide_eq_true in Hr as [a ->]. rewrite Ht in *. by rewrite Hs, Hd, Hp, Hn, Hh, Hi.
Qed.

(** It fails only on a log of a registered contract with a known signature. *)
Lemma parse_log_error p log e :
  parse_log (F := F) p log = inl e →
  is_contract_registered p (format_address (lg_address log)) = true ∧
  ∃ t c def, head (lg_topics log) = Some t ∧ event_signatures p !! t = Some (c, def) ∧
    ((∃ m, decode_log def (lg_topics log) (lg_data log) = inl m) ∨ lg_block_number log = None ∨
     lg_transaction_hash log = None ∨ lg_log_index log = None).
Proof.
  unfold parse_log, is_contract_registered, event_of_log.
  destruct (contract_abis p !! _) eqn:Ha; [|done]. destruct (lg_topics log) as [|t ts] eqn:Ht; [done|].
  destruct (event_signatures p !! t) as [[c def]|] eqn:Hs; [|done].
  destruct (decode_log def (t :: ts) _) as [m|params] eqn:Hd.
  - intros _. split; [by rewrite bool_decide_true|]. exists t, c, def. split_and!; [done..|]. left. by exists m.
  - destruct (params_to_json_total params []) as [object ->]. unfold or_missing.
    destruct (lg_block_number log), (lg_transaction_hash log), (lg_log_index log); intros Hx; try done;
      (split; [by rewrite bool_decide_true|]); exists t, c, def; split_and!; auto.
Qed.

Lemma index_signatures_None a events : ∀ m t,
  index_signatures a events m !! t = None → ∀ x, x ∈ events → event_def_signature x ≠ t.
Proof.
  unfold index_signatures. induction events as [|y events IH] using rev_ind; intros m t Hl x Hx; [by apply elem_of_nil in Hx|].
  rewrite foldl_app in Hl. cbn in Hl. apply lookup_insert_None in Hl as [Hl Hne].
  apply elem_of_app in Hx as [Hx|Hx%list_elem_of_singleton]; [by eapply IH|by subst].
Qed.

(** Definitions are kept by signature for all contracts together: once a
    contract registers one, it decodes the logs of every other contract with that
    signature; where it cannot - the contracts may index different parameters -
    their logs are rejected. *)
Theorem definitions_are_shared a json p p' events def log t ts m :
  register_contract (F := F) a json p = inr p' → abi_events json = inr events → def ∈ events → event_def_signature def = t →
  (∀ x, x ∈ events → event_def_signature x = t → x = def) → lg_topics log = t :: ts →
  is_contract_registered p (format_address (lg_address log)) = true → decode_log def (lg_topics log) (lg_data log) = inl m →
  parse_log (F := F) p' log = inl (IE_EventParsing F ("Failed to decode event: " +:+ m)).
Proof.
  intros Hr He Hdef Ht Huniq Htop Hreg Hdec. unfold register_contract in Hr. rewrite He in Hr. injection Hr as <-.
  apply bool_decide_eq_true in Hreg as [abi Habi]. unfold parse_log. cbn.
  assert (is_Some (<[to_lowercase a := events]> (contract_abis p) !! to_lowercase (format_address (lg_address log)))) as [abi' ->].
  { apply lookup_insert_is_Some. destruct (decide (to_lowercase a = to_lowercase (format_address (lg_address log)))); [by left|].
    right. split; [done|by exists abi]. }
  rewrite Htop. destruct (index_signatures a events (event_signatures p) !! t) as [[c x]|] eqn:Hs.
  - apply index_signatures_spec in Hs as [(-> & Hin & Hx)|[_ Hx]]; [|by destruct (Hx def)].
    rewrite (Huniq x Hin Hx), <- Htop. by rewrite Hdec.
  - by destruct (index_signatures_None _ _ _ _ Hs def).
Qed.

(** The events of a list of logs, in their order; one log that cannot be decoded
    spoils all of them. *)
Lemma parse_logs_Ok p logs es :
  parse_logs (F := F) p logs = inr es ↔
  Forall (λ log, ∃ o, parse_log (F := F) p log = inr o) logs ∧
  es = omap (λ log, match parse_log (F := F) p log with inr o => o | inl _ => None end) logs.
Proof.
  revert es. induction logs as [|log logs IH]; intros es; cbn.
  - split; [intros [= <-]; by split; [constructor|]|by intros [_ ->]].
  - destruct (parse_log p log) as [e|o] eqn:Hp.
    + split; [done|]. intros [Hf _]. apply Forall_cons in Hf as [[o Ho] _]. congruence.
    + destruct (parse_logs p logs) as [e|l] eqn:Hl.
      * split; [done|]. intros [Hf _]. apply Forall_cons in Hf as [_ Hf]. by pose proof (proj2 (IH _) (conj Hf eq_refl)).
      * destruct (proj1 (IH l) eq_refl) as [Hf ->]. split.
        -- intros [= <-]. split; [|by destruct o]. constructor; [by exists o|done].
        -- intros [_ ->]. by destruct o.
Qed.
End facts.
