(* ===== verification/IndexerRuns.v ===== *)
(** * IndexerRuns: reorganisations, unreadable blocks, and the event indexer on a small chain

    What handling a reorganisation leaves, and concrete runs: a complete one, one
    in which the database fails once, and reorganisations after which nothing
    more is indexed or stale events are kept.

    A block whose logs cannot be fetched or decoded makes every task that
    contains it fail, after its retries.  The state manager then waits for that
    task for ever: nothing of the contract from that block on is indexed, while
    other contracts go on. *)

From S2P Require Import Prelude.
From S2P Require Import Indexer.
From S2P Require Import IndexerSafety.
From S2P Require Import IndexerTheorems.
From S2P Require Import IndexerParser.

(** ** Reorganisations *)

Definition reset_metadata (reorg_block : Z) (d : Database) (l : list (string * Z)) : Database :=
  foldl (λ d '(contract, last_indexed_block),
    if as_i64 reorg_block <=? last_indexed_block then update_metadata contract (Z.max 0 (reorg_block - 1)) d else d) d l.

Lemma reset_other b l : ∀ d c, c ∉ l.*1 → db_metadata (reset_metadata b d l) !! c = db_metadata d !! c.
Proof.
  induction l as [|[a k] l IH]; intros d c Hc; [done|]. cbn in Hc. apply not_elem_of_cons in Hc as [Hne Hc].
  cbn. fold (reset_metadata b). destruct (_ <=? _); change (foldl _ ?x l) with (reset_metadata b x l); rewrite IH by done; [|done].
  rewrite update_metadata_lookup. by destruct (decide _).
Qed.

Lemma reset_one b l : ∀ d c n,
  0 < b < 2 ^ 63 → NoDup l.*1 → (c, n) ∈ l → db_metadata d !! c = Some (mkIndexingMetadata n true) →
  db_metadata (reset_metadata b d l) !! c = Some (mkIndexingMetadata (Z.min n (b - 1)) true).
Proof.
  induction l as [|[a k] l IH]; intros d c n Hb Hl Hin Hm; [by apply elem_of_nil in Hin|].
  cbn in Hl. apply NoDup_cons in Hl as [Ha Hl]. cbn. pose proof (as_i64_small b ltac:(lia)) as Hi.
  apply elem_of_cons in Hin as [[= <- <-]|Hin].
  - destruct (Z.leb_spec (as_i64 b) n); change (foldl _ ?x l) with (reset_metadata b x l); rewrite reset_other by done.
    + rewrite update_metadata_lookup, decide_True, Hm by done. cbn. rewrite as_i64_small by lia. repeat f_equal. lia.
    + rewrite Hm. repeat f_equal. lia.
  - assert (c ≠ a) by (intros ->; apply Ha, list_elem_of_fmap; by exists (a, n)).
    destruct (as_i64 b <=? k); change (foldl _ ?x l) with (reset_metadata b x l); apply IH; try done.
    by rewrite update_metadata_lookup, decide_False by congruence.
Qed.

(** Handling a reorganisation from a block after the first removes every event
    from that block on and keeps the others, takes each active contract back to
    the block before, if it was past it, and its frontier likewise; so a contract
    whose frontier was the block after the one indexed last is so again, and
    nothing held back starts in the blocks that are to be read again. *)
Theorem reorg_takes_back block s d :
  0 < block < 2 ^ 63 →
  let '(s', d') := handle_reorg block s d in
  (∀ k e, db_events d' !! k = Some e ↔ db_events d !! k = Some e ∧ as_i64 (ev_block_number e) < block) ∧
  (∀ c n, db_metadata d !! c = Some (mkIndexingMetadata n true) →
     db_metadata d' !! c = Some (mkIndexingMetadata (Z.min n (block - 1)) true)) ∧
  (∀ c, commit_frontier s' !! c = (λ a, Z.min a block) <$> commit_frontier s !! c) ∧
  (∀ c n, db_metadata d !! c = Some (mkIndexingMetadata n true) → commit_frontier s !! c = Some (n + 1) →
     ∃ n', db_metadata d' !! c = Some (mkIndexingMetadata n' true) ∧ commit_frontier s' !! c = Some (n' + 1)) ∧
  (∀ c f r, pending s' !! (c, f) = Some r ↔ pending s !! (c, f) = Some r ∧ f < block) ∧ reorg_signal s' = None.
Proof.
  intros Hb. unfold handle_reorg. cbn.
  set (d1 := delete_events_from_block block d). change (foldl _ d1 ?l) with (reset_metadata block d1 l).
  assert (Hmeta : ∀ c n, db_metadata d !! c = Some (mkIndexingMetadata n true) →
     db_metadata (reset_metadata block d1 (active_metadata d1)) !! c = Some (mkIndexingMetadata (Z.min n (block - 1)) true)).
  { intros c n Hc. apply reset_one; [done|apply active_NoDup|by apply active_elem|done]. }
  assert (Hev : ∀ l d0, db_events (reset_metadata block d0 l) = db_events d0).
  { induction l as [|[c n] l IH]; intros d0; [done|]. cbn. destruct (_ <=? _);
      change (foldl _ ?x l) with (reset_metadata block x l); rewrite IH; [|done].
    unfold update_metadata. by destruct (db_metadata d0 !! c). }
  assert (Hfront : ∀ c, (λ a, if block <? a then block else a) <$> commit_frontier s !! c =
                        (λ a, Z.min a block) <$> commit_frontier s !! c).
  { intros c. destruct (commit_frontier s !! c) as [a|]; [|done]. cbn. f_equal. destruct (Z.ltb_spec block a); lia. }
  split_and!; [|done| | | |done].
  - intros k e. rewrite Hev. cbn. rewrite map_lookup_filter_Some. cbn. by rewrite (as_i64_small block) by lia.
  - intros c. by rewrite lookup_fmap.
  - intros c n Hc Hf. exists (Z.min n (block - 1)). split; [by apply Hmeta|]. rewrite lookup_fmap, Hfront, Hf. cbn.
    f_equal. lia.
  - intros c f r. by rewrite map_lookup_filter_Some.
Qed.

(** ** A small chain *)

(** One event of the contract "pool" in each of the blocks 1, 2 and 3 *)
Definition event_of (n : Z) (hash : string) : CreateEvent := mkCreateEvent "pool" "Deposit" n hash 0 (VBool true).
Definition small_chain (contract : string) (n : Z) : list CreateEvent :=
  if bool_decide (contract = "pool") then
    match n with 1 => [event_of 1 "a"] | 2 => [event_of 2 "b"] | 3 => [event_of 3 "c"] | _ => [] end
  else [].

(** Ranges of two blocks, two workers, and a node that always answers *)
Definition small_config : IndexerConfig := mkIndexerConfig 0 2 1 0 1 false 2 1000.
Definition answer (t : BlockRangeTask) (w : unit) : (IndexerError Empty_set + list CreateEvent) * unit :=
  (inr (range_events small_chain (bt_contract_address t) (bt_from_block t) (bt_to_block t)), w).
Definition no_sleep (ms : Z) (w : unit) : unit := w.
Definition no_time (w w' : unit) : Z := 0.

Lemma small_chain_cases c n e :
  e ∈ small_chain c n → c = "pool" ∧ ∃ h, e = event_of n h ∧ (n = 1 ∧ h = "a" ∨ n = 2 ∧ h = "b" ∨ n = 3 ∧ h = "c").
Proof.
  unfold small_chain. case_bool_decide as Hc; [|by intros ?%elem_of_nil]. intros H. split; [done|].
  destruct n as [|[[p|p|]|[p|p|]|]|p]; try (by apply elem_of_nil in H); apply list_elem_of_singleton in H as ->;
    eexists; (split; [reflexivity|auto]).
Qed.

Lemma small_sensible : sensible small_config answer 3 small_chain.
Proof.
  split; try done.
  - by intros t w es w' [= <- _].
  - intros c n e c' n' e' (-> & h & -> & Hn)%small_chain_cases (-> & h' & -> & Hn')%small_chain_cases [= Hh].
    destruct Hn as [[-> ->]|[[-> ->]|[-> ->]]], Hn' as [[-> ->]|[[-> ->]|[-> ->]]]; done.
Qed.

Abbreviation small_run := (pipeline_run small_config answer no_sleep no_time 3).

Lemma run_first {F W config process sleep elapsed max_block} (ok : Faults → Pipeline (F := F) → Prop) f p q r :
  pipeline_step (W := W) config process sleep elapsed max_block f p q → ok f q →
  pipeline_run config process sleep elapsed max_block ok q r → pipeline_run config process sleep elapsed max_block ok p r.
Proof.
  intros Hs Ho Hr. induction Hr as [q|g q r t Hr IH Hst Hok]; [eapply run_step; [apply run_refl|done..]|].
  eapply run_step; [by apply IH|done..].
Qed.

Definition result_of (t : BlockRangeTask) : BlockRangeResult :=
  mkBlockRangeResult t (range_events small_chain (bt_contract_address t) (bt_from_block t) (bt_to_block t)) 0.

(** A round for one contract with two ranges; the second one is read first. *)
Definition range1 : BlockRangeTask := mkBlockRangeTask "pool" 1 2 0.
Definition range2 : BlockRangeTask := mkBlockRangeTask "pool" 3 3 0.

Definition pool_known : Database := mkDatabase {["pool" := mkIndexingMetadata 0 true]} ∅.

(** The state after the round *)
Definition after_round (f1 f2 : Faults) : Pipeline (F := Empty_set) :=
  let '(_, s) := register_all [result_of range2; result_of range1] (resume pool_known) in
  mkPipeline s (commit_batch f2 (result_of range2) (commit_batch f1 (result_of range1) pool_known)) (Sending []) [] [] [] [] [].

Ltac advance f Hok := eapply (run_first _ f); [|apply Hok; set_solver|]; cbn.

Lemma round_run (ok : Faults → Pipeline → Prop) f1 f2 :
  (∀ f p, f ∈ [no_faults; f1; f2] → ok f p) → small_run ok (started pool_known) (after_round f1 f2).
Proof.
  intros Hok.
  advance no_faults Hok; [eapply step_poll with (ms := [("pool", 0)]); reflexivity|].
  advance no_faults Hok; [eapply step_plan with (fuel := 10%nat) (current_block := 3); [reflexivity|lia|reflexivity]|].
  do 2 (advance no_faults Hok; [eapply step_send; [reflexivity|cbn; lia]|]).
  do 2 (advance no_faults Hok; [eapply step_take; [reflexivity|cbn; lia|reflexivity]|]).
  advance no_faults Hok; [eapply step_work with (before := []) (w := tt); [reflexivity|cbn; lia|reflexivity]|].
  advance no_faults Hok; [eapply step_work with (before := []) (w := tt); [reflexivity|cbn; lia|reflexivity]|].
  do 2 (advance no_faults Hok; [eapply step_result; [reflexivity|reflexivity|apply surjective_pairing]|]).
  advance f1 Hok; [eapply step_commit; reflexivity|].
  advance f2 Hok; [eapply step_commit; reflexivity|].
  apply run_refl.
Qed.

(** When the database fails to insert one batch and takes the next, the
    events of the first batch are lost: the contract counts as indexed past
    them, and so does the state manager, so they are not asked for again. *)
Theorem failed_batches_are_lost :
  let p := after_round (mkFaults (Some 0%nat) false) no_faults in
  small_run (λ _ _, True) (started pool_known) p ∧
  event_of 1 "a" ∈ small_chain "pool" 1 ∧ db_events (pl_database p) !! event_key (event_of 1 "a") = None ∧
  db_metadata (pl_database p) !! "pool" = Some (mkIndexingMetadata 3 true) ∧
  commit_frontier (pl_manager p) !! "pool" = Some 4.
Proof. split; [by apply round_run|]. vm_compute. split; [left|done]. Qed.

(** After a reorganisation from the first block of all, a contract counts as
    indexed up to block 0, while the state manager waits for block 0: nothing of
    it is indexed any more.  And results that started before the block of a
    reorganisation are kept, with the events of the blocks after it. *)
Theorem reorganisations_can_stop_and_mislead :
  (let p := after_round no_faults no_faults in
   let '(s, d) := handle_reorg 0 (pl_manager p) (pl_database p) in
   db_metadata d !! "pool" = Some (mkIndexingMetadata 0 true) ∧ commit_frontier s !! "pool" = Some 0 ∧
   dispatch_tasks 10 small_config 3 (active_metadata d) = Some [range1; range2] ∧
   (register_all [result_of range1; result_of range2] s).1 = []) ∧
  (let late := result_of (mkBlockRangeTask "pool" 2 3 0) in
   let '(_, s) := register_result late (resume pool_known) in
   let '(s, d) := handle_reorg 3 s pool_known in
   pending s !! ("pool", 2) = Some late ∧ event_of 3 "c" ∈ br_events late).
Proof. vm_compute. split_and!; try done. right. left. Qed.

(** ** Witnesses *)

Lemma results_are_committed_in_order_witness :
  let rs := [result_of range2; result_of (mkBlockRangeTask "swap" 7 7 0); result_of range1] in
  (register_all rs (resume pool_known)).1 = [result_of range1; result_of range2] ∧
  filter (λ r, br_contract r = "pool") (register_all rs (resume pool_known)).1 = [result_of range1; result_of range2].
Proof.
  split; [vm_compute; reflexivity|].
  refine (proj1 (proj1 (results_are_committed_in_order "pool" 1 1 4 [result_of range1; result_of range2] _ (resume pool_known) _ _ _ _ _ _ _ _ _ (surjective_pairing _)) eq_refl)).
  - change (keyed ∅). intros k r Hr. by rewrite lookup_empty in Hr.
  - vm_compute; reflexivity.
  - intros f. apply (lookup_empty (M := gmap (string * Z))).
  - lia.
  - vm_compute; discriminate.
  - repeat (constructor; [vm_compute; discriminate|]). constructor.
  - vm_compute. apply perm_swap.
Defined.

Lemma indexed_blocks_are_in_the_tables_witness :
  ∃ p last, small_run faultless (started pool_known) p ∧
    db_metadata (pl_database p) !! "pool" = Some (mkIndexingMetadata last true) ∧ last = 3 ∧
    ∀ n e, e ∈ small_chain "pool" n → (db_events (pl_database p) !! event_key e = Some e ↔ n ≤ last).
Proof.
  assert (Hrun : small_run faultless (started pool_known) (after_round no_faults no_faults)).
  { apply round_run. intros f p Hf. unfold faultless. set_solver. }
  destruct (indexed_blocks_are_in_the_tables small_config answer no_sleep no_time 3 small_chain small_sensible
              pool_known "pool" 0 (after_round no_faults no_faults)) as (last & Hm & Hl & _ & He).
  - vm_compute; reflexivity.
  - lia.
  - intros k e Hk. change ((∅ : gmap (string * Z) CreateEvent) !! k = Some e) in Hk. by rewrite lookup_empty in Hk.
  - exact Hrun.
  - exists (after_round no_faults no_faults), last. split; [exact Hrun|]. split; [exact Hm|].
    split; [vm_compute in Hm; by injection Hm as <-|]. apply He.
    intros n e Hin. change (db_events pool_known) with (∅ : gmap (string * Z) CreateEvent). rewrite lookup_empty. split; [done|].
    apply small_chain_cases in Hin as (_ & h & _ & Hn). lia.
Defined.

(** "pool" is registered from block 1, asked for from block 2, and not written. *)
Definition nothing_known : Database := mkDatabase ∅ ∅.
Definition after_registration : Pipeline (F := Empty_set) :=
  let '(_, s) := register_all [result_of (mkBlockRangeTask "pool" 2 3 0)] (add_frontier "pool" 1 (resume nothing_known)) in
  mkPipeline s (get_or_create_metadata "pool" 1 nothing_known) (Sending []) [] [] [] [] [].

Lemma registration_run : small_run (registers_from "pool" 1) (started nothing_known) after_registration.
Proof.
  assert (Hnone : ∀ f p, pl_registering p = [] → registers_from (F := Empty_set) "pool" 1 f p).
  { intros f p Hp n Hn. rewrite Hp in Hn. by apply elem_of_nil in Hn. }
  eapply (run_first _ no_faults); [apply step_register with (contract := "pool") (start := 1)|..].
  { intros n [[= ->]|?%elem_of_nil]%elem_of_cons; done. }
  eapply (run_first _ no_faults); [eapply step_registered with (before := []); reflexivity|by apply Hnone|]. cbn.
  eapply (run_first _ no_faults); [eapply step_poll with (ms := [("pool", 1)]); reflexivity|by apply Hnone|]. cbn.
  eapply (run_first _ no_faults);
    [eapply step_plan with (fuel := 10%nat) (current_block := 3); [reflexivity|lia|reflexivity]|by apply Hnone|]. cbn.
  eapply (run_first _ no_faults); [eapply step_send; [reflexivity|cbn; lia]|by apply Hnone|]. cbn.
  eapply (run_first _ no_faults); [eapply step_take; [reflexivity|cbn; lia|reflexivity]|by apply Hnone|]. cbn.
  eapply (run_first _ no_faults);
    [eapply step_work with (before := []) (w := tt); [reflexivity|cbn; lia|reflexivity]|by apply Hnone|]. cbn.
  eapply (run_first _ no_faults); [eapply step_result; [reflexivity|reflexivity|apply surjective_pairing]|by apply Hnone|].
  apply run_refl.
Qed.

Lemma new_contracts_are_not_indexed_witness :
  db_metadata (pl_database after_registration) !! "pool" = Some (mkIndexingMetadata 1 true) ∧
  (∀ m, db_metadata (pl_database after_registration) !! "pool" = Some m → m = mkIndexingMetadata 1 true) ∧
  ∀ n e, e ∈ small_chain "pool" n → db_events (pl_database after_registration) !! event_key e = Some e →
    db_events nothing_known !! event_key e = Some e.
Proof.
  split; [vm_compute; reflexivity|].
  apply (new_contracts_are_not_indexed small_config answer no_sleep no_time 3 small_chain small_sensible
           nothing_known "pool" 1 after_registration).
  - vm_compute; reflexivity.
  - lia.
  - intros k e Hk. change ((∅ : gmap (string * Z) CreateEvent) !! k = Some e) in Hk. by rewrite lookup_empty in Hk.
  - exact registration_run.
Defined.

Lemma reorg_takes_back_witness :
  ∃ s d, handle_reorg 2 (pl_manager (after_round no_faults no_faults)) (pl_database (after_round no_faults no_faults)) = (s, d) ∧
    db_metadata d !! "pool" = Some (mkIndexingMetadata 1 true) ∧ commit_frontier s !! "pool" = Some 2.
Proof.
  pose proof (reorg_takes_back 2 (pl_manager (after_round no_faults no_faults)) (pl_database (after_round no_faults no_faults))) as H.
  destruct (handle_reorg _ _ _) as [s d] eqn:Hr. exists s, d. destruct H as (_ & Hm & Hf & _); [lia|].
  split; [done|]. split; [exact (Hm "pool" 3 ltac:(vm_compute; reflexivity))|]. rewrite Hf. vm_compute; reflexivity.
Defined.

(** No task of the contract that contains the block ever succeeds. *)
Definition never_read {F W} (process : BlockRangeTask → W → (IndexerError F + list CreateEvent) * W)
    (contract : string) (block : Z) : Prop :=
  ∀ t w es w', bt_contract_address t = contract → bt_from_block t ≤ block ≤ bt_to_block t → process t w ≠ (inr es, w').

(** ** A node that answers truthfully *)

Section honest.
Context {E F W : Type} `{Ethers E} (p : EventParser E) (block_logs : Z → Z → list Log)
        (get_logs : Z → Z → Z → W → (string + list Log) * W).

(** The node returns the logs of the blocks it is asked about, or fails. *)
Definition honest : Prop := ∀ a from to w logs w', get_logs a from to w = (inr logs, w') →
  logs = concat (map (block_logs a) (seqZ from (to - from + 1))).

(** The events in the logs of a contract's block *)
Definition logged (contract : string) (n : Z) : list CreateEvent :=
  match parse_address contract with
  | inl _ => []
  | inr a => omap (λ log, match parse_log (F := F) p log with inr o => o | inl _ => None end) (block_logs a n)
  end.

(** With such a node the block processor returns the events of its range. *)
Lemma process_logged t w es w' : honest → process (F := F) get_logs p t w = (inr es, w') →
  es = range_events logged (bt_contract_address t) (bt_from_block t) (bt_to_block t).
Proof.
  intros Hh Hp. unfold process, fetch_events in Hp. unfold range_events, logged.
  destruct (parse_address (bt_contract_address t)) as [|a]; [done|].
  destruct (get_logs a _ _ w) as [[e|logs] w1] eqn:Hg; [done|]. apply Hh in Hg.
  assert (Hes : parse_logs (F := F) p logs = inr es) by (destruct logs; by apply (f_equal fst) in Hp).
  apply parse_logs_Ok in Hes as [_ ->]. rewrite Hg. generalize (seqZ (bt_from_block t) (bt_to_block t - bt_from_block t + 1)) as l.
  induction l as [|n l IH]; [done|]. cbn [map concat]. by rewrite omap_app, IH.
Qed.
End honest.

(** ** What makes a block unreadable *)

(** One log that the parser rejects is enough. *)
Lemma bad_log_is_never_read {E F W} `{Ethers E} (get_logs : Z → Z → Z → W → (string + list Log) * W)
    (p : EventParser E) (contract : string) (block : Z) :
  (∀ a from to w logs w', get_logs a from to w = (inr logs, w') → parse_address contract = inr a → from ≤ block ≤ to →
     ∃ log e, log ∈ logs ∧ parse_log (F := F) p log = inl e) →
  never_read (process (F := F) get_logs p) contract block.
Proof.
  intros Hbad t w es w' Hc Hb. unfold process, fetch_events. rewrite Hc.
  destruct (parse_address contract) as [|a] eqn:Ha; [done|].
  destruct (get_logs a _ _ w) as [[e|logs] w1] eqn:Hg; [done|].
  destruct (Hbad _ _ _ _ _ _ Hg eq_refl Hb) as (log & e & Hin & Hp).
  destruct logs as [|x logs]; [by apply elem_of_nil in Hin|]. intros Hps%(f_equal fst).
  change (parse_logs (F := F) p (x :: logs) = inr es) in Hps. apply parse_logs_Ok in Hps as [Hf _]. rewrite Forall_forall in Hf. destruct (Hf _ Hin) as [o Ho]. congruence.
Qed.

(** So does an address that is none. *)
Lemma bad_address_is_never_read {E F W} `{Ethers E} (get_logs : Z → Z → Z → W → (string + list Log) * W)
    (p : EventParser E) (contract e : string) (block : Z) :
  parse_address contract = inl e → never_read (process (F := F) get_logs p) contract block.
Proof. intros Ha t w es w' Hc _. unfold process, fetch_events. by rewrite Hc, Ha. Qed.

(** ** What becomes of its contract *)

(** Consecutive ranges that start at or before a block which is in none of them
    end before it. *)
Lemma tiles_avoid a b block l :
  tiles a b l → a ≤ block → (∀ f t, (f, t) ∈ l → ¬ f ≤ block ≤ t) → b ≤ block.
Proof.
  induction 1 as [|a t b l Ha Hl IH]; intros Hb Havoid; [done|].
  apply IH; [|intros f t' Hin; apply Havoid; by right]. pose proof (Havoid a t ltac:(left)). lia.
Qed.

Section blocked.
Context {F W : Type} (config : IndexerConfig)
        (process : BlockRangeTask → W → (IndexerError F + list CreateEvent) * W)
        (sleep : Z → W → W) (elapsed : W → W → Z) (max_block : Z) (chain : string → Z → list CreateEvent)
        (Hsensible : sensible config process max_block chain)
        (contract : string) (low block : Z) (Hlow : -1 ≤ low) (Hblock : low < block ≤ max_block)
        (Hnever : never_read process contract block) (d : Database).

Abbreviation step := (pipeline_step config process sleep elapsed max_block).
Abbreviation run := (pipeline_run config process sleep elapsed max_block).
Abbreviation State := (Pipeline (F := F)).

(** A result does not have the block. *)
Definition avoids (r : BlockRangeResult) : Prop := br_contract r = contract → ¬ br_from r ≤ block ≤ br_to r.

Lemma attempts_avoid more : ∀ attempt t w es w',
  bt_contract_address t = contract → bt_from_block t ≤ block ≤ bt_to_block t →
  attempt_task config process sleep more attempt t w ≠ (inr es, w').
Proof using Hnever.
  induction more as [|more IH]; intros attempt t w es w' Hc Hb Ha; cbn [attempt_task] in Ha;
    destruct (process t _) as [[e|es'] w1] eqn:Hp; try done; try (by eapply Hnever). by eapply IH.
Qed.

Lemma work_avoids t w r w' : work config process sleep elapsed t w = (inr r, w') → avoids r.
Proof using Hnever.
  unfold work. destruct (attempt_task _ _ _ _ _ _ _) as [[e|es] w1] eqn:Ha; intros H; [done|].
  injection H as <- <-. intros Hc Hb. by eapply attempts_avoid.
Qed.

Record blocked (p : State) : Prop := {
  bl_metadata : ∃ last, db_metadata (pl_database p) !! contract = Some (mkIndexingMetadata last true) ∧ low ≤ last < block;
  bl_frontier : ∃ a, commit_frontier (pl_manager p) !! contract = Some a ∧ 0 ≤ a ≤ block;
  bl_results : ∀ r, inr r ∈ pl_results p → avoids r;
  bl_pending : ∀ k r, pending (pl_manager p) !! k = Some r → avoids r;
  bl_ready : ∀ r, r ∈ pl_ready p → br_contract r = contract → low ≤ br_to r < block;
  bl_events : ∀ n e, e ∈ chain contract n → block ≤ n → db_events (pl_database p) !! event_key e = Some e →
    db_events d !! event_key e = Some e;
}.

Lemma blocked_is_above p : blocked p → indexed_above max_block contract low (pl_database p).
Proof using Hblock. intros [(last & Hm & Hl) _ _ _ _ _] m Hin. rewrite Hm in Hin. injection Hin as <-. cbn. lia. Qed.

Lemma blocked_result p r rest ready s :
  flow max_block contract low p → blocked p → pl_results p = inr r :: rest → register_result r (pl_manager p) = (ready, s) →
  (∃ a, commit_frontier s !! contract = Some a ∧ 0 ≤ a ≤ block) ∧
  ∀ x, x ∈ ready → br_contract x = contract → low ≤ br_to x < block.
Proof using Hsensible Hlow Hblock.
  intros [_ _ _ Hr Hp Hk] [_ (a & Hf & Ha) Hbr Hbp _ _] Hres Hreg. pose proof (sn_chain _ _ _ _ Hsensible). pose proof (sn_size _ _ _ _ Hsensible).
  assert (Habove : above max_block contract low (br_task r)) by (apply Hr; rewrite Hres; left).
  pose proof Hreg as Hreg'. apply register_result_Ok in Hreg' as (_ & _ & Hin & Hother & _); [|done].
  destruct (decide (br_contract r = contract)) as [Hc|Hc].
  - destruct (register_tiles r (pl_manager p) ready s a max_block) as (m & Ht & Hm & Hle); rewrite ?Hc; try done; try lia.
    + intros x k Hx Hxc. destruct (Hp _ _ Hx) as (_ & ? & ?); [unfold br_contract in *; congruence|done].
    + destruct Habove as (_ & ? & ?); done.
    + change U64_MAX with (2 ^ 64 - 1). lia.
    + assert (Hav : ∀ x, x ∈ ready → above max_block contract low (br_task x) ∧ avoids x).
      { intros x Hx. apply Hin in Hx as [_ [->|[k Hx]]]; [|by split; [eapply Hp|eapply Hbp]].
        split; [done|]. apply Hbr. rewrite Hres. left. }
      assert (Hmb : m ≤ block).
      { eapply tiles_avoid; [exact Ht|lia|]. intros f t (x & [= -> ->] & Hx)%list_elem_of_fmap. apply (Hav x Hx).
        by apply Hin in Hx as [-> _]. }
      rewrite Hc in Hm. split; [exists m; apply tiles_le in Ht; split; [done|lia]|]. intros x Hx Hxc.
      destruct (Hav x Hx) as [(Hx1 & Hx2 & _) _]; [done|]. apply range_elem in Hx.
      pose proof (tiles_elem _ _ _ _ _ Ht Hx). unfold br_from, br_to in *. lia.
  - split; [rewrite Hother by congruence; by exists a|]. intros x Hx Hxc. apply Hin in Hx as [? _]. congruence.
Qed.

Lemma blocked_step f p q :
  sound chain p → flow max_block contract low p → blocked p → step f p q → blocked q.
Proof using Hsensible Hlow Hblock Hnever.
  intros Hs Hfl Hbl H. pose proof (sn_chain _ _ _ _ Hsensible). pose proof (sn_size _ _ _ _ Hsensible).
  pose proof Hbl as [Hm' Hf' Hr Hp Hy He]. pose proof Hm' as (last & Hm & Hl). pose proof Hf' as (a & Hf & Ha).
  inversion H as [? ? ms Hdp Hms|? ? ms fuel cb tasks Hdp Hcb Hdt|? ? t rest Hdp _|? ? Hdp|? ? t rest Htp _ _
    |? ? before t after w r w' Hwp _ Hwork|? ? e rest Hrp _|? ? r rest ready s Hrp Hry Hreg|? ? b rest Hb|? ? c n|? ? l1 c n l2 _];
    subst; try (by split).
  - split; cbn; try done. intros r' [Hin|Hin]%elem_of_app; [by apply Hr|].
    apply list_elem_of_singleton in Hin as [= <-]. by eapply work_avoids.
  - split; cbn; try done. intros r Hin. apply Hr. rewrite Hrp. by right.
  - destruct (blocked_result _ _ _ _ _ Hfl Hbl Hrp Hreg) as [Hn1 Hn2].
    apply register_result_Ok in Hreg as (_ & Hp' & _); [|apply Hfl]. split; cbn; try done.
    + intros x Hin. apply Hr. rewrite Hrp. by right.
    + intros k x [->|Hx]%Hp'; [apply Hr; rewrite Hrp; left|by eapply Hp].
  - destruct (commit_batch_spec f b (pl_database p)) as (_ & _ & _ & Hmeta & _).
    destruct (commit_events config process max_block chain Hsensible f b (pl_database p)) as (l & Hpre & _ & Hc);
      [eapply Forall_forall; [apply Hs|rewrite Hb; left]|apply Hs|].
    split; cbn; try done.
    + assert (Hup := update_metadata_lookup (br_contract b) contract (br_to b) (pl_database p)). rewrite Hm in Hup.
      destruct Hmeta as [Hmeta|Hmeta]; rewrite Hmeta; [by exists last|]. rewrite Hup.
      destruct (decide _) as [Hbc|]; [|by exists last]. cbn. exists (as_i64 (br_to b)).
      destruct (Hy b) as [Hy1 Hy2]; [rewrite Hb; left|done|]. rewrite as_i64_small by lia. split; [done|lia].
    + intros x Hx. apply Hy. rewrite Hb. by right.
    + intros n e Hin Hn Hx. destruct (proj1 (Hc _ _) Hx) as [Hold|[_ Hnew]]; [by eapply He|].
      destruct (result_events chain b e) as (n' & Hn' & Hx');
        [eapply Forall_forall; [apply Hs|rewrite Hb; left]|destruct Hpre as [l' Hpre]; rewrite Hpre; apply elem_of_app; by left|].
      destruct (sn_unique _ _ _ _ Hsensible _ _ _ _ _ _ Hin Hx' eq_refl) as (_ & Hbc & ->).
      destruct (Hy b) as [_ ?]; [rewrite Hb; left|done|lia].
  - split; cbn; try done; [exists last; split; [by apply get_or_create_keeps|done]|].
    intros n' e Hin Hn Hx. apply (He n' e Hin Hn). unfold get_or_create_metadata in Hx.
    by destruct (db_metadata (pl_database p) !! c).
  - split; cbn; try done; unfold add_frontier;
      (destruct (commit_frontier (pl_manager p) !! c) eqn:Hc; [try done; by exists a|]); cbn; [|done].
    exists a. by rewrite lookup_insert_ne by congruence.
Qed.

(** C40: an undecodable log, or anything else that makes every task with a
    certain block fail, stops its contract for good in the parallel indexer:
    whatever the interleaving and the faults of the database, its last indexed
    block stays before that block, and none of its events from that block on
    enters the tables. *)
Theorem unreadable_blocks_stop_their_contract p :
  db_metadata d !! contract = Some (mkIndexingMetadata low true) →
  (∀ k e, db_events d !! k = Some e → k = event_key e ∧ ∃ c n, e ∈ chain c n) →
  run (λ _ _, True) (started d) p →
  (∃ last, db_metadata (pl_database p) !! contract = Some (mkIndexingMetadata last true) ∧ low ≤ last < block) ∧
  ∀ n e, e ∈ chain contract n → block ≤ n → db_events (pl_database p) !! event_key e = Some e →
    db_events d !! event_key e = Some e.
Proof using Hsensible Hlow Hblock Hnever.
  intros Hm Hd Hrun. pose proof (sn_chain _ _ _ _ Hsensible). pose proof (sn_size _ _ _ _ Hsensible).
  enough (sound chain p ∧ flow max_block contract low p ∧ blocked p) as (_ & _ & [H1 _ _ _ _ H5]) by done.
  remember (started d) as p0 eqn:Hp0. induction Hrun as [p|f p q r Hrun IH Hst _].
  - subst p. split; [by apply started_sound|]. split; [by apply flow_started|]. split; cbn; try done.
    + exists low. split; [done|lia].
    + exists (low + 1). split; [|lia]. apply resume_frontier. exists low. split; [|done].
      unfold next_block. by rewrite wrap64_small by lia.
    + by intros r ?%elem_of_nil.
    + by intros r ?%elem_of_nil.
  - destruct (IH Hp0) as (Hs & Hf & Hb). split; [by eapply pipeline_sound_step|].
    split; [|by eapply blocked_step]. eapply flow_step; [exact Hsensible|done|exact Hf|by apply blocked_is_above|exact Hst].
Qed.
End blocked.

(** ** An undecodable log in block 2 *)

(** One event type, known by the topic 7; empty data do not decode. *)
#[export] Instance toy_ethers : Ethers unit := {|
  parse_address s := if bool_decide (s = "pool") then inr 1 else inl "not an address";
  format_address _ := "pool"; format_hash h := if h =? 1 then "a" else "c"; format_uint _ := "0"; hex_encode _ := "";
  abi_events _ := inr [tt]; event_def_name _ := "Deposit"; event_def_signature _ := 7;
  decode_log _ _ data := match data with [] => inl "no data" | _ => inr [("urgent", TkBool true)] end;
|}.
Definition toy_parser : EventParser unit := mkEventParser {["pool" := [tt]]} {[7 := ("pool", tt)]}.
Definition good_log (n h : Z) : Log := mkLog 1 [7] [1] (Some n) (Some h) (Some 0).
Definition bad_log : Log := mkLog 1 [7] [] (Some 2) (Some 2) (Some 0).
Definition toy_blocks (a n : Z) : list Log :=
  match n with 1 => [good_log 1 1] | 2 => [bad_log] | 3 => [good_log 3 3] | _ => [] end.
Definition toy_logs (a from to : Z) (w : unit) : (string + list Log) * unit :=
  (inr (concat (map (toy_blocks a) (seqZ from (to - from + 1)))), w).
Definition toy_process := process (F := Empty_set) toy_logs toy_parser.
Definition toy_chain := logged (F := Empty_set) toy_parser toy_blocks.
Definition toy_event (n : Z) (hash : string) : CreateEvent :=
  mkCreateEvent "pool" "Deposit" n hash 0 (VObject [("urgent", VBool true)]).

Lemma toy_chain_cases c n e :
  e ∈ toy_chain c n → c = "pool" ∧ (n = 1 ∧ e = toy_event 1 "a" ∨ n = 3 ∧ e = toy_event 3 "c").
Proof.
  unfold toy_chain, logged, parse_address, toy_ethers. case_bool_decide as Hc; [|by intros ?%elem_of_nil].
  intros Hx. split; [done|]. destruct n as [|[[n|n|]|[n|n|]|]|n]; vm_compute in Hx;
    try (by apply elem_of_nil in Hx); apply list_elem_of_singleton in Hx as ->; auto.
Qed.

Lemma toy_sensible : sensible small_config toy_process 3 toy_chain.
Proof.
  split; try done.
  - intros t w es w'. apply process_logged. intros a from to w1 logs w2 [= <- _]. done.
  - intros c n e c' n' e' [-> [[-> ->]|[-> ->]]]%toy_chain_cases [-> [[-> ->]|[-> ->]]]%toy_chain_cases Hk; done.
Qed.

Lemma toy_never_read : never_read toy_process "pool" 2.
Proof.
  apply bad_log_is_never_read. intros a from to w logs w' [= <- _] _ Hb.
  exists bad_log, (IE_EventParsing _ "Failed to decode event: no data"). split; [|reflexivity].
  rewrite list_elem_of_In, in_concat. exists [bad_log]. split; [|by left].
  apply in_map_iff. exists 2. split; [done|]. apply list_elem_of_In, elem_of_seqZ. lia.
Qed.

(** The second range, which is readable, waits for the first. *)
Definition after_bad_round : Pipeline (F := Empty_set) :=
  mkPipeline (register_result (mkBlockRangeResult range2 [toy_event 3 "c"] 0) (resume pool_known)).2 pool_known (Sending []) [] [] [] [] [].

Ltac next_step := eapply (run_first _ no_faults); [|exact I|]; cbn.

Lemma bad_round_run :
  pipeline_run small_config toy_process no_sleep no_time 3 (λ _ _, True) (started pool_known) after_bad_round.
Proof.
  next_step; [eapply step_poll with (ms := [("pool", 0)]); reflexivity|].
  next_step; [eapply step_plan with (fuel := 10%nat) (current_block := 3); [reflexivity|lia|reflexivity]|].
  do 2 (next_step; [eapply step_send; [reflexivity|cbn; lia]|]).
  do 2 (next_step; [eapply step_take; [reflexivity|cbn; lia|reflexivity]|]).
  do 2 (next_step; [eapply step_work with (before := []) (w := tt); [reflexivity|cbn; lia|reflexivity]|]).
  next_step; [eapply step_result; [reflexivity|reflexivity|apply surjective_pairing]|].
  next_step; [eapply step_failed; reflexivity|].
  apply run_refl.
Qed.

Lemma unreadable_blocks_stop_their_contract_witness :
  never_read toy_process "pool" 2 ∧
  ∃ last, db_metadata (pl_database after_bad_round) !! "pool" = Some (mkIndexingMetadata last true) ∧ 0 ≤ last < 2.
Proof.
  split; [exact toy_never_read|].
  refine (proj1 (unreadable_blocks_stop_their_contract small_config toy_process no_sleep no_time 3 toy_chain toy_sensible
           "pool" 0 2 _ _ toy_never_read pool_known after_bad_round _ _ bad_round_run)).
  - lia.
  - lia.
  - vm_compute; reflexivity.
  - intros k e Hk. change ((∅ : gmap (string * Z) CreateEvent) !! k = Some e) in Hk. by rewrite lookup_empty in Hk.
Defined.
