(* ===== verification/IndexerService.v ===== *)
(** * IndexerService: the sequential event indexer (indexing_system/src/indexer.rs)

    One task polls the chain and indexes the contracts one after another; a range
    that fails is tried again a few times and then passed over.  The world [W]
    gives the answers of the chain, of the database and of the cache, and the
    calls of [stop] by other tasks; a release build of this crate wraps on
    overflow. *)

From S2P Require Import Prelude.
From S2P Require Import Indexer.
From S2P Require Import IndexerSafety.
From S2P Require Import IndexerTheorems.
From S2P Require Import IndexerRuns.
From S2P Require Import IndexerParser.

Section service.
Context {E : Type} `{Ethers E} {F W : Type} (config : IndexerConfig) (parser : EventParser E)
        (get_logs : Z → Z → Z → W → (string + list Log) * W)
        (get_block_number : W → (string + Z) * W)
        (db_fault : W → option F * W)                  (* whether the next statement fails *)
        (batch_fault : W → option (nat * F) * W)       (* whether an insertion of the next batch fails, and which *)
        (cache_fault : W → option (IndexerError F) * W)
        (sleep : Z → W → W)
        (stop_requested : W → bool * W).

Abbreviation State := (Database * W)%type.

(** ** Indexing a range *)

(** [n] calls of the cache, up to the first that fails *)
Fixpoint cache_calls (n : nat) (w : W) : option (IndexerError F) * W :=
  match n with
  | O => (None, w)
  | S n => match cache_fault w with
           | (Some e, w) => (Some e, w)
           | (None, w) => cache_calls n w
           end
  end.

(** Three calls tell the cache of the new events, and each event is published
    when that is switched on. *)
Definition index_block_range (contract_address : string) (from_block to_block : Z) (s : State) :
    (IndexerError F + nat) * State :=
  let '(d, w) := s in
  if to_block <? from_block then (inl (IE_InvalidBlockRange F from_block to_block), s)
  else
    match fetch_events get_logs parser contract_address from_block to_block w with
    | (inl e, w) => (inl e, (d, w))
    | (inr [], w) => (inr O, (d, w))
    | (inr events, w) =>
        let '(fault, w) := batch_fault w in
        let '(ok, d) := create_events_batch (fst <$> fault) events d in
        match ok, fault with
        | false, Some (_, e) => (inl (IE_Database F e), (d, w))
        | _, _ =>
            match cache_calls (3 + if enable_realtime config then length events else 0) w with
            | (Some e, w) => (inl e, (d, w))
            | (None, w) => (inr (length events), (d, w))
            end
        end
    end.

(** ** The loops of [start] *)

(** The retries: [more] after [retry] of them *)
Fixpoint retry_range (more retry : nat) (contract : string) (batch_start batch_end : Z) (s : State) : State :=
  match more with
  | O => s
  | S more =>
      let s := (s.1, sleep (wrap64 (retry_delay_ms config * wrap64 (2 ^ Z.of_nat retry))) s.2) in
      match index_block_range contract batch_start batch_end s with
      | (inr _, s) => s
      | (inl _, s) => retry_range more (S retry) contract batch_start batch_end s
      end
  end.

(** The ranges of a contract; [None] is running out of fuel. *)
Fixpoint index_batches (fuel : nat) (contract : string) (to_block batch_start : Z) (s : State) :
    option ((IndexerError F + unit) * State) :=
  match fuel with
  | O => None
  | S fuel =>
      if batch_start <=? to_block then
        let batch_end := Z.min (wrap64 (wrap64 (batch_start + batch_size config) - 1)) to_block in
        match index_block_range contract batch_start batch_end s with
        | (inr _, (d, w)) =>
            match db_fault w with
            | (Some e, w) => Some (inl (IE_Database F e), (d, w))
            | (None, w) => index_batches fuel contract to_block (wrap64 (batch_end + 1)) (update_metadata contract batch_end d, w)
            end
        | (inl _, s) =>
            index_batches fuel contract to_block (wrap64 (batch_end + 1))
              (retry_range (max_retries config) 0 contract batch_start batch_end s)
        end
      else Some (inr tt, s)
  end.

Fixpoint index_contracts (fuel : nat) (current_block : Z) (metadata_list : list (string * Z)) (s : State) :
    option ((IndexerError F + unit) * State) :=
  match metadata_list with
  | [] => Some (inr tt, s)
  | (contract, last_indexed_block) :: rest =>
      match index_batches fuel contract (confirmed_tip config current_block) (next_block last_indexed_block) s with
      | Some (inr _, s) => index_contracts fuel current_block rest s
      | r => r
      end
  end.

(** One round of the loop, after the test whether to go on *)
Definition index_round (fuel : nat) (s : State) : option ((IndexerError F + unit) * State) :=
  let '(d, w) := s in
  let pause (s : State) := (s.1, sleep (wrap64 (poll_interval config * 1000)) s.2) in
  match db_fault w with
  | (Some e, w) => Some (inl (IE_Database F e), (d, w))
  | (None, w) =>
      match active_metadata d with
      | [] => Some (inr tt, pause (d, w))
      | metadata_list =>
          match get_block_number w with
          | (inl e, w) => Some (inl (IE_Rpc F ("Failed to get block number: " +:+ e)), (d, w))
          | (inr current_block, w) =>
              match index_contracts fuel current_block metadata_list (d, w) with
              | Some (inr _, s) => Some (inr tt, pause s)
              | r => r
              end
          end
      end
  end.

Fixpoint rounds (fuel : nat) (s : State) : option ((IndexerError F + unit) * (bool * State)) :=
  match fuel with
  | O => None
  | S fuel =>
      let '(stopped, w) := stop_requested s.2 in
      if stopped then Some (inr tt, (false, (s.1, w)))
      else
        match index_round fuel (s.1, w) with
        | None => None
        | Some (inl e, s) => Some (inl e, (true, s))
        | Some (inr _, s) => rounds fuel s
        end
  end.

(** [is_running] before and after *)
Definition start (fuel : nat) (s : bool * State) : option ((IndexerError F + unit) * (bool * State)) :=
  let '(is_running, s) := s in
  if is_running then Some (inr tt, (true, s)) else rounds fuel s.

(** ** Reorganisations *)

Fixpoint reset_all (reorg_block : Z) (metadata_list : list (string * Z)) (s : State) : (IndexerError F + unit) * State :=
  match metadata_list with
  | [] => (inr tt, s)
  | (contract, last_indexed_block) :: rest =>
      if as_i64 reorg_block <=? last_indexed_block then
        match db_fault s.2 with
        | (Some e, w) => (inl (IE_Database F e), (s.1, w))
        | (None, w) => reset_all reorg_block rest (update_metadata contract (wrap64 (reorg_block - 1)) s.1, w)
        end
      else reset_all reorg_block rest s
  end.

Definition service_handle_reorg (reorg_block : Z) (s : State) : (IndexerError F + unit) * State :=
  let '(d, w) := s in
  match db_fault w with
  | (Some e, w) => (inl (IE_Database F e), (d, w))
  | (None, w) =>
      let d := delete_events_from_block reorg_block d in
      match db_fault w with
      | (Some e, w) => (inl (IE_Database F e), (d, w))
      | (None, w) =>
          match reset_all reorg_block (active_metadata d) (d, w) with
          | (inl e, s) => (inl e, s)
          | (inr _, (d, w)) =>
              match cache_calls 2 w with
              | (Some e, w) => (inl e, (d, w))
              | (None, w) => (inr tt, (d, w))
              end
          end
      end
  end.

(** ** Errors *)

(** The errors that end the service *)
Definition ends_service (e : IndexerError F) : Prop :=
  (∃ x, e = IE_Database F x) ∨ ∃ m, e = IE_Rpc F ("Failed to get block number: " +:+ m).

Lemma index_batches_error contract to_block fuel : ∀ batch_start s e s',
  index_batches fuel contract to_block batch_start s = Some (inl e, s') → ends_service e.
Proof.
  induction fuel as [|fuel IH]; intros batch_start s e s' Hi; [done|]. cbn [index_batches] in Hi.
  destruct (_ <=? _); [|done]. destruct (index_block_range _ _ _ s) as [[x|n] [d w]]; [by eapply IH|].
  destruct (db_fault w) as [[x|] w1]; [injection Hi as <- <-; left; by eexists|by eapply IH].
Qed.

Lemma index_contracts_error fuel current_block ms : ∀ s e s',
  index_contracts fuel current_block ms s = Some (inl e, s') → ends_service e.
Proof.
  induction ms as [|[c n] ms IH]; intros s e s' Hi; [done|]. cbn [index_contracts] in Hi.
  destruct (index_batches _ _ _ _ s) as [[[x|u] s1]|] eqn:Hb; [|by eapply IH|done].
  injection Hi as -> ->. by eapply index_batches_error.
Qed.

Lemma index_round_error fuel s e s' : index_round fuel s = Some (inl e, s') → ends_service e.
Proof.
  unfold index_round. destruct s as [d w]. destruct (db_fault w) as [[x|] w1]; [intros [= <- <-]; left; by eexists|].
  destruct (active_metadata d) as [|m ms] eqn:Hm; [done|]. destruct (get_block_number w1) as [[x|n] w2];
    [intros [= <- <-]; right; by eexists|].
  destruct (index_contracts _ _ _ _) as [[[x|u] s1]|] eqn:Hc; [|done|done].
  intros [= <- <-]. by eapply index_contracts_error.
Qed.

Lemma rounds_error fuel : ∀ s r s', rounds fuel s = Some (r, s') →
  match r with inl e => ends_service e ∧ s'.1 = true | inr _ => s'.1 = false end.
Proof.
  induction fuel as [|fuel IH]; intros s r s' Hr; [done|]. cbn [rounds] in Hr.
  destruct (stop_requested s.2) as [[] w]; [by injection Hr as <- <-|].
  destruct (index_round fuel (s.1, w)) as [[[x|u] s1]|] eqn:Hi; [|by eapply IH|done].
  injection Hr as <- <-. split; [by eapply index_round_error|done].
Qed.

(** An error that ends the sequential service - one of the database outside
    the insertion of events, or of the request for the current block - leaves it
    marked as running: every later start returns [Ok] at once and does nothing. *)
Theorem service_cannot_be_restarted fuel s e running s' :
  start fuel (false, s) = Some (inl e, (running, s')) →
  ends_service e ∧ running = true ∧ ∀ fuel', start fuel' (running, s') = Some (inr tt, (running, s')).
Proof. intros [He Hr]%rounds_error. cbn in Hr. by subst. Qed.

(** ** What a pass over a contract reads *)

Section pass.
Context (max_block : Z) (chain : string → Z → list CreateEvent)
        (Hsensible : sensible config (process (F := F) get_logs parser) max_block chain).

(** The tables hold events of the chain, under their keys. *)
Definition known (d : Database) : Prop :=
  ∀ k e, db_events d !! k = Some e → k = event_key e ∧ ∃ c n, e ∈ chain c n.
Definition has (d : Database) (e : CreateEvent) : Prop := db_events d !! event_key e = Some e.

(** From [d] to [d'] events of the contract's blocks in [touched] may have been
    added, and those of [read] all are there. *)
Record reads (contract : string) (touched read : Z → Prop) (d d' : Database) : Prop := {
  rd_known : known d';
  rd_keeps : ∀ e, has d e → has d' e;
  rd_only : ∀ c n e, e ∈ chain c n → has d' e → has d e ∨ c = contract ∧ touched n;
  rd_all : ∀ n e, read n → e ∈ chain contract n → has d' e;
}.

Lemma reads_trans contract P Q P' Q' d d1 d2 :
  reads contract P Q d d1 → reads contract P' Q' d1 d2 → reads contract (λ n, P n ∨ P' n) (λ n, Q n ∨ Q' n) d d2.
Proof.
  intros [Hk1 He1 Ho1 Ha1] [Hk2 He2 Ho2 Ha2]. split; [done|by auto| |].
  - intros c n e Hin Hh. destruct (Ho2 c n e Hin Hh) as [Hd|[-> ?]]; [|by right; auto].
    destruct (Ho1 c n e Hin Hd) as [?|[-> ?]]; [by left|right; auto].
  - intros n e [Hn|Hn] Hin; [by eapply He2, Ha1|by eapply Ha2].
Qed.

Lemma reads_weaken contract (P Q P' Q' : Z → Prop) d d' :
  (∀ n, P n → P' n) → (∀ n, Q' n → Q n) → reads contract P Q d d' → reads contract P' Q' d d'.
Proof.
  intros HP HQ [Hk He Ho Ha]. split; [done|done| |by eauto]. intros c n e Hin Hh.
  destruct (Ho c n e Hin Hh) as [?|[? ?]]; [by left|right; auto].
Qed.

Lemma reads_same contract d d' : known d → db_events d' = db_events d → reads contract (λ _, False) (λ _, False) d d'.
Proof. intros Hd He. unfold known, has in *. split; unfold known, has; rewrite ?He; auto. done. Qed.

Lemma update_metadata_events c n d : db_events (update_metadata c n d) = db_events d.
Proof. unfold update_metadata. by destruct (db_metadata d !! c). Qed.

(** Inserting events of a range *)
Lemma insert_reads contract a b (all : bool) l d :
  known d → (∀ e, e ∈ l → e ∈ range_events chain contract a b) → (all = true → l = range_events chain contract a b) →
  reads contract (λ n, a ≤ n ≤ b) (λ n, all = true ∧ a ≤ n ≤ b) d (d <| db_events := (insert_events l (db_events d)) |>).
Proof using Hsensible.
  intros Hd Hl Hall.
  assert (Hin : ∀ k e, insert_events l (db_events d) !! k = Some e ↔ db_events d !! k = Some e ∨ k = event_key e ∧ e ∈ l).
  { eapply insert_events_lookup; [exact Hsensible|done|]. intros e (n & _ & He)%Hl%range_events_elem. by exists contract, n. }
  split; unfold known, has; cbn.
  - intros k e [Hx|[-> Hx]]%Hin; [by apply Hd|]. apply Hl, range_events_elem in Hx as (n & _ & Hx). by split; [|exists contract, n].
  - intros e Hx. apply Hin. by left.
  - intros c n e Hc [Hx|[_ Hx]]%Hin; [by left|]. right. apply Hl, range_events_elem in Hx as (n' & Hn' & Hx).
    by destruct (sn_unique _ _ _ _ Hsensible _ _ _ _ _ _ Hc Hx eq_refl) as (_ & -> & ->).
  - intros n e [Ht Hn] Hc. apply Hin. right. split; [done|]. rewrite (Hall Ht). apply range_events_elem. by exists n.
Qed.

Lemma fetch_events_range c a b w es w' :
  fetch_events (F := F) get_logs parser c a b w = (inr es, w') → es = range_events chain c a b.
Proof using Hsensible. intros Hf. exact (sn_process _ _ _ _ Hsensible (mkBlockRangeTask c a b 0) w es w' Hf). Qed.

Definition succeeded {A B : Type} (r : A + B) : bool := match r with inl _ => false | inr _ => true end.

(** A failed attempt may have added some of the events, a successful one has all. *)
Lemma index_block_range_reads c a b d w r d' w' :
  known d → index_block_range c a b (d, w) = (r, (d', w')) →
  db_metadata d' = db_metadata d ∧
  reads c (λ n, a ≤ n ≤ b) (λ n, succeeded r = true ∧ a ≤ n ≤ b) d d'.
Proof using Hsensible.
  intros Hd Hi. unfold index_block_range in Hi.
  assert (Hsame : reads c (λ n, a ≤ n ≤ b) (λ n, false = true ∧ a ≤ n ≤ b) d d).
  { eapply reads_weaken; [..|by apply reads_same]; [done|]. by intros n [? _]. }
  destruct (b <? a); [by injection Hi as <- <- _|].
  destruct (fetch_events _ _ c a b w) as [[e|es] w1] eqn:Hf; [by injection Hi as <- <- _|].
  apply fetch_events_range in Hf as ->. destruct (range_events chain c a b) as [|e es] eqn:Hr.
  - injection Hi as <- <- _. split; [done|]. destruct d as [m ev]. exact (insert_reads c a b true [] (mkDatabase m ev) Hd
      (λ e He, match not_elem_of_nil _ He with end) (λ _, eq_sym Hr)).
  - rewrite <- Hr in Hi. destruct (batch_fault w1) as [fault w2]. destruct (create_events_batch _ _ d) as [ok d1] eqn:Hc.
    unfold create_events_batch in Hc. apply insert_chunks_spec in Hc as (l & Hl & -> & Hok & Hn).
    rewrite chunks_concat in Hl, Hok by done.
    assert (Hins : ∀ all : bool, (all = true → l = range_events chain c a b) →
        reads c (λ n, a ≤ n ≤ b) (λ n, all = true ∧ a ≤ n ≤ b) d (d <| db_events := (insert_events l (db_events d)) |>)).
    { intros all Hall. apply insert_reads; [done| |done]. intros x Hx. destruct Hl as [l' ->]. apply elem_of_app. by left. }
    destruct ok.
    + destruct (cache_calls _ w2) as [[x|] w3]; injection Hi as <- <- _; (split; [done|]); apply Hins; auto.
    + destruct fault as [[k x]|]; [|by specialize (Hn eq_refl)]. injection Hi as <- <- _. split; [done|]. by apply Hins.
Qed.

(** The retries end with success or with nothing gained for certain. *)
Lemma retry_range_reads more c a b : ∀ retry d w d' w',
  known d → retry_range more retry c a b (d, w) = (d', w') →
  db_metadata d' = db_metadata d ∧ ∃ ok : bool, reads c (λ n, a ≤ n ≤ b) (λ n, ok = true ∧ a ≤ n ≤ b) d d'.
Proof using Hsensible.
  induction more as [|more IH]; intros retry d w d' w' Hd Hr; cbn [retry_range fst snd] in Hr.
  - injection Hr as <- <-. split; [done|]. exists false. eapply reads_weaken; [..|by apply reads_same]; [done|]. by intros n [? _].
  - destruct (index_block_range c a b _) as [r [d1 w1]] eqn:Hi. apply index_block_range_reads in Hi as [Hm Hrd]; [|done].
    destruct r as [e|n].
    + apply IH in Hr as [Hm' [ok Hrd']]; [|apply Hrd]. split; [congruence|]. exists ok.
      eapply reads_weaken; [..|by eapply reads_trans]; cbn; [by intros n []|]. intros n Hn. by right.
    + injection Hr as <- <-. split; [done|]. by exists true.
Qed.

(** What became of a range: read at once, read by a retry, or passed over *)
Inductive outcome : Type := RangeRead | RangeRecovered | RangeLost.
#[local] Instance outcome_eq_dec : EqDecision outcome.
Proof. solve_decision. Defined.

(** The last indexed block after a pass: only ranges that were read at once count. *)
Definition marked (l : list ((Z * Z) * outcome)) (n : Z) : Z :=
  foldl (λ n x, if decide (x.2 = RangeRead) then x.1.2 else n) n l.

Definition read_in (l : list ((Z * Z) * outcome)) (n : Z) : Prop :=
  ∃ x, x ∈ l ∧ x.2 ≠ RangeLost ∧ x.1.1 ≤ n ≤ x.1.2.

Lemma index_batches_reads c to : to ≤ max_block → ∀ fuel first d w last d' w',
  known d → 0 ≤ first → db_metadata d !! c = Some (mkIndexingMetadata last true) →
  index_batches fuel c to first (d, w) = Some (inr tt, (d', w')) →
  ∃ l, tiles first (Z.max first (to + 1)) l.*1 ∧
    db_metadata d' !! c = Some (mkIndexingMetadata (marked l last) true) ∧
    (∀ c', c' ≠ c → db_metadata d' !! c' = db_metadata d !! c') ∧
    reads c (λ n, first ≤ n ≤ to) (read_in l) d d'.
Proof using Hsensible.
  intros Hto. pose proof (sn_chain _ _ _ _ Hsensible) as [Hmb Hsz]. pose proof (sn_size _ _ _ _ Hsensible) as Hsize.
  induction fuel as [|fuel IH]; intros first d w last d' w' Hd Hfirst Hm Hi; [done|]. cbn [index_batches] in Hi.
  destruct (Z.leb_spec first to) as [Hle|Hgt].
  2: { injection Hi as <- <-. exists []. rewrite Z.max_l by lia. split_and!; [constructor|done|done|].
       eapply reads_weaken; [..|by apply reads_same]; [done|]. by intros n (x & ?%elem_of_nil & _). }
  rewrite !(wrap64_small (first + _)), !(wrap64_small (first + batch_size config - 1)) in Hi by lia.
  set (stop := Z.min (first + batch_size config - 1) to) in *. rewrite !(wrap64_small (stop + 1)) in Hi by lia.
  (* one range with its outcome, and the rest *)
  assert (Hstep : ∀ o d1 w1 last1, db_metadata d1 !! c = Some (mkIndexingMetadata last1 true) →
      last1 = (if decide (o = RangeRead) then stop else last) →
      (∀ c', c' ≠ c → db_metadata d1 !! c' = db_metadata d !! c') →
      reads c (λ n, first ≤ n ≤ stop) (λ n, o ≠ RangeLost ∧ first ≤ n ≤ stop) d d1 →
      index_batches fuel c to (stop + 1) (d1, w1) = Some (inr tt, (d', w')) →
      ∃ l, tiles first (Z.max first (to + 1)) l.*1 ∧
        db_metadata d' !! c = Some (mkIndexingMetadata (marked l last) true) ∧
        (∀ c', c' ≠ c → db_metadata d' !! c' = db_metadata d !! c') ∧
        reads c (λ n, first ≤ n ≤ to) (read_in l) d d').
  { intros o d1 w1 last1 Hm1 Hl1 Ho1 Hr1 Hrest. eapply IH in Hrest as (l & Ht & Hm' & Ho' & Hr'); [|apply Hr1|lia|exact Hm1].
    exists (((first, stop), o) :: l). split_and!.
    - cbn. apply tiles_cons; [lia|]. by replace (Z.max first (to + 1)) with (Z.max (stop + 1) (to + 1)) by lia.
    - rewrite Hm'. by subst last1.
    - intros c' Hc. by rewrite Ho', Ho1.
    - eapply reads_weaken; [..|eapply reads_trans; [exact Hr1|exact Hr']]; cbn; [lia|].
      intros n (x & [->|Hx]%elem_of_cons & Hn); [by left|right; by exists x]. }
  clear IH. destruct (index_block_range c first stop (d, w)) as [[e|k] [d1 w1]] eqn:Hb;
    apply index_block_range_reads in Hb as [Hm1 Hr1]; try done.
  - destruct (retry_range _ _ c first stop (d1, w1)) as [d2 w2] eqn:Hrt.
    apply retry_range_reads in Hrt as [Hm2 [ok Hr2]]; [|apply Hr1].
    eapply (Hstep (if ok then RangeRecovered else RangeLost)); [by rewrite Hm2, Hm1| by destruct ok|by intros; rewrite Hm2, Hm1| |exact Hi].
    eapply reads_weaken; [..|eapply reads_trans; [exact Hr1|exact Hr2]]; cbn; [by intros n []|]. intros n [Ho Hn]. right.
    by destruct ok.
  - destruct (db_fault w1) as [[x|] w2]; [done|]. eapply (Hstep RangeRead); [|done| | |exact Hi].
    + rewrite update_metadata_lookup, decide_True, Hm1, Hm by done. cbn. by rewrite as_i64_small by lia.
    + intros c' Hc. by rewrite update_metadata_lookup, decide_False, Hm1 by congruence.
    + eapply reads_weaken; [..|eapply reads_trans; [exact Hr1|apply reads_same; [apply Hr1|apply update_metadata_events]]];
        cbn; [by intros n []|]. intros n [_ Hn]. by left.
Qed.

(** A pass of the sequential service over a contract that goes through cuts
    the blocks after the last indexed one, up to the tip, into consecutive
    ranges; the events of those that were read, at once or by a retry, are in the
    tables, and nothing else of the chain is added.  But the contract then counts
    as indexed up to the end of the last range that was read at once: ranges
    before it that were given up are never asked for again. *)
Theorem sequential_pass c to fuel d w last d' w' :
  known d → db_metadata d !! c = Some (mkIndexingMetadata last true) → -1 ≤ last ≤ to → to ≤ max_block →
  index_batches fuel c to (next_block last) (d, w) = Some (inr tt, (d', w')) →
  ∃ l, tiles (last + 1) (to + 1) l.*1 ∧
    db_metadata d' !! c = Some (mkIndexingMetadata (marked l last) true) ∧
    (∀ e, has d e → has d' e) ∧
    (∀ n e, read_in l n → e ∈ chain c n → has d' e) ∧
    (∀ c' n e, e ∈ chain c' n → has d' e → has d e ∨ c' = c ∧ last < n ≤ to).
Proof using Hsensible.
  intros Hd Hm Hl Hto Hi. pose proof (sn_chain _ _ _ _ Hsensible) as [Hmb Hsz]. pose proof (sn_size _ _ _ _ Hsensible).
  unfold next_block in Hi. rewrite wrap64_small in Hi by lia.
  apply (index_batches_reads c to Hto _ _ _ _ last) in Hi as (l & Ht & Hm' & _ & [_ Hk Ho Ha]); [|done|lia|done].
  rewrite Z.max_r in Ht by lia. exists l. split_and!; [done..|].
  intros c' n e Hin Hh. destruct (Ho c' n e Hin Hh) as [?|[? ?]]; [by left|right; split; [done|lia]].
Qed.

(** *** Without failures *)

(** Nothing fails, and the contract's logs can all be decoded. *)
Record reliable (c : string) : Prop := {
  rl_fetch : ∀ a b w, ∃ es w', fetch_events (F := F) get_logs parser c a b w = (inr es, w');
  rl_batch : ∀ w, (batch_fault w).1 = None;
  rl_statement : ∀ w, (db_fault w).1 = None;
  rl_cache : ∀ w, (cache_fault w).1 = None;
}.
Context (c : string) (Hreliable : reliable c).

Lemma cache_calls_reliable n : ∀ w, (cache_calls n w).1 = None.
Proof using Hreliable.
  induction n as [|n IH]; intros w; [done|]. cbn. pose proof (rl_cache _ Hreliable w) as Hc.
  destruct (cache_fault w) as [o w1]. cbn in Hc. subst. apply IH.
Qed.

Lemma index_block_range_reliable a b s : a ≤ b → ∃ n s', index_block_range c a b s = (inr n, s').
Proof using Hreliable.
  intros Hab. destruct s as [d w]. unfold index_block_range. rewrite (proj2 (Z.ltb_ge b a)) by done.
  destruct (rl_fetch _ Hreliable a b w) as (es & w1 & ->). destruct es as [|e es]; [by do 2 eexists|].
  pose proof (rl_batch _ Hreliable w1) as Hb. destruct (batch_fault w1) as [fault w2]. cbn in Hb. subst fault. cbn [fmap option_fmap option_map].
  destruct (create_events_batch None (e :: es) d) as [ok d1].
  match goal with |- context [cache_calls ?n w2] => pose proof (cache_calls_reliable n w2) as Hc; destruct (cache_calls n w2) as [o w3] end.
  cbn in Hc. subst o. destruct ok; by do 2 eexists.
Qed.

(** The pass ends at the tip, and has read everything. *)
Lemma index_batches_reliable to : to ≤ max_block → ∀ fuel first d w last,
  known d → 0 ≤ first ≤ to + 1 → to + 1 - first < Z.of_nat fuel → db_metadata d !! c = Some (mkIndexingMetadata last true) →
  ∃ d' w', index_batches fuel c to first (d, w) = Some (inr tt, (d', w')) ∧
    db_metadata d' !! c = Some (mkIndexingMetadata (if first <=? to then to else last) true) ∧
    reads c (λ n, first ≤ n ≤ to) (λ n, first ≤ n ≤ to) d d'.
Proof using Hsensible Hreliable.
  intros Hto. pose proof (sn_chain _ _ _ _ Hsensible) as [Hmb Hsz]. pose proof (sn_size _ _ _ _ Hsensible) as Hsize.
  induction fuel as [|fuel IH]; intros first d w last Hd Hfirst Hfuel Hm; [lia|]. cbn [index_batches].
  destruct (Z.leb_spec first to) as [Hle|Hgt].
  2: { exists d, w. split_and!; [done|done|]. eapply reads_weaken; [..|by apply reads_same]; [done|lia]. }
  rewrite !(wrap64_small (first + _)), !(wrap64_small (first + batch_size config - 1)) by lia.
  set (stop := Z.min (first + batch_size config - 1) to). rewrite !(wrap64_small (stop + 1)) by lia.
  destruct (index_block_range_reliable first stop (d, w)) as (k & [d1 w1] & Hb); [lia|]. rewrite Hb.
  apply index_block_range_reads in Hb as [Hm1 Hr1]; [|done].
  pose proof (rl_statement _ Hreliable w1) as Hs. destruct (db_fault w1) as [o w2]. cbn in Hs. subst o.
  set (d2 := update_metadata c stop d1).
  assert (Hr2 : reads c (λ n, first ≤ n ≤ stop) (λ n, first ≤ n ≤ stop) d d2).
  { eapply reads_weaken; [..|eapply reads_trans; [exact Hr1|apply reads_same; [apply Hr1|apply update_metadata_events]]];
      cbn; [by intros n []|]. intros n Hn. by left. }
  destruct (IH (stop + 1) d2 w2 stop) as (d' & w' & -> & Hm' & Hr'); [apply Hr2|lia|lia| |].
  { unfold d2. rewrite update_metadata_lookup, decide_True, Hm1, Hm by done. cbn. by rewrite as_i64_small by lia. }
  exists d', w'. split_and!; [done| |].
  - rewrite Hm'. do 2 f_equal. destruct (Z.leb_spec (stop + 1) to); [done|lia].
  - eapply reads_weaken; [..|eapply reads_trans; [exact Hr2|exact Hr']]; cbn; [lia|].
    intros n Hn. destruct (decide (n ≤ stop)); [by left; lia|right; lia].
Qed.

(** C37: when node, database and cache do not fail and every log of the contract
    can be decoded, the sequential service, given fuel for the blocks, ends its
    pass over an active contract at the tip with exactly the events of the
    blocks it passed added to the contract's; and the parallel one, started from
    the same tables, whatever the interleaving of its parts, has the same events
    of the contract in its tables whenever it has reached that tip. *)
Theorem sequential_agrees_with_parallel sleep' elapsed' to fuel d w last :
  known d → db_metadata d !! c = Some (mkIndexingMetadata last true) → -1 ≤ last ≤ to → to ≤ max_block →
  to - last < Z.of_nat fuel →
  ∃ d' w', index_batches fuel c to (next_block last) (d, w) = Some (inr tt, (d', w')) ∧
    db_metadata d' !! c = Some (mkIndexingMetadata to true) ∧
    (∀ n e, e ∈ chain c n → has d' e ↔ has d e ∨ last < n ≤ to) ∧
    ∀ p, pipeline_run config (process (F := F) get_logs parser) sleep' elapsed' max_block faultless (started d) p →
      db_metadata (pl_database p) !! c = Some (mkIndexingMetadata to true) →
      ∀ n e, e ∈ chain c n → has (pl_database p) e ↔ has d' e.
Proof using Hsensible Hreliable.
  intros Hd Hm Hl Hto Hfuel. pose proof (sn_chain _ _ _ _ Hsensible). pose proof (sn_size _ _ _ _ Hsensible).
  unfold next_block. rewrite wrap64_small by lia.
  destruct (index_batches_reliable to Hto fuel (last + 1) d w last) as (d' & w' & Hi & Hm' & [_ Hk Ho Ha]); [done|lia|lia|done|].
  assert (Hev : ∀ n e, e ∈ chain c n → has d' e ↔ has d e ∨ last < n ≤ to).
  { intros n e Hin. split.
    - intros Hh. destruct (Ho c n e Hin Hh) as [Hx|[_ ?]]; [by left|right; lia].
    - intros [Hn|Hn]; [by apply Hk|]. apply (Ha n e); [lia|done]. }
  exists d', w'. split_and!; [done| | |].
  { rewrite Hm'. do 2 f_equal. destruct (Z.leb_spec (last + 1) to); lia. }
  { exact Hev. }
  intros p Hrun Hp n e Hin.
  destruct (indexed_run _ _ _ _ _ _ Hsensible d c last p Hm ltac:(lia) Hd Hrun) as (last' & Hlast & _ & Hpe).
  rewrite Hp in Hlast. injection Hlast as <-. rewrite (Hev n e Hin). apply (Hpe n e Hin).
Qed.
End pass.
End service.

(** ** Concrete runs *)

Definition no_fault (w : unit) : option Empty_set * unit := (None, w).
Definition no_batch_fault (w : unit) : option (nat * Empty_set) * unit := (None, w).
Definition no_cache_fault (w : unit) : option (IndexerError Empty_set) * unit := (None, w).

(** The pass over the chain with the undecodable log in block 2, in ranges of
    two blocks: the first is given up with its readable event, the second read. *)
Abbreviation toy_pass blocks := (index_batches (F := Empty_set) small_config toy_parser
  (λ a from to w, (inr (concat (map (blocks a) (seqZ from (to - from + 1)))), w)) no_fault no_batch_fault no_cache_fault no_sleep 10 "pool" 3).

(** A range is passed over: its events are lost, and the next pass has nothing
    to do. *)
Theorem ranges_are_passed_over :
  ∃ d, toy_pass toy_blocks 1 (pool_known, tt) = Some (inr tt, (d, tt)) ∧
    toy_event 1 "a" ∈ toy_chain "pool" 1 ∧ db_events d !! event_key (toy_event 1 "a") = None ∧
    db_metadata d !! "pool" = Some (mkIndexingMetadata 3 true) ∧
    toy_pass toy_blocks (next_block 3) (d, tt) = Some (inr tt, (d, tt)).
Proof. eexists. split; [vm_compute; reflexivity|]. vm_compute. split_and!; try done. left. Qed.

Lemma sequential_pass_witness :
  ∃ d l, toy_pass toy_blocks (next_block 0) (pool_known, tt) = Some (inr tt, (d, tt)) ∧ tiles 1 4 l.*1 ∧
    db_metadata d !! "pool" = Some (mkIndexingMetadata (marked l 0) true).
Proof.
  destruct (toy_pass toy_blocks (next_block 0) (pool_known, tt)) as [[[x|[]] [d []]]|] eqn:Hp;
    [exfalso; vm_compute in Hp; discriminate Hp| |exfalso; vm_compute in Hp; discriminate Hp].
  destruct (sequential_pass (F := Empty_set) small_config toy_parser toy_logs no_fault no_batch_fault no_cache_fault no_sleep
              3 toy_chain toy_sensible "pool" 3 10 pool_known tt 0 d tt) as (l & Ht & Hm & _).
  - intros k e Hk. change ((∅ : gmap (string * Z) CreateEvent) !! k = Some e) in Hk. by rewrite lookup_empty in Hk.
  - vm_compute; reflexivity.
  - lia.
  - lia.
  - exact Hp.
  - exists d, l. split; [reflexivity|]. split; [exact Ht|exact Hm].
Defined.

Lemma service_cannot_be_restarted_witness :
  let broken (w : unit) : option string * unit := (Some "no connection", w) in
  let go (b : bool) := start (F := string) small_config toy_parser toy_logs (λ w, (inr 3, w)) broken
              (λ w, (None, w)) (λ w, (None, w)) no_sleep (λ w, (false, w)) 10 (b, (pool_known, tt)) in
  go false = Some (inl (IE_Database _ "no connection"), (true, (pool_known, tt))) ∧
  go true = Some (inr tt, (true, (pool_known, tt))).
Proof.
  split; [vm_compute; reflexivity|].
  apply (service_cannot_be_restarted (F := string) small_config toy_parser toy_logs (λ w, (inr 3, w)) (λ w, (Some "no connection", w))
           (λ w, (None, w)) (λ w, (None, w)) no_sleep (λ w, (false, w)) 10 (pool_known, tt) (IE_Database _ "no connection") true
           (pool_known, tt)).
  vm_compute; reflexivity.
Defined.

(** Without the bad log *)
Definition quiet_blocks (a n : Z) : list Log := match n with 1 => [good_log 1 1] | 3 => [good_log 3 3] | _ => [] end.
Definition quiet_logs (a from to : Z) (w : unit) : (string + list Log) * unit :=
  (inr (concat (map (quiet_blocks a) (seqZ from (to - from + 1)))), w).
Definition quiet_chain := logged (F := Empty_set) toy_parser quiet_blocks.

Lemma quiet_chain_cases c n e :
  e ∈ quiet_chain c n → c = "pool" ∧ (n = 1 ∧ e = toy_event 1 "a" ∨ n = 3 ∧ e = toy_event 3 "c").
Proof.
  unfold quiet_chain, logged, parse_address, toy_ethers. case_bool_decide as Hc; [|by intros ?%elem_of_nil].
  intros Hx. split; [done|]. destruct n as [|[[n|n|]|[n|n|]|]|n]; vm_compute in Hx;
    try (by apply elem_of_nil in Hx); apply list_elem_of_singleton in Hx as ->; auto.
Qed.

Lemma quiet_sensible : sensible small_config (process (F := Empty_set) quiet_logs toy_parser) 3 quiet_chain.
Proof.
  split; try done.
  - intros t w es w'. apply process_logged. intros a from to w1 logs w2 [= <- _]. done.
  - intros c n e c' n' e' [-> [[-> ->]|[-> ->]]]%quiet_chain_cases [-> [[-> ->]|[-> ->]]]%quiet_chain_cases Hk; done.
Qed.

Lemma quiet_reliable :
  reliable (F := Empty_set) toy_parser quiet_logs no_fault no_batch_fault no_cache_fault "pool".
Proof.
  split; [|done..]. intros a b w. unfold fetch_events, quiet_logs. cbn [parse_address toy_ethers].
  rewrite bool_decide_true by done. set (logs := concat _).
  assert (Hl : Forall (λ log, ∃ o, parse_log (F := Empty_set) toy_parser log = inr o) logs).
  { apply Forall_concat, Forall_fmap, Forall_forall. intros n _. cbn.
    destruct n as [|[[n|n|]|[n|n|]|]|n]; repeat constructor; by eexists. }
  pose proof (proj2 (parse_logs_Ok toy_parser logs _) (conj Hl eq_refl)) as Hp.
  destruct logs; [by do 2 eexists|]. rewrite Hp. by do 2 eexists.
Qed.

Lemma sequential_agrees_with_parallel_witness :
  ∃ d, toy_pass quiet_blocks (next_block 0) (pool_known, tt) = Some (inr tt, (d, tt)) ∧
    db_metadata d !! "pool" = Some (mkIndexingMetadata 3 true).
Proof.
  destruct (sequential_agrees_with_parallel (F := Empty_set) small_config toy_parser quiet_logs no_fault no_batch_fault no_cache_fault
              no_sleep 3 quiet_chain quiet_sensible "pool" quiet_reliable no_sleep no_time 3 10 pool_known tt 0)
    as (d & [] & Hp & Hm & _).
  - intros k e Hk. change ((∅ : gmap (string * Z) CreateEvent) !! k = Some e) in Hk. by rewrite lookup_empty in Hk.
  - vm_compute; reflexivity.
  - lia.
  - lia.
  - lia.
  - exists d. split; [exact Hp|exact Hm].
Defined.
