(* ===== verification/IndexerQueries.v ===== *)
(** * IndexerQueries: cached queries over the indexed events (indexing_system/src/query.rs, cache.rs, models.rs)

    Readers ask the cache first and the database only when it has no answer,
    which is then cached for some time.  Redis is a map whose entries expire;
    what the code stores as JSON text is kept as the value it encodes.  The
    world [W] gives the time, the failures of both services and the rows of the
    database.  What the cache can serve: current answers, as long as a reader and
    the indexer do not interleave and the keys differ - and they need not. *)

From Stdlib Require Import Sorting.Sorted.
From S2P Require Import Prelude.
From S2P Require Import Indexer.

(** ** Queries (models.rs) *)

Record EventQuery : Type := mkEventQuery {
  eq_contract_address : option string;
  eq_event_name : option string;
  eq_from_block : option Z;
  eq_to_block : option Z;
  eq_limit : option Z;
  eq_offset : option Z;
}.
#[export] Instance EventQuery_upd : Updatable EventQuery := λ q,
  mkEventQuery (eq_contract_address q) (eq_event_name q) (eq_from_block q) (eq_to_block q) (eq_limit q) (eq_offset q).

Definition new_query : EventQuery := mkEventQuery None None None None (Some 100) None.
Definition with_contract (address : string) (q : EventQuery) : EventQuery := q <| eq_contract_address := Some address |>.
Definition with_event_name (name : string) (q : EventQuery) : EventQuery := q <| eq_event_name := Some name |>.
Definition with_block_range (from to : Z) (q : EventQuery) : EventQuery :=
  q <| eq_from_block := Some from |> <| eq_to_block := Some to |>.
Definition with_pagination (limit offset : Z) (q : EventQuery) : EventQuery :=
  q <| eq_limit := Some limit |> <| eq_offset := Some offset |>.

Record EventStats : Type := mkEventStats {
  es_total_events : Z;
  es_unique_contracts : Z;
  es_latest_block : Z;
  es_timestamp : Z;
}.

(** ** What the database answers (repository.rs) *)

Definition allows {A} (o : option A) (P : A → Prop) : Prop := match o with Some a => P a | None => True end.

(** The [WHERE] of [query_events] *)
Definition row_matches (q : EventQuery) (e : CreateEvent) : Prop :=
  allows (eq_contract_address q) (λ c, ev_contract_address e = c) ∧ allows (eq_event_name q) (λ n, ev_event_name e = n) ∧
  allows (eq_from_block q) (λ b, as_i64 b ≤ as_i64 (ev_block_number e)) ∧
  allows (eq_to_block q) (λ b, as_i64 (ev_block_number e) ≤ as_i64 b).

(** [ORDER BY block_number DESC, log_index DESC] *)
Definition row_order (e e' : CreateEvent) : Prop :=
  as_i64 (ev_block_number e') < as_i64 (ev_block_number e) ∨
  as_i64 (ev_block_number e') = as_i64 (ev_block_number e) ∧ as_i32 (ev_log_index e') ≤ as_i32 (ev_log_index e).

(** All matching rows in an order the statement allows, cut by [LIMIT] and
    [OFFSET] *)
Definition query_answer (q : EventQuery) (d : Database) (rows : list CreateEvent) : Prop :=
  ∃ all, (∀ e, e ∈ all ↔ (∃ k, db_events d !! k = Some e) ∧ row_matches q e) ∧ StronglySorted row_order all ∧
    rows = let rest := drop (Z.to_nat (default 0 (eq_offset q))) all in
           match eq_limit q with Some n => take (Z.to_nat n) rest | None => rest end.

(** A negative [LIMIT] or [OFFSET] is an error. *)
Definition bounds_allowed (q : EventQuery) : bool :=
  (0 <=? default 0 (eq_limit q)) && (0 <=? default 0 (eq_offset q)).

(** [COUNT], [COUNT(DISTINCT ..)] and [MAX] of [get_event_stats] *)
Definition event_stats (d : Database) (now : Z) : EventStats :=
  let rows := (map_to_list (db_events d)).*2 in
  mkEventStats (len rows) (len (remove_dups (map ev_contract_address rows)))
    match map (λ e, as_i64 (ev_block_number e)) rows with b :: l => foldr Z.max b l | [] => 0 end now.

(** ** The cache (cache.rs) *)

Inductive Cached : Type :=
  | CachedEvents (events : list CreateEvent) | CachedStats (stats : EventStats)
  | CachedCounts (counts : list (string * string * Z)) | CachedBlock (block : Z).

(** Values with the time they expire at *)
Abbreviation Redis := (gmap string (Cached * option Z)).

Definition set_ex (key : string) (v : Cached) (ttl now : Z) (r : Redis) : Redis := <[key := (v, Some (now + ttl))]> r.
Definition redis_get (key : string) (now : Z) (r : Redis) : option Cached :=
  match r !! key with
  | Some (v, Some t) => if now <? t then Some v else None
  | Some (v, None) => Some v
  | None => None
  end.

Definition query_key (query_hash : string) : string := "query:" +:+ query_hash.
Definition stats_key : string := "stats:global".
Definition count_stats_key (cache_key : string) : string := "count_stats:" +:+ cache_key.

(** The keys that match ["query:*"] *)
Definition is_query_key (key : string) : bool := String.prefix "query:" key.
Definition delete_query_keys (r : Redis) : Redis := filter (λ e : string * (Cached * option Z), is_query_key e.1 = false) r.

(** ** The hash of a query *)

(** What [DefaultHasher] is fed *)
Inductive HashPiece : Type := HashStr (s : string) | HashOption (o : option Z).

Definition hash_input (q : EventQuery) : list HashPiece :=
  match eq_contract_address q with Some a => [HashStr a] | None => [] end ++
  match eq_event_name q with Some n => [HashStr n] | None => [] end ++
  [HashOption (eq_from_block q); HashOption (eq_to_block q); HashOption (eq_limit q); HashOption (eq_offset q)].

(** ** The services *)

Record QueryState : Type := mkQueryState { qs_redis : Redis; qs_db : Database }.
#[export] Instance QueryState_upd : Updatable QueryState := λ s, mkQueryState (qs_redis s) (qs_db s).

Section queries.
Context {F W : Type} (now : W → Z) (redis_fault db_fault : W → option F * W)
        (bad_json : F)                                                    (* the error of decoding another type *)
        (hash : list HashPiece → string)                                  (* the hasher's result, in hexadecimal *)
        (show_number : Z → string)
        (db_rows : EventQuery → Database → W → list CreateEvent)          (* in one of the allowed orders *)
        (db_recent : string → Z → Database → W → list CreateEvent)
        (db_typed : string → string → Z → Z → Database → W → list CreateEvent)
        (db_counts : option string → W → list (string * string * Z))      (* the materialised view *)
        (bad_bounds : F)                                                  (* the error of a negative [LIMIT] or [OFFSET] *)
        (stats_ttl query_ttl : Z).

Abbreviation State := (QueryState * W)%type.
Definition QM (A : Type) : Type := State → (IndexerError F + A) * State.
#[local] Instance QM_ret : MRet QM := λ _ a s, (inr a, s).
#[local] Instance QM_bind : MBind QM := λ _ _ k m s,
  match m s with (inr a, s) => k a s | (inl e, s) => (inl e, s) end.

(** A request to Redis or to the database; a failed one has no effect. *)
Definition redis {A} (f : Z → Redis → A * Redis) : QM A := λ '(s, w),
  match redis_fault w with
  | (Some e, w) => (inl (IE_Cache F e), (s, w))
  | (None, w) => let '(a, r) := f (now w) (qs_redis s) in (inr a, (s <| qs_redis := r |>, w))
  end.
Definition select {A} (f : Database → W → A) : QM A := λ '(s, w),
  match db_fault w with
  | (Some e, w) => (inl (IE_Database F e), (s, w))
  | (None, w) => (inr (f (qs_db s) w), (s, w))
  end.
Definition select_events (q : EventQuery) : QM (list CreateEvent) := λ s,
  if bounds_allowed q then select (db_rows q) s else (inl (IE_Database F bad_bounds), s).
Definition lookup (key : string) : QM (option Cached) := redis (λ t r, (redis_get key t r, r)).
Definition store (key : string) (v : Cached) (ttl : Z) : QM unit := redis (λ t r, (tt, set_ex key v ttl t r)).
Definition malformed {A} : QM A := λ s, (inl (IE_Serialization F bad_json), s).

Definition cache_query_results (query_hash : string) (events : list CreateEvent) : QM unit :=
  store (query_key query_hash) (CachedEvents events) query_ttl.
Definition get_cached_query (query_hash : string) : QM (option (list CreateEvent)) :=
  v ← lookup (query_key query_hash);
  match v with Some (CachedEvents l) => mret (Some l) | Some _ => malformed | None => mret None end.
Definition cache_stats (stats : EventStats) : QM unit := store stats_key (CachedStats stats) stats_ttl.
Definition get_cached_stats : QM (option EventStats) :=
  v ← lookup stats_key;
  match v with Some (CachedStats x) => mret (Some x) | Some _ => malformed | None => mret None end.
Definition cache_count_stats (cache_key : string) (counts : list (string * string * Z)) : QM unit :=
  store (count_stats_key cache_key) (CachedCounts counts) stats_ttl.
Definition get_cached_count_stats (cache_key : string) : QM (option (list (string * string * Z))) :=
  v ← lookup (count_stats_key cache_key);
  match v with Some (CachedCounts x) => mret (Some x) | Some _ => malformed | None => mret None end.
Definition set_latest_block (block_number : Z) : QM unit := redis (λ _ r, (tt, <["latest_block" := (CachedBlock block_number, None)]> r)).
Definition get_latest_block : QM (option Z) :=
  v ← lookup "latest_block";
  match v with Some (CachedBlock n) => mret (Some n) | Some _ => malformed | None => mret None end.

(** The scan and the deletion of what it found; Redis has one thread, and the
    lock of the cache is held. *)
Definition invalidate_queries : QM unit := redis (λ _ r, (tt, delete_query_keys r)).
Definition invalidate_stats : QM unit := redis (λ _ r, (tt, delete stats_key r)).
Definition clear_all : QM unit := redis (λ _ r, (tt, ∅)).

(** *** query.rs *)

Definition generate_query_hash (q : EventQuery) : string := hash (hash_input q).

(** The lock of the cache is released between the three requests. *)
Definition cached_query (cache_key : string) (fetch : QM (list CreateEvent)) : QM (list CreateEvent) :=
  cached ← get_cached_query cache_key;
  match cached with
  | Some events => mret events
  | None =>
      events ← fetch;
      cache_query_results cache_key events ;;
      mret events
  end.

Definition query_events (q : EventQuery) : QM (list CreateEvent) := cached_query (generate_query_hash q) (select_events q).
Definition get_contract_events (contract_address : string) (limit offset : Z) : QM (list CreateEvent) :=
  query_events (with_pagination limit offset (with_contract contract_address new_query)).
Definition get_recent_events (limit : Z) : QM (list CreateEvent) := query_events (with_pagination limit 0 new_query).
Definition get_events_by_name (event_name : string) (from_block to_block : option Z) : QM (list CreateEvent) :=
  let query := with_event_name event_name new_query in
  query_events match from_block, to_block with Some from, Some to => with_block_range from to query | _, _ => query end.
Definition get_event_count (contract_address : string) : QM Z :=
  events ← query_events (with_pagination 10000 0 (with_contract contract_address new_query)); mret (len events).

Definition get_recent_contract_events (contract_address : string) (limit : option Z) : QM (list CreateEvent) :=
  let limit := default 50 limit in
  cached_query ("recent_contract:" +:+ contract_address +:+ ":" +:+ show_number limit) (select (db_recent contract_address limit)).
Definition get_typed_events_in_range (contract_address event_name : string) (from_block to_block : Z) : QM (list CreateEvent) :=
  cached_query ("typed_range:" +:+ contract_address +:+ ":" +:+ event_name +:+ ":" +:+ show_number from_block +:+ "-" +:+ show_number to_block)
    (select (db_typed contract_address event_name from_block to_block)).

Definition get_statistics : QM EventStats :=
  cached ← get_cached_stats;
  match cached with
  | Some stats => mret stats
  | None => stats ← select (λ d w, event_stats d (now w)); cache_stats stats ;; mret stats
  end.

Definition get_event_count_statistics (contract_address : option string) : QM (list (string * string * Z)) :=
  let cache_key := "count_stats:" +:+ default "all" contract_address in
  cached ← get_cached_count_stats cache_key;
  match cached with
  | Some stats => mret stats
  | None => stats ← select (λ _ w, db_counts contract_address w); cache_count_stats cache_key stats ;; mret stats
  end.

Definition invalidate_cache : QM unit := invalidate_queries ;; invalidate_stats.
Definition warm_cache : QM unit := get_recent_events 100 ;; get_statistics ;; mret tt.

(** ** What the cache serves *)

(** What is cached for the queries of [Q], which have different hashes, are
    current answers. *)
Record coherent (Q : EventQuery → Prop) (s : QueryState) : Prop := {
  co_answers : ∀ q v t, Q q → qs_redis s !! query_key (generate_query_hash q) = Some (v, t) →
    ∃ rows, v = CachedEvents rows ∧ query_answer q (qs_db s) rows;
}.

Definition apart (Q : EventQuery → Prop) : Prop :=
  ∀ q q', Q q → Q q' → generate_query_hash q = generate_query_hash q' → q = q'.

Context (Hrows : ∀ q d w, bounds_allowed q = true → query_answer q d (db_rows q d w)).

Lemma append_inj (p a b : string) : p +:+ a = p +:+ b → a = b.
Proof. induction p as [|c p IH]; [done|]. cbn. intros [= H]. by apply IH. Qed.

Lemma redis_get_Some key t (r : Redis) v : redis_get key t r = Some v → ∃ x, r !! key = Some (v, x).
Proof.
  unfold redis_get. destruct (r !! key) as [[v' [x|]]|]; [destruct (_ <? _); [|done]| |done]; intros [= ->]; by eexists.
Qed.

(** A query that is answered, from the cache or from the database, is answered
    with current rows, and the cache stays coherent. *)
Lemma query_events_coherent (Q : EventQuery → Prop) q s w r s' w' :
  Q q → apart Q → coherent Q s → query_events q (s, w) = (r, (s', w')) →
  coherent Q s' ∧ qs_db s' = qs_db s ∧ ∀ rows, r = inr rows → query_answer q (qs_db s) rows.
Proof using Hrows.
  intros Hq Hap Hco H. unfold query_events, cached_query, get_cached_query, lookup, redis, mbind, QM_bind, mret, QM_ret in H.
  destruct (redis_fault w) as [[e|] w1]; [by injection H as <- <- _|].
  assert (Hs : s <| qs_redis := qs_redis s |> = s) by (by destruct s). rewrite Hs in H.
  destruct (redis_get _ _ _) as [v|] eqn:Hg.
  - apply redis_get_Some in Hg as [t Hg]. destruct (co_answers _ _ Hco q v t Hq Hg) as (rows & -> & Ha).
    injection H as <- <- _. split_and!; [done|done|]. by intros ? [= <-].
  - unfold select_events, select in H. destruct (bounds_allowed q) eqn:Hb;
      [|injection H as <- <- _; split_and!; try done; by rewrite ?Hs].
    destruct (db_fault w1) as [[e|] w2]; [injection H as <- <- _; split_and!; try done; by rewrite ?Hs|].
    cbn in H. unfold cache_query_results, store, redis in H. destruct (redis_fault w2) as [[e|] w3].
    { injection H as <- <- _. by split_and!. }
    injection H as <- <- _. cbn. split_and!; [|done|by intros ? [= <-]; apply Hrows]. split. cbn. intros q' v t Hq' Hl.
    unfold set_ex in Hl. apply lookup_insert_Some in Hl as [[Hk [= <- _]]|[_ Hl]]; [|by eapply co_answers].
    apply append_inj, (Hap q q') in Hk as <-; [|done..]. exists (db_rows q (qs_db s) w2). split; [done|by apply Hrows].
Qed.

(** After the indexer has changed the tables and told the cache, nothing that
    was cached before is served. *)
Lemma invalidate_coherent Q s w d s' w' :
  invalidate_queries (s <| qs_db := d |>, w) = (inr tt, (s', w')) → coherent Q s' ∧ qs_db s' = d.
Proof using Type.
  unfold invalidate_queries, redis. destruct (redis_fault w) as [[e|] w1]; [done|]. intros [= <- _]. split; [|done].
  split. cbn. intros q v t _ Hl. unfold delete_query_keys in Hl. apply map_lookup_filter_Some in Hl as [_ Hl]. cbn in Hl.
  unfold is_query_key, query_key in Hl. cbn in Hl. by destruct (generate_query_hash q).
Qed.

(** *** Runs *)

(** Whole queries by readers, and changes of the tables by the indexer, each
    followed by a successful invalidation *)
Inductive query_step (Q : EventQuery → Prop) : State → State → Prop :=
  | qstep_query q s r s' : Q q → query_events q s = (r, s') → query_step Q s s'
  | qstep_index s w d s' : invalidate_queries (s <| qs_db := d |>, w) = (inr tt, s') → query_step Q (s, w) s'
  | qstep_time s w w' : query_step Q (s, w) (s, w').

Inductive query_run (Q : EventQuery → Prop) : State → State → Prop :=
  | qrun_refl s : query_run Q s s
  | qrun_step s1 s2 s3 : query_run Q s1 s2 → query_step Q s2 s3 → query_run Q s1 s3.

(** Readers who query only through the cache, in any order and number, while
    the indexer changes the tables and invalidates the cache after each change,
    always see rows that answer their query on the tables as they are, provided
    different queries have different hashes; a query never changes the tables. *)
Theorem cached_answers_are_current Q q d w0 s r s' :
  apart Q → Q q → query_run Q (mkQueryState ∅ d, w0) s → query_events q s = (inr r, s') →
  query_answer q (qs_db s.1) r ∧ qs_db s'.1 = qs_db s.1.
Proof using Hrows.
  intros Hap Hq Hrun Hqe.
  assert (Hco : coherent Q s.1).
  { remember (mkQueryState ∅ d, w0) as s0 eqn:Hs0. clear Hqe. induction Hrun as [s0|s1 s2 s3 Hrun IH Hst].
    - subst s0. split. cbn. intros q' v t _ Hl. by rewrite lookup_empty in Hl.
    - specialize (IH Hs0). destruct Hst as [q' [s w] r' [s1' w1] Hq' Hst|s w d' [s1' w1] Hst|s w w1]; cbn in *; [| |done].
      + by eapply query_events_coherent in Hst as [Hst _].
      + by eapply invalidate_coherent in Hst as [Hst _]. }
  destruct s as [s w], s' as [s1 w1]. eapply query_events_coherent in Hqe as (_ & Hd & Ha); [|done..]. split; [by apply Ha|done].
Qed.

(** *** Queries that are taken for each other *)

(** The hash does not tell a contract from an event name: for the same string,
    the two queries have the same hash, whatever the hasher. *)
Lemma contract_and_name_collide x : generate_query_hash (with_contract x new_query) = generate_query_hash (with_event_name x new_query).
Proof. reflexivity. Qed.

(** So a reader who asks for the events named [x] right after another one has
    asked for those of the contract [x] gets the latter. *)
Theorem queries_are_confused x s w rows s1 w1 r s2 w2 :
  (∀ w, (redis_fault w).1 = None) → 0 < query_ttl →
  query_events (with_contract x new_query) (s, w) = (inr rows, (s1, w1)) →
  redis_get (query_key (generate_query_hash (with_contract x new_query))) (now (redis_fault w1).2) (qs_redis s1) = Some (CachedEvents rows) →
  query_events (with_event_name x new_query) (s1, w1) = (r, (s2, w2)) → r = inr rows.
Proof using Type.
  intros Hok Httl _ Hget H. unfold query_events, cached_query, get_cached_query, lookup, redis, mbind, QM_bind, mret, QM_ret in H.
  specialize (Hok w1). destruct (redis_fault w1) as [o w3]. cbn in Hok, Hget. subst o.
  rewrite <- contract_and_name_collide, Hget in H. by injection H as <- _ _.
Qed.

(** Counts are cached under keys that no invalidation touches. *)
Theorem counts_survive_invalidation key s w s' w' :
  invalidate_cache (s, w) = (inr tt, (s', w')) → qs_redis s' !! count_stats_key key = qs_redis s !! count_stats_key key.
Proof using Type.
  unfold invalidate_cache, invalidate_queries, invalidate_stats, redis, mbind, QM_bind. destruct (redis_fault w) as [[e|] w1]; [done|].
  destruct (redis_fault w1) as [[e|] w2]; [done|]. intros [= <- _]. cbn. rewrite lookup_delete_ne by done.
  unfold delete_query_keys. destruct (qs_redis s !! count_stats_key key) eqn:Hl.
  - apply map_lookup_filter_Some. by split.
  - apply map_lookup_filter_None. by left.
Qed.
End queries.
