(* ===== verification/MigrationHub.v ===== *)
(** * MigrationHub: moving funds from other protocols ([migration-hub/src])

    A user's tokens are pulled into the hub and a record is written; the deposit
    into the lending contract is left out in the code.  Tokens are an arbitrary
    world; [approve] is the call the code makes, with a spender and an amount. *)

From S2P Require Import Prelude.
From S2P Require Import Host.

(** ** Data *)

Inductive MigrationError : Type :=
  | MH_NotInitialized | MH_AlreadyInitialized | MH_Unauthorized | MH_InvalidProtocol | MH_MigrationFailed
  | MH_RateLimitExceeded | MH_BridgeError | MH_DeadlineExceeded | MH_InsufficientFunds.

Inductive ProtocolType : Type := StellarOther | CrossChainBridge | AaveMock.
Inductive MigrationStatus : Type := MigrationPending | MigrationCompleted | MigrationFailedStatus.

#[export] Instance MigrationStatus_eq_dec : EqDecision MigrationStatus.
Proof. solve_decision. Defined.

Record MigrationRecord : Type := mkMigrationRecord {
  mr_user : Address;
  mr_protocol : ProtocolType;
  mr_asset : Address;
  mr_amount : Z;
  mr_status : MigrationStatus;
  mr_timestamp : Z;
}.
#[export] Instance MigrationRecord_upd : Updatable MigrationRecord := λ r,
  mkMigrationRecord (mr_user r) (mr_protocol r) (mr_asset r) (mr_amount r) (mr_status r) (mr_timestamp r).

Record MigrationConfig : Type := mkMigrationConfig {
  mg_lending_contract : Address;
  mg_bridge_contract : Address;
  mg_rate_limit_per_ledger : Z;
  mg_migration_deadline : Z;
}.

Record MigrationAnalytics : Type := mkMigrationAnalytics {
  ma_total_migrated_value : Z;
  ma_total_users : Z;
  ma_successful_migrations : Z;
  ma_failed_migrations : Z;
}.

(** [DataKey]; no code uses [UserMigrations]. *)
Record HubStore : Type := mkHubStore {
  hbAdmin : option Address;
  hbConfig : option MigrationConfig;
  hbAnalytics : option MigrationAnalytics;
  hbNextMigrationId : option Z;
  hbMigration : gmap Z MigrationRecord;
}.
#[export] Instance HubStore_upd : Updatable HubStore := λ s,
  mkHubStore (hbAdmin s) (hbConfig s) (hbAnalytics s) (hbNextMigrationId s) (hbMigration s).

Definition empty_hub : HubStore := mkHubStore None None None None ∅.

Abbreviation GM := (M HubStore MigrationError) (only parsing).

(** ** Operations *)

Definition initialize (admin lending_contract bridge_contract : Address) (rate_limit deadline : Z) : GM unit :=
  stored ← gets hbAdmin;
  reject_if (bool_decide (stored ≠ None)) MH_AlreadyInitialized ;;
  modify (λ s, s <| hbAdmin := Some admin |>
                 <| hbConfig := Some (mkMigrationConfig lending_contract bridge_contract rate_limit deadline) |>
                 <| hbAnalytics := Some (mkMigrationAnalytics 0 0 0 0) |>
                 <| hbNextMigrationId := Some 0 |>).

Definition get_next_id : GM Z :=
  stored ← gets hbNextMigrationId;
  let number := default 0 stored in
  next ← unwrap (u64_checked_add number 1);
  modify (λ s, s <| hbNextMigrationId := Some next |>) ;;
  mret number.

Definition save_migration (number : Z) (record : MigrationRecord) : GM unit :=
  modify (λ s, s <| hbMigration := <[number := record]> (hbMigration s) |>).

Definition count_u32 (n : Z) : option Z := fit in_u32 (n + 1).

Definition update_analytics (success : bool) (amount : Z) : GM unit :=
  stored ← gets hbAnalytics;
  stats ← unwrap stored;
  if success then
    successful ← unwrap (count_u32 (ma_successful_migrations stats));
    value ← unwrap (checked_add (ma_total_migrated_value stats) amount);
    users ← unwrap (count_u32 (ma_total_users stats));
    modify (λ s, s <| hbAnalytics := Some (mkMigrationAnalytics value users successful (ma_failed_migrations stats)) |>)
  else
    failed ← unwrap (count_u32 (ma_failed_migrations stats));
    modify (λ s, s <| hbAnalytics := Some (mkMigrationAnalytics (ma_total_migrated_value stats) (ma_total_users stats)
                                            (ma_successful_migrations stats) failed) |>).

Definition get_analytics : GM MigrationAnalytics := stored ← gets hbAnalytics; unwrap stored.
Definition get_migration (s : HubStore) (number : Z) : option MigrationRecord := hbMigration s !! number.

Definition verify_migration (migration_id : Z) : GM bool :=
  stored ← gets (λ s, get_migration s migration_id);
  record ← ok_or stored MH_MigrationFailed;
  mret (bool_decide (mr_status record = MigrationCompleted)).

Section migrate.
Context {W : Type} (this : Address)
        (token_transfer : Address → Address → Address → Z → W → option (unit * W))
        (token_approve : Address → Address → Z → W → option (unit * W)).

(** [StellarOtherLendAdapter::pull_funds] *)
Definition pull_funds (user asset : Address) (amount : Z) : M (HubStore * W) MigrationError unit :=
  call (token_transfer asset user this amount).

Definition verify_source_balance : Z := 1000000000.

Definition migrate (user : Address) (protocol : ProtocolType) (source_contract asset : Address) (amount : Z) :
    M (HubStore * W) MigrationError Z :=
  local (require_auth user) ;;
  stored ← local (gets hbConfig);
  config ← ok_or stored MH_NotInitialized;
  now ← ask timestamp;
  reject_if (mg_migration_deadline config <? now) MH_DeadlineExceeded ;;
  number ← local get_next_id;
  let record := mkMigrationRecord user protocol asset amount MigrationPending now in
  result ← attempt
    match protocol with
    | StellarOther => pull_funds user asset amount
    | CrossChainBridge => mret tt
    | AaveMock => call (token_transfer asset user this amount)
    end;
  match result with
  | inl e =>
      local (save_migration number (record <| mr_status := MigrationFailedStatus |>)) ;;
      local (update_analytics false 0) ;;
      fail e
  | inr _ =>
      call (token_approve asset (mg_lending_contract config) amount) ;;
      local (save_migration number (record <| mr_status := MigrationCompleted |>)) ;;
      local (update_analytics true amount) ;;
      mret number
  end.

Inductive HubCall : Type :=
  | HubInitialize (admin lending_contract bridge_contract : Address) (rate_limit deadline : Z)
  | HubMigrate (user : Address) (protocol : ProtocolType) (source_contract asset : Address) (amount : Z).

Definition hub_dispatch (c : HubCall) (env : Env) (s : HubStore * W) : HubStore * W :=
  match c with
  | HubInitialize a l b r d => (invoke (local (initialize a l b r d)) env s).2
  | HubMigrate u p c a x => (invoke (migrate u p c a x) env s).2
  end.

(** Other contracts change the world in between. *)
Inductive hub_reachable : HubStore * W → Prop :=
  | hub_start w : hub_reachable (empty_hub, w)
  | hub_step c env s : hub_reachable s → hub_reachable (hub_dispatch c env s)
  | hub_other s w w' : hub_reachable (s, w) → hub_reachable (s, w').
End migrate.

(** ** Outcomes *)

(** The state after a migration that went through *)
Definition migrated (number : Z) (r : MigrationRecord) (a : MigrationAnalytics) (s : HubStore) : HubStore :=
  mkHubStore (hbAdmin s) (hbConfig s)
    (Some (mkMigrationAnalytics (ma_total_migrated_value a + mr_amount r) (ma_total_users a + 1)
             (ma_successful_migrations a + 1) (ma_failed_migrations a)))
    (Some (number + 1)) (<[number := r]> (hbMigration s)).

Section theorems.
Context {W : Type} (this : Address)
        (token_transfer : Address → Address → Address → Z → W → option (unit * W))
        (token_approve : Address → Address → Z → W → option (unit * W)).

Abbreviation move := (migrate this token_transfer token_approve).
Abbreviation reachable := (hub_reachable this token_transfer token_approve).

(** What a migration does to the tokens, before the approval *)
Definition pulled (p : ProtocolType) (user asset : Address) (amount : Z) (w w' : W) : Prop :=
  match p with
  | CrossChainBridge => w' = w
  | _ => token_transfer asset user this amount w = Some (tt, w')
  end.

Lemma migrate_Ok user p source asset amount env s w n s' w' :
  move user p source asset amount env (s, w) = (Ok n, (s', w')) →
  ∃ config a w1, authorized env user = true ∧ hbConfig s = Some config ∧ timestamp env ≤ mg_migration_deadline config ∧
    n = default 0 (hbNextMigrationId s) ∧ hbAnalytics s = Some a ∧ pulled p user asset amount w w1 ∧
    token_approve asset (mg_lending_contract config) amount w1 = Some (tt, w') ∧
    s' = migrated n (mkMigrationRecord user p asset amount MigrationCompleted (timestamp env)) a s.
Proof.
  intros H. unfold migrate, pull_funds, get_next_id, save_migration, update_analytics in H.
  world_inv H. zbool.
  match goal with H : attempt _ _ _ = (Ok ?r, (?h, ?w1)) |- _ => apply attempt_Ok in H; rename H into Hpull end.
  destruct v5 as [e|[]]; [exfalso; match goal with H : (_ ≫= _) _ _ = _ |- _ => world_inv H end|].
  match goal with H : (_ ≫= _) _ _ = _ |- _ => world_inv H end.
  assert (Hw : h = s <| hbNextMigrationId := Some v7 |> ∧ pulled p user asset amount w w0)
    by (destruct p; world_inv Hpull; done).
  destruct Hw as [-> Hw]. cbn in *.
  repeat match goal with v : unit |- _ => destruct v end.
  repeat match goal with
    | H : u64_checked_add _ _ = Some _ |- _ => apply fit_Some in H as [_ ->]
    | H : count_u32 _ = Some _ |- _ => apply fit_Some in H as [_ ->]
    | H : checked_add _ _ = Some _ |- _ => apply checked_add_Some in H as [-> _]
  end.
  eexists _, _, w0. by split_and!.
Qed.

(** ** What holds in every reachable state *)

(** The identifiers given out are those of the records, all of migrations that
    were completed, and the analytics count and add them up. *)
Record hub_ok (s : HubStore) : Prop := {
  hk_set_up : hbAdmin s = None → s = empty_hub;
  hk_numbers : 0 ≤ default 0 (hbNextMigrationId s) ∧
    ∀ i, is_Some (hbMigration s !! i) ↔ 0 ≤ i < default 0 (hbNextMigrationId s);
  hk_completed : ∀ i r, hbMigration s !! i = Some r → mr_status r = MigrationCompleted;
  hk_analytics : ∀ a, hbAnalytics s = Some a →
    a = mkMigrationAnalytics (map_sum mr_amount (hbMigration s)) (default 0 (hbNextMigrationId s))
          (default 0 (hbNextMigrationId s)) 0;
}.

Lemma hub_step_ok c env s w s' w' :
  hub_ok s → hub_dispatch this token_transfer token_approve c env (s, w) = (s', w') → hub_ok s'.
Proof.
  intros Hs H. destruct c as [a l b r d|u p src asset x]; cbn [hub_dispatch] in H;
    match type of H with (invoke ?m ?e ?st).2 = _ => destruct (invoked_or_kept m e st) as [Hk|(n & [s1 w1] & Hr & Hk)] end;
    rewrite Hk in H; injection H as <- <-; try done.
  - apply local_Ok in Hr as [Hr _]. unfold initialize in Hr. run_inv Hr. zbool.
    rewrite (hk_set_up _ Hs) by done. split; cbn; [done|split; [done|]| |by intros a' [= <-]].
    + intros i. rewrite lookup_empty. split; [by intros []|lia].
    + intros i r' Hi. by rewrite lookup_empty in Hi.
  - apply migrate_Ok in Hr as (config & a & w2 & _ & Hc & _ & -> & Ha & _ & _ & ->).
    destruct Hs as [H1 [H2 H3] H4 H5]. pose proof (H5 _ Ha) as ->.
    assert (Hnew : hbMigration s !! default 0 (hbNextMigrationId s) = None).
    { apply eq_None_not_Some. rewrite H3. lia. }
    split; cbn.
    + intros Hnone. rewrite (H1 Hnone) in Hc. done.
    + split; [lia|]. intros i. destruct (decide (i = default 0 (hbNextMigrationId s))) as [->|Hi].
      * rewrite lookup_insert_eq. split; [lia|by eexists].
      * rewrite lookup_insert_ne by done. rewrite H3. lia.
    + intros i r' [[<- <-]|[_ Hi]]%lookup_insert_Some; [done|by eapply H4].
    + intros a' [= <-]. rewrite map_sum_insert_new by done. f_equal. cbn. lia.
Qed.

Lemma hub_is_ok s w : reachable (s, w) → hub_ok s.
Proof.
  intros H. remember (s, w) as sw eqn:Hsw. revert s w Hsw. induction H as [w0|c env [s0 w0] H IH|s0 w0 w1 H IH]; intros s w Hsw.
  - injection Hsw as <- <-. split; cbn; try done. split; [done|]. intros i. rewrite lookup_empty. split; [by intros []|lia].
  - eapply hub_step_ok; [by eapply IH|exact Hsw].
  - injection Hsw as <- <-. by eapply IH.
Qed.

(** In every reachable state the records of the hub are numbered from 0
    without gaps, all are of completed migrations, and the analytics are their
    number and the sum of their amounts; no migration ever failed. *)
Theorem hub_counts_migrations s w a :
  reachable (s, w) → hbAnalytics s = Some a →
  let n := default 0 (hbNextMigrationId s) in
  (∀ i, is_Some (get_migration s i) ↔ 0 ≤ i < n) ∧
  (∀ i r, get_migration s i = Some r → mr_status r = MigrationCompleted) ∧
  a = mkMigrationAnalytics (map_sum mr_amount (hbMigration s)) n n 0.
Proof. intros Hs Ha. apply hub_is_ok in Hs as [_ [_ H2] H3 H4]. split_and!; [done|done|by apply H4]. Qed.

(** A migration that goes through was signed by the user before the
    deadline; it pulls the amount from the user into the hub - unless the
    protocol is the bridge, for which nothing is pulled - and approves the
    lending contract for it.  That is all: nothing is deposited and nothing ever
    leaves the hub, and the record, which says completed, verifies as such. *)
Theorem migration_outcome user p source asset amount env s w n s' w' :
  reachable (s, w) → move user p source asset amount env (s, w) = (Ok n, (s', w')) →
  ∃ config w1, hbConfig s = Some config ∧ authorized env user = true ∧ timestamp env ≤ mg_migration_deadline config ∧
    pulled p user asset amount w w1 ∧ token_approve asset (mg_lending_contract config) amount w1 = Some (tt, w') ∧
    get_migration s n = None ∧
    get_migration s' n = Some (mkMigrationRecord user p asset amount MigrationCompleted (timestamp env)) ∧
    (∀ i, i ≠ n → get_migration s' i = get_migration s i) ∧ verify_migration n env s' = (Ok true, s').
Proof.
  intros Hs (config & a & w1 & Ha & Hc & Hd & Hn & _ & Hp & Happ & ->)%migrate_Ok. exists config, w1.
  apply hub_is_ok in Hs as [_ [_ H2] _ _]. split_and!; try done.
  - apply eq_None_not_Some. unfold get_migration. rewrite H2. lia.
  - apply lookup_insert_eq.
  - intros i Hi. by apply lookup_insert_ne.
  - unfold verify_migration, get_migration. run_fwd. cbn. rewrite lookup_insert_eq. run_fwd. by rewrite bool_decide_true.
Qed.
End theorems.

(** ** A run *)

(** Tokens that always agree and are not kept account of *)
Definition agreeable_transfer (asset from to : Address) (amount : Z) (w : unit) : option (unit * unit) := Some (tt, tt).
Definition agreeable_approve (asset spender : Address) (amount : Z) (w : unit) : option (unit * unit) := Some (tt, tt).
Definition hub_env : Env := mkEnv 100 5 (λ _, true) (λ _ _, None) (λ _ _ _ _, None).
Definition opened_hub : HubStore * unit :=
  hub_dispatch 9%positive agreeable_transfer agreeable_approve (HubInitialize 1%positive 2%positive 3%positive 10 1000)
    hub_env (empty_hub, tt).

(** Whoever signs can have a migration of any amount, through the bridge,
    recorded as completed, and added to the value migrated, without any tokens:
    also of an amount below zero. *)
Theorem bridge_migrations_need_no_funds :
  let s := hub_dispatch 9%positive agreeable_transfer agreeable_approve
             (HubMigrate 4%positive CrossChainBridge 5%positive 6%positive (-700)) hub_env opened_hub in
  hub_reachable 9%positive agreeable_transfer agreeable_approve s ∧
  (verify_migration 0 hub_env s.1).1 = Ok true ∧
  hbAnalytics s.1 = Some (mkMigrationAnalytics (-700) 1 1 0).
Proof. split; [repeat constructor|]. by vm_compute. Qed.

Lemma hub_counts_migrations_witness :
  ∃ s, hub_dispatch 9%positive agreeable_transfer agreeable_approve
         (HubMigrate 4%positive AaveMock 5%positive 6%positive 250) hub_env opened_hub = s ∧
    map_sum mr_amount (hbMigration s.1) = 250 ∧ default 0 (hbNextMigrationId s.1) = 1.
Proof.
  eexists. split; [reflexivity|].
  set (s := hub_dispatch _ _ _ _ _ opened_hub).
  destruct (hub_counts_migrations 9%positive agreeable_transfer agreeable_approve s.1 s.2
              (mkMigrationAnalytics 250 1 1 0)) as (_ & _ & Hsum).
  - rewrite <- surjective_pairing. repeat constructor.
  - vm_compute; reflexivity.
  - split; [exact (eq_sym (f_equal ma_total_migrated_value Hsum))|exact (eq_sym (f_equal ma_total_users Hsum))].
Defined.

Lemma migration_outcome_witness :
  ∃ n s w, migrate 9%positive agreeable_transfer agreeable_approve 4%positive StellarOther 5%positive 6%positive 250
             hub_env opened_hub = (Ok n, (s, w)) ∧ verify_migration n hub_env s = (Ok true, s).
Proof.
  eexists _, _, _. split; [vm_compute; reflexivity|].
  edestruct (migration_outcome 9%positive agreeable_transfer agreeable_approve 4%positive StellarOther 5%positive
              6%positive 250 hub_env opened_hub.1 opened_hub.2) as (config & w1 & _ & _ & _ & _ & _ & _ & _ & _ & Hv);
    [rewrite <- surjective_pairing; repeat constructor|vm_compute; reflexivity|exact Hv].
Defined.
