(* ===== verification/Meta.v ===== *)
(** * Meta: execution on behalf of another account
    ([lending/src/meta.rs]) and the token hook ([lending/src/token_receiver.rs])

    A delegate runs a batch of calls for a delegator, each checked with the
    delegation registry; a per-delegator nonce stops replays.  The registry is
    known through the interface [Registry] only. *)

From S2P Require Import Prelude Host LendingTypes Pause BorrowStorage InterestRate RiskMonitor.
From S2P Require Import Borrow Scenario Vault Commitments Delegation.

(** ** Data *)

Inductive Action : Type :=
  | ActDeposit | ActWithdraw | ActBorrow | ActRepay | ActDepositCollateral.

Record MetaCall : Type := mkMetaCall {
  mc_action : Action;
  mc_asset : Address;
  mc_amount : Z;
  mc_collateral_asset : option Address;
  mc_collateral_amount : option Z;
}.

(** ** Operations *)

Definition set_delegation_registry {E} (registry : Address) : LM E unit :=
  on_aux (λ a, a <| kDelegationRegistry := Some registry |>).
Definition get_delegation_registry (s : LState) : option Address := kDelegationRegistry (st_aux s).

Definition get_nonce (s : LState) (delegator : Address) : Z :=
  default 0 (kNonce (st_aux s) !! delegator).
Definition set_nonce {E} (delegator : Address) (nonce : Z) : LM E unit :=
  on_aux (λ a, a <| kNonce := <[delegator := nonce]> (kNonce a) |>).

Definition action_permission (action : Action) : Z :=
  match action with
  | ActDeposit => 1
  | ActWithdraw => 2
  | ActBorrow => 4
  | ActRepay => 8
  | ActDepositCollateral => 16
  end.

Definition validate_delegation (registry delegator delegate : Address) (action : Action) :
    LM MetaTxError unit :=
  answer ← ask (λ env, registry_validate env registry delegator delegate (action_permission action));
  valid ← unwrap answer;
  reject_if (negb valid) ME_PermissionDenied.

(** One arm of the batch loop. *)
Definition perform (delegator : Address) (c : MetaCall) : LM MetaTxError unit :=
  match mc_action c with
  | ActDeposit =>
      paused ← gets (λ s, is_paused s PauseDeposit);
      reject_if paused ME_Unauthorized ;;
      _ ← map_err (λ _, ME_Unauthorized)
            (Vault.deposit_with_auth delegator (mc_asset c) (mc_amount c) false);
      mret tt
  | ActWithdraw =>
      paused ← gets (λ s, is_paused s PauseWithdraw);
      reject_if paused ME_Unauthorized ;;
      _ ← map_err (λ _, ME_Unauthorized)
            (Vault.withdraw_with_auth delegator (mc_asset c) (mc_amount c) false);
      mret tt
  | ActBorrow =>
      paused ← gets (λ s, is_paused s PauseBorrow);
      reject_if paused ME_Unauthorized ;;
      ca ← ok_or (mc_collateral_asset c) ME_Unauthorized;
      camt ← ok_or (mc_collateral_amount c) ME_Unauthorized;
      map_err (λ _, ME_Unauthorized)
        (borrow_trusted delegator (mc_asset c) (mc_amount c) ca camt)
  | ActRepay =>
      paused ← gets (λ s, is_paused s PauseRepay);
      reject_if paused ME_Unauthorized ;;
      map_err (λ _, ME_Unauthorized) (repay delegator (mc_asset c) (mc_amount c))
  | ActDepositCollateral =>
      paused ← gets (λ s, is_paused s PauseDeposit);
      reject_if paused ME_Unauthorized ;;
      map_err (λ _, ME_Unauthorized) (Borrow.deposit delegator (mc_asset c) (mc_amount c))
  end.

Definition execute_delegated (delegator delegate : Address) (nonce deadline : Z)
    (calls : list MetaCall) : LM MetaTxError unit :=
  require_auth delegate ;;
  now ← ask timestamp;
  reject_if (negb (deadline =? 0) && (deadline <? now)) ME_Expired ;;
  current ← gets (λ s, get_nonce s delegator);
  reject_if (negb (nonce =? current)) ME_InvalidNonce ;;
  next ← unwrap (u64_checked_add current 1);
  set_nonce delegator next ;;
  stored ← gets get_delegation_registry;
  registry ← ok_or stored ME_DelegationMissing;
  for_each calls (λ c,
    validate_delegation registry delegator delegate (mc_action c) ;;
    perform delegator c).

(** ** The token hook *)

(** A host value: a symbol, or something that is not one. *)
Inductive Val : Type := VSymbol (s : string) | VOther.
Definition symbol_from_val (v : Val) : option string :=
  match v with VSymbol s => Some s | VOther => None end.

Definition receive (token_asset from : Address) (amount : Z) (payload : list Val) :
    LM BorrowError unit :=
  match payload with
  | [] => fail BE_InvalidAmount
  | v :: _ =>
      action ← unwrap (symbol_from_val v);
      if bool_decide (action = "deposit"%string) then Borrow.deposit from token_asset amount
      else if bool_decide (action = "repay"%string) then repay from token_asset amount
      else fail BE_AssetNotSupported
  end.

(** ** Lemmas *)

Lemma repay_run user asset amount env s :
  ∃ rt, repay user asset amount env s = repay_with_rate user asset amount rt env s.
Proof.
  destruct (is_open (get_debt_position user (Some asset) VariableRate env s)) eqn:Ho;
    [exists VariableRate|exists StableRate]; unfold repay;  rewrite bind_eq; cbn [reads]; by rewrite Ho.
Qed.

Lemma repay_Ok user asset amount env s u s' :
  repay user asset amount env s = (Ok u, s') → ∃ rt, repay_effect user asset amount rt env s s'.
Proof.
  destruct (repay_run user asset amount env s) as [rt ->]. intros H%repay_with_rate_Ok. eauto.
Qed.

Lemma set_nonce_Ok {E} a n env s u s' :
  set_nonce (E := E) a n env s = (Ok u, s') →
  s' = s <| st_aux := (st_aux s) <| kNonce := <[a := n]> (kNonce (st_aux s)) |> |>.
Proof. exact (on_aux_Ok _ _ _ _ _). Qed.

(** No call of a batch touches the nonces or the registry address. *)
Lemma perform_aux delegator c env s u s' :
  perform delegator c env s = (Ok u, s') → aux_frame (st_aux s') = aux_frame (st_aux s).
Proof.
  unfold perform. destruct (mc_action c); intros H; run_step H; subst.
  - match goal with H : deposit_with_auth _ _ _ _ _ _ = _ |- _ =>
      apply vault_deposit_Ok in H as [[] _] end. by subst.
  - match goal with H : withdraw_with_auth _ _ _ _ _ _ = _ |- _ =>
      apply withdraw_Ok in H as [[_ _ _ _ _ [? ->]] _] end. done.
  - by eapply borrow_inner_aux.
  - match goal with H : repay _ _ _ _ _ = _ |- _ => apply repay_Ok in H as [rt []] end.
    by destruct re_frame as (_ & _ & ->).
  - match goal with H : Borrow.deposit _ _ _ _ _ = _ |- _ =>
      apply collateral_deposit_Ok in H as (_ & _ & _ & _ & _ & _ & ->) end. done.
Qed.

Lemma for_each_Ok {S E A} (xs : list A) (body : A → M S E unit) (I : S → Prop) (P : A → Prop) env :
  (∀ x s u s', I s → body x env s = (Ok u, s') → I s' ∧ P x) →
  ∀ s u s', I s → for_each xs body env s = (Ok u, s') → I s' ∧ Forall P xs.
Proof.
  intros Hb. induction xs as [|x xs IH]; intros s u s' Hs H; cbn [for_each] in H.
  - by run_inv H.
  - apply bind_Ok in H as (u1 & s1 & H1 & H2). apply Hb in H1 as [Hs1 Hx]; [|done].
    apply IH in H2 as [? ?]; [|done]. by split; [|constructor].
Qed.

(** ** Properties *)

Section delegated.
Context `{Registry T}.

(** The deployed registry answers as the interface says. *)
Definition serves (reg : T) (registry : Address) (env : Env) : Prop :=
  ∀ d e p, registry_validate env registry d e p = Some (permits (timestamp env) reg d e p).

(** C38: delegated calls go through only for a delegate that signed, before the
    deadline, with the delegator's current nonce and with a grant in force that
    covers every call of the batch; the nonce advances by one, so that the same
    request is refused in the resulting state. *)
Theorem delegated_execution_is_authorized (reg : T) registry delegator delegate nonce deadline
    calls env s u s' :
  get_delegation_registry s = Some registry → serves reg registry env →
  execute_delegated delegator delegate nonce deadline calls env s = (Ok u, s') →
  authorized env delegate = true ∧
  (deadline = 0 ∨ timestamp env ≤ deadline) ∧
  Forall (λ c, ∃ d, granted reg delegator delegate = Some d ∧
            in_force (timestamp env) (action_permission (mc_action c)) d) calls ∧
  nonce = get_nonce s delegator ∧ get_nonce s' delegator = nonce + 1 ∧
  (∀ a, a ≠ delegator → get_nonce s' a = get_nonce s a) ∧
  (∀ env' delegate' deadline' calls' u' s'',
     execute_delegated delegator delegate' nonce deadline' calls' env' s' ≠ (Ok u', s'')).
Proof.
  intros Hreg Hserves Hrun. unfold execute_delegated in Hrun. run_step Hrun; subst.
  match goal with H : set_nonce _ _ _ _ = _ |- _ => apply set_nonce_Ok in H as -> end.
  match goal with H : u64_checked_add _ _ = _ |- _ => apply fit_Some in H as [_ ->] end.
  match goal with H : get_delegation_registry _ = Some ?r |- _ =>
    change (get_delegation_registry s = Some r) in H; rewrite Hreg in H; injection H as <- end.
  match goal with Hf : for_each _ _ _ ?s1 = _ |- _ =>
    apply (for_each_Ok calls _ (λ s2, aux_frame (st_aux s2) = aux_frame (st_aux s1))
      (λ c, permits (timestamp env) reg delegator delegate (action_permission (mc_action c)) = true) env)
      in Hf as [Hframe Hall]; [| |done] end.
  2: { intros c s1 u1 s2 Hs1 Hc. apply bind_Ok in Hc as (u2 & s3 & Hv & Hp).
       apply perform_aux in Hp. unfold validate_delegation in Hv. run_inv Hv.
       rewrite Hserves in *. zbool. split; [by etrans|congruence]. }
  zbool. pose proof (f_equal kNonce Hframe) as Hn. cbn in Hn.
  assert (get_nonce s' delegator = get_nonce s delegator + 1) as Hnonce.
  { unfold get_nonce at 1. rewrite Hn, lookup_insert_eq. done. }
  split_and!; try done.
  - match goal with H : _ ∨ _ |- _ => destruct H; zbool; [by left|by right] end.
  - eapply Forall_impl; [exact Hall|]. intros c Hc. by apply permits_in_force.
  - lia.
  - intros a Ha. unfold get_nonce. by rewrite Hn, lookup_insert_ne.
  - intros env' delegate' deadline' calls' u' s'' Hr. unfold execute_delegated in Hr.
    run_step Hr; subst. zbool. lia.
Qed.
End delegated.

(** The registry of the example: alice lets bob repay for her until time 100. *)
Definition demo_registry : RegistryStore := {[ (alice, bob) := mkDelegation 8 1000 ]}.
Definition served_env (now : Z) : Env :=
  mkEnv now 7 (λ a, bool_decide (a = bob)) demo_prices
    (λ _ d e p, Some (validate now demo_registry d e p)).
Definition delegated_market : LState :=
  final (borrow alice usd 1000 gold 1500) (demo_env 100)
    (final (set_delegation_registry (E := BorrowError) feed) (demo_env 100) market).

Lemma delegated_execution_is_authorized_witness :
  let calls := [mkMetaCall ActRepay usd 400 None None] in
  let s' := final (execute_delegated alice bob 0 0 calls) (served_env 100) delegated_market in
  authorized (served_env 100) bob = true ∧
  (0 = 0 ∨ timestamp (served_env 100) ≤ 0) ∧
  Forall (λ c, ∃ d, granted demo_registry alice bob = Some d ∧
            in_force (timestamp (served_env 100)) (action_permission (mc_action c)) d) calls ∧
  0 = get_nonce delegated_market alice ∧ get_nonce s' alice = 0 + 1 ∧
  (∀ a, a ≠ alice → get_nonce s' a = get_nonce delegated_market a) ∧
  (∀ env' delegate' deadline' calls' u' s'',
     execute_delegated alice delegate' 0 deadline' calls' env' s' ≠ (Ok u', s'')).
Proof.
  intros calls s'.
  apply (delegated_execution_is_authorized demo_registry feed alice bob 0 0 calls (served_env 100)
           delegated_market tt s').
  - vm_compute. reflexivity.
  - intros d e p. reflexivity.
  - vm_compute. reflexivity.
Defined.

(** *** The token hook *)

Definition nobody_env (now : Z) : Env :=
  mkEnv now 7 (λ _, false) (λ _ _, None) (λ _ _ _ _, None).

(** The token hook credits collateral and cancels debt for an account
    although nobody has signed the invocation, and although repayments and
    deposits are paused. *)
Theorem token_hook_is_unauthenticated :
  let paused := final (set_pause (E := BorrowError) admin PauseAll true) (demo_env 100)
                  (final (borrow alice usd 1000 gold 1500) (demo_env 100) market) in
  is_paused paused PauseRepay = true ∧ is_paused paused PauseDeposit = true ∧
  get_total_debt paused = 1000 ∧
  get_total_debt (final (receive usd alice 1000 [VSymbol "repay"]) (nobody_env 100) paused) = 0 ∧
  bc_amount (get_user_collateral
    (final (receive gold alice 5000 [VSymbol "deposit"]) (nobody_env 100) paused) alice) = 6500.
Proof. split_and!; vm_compute; reflexivity. Qed.
