(* ===== verification/Frames.v ===== *)
(** * Frames: what the operations on positions leave alone

    Borrowing, repaying, switching rates and adding collateral write the
    position maps, the debt total, the stable-rate average, the alert latch
    and the event log.  A property that survives those writes survives the
    operations, whatever their outcome; [position_blind] lists the writes.
    Instances are the contract's settings ([frame]) and the sign of the rates. *)

From S2P Require Import Prelude Host LendingTypes Pause BorrowStorage InterestRate RiskMonitor.
From S2P Require Import Borrow Scenario Interest DebtAccounting Vault FlashLoan Views.
From S2P Require Import Commitments Delegation Meta.

Record position_blind (I : LState → Prop) : Prop := {
  pb_store : ∀ s u p, I s → I (s <| st_borrow := store_debt u p (st_borrow s) |>);
  pb_compat : ∀ s u p, I s → I (s <| st_borrow := (st_borrow s) <| kBorrowUserDebt :=
                <[u := p]> (kBorrowUserDebt (st_borrow s)) |> |>);
  pb_collateral : ∀ s u c, I s → I (s <| st_borrow := with_collateral u c (st_borrow s) |>);
  pb_total : ∀ s d, I s → I (s <| st_borrow := (st_borrow s) <| kBorrowTotalDebt := Some d |> |>);
  pb_latch : ∀ s t, I s → I (s <| st_aux := (st_aux s) <| kLastEmittedTier := Some t |> |>);
  pb_event : ∀ s ev, I s → I (s <| st_events := st_events s ++ [ev] |>);
  pb_average : preserves I (update_stable_rate_state_if_needed (E := BorrowError));
}.

Section position_ops.
Context (I : LState → Prop) (HI : position_blind I).

Lemma blind_publish {E} ev : preserves I (publish ev : LM E unit).
Proof. apply preserves_publish. intros s. apply (pb_event I HI). Qed.
Lemma blind_save_debt {E} u p : preserves I (save_debt_position (E := E) u p).
Proof.
  intros env s r s' Hs. rewrite save_debt_position_run. intros [= <- <-].
  exact (pb_compat I HI _ u (compat_position (timestamp env) u (store_debt u p (st_borrow s)))
    (pb_store I HI s u p Hs)).
Qed.
Lemma blind_save_collateral {E} u c : preserves I (save_collateral_position (E := E) u c).
Proof. apply preserves_on_borrow. intros s. apply (pb_collateral I HI). Qed.
Lemma blind_total {E} d : preserves I (set_total_debt (E := E) d).
Proof. apply preserves_on_borrow. intros s. apply (pb_total I HI). Qed.
Lemma blind_monitor {E} t c : preserves I (on_utilization_changed (E := E) t c).
Proof. unfold on_utilization_changed. 
  preserve; first [apply blind_publish|apply preserves_on_aux; intros s; apply (pb_latch I HI)].
Qed.
Lemma blind_stable_rate : preserves I get_current_stable_rate_bps.
Proof.
  unfold get_current_stable_rate_bps. pose proof (pb_average I HI). preserve; assumption.
Qed.

#[local] Hint Resolve blind_publish blind_save_debt blind_save_collateral blind_total
  blind_monitor blind_stable_rate : preserves.

Lemma blind_calculate_interest p : preserves I (calculate_interest p).
Proof. unfold calculate_interest. preserve. Qed.
Lemma blind_lock rt p : preserves I (lock_stable_rate rt p).
Proof. unfold lock_stable_rate. preserve. Qed.
#[local] Hint Resolve blind_calculate_interest blind_lock : preserves.

Lemma blind_borrow user asset amount ca camt rt auth :
  preserves I (borrow_inner user asset amount ca camt rt auth).
Proof. unfold borrow_inner, authorize_borrow, emit_borrow_event. preserve. Qed.

Lemma blind_repay_with_rate user asset amount rt :
  preserves I (repay_with_rate user asset amount rt).
Proof. unfold repay_with_rate. preserve. Qed.

Lemma blind_repay user asset amount : preserves I (repay user asset amount).
Proof.
  intros env s r s' Hs. destruct (repay_run user asset amount env s) as [rt ->].
  by apply blind_repay_with_rate.
Qed.

Lemma blind_switch user asset to : preserves I (switch_rate_type user asset to).
Proof. unfold switch_rate_type. preserve. Qed.

Lemma blind_deposit user asset amount : preserves I (Borrow.deposit user asset amount).
Proof. unfold Borrow.deposit. preserve. Qed.

Lemma blind_user_debt {E} user : preserves I (get_user_debt (E := E) user).
Proof. unfold get_user_debt, with_accrued. preserve. Qed.

Lemma blind_receive t f x p : preserves I (receive t f x p).
Proof.
  unfold receive. pose proof blind_deposit. pose proof blind_repay. preserve; auto.
Qed.
End position_ops.

(** ** The settings frame *)

(** The borrow store without the positions. *)
Definition settings_of (b : BorrowStore) : BorrowStore :=
  b <| kBorrowUserDebt := ∅ |> <| kBorrowUserVariableDebt := ∅ |> <| kBorrowUserStableDebt := ∅ |>
    <| kBorrowUserCollateral := ∅ |> <| kBorrowTotalDebt := None |> <| kStableRateState := None |>.

Definition frame (s : LState) : BorrowStore * VaultStore * PauseStore * AuxStore :=
  (settings_of (st_borrow s), st_vault s, st_pause s, aux_frame (st_aux s)).

Lemma frame_equiv s s' : s ≡ s' → frame s' = frame s.
Proof.
  intros Hs. symmetry.
  exact (f_equal (λ x, (settings_of x.1.1.1, x.1.1.2, x.1.2, aux_frame x.2)) Hs).
Qed.

Lemma frame_blind c : position_blind (λ s, frame s = c).
Proof.
  split; try done.
  - intros s u p <-. unfold frame, store_debt. by destruct (dp_rate_type p).
  - intros env s r s' <- H. apply frame_equiv.
    eapply (preserves_update_stable s); [|exact H]. reflexivity.
Qed.

(** Reading a setting through the frame. *)
Lemma frame_read {A} (f : LState → A) g :
  (∀ s, f s = g (frame s)) → ∀ s s', frame s' = frame s → f s' = f s.
Proof. intros Hf s s' H. by rewrite !Hf, H. Qed.

(** ** Non-negative rates *)

Lemma rates_blind : position_blind rates_nonneg.
Proof.
  split; try (intros s; intros; destruct H; by split).
  - intros s u p []. unfold store_debt. by destruct (dp_rate_type p); split.
  - intros env s r s' Hr H. destruct (update_stable_run env s) as (s1 & Hrun & _ & Hcase).
    rewrite Hrun in H. injection H as <- <-.
    destruct Hcase as [->|(st & Hst & _)]; [done|].
    rewrite Hst in Hrun. by apply update_stable_nonneg in Hrun as [? _].
Qed.

(** ** Collateral *)

Definition collateral_nonneg (s : LState) : Prop :=
  ∀ u, 0 ≤ bc_amount (get_collateral_position s u).

Lemma collateral_nonneg_equiv s s' :
  kBorrowUserCollateral (st_borrow s') = kBorrowUserCollateral (st_borrow s) →
  collateral_nonneg s → collateral_nonneg s'.
Proof. intros H Hc u. unfold get_collateral_position. rewrite H. apply Hc. Qed.

Lemma collateral_nonneg_write u c s s' :
  kBorrowUserCollateral (st_borrow s') = <[u := c]> (kBorrowUserCollateral (st_borrow s)) →
  0 ≤ bc_amount c → collateral_nonneg s → collateral_nonneg s'.
Proof.
  intros H Hc Hs v. unfold get_collateral_position. rewrite H, lookup_insert.
  case_decide; [done|apply Hs].
Qed.

Lemma saved_collateral now u p b :
  kBorrowUserCollateral (saved_debt now u p b) = kBorrowUserCollateral b.
Proof. unfold saved_debt, store_debt. by destruct (dp_rate_type p). Qed.

Lemma borrow_keeps_collateral user asset amount ca camt rt env s s' :
  collateral_nonneg s → borrow_effect user asset amount ca camt rt env s s' → collateral_nonneg s'.
Proof.
  intros Hc He. destruct (be_store _ _ _ _ _ _ _ _ _ He) as (? & ? & ? & s2 & _ & Hs & _ & _ & _ & Hst).
  eapply (collateral_nonneg_write user _ s); [| |done].
  - rewrite Hst. cbn -[saved_debt]. rewrite saved_collateral. by apply equiv_fields in Hs as (_ & _ & -> & _).
  - specialize (Hc user). pose proof (be_amounts _ _ _ _ _ _ _ _ _ He). cbn -[get_collateral_position]. lia.
Qed.

Lemma repay_keeps_collateral user asset amount rt env s s' :
  collateral_nonneg s → repay_effect user asset amount rt env s s' → collateral_nonneg s'.
Proof.
  intros Hc He. destruct (re_store _ _ _ _ _ _ _ He) as (? & s1 & ? & ? & ? & _ & Hs & _ & _ & _ & _ & _ & Hst).
  eapply collateral_nonneg_equiv; [|done]. rewrite Hst, saved_collateral. cbn.
  by apply equiv_fields in Hs as (_ & _ & -> & _).
Qed.

Lemma switch_keeps_collateral user asset to env s s' :
  collateral_nonneg s → switch_effect user asset to env s s' → collateral_nonneg s'.
Proof.
  intros Hc He. destruct (se_store _ _ _ _ _ _ He) as (? & ? & s2 & ? & _ & Hs & _ & Hst).
  eapply collateral_nonneg_equiv; [|done]. rewrite Hst, !saved_collateral.
  by apply equiv_fields in Hs as (_ & _ & -> & _).
Qed.

Lemma deposit_keeps_collateral user asset amount env s u s' :
  collateral_nonneg s → Borrow.deposit user asset amount env s = (Ok u, s') → collateral_nonneg s'.
Proof.
  intros Hc H. apply collateral_deposit_Ok in H as (Ha & _ & _ & Hst & _).
  eapply (collateral_nonneg_write user _ s); [by rewrite Hst| |done].
  specialize (Hc user). cbn. lia.
Qed.

Lemma equiv_keeps_collateral s s' : s ≡ s' → collateral_nonneg s → collateral_nonneg s'.
Proof. intros (_ & _ & H & _)%equiv_fields. by apply collateral_nonneg_equiv. Qed.

#[export] Hint Resolve borrow_keeps_collateral repay_keeps_collateral switch_keeps_collateral
  deposit_keeps_collateral equiv_keeps_collateral : preserves.
