(* ===== verification/Lending.v ===== *)
(** * Lending: the entry points of the lending contract ([lending/src/lib.rs])

    Every exported function, with the guards [lib.rs] adds to the module
    functions it forwards to, and the contract as a transition system: a
    [Call] is one invocation of a state-changing entry point, [dispatch] its
    effect on the storage, [reachable] the states invocations lead to. *)

From Stdlib Require Import Strings.Byte.
From S2P Require Import Prelude Host LendingTypes Pause BorrowStorage InterestRate RiskMonitor.
From S2P Require Import Borrow Scenario Interest DebtAccounting Vault FlashLoan Views.
From S2P Require Import Commitments Delegation Meta.

(** ** Entry points *)

(** The admin guard [lib.rs] writes out in its own entry points. *)
Definition check_admin (admin : Address) : LM BorrowError unit :=
  stored ← gets get_admin;
  current_admin ← ok_or stored BE_Unauthorized;
  reject_if (bool_decide (admin ≠ current_admin)) BE_Unauthorized ;;
  require_auth admin.

Definition initialize (admin : Address) (debt_ceiling min_borrow_amount : Z) :
    LM BorrowError unit :=
  stored ← gets get_admin;
  reject_if (bool_decide (stored ≠ None)) BE_Unauthorized ;;
  set_admin admin ;;
  initialize_borrow_settings debt_ceiling min_borrow_amount ;;
  set_default_if_missing.

Definition set_delegation_registry (admin registry : Address) : LM BorrowError unit :=
  check_admin admin ;;
  Meta.set_delegation_registry registry.

Definition get_total_bad_debt (s : LState) : Z := default 0 (kBadDebtTotal (st_aux s)).
Definition get_user_bad_debt (s : LState) (user : Address) : Z :=
  default 0 (kBadDebtUser (st_aux s) !! user).
Definition get_reserves (s : LState) : Z := default 0 (kProtocolReserves (st_aux s)).

Definition add_bad_debt {E} (user : Address) (amount : Z) : LM E unit :=
  total ← gets get_total_bad_debt;
  total ← unwrap (checked_add total amount);
  on_aux (λ a, a <| kBadDebtTotal := Some total |>) ;;
  user_debt ← gets (λ s, get_user_bad_debt s user);
  user_debt ← unwrap (checked_add user_debt amount);
  on_aux (λ a, a <| kBadDebtUser := <[user := user_debt]> (kBadDebtUser a) |>).

Definition set_pause (admin : Address) (pause_type : PauseType) (paused : bool) :
    LM BorrowError unit :=
  check_admin admin ;;
  Pause.set_pause admin pause_type paused.

Definition repay (user asset : Address) (amount : Z) : LM BorrowError unit :=
  require_auth user ;;
  paused ← gets (λ s, is_paused s PauseRepay);
  reject_if paused BE_ProtocolPaused ;;
  Borrow.repay user asset amount.

Definition repay_with_rate (user asset : Address) (amount : Z) (rate_type : RateType) :
    LM BorrowError unit :=
  require_auth user ;;
  paused ← gets (λ s, is_paused s PauseRepay);
  reject_if paused BE_ProtocolPaused ;;
  Borrow.repay_with_rate user asset amount rate_type.

Definition switch_rate_type (user asset : Address) (to_rate_type : RateType) :
    LM BorrowError unit :=
  require_auth user ;;
  Borrow.switch_rate_type user asset to_rate_type.

Definition deposit (user asset : Address) (amount : Z) : LM DepositError Z :=
  paused ← gets (λ s, is_paused s PauseDeposit);
  reject_if paused DE_DepositPaused ;;
  Vault.deposit user asset amount.

Definition deposit_collateral (user asset : Address) (amount : Z) : LM BorrowError unit :=
  require_auth user ;;
  paused ← gets (λ s, is_paused s PauseDeposit);
  reject_if paused BE_ProtocolPaused ;;
  Borrow.deposit user asset amount.

Definition withdraw (user asset : Address) (amount : Z) : LM WithdrawError Z :=
  paused ← gets (λ s, is_paused s PauseWithdraw);
  reject_if paused WE_WithdrawPaused ;;
  Vault.withdraw user asset amount.

Definition liquidate (liquidator borrower debt_asset collateral_asset : Address)
    (repay_amount : Z) : LM BorrowError unit :=
  require_auth liquidator ;;
  paused ← gets (λ s, is_paused s PauseLiquidation);
  reject_if paused BE_ProtocolPaused ;;
  debt_value ← get_debt_value borrower;
  health ← get_health_factor borrower;
  reject_if (10000 <=? health) BE_PositionHealthy ;;
  let recovered_value := repay_amount in
  if recovered_value <? debt_value then
    bad_debt ← unwrap (checked_sub debt_value recovered_value);
    add_bad_debt borrower bad_debt ;;
    publish (BadDebtEvent borrower bad_debt)
  else mret tt.

Definition set_deposit_paused (paused : bool) : LM DepositError unit :=
  on_pause (λ p, p <| kState := <[PauseDeposit := paused]> (kState p) |>).

Definition set_flash_loan_fee_bps (fee_bps : Z) : LM FlashLoanError unit :=
  stored ← gets get_admin;
  current_admin ← ok_or stored FE_Unauthorized;
  require_auth current_admin ;;
  FlashLoan.set_flash_loan_fee_bps fee_bps.

(** [interest_rate::f(&env).unwrap_or(0)] *)
Definition or_zero {E} (m : LM InterestRateError Z) : LM E Z :=
  r ← attempt m;
  mret (match r with inr v => v | inl _ => 0 end).
Definition get_utilization_bps {E} : LM E Z := or_zero utilization_bps.
Definition get_borrow_rate_bps {E} : LM E Z := or_zero borrow_rate_bps.
Definition get_supply_rate_bps {E} : LM E Z := or_zero supply_rate_bps.

Definition update_interest_rate_model (caller : Address) (update : InterestRateConfigUpdate) :
    LM BorrowError unit :=
  '(prev, next) ← map_err borrow_error_of (update_config caller update);
  now ← ask timestamp;
  publish (InterestRateModelUpdatedEvent caller prev next now).

Definition recover_bad_debt (admin : Address) (amount : Z) : LM BorrowError unit :=
  check_admin admin ;;
  reserves ← gets get_reserves;
  bad_debt ← gets get_total_bad_debt;
  reject_if (reserves <? amount) BE_InsufficientReserves ;;
  let repay_amount := if bad_debt <? amount then bad_debt else amount in
  reserves ← unwrap (checked_sub reserves repay_amount);
  bad_debt ← unwrap (checked_sub bad_debt repay_amount);
  on_aux (λ a, a <| kProtocolReserves := Some reserves |>) ;;
  on_aux (λ a, a <| kBadDebtTotal := Some bad_debt |>) ;;
  publish (BadDebtRecoveredEvent repay_amount).

(** ** The contract as a transition system *)

(** An invocation of a state-changing entry point, other than [flash_loan].
    [CallDebtView] stands for the getters that accrue interest. *)
Inductive Call : Type :=
  | CallInitialize (admin : Address) (debt_ceiling min_borrow_amount : Z)
  | CallSetDelegationRegistry (admin registry : Address)
  | CallExecuteDelegated (delegator delegate : Address) (nonce deadline : Z) (calls : list MetaCall)
  | CallAddBadDebt (user : Address) (amount : Z)
  | CallBorrow (user asset : Address) (amount : Z) (collateral_asset : Address)
      (collateral_amount : Z) (rate_type : RateType)
  | CallSetPause (admin : Address) (pause_type : PauseType) (paused : bool)
  | CallRepay (user asset : Address) (amount : Z)
  | CallRepayWithRate (user asset : Address) (amount : Z) (rate_type : RateType)
  | CallSwitchRateType (user asset : Address) (to_rate_type : RateType)
  | CallDeposit (user asset : Address) (amount : Z)
  | CallDepositCollateral (user asset : Address) (amount : Z)
  | CallLiquidate (liquidator borrower debt_asset collateral_asset : Address) (repay_amount : Z)
  | CallDebtView (user : Address)
  | CallSetVariableBorrowRateBps (admin : Address) (rate_bps : Z)
  | CallSetOracle (admin oracle : Address)
  | CallSetLiquidationThresholdBps (admin : Address) (bps : Z)
  | CallInitializeDepositSettings (deposit_cap min_deposit_amount : Z)
  | CallSetDepositPaused (paused : bool)
  | CallSetFlashLoanFeeBps (fee_bps : Z)
  | CallUpdateInterestRateModel (caller : Address) (update : InterestRateConfigUpdate)
  | CallWithdraw (user asset : Address) (amount : Z)
  | CallInitializeWithdrawSettings (min_withdraw_amount : Z)
  | CallSetWithdrawPaused (paused : bool)
  | CallReceive (token_asset from : Address) (amount : Z) (payload : list Val)
  | CallInitializeBorrowSettings (debt_ceiling min_borrow_amount : Z)
  | CallSetStablecoinConfig (admin asset : Address) (config : StablecoinConfig)
  | CallSetRiskAlertThresholds (admin : Address) (thresholds : RiskAlertThresholds)
  | CallCreateCommitment (owner : Address) (triggers : list PriceTrigger)
      (combiner : TriggerCombiner) (borrow_asset collateral_asset : Address)
      (borrow_amount collateral_amount min_fill_bps expiry_timestamp : Z)
  | CallCancelCommitment (owner : Address) (commitment_id : Z)
  | CallExecuteCommitment (commitment_id : Z)
  | CallRecoverBadDebt (admin : Address) (amount : Z).

(** The storage after an invocation. *)
Definition dispatch (c : Call) : Env → LState → LState :=
  match c with
  | CallInitialize a d m => final (initialize a d m)
  | CallSetDelegationRegistry a r => final (set_delegation_registry a r)
  | CallExecuteDelegated d e n t cs => final (execute_delegated d e n t cs)
  | CallAddBadDebt u x => final (add_bad_debt (E := BorrowError) u x)
  | CallBorrow u a x ca cx rt => final (borrow_with_rate u a x ca cx rt)
  | CallSetPause a p b => final (set_pause a p b)
  | CallRepay u a x => final (repay u a x)
  | CallRepayWithRate u a x rt => final (repay_with_rate u a x rt)
  | CallSwitchRateType u a rt => final (switch_rate_type u a rt)
  | CallDeposit u a x => final (deposit u a x)
  | CallDepositCollateral u a x => final (deposit_collateral u a x)
  | CallLiquidate l u da ca x => final (liquidate l u da ca x)
  | CallDebtView u => final (get_user_debt (E := BorrowError) u)
  | CallSetVariableBorrowRateBps a r => final (set_variable_borrow_rate_bps a r)
  | CallSetOracle a o => final (set_oracle a o)
  | CallSetLiquidationThresholdBps a b => final (set_liquidation_threshold_bps a b)
  | CallInitializeDepositSettings c m => final (initialize_deposit_settings c m)
  | CallSetDepositPaused b => final (set_deposit_paused b)
  | CallSetFlashLoanFeeBps f => final (set_flash_loan_fee_bps f)
  | CallUpdateInterestRateModel a u => final (update_interest_rate_model a u)
  | CallWithdraw u a x => final (withdraw u a x)
  | CallInitializeWithdrawSettings m => final (initialize_withdraw_settings m)
  | CallSetWithdrawPaused b => final (set_withdraw_paused b)
  | CallReceive t f x p => final (receive t f x p)
  | CallInitializeBorrowSettings d m => final (initialize_borrow_settings d m)
  | CallSetStablecoinConfig a s c => final (set_stablecoin_config a s c)
  | CallSetRiskAlertThresholds a t => final (set_risk_alert_thresholds a t)
  | CallCreateCommitment o ts cb ba ca bx cx f e =>
      final (create_borrow_commitment o ts cb ba ca bx cx f e)
  | CallCancelCommitment o i => final (cancel_borrow_commitment o i)
  | CallExecuteCommitment i => final (execute_borrow_commitment i)
  | CallRecoverBadDebt a x => final (recover_bad_debt a x)
  end.

(** Arguments within their machine types, where a proof depends on it. *)
Definition call_in_range (c : Call) : Prop :=
  match c with
  | CallCreateCommitment _ _ _ _ _ bx cx f _ =>
      in_i128 bx = true ∧ in_i128 cx = true ∧ 0 ≤ f
  | _ => True
  end.

(** One invocation: an entry point, or a flash loan with arbitrary token and
    receiver contracts. *)
Inductive step (env : Env) (s : LState) : LState → Prop :=
  | step_call c : call_in_range c → step env s (dispatch c env s)
  | step_flash_loan {W : Type} this token_balance token_transfer on_flash_loan
      receiver asset amount params (w : W) :
      step env s
        (invoke (flash_loan this token_balance token_transfer on_flash_loan
                   receiver asset amount params) env (s, w)).2.1.

Inductive reachable : LState → Prop :=
  | reachable_deployed : reachable empty_state
  | reachable_step env s s' : reachable s → step env s s' → reachable s'.
