(* ===== verification/Invariants.v ===== *)
(** * Invariants: what holds in every reachable state of the lending contract

    [contract_inv] collects the well-formedness of the rate configuration,
    the limits, the flash-loan fee and guard, the alert thresholds, the
    commitments, the vault and the collateral; it holds after any sequence of
    invocations.  [accounting_inv] adds the debt accounting, for sequences in
    which stable borrows and stablecoin fees are disciplined. *)

From Stdlib Require Import Strings.Byte.
From S2P Require Import Prelude Host LendingTypes Pause BorrowStorage InterestRate RiskMonitor.
From S2P Require Import Borrow Scenario Interest DebtAccounting Vault FlashLoan Views.
From S2P Require Import Commitments Delegation Meta Frames Lending.

Record contract_inv (s : LState) : Prop := {
  ci_rates : rate_inv s;
  ci_settings : settings_ok s;
  ci_fee : fee_ok s;
  ci_guard : default false (kReentrancyGuard (st_aux s)) = false;
  ci_risk : ∀ th, kThresholds (st_aux s) = Some th → thresholds_wf th;
  ci_commitments : commitments_ok s;
  ci_vault : vault_ok (st_vault s);
  ci_collateral : collateral_nonneg s;
}.

(** ** Invocations *)

Lemma final_cases {S E A} (m : M S E A) env s :
  final m env s = s ∨ ∃ a, m env s = (Ok a, final m env s).
Proof. unfold final, invoke. destruct (m env s) as [[a|e|] s']; eauto. Qed.

Lemma final_keeps {S E A} (m : M S E A) (I : S → Prop) env s :
  (∀ a s', m env s = (Ok a, s') → I s') → I s → I (final m env s).
Proof. intros H Hs. destruct (final_cases m env s) as [->|[a Ha]]; [done|by eapply H]. Qed.

(** ** Operations that only move positions *)

Lemma contract_inv_frame s s' :
  frame s' = frame s → collateral_nonneg s' → contract_inv s → contract_inv s'.
Proof.
  intros Hf Hc []. split; try done.
  - intros c Hk. apply ci_rates0. rewrite <- Hk.
    exact (eq_sym (f_equal (λ x, kBorrowInterestRate x.1.1.1) Hf)).
  - destruct ci_settings0. split.
    + by rewrite (frame_read get_liquidation_threshold_bps
        (λ x, default 8000 (kLiquidationThresholdBps x.1.1.1)) (λ _, eq_refl) s s' Hf).
    + by rewrite (frame_read get_close_factor_bps
        (λ x, default 5000 (kCloseFactorBps x.1.1.1)) (λ _, eq_refl) s s' Hf).
    + by rewrite (frame_read get_liquidation_incentive_bps
        (λ x, default 1000 (kLiquidationIncentiveBps x.1.1.1)) (λ _, eq_refl) s s' Hf).
  - unfold fee_ok. by rewrite (frame_read get_flash_loan_fee_bps
      (λ x, default 9 (kFlashLoanFeeBps x.2)) (λ _, eq_refl) s s' Hf).
  - exact (eq_trans (f_equal (λ x, default false (kReentrancyGuard x.2)) Hf) ci_guard0).
  - intros th Hth. apply ci_risk0. rewrite <- Hth.
    exact (eq_sym (f_equal (λ x, kThresholds x.2) Hf)).
  - apply (commitments_ok_frame s); [exact (f_equal snd Hf)|done].
  - assert (st_vault s' = st_vault s) as -> by exact (f_equal (λ x, x.1.1.2) Hf). done.
Qed.

(** A position operation keeps the frame. *)
Lemma blind_frame {E A} (m : LM E A) env s r s' :
  (∀ I, position_blind I → preserves I m) → m env s = (r, s') → frame s' = frame s.
Proof. intros H Hr. by eapply (H _ (frame_blind (frame s))). Qed.

Lemma borrow_keeps_inv user asset amount ca camt rt auth env s u s' :
  contract_inv s → borrow_inner user asset amount ca camt rt auth env s = (Ok u, s') →
  contract_inv s'.
Proof.
  intros Hi H. apply (contract_inv_frame s); [|apply borrow_inner_Ok in H as [H _]|done].
  - eapply blind_frame; [|exact H]. intros I HI. by apply blind_borrow.
  - eapply borrow_keeps_collateral; [apply Hi|exact H].
Qed.

Lemma repay_with_rate_keeps_inv user asset amount rt env s u s' :
  contract_inv s → Borrow.repay_with_rate user asset amount rt env s = (Ok u, s') → contract_inv s'.
Proof.
  intros Hi H. apply (contract_inv_frame s); [|apply repay_with_rate_Ok in H|done].
  - eapply blind_frame; [|exact H]. intros I HI. by apply blind_repay_with_rate.
  - eapply repay_keeps_collateral; [apply Hi|exact H].
Qed.

Lemma repay_keeps_inv user asset amount env s u s' :
  contract_inv s → Borrow.repay user asset amount env s = (Ok u, s') → contract_inv s'.
Proof.
  intros Hi. destruct (repay_run user asset amount env s) as [rt ->].
  by apply repay_with_rate_keeps_inv.
Qed.

Lemma switch_keeps_inv user asset to env s u s' :
  contract_inv s → Borrow.switch_rate_type user asset to env s = (Ok u, s') → contract_inv s'.
Proof.
  intros Hi H. apply (contract_inv_frame s); [|apply switch_rate_type_Ok in H|done].
  - eapply blind_frame; [|exact H]. intros I HI. by apply blind_switch.
  - eapply switch_keeps_collateral; [apply Hi|exact H].
Qed.

Lemma collateral_deposit_keeps_inv user asset amount env s u s' :
  contract_inv s → Borrow.deposit user asset amount env s = (Ok u, s') → contract_inv s'.
Proof.
  intros Hi H. apply (contract_inv_frame s); [| |done].
  - eapply blind_frame; [|exact H]. intros I HI. by apply blind_deposit.
  - eapply deposit_keeps_collateral; [apply Hi|exact H].
Qed.

Lemma equiv_keeps_inv s s' : s ≡ s' → contract_inv s → contract_inv s'.
Proof.
  intros Hs Hi. apply (contract_inv_frame s); [by apply frame_equiv| |done].
  eapply equiv_keeps_collateral; [done|apply Hi].
Qed.

Lemma receive_keeps_inv t f x p env s u s' :
  contract_inv s → receive t f x p env s = (Ok u, s') → contract_inv s'.
Proof.
  intros Hi H. unfold receive in H. destruct p as [|v p]; [by run_inv H|].
  apply bind_Ok in H as (act & s1 & [Hv ->]%unwrap_Ok & H).
  destruct (bool_decide _); [by eapply collateral_deposit_keeps_inv|].
  destruct (bool_decide _); [by eapply repay_keeps_inv|by run_inv H].
Qed.

(** ** Vault operations *)

Lemma vault_keeps_inv s s' :
  st_borrow s' = st_borrow s → st_pause s' = st_pause s → st_aux s' = st_aux s →
  vault_ok (st_vault s') → contract_inv s → contract_inv s'.
Proof.
  intros Hb Hp Ha Hv []. split; try done.
  - intros c. rewrite Hb. apply ci_rates0.
  - destruct ci_settings0. split; unfold get_liquidation_threshold_bps, get_close_factor_bps,
      get_liquidation_incentive_bps; by rewrite Hb.
  - unfold fee_ok, get_flash_loan_fee_bps. by rewrite Ha.
  - by rewrite Ha.
  - intros th. rewrite Ha. apply ci_risk0.
  - apply (commitments_ok_frame s); [by rewrite Ha|done].
  - apply (collateral_nonneg_equiv s); [by rewrite Hb|done].
Qed.

Lemma vault_deposit_keeps_inv user asset amount auth env s r s' :
  contract_inv s → deposit_with_auth user asset amount auth env s = (Ok r, s') → contract_inv s'.
Proof.
  intros Hi H. apply vault_deposit_Ok in H as [Hd _].
  pose proof (deposit_keeps_vault _ _ _ _ _ _ _ (ci_vault _ Hi) Hd) as Hv.
  destruct Hd as [_ _ _ _ _ ->]. by apply (vault_keeps_inv s).
Qed.

Lemma vault_withdraw_keeps_inv user asset amount auth env s r s' :
  contract_inv s → withdraw_with_auth user asset amount auth env s = (Ok r, s') → contract_inv s'.
Proof.
  intros Hi H. apply withdraw_Ok in H as [Hd _].
  pose proof (withdraw_keeps_vault _ _ _ _ _ _ _ (ci_vault _ Hi) Hd) as Hv.
  destruct Hd as [_ _ _ _ _ [t ->]]. by apply (vault_keeps_inv s).
Qed.

(** ** Settings *)

(** Opens a successful run of a settings operation. *)
Ltac open_run H :=
  run_step H; subst;
  repeat match goal with
  | H : require_current_admin _ _ _ = _ |- _ => apply require_current_admin_Ok in H as (? & ? & ->)
  end; zbool.

Lemma check_admin_Ok a env s u s' :
  check_admin a env s = (Ok u, s') → get_admin s = Some a ∧ authorized env a = true ∧ s' = s.
Proof. unfold check_admin. intros H. run_inv H. zbool. naive_solver. Qed.

Lemma default_rates_keeps_inv {E} env s u s' :
  contract_inv s → set_default_if_missing (E := E) env s = (Ok u, s') → contract_inv s'.
Proof.
  unfold set_default_if_missing. intros [] H. run_inv H; [by split|].
  split; try done; [|by destruct ci_settings0].
  intros c [= <-]. apply default_config_wf.
Qed.

(** Writing fields the invariant reads nothing of. *)
Ltac keep_fields := match goal with H : contract_inv _ |- _ =>
  destruct H as [? [] ? ? ? ? ? ?]; split; first [done|by split] end.

(** The borrow-store fields the invariant reads. *)
Definition same_limits (b b' : BorrowStore) : Prop :=
  kBorrowInterestRate b' = kBorrowInterestRate b ∧
  kLiquidationThresholdBps b' = kLiquidationThresholdBps b ∧
  kCloseFactorBps b' = kCloseFactorBps b ∧
  kLiquidationIncentiveBps b' = kLiquidationIncentiveBps b ∧
  kBorrowUserCollateral b' = kBorrowUserCollateral b.

Lemma same_limits_keeps_inv s s' :
  same_limits (st_borrow s) (st_borrow s') → st_vault s' = st_vault s → st_aux s' = st_aux s →
  contract_inv s → contract_inv s'.
Proof.
  intros (H1 & H2 & H3 & H4 & H5) Hv Ha [].
  split; rewrite ?Hv, ?Ha; try done.
  - intros c. rewrite H1. apply ci_rates0.
  - destruct ci_settings0. split; unfold get_liquidation_threshold_bps, get_close_factor_bps,
      get_liquidation_incentive_bps; by rewrite ?H2, ?H3, ?H4.
  - unfold fee_ok, get_flash_loan_fee_bps. by rewrite Ha.
  - apply (commitments_ok_frame s); [by rewrite Ha|done].
  - by apply (collateral_nonneg_equiv s).
Qed.

(** A settings operation that leaves every field of the invariant alone. *)
Ltac inert := eapply same_limits_keeps_inv; [| | |eassumption]; [|reflexivity|reflexivity];
  cbn; repeat case_match; done.

Lemma borrow_settings_keeps_inv d m env s u s' :
  contract_inv s → initialize_borrow_settings d m env s = (Ok u, s') → contract_inv s'.
Proof.
  unfold initialize_borrow_settings. intros Hi H. run_step H.
  match goal with H : set_default_if_missing _ ?s0 = (Ok _, ?s1) |- _ =>
    assert (contract_inv s1) as Hi1 by
      (apply default_rates_keeps_inv in H; [done|subst; inert]) end.
  subst. inert.
Qed.

Lemma set_admin_Ok {E} a env s u s' :
  set_admin (E := E) a env s = (Ok u, s') →
  s' = s <| st_borrow := (st_borrow s) <| kProtocolAdmin := Some a |> |>.
Proof. exact (on_borrow_Ok _ _ _ _ _). Qed.

Lemma initialize_keeps_inv a d m env s u s' :
  contract_inv s → initialize a d m env s = (Ok u, s') → contract_inv s'.
Proof.
  unfold initialize. intros Hi H. run_step H; subst.
  match goal with H : set_admin _ _ _ = _ |- _ => apply set_admin_Ok in H; subst end.
  match goal with H : initialize_borrow_settings _ _ _ _ = _ |- _ =>
    apply borrow_settings_keeps_inv in H; [|inert] end.
  by eapply default_rates_keeps_inv.
Qed.

Lemma add_bad_debt_keeps_inv {E} x d env s u s' :
  contract_inv s → add_bad_debt (E := E) x d env s = (Ok u, s') → contract_inv s'.
Proof. unfold add_bad_debt. intros Hi H. open_run H. keep_fields. Qed.

Lemma debt_view_keeps_inv {E} user env s r s' :
  contract_inv s → get_user_debt (E := E) user env s = (r, s') → contract_inv s'.
Proof. intros Hi Hr%user_debt_equiv. by apply (equiv_keeps_inv s). Qed.

Lemma liquidate_keeps_inv l x da ca d env s u s' :
  contract_inv s → liquidate l x da ca d env s = (Ok u, s') → contract_inv s'.
Proof.
  unfold liquidate. intros Hi H.
  apply bind_Ok in H as (? & s0 & [_ ->]%require_auth_Ok & H).
  apply bind_Ok in H as (p & s0 & [-> ->]%gets_Ok & H).
  apply bind_Ok in H as (? & s0 & [_ ->]%reject_if_Ok & H).
  apply bind_Ok in H as (dv & s1 & Hdv & H). apply bind_Ok in H as (hf & s2 & Hhf & H).
  unfold get_debt_value in Hdv. apply bind_Ok in Hdv as (q & s3 & Hq & [_ ->]%debt_value_Ok).
  assert (contract_inv s3) as H3 by (by eapply debt_view_keeps_inv).
  apply get_health_factor_Ok in Hhf as (q' & Hq' & _); [|apply H3].
  assert (contract_inv s2) as H2 by (by eapply debt_view_keeps_inv).
  run_step H; subst; [|done].
  match goal with H : add_bad_debt _ _ _ _ = _ |- _ => apply add_bad_debt_keeps_inv in H; [|done] end.
  clear Hi H2 H3. inert.
Qed.

Lemma update_config_keeps_inv caller update env s r s' :
  contract_inv s → update_config caller update env s = (Ok r, s') → contract_inv s'.
Proof.
  destruct r as [prev next]. intros Hi H.
  apply update_config_Ok in H as (_ & _ & -> & _ & Hwf & ->).
  assert (config_wf next) as Hn by (apply Hwf, get_config_wf, Hi).
  destruct Hi as [? [] ? ? ? ? ? ?]. split; first [done|by split|idtac].
  by intros c [= <-].
Qed.

Lemma perform_keeps_inv delegator c env s u s' :
  contract_inv s → perform delegator c env s = (Ok u, s') → contract_inv s'.
Proof.
  unfold perform. intros Hi. destruct (mc_action c); intros H; run_step H; subst.
  - by eapply vault_deposit_keeps_inv.
  - by eapply vault_withdraw_keeps_inv.
  - by eapply borrow_keeps_inv.
  - by eapply repay_keeps_inv.
  - by eapply collateral_deposit_keeps_inv.
Qed.

Lemma execute_delegated_keeps_inv d e n t cs env s u s' :
  contract_inv s → execute_delegated d e n t cs env s = (Ok u, s') → contract_inv s'.
Proof.
  unfold execute_delegated. intros Hi H. run_step H; subst.
  match goal with H : set_nonce _ _ _ _ = _ |- _ => apply set_nonce_Ok in H as -> end.
  match goal with H : for_each _ _ _ _ = _ |- _ =>
    apply (for_each_Ok cs _ contract_inv (λ _, True) env) in H as [? _] end; [done| |].
  - intros c s1 u1 s2 Hs1 Hc. unfold validate_delegation in Hc. run_step Hc; subst.
    split; [|done]. by eapply perform_keeps_inv.
  - destruct Hi as [? [] ? ? ? ? ? ?]. by split.
Qed.

Lemma execute_commitment_keeps_inv id env s u s' :
  contract_inv s → execute_borrow_commitment id env s = (Ok u, s') → contract_inv s'.
Proof.
  intros Hi H. pose proof (execute_keeps_commitments_ok _ _ _ _ _ (ci_commitments _ Hi) H) as Hc.
  unfold execute_borrow_commitment, set_commitment in H. run_step H; subst.
  match goal with H : triggers_satisfied _ _ _ _ = _ |- _ =>
    apply triggers_satisfied_Ok in H as (_ & -> & ->) end.
  match goal with H : validate_collateral_ratio _ _ _ _ = _ |- _ =>
    apply validate_collateral_ratio_Ok in H as [-> _] end.
  match goal with H : borrow_from_commitment _ _ _ _ _ _ _ = _ |- _ =>
    apply borrow_keeps_inv in H as [? [] ? ? ? _ ? ?]; [|done] end.
  split; try done; by split.
Qed.

Lemma dispatch_keeps_inv c env s :
  call_in_range c → contract_inv s → contract_inv (dispatch c env s).
Proof.
  intros Hrange Hi.
  destruct c; cbn [dispatch]; apply final_keeps; try exact Hi; intros r s' H.
  - by eapply initialize_keeps_inv.
  - unfold set_delegation_registry, Meta.set_delegation_registry in H. run_step H.
    apply check_admin_Ok in Hrun as (_ & _ & ->). subst. keep_fields.
  - by eapply execute_delegated_keeps_inv.
  - by eapply add_bad_debt_keeps_inv.
  - by eapply borrow_keeps_inv.
  - unfold set_pause, Pause.set_pause in H. run_step H.
    apply check_admin_Ok in Hrun as (_ & _ & ->). subst. inert.
  - unfold repay in H. run_step H; subst. by eapply repay_keeps_inv.
  - unfold repay_with_rate in H. run_step H; subst. by eapply repay_with_rate_keeps_inv.
  - unfold switch_rate_type in H. run_step H; subst. by eapply switch_keeps_inv.
  - unfold deposit in H. run_step H; subst. by eapply vault_deposit_keeps_inv.
  - unfold deposit_collateral in H. run_step H; subst. by eapply collateral_deposit_keeps_inv.
  - by eapply liquidate_keeps_inv.
  - by eapply debt_view_keeps_inv.
  - unfold set_variable_borrow_rate_bps in H. open_run H.
    by eapply update_config_keeps_inv.
  - unfold set_oracle in H. open_run H. inert.
  - unfold set_liquidation_threshold_bps in H. open_run H.
    destruct Hi as [? [] ? ? ? ? ? ?]. by split; first [done|split; done].
  - unfold initialize_deposit_settings in H. run_inv H. apply (vault_keeps_inv s); try done.
    destruct Hi as [? ? ? ? ? ? [] ?]. by split.
  - unfold set_deposit_paused in H. run_inv H. inert.
  - unfold set_flash_loan_fee_bps, FlashLoan.set_flash_loan_fee_bps in H. run_inv H.
    destruct Hi as [? [] ? ? ? ? ? ?]. split; first [done|split; done|idtac].
    zbool. unfold fee_ok, get_flash_loan_fee_bps. cbn. unfold in_range in *. zbool. lia.
  - unfold update_interest_rate_model in H. run_step H; subst.
    match goal with H : update_config _ _ _ _ = _ |- _ => apply update_config_keeps_inv in H; [|done] end.
    clear Hi. inert.
  - unfold withdraw in H. run_step H; subst. by eapply vault_withdraw_keeps_inv.
  - unfold initialize_withdraw_settings in H. run_inv H. apply (vault_keeps_inv s); try done.
    destruct Hi as [? ? ? ? ? ? [] ?]. by split.
  - unfold set_withdraw_paused in H. run_inv H. apply (vault_keeps_inv s); try done.
    destruct Hi as [? ? ? ? ? ? [] ?]. by split.
  - by eapply receive_keeps_inv.
  - by eapply borrow_settings_keeps_inv.
  - unfold set_stablecoin_config in H. open_run H. inert.
  - apply set_risk_alert_thresholds_Ok in H as (_ & _ & Hth & ->).
    destruct Hi as [? [] ? ? ? ? ? ?]. split; first [done|split; done|idtac].
    by intros th [= <-].
  - destruct Hrange as (Hb & Hc & Hf).
    pose proof (create_keeps_commitments_ok _ _ _ _ _ _ _ _ _ _ _ _ _ Hb Hc Hf (ci_commitments _ Hi) H).
    apply create_borrow_commitment_Ok in H as (_ & _ & _ & _ & Ha & Hbs & Hv & _); [|done..].
    destruct Hi as [Hr [H1 H2 H3] Hfee Hg Hk Hcm Hvt Hcl]. split; try done.
    + intros c. rewrite Hbs. apply Hr.
    + split; unfold get_liquidation_threshold_bps, get_close_factor_bps,
        get_liquidation_incentive_bps; by rewrite Hbs.
    + unfold fee_ok, get_flash_loan_fee_bps. by rewrite Ha.
    + by rewrite Ha.
    + intros th. rewrite Ha. apply Hk.
    + by rewrite Hv.
    + apply (collateral_nonneg_equiv s); [by rewrite Hbs|done].
  - pose proof (cancel_keeps_commitments_ok _ _ _ _ _ _ (ci_commitments _ Hi) H).
    apply cancel_borrow_commitment_Ok in H as (c & _ & _ & _ & _ & ->).
    destruct Hi as [? [] ? ? ? ? ? ?]. split; first [done|by split].
  - by eapply execute_commitment_keeps_inv.
  - unfold recover_bad_debt in H. run_step H.
    apply check_admin_Ok in Hrun as (_ & _ & ->). subst. keep_fields.
Qed.

Lemma flash_loan_keeps_inv {W} this bal tr cb receiver asset amount params env s (w : W) :
  contract_inv s →
  contract_inv (invoke (flash_loan this bal tr cb receiver asset amount params) env (s, w)).2.1.
Proof.
  intros Hi. unfold invoke.
  destruct (flash_loan _ _ _ _ _ _ _ _ env (s, w)) as [[u|e|] [s' w']] eqn:E; [|done|done].
  apply flash_loan_Ok in E as (_ & _ & _ & _ & ->). cbn.
  destruct Hi as [? [] ? ? ? ? ? ?]. split; first [done|by split].
Qed.

Lemma step_keeps_inv env s s' : contract_inv s → step env s s' → contract_inv s'.
Proof.
  intros Hi [c Hr|W ? ? ? ? ? ? ? ? w]; [by apply dispatch_keeps_inv|by apply flash_loan_keeps_inv].
Qed.

Lemma empty_keeps_inv : contract_inv empty_state.
Proof. split; try done; split; done. Qed.

Lemma reachable_inv s : reachable s → contract_inv s.
Proof. induction 1; [apply empty_keeps_inv|by eapply step_keeps_inv]. Qed.

(** ** Properties *)

(** C2: in every state that invocations can lead to, the stored rate model is
    well formed, the risk limits and the flash-loan fee are within their bounds,
    the flash-loan guard is free, the alert thresholds are ordered, stored
    commitments are well formed and never marked expired, the vault total is the
    sum of the deposits, and no collateral is negative. *)
Theorem reachable_states_are_consistent s : reachable s → contract_inv s.
Proof. apply reachable_inv. Qed.

Lemma reachable_states_are_consistent_witness :
  contract_inv (dispatch (CallDeposit alice gold 500) (demo_env 200)
    (dispatch (CallInitialize admin 1000000000 1000) (demo_env 100) empty_state)).
Proof.
  apply (reachable_states_are_consistent
    (dispatch (CallDeposit alice gold 500) (demo_env 200)
      (dispatch (CallInitialize admin 1000000000 1000) (demo_env 100) empty_state))).
  eapply reachable_step; [eapply reachable_step; [apply reachable_deployed|]|];
    apply step_call; exact I.
Defined.
