(* ===== verification/Liquidation.v ===== *)
(** * Liquidation: liquidation, bad debt, and what a pause stops
    (the entry points [liquidate], [recover_bad_debt] and [set_pause] of
    [lending/src/lib.rs]) *)

From Stdlib Require Import Strings.Byte.
From S2P Require Import Prelude Host LendingTypes Pause BorrowStorage InterestRate RiskMonitor.
From S2P Require Import Borrow Scenario Interest DebtAccounting Vault FlashLoan Views.
From S2P Require Import Commitments Delegation Meta Frames Lending Invariants.

(** ** Lemmas *)

Lemma add_bad_debt_Ok {E} user amount env s u s' :
  add_bad_debt (E := E) user amount env s = (Ok u, s') →
  s' = s <| st_aux := (st_aux s) <| kBadDebtTotal := Some (get_total_bad_debt s + amount) |>
            <| kBadDebtUser := <[user := get_user_bad_debt s user + amount]> (kBadDebtUser (st_aux s)) |> |>.
Proof. unfold add_bad_debt. intros H. run_inv H. checked_facts. by subst. Qed.

(** The shortfall a liquidation records. *)
Definition shortfall (debt_value repay_amount : Z) : Z := Z.max 0 (debt_value - repay_amount).

Lemma liquidate_Ok l user da ca repay_amount env s u s' :
  settings_ok s → liquidate l user da ca repay_amount env s = (Ok u, s') →
  ∃ p s1 s2,
    get_user_debt (E := BorrowError) user env s = (Ok p, s1) ∧
    authorized env l = true ∧ is_paused s PauseLiquidation = false ∧
    health_of s (user_cv env s user) (position_dv env s p) (0 <? debt_sum p) < HEALTH_FACTOR_SCALE ∧
    s ≡ s2 ∧ st_borrow s' = st_borrow s2 ∧ st_vault s' = st_vault s ∧
    get_total_bad_debt s' = get_total_bad_debt s + shortfall (position_dv env s p) repay_amount ∧
    get_user_bad_debt s' user =
      get_user_bad_debt s user + shortfall (position_dv env s p) repay_amount.
Proof.
  unfold liquidate. intros Hset H.
  apply bind_Ok in H as (? & s0 & [Hl ->]%require_auth_Ok & H).
  apply bind_Ok in H as (pa & s0 & [-> ->]%gets_Ok & H).
  apply bind_Ok in H as (? & s0 & [Hp ->]%reject_if_Ok & H).
  apply bind_Ok in H as (dv & s1 & Hdv & H). apply bind_Ok in H as (hf & s2 & Hhf & H).
  unfold get_debt_value in Hdv. apply bind_Ok in Hdv as (p & s3 & Hd & [-> ->]%debt_value_Ok).
  pose proof (user_debt_same _ _ _ _ _ Hd) as Hs3. pose proof (proj1 Hs3) as He3.
  apply get_health_factor_Ok in Hhf as (p' & Hd' & ->); [|by apply (settings_ok_equiv s)].
  pose proof (user_debt_again _ _ _ _ _ _ _ Hs3 Hd Hd') as ->.
  pose proof (user_debt_equiv _ _ _ _ _ Hd') as He2.
  assert (s ≡ s2) as He by (by etrans).
  apply bind_Ok in H as (? & s0 & [Hh ->]%reject_if_Ok & H).
  rewrite (asset_value_equiv env s s3) in H by done. fold (position_dv env s p) in H.
  unfold user_cv, position_dv in Hh. rewrite (health_of_equiv s s3) in Hh by done.
  assert (get_user_collateral s3 user = get_user_collateral s user) as Hc
    by (unfold get_user_collateral; by rewrite He3).
  rewrite Hc, !(asset_value_equiv env s s3) in Hh by done.
  fold (user_cv env s user) (position_dv env s p) in Hh. zbool.
  pose proof (f_equal (λ x, default 0 (kBadDebtTotal x.2)) He) as Hb1.
  pose proof (f_equal (λ x, default 0 (kBadDebtUser x.2 !! user)) He) as Hb2. cbn in Hb1, Hb2.
  exists p, s3, s2. unfold shortfall. cbv zeta in H.
  destruct (repay_amount <? position_dv env s p) eqn:Hlt; zbool.
  - run_step H; subst.
    match goal with H : add_bad_debt _ _ _ _ = _ |- _ => apply add_bad_debt_Ok in H as -> end.
    checked_facts. subst. split_and!; try done; unfold HEALTH_FACTOR_SCALE; try lia.
    + cbn. by rewrite He.
    + cbn. unfold get_total_bad_debt. rewrite Hb1. lia.
    + unfold get_user_bad_debt at 1. cbn. rewrite lookup_insert_eq. cbn.
      unfold get_user_bad_debt. rewrite Hb2. lia.
  - run_inv H. split_and!; try done; unfold HEALTH_FACTOR_SCALE; try lia.
    + by rewrite He.
    + unfold get_total_bad_debt. rewrite Hb1. lia.
    + unfold get_user_bad_debt. rewrite Hb2. lia.
Qed.

(** ** Properties *)

(** A liquidation goes through only for a position whose health factor is
    below one, and it does nothing but record as bad debt what the offered
    repayment leaves uncovered of the debt's value: the borrower's debt, the
    collateral and the vault stay as they are. *)
Theorem liquidation_only_records_shortfall l user da ca repay_amount env s u s' :
  settings_ok s → liquidate l user da ca repay_amount env s = (Ok u, s') →
  ∃ p s1,
    get_user_debt (E := BorrowError) user env s = (Ok p, s1) ∧
    authorized env l = true ∧ is_paused s PauseLiquidation = false ∧
    health_of s (user_cv env s user) (position_dv env s p) (0 <? debt_sum p) < HEALTH_FACTOR_SCALE ∧
    get_total_bad_debt s' = get_total_bad_debt s + shortfall (position_dv env s p) repay_amount ∧
    get_user_bad_debt s' user =
      get_user_bad_debt s user + shortfall (position_dv env s p) repay_amount ∧
    (∀ rt, debt_map rt (st_borrow s') = debt_map rt (st_borrow s)) ∧
    (∀ v, get_collateral_position s' v = get_collateral_position s v) ∧
    get_total_debt s' = get_total_debt s ∧ st_vault s' = st_vault s.
Proof.
  intros Hset H. apply liquidate_Ok in H as (p & s1 & s2 & Hd & Ha & Hp & Hh & He & Hb & Hv & Ht & Hu); [|done].
  exists p, s1. pose proof (equiv_fields _ _ He) as (Hm & _ & Hc & Htot & _).
  split_and!; try done.
  - intros rt. by rewrite Hb, Hm.
  - intros v. unfold get_collateral_position. by rewrite Hb, Hc.
  - unfold get_total_debt. by rewrite Hb, Htot.
Qed.

(** A position whose collateral has lost its value: gold is quoted at 2, but
    alice's collateral is worthless. *)
Definition crash (o a : Address) : option Z :=
  if bool_decide (a = usd) then Some 100000000 else Some 1000000.
Definition crash_env : Env := mkEnv 100 7 (λ _, true) crash (λ _ _ _ _, None).
Definition underwater : LState := final (set_oracle admin feed) (demo_env 100) variable_market.

Lemma liquidation_only_records_shortfall_witness :
  let s' := final (liquidate bob alice usd gold 3000) crash_env underwater in
  ∃ p s1,
    get_user_debt (E := BorrowError) alice crash_env underwater = (Ok p, s1) ∧
    authorized crash_env bob = true ∧ is_paused underwater PauseLiquidation = false ∧
    health_of underwater (user_cv crash_env underwater alice) (position_dv crash_env underwater p)
      (0 <? debt_sum p) < HEALTH_FACTOR_SCALE ∧
    get_total_bad_debt s' =
      get_total_bad_debt underwater + shortfall (position_dv crash_env underwater p) 3000 ∧
    get_user_bad_debt s' alice =
      get_user_bad_debt underwater alice + shortfall (position_dv crash_env underwater p) 3000 ∧
    (∀ rt, debt_map rt (st_borrow s') = debt_map rt (st_borrow underwater)) ∧
    (∀ v, get_collateral_position s' v = get_collateral_position underwater v) ∧
    get_total_debt s' = get_total_debt underwater ∧ st_vault s' = st_vault underwater.
Proof.
  intros s'. apply (liquidation_only_records_shortfall bob alice usd gold 3000 crash_env underwater tt s').
  - by split.
  - vm_compute. reflexivity.
Defined.

(** Since liquidation leaves the debt in place, one shortfall is recorded
    as often as the position is liquidated, and a negative repayment records
    more than the whole debt. *)
Theorem liquidation_is_repeatable :
  let once := final (liquidate bob alice usd gold 3000) crash_env underwater in
  let twice := final (liquidate bob alice usd gold 3000) crash_env once in
  get_total_debt underwater = 5000 ∧
  get_total_bad_debt once = 2000 ∧ get_total_bad_debt twice = 4000 ∧
  get_total_bad_debt (final (liquidate bob alice usd gold (-95000)) crash_env underwater) = 100000.
Proof. split_and!; vm_compute; reflexivity. Qed.

(** Recovering a non-negative amount of bad debt moves the same amount out
    of the reserves and out of the bad debt, at the admin's order only, and
    never drives either of them below zero. *)
Theorem recovery_is_balanced admin amount env s u s' :
  0 ≤ amount → 0 ≤ get_total_bad_debt s →
  recover_bad_debt admin amount env s = (Ok u, s') →
  get_admin s = Some admin ∧ authorized env admin = true ∧
  let recovered := Z.min amount (get_total_bad_debt s) in
  0 ≤ recovered ≤ get_reserves s ∧
  get_reserves s' = get_reserves s - recovered ∧
  get_total_bad_debt s' = get_total_bad_debt s - recovered ∧ 0 ≤ get_total_bad_debt s' ∧
  st_borrow s' = st_borrow s ∧ st_vault s' = st_vault s.
Proof.
  intros Ha Hb H. unfold recover_bad_debt in H.
  apply bind_Ok in H as (? & s0 & (Hadm & Hauth & ->)%check_admin_Ok & H).
  run_inv H. checked_facts. subst. zbool. split; [done|]. split; [done|]. intros recovered.
  assert (recovered = if get_total_bad_debt s <? amount then get_total_bad_debt s else amount) as Hr
    by (unfold recovered; destruct (_ <? amount) eqn:E; zbool; lia).
  rewrite <- Hr. unfold get_reserves at 2, get_total_bad_debt at 1 3. cbn.
  split_and!; done || lia.
Qed.

(** Bad debt of 2000 and reserves of 5000. *)
Definition reserved : LState :=
  let s := final (add_bad_debt (E := BorrowError) bob 2000) (demo_env 100) market in
  s <| st_aux := (st_aux s) <| kProtocolReserves := Some 5000 |> |>.

Lemma recovery_is_balanced_witness :
  let s' := final (recover_bad_debt admin 3000) (demo_env 100) reserved in
  get_admin reserved = Some admin ∧ authorized (demo_env 100) admin = true ∧
  let recovered := Z.min 3000 (get_total_bad_debt reserved) in
  0 ≤ recovered ≤ get_reserves reserved ∧
  get_reserves s' = get_reserves reserved - recovered ∧
  get_total_bad_debt s' = get_total_bad_debt reserved - recovered ∧ 0 ≤ get_total_bad_debt s' ∧
  st_borrow s' = st_borrow reserved ∧ st_vault s' = st_vault reserved.
Proof.
  intros s'. apply (recovery_is_balanced admin 3000 (demo_env 100) reserved tt s').
  - lia.
  - vm_compute. discriminate.
  - vm_compute. reflexivity.
Defined.

(** A negative amount makes the recovery run backwards: it creates reserves
    and bad debt. *)
Theorem recovery_of_negative_amount :
  let s' := final (recover_bad_debt admin (-700)) (demo_env 100) market in
  get_total_bad_debt market = 0 ∧ get_reserves market = 0 ∧
  get_reserves s' = 700 ∧ get_total_bad_debt s' = 700.
Proof. split_and!; vm_compute; reflexivity. Qed.

(** Under the global pause no position moves: borrowing, repaying,
    depositing, withdrawing, liquidating, flash loans and delegated calls all
    fail, and what they wrote is undone. *)
Theorem global_pause_stops_entry_points env s :
  pause_flag s PauseAll = true →
  (∀ user asset x ca cx rt,
     (invoke (borrow_with_rate user asset x ca cx rt) env s).2 = s ∧
     ¬ ∃ u, (borrow_with_rate user asset x ca cx rt env s).1 = Ok u) ∧
  (∀ user asset x, invoke (repay user asset x) env s =
     (if authorized env user then Err BE_ProtocolPaused else Trap, s)) ∧
  (∀ user asset x, invoke (deposit user asset x) env s = (Err DE_DepositPaused, s)) ∧
  (∀ user asset x, invoke (withdraw user asset x) env s = (Err WE_WithdrawPaused, s)) ∧
  (∀ user asset x, invoke (deposit_collateral user asset x) env s =
     (if authorized env user then Err BE_ProtocolPaused else Trap, s)) ∧
  (∀ l user da ca x, invoke (liquidate l user da ca x) env s =
     (if authorized env l then Err BE_ProtocolPaused else Trap, s)) ∧
  (∀ delegator c, (perform delegator c env s).1 = Err ME_Unauthorized) ∧
  (∀ W this bal tr cb receiver asset x params (w : W),
     invoke (flash_loan this bal tr cb receiver asset x params) env (s, w) =
     (Err FE_FlashLoanPaused, (s, w))).
Proof.
  intros Hall. assert (∀ t, is_paused s t = true) as Hp by (intros t; by rewrite is_paused_flags, Hall).
  split_and!.
  - intros user asset x ca cx rt. unfold borrow_with_rate, borrow_inner, authorize_borrow, invoke, require_auth.
    run_fwd. rewrite bool_decide_eq_true_2 by done. run_fwd.
    destruct (authorized env user); run_fwd; [|by split; [|intros []]].
    rewrite Hp. run_fwd. by split; [|intros []].
  - intros. unfold repay, invoke, require_auth. run_fwd.
    destruct (authorized env user); [|done]. run_fwd. by rewrite Hp.
  - intros. unfold deposit, invoke. run_fwd. by rewrite Hp.
  - intros. unfold withdraw, invoke. run_fwd. by rewrite Hp.
  - intros. unfold deposit_collateral, invoke, require_auth. run_fwd.
    destruct (authorized env user); [|done]. run_fwd. by rewrite Hp.
  - intros. unfold liquidate, invoke, require_auth. run_fwd.
    destruct (authorized env l); [|done]. run_fwd. by rewrite Hp.
  - intros. unfold perform. destruct (mc_action c); run_fwd; by rewrite Hp.
  - intros. unfold flash_loan, invoke, local. run_fwd. by rewrite Hp.
Qed.

Definition halted : LState := final (set_pause admin PauseAll true) (demo_env 100) variable_market.

Lemma global_pause_stops_entry_points_witness :
  let env := demo_env 100 in let s := halted in
  (∀ user asset x ca cx rt,
     (invoke (borrow_with_rate user asset x ca cx rt) env s).2 = s ∧
     ¬ ∃ u, (borrow_with_rate user asset x ca cx rt env s).1 = Ok u) ∧
  (∀ user asset x, invoke (repay user asset x) env s =
     (if authorized env user then Err BE_ProtocolPaused else Trap, s)) ∧
  (∀ user asset x, invoke (deposit user asset x) env s = (Err DE_DepositPaused, s)) ∧
  (∀ user asset x, invoke (withdraw user asset x) env s = (Err WE_WithdrawPaused, s)) ∧
  (∀ user asset x, invoke (deposit_collateral user asset x) env s =
     (if authorized env user then Err BE_ProtocolPaused else Trap, s)) ∧
  (∀ l user da ca x, invoke (liquidate l user da ca x) env s =
     (if authorized env l then Err BE_ProtocolPaused else Trap, s)) ∧
  (∀ delegator c, (perform delegator c env s).1 = Err ME_Unauthorized) ∧
  (∀ W this bal tr cb receiver asset x params (w : W),
     invoke (flash_loan this bal tr cb receiver asset x params) env (s, w) =
     (Err FE_FlashLoanPaused, (s, w))).
Proof.
  intros env s. apply (global_pause_stops_entry_points env s). vm_compute. reflexivity.
Defined.
