(* ===== verification/AccessControl.v ===== *)
(** * AccessControl: who can change what

    [protected] are the settings behind the admin's signature.  The admin
    itself never changes once set, and no protected setting changes in an
    invocation the admin has not authorised; the settings that anybody can
    change are listed in a theorem of their own. *)

From Stdlib Require Import Strings.Byte.
From S2P Require Import Prelude Host LendingTypes Pause BorrowStorage InterestRate RiskMonitor.
From S2P Require Import Borrow Scenario Interest DebtAccounting Vault FlashLoan Views.
From S2P Require Import Commitments Delegation Meta Frames Lending Invariants.

(** The settings only the admin can change. *)
Record Protected : Type := mkProtected {
  pt_admin : option Address;
  pt_oracle : option Address;
  pt_threshold : option Z;
  pt_close_factor : option Z;
  pt_incentive : option Z;
  pt_stablecoins : gmap Address StablecoinConfig;
  pt_flags : gmap PauseType bool;
  pt_guardian : option Address;
  pt_fee : option Z;
  pt_alerts : option RiskAlertThresholds;
  pt_registry : option Address;
  pt_reserves : option Z;
}.

Definition protected_of (x : BorrowStore * VaultStore * PauseStore * AuxStore) : Protected :=
  let b := x.1.1.1 in let p := x.1.2 in let a := x.2 in
  mkProtected (kProtocolAdmin b) (kOracleAddress b) (kLiquidationThresholdBps b)
    (kCloseFactorBps b) (kLiquidationIncentiveBps b) (kAssetStablecoinConfig b)
    (delete PauseDeposit (kState p)) (kGuardian p) (kFlashLoanFeeBps a) (kThresholds a)
    (kDelegationRegistry a) (kProtocolReserves a).

Definition protected (s : LState) : Protected := protected_of (frame s).

(** The interest model counts as protected once it has been set. *)
Definition model_kept (s s' : LState) : Prop :=
  ∀ c, kBorrowInterestRate (st_borrow s) = Some c → kBorrowInterestRate (st_borrow s') = Some c.

(** What an invocation under [env] may do when [a] is the admin. *)
Definition obeys (env : Env) (a : Address) (s s' : LState) : Prop :=
  get_admin s' = Some a ∧
  (authorized env a = false → protected s' = protected s ∧ model_kept s s').

Section obeys.
Context (env : Env) (a : Address).

Lemma obeys_refl s : get_admin s = Some a → obeys env a s s.
Proof. intros H. split; [done|]. intros _. split; [done|]. by intros c. Qed.

Lemma obeys_trans s1 s2 s3 : obeys env a s1 s2 → obeys env a s2 s3 → obeys env a s1 s3.
Proof.
  intros [H1 H2] [H3 H4]. split; [done|]. intros Hn.
  destruct (H2 Hn) as [E1 M1], (H4 Hn) as [E2 M2].
  split; [congruence|]. intros c Hc. by apply M2, M1.
Qed.

(** Operations on positions. *)
Lemma obeys_frame s s' : get_admin s = Some a → frame s' = frame s → obeys env a s s'.
Proof.
  intros Ha Hf. split.
  - rewrite <- Ha. exact (f_equal (λ x, kProtocolAdmin x.1.1.1) Hf).
  - intros _. split; [unfold protected; by rewrite Hf|].
    intros c <-. exact (f_equal (λ x, kBorrowInterestRate x.1.1.1) Hf).
Qed.

(** Operations that write no protected setting. *)
Lemma obeys_unprotected s s' :
  get_admin s = Some a → protected s' = protected s → model_kept s s' → obeys env a s s'.
Proof.
  intros Ha Hp Hm. split; [|by intros _].
  rewrite <- Ha. exact (f_equal pt_admin Hp).
Qed.

(** Operations behind the admin's signature. *)
Lemma obeys_admin s s' :
  get_admin s = Some a → authorized env a = true → get_admin s' = Some a → obeys env a s s'.
Proof. intros _ Ha Hs. split; [done|]. congruence. Qed.
End obeys.

Lemma perform_obeys a delegator c env s u s' :
  get_admin s = Some a → perform delegator c env s = (Ok u, s') → obeys env a s s'.
Proof.
  unfold perform. intros Ha. destruct (mc_action c); intros H; run_step H; subst.
  - match goal with H : deposit_with_auth _ _ _ _ _ _ = _ |- _ =>
      apply vault_deposit_Ok in H as [[_ _ _ _ _ ->] _] end. apply obeys_unprotected; [done|done|by intros ?].
  - match goal with H : withdraw_with_auth _ _ _ _ _ _ = _ |- _ =>
      apply withdraw_Ok in H as [[_ _ _ _ _ [t ->]] _] end. apply obeys_unprotected; [done|done|by intros ?].
  - apply obeys_frame; [done|]. eapply blind_frame; [|eassumption]. intros. by apply blind_borrow.
  - apply obeys_frame; [done|]. eapply blind_frame; [|eassumption]. intros. by apply blind_repay.
  - apply obeys_frame; [done|]. eapply blind_frame; [|eassumption]. intros. by apply blind_deposit.
Qed.

Lemma execute_delegated_obeys a d e n t cs env s u s' :
  get_admin s = Some a → execute_delegated d e n t cs env s = (Ok u, s') → obeys env a s s'.
Proof.
  unfold execute_delegated. intros Ha H. run_step H; subst.
  match goal with H : set_nonce _ _ _ ?s0 = _ |- _ => apply set_nonce_Ok in H as -> end.
  match goal with H : for_each _ _ _ ?s1 = _ |- _ =>
    assert (obeys env a s s1) as H0 by (apply obeys_unprotected; [done|done|by intros ?]);
    apply (for_each_Ok cs _ (obeys env a s) (λ _, True) env) in H as [? _]; [done| |done] end.
  intros c s1 u1 s2 Hs1 Hc. unfold validate_delegation in Hc. run_step Hc; subst.
  split; [|done]. eapply obeys_trans; [exact Hs1|]. eapply perform_obeys; [apply Hs1|done].
Qed.

Lemma borrow_settings_obeys a d m env s u s' :
  get_admin s = Some a → initialize_borrow_settings d m env s = (Ok u, s') → obeys env a s s'.
Proof.
  unfold initialize_borrow_settings, set_default_if_missing. intros Ha H. run_inv H.
  all: apply obeys_unprotected; [done| |].
  all: unfold protected, frame, protected_of, model_kept; cbn; repeat case_match;
    try done; try (intros ? ?; cbn in *; congruence).
Qed.

Lemma debt_view_obeys {E} a user env s r s' :
  get_admin s = Some a → get_user_debt (E := E) user env s = (r, s') → obeys env a s s'.
Proof. intros Ha H%user_debt_equiv. by apply obeys_frame; [|apply frame_equiv]. Qed.

Lemma update_config_obeys a caller update env s r s' :
  get_admin s = Some a → update_config caller update env s = (Ok r, s') → obeys env a s s'.
Proof.
  destruct r as [prev next]. intros Ha H.
  apply update_config_Ok in H as (Hauth & Hadm & _ & _ & _ & ->).
  apply obeys_admin; [done|congruence|done].
Qed.

Lemma add_bad_debt_obeys {E} a x d env s u s' :
  get_admin s = Some a → add_bad_debt (E := E) x d env s = (Ok u, s') → obeys env a s s'.
Proof. unfold add_bad_debt. intros Ha H. run_inv H. apply obeys_unprotected; [done|done|by intros ?]. Qed.

Lemma health_view_obeys {E} a user env s r s' :
  get_admin s = Some a → get_health_factor (E := E) user env s = (Ok r, s') → obeys env a s s'.
Proof.
  intros Ha H. destruct (read_health_factor (E := E) user env s s) as [_ [Hs _]]; [reflexivity|].
  rewrite H in Hs. by apply obeys_frame; [|apply frame_equiv].
Qed.

Lemma liquidate_obeys a l x da ca d env s u s' :
  get_admin s = Some a → liquidate l x da ca d env s = (Ok u, s') → obeys env a s s'.
Proof.
  unfold liquidate. intros Ha H.
  apply bind_Ok in H as (? & s0 & [_ ->]%require_auth_Ok & H).
  apply bind_Ok in H as (p & s0 & [-> ->]%gets_Ok & H).
  apply bind_Ok in H as (? & s0 & [_ ->]%reject_if_Ok & H).
  apply bind_Ok in H as (dv & s1 & Hdv & H). apply bind_Ok in H as (hf & s2 & Hhf & H).
  unfold get_debt_value in Hdv. apply bind_Ok in Hdv as (q & s3 & Hq & [_ ->]%debt_value_Ok).
  apply (debt_view_obeys a) in Hq; [|done]. pose proof (proj1 Hq) as Ha3.
  apply (health_view_obeys a) in Hhf; [|done]. pose proof (proj1 Hhf) as Ha2.
  assert (obeys env a s s2) as H2 by (by eapply obeys_trans).
  run_step H; subst; [|done].
  match goal with H : add_bad_debt _ _ _ _ = _ |- _ =>
    apply (add_bad_debt_obeys a) in H; [|done]; pose proof (proj1 H) as Ha4 end.
  eapply obeys_trans; [exact H2|]. eapply obeys_trans; [eassumption|]. apply obeys_unprotected; [done|done|by intros ?].
Qed.

Lemma execute_commitment_obeys a id env s u s' :
  get_admin s = Some a → execute_borrow_commitment id env s = (Ok u, s') → obeys env a s s'.
Proof.
  unfold execute_borrow_commitment, set_commitment. intros Ha H. run_step H; subst.
  match goal with H : triggers_satisfied _ _ _ _ = _ |- _ =>
    apply triggers_satisfied_Ok in H as (_ & -> & ->) end.
  match goal with H : validate_collateral_ratio _ _ _ _ = _ |- _ =>
    apply validate_collateral_ratio_Ok in H as [-> _] end.
  match goal with H : borrow_from_commitment _ _ _ _ _ _ ?s0 = (_, ?s1) |- _ =>
    assert (obeys env a s0 s1) as Hb by
      (apply obeys_frame; [done|]; eapply blind_frame; [|exact H]; intros; by apply blind_borrow) end.
  pose proof (proj1 Hb). eapply obeys_trans; [exact Hb|]. apply obeys_unprotected; [done|done|by intros ?].
Qed.

(** A successful run followed by a write of unprotected fields. *)
Ltac unprotected := apply obeys_unprotected; [done|done|by intros ?].

Lemma final_obeys {E A} (m : LM E A) env s a :
  (∀ r s', m env s = (Ok r, s') → obeys env a s s') → get_admin s = Some a →
  obeys env a s (final m env s).
Proof. intros H Ha. apply final_keeps; [exact H|by apply obeys_refl]. Qed.

Lemma dispatch_obeys c env s a :
  get_admin s = Some a → obeys env a s (dispatch c env s).
Proof.
  intros Ha. destruct c; cbn [dispatch]; apply final_obeys; try exact Ha; intros r s' H.
  - unfold initialize in H. run_step H. zbool. congruence.
  - unfold set_delegation_registry, Meta.set_delegation_registry in H. run_step H.
    apply check_admin_Ok in Hrun as (? & ? & ->). subst. apply obeys_admin; [done|congruence|done].
  - by eapply execute_delegated_obeys.
  - by eapply add_bad_debt_obeys.
  - apply obeys_frame; [done|]. eapply blind_frame; [|exact H]. intros. by apply blind_borrow.
  - unfold set_pause, Pause.set_pause in H. run_step H.
    apply check_admin_Ok in Hrun as (? & ? & ->). subst. apply obeys_admin; [done|congruence|done].
  - unfold repay in H. run_step H; subst.
    apply obeys_frame; [done|]. eapply blind_frame; [|eassumption]. intros. by apply blind_repay.
  - unfold repay_with_rate in H. run_step H; subst.
    apply obeys_frame; [done|]. eapply blind_frame; [|eassumption]. intros. by apply blind_repay_with_rate.
  - unfold switch_rate_type in H. run_step H; subst.
    apply obeys_frame; [done|]. eapply blind_frame; [|eassumption]. intros. by apply blind_switch.
  - unfold deposit in H. run_step H; subst.
    match goal with H : Vault.deposit _ _ _ _ _ = _ |- _ =>
      apply vault_deposit_Ok in H as [[_ _ _ _ _ ->] _] end. unprotected.
  - unfold deposit_collateral in H. run_step H; subst.
    apply obeys_frame; [done|]. eapply blind_frame; [|eassumption]. intros. by apply blind_deposit.
  - by eapply liquidate_obeys.
  - by eapply debt_view_obeys.
  - unfold set_variable_borrow_rate_bps in H. open_run H. by eapply update_config_obeys.
  - unfold set_oracle in H. open_run H. apply obeys_admin; [done|congruence|done].
  - unfold set_liquidation_threshold_bps in H. open_run H. apply obeys_admin; [done|congruence|done].
  - unfold initialize_deposit_settings in H. run_inv H. unprotected.
  - unfold set_deposit_paused in H. run_inv H. apply obeys_unprotected; [done| |by intros ?].
    unfold protected, frame, protected_of. cbn. by rewrite delete_insert_eq.
  - unfold set_flash_loan_fee_bps, FlashLoan.set_flash_loan_fee_bps in H. run_inv H.
    apply obeys_admin; [done|congruence|done].
  - unfold update_interest_rate_model in H. run_step H; subst.
    match goal with H : update_config _ _ _ _ = _ |- _ =>
      apply (update_config_obeys a) in H; [|done]; pose proof (proj1 H) end.
    eapply obeys_trans; [eassumption|]. unprotected.
  - unfold withdraw in H. run_step H; subst.
    match goal with H : Vault.withdraw _ _ _ _ _ = _ |- _ =>
      apply withdraw_Ok in H as [[_ _ _ _ _ [t ->]] _] end. unprotected.
  - unfold initialize_withdraw_settings in H. run_inv H. unprotected.
  - unfold set_withdraw_paused in H. run_inv H. unprotected.
  - apply obeys_frame; [done|]. eapply blind_frame; [|exact H]. intros. by apply blind_receive.
  - by eapply borrow_settings_obeys.
  - unfold set_stablecoin_config in H. open_run H. apply obeys_admin; [done|congruence|done].
  - apply set_risk_alert_thresholds_Ok in H as (? & ? & _ & ->).
    apply obeys_admin; [done|congruence|done].
  - unfold create_borrow_commitment, set_commitment in H. run_step H. subst.
    match goal with H : validate_collateral_ratio _ _ _ _ = _ |- _ =>
      apply validate_collateral_ratio_Ok in H as [-> _] end. unprotected.
  - apply cancel_borrow_commitment_Ok in H as (c & _ & _ & _ & _ & ->). unprotected.
  - by eapply execute_commitment_obeys.
  - unfold recover_bad_debt in H. run_step H.
    apply check_admin_Ok in Hrun as (? & ? & ->). subst. apply obeys_admin; [done|congruence|done].
Qed.

Lemma step_obeys env s s' a : get_admin s = Some a → step env s s' → obeys env a s s'.
Proof.
  intros Ha [c _|W this bal tr cb receiver asset amount params w]; [by apply dispatch_obeys|].
  unfold invoke.
  destruct (flash_loan _ _ _ _ _ _ _ _ env (s, w)) as [[u|e|] [s1 w1]] eqn:E;
    [|by apply obeys_refl..].
  apply flash_loan_Ok in E as (_ & _ & _ & _ & ->). cbn. unprotected.
Qed.

(** ** Properties *)



(** An invocation signed by nobody can change the debt ceiling, the minimum
    borrow, the deposit cap, the deposit and withdrawal pauses and the recorded
    bad debt. *)
Theorem unprotected_settings :
  let nobody := nobody_env 100 in
  get_debt_ceiling (dispatch (CallInitializeBorrowSettings 5 1) nobody market) = 5 ∧
  get_min_borrow_amount (dispatch (CallInitializeBorrowSettings 5 1) nobody market) = 1 ∧
  get_deposit_cap (dispatch (CallInitializeDepositSettings 7 3) nobody market) = 7 ∧
  is_paused (dispatch (CallSetDepositPaused true) nobody market) PauseDeposit = true ∧
  withdraw_is_paused (dispatch (CallSetWithdrawPaused true) nobody market) = true ∧
  get_total_bad_debt (dispatch (CallAddBadDebt bob 1000) nobody market) = 1000.
Proof. split_and!; vm_compute; reflexivity. Qed.
