(* ===== verification/RuntimeChecks.v ===== *)
(** * RuntimeChecks: the testing aids of the lending contract ([lending/src/invariants.rs], [state_machine.rs])

    Checks that compare a measurement with one taken before an action.  The
    totals are those of the data store contract; the state of a check is the
    storage it reads.  Which of them hold of the contract, and which reject what
    it is meant to do.  Then the state explorer, which lib.rs declares as a
    module: it enumerates sequences of actions, runs each on a summary of the
    protocol and records what its checks report.  An addition that leaves 128
    bits panics: [None].  The confidence metrics, which are floating-point, are
    left out. *)

From S2P Require Import DataStore.
From S2P Require Import Prelude.
From S2P Require Import Host.
From S2P Require Import LendingTypes.
From S2P Require Import Pause.
From S2P Require Import BorrowStorage.
From S2P Require Import InterestRate.
From S2P Require Import RiskMonitor.
From S2P Require Import Borrow.
From S2P Require Import Scenario.
From S2P Require Import Interest.
From S2P Require Import DebtAccounting.
From S2P Require Import Vault.
From S2P Require Import FlashLoan.
From S2P Require Import Views.
From S2P Require Import Commitments.
From S2P Require Import Delegation.
From S2P Require Import Meta.
From S2P Require Import Frames.
From S2P Require Import Lending.
From S2P Require Import Invariants.
From S2P Require Import AccessControl.

Local Open Scope string_scope.
Local Open Scope Z_scope.

Record ExemptionFlags : Type := mkExemptionFlags {
  rate_reset_in_progress : bool;
  oracle_fallback_active : bool;
  flash_loan_context : bool;
}.
Definition default_exemptions : ExemptionFlags := mkExemptionFlags false false false.

(** ** The checks *)

Definition violation (id message : string) (before after : Z) : InvariantViolation :=
  mkInvariantViolation id message [("before", before); ("after", after)].

(** An address in a detail is its number. *)
Definition admin_violation (id message : string) (before : Address) (after : option Address) : InvariantViolation :=
  mkInvariantViolation id message
    (("before", Z.pos before) :: match after with Some a => [("after", Z.pos a)] | None => [] end).

Definition check_inv_005_no_value_creation_on_borrow (user : Address) (collateral_value_before : Z) :
    LM InvariantViolation unit :=
  after ← get_collateral_value user;
  reject_if (collateral_value_before <? after)
    (violation "INV-005" "No-value-creation: collateral_value increased after borrow" collateral_value_before after).

Definition check_inv_006_admin_stability (admin_before : Address) : LM InvariantViolation unit :=
  admin_after ← gets get_admin;
  reject_if (bool_decide (admin_after ≠ Some admin_before))
    (admin_violation "INV-006" "Access control: admin changed without explicit set_admin action" admin_before admin_after).

Definition check_inv_007_pause_immutability (user : Address) (debt_before collateral_before : Z) :
    LM InvariantViolation unit :=
  paused ← gets (λ s, is_paused s PauseBorrow);
  if negb paused then mret tt
  else
    debt_after ← get_debt_balance user;
    collateral_after ← get_collateral_balance user;
    reject_if (negb (debt_after =? debt_before))
      (violation "INV-007" "Pause: debt_balance changed while protocol is paused" debt_before debt_after) ;;
    reject_if (negb (collateral_after =? collateral_before))
      (violation "INV-007" "Pause: collateral_balance changed while protocol is paused" collateral_before collateral_after).

Definition check_inv_010_total_assets_monotonic (assets_before : Z) : M DataStore.Store InvariantViolation unit :=
  assets_after ← gets DataStore.get_total_assets;
  reject_if (assets_after <? assets_before)
    (violation "INV-010" "Total assets decreased - potential value destruction" assets_before assets_after).

Definition check_inv_011_no_mint_on_borrow (assets_before : Z) : M DataStore.Store InvariantViolation unit :=
  assets_after ← gets DataStore.get_total_assets;
  reject_if (assets_before <? assets_after)
    (violation "INV-011" "Total assets increased after borrow - money minted" assets_before assets_after).

Definition check_inv_012_interest_monotonicity (index_before : Z) (exemptions : ExemptionFlags) :
    LM InvariantViolation unit :=
  if rate_reset_in_progress exemptions then mret tt
  else
    index_after ← gets get_interest_index;
    reject_if (index_after <? index_before)
      (violation "INV-012" "Interest index decreased - time reversal bug" index_before index_after).

Definition check_inv_013_reserve_monotonic (reserves_before : Z) : M DataStore.Store InvariantViolation unit :=
  reserves_after ← gets DataStore.get_protocol_reserves;
  reject_if (reserves_after <? reserves_before)
    (violation "INV-013" "Protocol reserves decreased without admin action" reserves_before reserves_after).

(** The code compares an option with an address; read as [Some]. *)
Definition check_inv_014_access_control (admin_before : Address) : LM InvariantViolation unit :=
  admin_after ← gets get_admin;
  reject_if (bool_decide (admin_after ≠ Some admin_before))
    (admin_violation "INV-014" "Admin address changed without explicit set_admin" admin_before admin_after).

Definition assert_all_stateless (exemptions : ExemptionFlags) : list InvariantViolation := [].

(** ** Checks that hold *)

(** Once there is an admin, the two checks of its address pass after every
    invocation, whoever signs it. *)
Theorem admin_checks_pass a env s s' env' :
  get_admin s = Some a → step env s s' →
  check_inv_006_admin_stability a env' s' = (Ok tt, s') ∧ check_inv_014_access_control a env' s' = (Ok tt, s').
Proof.
  intros Ha Hs. apply (step_obeys _ _ _ a) in Hs as [Hs _]; [|done].
  unfold check_inv_006_admin_stability, check_inv_014_access_control.
  split; rewrite bind_eq; cbn [gets]; rewrite Hs, bool_decide_false by auto; done.
Qed.

Lemma admin_checks_pass_witness :
  let s' := dispatch (CallInitialize bob 1 1) (demo_env 100) market in
  check_inv_006_admin_stability admin (demo_env 100) s' = (Ok tt, s') ∧
  check_inv_014_access_control admin (demo_env 100) s' = (Ok tt, s').
Proof.
  intros s'. apply (admin_checks_pass admin (demo_env 100) market s' (demo_env 100)).
  - vm_compute. reflexivity.
  - apply step_call. exact I.
Defined.

(** A check of a monotone measurement passes exactly when it did not fall. *)
Theorem monotone_checks before env (d : DataStore.Store) s ex :
  (check_inv_010_total_assets_monotonic before env d = (Ok tt, d) ↔ before ≤ DataStore.get_total_assets d) ∧
  (check_inv_011_no_mint_on_borrow before env d = (Ok tt, d) ↔ DataStore.get_total_assets d ≤ before) ∧
  (check_inv_013_reserve_monotonic before env d = (Ok tt, d) ↔ before ≤ DataStore.get_protocol_reserves d) ∧
  (check_inv_012_interest_monotonicity before ex env s = (Ok tt, s) ↔
     rate_reset_in_progress ex = true ∨ before ≤ get_interest_index s).
Proof.
  unfold check_inv_010_total_assets_monotonic, check_inv_011_no_mint_on_borrow, check_inv_013_reserve_monotonic,
    check_inv_012_interest_monotonicity, reject_if.
  assert (Hr : ∀ {S E} (e : E) (b : bool) (x : S) P, (b = false ↔ P) →
    ((if b then fail e else mret tt) env x = (Ok tt, x) ↔ P)).
  { intros S E e [] x P HP; rewrite <- HP; cbn; by split. }
  split_and!; [rewrite bind_eq; cbn [gets]; apply Hr, Z.ltb_ge..|]. destruct (rate_reset_in_progress ex).
  - split; [by left|done].
  - rewrite bind_eq. cbn [gets]. rewrite (Hr _ _ _ _ _ (before ≤ get_interest_index s)) by apply Z.ltb_ge. split; [by right|by intros [|]].
Qed.

(** ** Checks that reject normal operation *)

(** Alice borrows 1000 dollars and adds 1500 gold as the borrow requires: her
    collateral is worth more afterwards, which INV-005 calls a creation of
    value. *)
Theorem borrowing_trips_inv_005 :
  let before := get_collateral_value (E := BorrowError) alice (demo_env 100) priced in
  let s' := final (borrow_with_rate alice usd 1000 gold 1500 VariableRate) (demo_env 100) priced in
  outcome (borrow_with_rate alice usd 1000 gold 1500 VariableRate) (demo_env 100) priced = Ok tt ∧
  before.1 = Ok 15000 ∧
  (check_inv_005_no_value_creation_on_borrow alice 15000 (demo_env 100) s').1 =
    Err (violation "INV-005" "No-value-creation: collateral_value increased after borrow" 15000 18000).
Proof. vm_compute. done. Qed.

(** While borrowing is paused, repaying is allowed, and interest accrues:
    INV-007 rejects both. *)
Theorem pauses_trip_inv_007 :
  let paused := dispatch (CallSetPause admin PauseBorrow true) (demo_env 100) priced in
  is_paused paused PauseBorrow = true ∧
  (check_inv_007_pause_immutability alice 5000 7500 (demo_env 100) paused).1 = Ok tt ∧
  (let s' := final (repay alice usd 800) (demo_env 100) paused in
   outcome (repay alice usd 800) (demo_env 100) paused = Ok tt ∧
   ∃ v, (check_inv_007_pause_immutability alice 5000 7500 (demo_env 100) s').1 = Err v) ∧
  ∃ v, (check_inv_007_pause_immutability alice 5000 7500 (demo_env 31536100) paused).1 = Err v.
Proof. vm_compute. split_and!; try done; by eexists. Qed.

(** Anybody can lower the total assets and the reserves of the data store, which
    INV-010 and INV-013 then report. *)
Theorem totals_can_be_lowered env d before :
  let d1 := (DataStore.set_total_assets (before - 1) env d).2 in
  let d2 := (DataStore.set_protocol_reserves (before - 1) env d).2 in
  (∃ v, (check_inv_010_total_assets_monotonic before env d1).1 = Err v) ∧
  ∃ v, (check_inv_013_reserve_monotonic before env d2).1 = Err v.
Proof.
  intros d1 d2. unfold check_inv_010_total_assets_monotonic, check_inv_013_reserve_monotonic. rewrite !bind_eq.
  cbn [gets]. change (DataStore.get_total_assets d1) with (before - 1).
  change (DataStore.get_protocol_reserves d2) with (before - 1). unfold reject_if.
  rewrite (proj2 (Z.ltb_lt (before - 1) before)) by lia. split; by eexists.
Qed.

(** * The state explorer *)

Local Close Scope string_scope.

Inductive StateAction : Type :=
  | SDeposit (user asset : Address) (amount : Z) | SWithdraw (user asset : Address) (amount : Z)
  | SBorrow (user debt_asset collateral_asset : Address) (amount : Z) | SRepay (user asset : Address) (amount : Z)
  | SDepositCollateral (user asset : Address) (amount : Z) | SSetPause (pause_type : Z) (paused : bool)
  | SSetLiquidationThreshold (bps : Z) | SSetOraclePrice (asset : Address) (price : Z) | SAdvanceTime (delta : Z).

Record UserState : Type := mkUserState {
  us_collateral_balance : Z;
  us_debt_balance : Z;
  us_health_factor : Z;
  us_collateral_value : Z;
  us_debt_value : Z;
}.

Record ProtocolState : Type := mkProtocolState {
  ps_total_assets : Z;
  ps_protocol_reserves : Z;
  ps_interest_index : Z;
  ps_admin : option Address;
  ps_user_positions : list (Address * UserState);
}.
#[export] Instance ProtocolState_upd : Updatable ProtocolState := λ s,
  mkProtocolState (ps_total_assets s) (ps_protocol_reserves s) (ps_interest_index s) (ps_admin s) (ps_user_positions s).
Definition default_state : ProtocolState := mkProtocolState 0 0 0 None [].

Record StateTransition : Type := mkStateTransition {
  tr_action : StateAction;
  tr_pre_state : ProtocolState;
  tr_post_state : ProtocolState;
  tr_violations : list InvariantViolation;
}.

(** Its [env] is what [capture_state] reads. *)
Record StateMachineExplorer : Type := mkStateMachineExplorer {
  se_users : list Address;
  se_assets : list Address;
  se_max_depth : nat;
  se_execution_count : Z;
  se_confidence_threshold : Z;
}.
#[export] Instance StateMachineExplorer_upd : Updatable StateMachineExplorer := λ e,
  mkStateMachineExplorer (se_users e) (se_assets e) (se_max_depth e) (se_execution_count e) (se_confidence_threshold e).

Definition new_explorer (max_depth : nat) (confidence_threshold : Z) : StateMachineExplorer :=
  mkStateMachineExplorer [] [] max_depth 0 confidence_threshold.
Definition add_user (user : Address) (e : StateMachineExplorer) := e <| se_users := (se_users e ++ [user]) |>.
Definition add_asset (asset : Address) (e : StateMachineExplorer) := e <| se_assets := (se_assets e ++ [asset]) |>.

(** ** Actions and sequences *)

Definition amounts : list Z := [1000; 10000; 100000].

(** The loop over users, assets and amounts *)
Definition for_user_asset (make : Address → Address → Z → StateAction) (users assets : list Address) : list StateAction :=
  user ← users; asset ← assets; amount ← amounts; [make user asset amount].

Definition borrow_actions (users assets : list Address) : list StateAction :=
  user ← users; debt_asset ← assets; collateral_asset ← assets;
  if decide (debt_asset ≠ collateral_asset) then amount ← amounts; [SBorrow user debt_asset collateral_asset amount] else [].

Definition generate_all_actions (e : StateMachineExplorer) : list StateAction :=
  let users := se_users e in let assets := se_assets e in
  match users, assets with
  | [], _ | _, [] => []
  | _, _ =>
      for_user_asset SDeposit users assets ++ for_user_asset SWithdraw users assets ++ borrow_actions users assets ++
      for_user_asset SRepay users assets ++ map SAdvanceTime [100; 1000; 10000]
  end.

(** [steps] are left to the maximal depth. *)
Fixpoint generate_sequences_recursive (e : StateMachineExplorer) (steps : nat) (current_sequence : list StateAction) :
    list (list StateAction) :=
  match steps with
  | O => match current_sequence with [] => [] | _ => [current_sequence] end
  | S steps =>
      action ← generate_all_actions e; generate_sequences_recursive e steps (current_sequence ++ [action])
  end.

Definition generate_action_sequences (e : StateMachineExplorer) (depth : nat) : list (list StateAction) :=
  generate_sequences_recursive e depth [].

(** ** Running a sequence *)

Definition apply_action (s : ProtocolState) (action : StateAction) : option ProtocolState :=
  match action with
  | SDeposit _ _ amount | SRepay _ _ amount =>
      total ← checked_add (ps_total_assets s) amount; Some (s <| ps_total_assets := total |>)
  | SWithdraw _ _ amount =>
      total ← checked_sub (ps_total_assets s) amount; Some (s <| ps_total_assets := total |>)
  | SAdvanceTime delta =>
      index ← checked_add (ps_interest_index s) delta; Some (s <| ps_interest_index := index |>)
  | _ => Some s
  end.

Definition report (b : bool) (id message : string) (detail : list (string * Z)) : list InvariantViolation :=
  if b then [mkInvariantViolation id message detail] else [].

Definition check_user (entry : Address * UserState) : list InvariantViolation :=
  let '(user, u) := entry in
  let who := ("user", Z.pos user) in
  report ((us_health_factor u <? 10000) && (0 <? us_debt_balance u)) "INV-001" "User undercollateralized"
    [who; ("health_factor", us_health_factor u)] ++
  report (us_collateral_balance u <? 0) "INV-002" "Collateral balance negative" [who; ("balance", us_collateral_balance u)] ++
  report (us_debt_balance u <? 0) "INV-003" "Debt balance negative" [who; ("balance", us_debt_balance u)].

Definition check_invariants (s : ProtocolState) : list InvariantViolation :=
  report (ps_total_assets s <? 0) "INV-002" "Total assets negative" [("total_assets", ps_total_assets s)] ++
  report (ps_protocol_reserves s <? 0) "INV-003" "Protocol reserves negative" [("reserves", ps_protocol_reserves s)] ++
  (entry ← ps_user_positions s; check_user entry).

Fixpoint execute_action_sequence (sequence : list StateAction) (s : ProtocolState) : option (list StateTransition) :=
  match sequence with
  | [] => Some []
  | action :: sequence =>
      post ← apply_action s action;
      rest ← execute_action_sequence sequence post;
      Some (mkStateTransition action s post (check_invariants post) :: rest)
  end.

(** ** Exploring *)

Definition has_reached_confidence (e : StateMachineExplorer) : bool := se_confidence_threshold e <=? se_execution_count e.
Definition get_execution_count (e : StateMachineExplorer) : Z := se_execution_count e.

(** The loop over the sequences of a depth; the counter is far from its limit. *)
Fixpoint run_sequences (e : StateMachineExplorer) (initial : ProtocolState) (sequences : list (list StateAction)) :
    option (list StateTransition * StateMachineExplorer) :=
  match sequences with
  | [] => Some ([], e)
  | sequence :: sequences =>
      transitions ← execute_action_sequence sequence initial;
      let e := e <| se_execution_count := (se_execution_count e + 1) |> in
      if has_reached_confidence e then Some (transitions, e)
      else '(rest, e) ← run_sequences e initial sequences; Some (transitions ++ rest, e)
  end.

(** The loop over the depths, of which [depths] are left after [depth] *)
Fixpoint run_depths (depths depth : nat) (e : StateMachineExplorer) (initial : ProtocolState) :
    option (list StateTransition * StateMachineExplorer) :=
  match depths with
  | O => Some ([], e)
  | S depths =>
      '(transitions, e) ← run_sequences e initial (generate_action_sequences e (S depth));
      if has_reached_confidence e then Some (transitions, e)
      else '(rest, e) ← run_depths depths (S depth) e initial; Some (transitions ++ rest, e)
  end.

(** No user's position is captured. *)
Definition capture_state (total_assets reserves index : Z) (admin : option Address) : ProtocolState :=
  mkProtocolState total_assets reserves index admin [].

Definition explore (e : StateMachineExplorer) (initial : ProtocolState) : option (list StateTransition * StateMachineExplorer) :=
  run_depths (se_max_depth e) 0 e initial.

(** ** Reproducing a violation *)

Definition reset_to_state (s : ProtocolState) : InvariantViolation + unit := inr tt.
Definition execute_action (action : StateAction) : InvariantViolation + unit := inr tt.
Definition capture_current_state : ProtocolState := default_state.
Definition check_state_invariants (s : ProtocolState) : list InvariantViolation :=
  report (ps_total_assets s <? 0) "INV-002" "Total assets negative" [("total_assets", ps_total_assets s)].

Definition reproduce_violation (t : StateTransition) : InvariantViolation + unit :=
  match reset_to_state (tr_pre_state t) with
  | inl v => inl v
  | inr _ =>
      match execute_action (tr_action t) with
      | inl v => inl v
      | inr _ =>
          match check_state_invariants capture_current_state with
          | [] => inl (mkInvariantViolation "REPRO-001" "Failed to reproduce violation" [])
          | _ => inr tt
          end
      end
  end.

(** ** What is explored *)

(** The sequences of a depth are all lists of that many actions, each once for
    every choice of actions. *)
Lemma generate_recursive_spec e : ∀ steps current s,
  s ∈ generate_sequences_recursive e steps current ↔
  s ≠ [] ∧ ∃ l, s = current ++ l ∧ length l = steps ∧ Forall (.∈ generate_all_actions e) l.
Proof.
  induction steps as [|steps IH]; intros current s; cbn [generate_sequences_recursive].
  - transitivity (s ≠ [] ∧ s = current).
    { destruct current; [rewrite elem_of_nil; naive_solver|rewrite list_elem_of_singleton; naive_solver]. }
    split; intros [Hs H]; (split; [done|]).
    + exists []. rewrite app_nil_r. by repeat constructor.
    + destruct H as ([|] & -> & ? & _); [by rewrite app_nil_r|done].
  - rewrite list_elem_of_bind. setoid_rewrite IH. split.
    + intros (a & (Hs & l & -> & Hl & Hf) & Ha). split; [done|]. exists (a :: l). rewrite <- app_assoc. cbn.
      split_and!; [done|lia|by constructor].
    + intros (Hs & [|a l] & -> & Hl & Hf); [done|]. apply Forall_cons in Hf as [Ha Hf]. exists a. split; [|done].
      split; [done|]. exists l. rewrite <- app_assoc. cbn in Hl. split_and!; [done|lia|done].
Qed.

Lemma length_bind_const {A B} (f : A → list B) n l : (∀ a, a ∈ l → length (f a) = n) → length (l ≫= f) = (length l * n)%nat.
Proof.
  induction l as [|a l IH]; intros H; [done|]. cbn. rewrite length_app, (H a) by left.
  rewrite IH; [done|]. intros b Hb. apply H. by right.
Qed.

(** All but one of the elements *)
Lemma length_bind_others {A B} `{EqDecision A} (d : A) (f : A → list B) n l :
  NoDup l → d ∈ l → (∀ c, length (f c) = n) →
  length (c ← l; if decide (d ≠ c) then f c else []) = ((length l - 1) * n)%nat.
Proof.
  intros Hnd Hd Hf. set (g c := if decide (d ≠ c) then f c else []). change (length (l ≫= g) = ((length l - 1) * n)%nat).
  assert (Hout : ∀ l, d ∉ l → length (l ≫= g) = (length l * n)%nat).
  { intros l' Hl. apply length_bind_const. intros c Hc. unfold g. by rewrite decide_True by (intros ->; done). }
  induction l as [|y l IH]; [by apply elem_of_nil in Hd|]. apply NoDup_cons in Hnd as [Hy Hnd].
  change ((y :: l) ≫= g) with (g y ++ (l ≫= g)). rewrite length_app. destruct (decide (d = y)) as [->|Hne].
  - unfold g at 1. rewrite decide_False by auto. rewrite Hout by done. cbn. lia.
  - apply elem_of_cons in Hd as [|Hd]; [done|]. unfold g at 1. rewrite decide_True, Hf, IH by done.
    destruct l; [by apply elem_of_nil in Hd|cbn; lia].
Qed.

Lemma generate_recursive_length e : ∀ steps current,
  (current ≠ [] ∨ steps ≠ 0%nat) →
  length (generate_sequences_recursive e steps current) = (length (generate_all_actions e) ^ steps)%nat.
Proof.
  induction steps as [|steps IH]; intros current Hc; cbn [generate_sequences_recursive].
  - destruct current; [by destruct Hc|done].
  - rewrite (length_bind_const _ (length (generate_all_actions e) ^ steps)%nat); [cbn; lia|].
    intros a _. apply IH. left. by destruct current.
Qed.

(** The generator yields every sequence of the depth over the actions of the
    environment, and no other. *)
Theorem all_sequences_are_generated e depth s :
  s ∈ generate_action_sequences e (S depth) ↔ length s = S depth ∧ Forall (.∈ generate_all_actions e) s.
Proof.
  unfold generate_action_sequences. rewrite generate_recursive_spec. split.
  - by intros (_ & l & -> & ? & ?).
  - intros [Hl Hf]. split; [by destruct s|by exists s].
Qed.

(** With distinct assets, the number of actions: three amounts for depositing,
    withdrawing and repaying each asset, for borrowing against each other asset,
    and three steps of time. *)
Theorem number_of_actions e :
  se_users e ≠ [] → se_assets e ≠ [] → NoDup (se_assets e) →
  let u := length (se_users e) in let a := length (se_assets e) in
  length (generate_all_actions e) = (9 * u * a + 3 * u * (a * (a - 1)) + 3)%nat.
Proof.
  intros Hu Ha Hnd u a.
  assert (Hfor : ∀ make, length (for_user_asset make (se_users e) (se_assets e)) = (u * (a * 3))%nat).
  { intros make. unfold for_user_asset. rewrite (length_bind_const _ (a * 3)); [done|]. intros x _. by apply length_bind_const. }
  assert (Hb : length (borrow_actions (se_users e) (se_assets e)) = (u * (a * ((a - 1) * 3)))%nat).
  { unfold borrow_actions. rewrite (length_bind_const _ (a * ((a - 1) * 3))); [done|]. intros x _.
    apply length_bind_const. intros d Hd. by apply length_bind_others. }
  unfold generate_all_actions. destruct (se_users e) as [|x us] eqn:Heu; [done|]. destruct (se_assets e) as [|y l] eqn:Hea; [done|].
  rewrite !length_app, !Hfor, Hb, length_map. cbn [length]. lia.
Qed.

(** ** How much is explored *)

Lemma run_sequences_count initial : ∀ sequences e ts e',
  run_sequences e initial sequences = Some (ts, e') →
  se_execution_count e' = Z.min (se_execution_count e + len sequences)
                            (Z.max (se_execution_count e + Z.min 1 (len sequences)) (se_confidence_threshold e)) ∧
  se_users e' = se_users e ∧ se_assets e' = se_assets e ∧ se_confidence_threshold e' = se_confidence_threshold e ∧
  se_max_depth e' = se_max_depth e.
Proof.
  induction sequences as [|s sequences IH]; intros e ts e' H; cbn [run_sequences] in H.
  - injection H as <- <-. unfold len. cbn. split_and!; try done. lia.
  - destruct (execute_action_sequence s initial) as [t|]; [|done]. cbn in H. unfold has_reached_confidence in H. cbn in H.
    destruct (Z.leb_spec (se_confidence_threshold e) (se_execution_count e + 1)).
    + injection H as <- <-. unfold len. cbn. split_and!; try done. lia.
    + destruct (run_sequences _ _ _) as [[rest e1]|] eqn:Hr; [|done]. injection H as <- <-.
      apply IH in Hr as (Hc & -> & -> & -> & ->). cbn in Hc. split_and!; try done. rewrite Hc.
      unfold len. cbn [length]. destruct sequences; cbn [length]; lia.
Qed.

(** The number of sequences of the depths after [depth], up to [depths] more *)
Fixpoint total_sequences (e : StateMachineExplorer) (depths depth : nat) : Z :=
  match depths with
  | O => 0
  | S depths => Z.of_nat (length (generate_all_actions e) ^ S depth) + total_sequences e depths (S depth)
  end.

Lemma total_sequences_nonneg e depths : ∀ depth, 0 ≤ total_sequences e depths depth.
Proof. induction depths as [|depths IH]; intros depth; cbn [total_sequences]; [lia|]. specialize (IH (S depth)). lia. Qed.

(** Only users and assets matter for what is generated. *)
Lemma generate_same e e' : se_users e' = se_users e → se_assets e' = se_assets e →
  generate_all_actions e' = generate_all_actions e.
Proof. intros Hu Ha. unfold generate_all_actions. by rewrite Hu, Ha. Qed.

Lemma total_sequences_same e e' : se_users e' = se_users e → se_assets e' = se_assets e → ∀ depths depth,
  total_sequences e' depths depth = total_sequences e depths depth.
Proof.
  intros Hu Ha. induction depths as [|depths IH]; intros depth; cbn [total_sequences]; [done|].
  by rewrite (generate_same e e') by done; rewrite IH.
Qed.

Lemma run_depths_count initial depths : ∀ depth e ts e',
  se_execution_count e < se_confidence_threshold e → run_depths depths depth e initial = Some (ts, e') →
  se_execution_count e' = Z.min (se_confidence_threshold e) (se_execution_count e + total_sequences e depths depth) ∧
  se_confidence_threshold e' = se_confidence_threshold e.
Proof.
  induction depths as [|depths IH]; intros depth e ts e' Hlt H; cbn [run_depths total_sequences] in *.
  - injection H as <- <-. split; [lia|done].
  - destruct (run_sequences _ _ _) as [[ts1 e1]|] eqn:Hr; [|done]. cbn in H.
    apply run_sequences_count in Hr as (Hc & Hu & Ha & Ht & _).
    unfold generate_action_sequences, len in Hc. rewrite generate_recursive_length in Hc by auto.
    set (n := Z.of_nat (length (generate_all_actions e) ^ S depth)) in *.
    pose proof (total_sequences_nonneg e depths (S depth)). assert (0 ≤ n) by (unfold n; lia).
    unfold has_reached_confidence in H. rewrite Ht in H.
    destruct (Z.leb_spec (se_confidence_threshold e) (se_execution_count e1)) as [Hle|Hgt].
    + injection H as <- <-. split; [lia|done].
    + destruct (run_depths depths _ _ _) as [[ts2 e2]|] eqn:Hd; [|done]. injection H as <- <-.
      apply IH in Hd as [Hd Ht']; [|lia]. rewrite (total_sequences_same e e1) in Hd by done. split; [lia|congruence].
Qed.

(** *** It panics on no sensible state *)

(** The totals that [n] actions cannot move out of range *)
Definition roomy (n : nat) (s : ProtocolState) : Prop :=
  - I128_MAX + 100000 * Z.of_nat n ≤ ps_total_assets s ≤ I128_MAX - 100000 * Z.of_nat n ∧
  - I128_MAX ≤ ps_interest_index s ≤ I128_MAX - 100000 * Z.of_nat n.

Definition small_action (a : StateAction) : Prop :=
  match a with
  | SDeposit _ _ x | SWithdraw _ _ x | SRepay _ _ x | SAdvanceTime x => 0 ≤ x ≤ 100000
  | _ => True
  end.

Lemma generated_small e a : a ∈ generate_all_actions e → small_action a.
Proof.
  assert (Hfor : ∀ make us l, (∀ u x n, 0 ≤ n ≤ 100000 → small_action (make u x n)) →
    a ∈ for_user_asset make us l → small_action a).
  { intros make us l Hm (u & (x & (n & ->%list_elem_of_singleton & Hn)%list_elem_of_bind & _)%list_elem_of_bind & _)%list_elem_of_bind.
    apply Hm. unfold amounts in Hn. rewrite !elem_of_cons, elem_of_nil in Hn. lia. }
  unfold generate_all_actions. destruct (se_users e); [by intros ?%elem_of_nil|]. destruct (se_assets e); [by intros ?%elem_of_nil|].
  rewrite !elem_of_app. intros [H|[H|[H|[H|H]]]]; [by eapply Hfor in H..| |by eapply Hfor in H|].
  - apply list_elem_of_bind in H as (u & (x & (c & H & _)%list_elem_of_bind & _)%list_elem_of_bind & _).
    destruct (decide (x ≠ c)) as [Hne|]; [|by apply elem_of_nil in H]. by apply list_elem_of_bind in H as (n & ->%list_elem_of_singleton & _).
  - apply list_elem_of_fmap in H as (d & -> & H). rewrite !elem_of_cons, elem_of_nil in H. cbn. lia.
Qed.

Lemma checked_in_range z : - I128_MAX ≤ z ≤ I128_MAX → fit in_i128 z = Some z.
Proof.
  intros H. unfold fit, in_i128, in_range. rewrite (proj2 (Z.leb_le I128_MIN z)), (proj2 (Z.leb_le z I128_MAX)); [done|lia|].
  unfold I128_MIN, I128_MAX in *. lia.
Qed.

Lemma apply_action_roomy n s a : roomy (S n) s → small_action a → ∃ s', apply_action s a = Some s' ∧ roomy n s' ∧
  ps_user_positions s' = ps_user_positions s ∧ ps_protocol_reserves s' = ps_protocol_reserves s.
Proof.
  unfold roomy. intros Hs Ha.
  destruct a; cbn [apply_action small_action] in *; unfold checked_add, checked_sub; rewrite ?checked_in_range by lia;
    eexists; (split; [reflexivity|]); cbn; (split; [lia|done]).
Qed.

(** A transition that starts without positions reports at most that the totals
    are negative. *)
Definition total_only (t : StateTransition) : Prop :=
  tr_violations t = report (ps_total_assets (tr_post_state t) <? 0) "INV-002" "Total assets negative"
                      [("total_assets", ps_total_assets (tr_post_state t))].

Lemma execute_sequence_runs sequence : ∀ s,
  roomy (length sequence) s → Forall small_action sequence → ps_user_positions s = [] → 0 ≤ ps_protocol_reserves s →
  ∃ ts, execute_action_sequence sequence s = Some ts ∧ map tr_action ts = sequence ∧ Forall total_only ts.
Proof.
  induction sequence as [|a l IH]; intros s Hr Hf Hp Hres; [by exists []|]. apply Forall_cons in Hf as [Ha Hf].
  cbn [execute_action_sequence]. destruct (apply_action_roomy _ _ _ Hr Ha) as (s' & -> & Hr' & Hp' & Hres').
  destruct (IH s') as (ts & Hts & Hact & Hall); [done|done|congruence|lia|]. cbn. rewrite Hts. cbn.
  eexists. split; [done|]. cbn. split; [congruence|]. constructor; [|done].
  unfold total_only, check_invariants. cbn. rewrite Hp', Hp, Hres'. cbn.
  rewrite (proj2 (Z.ltb_ge (ps_protocol_reserves s) 0)) by done. cbn. by rewrite !app_nil_r.
Qed.

Lemma run_sequences_runs initial n : ∀ sequences e,
  Forall (λ s, length s = n ∧ Forall small_action s) sequences → roomy n initial →
  ps_user_positions initial = [] → 0 ≤ ps_protocol_reserves initial →
  ∃ ts e', run_sequences e initial sequences = Some (ts, e') ∧ Forall total_only ts.
Proof.
  induction sequences as [|s l IH]; intros e Hf Hr Hp Hres; [by do 2 eexists|]. apply Forall_cons in Hf as [[Hl Hs] Hf].
  cbn [run_sequences]. destruct (execute_sequence_runs s initial) as (ts & -> & _ & Hts); [by rewrite Hl|done..|]. cbn.
  destruct (has_reached_confidence _); [by do 2 eexists|].
  destruct (IH (e <| se_execution_count := (se_execution_count e + 1) |>)) as (ts' & e' & Hrun & Hts'); [done..|].
  rewrite Hrun. do 2 eexists. split; [done|]. by apply Forall_app.
Qed.

Lemma roomy_less n m s : (n ≤ m)%nat → roomy m s → roomy n s.
Proof. unfold roomy. lia. Qed.

Lemma run_depths_runs initial depths : ∀ depth e,
  roomy (depth + depths) initial → ps_user_positions initial = [] → 0 ≤ ps_protocol_reserves initial →
  ∃ ts e', run_depths depths depth e initial = Some (ts, e') ∧ Forall total_only ts.
Proof.
  induction depths as [|depths IH]; intros depth e Hr Hp Hres; cbn [run_depths]; [by do 2 eexists|].
  destruct (run_sequences_runs initial (S depth) (generate_action_sequences e (S depth)) e) as (ts & e1 & -> & Hts);
    [|eapply roomy_less; [|exact Hr]; lia|done..|].
  { apply Forall_forall. intros s (_ & l & -> & Hl & Hf)%generate_recursive_spec. split; [done|].
    eapply Forall_impl; [exact Hf|]. intros a. apply generated_small. }
  cbn. destruct (has_reached_confidence e1); [by do 2 eexists|].
  destruct (IH (S depth) e1) as (ts' & e' & -> & Hts'); [by replace (S depth + depths)%nat with (depth + S depths)%nat by lia|done..|].
  do 2 eexists. split; [done|]. by apply Forall_app.
Qed.

(** The exploration ends without a panic, having run all sequences of up to the
    maximal depth or as many as the confidence threshold asks for, whichever is
    less.  As no position is captured, it never reports anything but a negative
    total, which a withdrawal of more than there is gives. *)
Theorem exploration_is_bounded e total reserves index admin :
  se_execution_count e = 0 → 1 ≤ se_confidence_threshold e → 0 ≤ reserves →
  roomy (se_max_depth e) (capture_state total reserves index admin) →
  ∃ ts e', explore e (capture_state total reserves index admin) = Some (ts, e') ∧
    get_execution_count e' = Z.min (se_confidence_threshold e) (total_sequences e (se_max_depth e) 0) ∧
    (has_reached_confidence e' = true ↔ se_confidence_threshold e ≤ total_sequences e (se_max_depth e) 0) ∧
    Forall total_only ts.
Proof.
  intros Hc Ht Hres Hr. unfold explore.
  destruct (run_depths_runs (capture_state total reserves index admin) (se_max_depth e) 0 e) as (ts & e' & Hrun & Hts); [done..|].
  exists ts, e'. split; [done|]. apply run_depths_count in Hrun as [Hcount Hthr]; [|lia]. unfold get_execution_count.
  unfold has_reached_confidence. rewrite Hcount, Hc, Hthr, Z.leb_le. split_and!; [lia|lia|done].
Qed.

(** Nothing is ever reproduced: the state that is checked is the default one. *)
Theorem nothing_is_reproduced t :
  reproduce_violation t = inl (mkInvariantViolation "REPRO-001" "Failed to reproduce violation" []).
Proof. reflexivity. Qed.

(** Two users and one asset, three steps deep: 40 of 9723 sequences. *)
Lemma exploration_is_bounded_witness :
  let e := (new_explorer 3 40) <| se_users := [1%positive; 2%positive] |> <| se_assets := [9%positive] |> in
  ∃ ts e', explore e (capture_state 500 0 1000000000 None) = Some (ts, e') ∧
    get_execution_count e' = 40 ∧ total_sequences e 3 0 = 9723 ∧ has_reached_confidence e' = true.
Proof.
  intros e. destruct (exploration_is_bounded e 500 0 1000000000 None) as (ts & e' & Hx & Hc & Hr & _).
  - reflexivity.
  - vm_compute. discriminate.
  - lia.
  - vm_compute. repeat split; discriminate.
  - exists ts, e'. split; [exact Hx|]. split; [rewrite Hc; vm_compute; reflexivity|].
    split; [vm_compute; reflexivity|]. apply Hr. vm_compute. discriminate.
Defined.
