(* ===== verification/Accounting.v ===== *)
(** * Accounting: the debt total over whole executions

    [accounting_inv] is the debt accounting of [DebtAccounting] together with
    the sign of the rates it depends on.  Every invocation keeps it, provided
    that a stable-rate borrow is made by a user who has a variable-rate entry
    and that stablecoin fees are not negative ([disciplined]). *)

From Stdlib Require Import Strings.Byte.
From S2P Require Import Prelude Host LendingTypes Pause BorrowStorage InterestRate RiskMonitor.
From S2P Require Import Borrow Scenario Interest DebtAccounting Vault FlashLoan Views.
From S2P Require Import Commitments Delegation Meta Frames Lending Invariants.

Record accounting_inv (s : LState) : Prop := {
  ai_rates : rates_nonneg s;
  ai_debt : debt_ok (st_borrow s);
}.

Definition disciplined (c : Call) (s : LState) : Prop :=
  match c with
  | CallBorrow user _ _ _ _ rt => bucket_ready user rt (st_borrow s)
  | CallSetStablecoinConfig _ _ cfg => 0 ≤ sc_stability_fee_bps cfg
  | _ => True
  end.

(** States reached by disciplined invocations. *)
Inductive disciplined_reachable : LState → Prop :=
  | dr_deployed : disciplined_reachable empty_state
  | dr_call c env s : disciplined_reachable s → call_in_range c → disciplined c s →
      disciplined_reachable (dispatch c env s)
  | dr_flash_loan {W : Type} this bal tr cb receiver asset amount params env s (w : W) :
      disciplined_reachable s →
      disciplined_reachable
        (invoke (flash_loan this bal tr cb receiver asset amount params) env (s, w)).2.1.

(** ** Position operations *)

Lemma borrow_accounting user asset amount ca camt rt auth env s u s' :
  bucket_ready user rt (st_borrow s) → accounting_inv s →
  borrow_inner user asset amount ca camt rt auth env s = (Ok u, s') → accounting_inv s'.
Proof.
  intros Hr [H1 H2] H. split.
  - by eapply (blind_borrow _ rates_blind).
  - apply borrow_inner_Ok in H as [H _]. by eapply borrow_keeps_debt_ok.
Qed.

Lemma variable_ready user b : bucket_ready user VariableRate b.
Proof. done. Qed.

(** A repayment that succeeds had something to repay. *)
Lemma repay_open user asset amount rt env s s' :
  repay_effect user asset amount rt env s s' →
  let p := get_debt_position user (Some asset) rt env s in
  dp_borrowed_amount p ≠ 0 ∨ dp_interest_accrued p ≠ 0.
Proof.
  intros He p. destruct (re_store _ _ _ _ _ _ _ He) as
    (acc & s1 & principal & interest & total & Hacc & _ & Hsum & Hi & Hle & Hlt & _).
  pose proof (re_amount _ _ _ _ _ _ _ He). fold p in Hacc, Hsum, Hle, Hlt. cbn in Hsum, Hle, Hlt.
  destruct (decide (dp_borrowed_amount p = 0)) as [E|]; [|by left].
  unfold calculate_interest in Hacc. cbn in Hacc. rewrite E in Hacc. cbn in Hacc. run_inv Hacc.
  right. intros E2. rewrite E, E2 in *. destruct Hlt; lia.
Qed.

Lemma repay_with_rate_accounting user asset amount rt env s u s' :
  accounting_inv s → Borrow.repay_with_rate user asset amount rt env s = (Ok u, s') →
  accounting_inv s'.
Proof.
  intros [H1 H2] H. split.
  - by eapply (blind_repay_with_rate _ rates_blind).
  - apply repay_with_rate_Ok in H. eapply repay_keeps_debt_ok; [done|done|by eapply repay_open|done].
Qed.

Lemma repay_accounting user asset amount env s u s' :
  accounting_inv s → Borrow.repay user asset amount env s = (Ok u, s') → accounting_inv s'.
Proof.
  intros Hi. destruct (repay_run user asset amount env s) as [rt ->].
  by apply repay_with_rate_accounting.
Qed.

Lemma switch_accounting user asset to env s u s' :
  accounting_inv s → Borrow.switch_rate_type user asset to env s = (Ok u, s') → accounting_inv s'.
Proof.
  intros [H1 H2] H. split.
  - by eapply (blind_switch _ rates_blind).
  - apply switch_rate_type_Ok in H. by eapply switch_keeps_debt_ok.
Qed.

Lemma collateral_accounting user asset amount env s u s' :
  accounting_inv s → Borrow.deposit user asset amount env s = (Ok u, s') → accounting_inv s'.
Proof.
  intros [H1 H2] H. split.
  - by eapply (blind_deposit _ rates_blind).
  - apply collateral_deposit_Ok in H as (_ & _ & _ & -> & _). by apply collateral_keeps_debt_ok.
Qed.

Lemma view_accounting {E} user env s r s' :
  accounting_inv s → get_user_debt (E := E) user env s = (r, s') → accounting_inv s'.
Proof.
  intros [H1 H2] H. split.
  - by eapply (blind_user_debt _ rates_blind).
  - apply user_debt_equiv in H. by apply (debt_ok_equiv s).
Qed.

(** ** Everything else leaves the debt alone *)

(** The parts of the borrow store the accounting reads are the same. *)
Lemma accounting_same s s' : st_borrow s' = st_borrow s → accounting_inv s → accounting_inv s'.
Proof.
  intros H [[Hc Ha Hp Hf Hst] Hd]. split; [split|]; rewrite ?H; try done.
  - intros c. rewrite H. apply Hc.
  - unfold get_stable_rate_premium_bps. by rewrite H.
  - unfold get_rate_switch_fee_bps. by rewrite H.
  - unfold get_stablecoin_config. by rewrite H.
Qed.

Ltac same_debt := eapply accounting_same; [|eassumption]; reflexivity.

(** A settings write: the debt data stay, the rates stay non-negative. *)
Lemma accounting_settings s s' :
  (∀ rt, debt_map rt (st_borrow s') = debt_map rt (st_borrow s)) →
  kBorrowUserDebt (st_borrow s') = kBorrowUserDebt (st_borrow s) →
  kBorrowTotalDebt (st_borrow s') = kBorrowTotalDebt (st_borrow s) →
  rates_nonneg s' → accounting_inv s → accounting_inv s'.
Proof. intros H1 H2 H3 Hr [_ Hd]. split; [done|]. by apply (debt_ok_ext (st_borrow s)). Qed.

Lemma default_rates_accounting {E} env s u s' :
  accounting_inv s → set_default_if_missing (E := E) env s = (Ok u, s') → accounting_inv s'.
Proof.
  unfold set_default_if_missing. intros Hi H. run_inv H; [done|].
  apply (accounting_settings s); try done. destruct Hi as [[] _]. split; try done.
  intros c [= <-]. apply default_config_wf.
Qed.

(** Filling in a missing default. *)
Lemma fill_default_accounting b' s s' :
  s' = s <| st_borrow := b' |> →
  b' = st_borrow s ∨ (∃ d, 0 ≤ d ∧
    (b' = (st_borrow s) <| kStableRatePremiumBps := Some d |> ∨
     b' = (st_borrow s) <| kStableRateRecalcIntervalSecs := Some d |> ∨
     b' = (st_borrow s) <| kRateSwitchFeeBps := Some d |>)) →
  accounting_inv s → accounting_inv s'.
Proof.
  intros -> Hf Hi. destruct Hf as [->|(d & Hd & Hf)]; [by apply (accounting_same s)|].
  destruct Hf as [->|[->| ->]];
    (apply (accounting_settings s); try done; destruct Hi as [[] _]; by split).
Qed.

Lemma borrow_settings_accounting d m env s u s' :
  accounting_inv s → initialize_borrow_settings d m env s = (Ok u, s') → accounting_inv s'.
Proof.
  unfold initialize_borrow_settings. intros Hi H. run_step H.
  match goal with H : set_default_if_missing _ _ = (Ok _, ?s1) |- _ =>
    assert (accounting_inv s1) as Hi1 by
      (apply default_rates_accounting in H; [done|]; subst;
       apply (accounting_settings s); try done; destruct Hi as [[] _]; by split); clear H end.
  assert (accounting_inv s3) as Hi3 by
    (apply (fill_default_accounting _ _ _ Hrun2); [destruct (kStableRatePremiumBps _); [by left|right]|done];
     exists DEFAULT_STABLE_PREMIUM_BPS; split; [by apply Z.leb_le|auto]).
  assert (accounting_inv s4) as Hi4 by
    (apply (fill_default_accounting _ _ _ Hrun3); [destruct (kStableRateRecalcIntervalSecs _); [by left|right]|done];
     exists DEFAULT_STABLE_RECALC_INTERVAL_SECS; split; [by apply Z.leb_le|auto]).
  apply (fill_default_accounting _ _ _ Hrun5); [destruct (kRateSwitchFeeBps _); [by left|right]|done].
  exists DEFAULT_SWITCH_FEE_BPS. split; [by apply Z.leb_le|auto].
Qed.

Lemma initialize_accounting a d m env s u s' :
  accounting_inv s → initialize a d m env s = (Ok u, s') → accounting_inv s'.
Proof.
  unfold initialize. intros Hi H. run_step H; subst.
  match goal with H : set_admin _ _ _ = _ |- _ => apply set_admin_Ok in H; subst end.
  match goal with H : initialize_borrow_settings _ _ _ _ = _ |- _ =>
    apply borrow_settings_accounting in H end.
  - by eapply default_rates_accounting.
  - apply (accounting_settings s); try done; destruct Hi as [[] _]; by split.
Qed.

Lemma update_config_accounting caller update env s r s' :
  accounting_inv s → update_config caller update env s = (Ok r, s') → accounting_inv s'.
Proof.
  destruct r as [prev next]. intros Hi H.
  apply update_config_Ok in H as (_ & _ & -> & _ & Hwf & ->).
  assert (config_wf next) as Hn by (apply Hwf, get_config_wf, Hi).
  apply (accounting_settings s); try done. destruct Hi as [[] _]. split; try done.
  by intros c [= <-].
Qed.

Lemma perform_accounting delegator c env s u s' :
  accounting_inv s → perform delegator c env s = (Ok u, s') → accounting_inv s'.
Proof.
  unfold perform. intros Hi. destruct (mc_action c); intros H; run_step H; subst.
  - match goal with H : deposit_with_auth _ _ _ _ _ _ = _ |- _ =>
      apply vault_deposit_Ok in H as [[_ _ _ _ _ ->] _] end. same_debt.
  - match goal with H : withdraw_with_auth _ _ _ _ _ _ = _ |- _ =>
      apply withdraw_Ok in H as [[_ _ _ _ _ [t ->]] _] end. same_debt.
  - eapply borrow_accounting; [|exact Hi|eassumption]. apply variable_ready.
  - by eapply repay_accounting.
  - by eapply collateral_accounting.
Qed.

Lemma execute_delegated_accounting d e n t cs env s u s' :
  accounting_inv s → execute_delegated d e n t cs env s = (Ok u, s') → accounting_inv s'.
Proof.
  unfold execute_delegated. intros Hi H. run_step H; subst.
  match goal with H : set_nonce _ _ _ _ = _ |- _ => apply set_nonce_Ok in H as -> end.
  match goal with H : for_each _ _ _ _ = _ |- _ =>
    apply (for_each_Ok cs _ accounting_inv (λ _, True) env) in H as [? _] end; [done| |same_debt].
  intros c s1 u1 s2 Hs1 Hc. unfold validate_delegation in Hc. run_step Hc; subst.
  split; [|done]. by eapply perform_accounting.
Qed.

Lemma liquidate_accounting l x da ca d env s u s' :
  settings_ok s → accounting_inv s → liquidate l x da ca d env s = (Ok u, s') → accounting_inv s'.
Proof.
  unfold liquidate. intros Hset Hi H.
  apply bind_Ok in H as (? & s0 & [_ ->]%require_auth_Ok & H).
  apply bind_Ok in H as (p & s0 & [-> ->]%gets_Ok & H).
  apply bind_Ok in H as (? & s0 & [_ ->]%reject_if_Ok & H).
  apply bind_Ok in H as (dv & s1 & Hdv & H). apply bind_Ok in H as (hf & s2 & Hhf & H).
  unfold get_debt_value in Hdv. apply bind_Ok in Hdv as (q & s3 & Hq & [_ ->]%debt_value_Ok).
  assert (accounting_inv s3) as H3 by (by eapply view_accounting).
  apply get_health_factor_Ok in Hhf as (q' & Hq' & _);
    [|eapply settings_ok_equiv; [by eapply user_debt_equiv|done]].
  assert (accounting_inv s2) as H2 by (by eapply view_accounting).
  clear Hi H3. run_step H; subst; [|done].
  unfold add_bad_debt in *. match goal with H : _ = (Ok _, ?s4) |- _ => run_step H; subst end.
  same_debt.
Qed.

Lemma execute_commitment_accounting id env s u s' :
  accounting_inv s → execute_borrow_commitment id env s = (Ok u, s') → accounting_inv s'.
Proof.
  unfold execute_borrow_commitment, set_commitment. intros Hi H. run_step H; subst.
  match goal with H : triggers_satisfied _ _ _ _ = _ |- _ =>
    apply triggers_satisfied_Ok in H as (_ & -> & ->) end.
  match goal with H : validate_collateral_ratio _ _ _ _ = _ |- _ =>
    apply validate_collateral_ratio_Ok in H as [-> _] end.
  match goal with H : borrow_from_commitment _ _ _ _ _ _ _ = _ |- _ =>
    apply borrow_accounting in H; [|apply variable_ready|done] end.
  clear Hi. same_debt.
Qed.

Lemma receive_accounting t f x p env s u s' :
  accounting_inv s → receive t f x p env s = (Ok u, s') → accounting_inv s'.
Proof.
  intros Hi H. unfold receive in H. destruct p as [|v p]; [by run_inv H|].
  apply bind_Ok in H as (act & s1 & [Hv ->]%unwrap_Ok & H).
  destruct (bool_decide _); [by eapply collateral_accounting|].
  destruct (bool_decide _); [by eapply repay_accounting|by run_inv H].
Qed.

Lemma dispatch_accounting c env s :
  disciplined c s → settings_ok s → accounting_inv s → accounting_inv (dispatch c env s).
Proof.
  intros Hdisc Hset Hi.
  destruct c; cbn [dispatch]; apply final_keeps; try exact Hi; intros r s' H.
  - by eapply initialize_accounting.
  - unfold set_delegation_registry, Meta.set_delegation_registry in H. run_step H.
    apply check_admin_Ok in Hrun as (_ & _ & ->). subst. same_debt.
  - by eapply execute_delegated_accounting.
  - unfold add_bad_debt in H. run_inv H. same_debt.
  - by eapply borrow_accounting.
  - unfold set_pause, Pause.set_pause in H. run_step H.
    apply check_admin_Ok in Hrun as (_ & _ & ->). subst. same_debt.
  - unfold repay in H. run_step H; subst. by eapply repay_accounting.
  - unfold repay_with_rate in H. run_step H; subst. by eapply repay_with_rate_accounting.
  - unfold switch_rate_type in H. run_step H; subst. by eapply switch_accounting.
  - unfold deposit in H. run_step H; subst.
    match goal with H : Vault.deposit _ _ _ _ _ = _ |- _ =>
      apply vault_deposit_Ok in H as [[_ _ _ _ _ ->] _] end. same_debt.
  - unfold deposit_collateral in H. run_step H; subst. by eapply collateral_accounting.
  - by eapply liquidate_accounting.
  - by eapply view_accounting.
  - unfold set_variable_borrow_rate_bps in H. open_run H. by eapply update_config_accounting.
  - unfold set_oracle in H. open_run H. apply (accounting_settings s); try done.
    destruct Hi as [[] _]. by split.
  - unfold set_liquidation_threshold_bps in H. open_run H. apply (accounting_settings s); try done.
    destruct Hi as [[] _]. by split.
  - unfold initialize_deposit_settings in H. run_inv H. same_debt.
  - unfold set_deposit_paused in H. run_inv H. same_debt.
  - unfold set_flash_loan_fee_bps, FlashLoan.set_flash_loan_fee_bps in H. run_inv H. same_debt.
  - unfold update_interest_rate_model in H. run_step H; subst.
    match goal with H : update_config _ _ _ _ = _ |- _ => apply update_config_accounting in H; [|done] end.
    clear Hi. same_debt.
  - unfold withdraw in H. run_step H; subst.
    match goal with H : Vault.withdraw _ _ _ _ _ = _ |- _ =>
      apply withdraw_Ok in H as [[_ _ _ _ _ [t ->]] _] end. same_debt.
  - unfold initialize_withdraw_settings in H. run_inv H. same_debt.
  - unfold set_withdraw_paused in H. run_inv H. same_debt.
  - by eapply receive_accounting.
  - by eapply borrow_settings_accounting.
  - unfold set_stablecoin_config in H. open_run H. apply (accounting_settings s); try done.
    destruct Hi as [[Hc Ha Hp Hf Hst] _]. split; try done.
    intros a cfg. unfold get_stablecoin_config. cbn.
    intros [[_ <-]|[_ Hl]]%lookup_insert_Some; [exact Hdisc|by apply (Hst a)].
  - apply set_risk_alert_thresholds_Ok in H as (_ & _ & _ & ->). same_debt.
  - unfold create_borrow_commitment, set_commitment in H. run_step H. subst.
    match goal with H : validate_collateral_ratio _ _ _ _ = _ |- _ =>
      apply validate_collateral_ratio_Ok in H as [-> _] end. same_debt.
  - apply cancel_borrow_commitment_Ok in H as (c & _ & _ & _ & _ & ->). same_debt.
  - by eapply execute_commitment_accounting.
  - unfold recover_bad_debt in H. run_step H.
    apply check_admin_Ok in Hrun as (_ & _ & ->). subst. same_debt.
Qed.

Lemma empty_accounting : accounting_inv empty_state.
Proof.
  split; [by split|]. split; [reflexivity|by intros u _|by intros [] u p].
Qed.

Lemma disciplined_is_reachable s : disciplined_reachable s → reachable s.
Proof.
  induction 1 as [|c env s _ IH Hr _|W this bal tr cb receiver asset amount params env s w _ IH].
  - constructor.
  - eapply reachable_step; [exact IH|by apply step_call].
  - eapply reachable_step; [exact IH|apply step_flash_loan].
Qed.

Lemma disciplined_accounting s : disciplined_reachable s → accounting_inv s.
Proof.
  induction 1 as [|c env s Hd IH Hr Hdisc|W this bal tr cb receiver asset amount params env s w Hd IH].
  - apply empty_accounting.
  - apply dispatch_accounting; [done| |done]. by apply reachable_inv, disciplined_is_reachable.
  - unfold invoke.
    destruct (flash_loan _ _ _ _ _ _ _ _ env (s, w)) as [[u|e|] [s1 w1]] eqn:E; [|done|done].
    apply flash_loan_Ok in E as (_ & _ & _ & _ & ->). cbn. same_debt.
Qed.

(** ** Properties *)

(** C1: after any sequence of invocations in which no user opens a stable-rate
    debt before a variable-rate one and no stability fee is negative, the stored
    debt total is the sum of all users' principals over both rate buckets, no
    principal or interest is negative, and no user owes more than the total. *)
Theorem debt_total_is_sum_of_positions s :
  disciplined_reachable s →
  get_total_debt s = debt_entry_sum s ∧ 0 ≤ get_total_debt s ∧
  (∀ rt u, 0 ≤ bucket_principal rt (st_borrow s) u ≤ get_total_debt s) ∧
  entries_nonneg (st_borrow s).
Proof.
  intros [_ Hok]%disciplined_accounting. pose proof (do_total _ Hok) as Ht.
  assert (∀ rt u, 0 ≤ bucket_principal rt (st_borrow s) u ≤ get_total_debt s) as Hb
    by (intros rt u; by apply debt_ok_bounds).
  split_and!; [exact Ht| |exact Hb|apply Hok].
  pose proof (Hb VariableRate admin). lia.
Qed.

(** A run for the example: alice borrows at the variable rate, then part of it
    at the stable rate, and repays some. *)
Definition demo_run : LState :=
  dispatch (CallRepay alice usd 700) (demo_env 5000)
    (dispatch (CallBorrow alice usd 2000 gold 3000 StableRate) (demo_env 200)
      (dispatch (CallBorrow alice usd 1000 gold 1500 VariableRate) (demo_env 150)
        (dispatch (CallInitialize admin 1000000000 1000) (demo_env 100) empty_state))).

Lemma demo_run_reachable : disciplined_reachable demo_run.
Proof.
  unfold demo_run. repeat (apply dr_call; [|exact I|]).
  - apply dr_deployed.
  - exact I.
  - done.
  - intros _. vm_compute. eauto.
  - exact I.
Qed.

Lemma debt_total_is_sum_of_positions_witness :
  get_total_debt demo_run = debt_entry_sum demo_run ∧ 0 ≤ get_total_debt demo_run ∧
  (∀ rt u, 0 ≤ bucket_principal rt (st_borrow demo_run) u ≤ get_total_debt demo_run) ∧
  entries_nonneg (st_borrow demo_run).
Proof. apply (debt_total_is_sum_of_positions demo_run). apply demo_run_reachable. Defined.
